(* ===== verification/_CoqProject ===== *)
-Q . S2P
Prelude.v
Text.v
Collections.v
Evaluator.v
EvaluatorProofs.v
Contract.v
Context.v
Domain.v
MailMessage.v
UnitOfWork.v
AccessModel.v
SchemaPlan.v
Mfa.v
Authorization.v
SpiceDb.v
TrustedContext.v
Headers.v
Ingress.v
Postgres.v
Outbox.v
OutboxWorker.v
KernelState.v
Kernel.v
Organizations.v
KernelHistory.v
OrganizationHistory.v
OrganizationProofs.v
Authority.v
Owners.v
KernelTheorems.v
KernelWire.v
KernelExample.v
Store.v
Jwt.v
Tokens.v
TokenService.v
RateLimits.v
Sessions.v
Passwords.v
Workflows.v
TokenProofs.v
WorkflowProofs.v
Credentials.v
CredentialHistory.v
CredentialWire.v
MfaService.v
MfaProofs.v
Flows.v
OAuth.v
OAuthProofs.v
Passkeys.v
PasskeyProofs.v
ManagementWire.v
Management.v
ManagementProofs.v
OrganizationExample.v
TokenExample.v
CredentialExample.v
AccountExample.v
Metadata.v
PathPolicy.v
Authn.v
WasiFields.v
AuthnRuntime.v
Cors.v
Middleware.v
MiddlewareProofs.v
MiddlewareChain.v
MiddlewareExample.v
AuthzClient.v
HttpPep.v
HttpPepProofs.v
CedarEngine.v
CedarPdp.v
CedarProofs.v
Cedar.v
SpicePdp.v
SpiceProofs.v
Administration.v
DecisionExample.v
