(* ===== verification/Prelude.v ===== *)
(** * wasi-auth: a verification development

    ** The program

    [wasi-auth] is an authentication and authorization kit for WASI
    components, written in Rust.  The paths below are under
    [src/crates/wasi-auth/src] unless they say otherwise.

    - The HTTP boundary ([http.rs]) strips every reserved header the client
      sent, finds the one credential of the request, checks cookies, CSRF and
      CORS, and asks an authenticator for a [RequestContext].  The trusted
      context envelope (same file) seals that context with an HMAC so that a
      component behind the boundary can open it, bound to the exact request,
      for at most a minute.
    - The domain ([authentication.rs], [context.rs], [authentication/]) holds
      users, sessions, organizations, invitations, roles, tokens, second
      factors and the atomic unit of work that persists them.
    - The relational kernel ([postgres.rs], [postgres/*.sql], the migrations
      with their triggers) keeps the same facts in PostgreSQL; the services of
      [postgres/*.rs] validate a request, execute one statement and decode its
      rows: tokens, sessions, rate limits, passwords, organizations,
      invitations, multi-factor, passkeys, OAuth, policies, signing keys.
    - The outbox workers ([postgres/outbox.rs]) deliver mail and relationship
      changes after the transaction that recorded them.
    - The authorization layer ([authorization.rs], [spicedb.rs], the AuthZEN
      contract of [src/crates/wasi-authz-contract], and the relationship
      evaluator of [testkit/evaluator]) turns a verified context into a
      tenant-scoped decision request and a decision.
    - The first-generation middleware ([src/legacy/wasi-http-middleware]) is a
      set of WASI HTTP components: request identifiers, security headers,
      CORS, authentication against a broker, and one component that fuses
      them.
    - Behind it the enforcement point ([src/crates/wasi-authz-http],
      [src/components/http-pep]) turns the trusted context of a request into
      an AuthZEN evaluation and sends it with the client of
      [src/crates/wasi-authz-client] to a decision point: the Cedar provider
      ([src/crates/wasi-authz-cedar]) behind the service core and the
      component of [src/services/cedar-pdp] and [src/components/cedar-pdp], or
      the SpiceDB provider ([src/crates/wasi-authz-spicedb]) behind
      [src/components/spicedb-pdp].  [cedar.rs] embeds the Cedar engine in the
      library.

    ** Conventions

    - Rust's [Result] is [result E A] with the early return [let? x := m in k]
      and the guard [fail? b with e ;; k]; an infallible step inside such a
      chain is an ordinary [let].  Code that acts on a world is a function of
      it that returns the world it leaves, also on an error ([io] in
      [Postgres]).
    - A [String] or [&str] is [str := list Z], the list of its Unicode code
      points; [str_len] is its length in bytes, and [String] order is the
      lexicographic order of code points, which is the order of the UTF-8
      bytes.  Bytes are [list Z] with values in [0, 256).
    - A machine integer is a [Z] with the width written out where the code
      relies on it ([u64_saturating_add], [u64_checked_add], truncations).
    - A [BTreeMap] or [BTreeSet] is a strictly sorted list ([Collections]); a
      database table is a [gmap] by its primary key.
    - An SQL statement is one atomic transition: its data-modifying
      expressions read the state before it, an error leaves the state as it
      was, an empty result is a statement whose guards did not hold.  A call
      of a service executes its statement at one moment between the call and
      its return; any other statement of the library may run before and after
      that moment, and a failed call may or may not have executed.

    ** Files

    - Shared: [Prelude] (results, reflection, machine arithmetic, hint
      databases, tactics), [Text] (code points, trimming, splitting, decimal
      and hexadecimal text), [Collections] (sorted association lists, the
      value trees of [serde_json]).
    - Authorization: [Evaluator] and [EvaluatorProofs]
      ([testkit/evaluator/{model,engine}.rs], against an inductive
      three-valued derivability relation), [Contract] (the AuthZEN wire
      types), [Authorization] ([authorization.rs] and the provider of
      [testkit.rs], with the [DecisionProvider] interface), [SpiceDb].
    - Domain: [Context], [Domain], [MailMessage], [UnitOfWork] (the atomic
      store as a refinement of an append-only log), [AccessModel] (the
      permission catalog), [SchemaPlan] (the migration planner), [Mfa], [Jwt].
    - Boundary: [TrustedContext] (the sealed envelope), [Headers] (the
      interface of the header map and of URIs), [Ingress] (the handlers of
      [http.rs]).
    - Outbox: [Postgres] (calls on a world, parameters and rows), [Outbox]
      (the table as a step relation for any number of workers, from what
      migration 0010 leaves: old rows retired, a grant for every member),
      [OutboxWorker] (the two dispatch loops, each a run of that relation, and
      the relationship writer of [SpiceDb] over the transport of the worker).
    - Kernel statements: [KernelState] (tables), [Kernel] (sessions, tokens,
      passwords, one-time tokens), [Organizations] (management, with the owner
      and relationship triggers), [Credentials] (factors, flows, passkeys,
      external identities).  [KernelHistory], [OrganizationHistory] and
      [CredentialHistory] show what no statement can undo; [KernelTheorems],
      [OrganizationProofs], [Authority] and [Owners] state the
      properties of every run.  [KernelWire], [ManagementWire] and
      [CredentialWire] execute the statement texts on parameters and lay out
      the result columns.
    - Services over the statements: [Store], [Tokens], [TokenService],
      [RateLimits], [Sessions], [Passwords], [Workflows], [Management],
      [MfaService], [Flows], [OAuth], [Passkeys], with their theorems in
      [TokenProofs], [WorkflowProofs], [ManagementProofs], [MfaProofs],
      [OAuthProofs], [PasskeyProofs].  [Administration] holds the tables,
      statements and services of policy bundles and signing keys.
    - Legacy middleware: [Metadata] (the trusted context header), [PathPolicy]
      (paths, request identifiers, header extraction, broker documents),
      [Authn] (the in-process library), [WasiFields] (header edits on the
      [wasi:http] host), [AuthnRuntime] (the broker exchange, its admission
      guard also as a step relation), [Cors], [Middleware] (the handlers),
      [MiddlewareProofs], [MiddlewareChain].
    - Decision points: [AuthzClient] (endpoints, bearer credentials, the
      client and its reading of an answer, one bounded exchange on the
      [wasi:http] host), [HttpPep] (the enforcement component) with
      [HttpPepProofs], [CedarEngine] (the interface of the engine), [CedarPdp]
      (provider, service core, component) with [CedarProofs], [Cedar] (the
      embedded provider), [SpicePdp] (provider and component) with
      [SpiceProofs].
    - Concrete machines on which the theorems are applied: [KernelExample],
      [OrganizationExample], [TokenExample], [CredentialExample],
      [AccountExample], [MiddlewareExample], [DecisionExample].

    ** Theorems

    - Authorization is sound, complete and tenant-scoped:
      [check_decides_semantics], [check_ignores_other_tenants],
      [list_objects_exact], [request_tenant_boundary].  Failures deny:
      [decision_fail_closed], [spicedb_check_fail_closed].
    - Nothing enters unverified: [open_checks_everything],
      [ingress_context_earned], [browser_mutation_needs_csrf],
      [secure_forwards_earned], [authentication_earned],
      [parsed_context_valid], [cors_grants_exact], [normalized_path_safe].
    - Tokens: [refresh_family_linear], [refresh_token_rotates_once],
      [reuse_revokes_family_for_good], [verified_token_is_current],
      [cached_token_is_current], [refresh_was_allowed], [refreshes_agree].
    - Accounts: [login_was_allowed], [login_refusals_uniform],
      [password_change_expels_others], [reset_takes_effect_once],
      [registration_idempotent], [rate_limit_bounded], [session_revoke_final],
      [totp_steps_increase], [recovery_code_single_use],
      [passkey_login_exact], [oauth_login_exact], [oauth_identity_stable].
    - Organizations: [every_organization_owned] (with the one exception that
      [self_invitation_orphans] exhibits), [management_privileged],
      [ownership_earned], [ownership_lost], [upsert_role_exact],
      [delete_role_exact], [audit_page_exact].
    - Storage and delivery: [commit_refines_log];
      [relationships_delivered_in_order], [outbox_statuses_earned],
      [mail_dispatch_refines], [relationship_dispatch_refines].
    - The fused component is the chain it replaces
      ([fused_agrees_with_chain]), every answer carries the baseline headers
      ([secure_answers_baseline]), admission to the broker is bounded and live
      ([in_flight_bounded], [in_flight_live]).
    - Administration: [revoked_keys_stay_out], [rotation_effect],
      [publication_exact], [replacement_needs_order],
      [synchronization_needs_private_keys]; for the kernel these statements
      are steps of the kind it allows ([admin_statement_kstep]).
    - A service behind the middleware and the enforcement point is called for
      explicitly allowed requests only ([guarded_service],
      [pep_forwards_allowed]); what the enforcement point accepts as
      configuration, what it sends and what it takes for a decision:
      [pep_configuration_safe], [pdp_exchange_exact],
      [coarse_evaluation_exact].
    - Cedar: the client of the service gets the decision of the provider
      ([remote_cedar_agrees]), the component answers its configured callers
      ([cedar_component_guarded]), and the policies see verified facts of
      principals that are not confused ([cedar_principals_distinct],
      [cedar_principal_facts], [embedded_check_exact]).
    - SpiceDB: a decision is one check of the configured permission
      ([spice_decision_exact], [permission_map_exact]), the component answers
      its callers, with a credential of its own towards SpiceDB
      ([spice_component_guarded]), and any provider may be asked through its
      service ([remote_agrees], [remote_spice_agrees]).
    - Round trips: sealed contexts, trusted headers, wire requests, issued
      tokens, password hashes, flows, enrollments, Base32, recovery codes.
    - Termination: [evaluator_terminates], [expand_least_closure].

    ** Bounds and fuel

    The evaluator recurses with fuel [S max_depth]; it stops at [max_depth],
    so the fuel is never exhausted ([evaluator_terminates]).  The permission
    expansion has as many rounds as definitions, each of which adds one
    ([expand_least_closure]).  The bit accumulator of Base32 drains at most as
    often as it holds bits, and [decimal] writes the ten digits a [u32] can
    have. Every other loop is structural on its input; the dispatch loops and
    the broker exchange are bounded by the batch and by the body limit.

    ** Parameters

    Code that the repository only calls is an argument of the definitions that
    use it, with the documented laws the theorems need as class fields or
    named hypotheses, and with a concrete instance in the witnesses: HMAC and
    SHA-256, AES-GCM, Argon2id, Base64, UUID text ([UuidText]), the JSON
    codecs of the wire structures ([MailCodec], [ResponseCodec], [OAuthCodec],
    [MetadataCodec], [BrokerCodec], [AuthzenCodec], [PdpCodec], [SpiceCodec],
    [PolicyCodec]), [jsonwebtoken] ([JwtLibrary], [JwtLaws]), the WebAuthn
    library ([WebauthnLibrary], [PasskeyLaws]), the [http] crate's header map,
    methods and URIs ([HttpHeaders], [HttpMethods], [UriParser],
    [HeaderBytes]), the [wasi:http] host ([WasiHttp], [Wasip3Host]), the
    [cedar-policy] engine ([CedarEngine], [CedarLaws]), the database
    transport, clock and random source ([KernelWorld], [ManagementWorld],
    [AuthWorld], whose clock is a [u64], [AdminWorld], [OutboxWorld] with
    [RelationshipWriter]), the broker's network
    ([BrokerWorld], [BrokerTransport]), the HTTP transport of a decision
    provider and the mail provider.

    ** Not modelled

    Configuration loading from the environment ([config.rs]), the mail
    transports, the WASI 0.2 transport of the AuthZEN client, the Spin, gRPC
    and Leptos adapters, the service binaries and the migration tool: I/O
    around the parts above, or clients of code outside the repository.
    [Debug] redaction and zeroing on drop have no counterpart in the model. *)

From Stdlib Require Export ZArith Lia.
From stdpp Require Export base option numbers strings list.

#[export] Set Default Proof Using "Type".

(** ** Results: Rust's [Result<A, E>] and the [?] operator *)

Inductive result (E A : Type) : Type :=
| Ok (a : A)
| Err (e : E).
Arguments Ok {E A} a.
Arguments Err {E A} e.

#[export] Instance result_eq_dec `{EqDecision E, EqDecision A} :
  EqDecision (result E A).
Proof. solve_decision. Defined.

Declare Scope result_scope.
Delimit Scope result_scope with res.
Open Scope result_scope.

Definition rbind {E A B} (m : result E A) (k : A → result E B) : result E B :=
  match m with Ok a => k a | Err e => Err e end.

Definition map_err {E F A} (f : E → F) (m : result E A) : result F A :=
  match m with Ok a => Ok a | Err e => Err (f e) end.

Definition rmap {E A B} (f : A → B) (m : result E A) : result E B :=
  match m with Ok a => Ok (f a) | Err e => Err e end.

(** [Option::ok_or]. *)
Definition ok_or {E A} (o : option A) (e : E) : result E A :=
  match o with Some a => Ok a | None => Err e end.

(** [Result::ok]. *)
Definition ok {E A} (m : result E A) : option A :=
  match m with Ok a => Some a | Err _ => None end.

(** [Option::transpose] on an [Option<Result<_, _>>] obtained by mapping. *)
Definition transpose_map {E A B} (f : A → result E B) (o : option A) :
    result E (option B) :=
  match o with
  | None => Ok None
  | Some a => rmap Some (f a)
  end.

Definition is_ok {E A} (m : result E A) : bool :=
  match m with Ok _ => true | Err _ => false end.

Notation "'let?' x := m 'in' k" := (rbind m (λ x, k))
  (at level 10, x pattern, m at level 99, k at level 200,
   format "'[v' 'let?'  x  :=  m  'in'  '/' k ']'") : result_scope.
(** A fallible statement whose value is dropped: [m?; k]. *)
Notation "'try?' m ;; k" := (rbind m (λ _ : unit, k))
  (at level 10, m at level 99, k at level 200,
   format "'[v' 'try?'  m  ;;  '/' k ']'") : result_scope.
(** [if c { return Err(e) }; k] *)
Notation "'fail?' c 'with' e ;; k" := (if (c : bool) then Err e else k)
  (at level 10, c at level 99, e at level 99, k at level 200,
   format "'[v' 'fail?'  c  'with'  e  ;;  '/' k ']'") : result_scope.

Section loops.
Context {E A : Type}.

(** [iter().map(f).collect::<Result<Vec<_>, _>>()]: stops at the first error. *)
Definition collect_map {B} (f : A → result E B) : list A → result E (list B) :=
  fix go l :=
    match l with
    | [] => Ok []
    | x :: l =>
        let? y := f x in
        let? ys := go l in
        Ok (y :: ys)
    end.

(** [for x in l { f(x)?; }] *)
Definition for_each (f : A → result E unit) : list A → result E unit :=
  fix go l :=
    match l with
    | [] => Ok tt
    | x :: l => try? f x ;; go l
    end.

(** A loop that threads an accumulator and stops at the first error:
    [for x in l { acc = f(acc, x)?; }]. *)
Definition try_fold {S} (f : S → A → result E S) : S → list A → result E S :=
  fix go acc l :=
    match l with
    | [] => Ok acc
    | x :: l => let? acc := f acc x in go acc l
    end.
End loops.

(** ** Machine integers *)

Definition u64_max : Z := 18446744073709551615.
Definition i64_max : Z := 9223372036854775807.
Definition is_u64 (n : Z) : Prop := (0 ≤ n ≤ u64_max)%Z.

Definition u64_saturating_add (a b : Z) : Z := Z.min u64_max (a + b).
Definition u64_saturating_sub (a b : Z) : Z := Z.max 0 (a - b).
Definition u64_saturating_mul (a b : Z) : Z := Z.min u64_max (a * b).
Definition u64_checked_add (a b : Z) : option Z :=
  if (a + b <=? u64_max)%Z then Some (a + b)%Z else None.
Definition u64_checked_sub (a b : Z) : option Z :=
  if (b <=? a)%Z then Some (a - b)%Z else None.

(** [u64::to_be_bytes] *)
Definition to_be_bytes (n : Z) : list Z :=
  map (λ i, Z.land (Z.shiftr n (8 * Z.of_nat i)) 0xff) [7; 6; 5; 4; 3; 2; 1; 0]%nat.

(** ** Automation *)

Create Rewrite HintDb brefl.
Create HintDb wauth.
#[export] Hint Rewrite
  andb_true_iff orb_true_iff negb_true_iff andb_false_iff orb_false_iff
  negb_false_iff Z.leb_le Z.ltb_lt Z.eqb_eq Z.leb_gt Z.ltb_ge Z.eqb_neq
  @bool_decide_eq_true @bool_decide_eq_false : brefl.

(** Turns boolean tests of the code into the propositions they decide. *)
Ltac bprop := autorewrite with brefl in *.

(** Splits every [let?], [try?] and [fail?] of a hypothesis [H : m = Ok _]. *)
Ltac ok_inv H :=
  repeat (
    unfold rbind, rmap, map_err, ok_or in H; cbn beta iota in H;
    match type of H with
    | context [match ?m with Ok _ => _ | Err _ => _ end] =>
        lazymatch m with
        | context [match _ with Ok _ => _ | Err _ => _ end] => fail
        | _ => destruct m eqn:?; [|discriminate H]
        end
    | context [match ?o with Some _ => _ | None => _ end] =>
        destruct o eqn:?; try discriminate H
    | (if ?c then Err _ else _) = _ => destruct c eqn:?; [discriminate H|]
    | (if ?c then _ else Err _) = _ => destruct c eqn:?; [|discriminate H]
    end);
  try (injection H as H; subst).

Lemma rbind_Ok {E A B} (m : result E A) (k : A → result E B) b :
  rbind m k = Ok b ↔ ∃ a, m = Ok a ∧ k a = Ok b.
Proof. destruct m; cbn; naive_solver. Qed.

Lemma rmap_Ok {E A B} (f : A → B) (m : result E A) b :
  rmap f m = Ok b ↔ ∃ a, m = Ok a ∧ b = f a.
Proof. destruct m; cbn; naive_solver. Qed.

Lemma map_err_Ok {E F A} (f : E → F) (m : result E A) a :
  map_err f m = Ok a ↔ m = Ok a.
Proof. destruct m; cbn; naive_solver. Qed.

Lemma fail_Ok {E A} (c : bool) (e : E) (k : result E A) a :
  (if c then Err e else k) = Ok a ↔ c = false ∧ k = Ok a.
Proof. destruct c; naive_solver. Qed.

Lemma ok_or_Ok {E A} (o : option A) (e : E) a : ok_or o e = Ok a ↔ o = Some a.
Proof. destruct o; cbn; naive_solver. Qed.

Lemma collect_map_Ok {E A B} (f : A → result E B) l l' :
  collect_map f l = Ok l' ↔ Forall2 (λ x y, f x = Ok y) l l'.
Proof.
  revert l'; induction l as [|x l IH]; intros l'; cbn.
  - split; [intros [= <-]; constructor|inversion 1; done].
  - rewrite rbind_Ok. setoid_rewrite rbind_Ok. setoid_rewrite IH. split.
    + intros (y & Hy & ys & Hys & [= <-]). by constructor.
    + inversion_clear 1; eauto.
Qed.

(** A collection whose every step succeeds collects every value. *)
Lemma collect_map_pure {E A B} (f : A → result E B) (g : A → B) l :
  (∀ x, x ∈ l → f x = Ok (g x)) → collect_map f l = Ok (map g l).
Proof.
  induction l as [|x l IH]; intros H; cbn; [done|].
  rewrite (H x) by left; cbn. rewrite IH by (intros; apply H; by right). done.
Qed.

Lemma length_collect_map {E A B} (f : A → result E B) l l' :
  collect_map f l = Ok l' → length l' = length l.
Proof. intros H%collect_map_Ok. symmetry. by eapply Forall2_length. Qed.

Lemma for_each_Ok {E A} (f : A → result E unit) l :
  for_each f l = Ok tt ↔ Forall (λ x, f x = Ok tt) l.
Proof.
  induction l as [|x l IH]; cbn; [naive_solver|].
  rewrite Forall_cons, rbind_Ok, <- IH. split.
  - intros ([] & ? & ?); auto.
  - intros [??]; eauto.
Qed.

Lemma forallb_spec {A} (p : A → bool) l :
  forallb p l = true ↔ ∀ x, x ∈ l → p x = true.
Proof.
  rewrite forallb_forall. setoid_rewrite list_elem_of_In. done.
Qed.

Lemma existsb_spec {A} (p : A → bool) l :
  existsb p l = true ↔ ∃ x, x ∈ l ∧ p x = true.
Proof.
  rewrite existsb_exists. setoid_rewrite list_elem_of_In. done.
Qed.

Lemma existsb_false_spec {A} (p : A → bool) l :
  existsb p l = false ↔ ∀ x, x ∈ l → p x = false.
Proof.
  rewrite <- not_true_iff_false, existsb_spec. split.
  - intros H x Hx. destruct (p x) eqn:E; [|done]. exfalso; eauto.
  - intros H (x & Hx & E). rewrite H in E by done. done.
Qed.

Lemma elem_of_filterb {A} (p : A → bool) l x :
  x ∈ List.filter p l ↔ x ∈ l ∧ p x = true.
Proof. rewrite !list_elem_of_In. apply filter_In. Qed.
