(* ===== verification/Text.v ===== *)
(** * Text: Rust's [str], [char] and byte-string operations

    A Rust [str] is a sequence of Unicode scalar values; it is modelled as the
    list of their code points ([str]), and [s.len()], [s.bytes()] and
    [String::from_utf8] go through the UTF-8 encoding written out below.  The
    file also holds the [char] classes, [trim], [split_once], [split] and the
    byte order on strings that the other components use, with their lemmas. *)

From S2P Require Export Prelude.
Open Scope Z_scope.

Abbreviation char := Z (only parsing).
Abbreviation str := (list Z) (only parsing).

(** ASCII literals of the source. *)
Definition lit (s : string) : str :=
  map (λ a, Z.of_N (Ascii.N_of_ascii a)) (String.list_ascii_of_string s).

Definition is_scalar (c : char) : bool :=
  ((0 <=? c) && (c <? 0xD800)) || ((0xE000 <=? c) && (c <? 0x110000)).
(** The invariant of the type [str]. *)
Definition wf_str (s : str) : bool := forallb is_scalar s.

(** ** UTF-8 *)

Definition utf8_char (c : char) : list Z :=
  if c <? 0x80 then [c]
  else if c <? 0x800 then [0xC0 + c / 64; 0x80 + c mod 64]
  else if c <? 0x10000 then
    [0xE0 + c / 4096; 0x80 + (c / 64) mod 64; 0x80 + c mod 64]
  else
    [0xF0 + c / 262144; 0x80 + (c / 4096) mod 64;
     0x80 + (c / 64) mod 64; 0x80 + c mod 64].

(** [str::as_bytes]. *)
Definition str_bytes (s : str) : list Z := s ≫= utf8_char.
(** [str::len]: the length in bytes. *)
Definition str_len (s : str) : Z := Z.of_nat (length (str_bytes s)).

Definition is_cont (b : Z) : bool := (0x80 <=? b) && (b <? 0xC0).

(** One step of [String::from_utf8]: the first scalar value and the rest.
    Overlong forms, surrogates and values above 0x10FFFF are rejected. *)
Definition utf8_next (bs : list Z) : option (char * list Z) :=
  match bs with
  | [] => None
  | b0 :: bs0 =>
    if (0 <=? b0) && (b0 <? 0x80) then Some (b0, bs0)
    else if (0xC2 <=? b0) && (b0 <? 0xE0) then
      match bs0 with
      | b1 :: r =>
        if is_cont b1 then Some ((b0 - 0xC0) * 64 + (b1 - 0x80), r) else None
      | _ => None
      end
    else if (0xE0 <=? b0) && (b0 <? 0xF0) then
      match bs0 with
      | b1 :: b2 :: r =>
        let c := (b0 - 0xE0) * 4096 + (b1 - 0x80) * 64 + (b2 - 0x80) in
        if is_cont b1 && is_cont b2 && (0x800 <=? c) && is_scalar c
        then Some (c, r) else None
      | _ => None
      end
    else if (0xF0 <=? b0) && (b0 <? 0xF5) then
      match bs0 with
      | b1 :: b2 :: b3 :: r =>
        let c := (b0 - 0xF0) * 262144 + (b1 - 0x80) * 4096
                 + (b2 - 0x80) * 64 + (b3 - 0x80) in
        if is_cont b1 && is_cont b2 && is_cont b3 && (0x10000 <=? c) && is_scalar c
        then Some (c, r) else None
      | _ => None
      end
    else None
  end.

Fixpoint from_utf8_fuel (fuel : nat) (bs : list Z) : option str :=
  match bs, fuel with
  | [], _ => Some []
  | _, O => None
  | _, S fuel =>
    match utf8_next bs with
    | None => None
    | Some (c, r) => (cons c) <$> from_utf8_fuel fuel r
    end
  end.
(** [String::from_utf8].  Every step consumes a byte, so [length bs] steps are
    enough. *)
Definition from_utf8 (bs : list Z) : option str := from_utf8_fuel (length bs) bs.

Lemma length_utf8_char c : (1 ≤ length (utf8_char c))%nat.
Proof. unfold utf8_char. repeat case_match; cbn; lia. Qed.

Lemma utf8_next_char c r :
  is_scalar c = true → utf8_next (utf8_char c ++ r) = Some (c, r).
Proof.
  intros Hc. pose proof Hc as Hc'. unfold is_scalar in Hc'.
  assert (0 ≤ c < 0x110000) as Hb by lia.
  pose proof (Z.mod_pos_bound c 64 ltac:(lia)).
  pose proof (Z.mod_pos_bound (c / 64) 64 ltac:(lia)).
  pose proof (Z.mod_pos_bound (c / 4096) 64 ltac:(lia)).
  pose proof (Z.div_mod c 64 ltac:(lia)).
  pose proof (Z.div_mod (c / 64) 64 ltac:(lia)).
  pose proof (Z.div_mod (c / 4096) 64 ltac:(lia)).
  assert (c / 64 / 64 = c / 4096) by (rewrite Z.div_div by lia; done).
  assert (c / 4096 / 64 = c / 262144) by (rewrite Z.div_div by lia; done).
  unfold utf8_char, utf8_next, is_cont.
  destruct (Z.ltb_spec c 0x80); cbn -[Z.mul Z.add Z.sub Z.div Z.modulo].
  { replace ((0 <=? c) && (c <? 128)) with true by lia. done. }
  destruct (Z.ltb_spec c 0x800); cbn -[Z.mul Z.add Z.sub Z.div Z.modulo].
  { replace ((0 <=? 192 + c / 64) && (192 + c / 64 <? 128)) with false by lia.
    replace ((194 <=? 192 + c / 64) && (192 + c / 64 <? 224)) with true by lia.
    replace ((128 <=? 128 + c mod 64) && (128 + c mod 64 <? 192)) with true by lia.
    do 2 f_equal. lia. }
  destruct (Z.ltb_spec c 0x10000); cbn -[Z.mul Z.add Z.sub Z.div Z.modulo].
  { replace ((0 <=? 224 + c / 4096) && (224 + c / 4096 <? 128)) with false by lia.
    replace ((194 <=? 224 + c / 4096) && (224 + c / 4096 <? 224)) with false by lia.
    replace ((224 <=? 224 + c / 4096) && (224 + c / 4096 <? 240)) with true by lia.
    replace ((224 + c / 4096 - 224) * 4096 + (128 + (c / 64) mod 64 - 128) * 64
             + (128 + c mod 64 - 128)) with c by lia.
    rewrite Hc.
    match goal with |- (if ?b then _ else _) = _ => replace b with true by lia end.
    done. }
  replace ((0 <=? 240 + c / 262144) && (240 + c / 262144 <? 128)) with false by lia.
  replace ((194 <=? 240 + c / 262144) && (240 + c / 262144 <? 224)) with false by lia.
  replace ((224 <=? 240 + c / 262144) && (240 + c / 262144 <? 240)) with false by lia.
  replace ((240 <=? 240 + c / 262144) && (240 + c / 262144 <? 245)) with true by lia.
  replace ((240 + c / 262144 - 240) * 262144 + (128 + (c / 4096) mod 64 - 128) * 4096
           + (128 + (c / 64) mod 64 - 128) * 64 + (128 + c mod 64 - 128))
    with c by lia.
  rewrite Hc.
  match goal with |- (if ?b then _ else _) = _ => replace b with true by lia end.
  done.
Qed.

(** Decoding the UTF-8 encoding of a string gives the string back. *)
Lemma from_utf8_str_bytes s : wf_str s = true → from_utf8 (str_bytes s) = Some s.
Proof.
  unfold from_utf8. intros Hwf.
  assert (∀ n, (length (str_bytes s) ≤ n)%nat →
               from_utf8_fuel n (str_bytes s) = Some s) as H; [|by apply H].
  revert Hwf. induction s as [|c s IH]; intros Hwf n Hn; [by destruct n|].
  cbn in Hwf. apply andb_true_iff in Hwf as [Hc Hs].
  change (str_bytes (c :: s)) with (utf8_char c ++ str_bytes s) in *.
  rewrite length_app in Hn. pose proof (length_utf8_char c).
  destruct n as [|n]; [lia|].
  destruct (utf8_char c ++ str_bytes s) as [|b r] eqn:E.
  { apply (f_equal length) in E. rewrite length_app in E. cbn in E. lia. }
  cbn [from_utf8_fuel]. rewrite <- E, utf8_next_char by done. cbn.
  rewrite IH by (done || lia). done.
Qed.

(** UTF-8 is injective on well-formed strings. *)
Lemma str_bytes_inj s1 s2 :
  wf_str s1 = true → wf_str s2 = true → str_bytes s1 = str_bytes s2 → s1 = s2.
Proof.
  intros H1 H2 E. apply from_utf8_str_bytes in H1, H2. rewrite E in H1. congruence.
Qed.

Lemma utf8_next_inv bs c r :
  utf8_next bs = Some (c, r) → bs = utf8_char c ++ r ∧ is_scalar c = true.
Proof.
  assert (∀ q a, 0 ≤ a < 64 → (q * 64 + a) / 64 = q ∧ (q * 64 + a) mod 64 = a) as HD.
  { intros q a Ha. split.
    - rewrite Z.div_add_l, Z.div_small by lia. lia.
    - rewrite Z.add_comm, Z.mod_add, Z.mod_small by lia. done. }
  unfold utf8_next, is_cont. intros H.
  repeat case_match; simplify_eq; bprop; destruct_and?;
    match goal with
    | |- ?b0 :: ?r = utf8_char ?b0 ++ ?r ∧ _ =>
        unfold utf8_char, is_scalar; replace (b0 <? 128) with true by lia; split; [done|lia]
    | |- _ = utf8_char ?c ++ _ ∧ _ =>
        remember c as x eqn:Ex; split; [|unfold is_scalar in *; lia];
        unfold utf8_char
    end.
  - destruct (HD (z - 192) (z0 - 128) ltac:(lia)) as [E1 E2].
    rewrite <- Ex in E1, E2. rewrite E1, E2.
    replace (x <? 128) with false by lia. replace (x <? 2048) with true by lia.
    cbn; repeat f_equal; lia.
  - destruct (HD ((z - 224) * 64 + (z0 - 128)) (z1 - 128) ltac:(lia)) as [E1 E2].
    destruct (HD (z - 224) (z0 - 128) ltac:(lia)) as [E3 E4].
    assert (x = ((z - 224) * 64 + (z0 - 128)) * 64 + (z1 - 128)) as Ec by lia.
    rewrite <- Ec in E1, E2. rewrite <- E1 in E3, E4. rewrite Z.div_div in E3 by lia.
    change (64 * 64) with 4096 in E3. rewrite E2, E3, E4.
    replace (x <? 128) with false by lia. replace (x <? 2048) with false by lia.
    replace (x <? 65536) with true by (unfold is_scalar in *; lia).
    cbn; repeat f_equal; lia.
  - destruct (HD (((z - 240) * 64 + (z0 - 128)) * 64 + (z1 - 128)) (z2 - 128)
                ltac:(lia)) as [E1 E2].
    destruct (HD ((z - 240) * 64 + (z0 - 128)) (z1 - 128) ltac:(lia)) as [E3 E4].
    destruct (HD (z - 240) (z0 - 128) ltac:(lia)) as [E5 E6].
    assert (x = (((z - 240) * 64 + (z0 - 128)) * 64 + (z1 - 128)) * 64 + (z2 - 128))
      as Ec by lia.
    rewrite <- Ec in E1, E2. rewrite <- E1 in E3, E4. rewrite Z.div_div in E3 by lia.
    change (64 * 64) with 4096 in E3. rewrite <- E3 in E5, E6.
    rewrite Z.div_div in E5 by lia. change (4096 * 64) with 262144 in E5.
    rewrite E2, E4, E5, E6.
    replace (x <? 128) with false by lia. replace (x <? 2048) with false by lia.
    replace (x <? 65536) with false by lia.
    cbn; repeat f_equal; lia.
Qed.

(** A decoded string encodes back to the bytes it was decoded from. *)
Lemma from_utf8_inv bs s :
  from_utf8 bs = Some s → str_bytes s = bs ∧ wf_str s = true.
Proof.
  unfold from_utf8. generalize (length bs) as n.
  intros n. revert bs s. induction n as [|n IH]; intros [|b bs] s H;
    cbn [from_utf8_fuel] in H; simplify_eq; try done.
  destruct (utf8_next (b :: bs)) as [[c r]|] eqn:E; [|done].
  apply fmap_Some in H as (s' & H & ->).
  apply utf8_next_inv in E as [-> Hc]. apply IH in H as [<- Hs].
  split; [done|]. cbn. by rewrite Hc.
Qed.

(** ** Character classes *)

Definition in_range (lo hi b : Z) : bool := (lo <=? b) && (b <=? hi).

Definition is_ascii_digit (b : Z) : bool := in_range 48 57 b.
Definition is_ascii_uppercase (b : Z) : bool := in_range 65 90 b.
Definition is_ascii_lowercase (b : Z) : bool := in_range 97 122 b.
Definition is_ascii_alphanumeric (b : Z) : bool :=
  is_ascii_digit b || is_ascii_uppercase b || is_ascii_lowercase b.
Definition is_ascii_control (b : Z) : bool := in_range 0 31 b || (b =? 127).
(** [u8::is_ascii_whitespace]: space, tab, line feed, form feed, return. *)
Definition is_ascii_whitespace (b : Z) : bool :=
  bool_decide (b ∈ [32; 9; 10; 12; 13]).
(** [char::is_control]: Unicode category Cc. *)
Definition is_control (c : char) : bool := in_range 0 31 c || in_range 127 159 c.
(** [char::is_whitespace]: Unicode property White_Space. *)
Definition is_whitespace (c : char) : bool :=
  in_range 9 13 c || in_range 0x2000 0x200A c ||
  bool_decide (c ∈ [0x20; 0x85; 0xA0; 0x1680; 0x2028; 0x2029; 0x202F; 0x205F; 0x3000]).

Definition is_ascii (s : str) : bool := forallb (λ c, c <? 0x80) s.

(** [matches!(byte, b'x' | ...)]. *)
Definition one_of (cs : list Z) (b : Z) : bool := bool_decide (b ∈ cs).

Definition ascii_lower (c : char) : char := if is_ascii_uppercase c then c + 32 else c.
Definition ascii_upper (c : char) : char := if is_ascii_lowercase c then c - 32 else c.
Definition to_ascii_lowercase (s : str) : str := map ascii_lower s.
Definition to_ascii_uppercase (s : str) : str := map ascii_upper s.

(** ** Trimming and splitting *)

Fixpoint drop_while (p : char → bool) (s : str) : str :=
  match s with
  | [] => []
  | c :: r => if p c then drop_while p r else s
  end.
Definition trim_start (s : str) : str := drop_while is_whitespace s.
Definition trim_end (s : str) : str := reverse (drop_while is_whitespace (reverse s)).
Definition trim (s : str) : str := trim_end (trim_start s).
Definition is_empty (s : str) : bool := match s with [] => true | _ => false end.

(** [s.split_once(d)] for a one-character delimiter. *)
Fixpoint split_once (d : char) (s : str) : option (str * str) :=
  match s with
  | [] => None
  | c :: r =>
    if c =? d then Some ([], r)
    else match split_once d r with
         | Some (a, b) => Some (c :: a, b)
         | None => None
         end
  end.

(** [s.split(p)]: always at least one piece. *)
Fixpoint split_by (p : char → bool) (s : str) : list str :=
  match s with
  | [] => [[]]
  | c :: r =>
    if p c then [] :: split_by p r
    else match split_by p r with
         | w :: ws => (c :: w) :: ws
         | [] => [[c]]
         end
  end.
Definition split_char (d : char) (s : str) : list str := split_by (λ c, c =? d) s.

Fixpoint strip_prefix (pre s : str) : option str :=
  match pre, s with
  | [], _ => Some s
  | p :: pre, c :: s => if p =? c then strip_prefix pre s else None
  | _ :: _, [] => None
  end.
Definition starts_with (pre s : str) : bool := bool_decide (is_Some (strip_prefix pre s)).
Definition ends_with (suf s : str) : bool := starts_with (reverse suf) (reverse s).
(** [s.contains(c)] for a character. *)
Definition contains_char (d : char) (s : str) : bool := existsb (λ c, c =? d) s.
(** [s.contains(pat)] for a non-empty string pattern. *)
Fixpoint contains_str (pat s : str) : bool :=
  starts_with pat s || match s with [] => false | _ :: r => contains_str pat r end.

(** [str::eq_ignore_ascii_case]. *)
Definition eq_ignore_ascii_case (s1 s2 : str) : bool :=
  bool_decide (to_ascii_lowercase s1 = to_ascii_lowercase s2).

(** [s.get(..n)]: the first [n] bytes of the text, if they end between two
    characters. *)
Fixpoint get_to (n : Z) (s : str) : option str :=
  if n <=? 0 then Some []
  else
    match s with
    | [] => None
    | c :: s =>
        let width := Z.of_nat (length (utf8_char c)) in
        if n <? width then None else cons c <$> get_to (n - width) s
    end.

(** Decimal digits and their value; [fuel] digits are enough below [10 ^ fuel]. *)
Definition digits_value (ds : str) : Z := foldl (λ acc d, acc * 10 + (d - 48)) 0 ds.
Fixpoint decimal_digits (fuel : nat) (n : Z) : str :=
  match fuel with
  | O => []
  | S fuel => if n <? 10 then [48 + n] else decimal_digits fuel (n / 10) ++ [48 + n mod 10]
  end.

(** [str::parse::<usize>] of the standard library, 64-bit: an optional plus
    sign and at least one decimal digit, without overflow. *)
Definition parse_usize (text : str) : option Z :=
  let digits := match text with
                | c :: (_ :: _) as r => if c =? 43 then r else text
                | _ => text
                end in
  if is_empty digits || negb (forallb is_ascii_digit digits) then None
  else
    let n := digits_value digits in
    if n <=? u64_max then Some n else None.

(** ** Lemmas on the text operations *)

Lemma str_bytes_app s1 s2 : str_bytes (s1 ++ s2) = str_bytes s1 ++ str_bytes s2.
Proof. unfold str_bytes. apply bind_app. Qed.

Lemma str_len_app s1 s2 : str_len (s1 ++ s2) = str_len s1 + str_len s2.
Proof. unfold str_len. rewrite str_bytes_app, length_app. lia. Qed.

Lemma str_len_nonneg s : 0 ≤ str_len s.
Proof. unfold str_len. lia. Qed.

Lemma str_bytes_ascii s : Forall (λ c, c < 128) s → str_bytes s = s.
Proof.
  induction 1 as [|c s Hc _ IH]; [done|].
  change (str_bytes (c :: s)) with (utf8_char c ++ str_bytes s). rewrite IH.
  unfold utf8_char. replace (c <? 128) with true by lia. done.
Qed.

(** A byte test that only accepts ASCII bytes holds of every byte exactly when
    it holds of every character. *)
Lemma forallb_bytes p s :
  (∀ b, p b = true → b < 128) → forallb p (str_bytes s) = forallb p s.
Proof.
  intros Hp. induction s as [|c s IH]; [done|].
  change (str_bytes (c :: s)) with (utf8_char c ++ str_bytes s).
  rewrite forallb_app, IH. cbn. f_equal. unfold utf8_char.
  assert (∀ b, 128 ≤ b → p b = false) as Hp'.
  { intros b Hb. destruct (p b) eqn:E; [apply Hp in E; lia|done]. }
  repeat case_match; bprop; cbn; rewrite ?andb_true_r; [done|..].
  all: rewrite (Hp' c) by lia; rewrite Hp'; [done|].
  all: pose proof (Z.div_pos c 64 ltac:(lia) ltac:(lia));
       pose proof (Z.div_pos c 4096 ltac:(lia) ltac:(lia));
       pose proof (Z.div_pos c 262144 ltac:(lia) ltac:(lia)); lia.
Qed.

Lemma forallb_ascii_len p s :
  (∀ b, p b = true → b < 128) → forallb p (str_bytes s) = true →
  str_bytes s = s.
Proof.
  intros Hp. rewrite forallb_bytes by done. intros H. apply str_bytes_ascii.
  apply Forall_forall. intros c Hc. apply Hp.
  by apply (proj1 (forallb_spec p s) H).
Qed.

Lemma is_ascii_alphanumeric_lt b : is_ascii_alphanumeric b = true → b < 128.
Proof.
  unfold is_ascii_alphanumeric, is_ascii_digit, is_ascii_uppercase,
    is_ascii_lowercase, in_range. lia.
Qed.

Lemma drop_while_suffix p s : ∃ w, s = w ++ drop_while p s ∧ forallb p w = true.
Proof.
  induction s as [|c s (w & Hw & Hp)]; cbn; [by exists []|].
  destruct (p c) eqn:E; [|by exists []].
  exists (c :: w). cbn. rewrite E, Hp. split; [by f_equal|done].
Qed.

Lemma drop_while_head p s c r : drop_while p s = c :: r → p c = false.
Proof.
  induction s as [|d s IH]; cbn; [done|]. destruct (p d) eqn:E; [done|].
  intros [= <- <-]. done.
Qed.

Lemma drop_while_id p s :
  (∀ c r, s = c :: r → p c = false) → drop_while p s = s.
Proof. destruct s as [|c r]; cbn; [done|]. intros H. by rewrite (H c r). Qed.

Lemma trim_start_no_ws s c r : trim_start s = c :: r → is_whitespace c = false.
Proof. apply drop_while_head. Qed.

Lemma trim_end_prefix s : ∃ w, s = trim_end s ++ w.
Proof.
  unfold trim_end.
  destruct (drop_while_suffix is_whitespace (reverse s)) as (w & Hw & _).
  exists (reverse w). rewrite <- reverse_app, <- Hw. by rewrite reverse_involutive.
Qed.

Lemma trim_end_last s s' c : trim_end s = s' ++ [c] → is_whitespace c = false.
Proof.
  unfold trim_end. intros H. apply (f_equal reverse) in H.
  rewrite reverse_involutive, reverse_app in H. cbn in H.
  by eapply drop_while_head.
Qed.

Lemma trim_end_id s :
  (∀ s' c, s = s' ++ [c] → is_whitespace c = false) → trim_end s = s.
Proof.
  intros H. unfold trim_end. rewrite drop_while_id; [apply reverse_involutive|].
  intros c r E. apply (H (reverse r)). rewrite <- (reverse_involutive s), E.
  by rewrite reverse_cons.
Qed.

(** [trim] is idempotent. *)
Lemma trim_idemp s : trim (trim s) = trim s.
Proof.
  unfold trim. set (t := trim_start s).
  assert (trim_start (trim_end t) = trim_end t) as ->.
  { apply drop_while_id. intros c r E. destruct (trim_end_prefix t) as [w Hw].
    rewrite E in Hw. cbn in Hw. by eapply (trim_start_no_ws s). }
  apply trim_end_id. intros s' c. apply trim_end_last.
Qed.

Lemma split_once_Some d s a b :
  split_once d s = Some (a, b) ↔ s = a ++ d :: b ∧ d ∉ a.
Proof.
  split.
  - revert a b. induction s as [|c s IH]; intros a b; cbn; [done|].
    destruct (Z.eqb_spec c d) as [->|Hne].
    + intros [= <- <-]. split; [done|]. apply not_elem_of_nil.
    + destruct (split_once d s) as [[a' b']|] eqn:E; [|done].
      intros [= <- <-]. destruct (IH _ _ eq_refl) as [-> Hn]. split; [done|].
      rewrite elem_of_cons. naive_solver.
  - intros [-> Hn]. induction a as [|c a IH]; cbn.
    + by rewrite Z.eqb_refl.
    + apply not_elem_of_cons in Hn as [Hne Hn]. rewrite (IH Hn).
      destruct (Z.eqb_spec c d); congruence.
Qed.

Lemma split_once_None d s : split_once d s = None ↔ d ∉ s.
Proof.
  induction s as [|c s IH]; cbn.
  - split; [intros _; apply not_elem_of_nil|done].
  - rewrite not_elem_of_cons. destruct (Z.eqb_spec c d) as [->|Hne]; [naive_solver|].
    destruct (split_once d s) as [[a b]|] eqn:E; naive_solver.
Qed.

Lemma strip_prefix_Some pre s r : strip_prefix pre s = Some r ↔ s = pre ++ r.
Proof.
  revert s. induction pre as [|p pre IH]; intros s; cbn; [naive_solver|].
  destruct s as [|c s]; [done|]. destruct (Z.eqb_spec p c) as [->|Hne].
  - rewrite IH. naive_solver.
  - naive_solver.
Qed.

Lemma starts_with_spec pre s : starts_with pre s = true ↔ ∃ r, s = pre ++ r.
Proof.
  unfold starts_with. rewrite bool_decide_eq_true. unfold is_Some.
  by setoid_rewrite strip_prefix_Some.
Qed.

Lemma contains_char_spec d s : contains_char d s = true ↔ d ∈ s.
Proof.
  unfold contains_char. rewrite existsb_spec. split.
  - intros (x & Hx & ->%Z.eqb_eq). done.
  - intros H. exists d. rewrite Z.eqb_refl. done.
Qed.

Lemma contains_str_spec pat s :
  contains_str pat s = true ↔ ∃ a b, s = a ++ pat ++ b.
Proof.
  induction s as [|c s IH]; cbn; rewrite ?orb_true_iff, starts_with_spec.
  - split; [intros [[r E]|]; [by exists [], r|done]|].
    intros (a & b & E). left. exists b.
    destruct a; [done|]. destruct pat; done.
  - rewrite IH. split.
    + intros [[r E]|(a & b & ->)]; [by exists [], r|by exists (c :: a), b].
    + intros ([|a0 a] & b & E); cbn in E; [left; eauto|right].
      injection E as -> ->. eauto.
Qed.

(** Every piece of a split is free of the separators, and a split is never
    empty. *)
Lemma split_by_pieces p s w : w ∈ split_by p s → forallb (λ c, negb (p c)) w = true.
Proof.
  revert w. induction s as [|c s IH]; intros w; cbn.
  { rewrite list_elem_of_singleton. by intros ->. }
  destruct (p c) eqn:E.
  - rewrite elem_of_cons. intros [->|H]; [done|auto].
  - destruct (split_by p s) as [|v vs].
    + rewrite list_elem_of_singleton. intros ->. cbn. by rewrite E.
    + rewrite elem_of_cons. intros [->|H].
      * cbn. rewrite E. apply IH. left.
      * apply IH. by right.
Qed.

Lemma split_by_nil p s : split_by p s ≠ [].
Proof. destruct s as [|c s]; cbn; [done|]. destruct (p c); [done|]. by destruct (split_by p s). Qed.

Lemma split_by_single p s :
  forallb (λ c, negb (p c)) s = true → split_by p s = [s].
Proof.
  induction s as [|c s IH]; cbn; [done|].
  rewrite andb_true_iff, negb_true_iff. intros [-> H]. by rewrite IH.
Qed.

(** ** The order of strings

    Rust compares strings by their bytes; UTF-8 makes that the lexicographic
    order of the code points. *)

Fixpoint str_ltb (s1 s2 : str) : bool :=
  match s1, s2 with
  | [], [] => false
  | [], _ :: _ => true
  | _ :: _, [] => false
  | c1 :: s1, c2 :: s2 => (c1 <? c2) || ((c1 =? c2) && str_ltb s1 s2)
  end.
Definition str_leb (s1 s2 : str) : bool := bool_decide (s1 = s2) || str_ltb s1 s2.
Definition str_lt (s1 s2 : str) : Prop := str_ltb s1 s2 = true.
Definition str_le (s1 s2 : str) : Prop := str_leb s1 s2 = true.
#[export] Instance str_lt_dec : RelDecision str_lt :=
  λ s1 s2, decide (str_ltb s1 s2 = true).
#[export] Instance str_le_dec : RelDecision str_le :=
  λ s1 s2, decide (str_leb s1 s2 = true).

Lemma str_ltb_irrefl s : str_ltb s s = false.
Proof. induction s as [|c s IH]; cbn; [done|]. rewrite IH. lia. Qed.

Lemma str_lt_trans s1 s2 s3 : str_lt s1 s2 → str_lt s2 s3 → str_lt s1 s3.
Proof.
  unfold str_lt. revert s2 s3.
  induction s1 as [|c1 s1 IH]; intros [|c2 s2] [|c3 s3]; cbn; try done.
  rewrite !orb_true_iff, !andb_true_iff, !Z.ltb_lt, !Z.eqb_eq.
  intros [?|[-> ?]] [?|[-> ?]]; [left; lia..|right; eauto].
Qed.

Lemma str_lt_total s1 s2 : str_lt s1 s2 ∨ s1 = s2 ∨ str_lt s2 s1.
Proof.
  unfold str_lt. revert s2. induction s1 as [|c1 s1 IH]; intros [|c2 s2]; cbn; auto.
  destruct (Z.lt_trichotomy c1 c2) as [?|[->|?]].
  - left. lia.
  - destruct (IH s2) as [H|[->|H]]; [left|auto|right; right]; rewrite H; lia.
  - right; right. lia.
Qed.

#[export] Instance str_lt_strict : StrictOrder str_lt.
Proof.
  split; [|intros ???; apply str_lt_trans].
  intros s H. unfold str_lt in H. by rewrite str_ltb_irrefl in H.
Qed.

Lemma str_le_spec s1 s2 : str_le s1 s2 ↔ s1 = s2 ∨ str_lt s1 s2.
Proof. unfold str_le, str_leb. rewrite orb_true_iff, bool_decide_eq_true. done. Qed.

#[export] Instance str_le_total : Total str_le.
Proof.
  intros s1 s2. rewrite !str_le_spec. destruct (str_lt_total s1 s2) as [?|[?|?]]; auto.
Qed.
#[export] Instance str_le_trans : Transitive str_le.
Proof.
  intros s1 s2 s3. rewrite !str_le_spec. intros [->|?] [->|?]; auto.
  right. by eapply str_lt_trans.
Qed.
#[export] Instance str_le_antisymm : AntiSymm (=) str_le.
Proof.
  intros s1 s2 [E1|H1]%str_le_spec [E2|H2]%str_le_spec; auto.
  exfalso. eapply (irreflexivity str_lt). by eapply str_lt_trans.
Qed.

Lemma digits_value_app ds d : digits_value (ds ++ [d]) = digits_value ds * 10 + (d - 48).
Proof. unfold digits_value. by rewrite foldl_app. Qed.
Lemma decimal_digits_spec fuel n :
  0 ≤ n < 10 ^ Z.of_nat fuel → (0 < fuel)%nat →
  digits_value (decimal_digits fuel n) = n ∧ forallb is_ascii_digit (decimal_digits fuel n) = true
  ∧ decimal_digits fuel n ≠ [].
Proof.
  revert n. induction fuel as [|fuel IH]; [lia|]. intros n Hn _. cbn [decimal_digits].
  destruct (Z.ltb_spec n 10).
  - cbn. unfold is_ascii_digit, in_range. split_and!; [lia| |done]. by rewrite !(proj2 (Z.leb_le _ _)) by lia.
  - rewrite Nat2Z.inj_succ, Z.pow_succ_r in Hn by lia.
    destruct fuel as [|fuel]; [cbn in Hn; lia|].
    destruct (IH (n / 10)) as (Hv & Hd & Hne);
      [split; [apply Z.div_pos; lia|apply Z.div_lt_upper_bound; lia]|lia|].
    rewrite digits_value_app, Hv, forallb_app, Hd. split_and!.
    + pose proof (Z.div_mod n 10). lia.
    + cbn. unfold is_ascii_digit, in_range. pose proof (Z.mod_pos_bound n 10).
      by rewrite !(proj2 (Z.leb_le _ _)) by lia.
    + by destruct (decimal_digits _ _).
Qed.
Lemma parse_usize_decimal n : 0 ≤ n ≤ u64_max → parse_usize (decimal_digits 20 n) = Some n.
Proof.
  intros Hn. destruct (decimal_digits_spec 20 n) as (Hv & Hd & Hne); [unfold u64_max in *; lia|lia|]. unfold parse_usize.
  set (ds := decimal_digits 20 n) in *.
  assert ((match ds with c :: (_ :: _) as r => if c =? 43 then r else ds | _ => ds end) = ds) as ->.
  { destruct ds as [|c [|c' r]]; try done. destruct (Z.eqb_spec c 43) as [->|]; [|done]. by cbn in Hd. }
  rewrite Hd, Hv. destruct ds; [done|]. cbn. by rewrite (proj2 (Z.leb_le _ _)) by lia.
Qed.
