(* ===== verification/Collections.v ===== *)
(** * Collections: [Vec::sort_unstable]/[dedup], [BTreeSet<String>],
      [BTreeMap<String, V>] and [serde_json::Value]

    Ordered collections are strictly increasing lists, so that iteration order,
    which the code exposes in several places, is the order of the list.  Where
    the order does not matter the components use [gset] and [gmap] instead. *)

From stdpp Require Export sorting sets gmap.
From S2P Require Export Text.

Abbreviation ssorted := (StronglySorted str_lt).

(** [values.sort_unstable()]: equal strings are indistinguishable, so the
    result does not depend on stability. *)
Definition sort_unstable (l : list str) : list str := merge_sort str_le l.

(** [values.dedup()]: drops consecutive repetitions. *)
Fixpoint dedup (l : list str) : list str :=
  match l with
  | [] => []
  | x :: r =>
    match r with
    | [] => [x]
    | y :: _ => if bool_decide (x = y) then dedup r else x :: dedup r
    end
  end.

(** [BTreeSet::insert]. *)
Fixpoint bset_insert (x : str) (s : list str) : list str :=
  match s with
  | [] => [x]
  | y :: r =>
    if str_ltb x y then x :: s
    else if bool_decide (x = y) then s
    else y :: bset_insert x r
  end.
(** [iter.collect::<BTreeSet<_>>()]. *)
Definition bset_of_list (l : list str) : list str :=
  foldl (λ s x, bset_insert x s) [] l.
Definition bset_contains (x : str) (s : list str) : bool := bool_decide (x ∈ s).
Definition bset_remove (x : str) (s : list str) : list str :=
  filter (λ y, y ≠ x) s.

(** [BTreeMap]: an association list, strictly increasing in its keys. *)
Abbreviation bmap V := (list (str * V)).
Fixpoint bmap_insert {V} (k : str) (v : V) (m : bmap V) : bmap V :=
  match m with
  | [] => [(k, v)]
  | (k', v') :: r =>
    if str_ltb k k' then (k, v) :: m
    else if bool_decide (k = k') then (k, v) :: r
    else (k', v') :: bmap_insert k v r
  end.
Fixpoint bmap_get {V} (k : str) (m : bmap V) : option V :=
  match m with
  | [] => None
  | (k', v') :: r => if bool_decide (k = k') then Some v' else bmap_get k r
  end.
Definition bmap_remove {V} (k : str) (m : bmap V) : bmap V :=
  filter (λ kv, kv.1 ≠ k) m.
Definition bmap_contains {V} (k : str) (m : bmap V) : bool :=
  match bmap_get k m with Some _ => true | None => false end.
Definition bmap_of_list {V} (l : list (str * V)) : bmap V :=
  foldl (λ m kv, bmap_insert kv.1 kv.2 m) [] l.
Abbreviation msorted m := (ssorted (m.*1)).

(** ** Strictly increasing lists *)

Lemma ssorted_cons x l : ssorted (x :: l) ↔ ssorted l ∧ ∀ y, y ∈ l → str_lt x y.
Proof.
  split.
  - inversion_clear 1 as [|? ? ? HF]. split; [done|]. by apply Forall_forall.
  - intros [??]. constructor; [done|]. by apply Forall_forall.
Qed.

Lemma ssorted_NoDup l : ssorted l → NoDup l.
Proof.
  induction l as [|x l IH]; [constructor|]. intros [Hs Hx]%ssorted_cons.
  constructor; [|auto]. intros Hin%Hx. by eapply (irreflexivity str_lt).
Qed.

(** A strictly increasing list is determined by its elements. *)
Lemma ssorted_ext l1 l2 :
  ssorted l1 → ssorted l2 → (∀ x, x ∈ l1 ↔ x ∈ l2) → l1 = l2.
Proof.
  revert l2. induction l1 as [|x l1 IH]; intros [|y l2] H1 H2 E; [done|..].
  - exfalso. eapply (not_elem_of_nil y). apply E. left.
  - exfalso. eapply (not_elem_of_nil x). apply E. left.
  - apply ssorted_cons in H1 as [H1 Hx], H2 as [H2 Hy].
    assert (x = y) as ->.
    { assert (x ∈ y :: l2) as [?|Hin]%elem_of_cons by (apply E; left); [done|].
      assert (y ∈ x :: l1) as [?|Hin']%elem_of_cons by (apply E; left); [done|].
      exfalso. eapply (irreflexivity str_lt x), str_lt_trans; eauto. }
    f_equal. apply IH; [done..|]. intros z. specialize (E z).
    rewrite !elem_of_cons in E. split; intros Hz.
    + destruct (proj1 E (or_intror Hz)) as [->|?]; [|done].
      exfalso. eapply (irreflexivity str_lt y), Hx, Hz.
    + destruct (proj2 E (or_intror Hz)) as [->|?]; [|done].
      exfalso. eapply (irreflexivity str_lt y), Hy, Hz.
Qed.

Lemma dedup_cons2 x y l :
  dedup (x :: y :: l) =
  if bool_decide (x = y) then dedup (y :: l) else x :: dedup (y :: l).
Proof. done. Qed.

Lemma elem_of_dedup x l : x ∈ dedup l ↔ x ∈ l.
Proof.
  induction l as [|y [|z l] IH]; [done..|].
  rewrite dedup_cons2. case_bool_decide as E.
  - subst. rewrite IH, !elem_of_cons. naive_solver.
  - rewrite elem_of_cons, IH. by rewrite (elem_of_cons (z :: l)).
Qed.

Lemma dedup_sorted l : StronglySorted str_le l → ssorted (dedup l).
Proof.
  induction l as [|y [|z l] IH]; intros H; [constructor|repeat constructor|].
  inversion_clear H as [|? ? Hs HF]. rewrite dedup_cons2.
  case_bool_decide as E; [auto|].
  apply ssorted_cons. split; [auto|]. intros w Hw. rewrite elem_of_dedup in Hw.
  rewrite Forall_forall in HF.
  destruct (proj1 (str_le_spec _ _) (HF z ltac:(left))) as [->|Hyz]; [done|].
  apply elem_of_cons in Hw as [->|Hw]; [done|].
  inversion_clear Hs as [|? ? _ HF']. rewrite Forall_forall in HF'.
  destruct (proj1 (str_le_spec _ _) (HF' w Hw)) as [->|?]; [done|].
  by eapply str_lt_trans.
Qed.

Lemma elem_of_sort_unstable x l : x ∈ sort_unstable l ↔ x ∈ l.
Proof. unfold sort_unstable. by rewrite (merge_sort_Permutation str_le l). Qed.

Lemma sort_unstable_sorted l : StronglySorted str_le (sort_unstable l).
Proof. apply (StronglySorted_merge_sort str_le). Qed.

(** [sort_unstable] followed by [dedup] is the ordered set of the elements. *)
Definition sort_dedup (l : list str) : list str := dedup (sort_unstable l).

Lemma sort_dedup_sorted l : ssorted (sort_dedup l).
Proof. apply dedup_sorted, sort_unstable_sorted. Qed.

Lemma elem_of_sort_dedup x l : x ∈ sort_dedup l ↔ x ∈ l.
Proof. unfold sort_dedup. by rewrite elem_of_dedup, elem_of_sort_unstable. Qed.

Lemma sort_dedup_id l : ssorted l → sort_dedup l = l.
Proof.
  intros H. apply ssorted_ext; [apply sort_dedup_sorted|done|].
  intros x. apply elem_of_sort_dedup.
Qed.

Lemma length_dedup l : (length (dedup l) ≤ length l)%nat.
Proof.
  induction l as [|y [|z l] IH]; [cbn; lia..|]. rewrite dedup_cons2.
  case_bool_decide; cbn in *; lia.
Qed.

Lemma length_sort_dedup l : (length (sort_dedup l) ≤ length l)%nat.
Proof.
  unfold sort_dedup. etrans; [apply length_dedup|].
  unfold sort_unstable. by rewrite (merge_sort_Permutation str_le l).
Qed.

(** ** Ordered sets *)

Lemma elem_of_bset_insert x y s : y ∈ bset_insert x s ↔ y = x ∨ y ∈ s.
Proof.
  induction s as [|z s IH]; cbn.
  - rewrite list_elem_of_singleton. set_solver.
  - destruct (str_ltb x z); [by rewrite elem_of_cons|].
    case_bool_decide as E; [subst; set_solver|].
    rewrite !elem_of_cons, IH. naive_solver.
Qed.

Lemma bset_insert_sorted x s : ssorted s → ssorted (bset_insert x s).
Proof.
  induction s as [|z s IH]; cbn; intros H; [repeat constructor|].
  pose proof H as [Hs Hz]%ssorted_cons.
  destruct (str_ltb x z) eqn:E.
  - apply ssorted_cons. split; [done|].
    intros y [->|Hy]%elem_of_cons; [done|]. eapply str_lt_trans; [exact E|auto].
  - case_bool_decide as E'; [done|]. apply ssorted_cons. split; [auto|].
    intros y [->|Hy]%elem_of_bset_insert; [|auto].
    destruct (str_lt_total x z) as [Hlt|[?|?]]; [|done..].
    unfold str_lt in Hlt. congruence.
Qed.

Lemma bset_of_list_spec l :
  ssorted (bset_of_list l) ∧ ∀ x, x ∈ bset_of_list l ↔ x ∈ l.
Proof.
  unfold bset_of_list.
  assert (∀ s, ssorted s →
    ssorted (foldl (λ s x, bset_insert x s) s l) ∧
    ∀ x, x ∈ foldl (λ s x, bset_insert x s) s l ↔ x ∈ s ∨ x ∈ l) as H.
  { induction l as [|y l IH]; intros s Hs; cbn; [set_solver|].
    destruct (IH (bset_insert y s)) as [H1 H2]; [by apply bset_insert_sorted|].
    split; [done|]. intros x. rewrite H2, elem_of_bset_insert, elem_of_cons. naive_solver. }
  destruct (H [] ltac:(constructor)) as [H1 H2]. split; [done|]. set_solver.
Qed.

Lemma elem_of_bset_of_list x l : x ∈ bset_of_list l ↔ x ∈ l.
Proof. apply bset_of_list_spec. Qed.

Lemma bset_of_list_sorted l : ssorted (bset_of_list l).
Proof. apply bset_of_list_spec. Qed.

Lemma bset_of_list_id l : ssorted l → bset_of_list l = l.
Proof.
  intros H. apply ssorted_ext; [apply bset_of_list_sorted|done|].
  intros x. apply elem_of_bset_of_list.
Qed.

Lemma elem_of_bset_remove x y s : y ∈ bset_remove x s ↔ y ≠ x ∧ y ∈ s.
Proof. unfold bset_remove. by rewrite list_elem_of_filter. Qed.

Lemma bset_remove_sorted x s : ssorted s → ssorted (bset_remove x s).
Proof.
  intros H. unfold bset_remove. induction s as [|y s IH]; [constructor|].
  apply ssorted_cons in H as [Hs Hy]. rewrite filter_cons. case_decide; [|auto].
  apply ssorted_cons. split; [auto|].
  intros z [_ Hz]%list_elem_of_filter. auto.
Qed.

(** ** Ordered maps *)

Lemma bmap_get_insert {V} k k' (v : V) m :
  msorted m →
  bmap_get k' (bmap_insert k v m) = if bool_decide (k' = k) then Some v else bmap_get k' m.
Proof.
  induction m as [|[k0 v0] m IH]; cbn; intros Hs; [by case_bool_decide|].
  apply ssorted_cons in Hs as [Hs Hk].
  destruct (str_ltb k k0) eqn:E; cbn; [by case_bool_decide|].
  destruct (decide (k = k0)) as [<-|Hne].
  - rewrite (bool_decide_eq_true_2 (k = k)) by done. cbn.
    repeat case_bool_decide; congruence.
  - rewrite (bool_decide_eq_false_2 (k = k0)) by done. cbn. rewrite IH by done.
    repeat case_bool_decide; congruence.
Qed.

Lemma bmap_insert_keys {V} k (v : V) m : (bmap_insert k v m).*1 = bset_insert k (m.*1).
Proof.
  induction m as [|[k0 v0] m IH]; cbn; [done|].
  destruct (str_ltb k k0); cbn; [done|].
  case_bool_decide; cbn; [by subst|]. by rewrite IH.
Qed.

Lemma bmap_insert_sorted {V} k (v : V) m : msorted m → msorted (bmap_insert k v m).
Proof. rewrite bmap_insert_keys. apply bset_insert_sorted. Qed.

Lemma bmap_get_elem {V} k (v : V) m : bmap_get k m = Some v → (k, v) ∈ m.
Proof.
  induction m as [|[k0 v0] m IH]; cbn; [done|].
  case_bool_decide; [intros [= <-]; subst; left|right; auto].
Qed.

Lemma bmap_elem_get {V} k (v : V) m : msorted m → (k, v) ∈ m → bmap_get k m = Some v.
Proof.
  induction m as [|[k0 v0] m IH]; intros Hs Hin; [by apply not_elem_of_nil in Hin|].
  cbn in *. apply ssorted_cons in Hs as [Hs Hk].
  apply elem_of_cons in Hin as [[= -> ->]|Hin]; [by rewrite bool_decide_eq_true_2|].
  case_bool_decide; [|auto]. subst. exfalso.
  eapply (irreflexivity str_lt k0), Hk. by apply (list_elem_of_fmap_2 fst) in Hin.
Qed.

Lemma bmap_get_None {V} k (m : bmap V) : bmap_get k m = None ↔ k ∉ m.*1.
Proof.
  induction m as [|[k0 v0] m IH]; cbn.
  - split; [intros _; apply not_elem_of_nil|done].
  - rewrite not_elem_of_cons. case_bool_decide; naive_solver.
Qed.

#[export] Hint Resolve bset_insert_sorted bset_of_list_sorted bset_remove_sorted
  sort_dedup_sorted bmap_insert_sorted : wauth.

(** Two texts joined by a NUL, the first free of control characters, can be
    told apart. *)
Lemma nul_not_in_bytes s : (∀ c, c ∈ s → is_control c = false) → 0 ∉ str_bytes s.
Proof.
  intros Hs (c & Hb & Hc)%list_elem_of_bind. specialize (Hs c Hc).
  unfold utf8_char in Hb. repeat case_match; set_unfold in Hb; bprop;
    pose proof (Z.mod_pos_bound c 64 ltac:(lia)); pose proof (Z.mod_pos_bound (c / 64) 64 ltac:(lia));
    pose proof (Z.mod_pos_bound (c / 4096) 64 ltac:(lia)).
  - destruct Hb as [<-|[]]. by vm_compute in Hs.
  - pose proof (Z.div_pos c 64). lia.
  - pose proof (Z.div_pos c 4096). lia.
  - pose proof (Z.div_pos c 262144). lia.
Qed.
Lemma nul_joined_inj a a' b b' :
  (∀ c, c ∈ a → is_control c = false) → (∀ c, c ∈ a' → is_control c = false) →
  wf_str a = true → wf_str a' = true → wf_str b = true → wf_str b' = true →
  str_bytes a ++ [0] ++ str_bytes b = str_bytes a' ++ [0] ++ str_bytes b' → a = a' ∧ b = b'.
Proof.
  intros Hc1 Hc2 ? ? ? ? Heq.
  assert (∀ a b, (∀ c, c ∈ a → is_control c = false) →
    split_once 0 (str_bytes a ++ [0] ++ str_bytes b) = Some (str_bytes a, str_bytes b)) as Hsplit.
  { intros x y Hx. apply split_once_Some. split; [done|]. by apply nul_not_in_bytes. }
  pose proof (Hsplit a b Hc1) as E. rewrite Heq, (Hsplit a' b' Hc2) in E. injection E as Ea Eb.
  split; by apply str_bytes_inj.
Qed.

(** ** The value tree of serde_json

    What the sources read of a [serde_json::Value]: the accessors [as_str],
    [as_array], [is_object] and [get].  The JSON text is not modelled; a
    parser or printer of it is a parameter of the code that calls it. *)

(** [serde_json::Value]; an object is an ordered map. *)
Inductive Value :=
| VNull
| VBool (b : bool)
| VNumber (repr : str)
| VString (s : str)
| VArray (l : list Value)
| VObject (m : list (str * Value)).

Definition as_str (v : Value) : option str := match v with VString s => Some s | _ => None end.
Definition as_array (v : Value) : option (list Value) :=
  match v with VArray l => Some l | _ => None end.
Definition is_object (v : Value) : bool := match v with VObject _ => true | _ => false end.
(** [Value::get] with a string key. *)
Definition value_get (key : str) (v : Value) : option Value :=
  match v with VObject m => bmap_get key m | _ => None end.
