(* ===== verification/Evaluator.v ===== *)
(** * Evaluator: the relationship-based authorization evaluator

    Models src/crates/wasi-auth/src/testkit/evaluator: the validated reference
    types (types.rs), the relationship tuples (tuple.rs), the authorization
    model with its rewrite rules and [validate] (model.rs), and the bounded,
    memoizing evaluator with [check], [batch_check], [list_objects] and
    [expand] (engine.rs).  The evaluation state is threaded explicitly, through
    errors too, as the [&mut EvaluationState] of the code is. *)

From S2P Require Export Collections.
Open Scope nat_scope.

(** ** error.rs *)

Inductive AuthzError :=
| Validation (message : str)
| UnknownModel
| UnknownObjectType (object_type : str)
| UnknownRelation (relation : str)
| MaxDepthExceeded
| MaxNodesExceeded
| CycleDetected.

#[export] Instance AuthzError_eq_dec : EqDecision AuthzError.
Proof. solve_decision. Defined.

Definition public_code (e : AuthzError) : str :=
  lit match e with
      | Validation _ => "validation"
      | UnknownModel => "unknown_model"
      | UnknownObjectType _ => "unknown_object_type"
      | UnknownRelation _ => "unknown_relation"
      | MaxDepthExceeded => "max_depth_exceeded"
      | MaxNodesExceeded => "max_nodes_exceeded"
      | CycleDetected => "cycle_detected"
      end.

(** ** types.rs: the newtypes over [String] *)

Abbreviation SubjectRef := str (only parsing).
Abbreviation ObjectRef := str (only parsing).
Abbreviation TenantRef := str (only parsing).
Abbreviation Relation := str (only parsing).

Definition colon : Z := 58.

Definition validate_ref (label value : str) : result AuthzError unit :=
  match split_once colon value with
  | None => Err (Validation (label ++ lit " must use type:id syntax"))
  | Some (ty, id) =>
      fail? (is_empty (trim ty) || is_empty (trim id))
        with Validation (label ++ lit " must use non-empty type and id") ;;
      Ok tt
  end.

(** The macro [ref_type!]: [$name::new] and [$name::type_name]. *)
Definition ref_new (label value : str) : result AuthzError str :=
  try? validate_ref label value ;; Ok value.
Definition ref_type_name (value : str) : str :=
  match split_once colon value with Some (ty, _) => ty | None => [] end.
Definition ObjectRef_new : str → result AuthzError ObjectRef := ref_new (lit "ObjectRef").
Definition SubjectRef_new : str → result AuthzError SubjectRef := ref_new (lit "SubjectRef").
Definition TenantRef_new : str → result AuthzError TenantRef := ref_new (lit "TenantRef").

Definition Relation_new (value : str) : result AuthzError Relation :=
  fail? is_empty (trim value) with Validation (lit "relation must not be empty") ;;
  Ok value.

(** ** tuple.rs *)

Record RelationshipTuple := mk_tuple {
  subject : SubjectRef;
  relation : Relation;
  object : ObjectRef;
  condition : option str;
  tuple_tenant : option TenantRef;
}.
Definition RelationshipTuple_new (s : SubjectRef) (r : Relation) (o : ObjectRef) :=
  mk_tuple s r o None None.
Definition with_condition (t : RelationshipTuple) (c : str) :=
  mk_tuple (subject t) (relation t) (object t) (Some c) (tuple_tenant t).
Definition with_tenant (t : RelationshipTuple) (tn : TenantRef) :=
  mk_tuple (subject t) (relation t) (object t) (condition t) (Some tn).

(** ** model.rs *)

Inductive Rewrite :=
| Direct
| ComputedUserset (relation : Relation)
| TupleToUserset (tupleset_relation computed_relation : Relation)
| Union (children : list Rewrite)
| Intersection (children : list Rewrite)
| Exclusion (base subtract : Rewrite)
| Condition (name : str).

Record RelationDefinition := mk_definition { rewrite : Rewrite }.
Record ObjectType := mk_object_type {
  ot_name : str;
  relations : bmap RelationDefinition;
}.
Record AuthorizationModel := mk_model {
  model_id : str;
  schema_version : str;
  types : bmap ObjectType;
}.

Definition AuthorizationModel_new (id : str) : AuthorizationModel :=
  mk_model id (lit "1.0") [].
Definition with_type (m : AuthorizationModel) (ot : ObjectType) : AuthorizationModel :=
  mk_model (model_id m) (schema_version m) (bmap_insert (ot_name ot) ot (types m)).
Definition ObjectType_new (name : str) : ObjectType := mk_object_type name [].
Definition with_relation (ot : ObjectType) (r : Relation) (d : RelationDefinition) :=
  mk_object_type (ot_name ot) (bmap_insert r d (relations ot)).

Definition validate_relation_ref (type_name relation_name label : str) (r : Relation) :
    result AuthzError unit :=
  fail? is_empty (trim r)
    with Validation (type_name ++ lit "." ++ relation_name ++ lit " " ++ label
                     ++ lit " must not be empty") ;;
  Ok tt.

Fixpoint rewrite_validate (type_name relation_name : str) (rw : Rewrite) :
    result AuthzError unit :=
  match rw with
  | Direct => Ok tt
  | ComputedUserset r =>
      validate_relation_ref type_name relation_name (lit "computed userset relation") r
  | TupleToUserset tr cr =>
      try? validate_relation_ref type_name relation_name
             (lit "tuple-to-userset tupleset relation") tr ;;
      validate_relation_ref type_name relation_name
        (lit "tuple-to-userset computed relation") cr
  | Union children | Intersection children =>
      match children with
      | [] => Err (Validation (type_name ++ lit "." ++ relation_name
                               ++ lit " rewrite must have at least one child"))
      | _ => for_each (rewrite_validate type_name relation_name) children
      end
  | Exclusion base subtract =>
      try? rewrite_validate type_name relation_name base ;;
      rewrite_validate type_name relation_name subtract
  | Condition name =>
      fail? is_empty (trim name)
        with Validation (type_name ++ lit "." ++ relation_name
                         ++ lit " condition name must not be empty") ;;
      Ok tt
  end.

Definition validate_object_type (entry : str * ObjectType) : result AuthzError unit :=
  let '(type_name, ot) := entry in
  fail? (is_empty (trim type_name) || is_empty (trim (ot_name ot)))
    with Validation (lit "object type name must not be empty") ;;
  fail? negb (bool_decide (type_name = ot_name ot))
    with Validation (lit "object type key `" ++ type_name
                     ++ lit "` does not match object type name `" ++ ot_name ot ++ lit "`") ;;
  fail? match relations ot with [] => true | _ => false end
    with Validation (lit "object type `" ++ type_name
                     ++ lit "` must define at least one relation") ;;
  for_each (λ entry : str * RelationDefinition,
      let '(relation_name, definition) := entry in
      fail? is_empty (trim relation_name)
        with Validation (lit "object type `" ++ type_name ++ lit "` has an empty relation name") ;;
      rewrite_validate type_name relation_name (rewrite definition))
    (relations ot).

Definition model_validate (m : AuthorizationModel) : result AuthzError unit :=
  fail? is_empty (trim (model_id m)) with Validation (lit "model_id must not be empty") ;;
  fail? is_empty (trim (schema_version m))
    with Validation (lit "schema_version must not be empty") ;;
  fail? match types m with [] => true | _ => false end
    with Validation (lit "authorization model must define at least one object type") ;;
  for_each validate_object_type (types m).

(** ** engine.rs *)

Record AuthzContext := mk_context {
  tenant_id : option TenantRef;
  attributes : bmap str;
  token_claims : bmap str;
  contextual_tuples : list RelationshipTuple;
}.
Definition AuthzContext_default : AuthzContext := mk_context None [] [] [].

Record Decision := mk_decision {
  allowed : bool;
  decision_model_id : str;
  reason : option str;
  decision_visited : nat;
}.
Definition Decision_allow (model_id : str) (visited : nat) : Decision :=
  mk_decision true model_id None visited.
Definition Decision_deny (model_id reason : str) (visited : nat) : Decision :=
  mk_decision false model_id (Some reason) visited.

Inductive ExpansionNode := mk_node {
  node_object : ObjectRef;
  node_relation : Relation;
  node_rewrite : str;
  node_subjects : list SubjectRef;
  node_children : list ExpansionNode;
  node_visited : nat;
}.

Record Evaluator := mk_evaluator {
  model : AuthorizationModel;
  tuples : list RelationshipTuple;
  max_depth : nat;
  max_nodes : nat;
}.
Definition Evaluator_new (m : AuthorizationModel) (ts : list RelationshipTuple) : Evaluator :=
  mk_evaluator m ts 32 1024.
Definition with_max_depth (ev : Evaluator) (d : nat) : Evaluator :=
  mk_evaluator (model ev) (tuples ev) d (max_nodes ev).
Definition with_max_nodes (ev : Evaluator) (n : nat) : Evaluator :=
  mk_evaluator (model ev) (tuples ev) (max_depth ev) n.

(** [EvalKey]: subject, relation, object. *)
Abbreviation EvalKey := (str * str * str)%type.
Record EvaluationState := mk_state {
  visited : nat;
  stack : gset EvalKey;
  memo : gmap EvalKey bool;
}.
Definition initial_state : EvaluationState := mk_state 0 ∅ ∅.

(** Computations over the evaluation state: the outer [option] is [None] when
    the fuel of the recursion runs out; an error keeps the state reached. *)
Definition M (A : Type) : Type :=
  EvaluationState → option (result AuthzError A * EvaluationState).
Definition mret_ {A} (a : A) : M A := λ st, Some (Ok a, st).
Definition mlift {A} (r : result AuthzError A) : M A := λ st, Some (r, st).
Definition mbind_ {A B} (m : M A) (k : A → M B) : M B := λ st,
  match m st with
  | None => None
  | Some (Ok a, st') => k a st'
  | Some (Err e, st') => Some (Err e, st')
  end.
Notation "'let*' x := m 'in' k" := (mbind_ m (λ x, k))
  (at level 10, x pattern, m at level 99, k at level 200) : result_scope.

Section mloops.
Context {A : Type}.
(** [for x in l { if f(x)? { return Ok(true); } } Ok(false)] *)
Definition any_m (f : A → M bool) : list A → M bool :=
  fix go l :=
    match l with
    | [] => mret_ false
    | x :: l => let* b := f x in if b then mret_ true else go l
    end.
(** [for x in l { if !f(x)? { return Ok(false); } } Ok(true)] *)
Definition all_m (f : A → M bool) : list A → M bool :=
  fix go l :=
    match l with
    | [] => mret_ true
    | x :: l => let* b := f x in if b then go l else mret_ false
    end.
(** [for x in l { out.push(f(x)?); }] *)
Definition collect_m {B} (f : A → M B) : list A → M (list B) :=
  fix go l :=
    match l with
    | [] => mret_ []
    | x :: l => let* y := f x in let* ys := go l in mret_ (y :: ys)
    end.
End mloops.

Definition eq_sign : Z := 61.

Definition condition_matches (name : str) (ctx : AuthzContext) : bool :=
  let get key :=
    match bmap_get key (attributes ctx) with
    | Some v => Some v
    | None => bmap_get key (token_claims ctx)
    end in
  match split_once eq_sign name with
  | Some (key, expected) =>
      match get key with Some actual => bool_decide (actual = expected) | None => false end
  | None =>
      match get name with
      | Some actual => bool_decide (actual ∈ [lit "true"; lit "1"; lit "yes"])
      | None => false
      end
  end.

Definition rewrite_name (rw : Rewrite) : str :=
  lit match rw with
      | Direct => "direct"
      | ComputedUserset _ => "computed_userset"
      | TupleToUserset _ _ => "tuple_to_userset"
      | Union _ => "union"
      | Intersection _ => "intersection"
      | Exclusion _ _ => "exclusion"
      | Condition _ => "condition"
      end.

Definition tuple_tenant_matches (t : RelationshipTuple) (ctx : AuthzContext) : bool :=
  match tenant_id ctx, tuple_tenant t with
  | Some expected, Some actual => bool_decide (expected = actual)
  | Some _, None => true
  | None, _ => true
  end.

Definition tuple_condition_matches (t : RelationshipTuple) (ctx : AuthzContext) : bool :=
  match condition t with Some c => condition_matches c ctx | None => true end.

Definition all_tuples (ev : Evaluator) (ctx : AuthzContext) : list RelationshipTuple :=
  tuples ev ++ contextual_tuples ctx.

Definition relation_definition (ev : Evaluator) (o : ObjectRef) (r : Relation) :
    result AuthzError RelationDefinition :=
  let object_type := ref_type_name o in
  let? definition_type :=
    ok_or (bmap_get object_type (types (model ev))) (UnknownObjectType object_type) in
  ok_or (bmap_get r (relations definition_type)) (UnknownRelation r).

Definition ensure_relation (ev : Evaluator) (o : ObjectRef) (r : Relation) :
    result AuthzError unit :=
  rmap (λ _, tt) (relation_definition ev o r).

Definition direct_match (ev : Evaluator) (ctx : AuthzContext)
    (s : SubjectRef) (r : Relation) (o : ObjectRef) : bool :=
  existsb (λ t, bool_decide (subject t = s) && bool_decide (relation t = r)
                && bool_decide (object t = o)
                && tuple_tenant_matches t ctx && tuple_condition_matches t ctx)
    (all_tuples ev ctx).

(** The tuples a [TupleToUserset] rewrite or a [Direct] expansion walks. *)
Definition linked_tuples (ev : Evaluator) (ctx : AuthzContext)
    (o : ObjectRef) (r : Relation) : list RelationshipTuple :=
  List.filter (λ t, bool_decide (object t = o) && bool_decide (relation t = r)
                    && tuple_tenant_matches t ctx && tuple_condition_matches t ctx)
    (all_tuples ev ctx).

Definition enter (ev : Evaluator) (key : EvalKey) (depth : nat) : M unit := λ st,
  if bool_decide (max_depth ev < depth) then Some (Err MaxDepthExceeded, st)
  else if bool_decide (max_nodes ev ≤ visited st) then Some (Err MaxNodesExceeded, st)
  else if bool_decide (key ∈ stack st) then Some (Err CycleDetected, st)
  else Some (Ok tt, mk_state (S (visited st)) ({[key]} ∪ stack st) (memo st)).

Definition stack_remove (key : EvalKey) (st : EvaluationState) : EvaluationState :=
  mk_state (visited st) (stack st ∖ {[key]}) (memo st).
Definition memo_insert (key : EvalKey) (b : bool) (st : EvaluationState) : EvaluationState :=
  mk_state (visited st) (stack st) (<[key := b]> (memo st)).

Section engine.
Context (ev : Evaluator) (ctx : AuthzContext).

(** [eval_rewrite], with the recursive [check_inner] as a parameter. *)
Fixpoint eval_rewrite (check_inner : SubjectRef → Relation → ObjectRef → nat → M bool)
    (s : SubjectRef) (r : Relation) (o : ObjectRef) (rw : Rewrite) (depth : nat) {struct rw} :
    M bool :=
  match rw with
  | Direct => mret_ (direct_match ev ctx s r o)
  | ComputedUserset computed => check_inner s computed o (S depth)
  | TupleToUserset tupleset computed =>
      any_m (λ t, let* related := mlift (ObjectRef_new (subject t)) in
                  check_inner s computed related (S depth))
        (linked_tuples ev ctx o tupleset)
  | Union children =>
      any_m (λ child, eval_rewrite check_inner s r o child (S depth)) children
  | Intersection children =>
      all_m (λ child, eval_rewrite check_inner s r o child (S depth)) children
  | Exclusion base subtract =>
      let* base_allowed := eval_rewrite check_inner s r o base (S depth) in
      if base_allowed then
        let* subtract_allowed := eval_rewrite check_inner s r o subtract (S depth) in
        mret_ (negb subtract_allowed)
      else mret_ false
  | Condition name => mret_ (condition_matches name ctx)
  end.

(** [check_inner].  The key leaves the stack whatever the evaluation gave;
    the memo is written on success only. *)
Fixpoint check_inner (fuel : nat) (s : SubjectRef) (r : Relation) (o : ObjectRef)
    (depth : nat) {struct fuel} : M bool := λ st,
  let key := (s, r, o) in
  match memo st !! key with
  | Some b => Some (Ok b, st)
  | None =>
    match enter ev key depth st with
    | Some (Ok _, st1) =>
      match fuel with
      | O => None
      | S fuel =>
        let body :=
          let* definition := mlift (relation_definition ev o r) in
          eval_rewrite (check_inner fuel) s r o (rewrite definition) depth in
        match body st1 with
        | None => None
        | Some (res, st2) =>
          let st3 := stack_remove key st2 in
          match res with
          | Ok b => Some (Ok b, memo_insert key b st3)
          | Err e => Some (Err e, st3)
          end
        end
      end
    | Some (Err e, st1) => Some (Err e, st1)
    | None => None
    end
  end.

Definition check_fuel : nat := S (max_depth ev).

Definition check (s : SubjectRef) (r : Relation) (o : ObjectRef) :
    option (result AuthzError Decision) :=
  match ensure_relation ev o r with
  | Err e => Some (Err e)
  | Ok _ =>
    match check_inner check_fuel s r o 0 initial_state with
    | None => None
    | Some (Err e, _) => Some (Err e)
    | Some (Ok true, st) => Some (Ok (Decision_allow (model_id (model ev)) (visited st)))
    | Some (Ok false, st) =>
        Some (Ok (Decision_deny (model_id (model ev))
                    (lit "no matching relationship path") (visited st)))
    end
  end.

Fixpoint batch_check (checks : list (SubjectRef * Relation * ObjectRef)) :
    option (result AuthzError (list Decision)) :=
  match checks with
  | [] => Some (Ok [])
  | (s, r, o) :: checks =>
    match check s r o with
    | Some (Ok d) =>
      match batch_check checks with
      | Some (Ok ds) => Some (Ok (d :: ds))
      | other => other
      end
    | Some (Err e) => Some (Err e)
    | None => None
    end
  end.

(** The loop of [list_objects] over the ordered candidates. *)
Fixpoint list_allowed (s : SubjectRef) (r : Relation) (candidates : list ObjectRef) :
    option (result AuthzError (list ObjectRef)) :=
  match candidates with
  | [] => Some (Ok [])
  | o :: candidates =>
    match check s r o with
    | Some (Ok d) =>
      match list_allowed s r candidates with
      | Some (Ok os) => Some (Ok (if allowed d then o :: os else os))
      | other => other
      end
    | Some (Err e) => Some (Err e)
    | None => None
    end
  end.

Definition list_candidates (object_type : str) : list ObjectRef :=
  bset_of_list (object <$> List.filter
    (λ t, bool_decide (ref_type_name (object t) = object_type)) (all_tuples ev ctx)).

Definition list_objects (s : SubjectRef) (r : Relation) (object_type : str) :
    option (result AuthzError (list ObjectRef)) :=
  match bmap_get object_type (types (model ev)) with
  | None => Some (Err (UnknownObjectType object_type))
  | Some object_definition =>
    if bmap_contains r (relations object_definition)
    then list_allowed s r (list_candidates object_type)
    else Some (Err (UnknownRelation r))
  end.

(** [node.visited = state.visited] is read after the children ran. *)
Definition finish_node (o : ObjectRef) (r : Relation) (rw : Rewrite)
    (subjects : list SubjectRef) (children : list ExpansionNode) : M ExpansionNode := λ st,
  Some (Ok (mk_node o r (rewrite_name rw) subjects children (visited st)), st).

Fixpoint expand_rewrite (expand_inner : Relation → ObjectRef → nat → M ExpansionNode)
    (r : Relation) (o : ObjectRef) (rw : Rewrite) (depth : nat) {struct rw} :
    M ExpansionNode :=
  match rw with
  | Direct =>
      finish_node o r rw (bset_of_list (subject <$> linked_tuples ev ctx o r)) []
  | ComputedUserset computed =>
      let* child := expand_inner computed o (S depth) in
      finish_node o r rw [] [child]
  | TupleToUserset tupleset computed =>
      let* children :=
        collect_m (λ t, let* related := mlift (ObjectRef_new (subject t)) in
                        expand_inner computed related (S depth))
          (linked_tuples ev ctx o tupleset) in
      finish_node o r rw [] children
  | Union cs | Intersection cs =>
      let* children :=
        collect_m (λ child, expand_rewrite expand_inner r o child (S depth)) cs in
      finish_node o r rw [] children
  | Exclusion base subtract =>
      let* n1 := expand_rewrite expand_inner r o base (S depth) in
      let* n2 := expand_rewrite expand_inner r o subtract (S depth) in
      finish_node o r rw [] [n1; n2]
  | Condition _ => finish_node o r rw [] []
  end.

Definition synthetic_subject : SubjectRef := lit "__expand__:subject".

Fixpoint expand_inner (fuel : nat) (r : Relation) (o : ObjectRef) (depth : nat)
    {struct fuel} : M ExpansionNode := λ st,
  let key := (synthetic_subject, r, o) in
  match enter ev key depth st with
  | Some (Ok _, st1) =>
    match fuel with
    | O => None
    | S fuel =>
      let body :=
        let* definition := mlift (relation_definition ev o r) in
        expand_rewrite (expand_inner fuel) r o (rewrite definition) depth in
      match body st1 with
      | None => None
      | Some (res, st2) => Some (res, stack_remove key st2)
      end
    end
  | Some (Err e, st1) => Some (Err e, st1)
  | None => None
  end.

Definition expand (r : Relation) (o : ObjectRef) : option (result AuthzError ExpansionNode) :=
  match ensure_relation ev o r with
  | Err e => Some (Err e)
  | Ok _ =>
    match expand_inner check_fuel r o 0 initial_state with
    | None => None
    | Some (res, _) => Some res
    end
  end.
End engine.
