(* ===== verification/EvaluatorProofs.v ===== *)
(** * EvaluatorProofs: what a decision of the evaluator means

    A declarative semantics of relations ([sem], one rule per way a rewrite
    holds or fails, no state, no limits), a small Hoare logic for the
    evaluator's stateful computations ([triple]), and the theorems that relate
    src/crates/wasi-auth/src/testkit/evaluator/engine.rs to them: every request
    terminates within the configured limits, the memo table and the recursion
    stack are used soundly, decisions agree with the semantics, tuples of other
    tenants do not influence them, and [expand] and [list_objects] agree with
    [check]. *)

From S2P Require Export Evaluator.

(** ** Induction on rewrites, through their lists of children *)

Section Rewrite_ind.
Context (P : Rewrite → Prop).
Hypothesis HDirect : P Direct.
Hypothesis HComputed : ∀ r, P (ComputedUserset r).
Hypothesis HTtu : ∀ t c, P (TupleToUserset t c).
Hypothesis HUnion : ∀ cs, Forall P cs → P (Union cs).
Hypothesis HInter : ∀ cs, Forall P cs → P (Intersection cs).
Hypothesis HExcl : ∀ b s, P b → P s → P (Exclusion b s).
Hypothesis HCond : ∀ n, P (Condition n).

Fixpoint Rewrite_nested_ind (rw : Rewrite) : P rw :=
  let all := fix all (l : list Rewrite) : Forall P l :=
    match l with
    | [] => List.Forall_nil P
    | x :: l => List.Forall_cons P x l (Rewrite_nested_ind x) (all l)
    end in
  match rw with
  | Direct => HDirect
  | ComputedUserset r => HComputed r
  | TupleToUserset t c => HTtu t c
  | Union cs => HUnion cs (all cs)
  | Intersection cs => HInter cs (all cs)
  | Exclusion b s => HExcl b s (Rewrite_nested_ind b) (Rewrite_nested_ind s)
  | Condition n => HCond n
  end.
End Rewrite_ind.

(** ** model.rs: what a validated model is *)

Definition non_blank (x : str) : Prop := trim x ≠ [].

Inductive wf_rewrite : Rewrite → Prop :=
| wf_direct : wf_rewrite Direct
| wf_computed r : non_blank r → wf_rewrite (ComputedUserset r)
| wf_ttu t c : non_blank t → non_blank c → wf_rewrite (TupleToUserset t c)
| wf_union cs : cs ≠ [] → (∀ c, c ∈ cs → wf_rewrite c) → wf_rewrite (Union cs)
| wf_inter cs : cs ≠ [] → (∀ c, c ∈ cs → wf_rewrite c) → wf_rewrite (Intersection cs)
| wf_excl b s : wf_rewrite b → wf_rewrite s → wf_rewrite (Exclusion b s)
| wf_cond n : non_blank n → wf_rewrite (Condition n).

Record wf_model (m : AuthorizationModel) : Prop := {
  wf_id : non_blank (model_id m);
  wf_schema : non_blank (schema_version m);
  wf_types : types m ≠ [];
  wf_type k ot : (k, ot) ∈ types m →
    non_blank k ∧ k = ot_name ot ∧ relations ot ≠ [] ∧
    ∀ rn d, (rn, d) ∈ relations ot → non_blank rn ∧ wf_rewrite (rewrite d);
}.

Lemma is_empty_trim (x : str) : is_empty (trim x) = false ↔ non_blank x.
Proof. unfold non_blank. destruct (trim x); naive_solver. Qed.
#[export] Hint Rewrite is_empty_trim : brefl.

Lemma validate_relation_ref_Ok ty rn l r :
  validate_relation_ref ty rn l r = Ok tt ↔ non_blank r.
Proof. unfold validate_relation_ref. rewrite fail_Ok, is_empty_trim. naive_solver. Qed.

Lemma rewrite_validate_Ok ty rn rw : rewrite_validate ty rn rw = Ok tt ↔ wf_rewrite rw.
Proof.
  assert (Hch : ∀ cs, Forall (λ c, rewrite_validate ty rn c = Ok tt ↔ wf_rewrite c) cs →
    for_each (rewrite_validate ty rn) cs = Ok tt ↔ ∀ c, c ∈ cs → wf_rewrite c).
  { intros cs Hcs. rewrite for_each_Ok, Forall_forall. rewrite Forall_forall in Hcs.
    naive_solver. }
  induction rw as [|r|t c|cs IH|cs IH|b s IHb IHs|n] using Rewrite_nested_ind; cbn [rewrite_validate].
  - split; [constructor|done].
  - rewrite validate_relation_ref_Ok. split; [by constructor|by inversion 1].
  - rewrite rbind_Ok. split.
    + intros ([] & H1 & H2). rewrite validate_relation_ref_Ok in H1, H2. by constructor.
    + inversion_clear 1. exists tt. by rewrite !validate_relation_ref_Ok.
  - destruct cs; [split; [done|by inversion 1]|]. rewrite Hch by done.
    split; [by constructor|by inversion 1].
  - destruct cs; [split; [done|by inversion 1]|]. rewrite Hch by done.
    split; [by constructor|by inversion 1].
  - rewrite rbind_Ok. split.
    + intros ([] & H1 & H2). constructor; tauto.
    + inversion_clear 1. exists tt. tauto.
  - rewrite fail_Ok, is_empty_trim. split; [intros [??]; by constructor|by inversion 1].
Qed.

Lemma validate_object_type_Ok k ot :
  validate_object_type (k, ot) = Ok tt ↔
  non_blank k ∧ k = ot_name ot ∧ relations ot ≠ [] ∧
  ∀ rn d, (rn, d) ∈ relations ot → non_blank rn ∧ wf_rewrite (rewrite d).
Proof.
  unfold validate_object_type. rewrite !fail_Ok, for_each_Ok, Forall_forall.
  rewrite orb_false_iff, !is_empty_trim, negb_false_iff, bool_decide_eq_true.
  assert (Hrel : (match relations ot with [] => true | _ => false end) = false
    ↔ relations ot ≠ []) by (destruct (relations ot); naive_solver).
  rewrite Hrel. split.
  - intros ([Hk _] & -> & Hr & Hall). repeat split; auto; apply Hall in H;
      rewrite fail_Ok, is_empty_trim, rewrite_validate_Ok in H; naive_solver.
  - intros (Hk & -> & Hr & Hall). repeat split; auto.
    intros [rn d] [? ?]%Hall. by rewrite fail_Ok, is_empty_trim, rewrite_validate_Ok.
Qed.

(** [AuthorizationModel::validate] accepts a model exactly when it is well
    formed: non-blank id and schema version, at least one object type, every
    type stored under its own non-blank name with at least one relation, and in
    every rewrite, at any nesting, non-blank relation and condition names and
    non-empty unions and intersections. *)
Theorem model_validate_iff_wf m : model_validate m = Ok tt ↔ wf_model m.
Proof.
  unfold model_validate. rewrite !fail_Ok, !is_empty_trim, for_each_Ok, Forall_forall.
  assert (Ht : (match types m with [] => true | _ => false end) = false
    ↔ types m ≠ []) by (destruct (types m); naive_solver).
  rewrite Ht. split.
  - intros (H1 & H2 & H3 & H4). constructor; auto.
    intros k ot Hin. apply validate_object_type_Ok. by apply H4.
  - intros [H1 H2 H3 H4]. repeat split; auto.
    intros [k ot] Hin. apply validate_object_type_Ok. by apply H4.
Qed.

(** ** Declarative semantics *)

Inductive query :=
| QCheck (s : SubjectRef) (r : Relation) (o : ObjectRef)
| QRewrite (s : SubjectRef) (r : Relation) (o : ObjectRef) (rw : Rewrite).

Section semantics.
Context (ev : Evaluator) (ctx : AuthzContext).

(** A tuple counts in a context when it is not of another tenant than the
    one of the request and its condition matches. *)
Definition effective (t : RelationshipTuple) : Prop :=
  t ∈ all_tuples ev ctx ∧
  (∀ org tenant, tenant_id ctx = Some org → tuple_tenant t = Some tenant → tenant = org) ∧
  tuple_condition_matches t ctx = true.

Definition has_tuple (s : SubjectRef) (r : Relation) (o : ObjectRef) : Prop :=
  ∃ t, effective t ∧ subject t = s ∧ relation t = r ∧ object t = o.

Inductive sem : query → bool → Prop :=
| sem_check s r o d b :
    relation_definition ev o r = Ok d →
    sem (QRewrite s r o (rewrite d)) b → sem (QCheck s r o) b
| sem_direct_yes s r o : has_tuple s r o → sem (QRewrite s r o Direct) true
| sem_direct_no s r o : ¬ has_tuple s r o → sem (QRewrite s r o Direct) false
| sem_computed s r o c b :
    sem (QCheck s c o) b → sem (QRewrite s r o (ComputedUserset c)) b
| sem_ttu_yes s r o ts c o' :
    has_tuple o' ts o → is_ok (ObjectRef_new o') = true → sem (QCheck s c o') true →
    sem (QRewrite s r o (TupleToUserset ts c)) true
| sem_ttu_no s r o ts c :
    (∀ o', has_tuple o' ts o → is_ok (ObjectRef_new o') = true) →
    (∀ o', has_tuple o' ts o → sem (QCheck s c o') false) →
    sem (QRewrite s r o (TupleToUserset ts c)) false
| sem_union_yes s r o cs c :
    c ∈ cs → sem (QRewrite s r o c) true → sem (QRewrite s r o (Union cs)) true
| sem_union_no s r o cs :
    (∀ c, c ∈ cs → sem (QRewrite s r o c) false) → sem (QRewrite s r o (Union cs)) false
| sem_inter_no s r o cs c :
    c ∈ cs → sem (QRewrite s r o c) false → sem (QRewrite s r o (Intersection cs)) false
| sem_inter_yes s r o cs :
    (∀ c, c ∈ cs → sem (QRewrite s r o c) true) → sem (QRewrite s r o (Intersection cs)) true
| sem_excl_base s r o x y :
    sem (QRewrite s r o x) false → sem (QRewrite s r o (Exclusion x y)) false
| sem_excl s r o x y b :
    sem (QRewrite s r o x) true → sem (QRewrite s r o y) b →
    sem (QRewrite s r o (Exclusion x y)) (negb b)
| sem_cond s r o n : sem (QRewrite s r o (Condition n)) (condition_matches n ctx).

(** The semantics never grants and denies the same request. *)
Lemma sem_functional q b1 b2 : sem q b1 → sem q b2 → b1 = b2.
Proof.
  intros H1; revert b2.
  induction H1; intros b2 H2; inversion H2; simplify_eq; try done; try (f_equal; by eauto).
  - assert (d0 = d) as -> by congruence. eauto.
  - by specialize (IHsem true ltac:(done)).
  - by specialize (IHsem1 false ltac:(done)).
Qed.

Lemma tenant_matches_spec t :
  tuple_tenant_matches t ctx = true
  ↔ ∀ org tenant, tenant_id ctx = Some org → tuple_tenant t = Some tenant → tenant = org.
Proof.
  unfold tuple_tenant_matches.
  destruct (tenant_id ctx), (tuple_tenant t); rewrite ?bool_decide_eq_true; split; try done.
  - by intros -> ? ? [= <-] [= <-].
  - intros H. symmetry. by apply H.
Qed.

Lemma direct_match_spec s r o : direct_match ev ctx s r o = true ↔ has_tuple s r o.
Proof.
  unfold direct_match, has_tuple, effective. rewrite existsb_spec.
  apply exist_proper; intros t. bprop. pose proof (tenant_matches_spec t). tauto.
Qed.

Lemma linked_tuples_spec o r t :
  t ∈ linked_tuples ev ctx o r ↔ effective t ∧ object t = o ∧ relation t = r.
Proof.
  unfold linked_tuples, effective. rewrite elem_of_filterb. bprop.
  pose proof (tenant_matches_spec t). tauto.
Qed.
End semantics.

(** ** A Hoare logic for the evaluation state

    [triple P m]: from every state that satisfies the invariant [m] runs to the
    end (no lack of fuel), ends in a state that satisfies the invariant and
    extends the first one with the recursion stack as it was, and a value it
    returns satisfies [P].  Errors carry no postcondition but keep the state
    clauses. *)

Section hoare.
Context (ev : Evaluator) (ctx : AuthzContext).

Record state_ok (st : EvaluationState) : Prop := {
  ok_memo s r o b : memo st !! (s, r, o) = Some b → sem ev ctx (QCheck s r o) b;
  ok_size : size (memo st) + size (stack st) ≤ visited st;
  ok_visited : visited st ≤ max_nodes ev;
}.

Record extends (st st' : EvaluationState) : Prop := {
  ext_stack : stack st' = stack st;
  ext_visited : visited st ≤ visited st';
  ext_memo : memo st ⊆ memo st';
}.

#[global] Instance extends_preorder : PreOrder extends.
Proof.
  split; [intros st; by constructor|].
  intros st1 st2 st3 [H1 H2 H3] [H4 H5 H6]. constructor; [congruence|lia|by etrans].
Qed.

Definition triple {A} (P : A → Prop) (m : M A) : Prop :=
  ∀ st, state_ok st → ∃ res st',
    m st = Some (res, st') ∧ state_ok st' ∧ extends st st' ∧ ∀ a, res = Ok a → P a.

Lemma triple_lift {A} (P : A → Prop) res : (∀ a, res = Ok a → P a) → triple P (mlift res).
Proof. intros HP st Hst. exists res, st. by split_and!. Qed.

Lemma triple_ret {A} (P : A → Prop) a : P a → triple P (mret_ a).
Proof. intros HP. apply (triple_lift P (Ok a)). by intros ? [= <-]. Qed.

Lemma triple_bind {A B} (P : A → Prop) (Q : B → Prop) m k :
  triple P m → (∀ a, P a → triple Q (k a)) → triple Q (mbind_ m k).
Proof.
  intros Hm Hk st Hst. unfold mbind_.
  destruct (Hm st Hst) as (res & st1 & -> & Hst1 & Hext & HP).
  destruct res as [a|e].
  - destruct (Hk a (HP a eq_refl) st1 Hst1) as (res' & st2 & -> & ? & ? & ?).
    exists res', st2. split_and!; try done. by etrans.
  - exists (Err e), st1. by split_and!.
Qed.

Lemma triple_mono {A} (P Q : A → Prop) m : (∀ a, P a → Q a) → triple P m → triple Q m.
Proof.
  intros HPQ Hm st Hst. destruct (Hm st Hst) as (res & st' & ? & ? & ? & ?).
  exists res, st'. split_and!; auto.
Qed.

(** The loop that stops at the first [true]. *)
Lemma triple_any {A} (f : A → M bool) (P : A → bool → Prop) l :
  (∀ x, x ∈ l → triple (P x) (f x)) →
  triple (λ b, if b : bool then ∃ x, x ∈ l ∧ P x true else ∀ x, x ∈ l → P x false) (any_m f l).
Proof.
  induction l as [|x l IH]; intros Hf.
  - apply triple_ret. intros x Hx. by apply elem_of_nil in Hx.
  - change (any_m f (x :: l)) with (mbind_ (f x) (λ b, if b : bool then mret_ true else any_m f l)).
    eapply triple_bind; [apply Hf; left|]. intros [] Hx.
    + apply triple_ret. exists x. split; [left|done].
    + eapply triple_mono; [|apply IH; intros; apply Hf; by right].
      intros [] Hl; [destruct Hl as (y & ? & ?); exists y; split; [by right|done]|].
      intros y [->|Hy]%elem_of_cons; auto.
Qed.

(** The loop that stops at the first [false]. *)
Lemma triple_all {A} (f : A → M bool) (P : A → bool → Prop) l :
  (∀ x, x ∈ l → triple (P x) (f x)) →
  triple (λ b, if b : bool then ∀ x, x ∈ l → P x true else ∃ x, x ∈ l ∧ P x false) (all_m f l).
Proof.
  induction l as [|x l IH]; intros Hf.
  - apply triple_ret. intros x Hx. by apply elem_of_nil in Hx.
  - change (all_m f (x :: l)) with (mbind_ (f x) (λ b, if b : bool then all_m f l else mret_ false)).
    eapply triple_bind; [apply Hf; left|]. intros [] Hx.
    + eapply triple_mono; [|apply IH; intros; apply Hf; by right].
      intros [] Hl; [|destruct Hl as (y & ? & ?); exists y; split; [by right|done]].
      intros y [->|Hy]%elem_of_cons; auto.
    + apply triple_ret. exists x. split; [left|done].
Qed.

Lemma triple_collect {A B} (f : A → M B) (P : A → B → Prop) l :
  (∀ x, x ∈ l → triple (P x) (f x)) → triple (Forall2 P l) (collect_m f l).
Proof.
  induction l as [|x l IH]; intros Hf; [apply triple_ret; constructor|].
  change (collect_m f (x :: l)) with
    (mbind_ (f x) (λ y, mbind_ (collect_m f l) (λ ys, mret_ (y :: ys)))).
  eapply triple_bind; [apply Hf; left|]. intros y Hy.
  eapply triple_bind; [apply IH; intros; apply Hf; by right|].
  intros ys Hys. apply triple_ret. by constructor.
Qed.

(** [enter], a body run under the entered key, and the removal of the key. *)
Definition guarded {A} (key : EvalKey) (depth : nat) (body : M A) : M A := λ st,
  match enter ev key depth st with
  | Some (Ok _, st1) =>
      match body st1 with
      | None => None
      | Some (res, st2) => Some (res, stack_remove key st2)
      end
  | Some (Err e, st1) => Some (Err e, st1)
  | None => None
  end.

(** What [guarded] guarantees: the entered node pays for one more memo entry. *)
Definition guarded_post {A} (P : A → Prop) (m : M A) : Prop :=
  ∀ st, state_ok st → ∃ res st',
    m st = Some (res, st') ∧ state_ok st' ∧ extends st st' ∧
    ∀ a, res = Ok a → P a ∧ size (memo st') + size (stack st') < visited st'.

Lemma guarded_spec {A} (P : A → Prop) key depth body :
  (depth ≤ max_depth ev → triple P body) → guarded_post P (guarded key depth body).
Proof.
  intros Hb st Hst. unfold guarded, enter.
  case_bool_decide as Hd; [by eexists _, _; split_and!|].
  case_bool_decide as Hn; [by eexists _, _; split_and!|].
  case_bool_decide as Hs; [by eexists _, _; split_and!|].
  destruct (Hb ltac:(lia) (mk_state (S (visited st)) ({[key]} ∪ stack st) (memo st)))
    as (res & st2 & -> & [Hm Hsz Hv] & [Es Ev Em] & HP).
  { destruct Hst as [Hm Hsz Hv]. constructor; cbn in *; [done| |lia].
    rewrite size_union by set_solver. rewrite size_singleton. lia. }
  cbn in *. exists res, (stack_remove key st2).
  assert (Hrem : stack st2 ∖ {[key]} = stack st) by (rewrite Es; set_solver).
  assert (size (stack st2) = S (size (stack st))).
  { rewrite Es, size_union by set_solver. by rewrite size_singleton. }
  split_and!; [done|constructor|constructor|]; cbn; rewrite ?Hrem; auto with lia.
Qed.
End hoare.

Section engine_specs.
Context (ev : Evaluator) (ctx : AuthzContext).
Local Abbreviation triple := (triple ev ctx).
Local Abbreviation sem := (sem ev ctx).

Lemma linked_related o r t :
  t ∈ linked_tuples ev ctx o r → has_tuple ev ctx (subject t) r o.
Proof. rewrite linked_tuples_spec. intros (? & <- & <-). by exists t. Qed.

Lemma has_tuple_linked s r o :
  has_tuple ev ctx s r o → ∃ t, t ∈ linked_tuples ev ctx o r ∧ subject t = s.
Proof. intros (t & He & <- & <- & <-). exists t. by rewrite linked_tuples_spec. Qed.

Lemma ref_new_Ok l x y : ref_new l x = Ok y → y = x ∧ is_ok (ref_new l x) = true.
Proof. intros H. rewrite H. unfold ref_new in H. by ok_inv H. Qed.

Lemma triple_related {A} (P : A → Prop) (x : str) (k : str → M A) :
  (is_ok (ObjectRef_new x) = true → triple P (k x)) →
  triple P (mbind_ (mlift (ObjectRef_new x)) k).
Proof.
  intros Hk. eapply (triple_bind _ _ (λ y, y = x ∧ is_ok (ObjectRef_new x) = true)).
  - apply triple_lift. intros y. apply ref_new_Ok.
  - intros y [-> ?]. by apply Hk.
Qed.

Lemma eval_rewrite_spec check_in s r o depth rw :
  (∀ r' o' d, depth < d → triple (sem (QCheck s r' o')) (check_in s r' o' d)) →
  triple (sem (QRewrite s r o rw)) (eval_rewrite ev ctx check_in s r o rw depth).
Proof.
  revert depth. induction rw as [|c|ts c|cs IH|cs IH|x y IHx IHy|n] using Rewrite_nested_ind;
    intros depth Hc; cbn [eval_rewrite].
  - apply triple_ret. destruct (direct_match ev ctx s r o) eqn:E.
    + constructor. by apply direct_match_spec.
    + constructor. rewrite <- direct_match_spec. by rewrite E.
  - eapply triple_mono; [|apply Hc; lia]. intros b; apply sem_computed.
  - eapply triple_mono; [|apply (triple_any _ _ _ (λ t b,
      is_ok (ObjectRef_new (subject t)) = true ∧ sem (QCheck s c (subject t)) b));
      intros t Ht; apply triple_related; intros Ho;
      eapply triple_mono; [|apply Hc; lia]; done].
    intros [] H.
    + destruct H as (t & Ht & Ho & Hs). eapply sem_ttu_yes; eauto using linked_related.
    + apply sem_ttu_no; intros o' (t & Ht & <-)%has_tuple_linked; by apply H.
  - eapply triple_mono; [|apply (triple_any _ _ _ (λ x b, sem (QRewrite s r o x) b));
      intros x Hx; rewrite Forall_forall in IH; apply IH; [done|intros; apply Hc; lia]].
    intros [] H; [destruct H as (x & ? & ?); by eapply sem_union_yes|by apply sem_union_no].
  - eapply triple_mono; [|apply (triple_all _ _ _ (λ x b, sem (QRewrite s r o x) b));
      intros x Hx; rewrite Forall_forall in IH; apply IH; [done|intros; apply Hc; lia]].
    intros [] H; [by apply sem_inter_yes|destruct H as (x & ? & ?); by eapply sem_inter_no].
  - eapply triple_bind; [apply IHx; intros; apply Hc; lia|]. intros [] Hx.
    + eapply triple_bind; [apply IHy; intros; apply Hc; lia|]. intros b Hy.
      apply triple_ret. by apply sem_excl.
    + apply triple_ret. by apply sem_excl_base.
  - apply triple_ret. constructor.
Qed.

Lemma check_inner_guarded fuel s r o depth st :
  memo st !! (s, r, o) = None →
  check_inner ev ctx (S fuel) s r o depth st =
    match guarded ev (s, r, o) depth
            (mbind_ (mlift (relation_definition ev o r)) (λ d,
               eval_rewrite ev ctx (check_inner ev ctx fuel) s r o (rewrite d) depth)) st with
    | None => None
    | Some (Ok b, st') => Some (Ok b, memo_insert (s, r, o) b st')
    | Some (Err e, st') => Some (Err e, st')
    end.
Proof.
  intros Hm. cbn [check_inner]. rewrite Hm. unfold guarded.
  destruct (enter ev (s, r, o) depth st) as [[[u|e] st1]|]; [|done..].
  destruct (mbind_ _ _ st1) as [[[b|e] st2]|]; done.
Qed.

Lemma check_inner_too_deep s r o depth st :
  max_depth ev < depth → memo st !! (s, r, o) = None →
  ∀ fuel, check_inner ev ctx fuel s r o depth st = Some (Err MaxDepthExceeded, st).
Proof.
  intros Hd Hm fuel. destruct fuel; cbn [check_inner]; rewrite Hm; unfold enter;
    by rewrite bool_decide_true.
Qed.

Lemma check_inner_spec fuel s r o depth :
  max_depth ev < fuel + depth → triple (sem (QCheck s r o)) (check_inner ev ctx fuel s r o depth).
Proof.
  revert s r o depth. induction fuel as [|fuel IH]; intros s r o depth Hf st Hst;
    (destruct (memo st !! (s, r, o)) as [b|] eqn:Hm;
     [exists (Ok b), st; cbn [check_inner]; rewrite Hm; split_and!; try done;
      intros ? [= <-]; by eapply ok_memo|]).
  { rewrite check_inner_too_deep by (done || lia). by eexists _, _; split_and!. }
  rewrite check_inner_guarded by done.
  edestruct (guarded_spec ev ctx (λ b, sem (QCheck s r o) b) (s, r, o) depth)
    as (res & st' & -> & Hst' & Hext & HP); [|exact Hst|].
  { intros Hd. eapply (triple_bind _ _ (λ d, relation_definition ev o r = Ok d)).
    - by apply triple_lift.
    - intros d Hrd. eapply triple_mono; [|apply eval_rewrite_spec].
      + intros b. by apply sem_check.
      + intros r' o' d' Hd'. apply IH. lia. }
  destruct res as [b|e]; [|by eexists _, _; split_and!].
  destruct (HP b eq_refl) as [HPb Hsz]. eexists _, _; split; [done|].
  destruct Hst' as [Hm' Hsz' Hv'], Hext as [Es Ev Em].
  split_and!; [constructor|constructor|by intros ? [= <-]]; cbn; auto with lia.
  - intros s' r' o' b'. rewrite lookup_insert_Some. intros [[[= -> -> ->] <-]|[_ ?]]; auto.
  - rewrite map_size_insert. destruct (memo st' !! (s, r, o)); cbn; lia.
  - etrans; [apply Em|]. destruct (memo st' !! (s, r, o)) as [b'|] eqn:E.
    + rewrite insert_id; [done|]. rewrite E. f_equal.
      eapply sem_functional; [by apply Hm'|done].
    + by apply insert_subseteq.
Qed.

Lemma initial_state_ok : state_ok ev ctx initial_state.
Proof. constructor; cbn; [done| |lia]. rewrite map_size_empty, size_empty. done. Qed.
End engine_specs.

(** ** Decisions *)

Section decisions.
Context (ev : Evaluator) (ctx : AuthzContext).

(** One run of [check_inner] from the initial state, as [check] makes it. *)
Lemma check_inner_run s r o :
  ∃ res st, check_inner ev ctx (check_fuel ev) s r o 0 initial_state = Some (res, st) ∧
    state_ok ev ctx st ∧ stack st = ∅ ∧ ∀ b, res = Ok b → sem ev ctx (QCheck s r o) b.
Proof.
  destruct (check_inner_spec ev ctx (check_fuel ev) s r o 0) with (st := initial_state)
    as (res & st & H & Hst & [Hs _ _] & HP);
    [unfold check_fuel; lia|apply initial_state_ok|].
  by exists res, st.
Qed.

Lemma check_cases s r o :
  (∃ e, check ev ctx s r o = Some (Err e)) ∨
  (∃ d, check ev ctx s r o = Some (Ok d) ∧ sem ev ctx (QCheck s r o) (allowed d) ∧
     decision_visited d ≤ max_nodes ev ∧ decision_model_id d = model_id (model ev) ∧
     (allowed d = true ↔ reason d = None)).
Proof.
  unfold check. destruct (ensure_relation ev o r) as [u|e]; [|by eauto].
  destruct (check_inner_run s r o) as ([[]|e] & st & -> & [_ _ Hv] & _ & Hsem); [right..|by eauto];
    eexists; split; try done; cbn; split_and!; auto; naive_solver.
Qed.

Lemma check_Ok s r o d :
  check ev ctx s r o = Some (Ok d) → sem ev ctx (QCheck s r o) (allowed d).
Proof. destruct (check_cases s r o) as [(e & ->)|(d' & -> & ? & _)]; naive_solver. Qed.

Lemma list_allowed_spec s r cs :
  (∃ e, list_allowed ev ctx s r cs = Some (Err e)) ∨
  (∃ f : str → bool, list_allowed ev ctx s r cs = Some (Ok (List.filter f cs)) ∧
     ∀ o, o ∈ cs → sem ev ctx (QCheck s r o) (f o)).
Proof.
  set (g o := match check ev ctx s r o with Some (Ok d) => allowed d | _ => false end).
  assert ((∃ e, list_allowed ev ctx s r cs = Some (Err e)) ∨
    (list_allowed ev ctx s r cs = Some (Ok (List.filter g cs)) ∧
     ∀ o, o ∈ cs → sem ev ctx (QCheck s r o) (g o))) as [?|[? ?]]; [|by left|right; by exists g].
  induction cs as [|o cs IH]; cbn [list_allowed].
  { right. split; [done|]. by intros o ?%elem_of_nil. }
  destruct (check_cases s r o) as [(e & He)|(d & Hd & Hsem & _)]; [left; rewrite He; by eauto|].
  assert (Hg : g o = allowed d) by (unfold g; by rewrite Hd).
  rewrite Hd. destruct IH as [(e & ->)|[-> IH]]; [left; by eauto|right].
  split; [cbn [List.filter]; rewrite Hg; by destruct (allowed d)|].
  intros o' [->|Ho]%elem_of_cons; [by rewrite Hg|auto].
Qed.

Lemma elem_of_list_candidates ty o :
  o ∈ list_candidates ev ctx ty ↔
  ref_type_name o = ty ∧ ∃ t, t ∈ all_tuples ev ctx ∧ object t = o.
Proof.
  unfold list_candidates. rewrite elem_of_bset_of_list, list_elem_of_fmap.
  setoid_rewrite elem_of_filterb. setoid_rewrite bool_decide_eq_true. naive_solver.
Qed.

Lemma sorted_filter f (l : list str) : ssorted l → ssorted (List.filter f l).
Proof.
  induction l as [|x l IH]; cbn; [done|]. rewrite ssorted_cons. intros [Hl Hx].
  destruct (f x); [|auto]. rewrite ssorted_cons. split; [auto|].
  intros y [Hy _]%elem_of_filterb. auto.
Qed.
End decisions.

(** ** Tenants: requests of one tenant ignore the tuples of the others *)

(** The tuple names a tenant, and that tenant is not [org]. *)
Definition of_other_tenant (org : str) (t : RelationshipTuple) : bool :=
  match tuple_tenant t with
  | Some tenant => bool_decide (tenant ≠ org)
  | None => false
  end.

(** The stored and the contextual tuples without those of other tenants. *)
Definition visible_tuples (org : str) (ev : Evaluator) (ctx : AuthzContext) :
    list RelationshipTuple :=
  List.filter (λ t, negb (of_other_tenant org t)) (tuples ev ++ contextual_tuples ctx).

Record same_view (org : str) (ev1 ev2 : Evaluator) (ctx1 ctx2 : AuthzContext) : Prop := {
  sv_model : model ev1 = model ev2;
  sv_depth : max_depth ev1 = max_depth ev2;
  sv_nodes : max_nodes ev1 = max_nodes ev2;
  sv_tenant1 : tenant_id ctx1 = Some org;
  sv_tenant2 : tenant_id ctx2 = Some org;
  sv_attributes : attributes ctx1 = attributes ctx2;
  sv_claims : token_claims ctx1 = token_claims ctx2;
  sv_tuples : visible_tuples org ev1 ctx1 = visible_tuples org ev2 ctx2;
}.

Lemma tenant_matches_own org t ctx :
  tenant_id ctx = Some org → tuple_tenant_matches t ctx = negb (of_other_tenant org t).
Proof.
  unfold tuple_tenant_matches, of_other_tenant. intros ->. destruct (tuple_tenant t); [|done].
  repeat case_bool_decide; naive_solver.
Qed.

Lemma existsb_filter {A} (p q : A → bool) l :
  existsb (λ x, q x && p x) l = existsb p (List.filter q l).
Proof. induction l as [|x l IH]; cbn; [done|]. destruct (q x); cbn; by rewrite IH. Qed.

Lemma filter_filterb {A} (p q : A → bool) l :
  List.filter (λ x, q x && p x) l = List.filter p (List.filter q l).
Proof.
  induction l as [|x l IH]; cbn; [done|].
  destruct (q x); cbn; [destruct (p x); by rewrite IH|done].
Qed.

Lemma existsb_ext' {A} (p q : A → bool) l : (∀ x, p x = q x) → existsb p l = existsb q l.
Proof. intros H. induction l; cbn; congruence. Qed.

Section mloops_ext.
Context {A : Type}.
Lemma any_m_ext (f g : A → M bool) l st :
  (∀ x st, x ∈ l → f x st = g x st) → any_m f l st = any_m g l st.
Proof.
  revert st; induction l as [|x l IH]; intros st H; [done|].
  cbn. unfold mbind_. rewrite (H x) by left.
  destruct (g x st) as [[[[]|] ?]|]; try done. apply IH. intros; apply H; by right.
Qed.
Lemma all_m_ext (f g : A → M bool) l st :
  (∀ x st, x ∈ l → f x st = g x st) → all_m f l st = all_m g l st.
Proof.
  revert st; induction l as [|x l IH]; intros st H; [done|].
  cbn. unfold mbind_. rewrite (H x) by left.
  destruct (g x st) as [[[[]|] ?]|]; try done. apply IH. intros; apply H; by right.
Qed.
End mloops_ext.

Lemma mbind_ext {A B} (m1 m2 : M A) (k1 k2 : A → M B) st :
  m1 st = m2 st → (∀ a st, k1 a st = k2 a st) → mbind_ m1 k1 st = mbind_ m2 k2 st.
Proof. intros Hm Hk. unfold mbind_. rewrite Hm. by destruct (m2 st) as [[[]]|]. Qed.

Section same_view.
Context (ev1 ev2 : Evaluator) (ctx1 ctx2 : AuthzContext) (org : str) (SV : same_view org ev1 ev2 ctx1 ctx2).
#[local] Set Default Proof Using "All".

Lemma sv_condition n : condition_matches n ctx1 = condition_matches n ctx2.
Proof. destruct SV. unfold condition_matches. by rewrite sv_attributes0, sv_claims0. Qed.

Lemma sv_tuple_condition t : tuple_condition_matches t ctx1 = tuple_condition_matches t ctx2.
Proof. unfold tuple_condition_matches. destruct (condition t); auto using sv_condition. Qed.

Lemma sv_direct s r o : direct_match ev1 ctx1 s r o = direct_match ev2 ctx2 s r o.
Proof.
  assert (Hd : ∀ ev ctx, tenant_id ctx = Some org → direct_match ev ctx s r o = existsb (λ t,
    bool_decide (subject t = s) && bool_decide (relation t = r) && bool_decide (object t = o)
    && tuple_condition_matches t ctx) (visible_tuples org ev ctx)).
  { intros ev ctx Ht. unfold visible_tuples. rewrite <- existsb_filter. apply existsb_ext'.
    intros t. rewrite (tenant_matches_own org) by done.
    destruct (negb (of_other_tenant org t)); cbn; by rewrite ?andb_true_r, ?andb_false_r. }
  rewrite !Hd, (sv_tuples _ _ _ _ _ SV) by apply SV. apply existsb_ext'. intros t. by rewrite sv_tuple_condition.
Qed.

Lemma sv_linked o r : linked_tuples ev1 ctx1 o r = linked_tuples ev2 ctx2 o r.
Proof.
  assert (Hd : ∀ ev ctx, tenant_id ctx = Some org → linked_tuples ev ctx o r = List.filter (λ t,
    bool_decide (object t = o) && bool_decide (relation t = r)
    && tuple_condition_matches t ctx) (visible_tuples org ev ctx)).
  { intros ev ctx Ht. unfold visible_tuples. rewrite <- filter_filterb. apply filter_ext.
    intros t. rewrite (tenant_matches_own org) by done.
    destruct (negb (of_other_tenant org t)); cbn; by rewrite ?andb_true_r, ?andb_false_r. }
  rewrite !Hd, (sv_tuples _ _ _ _ _ SV) by apply SV. apply filter_ext. intros t. by rewrite sv_tuple_condition.
Qed.

Lemma sv_eval_rewrite f1 f2 s r o rw depth st :
  (∀ s r o d st, f1 s r o d st = f2 s r o d st) →
  eval_rewrite ev1 ctx1 f1 s r o rw depth st = eval_rewrite ev2 ctx2 f2 s r o rw depth st.
Proof.
  intros Hf. revert depth st.
  induction rw as [|c|ts c|cs IH|cs IH|x y IHx IHy|n] using Rewrite_nested_ind;
    intros depth st; cbn [eval_rewrite].
  - by rewrite sv_direct.
  - apply Hf.
  - rewrite sv_linked. apply any_m_ext. intros t st' _. by apply mbind_ext.
  - apply any_m_ext. intros c st' Hc. rewrite Forall_forall in IH. by apply IH.
  - apply all_m_ext. intros c st' Hc. rewrite Forall_forall in IH. by apply IH.
  - apply mbind_ext; [apply IHx|]. intros [] st'; [|done]. by apply mbind_ext.
  - by rewrite sv_condition.
Qed.

Lemma sv_check_inner fuel s r o depth st :
  check_inner ev1 ctx1 fuel s r o depth st = check_inner ev2 ctx2 fuel s r o depth st.
Proof.
  revert s r o depth st. induction fuel as [|fuel IH]; intros s r o depth st;
    cbn [check_inner]; unfold enter; rewrite (sv_depth _ _ _ _ _ SV), (sv_nodes _ _ _ _ _ SV);
    [done|].
  destruct (memo st !! _); [done|]. destruct (bool_decide _); [done|].
  destruct (bool_decide _); [done|]. destruct (bool_decide _); [done|].
  erewrite mbind_ext; [done| |intros; by apply sv_eval_rewrite].
  unfold relation_definition. by rewrite (sv_model _ _ _ _ _ SV).
Qed.

Lemma sv_check s r o : check ev1 ctx1 s r o = check ev2 ctx2 s r o.
Proof.
  unfold check, ensure_relation, relation_definition, check_fuel.
  by rewrite (sv_depth _ _ _ _ _ SV), (sv_model _ _ _ _ _ SV), sv_check_inner.
Qed.
End same_view.

(** ** Expansion trees

    [tree_eval s n] reads an expansion tree as the answer for subject [s].  A
    node of a condition does not carry the condition's value, so the reading is
    meaningful for trees without one ([condition_free]). *)

Fixpoint tree_eval (s : SubjectRef) (n : ExpansionNode) : bool :=
  let '(mk_node _ _ name subjects children _) := n in
  if bool_decide (name = lit "direct") then bool_decide (s ∈ subjects)
  else if bool_decide (name = lit "intersection") then forallb (tree_eval s) children
  else if bool_decide (name = lit "exclusion") then
    match children with
    | [base; subtract] => tree_eval s base && negb (tree_eval s subtract)
    | _ => false
    end
  else existsb (tree_eval s) children.

Fixpoint condition_free (n : ExpansionNode) : bool :=
  let '(mk_node _ _ name _ children _) := n in
  negb (bool_decide (name = lit "condition")) && forallb condition_free children.

Lemma tree_eval_node s o r rw subjects children v :
  tree_eval s (mk_node o r (rewrite_name rw) subjects children v) =
  match rw, children with
  | Direct, _ => bool_decide (s ∈ subjects)
  | Intersection _, _ => forallb (tree_eval s) children
  | Exclusion _ _, [base; subtract] => tree_eval s base && negb (tree_eval s subtract)
  | Exclusion _ _, _ => false
  | _, _ => existsb (tree_eval s) children
  end.
Proof. by destruct rw. Qed.

Lemma condition_free_node o r rw subjects children v :
  condition_free (mk_node o r (rewrite_name rw) subjects children v) =
  match rw with Condition _ => false | _ => forallb condition_free children end.
Proof. by destruct rw. Qed.

Lemma existsb_Forall2 {A B} (f : B → bool) (P : A → bool → Prop) l ns :
  Forall2 (λ x n, P x (f n)) l ns →
  if existsb f ns then ∃ x, x ∈ l ∧ P x true else ∀ x, x ∈ l → P x false.
Proof.
  induction 1 as [|x n l ns Hx _ IH]; cbn; [by intros ? ?%elem_of_nil|].
  destruct (f n); cbn; [exists x; split; [left|done]|].
  destruct (existsb f ns); [destruct IH as (y & ? & ?); exists y; split; [by right|done]|].
  intros y [->|Hy]%elem_of_cons; auto.
Qed.

Lemma forallb_Forall2 {A B} (f : B → bool) (P : A → bool → Prop) l ns :
  Forall2 (λ x n, P x (f n)) l ns →
  if forallb f ns then ∀ x, x ∈ l → P x true else ∃ x, x ∈ l ∧ P x false.
Proof.
  induction 1 as [|x n l ns Hx _ IH]; cbn; [by intros ? ?%elem_of_nil|].
  destruct (f n); cbn; [|exists x; split; [left|done]].
  destruct (forallb f ns); [|destruct IH as (y & ? & ?); exists y; split; [by right|done]].
  intros y [->|Hy]%elem_of_cons; auto.
Qed.

Section expand_specs.
Context (ev : Evaluator) (ctx : AuthzContext).

(** What a tree says about a query, whatever the subject. *)
Definition tree_sem (q : SubjectRef → query) (n : ExpansionNode) : Prop :=
  condition_free n = true → ∀ s, sem ev ctx (q s) (tree_eval s n).

Lemma triple_finish P o r rw subjects children :
  (∀ v, P (mk_node o r (rewrite_name rw) subjects children v)) →
  triple ev ctx P (finish_node o r rw subjects children).
Proof. intros HP st Hst. eexists _, st. split_and!; try done. by intros ? [= <-]. Qed.

Lemma tree_children {A} (q : A → SubjectRef → query) l ns s :
  forallb condition_free ns = true → Forall2 (λ x n, tree_sem (q x) n) l ns →
  Forall2 (λ x n, sem ev ctx (q x s) (tree_eval s n)) l ns.
Proof.
  intros Hc H. induction H as [|x n l ns Hx _ IH]; [constructor|].
  cbn in Hc. bprop. destruct Hc. constructor; [by apply Hx|auto].
Qed.

Lemma expand_rewrite_spec exp r o depth rw :
  (∀ r' o' d, depth < d → triple ev ctx (tree_sem (λ s, QCheck s r' o')) (exp r' o' d)) →
  triple ev ctx (tree_sem (λ s, QRewrite s r o rw)) (expand_rewrite ev ctx exp r o rw depth).
Proof.
  revert depth. induction rw as [|c|ts c|cs IH|cs IH|x y IHx IHy|n] using Rewrite_nested_ind;
    intros depth Hc; cbn [expand_rewrite].
  - apply triple_finish. intros v _ s. rewrite tree_eval_node. case_bool_decide as Hs.
    + constructor. rewrite elem_of_bset_of_list, list_elem_of_fmap in Hs.
      destruct Hs as (t & -> & Ht). by eapply linked_related.
    + constructor. intros (t & Ht & <-)%has_tuple_linked. apply Hs.
      rewrite elem_of_bset_of_list, list_elem_of_fmap. by exists t.
  - eapply triple_bind; [apply Hc; lia|]. intros n Hn. apply triple_finish.
    intros v Hf s. rewrite condition_free_node in Hf. rewrite tree_eval_node. cbn in Hf |- *. rewrite orb_false_r. constructor. apply Hn.
    by rewrite andb_true_r in Hf.
  - eapply triple_bind.
    { apply (triple_collect _ _ _ (λ t n, is_ok (ObjectRef_new (subject t)) = true ∧
        tree_sem (λ s, QCheck s c (subject t)) n)).
      intros t Ht. apply triple_related. intros Ho.
      eapply triple_mono; [|apply Hc; lia]. by split. }
    intros ns Hns. apply triple_finish. intros v Hf s. rewrite condition_free_node in Hf. rewrite tree_eval_node.
    assert (Hok : ∀ t, t ∈ linked_tuples ev ctx o ts → is_ok (ObjectRef_new (subject t)) = true).
    { intros t Ht. apply list_elem_of_lookup in Ht as [i Hi].
      by destruct (Forall2_lookup_l _ _ _ _ _ Hns Hi) as (? & _ & ? & _). }
    eapply Forall2_impl in Hns; [|intros ? ? [_ Hn]; exact Hn].
    apply (tree_children (λ t s, QCheck s c (subject t))) with (s := s) in Hns; [|done].
    apply (existsb_Forall2 _ (λ t b, sem ev ctx (QCheck s c (subject t)) b)) in Hns.
    destruct (existsb _ ns).
    + destruct Hns as (t & Ht & Hs). eapply sem_ttu_yes; eauto using linked_related.
    + apply sem_ttu_no; intros o' (t & Ht & <-)%has_tuple_linked; auto.
  - eapply triple_bind.
    { apply (triple_collect _ _ _ (λ x, tree_sem (λ s, QRewrite s r o x))). intros x Hx.
      rewrite Forall_forall in IH. apply IH; [done|intros; apply Hc; lia]. }
    intros ns Hns. apply triple_finish. intros v Hf s. rewrite condition_free_node in Hf. rewrite tree_eval_node.
    apply (tree_children (λ x s, QRewrite s r o x)) with (s := s) in Hns; [|done].
    apply (existsb_Forall2 _ (λ x b, sem ev ctx (QRewrite s r o x) b)) in Hns.
    destruct (existsb _ ns); [destruct Hns as (x & ? & ?); by eapply sem_union_yes|by apply sem_union_no].
  - eapply triple_bind.
    { apply (triple_collect _ _ _ (λ x, tree_sem (λ s, QRewrite s r o x))). intros x Hx.
      rewrite Forall_forall in IH. apply IH; [done|intros; apply Hc; lia]. }
    intros ns Hns. apply triple_finish. intros v Hf s. rewrite condition_free_node in Hf. rewrite tree_eval_node.
    apply (tree_children (λ x s, QRewrite s r o x)) with (s := s) in Hns; [|done].
    apply (forallb_Forall2 _ (λ x b, sem ev ctx (QRewrite s r o x) b)) in Hns.
    destruct (forallb _ ns); [by apply sem_inter_yes|destruct Hns as (x & ? & ?); by eapply sem_inter_no].
  - eapply triple_bind; [apply IHx; intros; apply Hc; lia|]. intros n1 H1.
    eapply triple_bind; [apply IHy; intros; apply Hc; lia|]. intros n2 H2.
    apply triple_finish. intros v Hf s. rewrite condition_free_node in Hf. rewrite tree_eval_node.
    cbn in Hf. bprop. destruct Hf as (Hf1 & Hf2 & _). specialize (H1 Hf1 s). specialize (H2 Hf2 s).
    destruct (tree_eval s n1); cbn; [by apply sem_excl|by apply sem_excl_base].
  - apply triple_finish. intros v Hf. by rewrite condition_free_node in Hf.
Qed.
End expand_specs.

Section expand_runs.
Context (ev : Evaluator) (ctx : AuthzContext).

Lemma expand_inner_spec fuel r o depth :
  max_depth ev < fuel + depth →
  triple ev ctx (tree_sem ev ctx (λ s, QCheck s r o)) (expand_inner ev ctx fuel r o depth).
Proof.
  revert r o depth. induction fuel as [|fuel IH]; intros r o depth Hf st Hst.
  { cbn. unfold enter. rewrite bool_decide_true by lia. by eexists _, _; split_and!. }
  edestruct (guarded_spec ev ctx (tree_sem ev ctx (λ s, QCheck s r o)) (synthetic_subject, r, o) depth
    (mbind_ (mlift (relation_definition ev o r)) (λ d,
       expand_rewrite ev ctx (expand_inner ev ctx fuel) r o (rewrite d) depth)))
    as (res & st' & Heq & Hst' & Hext & HP); [|exact Hst|].
  { intros Hd. eapply (triple_bind _ _ (λ d, relation_definition ev o r = Ok d)).
    - by apply triple_lift.
    - intros d Hrd. eapply triple_mono; [|apply expand_rewrite_spec].
      + intros n Hn Hc s. eapply sem_check; [done|]. by apply Hn.
      + intros r' o' d' Hd'. apply IH. lia. }
  exists res, st'. split_and!; [exact Heq|done|done|]. intros a Ha. by apply HP.
Qed.

Lemma expand_cases r o :
  (∃ e, expand ev ctx r o = Some (Err e)) ∨
  (∃ n, expand ev ctx r o = Some (Ok n) ∧ tree_sem ev ctx (λ s, QCheck s r o) n).
Proof.
  unfold expand. destruct (ensure_relation ev o r) as [u|e]; [|by eauto].
  destruct (expand_inner_spec (check_fuel ev) r o 0) with (st := initial_state)
    as ([n|e] & st & -> & _ & _ & HP);
    [unfold check_fuel; lia|apply initial_state_ok|right; eauto|by eauto].
Qed.

Lemma batch_check_cases checks :
  (∃ e, batch_check ev ctx checks = Some (Err e)) ∨
  (∃ ds, batch_check ev ctx checks = Some (Ok ds) ∧
     Forall2 (λ '(s, r, o) d, check ev ctx s r o = Some (Ok d)) checks ds).
Proof.
  induction checks as [|[[s r] o] checks IH]; cbn [batch_check]; [right; by exists []|].
  destruct (check_cases ev ctx s r o) as [(e & ->)|(d & Hd & _)]; [by eauto|rewrite Hd].
  destruct IH as [(e & ->)|(ds & -> & Hds)]; [by eauto|right].
  eexists; split; [done|]. by constructor.
Qed.
End expand_runs.

(** ** A document store, used to evaluate the definitions *)

Module EvaluatorExample.
Definition folder := with_relation (ObjectType_new (lit "folder")) (lit "viewer") (mk_definition Direct).
Definition doc :=
  with_relation
    (with_relation
      (with_relation (ObjectType_new (lit "doc")) (lit "parent") (mk_definition Direct))
      (lit "banned") (mk_definition Direct))
    (lit "viewer")
    (mk_definition (Exclusion
       (Union [Direct; TupleToUserset (lit "parent") (lit "viewer")])
       (ComputedUserset (lit "banned")))).
Definition example_model := with_type (with_type (AuthorizationModel_new (lit "m1")) folder) doc.
Definition tup s r o := RelationshipTuple_new (lit s) (lit r) (lit o).
Definition own_tuples :=
  [tup "user:ana" "viewer" "folder:a"; tup "folder:a" "parent" "doc:1";
   tup "user:bob" "viewer" "folder:a"; tup "user:bob" "banned" "doc:1"].
Definition foreign_tuple := with_tenant (tup "user:eve" "viewer" "doc:1") (lit "org:other").
Definition store := Evaluator_new example_model own_tuples.
Definition shared_store := Evaluator_new example_model (foreign_tuple :: own_tuples).
Definition mine := mk_context (Some (lit "org:mine")) [] [] [].
Definition ask (ev : Evaluator) (who : string) : option (result AuthzError bool) :=
  match check ev mine (lit who) (lit "viewer") (lit "doc:1") with
  | Some (Ok d) => Some (Ok (allowed d))
  | Some (Err e) => Some (Err e)
  | None => None
  end.

Example ask_ana : ask store "user:ana" = Some (Ok true).
Proof. vm_compute. reflexivity. Qed.
Example ask_bob : ask store "user:bob" = Some (Ok false).
Proof. vm_compute. reflexivity. Qed.
Example ask_eve : ask shared_store "user:eve" = Some (Ok false).
Proof. vm_compute. reflexivity. Qed.
Example no_depth : check (with_max_depth store 1) mine (lit "user:ana") (lit "viewer") (lit "doc:1")
  = Some (Err MaxDepthExceeded).
Proof. vm_compute. reflexivity. Qed.
End EvaluatorExample.

(** ** Properties *)

Section evaluator_properties.
Context (ev : Evaluator) (ctx : AuthzContext).

(** C1: a decision that [check] returns is the answer of the declarative
    semantics, which derives no other answer: memoization, the recursion
    stack and the limits never change an answer.  The decision names the
    model, carries a reason exactly when it denies, and the evaluation has
    visited at most [max_nodes] nodes. *)
Theorem check_decides_semantics s r o d :
  check ev ctx s r o = Some (Ok d) →
  (∀ b, sem ev ctx (QCheck s r o) b ↔ b = allowed d) ∧
  decision_visited d ≤ max_nodes ev ∧
  decision_model_id d = model_id (model ev) ∧
  (allowed d = true ↔ reason d = None).
Proof.
  destruct (check_cases ev ctx s r o) as [(e & ->)|(d' & -> & Hs & Hv & Hm & Hr)]; [done|].
  intros [= <-]. split; [|done]. intros b; split; [|by intros ->].
  intros Hb. by eapply sem_functional.
Qed.

(** C40: every entry point of the evaluator terminates, whatever the model
    (cyclic ones included), the tuples and the limits: a recursion of
    [max_depth + 1] levels is enough for [check], [batch_check],
    [list_objects] and [expand] to return a value or an error. *)
Theorem evaluator_terminates s r o object_type checks :
  is_Some (check ev ctx s r o) ∧ is_Some (batch_check ev ctx checks) ∧
  is_Some (list_objects ev ctx s r object_type) ∧ is_Some (expand ev ctx r o).
Proof.
  split_and!.
  - destruct (check_cases ev ctx s r o) as [(e & ->)|(d & -> & _)]; eauto.
  - destruct (batch_check_cases ev ctx checks) as [(e & ->)|(d & -> & _)]; eauto.
  - unfold list_objects. destruct (bmap_get _ _); [|by eauto].
    destruct (bmap_contains _ _); [|by eauto].
    destruct (list_allowed_spec ev ctx s r (list_candidates ev ctx object_type))
      as [(e & ->)|(f & -> & _)]; eauto.
  - destruct (expand_cases ev ctx r o) as [(e & ->)|(d & -> & _)]; eauto.
Qed.

(** From any state whose memo is right and whose counters are consistent,
    [check_inner] leaves the recursion stack exactly as it found it (on
    errors too), only adds memo entries, every one of them the answer of the
    semantics, and keeps the memo and the stack together within the number
    of visited nodes, itself within [max_nodes]. *)
Theorem check_inner_state_discipline s r o depth st :
  state_ok ev ctx st →
  ∃ res st', check_inner ev ctx (check_fuel ev) s r o depth st = Some (res, st') ∧
    stack st' = stack st ∧ memo st ⊆ memo st' ∧
    size (memo st') + size (stack st') ≤ visited st' ∧
    visited st ≤ visited st' ≤ max_nodes ev ∧
    ∀ s' r' o' b, memo st' !! (s', r', o') = Some b → sem ev ctx (QCheck s' r' o') b.
Proof.
  intros Hst. destruct (check_inner_spec ev ctx (check_fuel ev) s r o depth) with (st := st)
    as (res & st' & H & [Hm Hsz Hv] & [Es Ev Em] & _); [unfold check_fuel; lia|done|].
  exists res, st'. by split_and!.
Qed.

(** [list_objects] returns, in strictly increasing order and so without
    duplicates, exactly the objects of the requested type that occur as the
    object of a tuple and on which the subject has the relation. *)
Theorem list_objects_exact s r object_type os :
  list_objects ev ctx s r object_type = Some (Ok os) →
  ssorted os ∧
  ∀ o, o ∈ os ↔ ref_type_name o = object_type ∧
                (∃ t, t ∈ all_tuples ev ctx ∧ object t = o) ∧
                sem ev ctx (QCheck s r o) true.
Proof.
  unfold list_objects. destruct (bmap_get _ _) as [def|]; [|done].
  destruct (bmap_contains _ _); [|done].
  destruct (list_allowed_spec ev ctx s r (list_candidates ev ctx object_type))
    as [(e & ->)|(f & -> & Hf)]; [done|]. intros [= <-]. split.
  { apply sorted_filter, bset_of_list_sorted. }
  intros o. rewrite elem_of_filterb. rewrite (and_assoc (ref_type_name o = _)).
  rewrite <- elem_of_list_candidates. split.
  - intros [Ho Hfo]. split; [done|]. rewrite <- Hfo. auto.
  - intros [Ho Hs]. split; [done|]. eapply sem_functional; [by apply Hf|done].
Qed.

(** An expansion tree without condition nodes answers for every subject:
    reading the tree gives what [check] decides, whenever [check] decides. *)
Theorem expand_agrees_with_check r o n s d :
  expand ev ctx r o = Some (Ok n) → condition_free n = true →
  check ev ctx s r o = Some (Ok d) → tree_eval s n = allowed d.
Proof.
  intros Hn Hc Hd%check_Ok.
  destruct (expand_cases ev ctx r o) as [(e & He)|(n' & He & Hs)]; simplify_eq.
  eapply sem_functional; [by apply Hs|done].
Qed.

(** A batch answers every question of it, in order, as [check] answers
    it alone; a batch fails only when one of its questions does. *)
Theorem batch_check_pointwise checks :
  match batch_check ev ctx checks with
  | Some (Ok ds) => Forall2 (λ '(s, r, o) d, check ev ctx s r o = Some (Ok d)) checks ds
  | Some (Err e) => ∃ s r o, (s, r, o) ∈ checks ∧ check ev ctx s r o = Some (Err e)
  | None => False
  end.
Proof.
  induction checks as [|[[s r] o] checks IH]; cbn [batch_check]; [constructor|].
  destruct (check_cases ev ctx s r o) as [(e & He)|(d & Hd & _)].
  - rewrite He. exists s, r, o. split; [left|done].
  - rewrite Hd. destruct (batch_check ev ctx checks) as [[ds|e]|]; [|destruct IH as (s' & r' & o' & ? & ?)|done].
    + by constructor.
    + exists s', r', o'. split; [by right|done].
Qed.
End evaluator_properties.

(** C2: tenant isolation.  A request of tenant [org] is answered the same, or
    fails the same, by two evaluators that differ only in tuples whose tenant
    field names a tenant other than [org], stored or contextual. *)
Theorem check_ignores_other_tenants org ev1 ev2 ctx1 ctx2 s r o :
  same_view org ev1 ev2 ctx1 ctx2 → check ev1 ctx1 s r o = check ev2 ctx2 s r o.
Proof. intros SV. by apply (sv_check _ _ _ _ org). Qed.

Section evaluator_witnesses.
Import EvaluatorExample.

Lemma check_decides_semantics_witness :
  sem store mine (QCheck (lit "user:ana") (lit "viewer") (lit "doc:1")) true.
Proof.
  refine (proj2 (proj1 (check_decides_semantics store mine (lit "user:ana") (lit "viewer")
    (lit "doc:1") (Decision_allow (lit "m1") 3) _) true) _); vm_compute; reflexivity.
Defined.

Lemma check_inner_state_discipline_witness :
  ∃ res st', check_inner store mine (check_fuel store) (lit "user:bob") (lit "viewer")
               (lit "doc:1") 0 initial_state = Some (res, st') ∧ stack st' = ∅.
Proof.
  destruct (check_inner_state_discipline store mine (lit "user:bob") (lit "viewer") (lit "doc:1") 0
    initial_state (initial_state_ok store mine)) as (res & st' & H & Hs & _).
  exists res, st'. split; [exact H|exact Hs].
Defined.

Lemma list_objects_exact_witness : ssorted [lit "doc:1"].
Proof.
  refine (proj1 (list_objects_exact store mine (lit "user:ana") (lit "viewer") (lit "doc")
    [lit "doc:1"] _)); vm_compute; reflexivity.
Defined.

Lemma expand_agrees_with_check_witness :
  ∃ n, expand store mine (lit "viewer") (lit "doc:1") = Some (Ok n) ∧
       tree_eval (lit "user:bob") n = false.
Proof.
  destruct (expand store mine (lit "viewer") (lit "doc:1")) as [[n|e]|] eqn:E;
    [|by vm_compute in E|by vm_compute in E].
  exists n; split; [reflexivity|].
  apply (expand_agrees_with_check store mine (lit "viewer") (lit "doc:1") n (lit "user:bob")
    (Decision_deny (lit "m1") (lit "no matching relationship path") 3) E).
  - vm_compute in E. injection E as <-. vm_compute. reflexivity.
  - vm_compute. reflexivity.
Defined.

Lemma check_ignores_other_tenants_witness :
  check store mine (lit "user:eve") (lit "viewer") (lit "doc:1")
  = check shared_store mine (lit "user:eve") (lit "viewer") (lit "doc:1").
Proof.
  apply (check_ignores_other_tenants (lit "org:mine") store shared_store mine mine).
  constructor; vm_compute; reflexivity.
Defined.
End evaluator_witnesses.
