(* ===== verification/Contract.v ===== *)
(** * Contract: the bounded AuthZEN profile

    Models src/crates/wasi-authz-contract/src/lib.rs: the validated text and
    identifier newtypes, attributes and their sets, the anonymous or
    authenticated subject with its hand-written wire form, requests, decisions
    and the fail-closed decoding of a decision's context.  The JSON text codec
    (serde_json) is a parameter of the requests' encoding; the wire structures
    it encodes are the ones the source declares, field by field, an [option]
    standing for a field that [skip_serializing_if] may leave out. *)

From S2P Require Export Collections.
Open Scope Z_scope.

Definition MAX_DOCUMENT_BYTES : Z := 64 * 1024.
Definition MAX_ATTRIBUTES : nat := 32.
Definition MAX_ATTRIBUTE_LIST_VALUES : nat := 32.
Definition MAX_ATTRIBUTE_VALUE_LEN : Z := 2 * 1024.
Definition MAX_ENTITY_ID_LEN : Z := 512.
Definition MAX_ENTITY_TYPE_LEN : Z := 128.
Definition MAX_ACTION_NAME_LEN : Z := 128.
Definition MAX_ATTRIBUTE_NAME_LEN : Z := 128.
Definition MAX_CORRELATION_ID_LEN : Z := 256.
Definition MAX_REVISION_LEN : Z := 512.

Inductive ContractError :=
| InvalidText (field : str) (max_len : Z)
| InvalidIdentifier (field : str) (max_len : Z)
| SensitiveAttributeName
| TooManyAttributes
| DuplicateAttribute (name : str)
| TooManyAttributeValues
| DocumentTooLarge
| InvalidJson
| ObligationsUnsupported
| InvalidDecisionContext.

#[export] Instance ContractError_eq_dec : EqDecision ContractError.
Proof. solve_decision. Defined.

(** ** Text and identifiers *)

Definition text_valid (value : str) (max_len : Z) : bool :=
  negb (is_empty value) && (str_len value <=? max_len)
  && bool_decide (trim value = value) && negb (existsb is_control value).
Definition validate_text (value : str) (max_len : Z) (field : str) : result ContractError unit :=
  if text_valid value max_len then Ok tt else Err (InvalidText field max_len).

(** [-], [_], [.], [:], [/] *)
Definition identifier_byte (b : Z) : bool :=
  is_ascii_alphanumeric b || one_of [45; 95; 46; 58; 47] b.
Definition identifier_valid (value : str) (max_len : Z) : bool :=
  negb (is_empty value) && (str_len value <=? max_len)
  && forallb identifier_byte (str_bytes value).
Definition validate_identifier (value : str) (max_len : Z) (field : str) :
    result ContractError unit :=
  if identifier_valid value max_len then Ok tt else Err (InvalidIdentifier field max_len).

(** The macros [bounded_text_type!] and [bounded_identifier_type!]: [$name::new]. *)
Definition bounded_text (max : Z) (label : string) (value : str) : result ContractError str :=
  try? validate_text value max (lit label) ;; Ok value.
Definition bounded_identifier (max : Z) (label : string) (value : str) : result ContractError str :=
  try? validate_identifier value max (lit label) ;; Ok value.

Definition EntityTypeV1_new := bounded_identifier MAX_ENTITY_TYPE_LEN "entity type".
Definition EntityIdV1_new := bounded_text MAX_ENTITY_ID_LEN "entity identifier".
Definition ActionNameV1_new := bounded_identifier MAX_ACTION_NAME_LEN "action name".
Definition IssuerV1_new := bounded_text MAX_ENTITY_ID_LEN "identity issuer".
Definition ScopeV1_new := bounded_identifier MAX_ATTRIBUTE_NAME_LEN "scope".
Definition TenantIdV1_new := bounded_text MAX_ENTITY_ID_LEN "tenant identifier".
Definition RequestIdV1_new := bounded_text MAX_CORRELATION_ID_LEN "request identifier".
Definition DecisionIdV1_new := bounded_text MAX_CORRELATION_ID_LEN "decision identifier".
Definition PolicyRevisionV1_new := bounded_text MAX_REVISION_LEN "policy revision".
Definition ModelNameV1_new := bounded_identifier MAX_ENTITY_TYPE_LEN "model name".
Definition ModelVersionV1_new := bounded_text MAX_REVISION_LEN "model version".
Definition ReasonCodeV1_new := bounded_identifier MAX_ATTRIBUTE_NAME_LEN "reason code".
Definition ConsistencyTokenV1_new := bounded_text MAX_REVISION_LEN "consistency token".
Definition AttributeStringV1_new := bounded_text MAX_ATTRIBUTE_VALUE_LEN "attribute string".

(** ** Attributes *)

(** [.], [-], [_], [:], [/] *)
Definition name_separator (c : char) : bool := one_of [46; 45; 95; 58; 47] c.

Definition is_sensitive_attribute_name (name : str) : bool :=
  existsb (λ segment,
      bool_decide (to_ascii_lowercase segment ∈
        [lit "authorization"; lit "cookie"; lit "credential"; lit "password"; lit "secret";
         lit "token"; lit "access-token"; lit "refresh-token"; lit "client-secret";
         lit "session-secret"]))
    (split_by name_separator name).

Definition AttributeNameV1_new (value : str) : result ContractError str :=
  try? validate_identifier value MAX_ATTRIBUTE_NAME_LEN (lit "attribute name") ;;
  fail? is_sensitive_attribute_name value with SensitiveAttributeName ;;
  Ok value.

Inductive AttributeProvenanceV1 :=
| IdentityProvider | ResourceStore | Application | Gateway | PolicyInformationPoint.

Inductive AttributeValueV1 :=
| AString (value : str)
| AInteger (value : Z)
| ABoolean (value : bool)
| AStringList (values : list str).

Definition AttributeStringListV1_new (values : list str) : result ContractError (list str) :=
  fail? bool_decide (MAX_ATTRIBUTE_LIST_VALUES < length values)%nat with TooManyAttributeValues ;;
  Ok values.

Record AttributeV1 := mk_attribute {
  attr_name : str;
  attr_value : AttributeValueV1;
  attr_provenance : AttributeProvenanceV1;
}.
Definition AttributeV1_new (name : str) (value : AttributeValueV1)
    (provenance : AttributeProvenanceV1) : result ContractError AttributeV1 :=
  fail? is_sensitive_attribute_name name with SensitiveAttributeName ;;
  Ok (mk_attribute name value provenance).

#[export] Instance AttributeProvenanceV1_eq_dec : EqDecision AttributeProvenanceV1.
Proof. solve_decision. Defined.
#[export] Instance AttributeValueV1_eq_dec : EqDecision AttributeValueV1.
Proof. solve_decision. Defined.
#[export] Instance AttributeV1_eq_dec : EqDecision AttributeV1.
Proof. solve_decision. Defined.

Abbreviation AttributesV1 := (list AttributeV1).

(** The loop of [validate_attributes] with its set of seen names. *)
Fixpoint validate_names (names : list str) (attributes : AttributesV1) :
    result ContractError unit :=
  match attributes with
  | [] => Ok tt
  | a :: attributes =>
      fail? is_sensitive_attribute_name (attr_name a) with SensitiveAttributeName ;;
      fail? bset_contains (attr_name a) names with DuplicateAttribute (attr_name a) ;;
      validate_names (bset_insert (attr_name a) names) attributes
  end.
Definition validate_attributes (attributes : AttributesV1) : result ContractError unit :=
  fail? bool_decide (MAX_ATTRIBUTES < length attributes)%nat with TooManyAttributes ;;
  validate_names [] attributes.
Definition try_from_vec (attributes : AttributesV1) : result ContractError AttributesV1 :=
  try? validate_attributes attributes ;; Ok attributes.
Definition attributes_insert (set : AttributesV1) (a : AttributeV1) :
    result ContractError AttributesV1 :=
  fail? bool_decide (MAX_ATTRIBUTES ≤ length set)%nat with TooManyAttributes ;;
  fail? existsb (λ item, bool_decide (attr_name item = attr_name a)) set
    with DuplicateAttribute (attr_name a) ;;
  Ok (set ++ [a]).

Definition normalize_scopes (scopes : list str) : result ContractError (list str) :=
  fail? bool_decide (MAX_ATTRIBUTE_LIST_VALUES < length scopes)%nat with TooManyAttributeValues ;;
  Ok (dedup (sort_unstable scopes)).

(** ** Subjects *)

Record AuthenticatedSubjectV1 := mk_subject {
  subject_type : str;
  subject_id : str;
  issuer : str;
  subject_tenant_id : option str;
  scopes : list str;
  subject_attributes : AttributesV1;
}.
Definition AuthenticatedSubjectV1_new (ty id iss : str) : AuthenticatedSubjectV1 :=
  mk_subject ty id iss None [] [].
Definition with_tenant_id (s : AuthenticatedSubjectV1) (t : str) : AuthenticatedSubjectV1 :=
  mk_subject (subject_type s) (subject_id s) (issuer s) (Some t) (scopes s) (subject_attributes s).
Definition with_scopes (s : AuthenticatedSubjectV1) (scs : list str) :
    result ContractError AuthenticatedSubjectV1 :=
  let? scs := normalize_scopes scs in
  Ok (mk_subject (subject_type s) (subject_id s) (issuer s) (subject_tenant_id s) scs
        (subject_attributes s)).
Definition with_attributes (s : AuthenticatedSubjectV1) (l : AttributesV1) : AuthenticatedSubjectV1 :=
  mk_subject (subject_type s) (subject_id s) (issuer s) (subject_tenant_id s) (scopes s) l.

Inductive SubjectV1 :=
| Anonymous
| Authenticated (subject : AuthenticatedSubjectV1).
Definition authenticated (s : SubjectV1) : option AuthenticatedSubjectV1 :=
  match s with Anonymous => None | Authenticated s => Some s end.

Inductive SubjectProfileWire :=
| WAnonymous
| WAuthenticated (issuer : str) (tenant_id : option str) (scopes : option (list str))
    (attributes : option AttributesV1).
Record SubjectWire := mk_subject_wire {
  sw_type : str;
  sw_id : str;
  sw_profile : SubjectProfileWire;
}.

(** [skip_serializing_if = "is_empty"] and [default]. *)
Definition skip_empty {A} (l : list A) : option (list A) :=
  match l with [] => None | _ => Some l end.
Definition or_default {A} (o : option (list A)) : list A := default [] o.

Definition SubjectV1_serialize (s : SubjectV1) : SubjectWire :=
  match s with
  | Anonymous => mk_subject_wire (lit "anonymous") (lit "anonymous") WAnonymous
  | Authenticated s =>
      mk_subject_wire (subject_type s) (subject_id s)
        (WAuthenticated (issuer s) (subject_tenant_id s) (skip_empty (scopes s))
           (skip_empty (subject_attributes s)))
  end.

(** Values decoded with the validating [Deserialize] of their types; every
    failure is a deserialization error, which [from_slice] reports as
    [InvalidJson]. *)
Definition decode_value (v : AttributeValueV1) : result ContractError AttributeValueV1 :=
  match v with
  | AString x => rmap AString (AttributeStringV1_new x)
  | AInteger n => Ok (AInteger n)
  | ABoolean b => Ok (ABoolean b)
  | AStringList l =>
      let? l := collect_map AttributeStringV1_new l in
      rmap AStringList (AttributeStringListV1_new l)
  end.
Definition decode_attribute (w : AttributeV1) : result ContractError AttributeV1 :=
  let? name := AttributeNameV1_new (attr_name w) in
  let? value := decode_value (attr_value w) in
  AttributeV1_new name value (attr_provenance w).
Definition decode_attributes (w : AttributesV1) : result ContractError AttributesV1 :=
  let? l := collect_map decode_attribute w in
  try_from_vec l.

Definition SubjectV1_deserialize (w : SubjectWire) : result ContractError SubjectV1 :=
  match sw_profile w with
  | WAnonymous =>
      fail? negb (bool_decide (sw_type w = lit "anonymous"))
            || negb (bool_decide (sw_id w = lit "anonymous")) with InvalidJson ;;
      Ok Anonymous
  | WAuthenticated iss tenant scs attrs =>
      let? iss := IssuerV1_new iss in
      let? tenant := transpose_map TenantIdV1_new tenant in
      let? scs := collect_map ScopeV1_new (or_default scs) in
      let? attrs := decode_attributes (or_default attrs) in
      let? scs := normalize_scopes scs in
      let? ty := EntityTypeV1_new (sw_type w) in
      fail? bool_decide (ty = lit "anonymous") with InvalidJson ;;
      let? id := EntityIdV1_new (sw_id w) in
      Ok (Authenticated (mk_subject ty id iss tenant scs attrs))
  end.

(** ** Resources, actions, context and requests *)

Record ResourceV1 := mk_resource {
  resource_type : str;
  resource_id : str;
  resource_attributes : AttributesV1;
}.
Definition ResourceV1_new (ty id : str) : result ContractError ResourceV1 :=
  let? ty := EntityTypeV1_new ty in
  let? id := EntityIdV1_new id in
  Ok (mk_resource ty id []).

Record ActionV1 := mk_action {
  action_name : str;
  action_attributes : AttributesV1;
}.
Definition ActionV1_new (name : str) : result ContractError ActionV1 :=
  let? name := ActionNameV1_new name in
  Ok (mk_action name []).

Inductive ConsistencyRequirementV1 :=
| MinimizeLatency
| AtLeastAsFresh (token : str)
| FullyConsistent.

Record ContextV1 := mk_context_v1 {
  context_attributes : AttributesV1;
  consistency : option ConsistencyRequirementV1;
  request_id : option str;
}.

Record AccessRequestV1 := mk_request {
  req_subject : SubjectV1;
  req_action : ActionV1;
  req_resource : ResourceV1;
  req_context : option ContextV1;
}.
Definition AccessRequestV1_new s a r : AccessRequestV1 := mk_request s a r None.
Definition with_context (q : AccessRequestV1) (c : ContextV1) : AccessRequestV1 :=
  mk_request (req_subject q) (req_action q) (req_resource q) (Some c).

Record ContextWire := mk_context_wire {
  cw_attributes : option AttributesV1;
  cw_consistency : option ConsistencyRequirementV1;
  cw_request_id : option str;
}.
Record RequestWire := mk_request_wire {
  rw_subject : SubjectWire;
  rw_action : str * option AttributesV1;
  rw_resource : str * str * option AttributesV1;
  rw_context : option ContextWire;
}.

Definition AccessRequestV1_serialize (q : AccessRequestV1) : RequestWire :=
  mk_request_wire (SubjectV1_serialize (req_subject q))
    (action_name (req_action q), skip_empty (action_attributes (req_action q)))
    (resource_type (req_resource q), resource_id (req_resource q),
     skip_empty (resource_attributes (req_resource q)))
    ((λ c, mk_context_wire (skip_empty (context_attributes c)) (consistency c) (request_id c))
       <$> req_context q).

Definition decode_consistency (c : ConsistencyRequirementV1) :
    result ContractError ConsistencyRequirementV1 :=
  match c with
  | AtLeastAsFresh token => rmap AtLeastAsFresh (ConsistencyTokenV1_new token)
  | c => Ok c
  end.
Definition decode_context (w : ContextWire) : result ContractError ContextV1 :=
  let? l := decode_attributes (or_default (cw_attributes w)) in
  let? c := transpose_map decode_consistency (cw_consistency w) in
  let? r := transpose_map RequestIdV1_new (cw_request_id w) in
  Ok (mk_context_v1 l c r).
Definition AccessRequestV1_deserialize (w : RequestWire) : result ContractError AccessRequestV1 :=
  let? s := SubjectV1_deserialize (rw_subject w) in
  let '(name, aattrs) := rw_action w in
  let? name := ActionNameV1_new name in
  let? aattrs := decode_attributes (or_default aattrs) in
  let '(ty, id, rattrs) := rw_resource w in
  let? ty := EntityTypeV1_new ty in
  let? id := EntityIdV1_new id in
  let? rattrs := decode_attributes (or_default rattrs) in
  let? c := transpose_map decode_context (rw_context w) in
  Ok (mk_request s (mk_action name aattrs) (mk_resource ty id rattrs) c).

(** serde_json, as the contract uses it on a wire type [W]. *)
Section codec.
Context {W : Type} (to_vec : W → option (list Z)) (from_slice : list Z → option W).

Definition encode_bounded (w : W) : result ContractError (list Z) :=
  let? encoded := ok_or (to_vec w) InvalidJson in
  fail? MAX_DOCUMENT_BYTES <? Z.of_nat (length encoded) with DocumentTooLarge ;;
  Ok encoded.
Definition decode_bounded {T} (deserialize : W → result ContractError T) (input : list Z) :
    result ContractError T :=
  fail? MAX_DOCUMENT_BYTES <? Z.of_nat (length input) with DocumentTooLarge ;;
  let? w := ok_or (from_slice input) InvalidJson in
  map_err (λ _, InvalidJson) (deserialize w).
End codec.

Section request_codec.
Context (to_vec : RequestWire → option (list Z)) (from_slice : list Z → option RequestWire).
Definition AccessRequestV1_to_json_vec (q : AccessRequestV1) : result ContractError (list Z) :=
  encode_bounded to_vec (AccessRequestV1_serialize q).
Definition AccessRequestV1_from_json_slice (input : list Z) :
    result ContractError AccessRequestV1 :=
  decode_bounded from_slice AccessRequestV1_deserialize input.
End request_codec.

(** ** Decisions *)

Record DecisionMetadataV1 := mk_metadata {
  decision_id : option str;
  policy_revision : option str;
  model_name : option str;
  model_version : option str;
  reason_code : option str;
  consistency_token : option str;
}.
Definition DecisionMetadataV1_new : DecisionMetadataV1 := mk_metadata None None None None None None.
#[export] Instance DecisionMetadataV1_eq_dec : EqDecision DecisionMetadataV1.
Proof. solve_decision. Defined.

Record DecisionResponseV1 := mk_response {
  decision : bool;
  metadata : DecisionMetadataV1;
}.
Definition DecisionResponseV1_allow (m : DecisionMetadataV1) := mk_response true m.
Definition DecisionResponseV1_deny (m : DecisionMetadataV1) := mk_response false m.
Definition is_allowed (d : DecisionResponseV1) : bool := decision d.
Definition is_denied (d : DecisionResponseV1) : bool := negb (decision d).

Definition is_nonempty_json_value (v : Value) : bool :=
  match v with
  | VNull => false
  | VArray l => match l with [] => false | _ => true end
  | VObject m => match m with [] => false | _ => true end
  | VBool _ | VNumber _ | VString _ => true
  end.

(** The derived, field-denying [Deserialize] of the metadata: the keys the
    struct declares and no other, each absent, null or a string its type accepts. *)
Definition metadata_keys : list str :=
  [lit "consistency_token"; lit "decision_id"; lit "model"; lit "model_version";
   lit "policy_revision"; lit "reason_code"].
Definition metadata_field (obj : bmap Value) (key : string) (new : str → result ContractError str) :
    result ContractError (option str) :=
  match bmap_get (lit key) obj with
  | None | Some VNull => Ok None
  | Some (VString x) => rmap Some (new x)
  | Some _ => Err InvalidJson
  end.
Definition DecisionMetadataV1_from_value (obj : bmap Value) : result ContractError DecisionMetadataV1 :=
  fail? negb (forallb (λ k, bool_decide (k ∈ metadata_keys)) obj.*1) with InvalidJson ;;
  let? d := metadata_field obj "decision_id" DecisionIdV1_new in
  let? p := metadata_field obj "policy_revision" PolicyRevisionV1_new in
  let? m := metadata_field obj "model" ModelNameV1_new in
  let? v := metadata_field obj "model_version" ModelVersionV1_new in
  let? r := metadata_field obj "reason_code" ReasonCodeV1_new in
  let? c := metadata_field obj "consistency_token" ConsistencyTokenV1_new in
  Ok (mk_metadata d p m v r c).

Definition has_obligation (context : bmap Value) : bool :=
  existsb (λ reserved,
      match bmap_get reserved context with Some v => is_nonempty_json_value v | None => false end)
    [lit "obligations"; lit "obligation"].

Definition parse_decision_context (context : option (bmap Value)) :
    result ContractError DecisionMetadataV1 :=
  match context with
  | None => Ok DecisionMetadataV1_new
  | Some [] => Ok DecisionMetadataV1_new
  | Some context =>
      fail? has_obligation context with ObligationsUnsupported ;;
      match bmap_get (lit "wasi_authz") context with
      | None => Ok DecisionMetadataV1_new
      | Some (VObject profile) =>
          fail? has_obligation profile with ObligationsUnsupported ;;
          map_err (λ _, InvalidJson) (DecisionMetadataV1_from_value profile)
      | Some _ => Err InvalidDecisionContext
      end
  end.

(** [Serialize] of the metadata: the fields that are present. *)
Definition metadata_to_value (m : DecisionMetadataV1) : bmap Value :=
  bmap_of_list (omap (λ '(k, o), (λ x, (lit k, VString x)) <$> o)
    [("decision_id", decision_id m); ("policy_revision", policy_revision m);
     ("model", model_name m); ("model_version", model_version m);
     ("reason_code", reason_code m); ("consistency_token", consistency_token m)]).

Record DecisionWire := mk_decision_wire {
  dw_decision : bool;
  dw_context : option (bmap Value);
}.
Definition DecisionResponseV1_serialize (d : DecisionResponseV1) : DecisionWire :=
  mk_decision_wire (decision d)
    (if bool_decide (metadata d = DecisionMetadataV1_new) then None
     else Some [(lit "wasi_authz", VObject (metadata_to_value (metadata d)))]).

Section decision_codec.
Context (to_vec : DecisionWire → option (list Z)) (from_slice : list Z → option DecisionWire).
Definition DecisionResponseV1_to_json_vec (d : DecisionResponseV1) : result ContractError (list Z) :=
  encode_bounded to_vec (DecisionResponseV1_serialize d).
Definition DecisionResponseV1_from_json_slice (input : list Z) :
    result ContractError DecisionResponseV1 :=
  fail? MAX_DOCUMENT_BYTES <? Z.of_nat (length input) with DocumentTooLarge ;;
  let? raw := ok_or (from_slice input) InvalidJson in
  let? m := parse_decision_context (dw_context raw) in
  Ok (mk_response (dw_decision raw) m).
End decision_codec.

(** ** Lemmas *)

Lemma bounded_text_Ok max l v x : bounded_text max l v = Ok x ↔ x = v ∧ text_valid v max = true.
Proof. unfold bounded_text, validate_text. destruct (text_valid v max); cbn; naive_solver. Qed.
Lemma bounded_identifier_Ok max l v x :
  bounded_identifier max l v = Ok x ↔ x = v ∧ identifier_valid v max = true.
Proof.
  unfold bounded_identifier, validate_identifier. destruct (identifier_valid v max); cbn; naive_solver.
Qed.

Lemma text_valid_spec v max :
  text_valid v max = true ↔
  v ≠ [] ∧ str_len v ≤ max ∧ trim v = v ∧ ∀ c, c ∈ v → is_control c = false.
Proof.
  unfold text_valid. bprop. rewrite existsb_false_spec.
  assert (is_empty v = false ↔ v ≠ []) as -> by (destruct v; naive_solver). naive_solver.
Qed.

Lemma identifier_byte_lt b : identifier_byte b = true → b < 128.
Proof.
  unfold identifier_byte, one_of. bprop.
  intros [?%is_ascii_alphanumeric_lt|H]; [done|]. set_unfold in H. lia.
Qed.

Lemma identifier_len v : forallb identifier_byte v = true → str_len v = Z.of_nat (length v).
Proof.
  intros H. unfold str_len. rewrite (forallb_ascii_len identifier_byte); [done|apply identifier_byte_lt|].
  by rewrite forallb_bytes by apply identifier_byte_lt.
Qed.

Lemma identifier_valid_spec v max :
  identifier_valid v max = true ↔
  v ≠ [] ∧ Z.of_nat (length v) ≤ max ∧ forallb identifier_byte v = true.
Proof.
  unfold identifier_valid. bprop.
  assert (is_empty v = false ↔ v ≠ []) as -> by (destruct v; naive_solver).
  rewrite forallb_bytes by apply identifier_byte_lt. split.
  - intros [[? Hl] Hf]. rewrite identifier_len in Hl by done. done.
  - intros (? & Hl & Hf). by rewrite identifier_len.
Qed.

Lemma transpose_map_id {E A} (f : A → result E A) (P : A → Prop) o o' :
  (∀ x y, f x = Ok y ↔ y = x ∧ P x) →
  transpose_map f o = Ok o' ↔ o' = o ∧ ∀ x, o = Some x → P x.
Proof.
  intros Hf. destruct o as [x|]; cbn; [|naive_solver]. rewrite rmap_Ok. setoid_rewrite Hf.
  naive_solver.
Qed.

Lemma collect_map_id {E A} (f : A → result E A) (P : A → Prop) l l' :
  (∀ x y, f x = Ok y ↔ y = x ∧ P x) →
  collect_map f l = Ok l' ↔ l' = l ∧ Forall P l.
Proof.
  intros Hf. rewrite collect_map_Ok. split.
  - induction 1 as [|x y l l' Hx _ [-> IH]]; [done|]. apply Hf in Hx as [-> Hx].
    by split; [|constructor].
  - intros [-> HP]. induction HP; constructor; auto. by apply Hf.
Qed.

(** What validated attributes are. *)
Definition wf_value (v : AttributeValueV1) : Prop :=
  match v with
  | AString x => text_valid x MAX_ATTRIBUTE_VALUE_LEN = true
  | AStringList l =>
      (length l ≤ MAX_ATTRIBUTE_LIST_VALUES)%nat ∧
      Forall (λ x, text_valid x MAX_ATTRIBUTE_VALUE_LEN = true) l
  | _ => True
  end.
Record wf_attribute (a : AttributeV1) : Prop := {
  wfa_name : identifier_valid (attr_name a) MAX_ATTRIBUTE_NAME_LEN = true;
  wfa_public : is_sensitive_attribute_name (attr_name a) = false;
  wfa_value : wf_value (attr_value a);
}.
Record attribute_set (l : AttributesV1) : Prop := {
  as_length : (length l ≤ MAX_ATTRIBUTES)%nat;
  as_unique : NoDup (attr_name <$> l);
  as_public : Forall (λ a, is_sensitive_attribute_name (attr_name a) = false) l;
}.
Definition wf_attributes (l : AttributesV1) : Prop := Forall wf_attribute l ∧ attribute_set l.

Lemma validate_names_Ok names l :
  validate_names names l = Ok tt ↔
  NoDup (attr_name <$> l) ∧ (∀ a, a ∈ l → attr_name a ∉ names) ∧
  Forall (λ a, is_sensitive_attribute_name (attr_name a) = false) l.
Proof.
  revert names; induction l as [|a l IH]; intros names; cbn.
  { split; [intros _; split_and!; [constructor|by intros ? ?%elem_of_nil|constructor]|done]. }
  rewrite !fail_Ok, IH, NoDup_cons, Forall_cons. unfold bset_contains.
  rewrite bool_decide_eq_false. setoid_rewrite elem_of_bset_insert.
  setoid_rewrite elem_of_cons. rewrite list_elem_of_fmap. naive_solver.
Qed.

Lemma validate_attributes_Ok l : validate_attributes l = Ok tt ↔ attribute_set l.
Proof.
  unfold validate_attributes. rewrite fail_Ok, bool_decide_eq_false, validate_names_Ok. split.
  - intros (? & ? & _ & ?). constructor; auto with lia.
  - intros [? ? ?]. split_and!; auto with lia. by intros ? ? ?%elem_of_nil.
Qed.

Lemma try_from_vec_Ok l l' : try_from_vec l = Ok l' ↔ l' = l ∧ attribute_set l.
Proof.
  unfold try_from_vec. rewrite rbind_Ok. setoid_rewrite <- validate_attributes_Ok.
  split; [intros ([] & ? & [= <-])|intros [-> ?]; exists tt]; done.
Qed.

Lemma decode_value_Ok v v' : decode_value v = Ok v' ↔ v' = v ∧ wf_value v.
Proof.
  destruct v as [x|n|b|l]; cbn; try naive_solver.
  - rewrite rmap_Ok. setoid_rewrite bounded_text_Ok. naive_solver.
  - rewrite rbind_Ok. setoid_rewrite rmap_Ok.
    setoid_rewrite (collect_map_id _ _ _ _ (bounded_text_Ok MAX_ATTRIBUTE_VALUE_LEN "attribute string")).
    unfold AttributeStringListV1_new. setoid_rewrite fail_Ok. setoid_rewrite bool_decide_eq_false.
    split.
    + intros (? & [-> ?] & ? & [? [= <-]] & ->). split; [done|]. split; [lia|done].
    + intros [-> [? ?]]. exists l. split; [done|]. exists l. split_and!; auto with lia.
Qed.

Lemma AttributeNameV1_new_Ok v x :
  AttributeNameV1_new v = Ok x ↔
  x = v ∧ identifier_valid v MAX_ATTRIBUTE_NAME_LEN = true ∧ is_sensitive_attribute_name v = false.
Proof.
  unfold AttributeNameV1_new, validate_identifier.
  destruct (identifier_valid v _), (is_sensitive_attribute_name v); cbn; naive_solver.
Qed.

Lemma decode_attribute_Ok a a' : decode_attribute a = Ok a' ↔ a' = a ∧ wf_attribute a.
Proof.
  unfold decode_attribute, AttributeV1_new. rewrite rbind_Ok.
  setoid_rewrite AttributeNameV1_new_Ok. split.
  - intros (? & (-> & Hn & Hs) & [? [[-> Hv]%decode_value_Ok Ha]]%rbind_Ok).
    rewrite Hs in Ha. injection Ha as <-. destruct a; split; [done|by constructor].
  - intros [-> [Hn Hs Hv]]. eexists; split; [done|]. apply rbind_Ok.
    exists (attr_value a). rewrite decode_value_Ok, Hs. by destruct a.
Qed.

Lemma decode_attributes_Ok l l' : decode_attributes l = Ok l' ↔ l' = l ∧ wf_attributes l.
Proof.
  unfold decode_attributes, wf_attributes. rewrite rbind_Ok.
  setoid_rewrite (collect_map_id _ _ _ _ decode_attribute_Ok). setoid_rewrite try_from_vec_Ok.
  naive_solver.
Qed.

Lemma or_default_skip {A} (l : list A) : or_default (skip_empty l) = l.
Proof. by destruct l. Qed.

Lemma normalize_scopes_Ok l l' :
  normalize_scopes l = Ok l' ↔
  (length l ≤ MAX_ATTRIBUTE_LIST_VALUES)%nat ∧ ssorted l' ∧ ∀ x, x ∈ l' ↔ x ∈ l.
Proof.
  unfold normalize_scopes. rewrite fail_Ok, bool_decide_eq_false.
  change (dedup (sort_unstable l)) with (sort_dedup l). split.
  - intros [? [= <-]]. split_and!; [lia|apply sort_dedup_sorted|]. intros x. apply elem_of_sort_dedup.
  - intros (? & Hs & Hx). split; [lia|]. f_equal.
    apply ssorted_ext; [apply sort_dedup_sorted|done|]. intros x. by rewrite elem_of_sort_dedup, Hx.
Qed.

Record wf_authenticated (s : AuthenticatedSubjectV1) : Prop := {
  wfs_type : identifier_valid (subject_type s) MAX_ENTITY_TYPE_LEN = true;
  wfs_id : text_valid (subject_id s) MAX_ENTITY_ID_LEN = true;
  wfs_issuer : text_valid (issuer s) MAX_ENTITY_ID_LEN = true;
  wfs_tenant t : subject_tenant_id s = Some t → text_valid t MAX_ENTITY_ID_LEN = true;
  wfs_scopes : Forall (λ x, identifier_valid x MAX_ATTRIBUTE_NAME_LEN = true) (scopes s);
  wfs_scopes_sorted : ssorted (scopes s);
  wfs_scopes_length : (length (scopes s) ≤ MAX_ATTRIBUTE_LIST_VALUES)%nat;
  wfs_attributes : wf_attributes (subject_attributes s);
}.
(** The wire form reserves the type [anonymous] for anonymous subjects. *)
Definition wire_subject (s : SubjectV1) : Prop :=
  match s with
  | Anonymous => True
  | Authenticated s => wf_authenticated s ∧ subject_type s ≠ lit "anonymous"
  end.
Definition wf_consistency (c : ConsistencyRequirementV1) : Prop :=
  match c with AtLeastAsFresh t => text_valid t MAX_REVISION_LEN = true | _ => True end.
Record wf_context (c : ContextV1) : Prop := {
  wfc_attributes : wf_attributes (context_attributes c);
  wfc_consistency x : consistency c = Some x → wf_consistency x;
  wfc_request_id x : request_id c = Some x → text_valid x MAX_CORRELATION_ID_LEN = true;
}.
Record wire_request (q : AccessRequestV1) : Prop := {
  wfr_subject : wire_subject (req_subject q);
  wfr_action : identifier_valid (action_name (req_action q)) MAX_ACTION_NAME_LEN = true;
  wfr_action_attributes : wf_attributes (action_attributes (req_action q));
  wfr_resource : identifier_valid (resource_type (req_resource q)) MAX_ENTITY_TYPE_LEN = true;
  wfr_resource_id : text_valid (resource_id (req_resource q)) MAX_ENTITY_ID_LEN = true;
  wfr_resource_attributes : wf_attributes (resource_attributes (req_resource q));
  wfr_context c : req_context q = Some c → wf_context c;
}.

(** Splits a chain of [let?] in a hypothesis with [rbind_Ok]. *)
Ltac bind_inv H :=
  repeat match type of H with
  | rbind _ _ = Ok _ => apply rbind_Ok in H; destruct H as (? & ? & H)
  | (if _ then Err _ else _) = Ok _ => apply fail_Ok in H; destruct H as [? H]
  end.

Lemma deserialize_subject_wf w s : SubjectV1_deserialize w = Ok s → wire_subject s.
Proof.
  unfold SubjectV1_deserialize. destruct (sw_profile w) as [|iss t scs attrs]; intros H.
  { apply fail_Ok in H as [_ [= <-]]. done. }
  bind_inv H. injection H as <-.
  repeat match goal with
  | H : IssuerV1_new _ = Ok _ |- _ => apply bounded_text_Ok in H as [-> ?]
  | H : EntityIdV1_new _ = Ok _ |- _ => apply bounded_text_Ok in H as [-> ?]
  | H : EntityTypeV1_new _ = Ok _ |- _ => apply bounded_identifier_Ok in H as [-> ?]
  | H : transpose_map _ _ = Ok _ |- _ =>
      apply (transpose_map_id _ _ _ _ (bounded_text_Ok _ _)) in H as [-> ?]
  | H : collect_map _ _ = Ok _ |- _ =>
      apply (collect_map_id _ _ _ _ (bounded_identifier_Ok _ _)) in H as [-> Hscs]
  | H : decode_attributes _ = Ok _ |- _ => apply decode_attributes_Ok in H as [-> ?]
  | H : normalize_scopes _ = Ok _ |- _ =>
      pose proof H as (Hlen & Hsort & Hel)%normalize_scopes_Ok;
      apply fail_Ok in H as [_ [= Hn]]
  | H : bool_decide _ = false |- _ => apply bool_decide_eq_false in H
  end.
  split; [|done]. constructor; cbn; try done.
  - rewrite Forall_forall in *. intros x Hx%Hel. auto.
  - rewrite <- Hn. etrans; [apply length_sort_dedup|]. done.
Qed.

Lemma normalize_scopes_id l :
  ssorted l → (length l ≤ MAX_ATTRIBUTE_LIST_VALUES)%nat → normalize_scopes l = Ok l.
Proof. intros. by apply normalize_scopes_Ok. Qed.

Lemma deserialize_serialize_subject s :
  wire_subject s → SubjectV1_deserialize (SubjectV1_serialize s) = Ok s.
Proof.
  destruct s as [|s]; [done|]. cbn. intros [[] Ht]. unfold SubjectV1_deserialize; cbn.
  rewrite !or_default_skip.
  rewrite (proj2 (bounded_text_Ok MAX_ENTITY_ID_LEN "identity issuer" _ _)) by done; cbn.
  rewrite (proj2 (transpose_map_id TenantIdV1_new _ _ _ (bounded_text_Ok _ _))) by done; cbn.
  rewrite (proj2 (collect_map_id ScopeV1_new _ _ _ (bounded_identifier_Ok _ _))) by done; cbn.
  rewrite (proj2 (decode_attributes_Ok _ _)) by done; cbn.
  rewrite normalize_scopes_id by done; cbn.
  rewrite (proj2 (bounded_identifier_Ok MAX_ENTITY_TYPE_LEN "entity type" _ _)) by done; cbn.
  rewrite bool_decide_false by done.
  rewrite (proj2 (bounded_text_Ok MAX_ENTITY_ID_LEN "entity identifier" _ _)) by done; cbn.
  by destruct s.
Qed.

Lemma decode_consistency_Ok c c' : decode_consistency c = Ok c' ↔ c' = c ∧ wf_consistency c.
Proof.
  destruct c; cbn; try naive_solver. rewrite rmap_Ok. setoid_rewrite bounded_text_Ok. naive_solver.
Qed.

Lemma decode_context_Ok w c :
  decode_context w = Ok c ↔
  c = mk_context_v1 (or_default (cw_attributes w)) (cw_consistency w) (cw_request_id w) ∧ wf_context c.
Proof.
  unfold decode_context. split.
  - intros H. bind_inv H. injection H as <-.
    apply decode_attributes_Ok in H0 as [-> ?].
    apply (transpose_map_id _ _ _ _ decode_consistency_Ok) in H1 as [-> ?].
    apply (transpose_map_id _ _ _ _ (bounded_text_Ok _ _)) in H2 as [-> ?]. by split.
  - intros [-> [? ? ?]]; cbn in *.
    rewrite (proj2 (decode_attributes_Ok _ _)) by done; cbn.
    rewrite (proj2 (transpose_map_id _ _ _ _ decode_consistency_Ok)) by done; cbn.
    by rewrite (proj2 (transpose_map_id RequestIdV1_new _ _ _ (bounded_text_Ok _ _))) by done.
Qed.

Lemma deserialize_request_wf w q : AccessRequestV1_deserialize w = Ok q → wire_request q.
Proof.
  unfold AccessRequestV1_deserialize. intros H. destruct (rw_action w), (rw_resource w) as [[]].
  bind_inv H. injection H as <-.
  repeat match goal with
  | H : EntityIdV1_new _ = Ok _ |- _ => apply bounded_text_Ok in H as [-> ?]
  | H : EntityTypeV1_new _ = Ok _ |- _ => apply bounded_identifier_Ok in H as [-> ?]
  | H : ActionNameV1_new _ = Ok _ |- _ => apply bounded_identifier_Ok in H as [-> ?]
  | H : decode_attributes _ = Ok _ |- _ => apply decode_attributes_Ok in H as [-> ?]
  | H : SubjectV1_deserialize _ = Ok _ |- _ => apply deserialize_subject_wf in H
  end.
  constructor; cbn; try done. intros c ->.
  destruct (rw_context w); cbn in *; [|done].
  match goal with H : rmap _ _ = Ok _ |- _ =>
    apply rmap_Ok in H as (? & [_ ?]%decode_context_Ok & [= ->]) end. done.
Qed.

Lemma deserialize_serialize_request q :
  wire_request q → AccessRequestV1_deserialize (AccessRequestV1_serialize q) = Ok q.
Proof.
  destruct q as [s [an aa] [rt ri ra] c]. intros []; cbn in *.
  unfold AccessRequestV1_deserialize, AccessRequestV1_serialize; cbn. rewrite !or_default_skip.
  rewrite deserialize_serialize_subject by done; cbn.
  rewrite (proj2 (bounded_identifier_Ok MAX_ACTION_NAME_LEN "action name" _ _)) by done; cbn.
  rewrite (proj2 (decode_attributes_Ok aa _)) by done; cbn.
  rewrite (proj2 (bounded_identifier_Ok MAX_ENTITY_TYPE_LEN "entity type" _ _)) by done; cbn.
  rewrite (proj2 (bounded_text_Ok MAX_ENTITY_ID_LEN "entity identifier" _ _)) by done; cbn.
  rewrite (proj2 (decode_attributes_Ok ra _)) by done; cbn.
  destruct c as [c|]; cbn; [|done].
  rewrite (proj2 (decode_context_Ok _ c)); [done|].
  split; [by destruct c as [[] ? ?]|]. by apply wfr_context0.
Qed.

(** *** Decisions *)

Record wf_metadata (m : DecisionMetadataV1) : Prop := {
  wfm_decision x : decision_id m = Some x → text_valid x MAX_CORRELATION_ID_LEN = true;
  wfm_policy x : policy_revision m = Some x → text_valid x MAX_REVISION_LEN = true;
  wfm_model x : model_name m = Some x → identifier_valid x MAX_ENTITY_TYPE_LEN = true;
  wfm_version x : model_version m = Some x → text_valid x MAX_REVISION_LEN = true;
  wfm_reason x : reason_code m = Some x → identifier_valid x MAX_ATTRIBUTE_NAME_LEN = true;
  wfm_token x : consistency_token m = Some x → text_valid x MAX_REVISION_LEN = true;
}.

Lemma metadata_field_wf (P : str → Prop) obj key new o :
  (∀ x y, new x = Ok y ↔ y = x ∧ P x) →
  metadata_field obj key new = Ok o → ∀ x, o = Some x → P x.
Proof.
  intros Hn. unfold metadata_field.
  destruct (bmap_get (lit key) obj) as [[]|]; try naive_solver.
  intros (a & Ha & ->)%rmap_Ok x [= ->]. by apply Hn in Ha as [-> ?].
Qed.

Lemma from_value_wf obj m : DecisionMetadataV1_from_value obj = Ok m → wf_metadata m.
Proof.
  unfold DecisionMetadataV1_from_value. intros H. bind_inv H. injection H as <-.
  constructor; cbn;
    (eapply metadata_field_wf; [|eassumption]; apply bounded_text_Ok || apply bounded_identifier_Ok).
Qed.

Lemma metadata_get m :
  (bmap_get (lit "decision_id") (metadata_to_value m) = VString <$> decision_id m ∧
   bmap_get (lit "policy_revision") (metadata_to_value m) = VString <$> policy_revision m ∧
   bmap_get (lit "model") (metadata_to_value m) = VString <$> model_name m) ∧
  (bmap_get (lit "model_version") (metadata_to_value m) = VString <$> model_version m ∧
   bmap_get (lit "reason_code") (metadata_to_value m) = VString <$> reason_code m ∧
   bmap_get (lit "consistency_token") (metadata_to_value m) = VString <$> consistency_token m) ∧
  forallb (λ k, bool_decide (k ∈ metadata_keys)) (metadata_to_value m).*1 = true ∧
  has_obligation (metadata_to_value m) = false.
Proof.
  destruct m as [[] [] [] [] [] []]; vm_compute; by repeat split.
Qed.

Lemma metadata_field_get (P : str → Prop) obj key new o :
  (∀ x y, new x = Ok y ↔ y = x ∧ P x) → (∀ x, o = Some x → P x) →
  bmap_get (lit key) obj = VString <$> o → metadata_field obj key new = Ok o.
Proof.
  intros Hn HP Hg. unfold metadata_field. rewrite Hg. destruct o as [x|]; cbn; [|done].
  by rewrite (proj2 (Hn x x)) by auto.
Qed.

Lemma from_value_to_value m :
  wf_metadata m → DecisionMetadataV1_from_value (metadata_to_value m) = Ok m.
Proof.
  intros []. destruct (metadata_get m) as ((? & ? & ?) & (? & ? & ?) & Hk & _).
  unfold DecisionMetadataV1_from_value. apply fail_Ok. split; [by rewrite Hk|].
  repeat (apply rbind_Ok; eexists; split;
    [eapply metadata_field_get; [apply bounded_text_Ok || apply bounded_identifier_Ok| |eassumption];
     eassumption|]).
  by destruct m.
Qed.

Lemma parse_serialized_context d :
  wf_metadata (metadata d) →
  parse_decision_context (dw_context (DecisionResponseV1_serialize d)) = Ok (metadata d).
Proof.
  intros Hd. unfold DecisionResponseV1_serialize; cbn [dw_context].
  case_bool_decide as E; [by rewrite E|].
  set (v := metadata_to_value (metadata d)).
  unfold parse_decision_context.
  change (has_obligation [(lit "wasi_authz", VObject v)]) with false; cbn iota.
  change (bmap_get (lit "wasi_authz") [(lit "wasi_authz", VObject v)]) with (Some (VObject v)).
  destruct (metadata_get (metadata d)) as (_ & _ & _ & Ho). fold v in Ho. rewrite Ho.
  unfold v. by rewrite from_value_to_value.
Qed.

Lemma has_obligation_spec c :
  has_obligation c = false ↔
  ∀ k v, k ∈ [lit "obligations"; lit "obligation"] → bmap_get k c = Some v →
         is_nonempty_json_value v = false.
Proof.
  unfold has_obligation. rewrite existsb_false_spec. split.
  - intros H k v Hk Hv. specialize (H k Hk). by rewrite Hv in H.
  - intros H k Hk. destruct (bmap_get k c) eqn:E; eauto.
Qed.

(** An obligation: one of the two reserved members, and not null, an empty
    list or an empty object. *)
Definition obliges (c : bmap Value) : Prop :=
  ∃ k v, (k = lit "obligations" ∨ k = lit "obligation") ∧ bmap_get k c = Some v
    ∧ v ≠ VNull ∧ v ≠ VArray [] ∧ v ≠ VObject [].
Lemma nonempty_value_spec v : is_nonempty_json_value v = true ↔ v ≠ VNull ∧ v ≠ VArray [] ∧ v ≠ VObject [].
Proof. destruct v as [| | | |[]|[]]; cbn; naive_solver. Qed.
Lemma has_obligation_true c : has_obligation c = true ↔ obliges c.
Proof.
  unfold has_obligation, obliges. rewrite existsb_spec. split.
  - intros (k & Hk & E). destruct (bmap_get k c) as [v|] eqn:Ev; [|done]. exists k, v.
    split_and!; [set_solver|done|by apply nonempty_value_spec..].
  - intros (k & v & Hk & Ev & E%nonempty_value_spec). exists k. rewrite Ev. split; [set_solver|done].
Qed.
Lemma has_obligation_none c : has_obligation c = false ↔ ¬ obliges c.
Proof. rewrite <- has_obligation_true. by destruct (has_obligation c). Qed.

(** The bounds of the metadata, member by member. *)
Definition plain_text (max : Z) (x : str) : Prop :=
  x ≠ [] ∧ str_len x ≤ max ∧ trim x = x ∧ ∀ c, c ∈ x → is_control c = false.
Definition plain_identifier (max : Z) (x : str) : Prop :=
  x ≠ [] ∧ str_len x ≤ max
  ∧ ∀ b, b ∈ str_bytes x → is_ascii_alphanumeric b = true ∨ b ∈ [45; 95; 46; 58; 47].
Record metadata_bounded (m : DecisionMetadataV1) : Prop := {
  mb_decision x : decision_id m = Some x → plain_text 256 x;
  mb_policy x : policy_revision m = Some x → plain_text 512 x;
  mb_model x : model_name m = Some x → plain_identifier 128 x;
  mb_version x : model_version m = Some x → plain_text 512 x;
  mb_reason x : reason_code m = Some x → plain_identifier 128 x;
  mb_token x : consistency_token m = Some x → plain_text 512 x;
}.
Lemma text_plain x max : text_valid x max = true → plain_text max x.
Proof. apply text_valid_spec. Qed.
Lemma identifier_plain x max : identifier_valid x max = true → plain_identifier max x.
Proof.
  unfold identifier_valid, plain_identifier. rewrite !andb_true_iff, forallb_spec, Z.leb_le. intros [[Hne ?] Hall].
  split_and!; [by destruct x|done|]. intros b Hb%Hall. unfold identifier_byte, one_of in Hb. bprop. done.
Qed.
Lemma wf_metadata_bounded m : wf_metadata m → metadata_bounded m.
Proof. intros []. split; intros; by auto using text_plain, identifier_plain. Qed.

Lemma parse_context_Ok context m :
  parse_decision_context context = Ok m →
  wf_metadata m ∧
  ∀ c, context = Some c → has_obligation c = false ∧
    ∀ p, bmap_get (lit "wasi_authz") c = Some p → ∃ o, p = VObject o ∧ has_obligation o = false.
Proof.
  assert (wf_metadata DecisionMetadataV1_new) as Hnew by (constructor; cbn; by intros).
  unfold parse_decision_context. intros H.
  destruct context as [[|kv c]|]; [injection H as <-|apply fail_Ok in H as [Ho H]|injection H as <-].
  - split; [done|]. by intros c [= <-].
  - destruct (bmap_get (lit "wasi_authz") (kv :: c)) as [[]|] eqn:Ep; try done.
    + apply fail_Ok in H as [Ho' H]. apply map_err_Ok in H.
      split; [by eapply from_value_wf|]. intros ? [= <-]. split; [done|].
      rewrite Ep. intros ? [= <-]. eauto.
    + injection H as <-. split; [done|]. intros ? [= <-]. split; [done|]. by rewrite Ep.
  - by split.
Qed.

Lemma ascii_lower_dash c : ascii_lower c = 45 → c = 45.
Proof. unfold ascii_lower, is_ascii_uppercase, in_range. case_match; lia. Qed.

Lemma segment_no_dash name segment :
  segment ∈ split_by name_separator name → 45 ∉ to_ascii_lowercase segment.
Proof.
  intros Hs%split_by_pieces Hd. rewrite forallb_spec in Hs.
  apply list_elem_of_fmap in Hd as (c & Hc & Hin). symmetry in Hc. apply ascii_lower_dash in Hc as ->.
  apply Hs in Hin. done.
Qed.

(** ** Properties *)

(** An attribute name is refused as secret exactly when one of its segments
    (between [.], [-], [_], [:] or [/]) is, whatever its case, one of
    authorization, cookie, credential, password, secret and token. *)
Theorem sensitive_name_iff name :
  is_sensitive_attribute_name name = true ↔
  ∃ segment, segment ∈ split_by name_separator name ∧
    to_ascii_lowercase segment ∈
      [lit "authorization"; lit "cookie"; lit "credential"; lit "password"; lit "secret"; lit "token"].
Proof.
  unfold is_sensitive_attribute_name. rewrite existsb_spec. setoid_rewrite bool_decide_eq_true.
  apply exist_proper; intros seg. split; intros [Hs Hin]; (split; [done|]).
  - pose proof (segment_no_dash _ _ Hs) as Hd. set_unfold in Hin.
    repeat destruct Hin as [Hin|Hin]; try (set_unfold; tauto);
      exfalso; apply Hd; rewrite Hin; by apply (bool_decide_unpack _).
  - set_unfold. tauto.
Qed.

(** Attribute sets.  [try_from_vec] accepts exactly the lists of at most
    [MAX_ATTRIBUTES] attributes with pairwise distinct, non-secret names, and
    inserting into such a set one more attribute built by [AttributeV1::new]
    succeeds exactly when the extended list would be accepted, and gives it. *)
Theorem attributes_invariant set name value provenance a :
  AttributeV1_new name value provenance = Ok a →
  (try_from_vec set = Ok set ↔ attribute_set set) ∧
  (try_from_vec set = Ok set →
     ∀ set', attributes_insert set a = Ok set' ↔
             set' = set ++ [a] ∧ try_from_vec (set ++ [a]) = Ok (set ++ [a])).
Proof.
  intros Ha. assert (Hpub : is_sensitive_attribute_name (attr_name a) = false).
  { unfold AttributeV1_new in Ha. apply fail_Ok in Ha as [? [= <-]]. done. }
  split; [rewrite try_from_vec_Ok; tauto|]. intros [_ [Hlen Hnd Hf]]%try_from_vec_Ok set'.
  unfold attributes_insert. rewrite !fail_Ok, try_from_vec_Ok, existsb_false_spec.
  rewrite bool_decide_eq_false. setoid_rewrite bool_decide_eq_false. split.
  - intros (Hfull & Hnew & [= <-]). split_and!; try done. constructor.
    + rewrite length_app; cbn. lia.
    + rewrite fmap_app, NoDup_app. split_and!; [done| |apply NoDup_singleton].
      intros x (b & -> & Hb)%list_elem_of_fmap Heq%list_elem_of_singleton. by apply (Hnew b).
    + by apply Forall_app; split; [|constructor].
  - intros [-> [_ [Hlen' Hnd' _]]]. rewrite length_app in Hlen'; cbn in Hlen'.
    split_and!; [lia| |done]. intros b Hb Heq.
    rewrite fmap_app, NoDup_app in Hnd'. destruct Hnd' as (_ & Hd & _).
    apply (Hd (attr_name b)); [by apply list_elem_of_fmap_2|]. rewrite Heq. by left.
Qed.

Section codec_properties.
Context (to_vec : RequestWire → option (list Z)) (from_slice : list Z → option RequestWire).
Context (to_vec_d : DecisionWire → option (list Z)) (from_slice_d : list Z → option DecisionWire).

(** Requests survive the wire.  With a JSON codec that reads back what it
    wrote, a request whose parts were validated, and whose authenticated
    subject does not use the reserved type [anonymous], decodes to itself
    from whatever [to_json_vec] produced for it. *)
Theorem request_roundtrip q bytes :
  (∀ w b, to_vec w = Some b → from_slice b = Some w) →
  wire_request q →
  AccessRequestV1_to_json_vec to_vec q = Ok bytes →
  AccessRequestV1_from_json_slice from_slice bytes = Ok q.
Proof.
  intros Hcodec Hq H. unfold AccessRequestV1_to_json_vec, encode_bounded in H.
  bind_inv H. injection H as <-. destruct (to_vec _) as [b|] eqn:E; [|done].
  cbn in *. simplify_eq. unfold AccessRequestV1_from_json_slice, decode_bounded.
  match goal with H : (MAX_DOCUMENT_BYTES <? _) = false |- _ => rewrite H end.
  by rewrite (Hcodec _ _ E); cbn; rewrite deserialize_serialize_request.
Qed.

(** Nothing out of profile is ever decoded: whatever bytes arrive and
    whatever the JSON parser makes of them, a request that
    [from_json_slice] returns came from at most [MAX_DOCUMENT_BYTES] bytes
    and has bounded identifiers, sorted unique scopes, and attribute sets
    that are bounded, uniquely named and free of secret names; anything else
    is reported as an oversized or invalid document. *)
Theorem decoded_request_in_profile bytes :
  match AccessRequestV1_from_json_slice from_slice bytes with
  | Ok q => Z.of_nat (length bytes) ≤ MAX_DOCUMENT_BYTES ∧ wire_request q
  | Err e => e = DocumentTooLarge ∨ e = InvalidJson
  end.
Proof.
  unfold AccessRequestV1_from_json_slice, decode_bounded.
  destruct (MAX_DOCUMENT_BYTES <? Z.of_nat (length bytes)) eqn:E; [by left|]. bprop.
  destruct (from_slice bytes) as [w|]; cbn; [|by right].
  destruct (AccessRequestV1_deserialize w) as [q|e] eqn:D; cbn; [|by right].
  split; [done|]. by eapply deserialize_request_wf.
Qed.

(** C19: decisions fail closed.  A decision that decodes has the verdict of
    the document, metadata within the bounds of each member, and no obligation
    in the context nor in the [wasi_authz] profile, where an obligation is a
    member [obligations] or [obligation] other than null, an empty list or an
    empty object; an obligation at either place, in a document of accepted
    size, is always [ObligationsUnsupported], never a verdict. *)
Theorem decision_fail_closed bytes :
  (∀ d, DecisionResponseV1_from_json_slice from_slice_d bytes = Ok d →
    metadata_bounded (metadata d) ∧
    ∃ raw, from_slice_d bytes = Some raw ∧ is_allowed d = dw_decision raw ∧
      ∀ c, dw_context raw = Some c → ¬ obliges c ∧
        ∀ p, bmap_get (lit "wasi_authz") c = Some p → ∃ o, p = VObject o ∧ ¬ obliges o) ∧
  (∀ raw c, Z.of_nat (length bytes) ≤ 64 * 1024 →
    from_slice_d bytes = Some raw → dw_context raw = Some c →
    obliges c ∨ (∃ o, bmap_get (lit "wasi_authz") c = Some (VObject o) ∧ obliges o) →
    DecisionResponseV1_from_json_slice from_slice_d bytes = Err ObligationsUnsupported).
Proof.
  unfold DecisionResponseV1_from_json_slice. split.
  - intros d H. bind_inv H. injection H as <-. destruct (from_slice_d bytes) as [raw|]; [|done].
    cbn in *. simplify_eq. destruct (parse_context_Ok _ _ ltac:(eassumption)) as [Hm Hc].
    split; [by apply wf_metadata_bounded|]. exists x. split_and!; [done|done|].
    intros c Ec. destruct (Hc c Ec) as [Ho Hp]. split; [by apply has_obligation_none|].
    intros p Ep. destruct (Hp p Ep) as (o & -> & ?). exists o. split; [done|]. by apply has_obligation_none.
  - setoid_rewrite <- has_obligation_true. intros raw c Hl -> Hc Hob. rewrite (proj2 (Z.ltb_ge _ _)) by done; cbn.
    rewrite Hc. unfold parse_decision_context. destruct c as [|kv c].
    { destruct Hob as [Hob|(o & Hob & _)]; [by vm_compute in Hob|done]. }
    destruct (has_obligation (kv :: c)) eqn:E; [done|].
    destruct Hob as [Hob|(o & -> & ->)]; [congruence|done].
Qed.

(** Decisions survive the wire: a decision with validated metadata decodes
    to itself from what [to_json_vec] produced, metadata or no metadata. *)
Theorem decision_roundtrip d bytes :
  (∀ w b, to_vec_d w = Some b → from_slice_d b = Some w) →
  wf_metadata (metadata d) →
  DecisionResponseV1_to_json_vec to_vec_d d = Ok bytes →
  DecisionResponseV1_from_json_slice from_slice_d bytes = Ok d.
Proof.
  intros Hcodec Hd H. unfold DecisionResponseV1_to_json_vec, encode_bounded in H.
  bind_inv H. injection H as <-. destruct (to_vec_d _) as [b|] eqn:E; [|done].
  cbn in *. simplify_eq. unfold DecisionResponseV1_from_json_slice.
  match goal with H : (MAX_DOCUMENT_BYTES <? _) = false |- _ => rewrite H end.
  rewrite (Hcodec _ _ E); cbn [ok_or rbind]. rewrite parse_serialized_context by done.
  by destruct d.
Qed.
End codec_properties.

(** *** Concrete instances *)

Module ContractExample.
#[local] Instance consistency_eq_dec : EqDecision ConsistencyRequirementV1.
Proof. solve_decision. Defined.
#[local] Instance context_wire_eq_dec : EqDecision ContextWire.
Proof. solve_decision. Defined.
#[local] Instance profile_eq_dec : EqDecision SubjectProfileWire.
Proof. solve_decision. Defined.
#[local] Instance subject_wire_eq_dec : EqDecision SubjectWire.
Proof. solve_decision. Defined.
#[local] Instance request_wire_eq_dec : EqDecision RequestWire.
Proof. solve_decision. Defined.

Definition dept := mk_attribute (lit "hr.department") (AString (lit "legal")) IdentityProvider.
Definition alice := mk_subject (lit "user") (lit "alice") (lit "https://idp.example") None
  [lit "doc.read"; lit "doc.write"] [dept].
Definition request :=
  mk_request (Authenticated alice) (mk_action (lit "read") [])
    (mk_resource (lit "doc") (lit "42") []) None.
(** A codec that knows one document. *)
Definition to_vec (w : RequestWire) : option (list Z) :=
  if decide (w = AccessRequestV1_serialize request) then Some [123; 125] else None.
Definition from_slice (b : list Z) : option RequestWire :=
  if decide (b = [123; 125]) then Some (AccessRequestV1_serialize request) else None.

Definition allow := DecisionResponseV1_allow
  (mk_metadata (Some (lit "d-1")) None (Some (lit "cedar")) (Some (lit "v4")) None None).
Definition to_vec_d (w : DecisionWire) : option (list Z) :=
  match w with
  | mk_decision_wire true
      (Some [(k, VObject [(k1, VString v1); (k2, VString v2); (k3, VString v3)])]) =>
      if decide ([k; k1; v1; k2; v2; k3; v3] =
        [lit "wasi_authz"; lit "decision_id"; lit "d-1"; lit "model"; lit "cedar";
         lit "model_version"; lit "v4"]) then Some [91; 93] else None
  | _ => None
  end.
Definition from_slice_d (b : list Z) : option DecisionWire :=
  if decide (b = [91; 93]) then Some (DecisionResponseV1_serialize allow) else None.

Lemma codec_ok w b : to_vec w = Some b → from_slice b = Some w.
Proof. unfold to_vec, from_slice. case_decide; [subst|done]. by intros [= <-]. Qed.

Lemma codec_d_ok w b : to_vec_d w = Some b → from_slice_d b = Some w.
Proof.
  unfold to_vec_d, from_slice_d. intros H. repeat case_match; simplify_eq.
  match goal with E : _ = [lit "wasi_authz"; _; _; _; _; _; _] |- _ => injection E as -> -> -> -> -> -> -> end. vm_compute. reflexivity.
Qed.
End ContractExample.

Section contract_witnesses.
Import ContractExample.

Lemma request_roundtrip_witness :
  AccessRequestV1_from_json_slice from_slice [123; 125] = Ok request.
Proof.
  apply (request_roundtrip to_vec from_slice request [123; 125]).
  - exact codec_ok.
  - constructor; cbn; try reflexivity; try (intros ? [=]);
      try (split; [constructor|constructor; cbn; [apply Nat.leb_le; reflexivity|constructor|constructor]]).
    split; [|by apply (bool_decide_unpack _)].
    constructor; cbn; try reflexivity; try (intros ? [=]).
    + repeat constructor.
    + repeat constructor.
    + apply Nat.leb_le. reflexivity.
    + split; [repeat constructor|constructor; cbn; [apply Nat.leb_le; reflexivity|apply NoDup_singleton|repeat constructor]].
  - vm_compute. reflexivity.
Defined.

Lemma decision_roundtrip_witness :
  DecisionResponseV1_from_json_slice from_slice_d [91; 93] = Ok allow.
Proof.
  apply (decision_roundtrip to_vec_d from_slice_d allow [91; 93]).
  - exact codec_d_ok.
  - constructor; cbn; intros x [= <-]; vm_compute; reflexivity.
  - vm_compute. reflexivity.
Defined.

(** An authenticated subject of type [anonymous] can be built and encoded,
    but what it is encoded to is not accepted back. *)
Example anonymous_type_not_decodable :
  is_ok (EntityTypeV1_new (lit "anonymous")) = true ∧
  is_ok (SubjectV1_deserialize (SubjectV1_serialize (Authenticated
    (AuthenticatedSubjectV1_new (lit "anonymous") (lit "a") (lit "i"))))) = false.
Proof. vm_compute. by split. Qed.
End contract_witnesses.
