(* ===== verification/Context.v ===== *)
(** * Context: validated identity and request context

    Models src/crates/wasi-auth/src/context.rs: the bounded identifiers, the
    principal, the authorization snapshot and the verified contexts that
    trusted ingress installs. *)

From S2P Require Export Collections.
Open Scope Z_scope.

Definition MAX_IDENTIFIER_BYTES : Z := 256.
Definition MAX_ISSUER_BYTES : Z := 512.

Inductive ContextError :=
| EmptyIdentifier | IdentifierTooLong | InvalidIdentifier | InvalidIssuer | InvalidLifetime.

#[export] Instance ContextError_eq_dec : EqDecision ContextError.
Proof. solve_decision. Defined.

Definition validate_identifier (value : str) : result ContextError unit :=
  fail? is_empty value with EmptyIdentifier ;;
  fail? MAX_IDENTIFIER_BYTES <? str_len value with IdentifierTooLong ;;
  fail? existsb (λ c, is_control c || is_whitespace c || (c =? 0)) value with InvalidIdentifier ;;
  Ok tt.

(** The macro [bounded_identifier!]: [$name::new] of [UserId],
    [OrganizationId], [SessionId], [RequestId], [DecisionId], [PolicyRevision],
    [CredentialId], [InvitationId], [RoleId] and [IdempotencyKey]. *)
Definition identifier_new (value : str) : result ContextError str :=
  try? validate_identifier value ;; Ok value.

Inductive AuthenticationAssurance := Aal1 | Aal2.
#[export] Instance AuthenticationAssurance_eq_dec : EqDecision AuthenticationAssurance.
Proof. solve_decision. Defined.

Definition assurance_as_u8 (a : AuthenticationAssurance) : Z :=
  match a with Aal1 => 0 | Aal2 => 1 end.
Definition satisfies (a required : AuthenticationAssurance) : bool :=
  assurance_as_u8 required <=? assurance_as_u8 a.

Record Principal := mk_principal {
  p_user_id : str;
  p_issuer : str;
  system_administrator : bool;
}.
Definition Principal_new (user_id issuer : str) (admin : bool) : result ContextError Principal :=
  fail? is_empty issuer || (MAX_ISSUER_BYTES <? str_len issuer) || existsb is_control issuer
    with InvalidIssuer ;;
  Ok (mk_principal user_id issuer admin).

(** [VerifiedAuthContext]; [ValidatedContextParts] has the same fields. *)
Record VerifiedAuthContext := mk_auth_context {
  principal : Principal;
  ctx_organization_id : option str;
  ctx_session_id : str;
  ctx_request_id : str;
  assurance : AuthenticationAssurance;
  issued_at_unix_seconds : Z;
  ctx_expires_at : Z;
  ctx_decision_id : option str;
  ctx_policy_revision : option str;
}.
Definition from_validated (parts : VerifiedAuthContext) : result ContextError VerifiedAuthContext :=
  fail? ctx_expires_at parts <=? issued_at_unix_seconds parts with InvalidLifetime ;;
  Ok parts.
Definition is_expired_at (c : VerifiedAuthContext) (now : Z) : bool := ctx_expires_at c <=? now.

Record AuthorizationSnapshot := mk_snapshot {
  snap_permissions : list str;
  snap_role_ids : list str;
  snap_policy_revision : option str;
  snap_consistency_token : option str;
}.
Definition AuthorizationSnapshot_new (perms role_ids : list str) (revision token : option str) :
    result ContextError AuthorizationSnapshot :=
  let? perms := collect_map (λ p, try? validate_identifier p ;; Ok p) perms in
  fail? match token with
        | Some t => is_empty t || (4096 <? str_len t) || existsb is_control t
        | None => false
        end with InvalidIdentifier ;;
  Ok (mk_snapshot (bset_of_list perms) (bset_of_list role_ids) revision token).
Definition has_permission (s : AuthorizationSnapshot) (p : str) : bool :=
  bset_contains p (snap_permissions s).

Record VerifiedRequestContext := mk_request_context {
  rc_auth : VerifiedAuthContext;
  rc_authorization : AuthorizationSnapshot;
}.

(** ** Lemmas *)

Lemma validate_identifier_Ok v :
  validate_identifier v = Ok tt ↔
  v ≠ [] ∧ str_len v ≤ MAX_IDENTIFIER_BYTES ∧
  ∀ c, c ∈ v → is_control c = false ∧ is_whitespace c = false.
Proof.
  unfold validate_identifier. rewrite !fail_Ok, existsb_false_spec. bprop.
  assert (is_empty v = false ↔ v ≠ []) as -> by (destruct v; naive_solver).
  split.
  - intros (? & ? & H & _). split_and!; try done. intros c Hc.
    specialize (H c Hc). apply orb_false_iff in H as [H _]. by apply orb_false_iff in H.
  - intros (? & ? & H). split_and!; try done. intros c Hc.
    destruct (H c Hc) as [Hc1 Hc2]. rewrite Hc1, Hc2. apply Z.eqb_neq. intros ->. done.
Qed.

Lemma identifier_new_Ok v x :
  identifier_new v = Ok x ↔ x = v ∧ validate_identifier v = Ok tt.
Proof. unfold identifier_new. destruct (validate_identifier v) as [[]|]; cbn; naive_solver. Qed.

Lemma satisfies_spec a required : satisfies a required = true ↔ a = required ∨ a = Aal2.
Proof. destruct a, required; cbn; naive_solver. Qed.

Lemma AuthorizationSnapshot_new_inv perms role_ids revision token s :
  AuthorizationSnapshot_new perms role_ids revision token = Ok s →
  s = mk_snapshot (bset_of_list perms) (bset_of_list role_ids) revision token
  ∧ Forall (λ p, validate_identifier p = Ok tt) perms.
Proof.
  intros H. unfold AuthorizationSnapshot_new in H.
  apply rbind_Ok in H as (l & Hl & H). apply fail_Ok in H as [_ [= <-]].
  assert (l = perms ∧ Forall (λ p, validate_identifier p = Ok tt) perms) as [-> Hf]; [|done].
  apply collect_map_Ok in Hl.
  induction Hl as [|x y perms l Hx _ [-> IH]]; [by split; [|constructor]|].
  apply rbind_Ok in Hx as ([] & ? & [= <-]). by split; [|constructor].
Qed.

(** A snapshot that was built grants exactly the permissions it was
    built from, every one of them a bounded identifier without blanks or
    control characters, and carries the given roles, revision and token. *)
Lemma AuthorizationSnapshot_new_Ok perms role_ids revision token s :
  AuthorizationSnapshot_new perms role_ids revision token = Ok s →
  (∀ p, has_permission s p = true ↔ p ∈ perms) ∧
  (∀ p, has_permission s p = true → validate_identifier p = Ok tt) ∧
  ssorted (snap_permissions s) ∧ (∀ r, r ∈ snap_role_ids s ↔ r ∈ role_ids) ∧
  snap_policy_revision s = revision ∧ snap_consistency_token s = token.
Proof.
  intros [-> Hf]%AuthorizationSnapshot_new_inv.
  assert (Hp : ∀ p, bset_contains p (bset_of_list perms) = true ↔ p ∈ perms).
  { intros p. unfold bset_contains. by rewrite bool_decide_eq_true, elem_of_bset_of_list. }
  split_and!; try done.
  - intros p Hin%Hp. rewrite Forall_forall in Hf. auto.
  - apply bset_of_list_sorted.
  - intros r. apply elem_of_bset_of_list.
Qed.
