(* ===== verification/Domain.v ===== *)
(** * Domain: accounts, roles, organizations, invitations and sessions

    Models src/crates/wasi-auth/src/authentication.rs: permissions and roles,
    the user, organization, membership, invitation and session lifecycles, the
    bounded atomic mutation, and the transport mapping of
    src/crates/wasi-auth/src/authentication/error.rs.  A method that takes
    [&mut self] returns the new value; one that can also fail returns it with
    the result.  Lifecycles are step relations, with their invariants by rule
    induction over the reachable states. *)

From S2P Require Export Context.
Open Scope Z_scope.

Inductive AuthenticationError :=
| InvalidValue | UserDisabled | LastOwner | RestrictedPermission
| AlreadyCompleted | Expired | SessionRevoked.

#[export] Instance AuthenticationError_eq_dec : EqDecision AuthenticationError.
Proof. solve_decision. Defined.

(** ** Permissions and roles *)

Module permissions.
Definition ORGANIZATION_VIEW := lit "organization.view".
Definition ORGANIZATION_UPDATE := lit "organization.update".
Definition MEMBER_VIEW := lit "member.view".
Definition MEMBER_INVITE := lit "member.invite".
Definition MEMBER_MANAGE := lit "member.manage".
Definition ROLE_VIEW := lit "role.view".
Definition ROLE_MANAGE := lit "role.manage".
Definition AUDIT_VIEW := lit "audit.view".
Definition COUNTER_VIEW := lit "counter.view".
Definition COUNTER_CHANGE := lit "counter.change".
Definition COUNTER_RESET := lit "counter.reset".
Definition DASHBOARD_VIEW := lit "dashboard.view".
Definition DASHBOARD_MANAGE := lit "dashboard.manage".
Definition RESOURCE_VIEW := lit "resource.view".
Definition RESOURCE_MANAGE := lit "resource.manage".
Definition QUERY_VIEW := lit "query.view".
Definition QUERY_MANAGE := lit "query.manage".
Definition QUERY_EXECUTE := lit "query.execute".
Definition QUERY_EXECUTE_MUTATION := lit "query.execute_mutation".
Definition VAULT_VIEW := lit "vault.view".
Definition VAULT_MANAGE := lit "vault.manage".
Definition VAULT_REVEAL := lit "vault.reveal".
Definition OWNERSHIP_TRANSFER := lit "ownership.transfer".
Definition SYSTEM_USER_MANAGE := lit "system.user.manage".
Definition SYSTEM_SIGNING_KEY_MANAGE := lit "system.signing-key.manage".
Definition SYSTEM_POLICY_MANAGE := lit "system.policy.manage".
End permissions.

(** [.], [_], [-], [:] *)
Definition permission_byte (b : Z) : bool :=
  is_ascii_alphanumeric b || one_of [46; 95; 45; 58] b.

Definition Permission_new (value : str) : result AuthenticationError str :=
  fail? is_empty value || (128 <? str_len value)
        || negb (forallb permission_byte (str_bytes value)) with InvalidValue ;;
  Ok value.

Definition is_restricted_for_custom_role (p : str) : bool :=
  bool_decide (p ∈ [permissions.OWNERSHIP_TRANSFER; permissions.SYSTEM_USER_MANAGE;
                    permissions.SYSTEM_SIGNING_KEY_MANAGE; permissions.SYSTEM_POLICY_MANAGE]).

Inductive BuiltInRole := Owner | Admin | Member | Viewer.
#[export] Instance BuiltInRole_eq_dec : EqDecision BuiltInRole.
Proof. solve_decision. Defined.

Record Role := mk_role {
  role_id : str;
  role_name : str;
  role_built_in : option BuiltInRole;
  role_permissions : list str;
}.

Definition built_in_names (role : BuiltInRole) : list str :=
  match role with
  | Owner =>
      [permissions.ORGANIZATION_VIEW; permissions.ORGANIZATION_UPDATE; permissions.MEMBER_VIEW;
       permissions.MEMBER_INVITE; permissions.MEMBER_MANAGE; permissions.ROLE_VIEW;
       permissions.ROLE_MANAGE; permissions.AUDIT_VIEW; permissions.COUNTER_VIEW;
       permissions.COUNTER_CHANGE; permissions.COUNTER_RESET; permissions.DASHBOARD_VIEW;
       permissions.DASHBOARD_MANAGE; permissions.RESOURCE_VIEW; permissions.RESOURCE_MANAGE;
       permissions.QUERY_VIEW; permissions.QUERY_MANAGE; permissions.QUERY_EXECUTE;
       permissions.QUERY_EXECUTE_MUTATION; permissions.VAULT_VIEW; permissions.VAULT_MANAGE;
       permissions.VAULT_REVEAL; permissions.OWNERSHIP_TRANSFER]
  | Admin =>
      [permissions.ORGANIZATION_VIEW; permissions.ORGANIZATION_UPDATE; permissions.MEMBER_VIEW;
       permissions.MEMBER_INVITE; permissions.MEMBER_MANAGE; permissions.ROLE_VIEW;
       permissions.ROLE_MANAGE; permissions.AUDIT_VIEW; permissions.COUNTER_VIEW;
       permissions.COUNTER_CHANGE; permissions.COUNTER_RESET; permissions.DASHBOARD_VIEW;
       permissions.DASHBOARD_MANAGE; permissions.RESOURCE_VIEW; permissions.RESOURCE_MANAGE;
       permissions.QUERY_VIEW; permissions.QUERY_MANAGE; permissions.QUERY_EXECUTE;
       permissions.QUERY_EXECUTE_MUTATION; permissions.VAULT_VIEW; permissions.VAULT_MANAGE;
       permissions.VAULT_REVEAL]
  | Member =>
      [permissions.ORGANIZATION_VIEW; permissions.MEMBER_VIEW; permissions.ROLE_VIEW;
       permissions.COUNTER_VIEW; permissions.COUNTER_CHANGE; permissions.DASHBOARD_VIEW;
       permissions.QUERY_VIEW; permissions.QUERY_EXECUTE]
  | Viewer =>
      [permissions.ORGANIZATION_VIEW; permissions.MEMBER_VIEW; permissions.ROLE_VIEW;
       permissions.COUNTER_VIEW; permissions.DASHBOARD_VIEW]
  end.

Definition role_debug (role : BuiltInRole) : str :=
  lit match role with Owner => "Owner" | Admin => "Admin" | Member => "Member" | Viewer => "Viewer" end.

Definition Role_built_in (id : str) (role : BuiltInRole) : result AuthenticationError Role :=
  let? perms := collect_map Permission_new (built_in_names role) in
  Ok (mk_role id (to_ascii_lowercase (role_debug role)) (Some role) (bset_of_list perms)).

Definition Role_custom (id name : str) (perms : list str) : result AuthenticationError Role :=
  fail? negb (bool_decide (trim name = name)) || is_empty name || (100 <? str_len name)
    with InvalidValue ;;
  let perms := bset_of_list perms in
  fail? existsb is_restricted_for_custom_role perms with RestrictedPermission ;;
  Ok (mk_role id name None perms).

(** ** Users *)

Definition validate_email (value : str) : result AuthenticationError unit :=
  fail? negb (bool_decide (trim value = value)) || (320 <? str_len value)
        || existsb is_control value
        || match split_once 64 value with
           | None => true
           | Some (local, domain) =>
               is_empty local || is_empty domain || negb (contains_char 46 domain)
           end with InvalidValue ;;
  Ok tt.

Inductive UserStatus := PendingVerification | UserActive | Disabled | Anonymized.
Record User := mk_user {
  user_id : str;
  primary_email : str;
  user_status : UserStatus;
}.
Definition User_register (id email : str) : result AuthenticationError User :=
  try? validate_email email ;; Ok (mk_user id email PendingVerification).
Definition verify_email (u : User) : User :=
  match user_status u with
  | PendingVerification => mk_user (user_id u) (primary_email u) UserActive
  | _ => u
  end.
Definition disable (u : User) : User := mk_user (user_id u) (primary_email u) Disabled.

(** ** Organizations *)

Inductive OrganizationStatus := OrganizationActive | Archived.
Record Organization := mk_organization {
  organization_id : str;
  organization_name : str;
  organization_status : OrganizationStatus;
  owners : list str;
}.
Definition Organization_create (id name owner : str) : result AuthenticationError Organization :=
  fail? negb (bool_decide (trim name = name)) || is_empty name || (120 <? str_len name)
    with InvalidValue ;;
  Ok (mk_organization id name OrganizationActive (bset_of_list [owner])).
Definition add_owner (o : Organization) (user : str) : Organization :=
  mk_organization (organization_id o) (organization_name o) (organization_status o)
    (bset_insert user (owners o)).
Definition remove_owner (o : Organization) (user : str) :
    result AuthenticationError unit * Organization :=
  if bset_contains user (owners o) && bool_decide (length (owners o) = 1%nat)
  then (Err LastOwner, o)
  else (Ok tt, mk_organization (organization_id o) (organization_name o) (organization_status o)
                 (bset_remove user (owners o))).

(** ** Memberships *)

Inductive MembershipStatus := MembershipActive | Suspended | Removed.
Record Membership := mk_membership {
  member_organization_id : str;
  member_user_id : str;
  member_role_ids : list str;
  membership_status : MembershipStatus;
}.
Definition Membership_new (org user : str) (role_ids : list str) :
    result AuthenticationError Membership :=
  let role_ids := bset_of_list role_ids in
  fail? match role_ids with [] => true | _ => false end with InvalidValue ;;
  Ok (mk_membership org user role_ids MembershipActive).

(** ** Invitations *)

Record Invitation := mk_invitation {
  invitation_id : str;
  invitation_organization_id : str;
  invitation_email : str;
  invitation_role_ids : list str;
  expires_at_unix_seconds : Z;
  accepted_by : option str;
  revoked : bool;
}.
Definition Invitation_new (id org email : str) (role_ids : list str) (expires now : Z) :
    result AuthenticationError Invitation :=
  try? validate_email email ;;
  let role_ids := bset_of_list role_ids in
  fail? match role_ids with [] => true | _ => false end with InvalidValue ;;
  fail? expires <=? now with Expired ;;
  Ok (mk_invitation id org email role_ids expires None false).
Definition accept (i : Invitation) (user : str) (now : Z) :
    result AuthenticationError unit * Invitation :=
  if revoked i || bool_decide (is_Some (accepted_by i)) then (Err AlreadyCompleted, i)
  else if expires_at_unix_seconds i <=? now then (Err Expired, i)
  else (Ok tt, mk_invitation (invitation_id i) (invitation_organization_id i) (invitation_email i)
                 (invitation_role_ids i) (expires_at_unix_seconds i) (Some user) (revoked i)).

(** ** Sessions *)

Record Session := mk_session {
  session_id : str;
  session_user_id : str;
  session_organization_id : option str;
  session_assurance : AuthenticationAssurance;
  session_expires_at : Z;
  revoked_at_unix_seconds : option Z;
}.
Definition Session_new (id user : str) (org : option str) (assurance : AuthenticationAssurance)
    (expires now : Z) : result AuthenticationError Session :=
  fail? expires <=? now with Expired ;;
  Ok (mk_session id user org assurance expires None).
Definition revoke (s : Session) (now : Z) : Session :=
  mk_session (session_id s) (session_user_id s) (session_organization_id s) (session_assurance s)
    (session_expires_at s) (Some (default now (revoked_at_unix_seconds s))).
Definition is_active_at (s : Session) (now : Z) : bool :=
  bool_decide (revoked_at_unix_seconds s = None) && (now <? session_expires_at s).

(** ** Lifecycles as step relations *)

Inductive org_step : Organization → Organization → Prop :=
| step_add_owner o user : org_step o (add_owner o user)
| step_remove_owner o user : org_step o (snd (remove_owner o user)).

Inductive org_reachable : Organization → Prop :=
| org_created id name owner o :
    Organization_create id name owner = Ok o → org_reachable o
| org_stepped o o' : org_reachable o → org_step o o' → org_reachable o'.

Inductive user_op := VerifyEmail | Disable.
Definition user_apply (u : User) (op : user_op) : User :=
  match op with VerifyEmail => verify_email u | Disable => disable u end.
#[export] Instance user_op_eq_dec : EqDecision user_op.
Proof. solve_decision. Defined.
#[export] Instance UserStatus_eq_dec : EqDecision UserStatus.
Proof. solve_decision. Defined.

(** A sequence of acceptance attempts on one invitation, in order. *)
Fixpoint accept_all (i : Invitation) (attempts : list (str * Z)) :
    list (result AuthenticationError unit) * Invitation :=
  match attempts with
  | [] => ([], i)
  | (user, now) :: attempts =>
      let '(r, i) := accept i user now in
      let '(rs, i) := accept_all i attempts in
      (r :: rs, i)
  end.

(** ** Lemmas *)

Lemma is_empty_false {A} (l : list A) : (match l with [] => true | _ => false end) = false ↔ l ≠ [].
Proof. destruct l; naive_solver. Qed.

Lemma subset_compute (l1 l2 : list str) :
  forallb (λ p, bool_decide (p ∈ l2)) l1 = true → ∀ p, p ∈ l1 → p ∈ l2.
Proof. rewrite forallb_spec. intros H p Hp. specialize (H p Hp). by apply bool_decide_eq_true in H. Qed.

Lemma Permission_new_built_in role p : p ∈ built_in_names role → Permission_new p = Ok p.
Proof.
  intros Hp.
  assert (H : forallb (λ p, bool_decide (Permission_new p = Ok p)) (built_in_names role) = true)
    by (destruct role; vm_compute; reflexivity).
  rewrite forallb_spec in H. specialize (H p Hp). by apply bool_decide_eq_true in H.
Qed.

Lemma Role_built_in_Ok id role :
  ∃ r, Role_built_in id role = Ok r ∧ role_id r = id ∧ role_built_in r = Some role ∧
       ∀ p, p ∈ role_permissions r ↔ p ∈ built_in_names role.
Proof.
  unfold Role_built_in. rewrite (collect_map_pure _ (λ p, p)).
  - eexists; split; [done|]. split_and!; try done. cbn. intros p.
    by rewrite elem_of_bset_of_list, map_id.
  - apply Permission_new_built_in.
Qed.

Lemma owners_remove o user :
  ssorted (owners o) → length (owners o) ≠ 1%nat → owners o ≠ [] →
  bset_remove user (owners o) ≠ [].
Proof.
  intros Hs Hl Hne. destruct (owners o) as [|x [|y l]]; [done|done|]. intros Hnil.
  assert (∀ z, z ∈ x :: y :: l → z = user) as Hz.
  { intros z Hin. destruct (decide (z = user)) as [|Hn]; [done|].
    assert (z ∈ bset_remove user (x :: y :: l)) as Hr by by apply elem_of_bset_remove.
    rewrite Hnil in Hr. by apply elem_of_nil in Hr. }
  apply ssorted_NoDup in Hs. apply NoDup_cons in Hs as [Hx _]. apply Hx.
  rewrite (Hz x) by set_solver. rewrite <- (Hz y) by set_solver. left.
Qed.

Lemma bset_remove_not_in user (l : list str) : user ∉ l → bset_remove user l = l.
Proof.
  intros H. unfold bset_remove. induction l as [|x l IH]; [done|].
  rewrite filter_cons, decide_True by set_solver. f_equal. apply IH. set_solver.
Qed.

Lemma org_reachable_owners o : org_reachable o → owners o ≠ [] ∧ ssorted (owners o).
Proof.
  induction 1 as [id name owner o H|o o' _ [Hne Hs] Hstep].
  - unfold Organization_create in H. apply fail_Ok in H as [_ [= <-]]. cbn.
    split; [done|apply (bset_of_list_sorted [owner])].
  - destruct Hstep as [o user|o user]; cbn.
    + split; [|by apply bset_insert_sorted].
      intros Hnil. assert (user ∈ bset_insert user (owners o)) as Hin
        by (apply elem_of_bset_insert; by left). rewrite Hnil in Hin. by apply elem_of_nil in Hin.
    + unfold remove_owner. unfold bset_contains.
      destruct (bool_decide (user ∈ owners o)) eqn:Hin, (bool_decide (length (owners o) = 1%nat)) eqn:Hl;
        cbn; bprop; (split; [|try done; by apply bset_remove_sorted]); [done|..].
      * by apply owners_remove.
      * by rewrite bset_remove_not_in.
      * by rewrite bset_remove_not_in.
Qed.

Lemma remove_owner_cases o user :
  ssorted (owners o) →
  (owners o = [user] ∧ remove_owner o user = (Err LastOwner, o)) ∨
  (owners o ≠ [user] ∧ ∃ o', remove_owner o user = (Ok tt, o') ∧
     organization_id o' = organization_id o ∧ organization_name o' = organization_name o ∧
     ∀ x, x ∈ owners o' ↔ x ≠ user ∧ x ∈ owners o).
Proof.
  intros Hs. unfold remove_owner, bset_contains.
  destruct (bool_decide (user ∈ owners o)) eqn:Hin, (bool_decide (length (owners o) = 1%nat)) eqn:Hl;
    cbn; bprop.
  1: left; destruct (owners o) as [|x [|]]; try done; split; [f_equal; set_solver|done].
  all: right; split; [intros Heq; rewrite Heq in *; set_solver|]; eexists; split; [done|];
    split_and!; try done; intros x; cbn; apply elem_of_bset_remove.
Qed.

Lemma accept_cases i user now :
  (accept i user now = (Err AlreadyCompleted, i) ∧ (revoked i = true ∨ is_Some (accepted_by i))) ∨
  (accept i user now = (Err Expired, i) ∧ revoked i = false ∧ accepted_by i = None ∧
     expires_at_unix_seconds i ≤ now) ∨
  (∃ i', accept i user now = (Ok tt, i') ∧ revoked i = false ∧ accepted_by i = None ∧
     now < expires_at_unix_seconds i ∧ accepted_by i' = Some user).
Proof.
  unfold accept. destruct (revoked i); cbn; [left; auto|].
  case_bool_decide as Ha; [left; auto|]. destruct (accepted_by i) as [u|]; [exfalso; eauto|].
  destruct (Z.leb_spec (expires_at_unix_seconds i) now); [by right; left|right; right].
  by eexists; split_and!.
Qed.

Lemma accept_all_done i attempts :
  revoked i = true ∨ is_Some (accepted_by i) →
  accept_all i attempts = (replicate (length attempts) (Err AlreadyCompleted), i).
Proof.
  intros Hd. induction attempts as [|[user now] l IH]; [done|]. cbn.
  destruct (accept_cases i user now) as [[-> _]|[(_ & Hr & Ha & _)|(i' & _ & Hr & Ha & _)]].
  - by rewrite IH.
  - rewrite Hr, Ha in Hd. destruct Hd as [|[? ?]]; done.
  - rewrite Hr, Ha in Hd. destruct Hd as [|[? ?]]; done.
Qed.

Lemma in_snoc (x y : user_op) l :
  bool_decide (x ∈ l ++ [y]) = bool_decide (x ∈ l) || bool_decide (x = y).
Proof.
  rewrite <- bool_decide_or. apply bool_decide_ext. by rewrite elem_of_app, list_elem_of_singleton.
Qed.

Definition ok_count (rs : list (result AuthenticationError unit)) : nat :=
  length (List.filter is_ok rs).

Lemma ok_count_replicate n e : ok_count (replicate n (Err e)) = 0%nat.
Proof. by induction n. Qed.

(** The first attempt that comes before the expiry. *)
Definition first_in_time (i : Invitation) (attempts : list (str * Z)) : option str :=
  fst <$> head (List.filter (λ a, snd a <? expires_at_unix_seconds i) attempts).

(** ** Properties *)

Section domain_properties.
(** Built-in roles.  Every built-in role can be created; their permission
    sets are nested (viewer in member in admin in owner); exactly the owner
    may transfer ownership, and no built-in role holds a system permission. *)
Theorem built_in_roles_nested id :
  ∃ owner admin member viewer,
    Role_built_in id Owner = Ok owner ∧ Role_built_in id Admin = Ok admin ∧
    Role_built_in id Member = Ok member ∧ Role_built_in id Viewer = Ok viewer ∧
    role_permissions viewer ⊆ role_permissions member ∧
    role_permissions member ⊆ role_permissions admin ∧
    (∀ p, p ∈ role_permissions owner ↔
          p ∈ role_permissions admin ∨ p = permissions.OWNERSHIP_TRANSFER) ∧
    (∀ p, p ∈ role_permissions admin → is_restricted_for_custom_role p = false).
Proof.
  destruct (Role_built_in_Ok id Owner) as (ro & ? & _ & _ & Ho).
  destruct (Role_built_in_Ok id Admin) as (ra & ? & _ & _ & Ha).
  destruct (Role_built_in_Ok id Member) as (rm & ? & _ & _ & Hm).
  destruct (Role_built_in_Ok id Viewer) as (rv & ? & _ & _ & Hv).
  exists ro, ra, rm, rv. split_and!; try done.
  - intros p. rewrite Hv, Hm. intros Hp. revert p Hp.
    apply subset_compute. vm_compute. reflexivity.
  - intros p. rewrite Hm, Ha. intros Hp. revert p Hp.
    apply subset_compute. vm_compute. reflexivity.
  - intros p. rewrite Ho, Ha.
    change (built_in_names Owner) with (built_in_names Admin ++ [permissions.OWNERSHIP_TRANSFER]).
    rewrite elem_of_app, list_elem_of_singleton. done.
  - intros p. rewrite Ha.
    assert (H' : forallb (λ p, negb (is_restricted_for_custom_role p)) (built_in_names Admin) = true)
      by (vm_compute; reflexivity).
    rewrite forallb_spec in H'. intros Hp%H'. by apply negb_true_iff.
Qed.

(** Custom roles.  A custom role has exactly the requested permissions,
    none of them restricted; a restricted permission anywhere in the request
    is refused as such, and the only other refusal is a bad name. *)
Theorem custom_role_unprivileged id name perms :
  match Role_custom id name perms with
  | Ok r => role_built_in r = None ∧ role_name r = name ∧
            (∀ p, p ∈ role_permissions r ↔ p ∈ perms) ∧
            (∀ p, p ∈ role_permissions r → is_restricted_for_custom_role p = false)
  | Err e =>
      e = RestrictedPermission ∧ (∃ p, p ∈ perms ∧ is_restricted_for_custom_role p = true) ∨
      e = InvalidValue ∧ (trim name ≠ name ∨ name = [] ∨ 100 < str_len name)
  end.
Proof.
  unfold Role_custom. destruct (negb _ || _ || _) eqn:Hn.
  { right. split; [done|]. bprop. destruct Hn as [[?|Hn]|?]; [by left|right; left|by right; right].
    by destruct name. }
  destruct (existsb _ _) eqn:Hr.
  - left. split; [done|]. apply existsb_spec in Hr as (p & Hp & ?).
    exists p. by rewrite elem_of_bset_of_list in Hp.
  - cbn. rewrite existsb_false_spec in Hr. split_and!; try done. intros p. apply elem_of_bset_of_list.
Qed.

(** An organization that was created with an owner and then went through
    any sequence of owner additions and removals still has an owner. *)
Theorem organization_keeps_owner o : org_reachable o → ∃ user, user ∈ owners o.
Proof.
  intros [Hne _]%org_reachable_owners. destruct (owners o) as [|x l]; [done|]. exists x. left.
Qed.

(** Owner removal.  On a reachable organization, removing [user] fails,
    and changes nothing, exactly when [user] is the only owner; otherwise
    exactly [user] leaves the owner set. *)
Theorem remove_owner_exact o user :
  org_reachable o →
  (owners o = [user] ∧ remove_owner o user = (Err LastOwner, o)) ∨
  (owners o ≠ [user] ∧ ∃ o', remove_owner o user = (Ok tt, o') ∧
     organization_id o' = organization_id o ∧ organization_name o' = organization_name o ∧
     ∀ x, x ∈ owners o' ↔ x ≠ user ∧ x ∈ owners o).
Proof. intros [_ Hs]%org_reachable_owners. by apply remove_owner_cases. Qed.

(** Invitations are single use.  Whatever acceptance attempts are made on
    an open invitation, in whatever order and at whatever times, at most one
    succeeds; the invitation belongs in the end to the first user who tried
    before the expiry, and to nobody if there was none. *)
Theorem invitation_single_use i attempts :
  revoked i = false → accepted_by i = None →
  let '(results, i') := accept_all i attempts in
  accepted_by i' = first_in_time i attempts ∧
  ok_count results = match accepted_by i' with Some _ => 1%nat | None => 0%nat end.
Proof.
  intros Hr Ha. induction attempts as [|[user now] l IH]; cbn; [by rewrite Ha|].
  destruct (accept_cases i user now) as
    [[_ Hd]|[(-> & _ & _ & He)|(i' & -> & _ & _ & He & Hi')]].
  - rewrite Hr, Ha in Hd. destruct Hd as [|[? ?]]; done.
  - destruct (accept_all i l) as [rs i']. unfold first_in_time in *. cbn.
    rewrite (proj2 (Z.ltb_ge _ _)) by done. done.
  - rewrite accept_all_done by (right; by rewrite Hi'). rewrite Hi'.
    unfold first_in_time. cbn. rewrite (proj2 (Z.ltb_lt _ _)) by done. cbn.
    split; [done|]. unfold ok_count. cbn. f_equal. apply ok_count_replicate.
Qed.

(** Sessions.  A new session is active from its creation until its
    expiry; revoking it, any number of times and with any clock, ends it for
    every time, keeps the time of the first revocation and nothing else
    changes. *)
Theorem session_revocation_final id user org assurance expires now s :
  Session_new id user org assurance expires now = Ok s →
  (∀ t, is_active_at s t = true ↔ t < expires) ∧ is_active_at s now = true ∧
  ∀ t1 ts, let s' := foldl revoke s (t1 :: ts) in
    (∀ t, is_active_at s' t = false) ∧
    s' = mk_session id user org assurance expires (Some t1).
Proof.
  unfold Session_new. intros [He [= <-]]%fail_Ok. bprop. split_and!.
  - intros t. unfold is_active_at; cbn. by rewrite Z.ltb_lt.
  - unfold is_active_at; cbn. by apply Z.ltb_lt.
  - intros t1 ts. cbn [foldl].
    assert (Hfix : foldl revoke (revoke (mk_session id user org assurance expires None) t1) ts
      = mk_session id user org assurance expires (Some t1)) by (induction ts; done).
    cbv zeta. rewrite Hfix. done.
Qed.

(** The account lifecycle.  After any sequence of email verifications and
    administrative disablements of a registered account, the account is
    disabled if it was ever disabled, active if it was verified and never
    disabled, and still pending otherwise: no verification re-enables a
    disabled account. *)
Theorem user_lifecycle id email u ops :
  User_register id email = Ok u →
  let u' := foldl user_apply u ops in
  user_id u' = id ∧ primary_email u' = email ∧
  user_status u' = if bool_decide (Disable ∈ ops) then Disabled
                   else if bool_decide (VerifyEmail ∈ ops) then UserActive
                   else PendingVerification.
Proof.
  unfold User_register. intros ([] & _ & [= <-])%rbind_Ok. cbv zeta.
  induction ops as [|op ops IH] using rev_ind; [done|].
  rewrite foldl_app. cbn [foldl]. destruct IH as (Hi & He & Hs).
  set (u := foldl _ _ ops) in *. rewrite !in_snoc.
  destruct op; cbn; [|split_and!; try done; by rewrite orb_true_r].
  unfold verify_email. rewrite orb_false_r, orb_true_r.
  destruct (bool_decide (Disable ∈ ops)), (bool_decide (VerifyEmail ∈ ops)); rewrite Hs; cbn; auto.
Qed.
End domain_properties.

Section email_properties.
(** An email address is accepted exactly when it has no surrounding
    blanks and no control characters, at most 320 bytes, and its first [@]
    splits it into a non-empty local part and a domain with a dot. *)
Theorem validate_email_iff value :
  validate_email value = Ok tt ↔
  trim value = value ∧ str_len value ≤ 320 ∧ (∀ c, c ∈ value → is_control c = false) ∧
  ∃ local domain, value = local ++ [64] ++ domain ∧ (64 ∉ local) ∧ local ≠ [] ∧ 46 ∈ domain.
Proof.
  unfold validate_email. rewrite fail_Ok, !orb_false_iff, existsb_false_spec.
  rewrite negb_false_iff, bool_decide_eq_true, Z.ltb_ge.
  assert (Hs : (match split_once 64 value with
    | None => true
    | Some (local, domain) => is_empty local || is_empty domain || negb (contains_char 46 domain)
    end) = false ↔
    ∃ local domain, value = local ++ [64] ++ domain ∧ (64 ∉ local) ∧ local ≠ [] ∧ 46 ∈ domain);
    [|rewrite Hs; tauto].
  split.
  - destruct (split_once 64 value) as [[local domain]|] eqn:E; [|done].
    apply split_once_Some in E as [-> ?]. rewrite !orb_false_iff, negb_false_iff, contains_char_spec.
    intros [[? _] ?]. exists local, domain. split_and!; try done. by destruct local.
  - intros (local & domain & Hv & Hn & Hne & Hdot).
    rewrite (proj2 (split_once_Some 64 value local domain)) by done.
    rewrite (proj2 (contains_char_spec 46 domain)) by done.
    destruct local, domain; try done. by apply elem_of_nil in Hdot.
Qed.
End email_properties.

Section domain_witnesses.
Definition acme := mk_organization (lit "o1") (lit "Acme") OrganizationActive [lit "u1"].

Lemma acme_reachable : org_reachable acme.
Proof. eapply (org_created (lit "o1") (lit "Acme") (lit "u1")). vm_compute. reflexivity. Qed.

Lemma organization_keeps_owner_witness : ∃ user, user ∈ owners (snd (remove_owner acme (lit "u1"))).
Proof.
  apply (organization_keeps_owner (snd (remove_owner acme (lit "u1")))).
  eapply org_stepped; [exact acme_reachable|constructor].
Defined.

Lemma remove_owner_exact_witness : remove_owner acme (lit "u1") = (Err LastOwner, acme).
Proof.
  destruct (remove_owner_exact acme (lit "u1") acme_reachable) as [[_ H]|[H _]]; [exact H|].
  exfalso. apply H. reflexivity.
Defined.

Definition open_invitation :=
  mk_invitation (lit "i1") (lit "o1") (lit "a@b.c") [lit "r1"] 100 None false.

Lemma invitation_single_use_witness :
  accepted_by (snd (accept_all open_invitation [(lit "late", 100); (lit "ana", 99); (lit "bob", 50)]))
  = Some (lit "ana").
Proof.
  pose proof (invitation_single_use open_invitation
    [(lit "late", 100); (lit "ana", 99); (lit "bob", 50)] eq_refl eq_refl) as H.
  destruct (accept_all open_invitation _) as [rs i']. cbn [snd].
  destruct H as [H _]. rewrite H. vm_compute. reflexivity.
Defined.

Lemma session_revocation_final_witness :
  is_active_at (revoke (mk_session (lit "s") (lit "u") None Aal2 50 None) 10) 11 = false.
Proof.
  refine (proj1 (proj2 (proj2 (session_revocation_final (lit "s") (lit "u") None Aal2 50 10
    (mk_session (lit "s") (lit "u") None Aal2 50 None) _)) 10 []) 11). vm_compute. reflexivity.
Defined.

Lemma user_lifecycle_witness :
  user_status (foldl user_apply (mk_user (lit "u") (lit "a@b.c") PendingVerification)
                 [VerifyEmail; Disable; VerifyEmail]) = Disabled.
Proof.
  refine (proj2 (proj2 (user_lifecycle (lit "u") (lit "a@b.c")
    (mk_user (lit "u") (lit "a@b.c") PendingVerification) [VerifyEmail; Disable; VerifyEmail] _))).
  vm_compute. reflexivity.
Defined.
End domain_witnesses.
