(* ===== verification/MailMessage.v ===== *)
(** * MailMessage: transactional mail

    Models src/crates/wasi-auth/src/mail.rs up to the delivery adapters: the
    bounded recipient, product name and action URL, the startup-validated
    configuration, message construction, the rendered text and HTML bodies and
    their escaping. *)

From S2P Require Export Collections.
Open Scope Z_scope.

Inductive EmailKind := Verification | PasswordReset | InvitationMail | SecurityNotification.

Inductive MailMessageError := InvalidRecipient | InvalidSubject | InvalidBody.
Inductive TransactionalMailConfigError := InvalidProductName | InvalidActionUrl | InvalidActionToken.

Definition Recipient_new (value : str) : result MailMessageError str :=
  fail? negb (bool_decide (trim value = value)) || (320 <? str_len value)
        || existsb is_control value
        || match split_once 64 value with
           | None => true
           | Some (local, domain) =>
               is_empty local || is_empty domain || negb (contains_char 46 domain)
           end with InvalidRecipient ;;
  Ok value.

Definition MailProductName_new (value : str) : result TransactionalMailConfigError str :=
  fail? is_empty value || (80 <? str_len value) || negb (bool_decide (trim value = value))
        || existsb is_control value with InvalidProductName ;;
  Ok value.

(** ** Action URLs *)

(** [split(['/', '?']).next()] of what follows the scheme. *)
Definition url_authority (remainder : str) : str :=
  default [] (head (split_by (one_of [47; 63]) remainder)).
Definition url_host (authority : str) : str :=
  let fallback := default [] (head (split_char 58 authority)) in
  match strip_prefix [91] authority with
  | Some v => match split_once 93 v with Some (host, _) => host | None => fallback end
  | None => fallback
  end.
Definition loopback_host (host : str) : bool :=
  bool_decide (host ∈ [lit "localhost"; lit "127.0.0.1"; lit "::1"]).

Definition HTTPS : str := lit "https://".
Definition HTTP : str := lit "http://".

Definition MailActionUrl_new (value : str) : result TransactionalMailConfigError str :=
  fail? is_empty value || (2048 <? str_len value) || existsb is_whitespace value
        || contains_char 35 value with InvalidActionUrl ;;
  let? (secure, remainder) :=
    match strip_prefix HTTPS value with
    | Some remainder => Ok (true, remainder)
    | None =>
        match strip_prefix HTTP value with
        | Some remainder => Ok (false, remainder)
        | None => Err InvalidActionUrl
        end
    end in
  let authority := url_authority remainder in
  fail? is_empty authority || contains_char 64 authority with InvalidActionUrl ;;
  fail? negb secure && negb (loopback_host (url_host authority)) with InvalidActionUrl ;;
  Ok value.

(** ** Rendering *)

Definition html_escape_char (c : char) : str :=
  if c =? 38 then lit "&amp;"
  else if c =? 60 then lit "&lt;"
  else if c =? 62 then lit "&gt;"
  else if c =? 34 then lit "&quot;"
  else if c =? 39 then lit "&#39;"
  else [c].
Definition html_escape (value : str) : str := value ≫= html_escape_char.

Record MailCopy := mk_copy { subject : str; heading : str; intro : str; cta : str; ignore : str }.
Definition mail_copy (kind : EmailKind) (product : str) : MailCopy :=
  match kind with
  | Verification => mk_copy
      (lit "Verify your email for " ++ product)
      (lit "Verify your email")
      (lit "Thanks for signing up for " ++ product ++ lit ". Confirm this email address so we can finish creating your account and keep it secure.")
      (lit "Verify email address")
      (lit "If you did not create an account, you can ignore this message. No account will be activated without verification.")
  | PasswordReset => mk_copy
      (lit "Reset your " ++ product ++ lit " password")
      (lit "Reset your password")
      (lit "We received a request to reset the password for your " ++ product ++ lit " account. Use the button below within the next hour to choose a new password.")
      (lit "Reset password")
      (lit "If you did not request a password reset, you can ignore this message. Your password will stay the same.")
  | InvitationMail => mk_copy
      (lit "You are invited to join a " ++ product ++ lit " organization")
      (lit "Organization invitation")
      (lit "You have been invited to join an organization on " ++ product ++ lit ". Open the link below, sign in with this email address, then accept the invitation.")
      (lit "Accept invitation")
      (lit "If you were not expecting this invitation, you can ignore this message.")
  | SecurityNotification => mk_copy
      (lit "Security notice from " ++ product)
      (lit "Security notice")
      (lit "A security-sensitive change was made on your " ++ product ++ lit " account. Review your account if this was not you.")
      (lit "Review account")
      (lit "If you do not recognize this activity, change your password and review active sessions immediately.")
  end.

Definition nl : str := [10].
Definition text_page (c : MailCopy) (action_url product : str) : str :=
  lit "Hi," ++ nl ++ nl ++ intro c ++ nl ++ nl ++ cta c ++ lit ":" ++ nl ++ action_url ++ nl ++ nl
  ++ lit "If the button or link above does not work, copy and paste the full URL into your browser."
  ++ nl ++ nl ++ ignore c ++ nl ++ nl ++ [8212] ++ nl ++ product ++ nl
  ++ lit "This is an automated message; replies are not monitored." ++ nl.

(** The HTML template: literal markup, where a backquote stands for the
    double quote, and the holes that [format!] fills. *)
Inductive Hole := HSubject | HIntro | HProduct | HHeading | HUrl | HCta | HIgnore.
Inductive Piece := Raw (line : string) | Fill (hole : Hole).
Definition html_template : list Piece :=
  [Raw "<!DOCTYPE html>
<html lang=`en`>
<head>
  <meta charset=`utf-8`>
  <meta name=`viewport` content=`width=device-width, initial-scale=1`>
  <meta name=`color-scheme` content=`light`>
  <meta name=`supported-color-schemes` content=`light`>
  <title>"; Fill HSubject; Raw "</title>
</head>
<body style=`margin:0;padding:0;background:#f4f4f5;font-family:-apple-system,BlinkMacSystemFont,'Segoe UI',Helvetica,Arial,sans-serif;color:#18181b;-webkit-font-smoothing:antialiased;`>
  <div style=`display:none;max-height:0;overflow:hidden;opacity:0;color:transparent;`>
    "; Fill HIntro; Raw "
  </div>
  <table role=`presentation` width=`100%` cellspacing=`0` cellpadding=`0` border=`0` style=`background:#f4f4f5;padding:32px 16px;`>
    <tr><td align=`center`>
      <table role=`presentation` width=`100%` cellspacing=`0` cellpadding=`0` border=`0` style=`max-width:560px;background:#ffffff;border:1px solid #e4e4e7;border-radius:12px;`>
        <tr><td style=`padding:28px 28px 8px;font-size:12px;font-weight:600;letter-spacing:0.08em;text-transform:uppercase;color:#71717a;`>"; Fill HProduct; Raw "</td></tr>
        <tr><td style=`padding:8px 28px 0;font-size:22px;font-weight:600;letter-spacing:-0.02em;line-height:1.25;color:#18181b;`>"; Fill HHeading; Raw "</td></tr>
        <tr><td style=`padding:14px 28px 0;font-size:15px;line-height:1.65;color:#52525b;`>"; Fill HIntro; Raw "</td></tr>
        <tr><td style=`padding:28px 28px 0;` align=`left`>
          <a href=`"; Fill HUrl; Raw "` style=`display:inline-block;background:#18181b;color:#ffffff;text-decoration:none;font-size:14px;font-weight:600;line-height:1;padding:14px 20px;border-radius:8px;`>"; Fill HCta; Raw "</a>
        </td></tr>
        <tr><td style=`padding:24px 28px 0;font-size:13px;line-height:1.55;color:#71717a;`>Button not working? Copy and paste this link into your browser:</td></tr>
        <tr><td style=`padding:8px 28px 0;font-size:13px;line-height:1.5;word-break:break-all;`><a href=`"; Fill HUrl; Raw "` style=`color:#18181b;text-decoration:underline;`>"; Fill HUrl; Raw "</a></td></tr>
        <tr><td style=`padding:28px;border-top:1px solid #e4e4e7;font-size:12px;line-height:1.55;color:#a1a1aa;`>"; Fill HIgnore; Raw "<br><br>This is an automated message from "; Fill HProduct; Raw ".</td></tr>
      </table>
    </td></tr>
  </table>
</body>
</html>"].

Definition raw_text (line : string) : str := map (λ c, if c =? 96 then 34 else c) (lit line).
Definition hole_value (c : MailCopy) (action_url product : str) (h : Hole) : str :=
  match h with
  | HSubject => subject c | HIntro => intro c | HProduct => product | HHeading => heading c
  | HUrl => action_url | HCta => cta c | HIgnore => ignore c
  end.
Definition piece_text (c : MailCopy) (action_url product : str) (p : Piece) : str :=
  match p with
  | Raw line => raw_text line
  | Fill h => html_escape (hole_value c action_url product h)
  end.
Definition html_page (c : MailCopy) (action_url product : str) : str :=
  html_template ≫= piece_text c action_url product.

Record RenderedTransactionalMail := mk_rendered {
  rendered_subject : str;
  rendered_text : str;
  rendered_html : str;
}.
Definition render_transactional_mail (kind : EmailKind) (action_url product_name : str) :
    RenderedTransactionalMail :=
  let product := if is_empty (trim product_name) then lit "Goldcoders" else trim product_name in
  let c := mail_copy kind product in
  mk_rendered (subject c) (text_page c action_url product) (html_page c action_url product).

(** ** Configuration *)

Record TransactionalMailConfig := mk_mail_config {
  product_name : str;
  public_base_url : str;
}.

(** [value.trim_end_matches('/')] *)
Definition trim_end_slashes (value : str) : str := reverse (drop_while (λ c, c =? 47) (reverse value)).
(** What follows the first [pat]: [value[value.find(pat)? + pat.len()..]]. *)
Fixpoint after_first (pat value : str) : option str :=
  match strip_prefix pat value with
  | Some r => Some r
  | None => match value with [] => None | _ :: value => after_first pat value end
  end.

Definition TransactionalMailConfig_new (product base : str) :
    result TransactionalMailConfigError TransactionalMailConfig :=
  let trimmed := trim_end_slashes base in
  let? _url := MailActionUrl_new (trimmed ++ [47]) in
  let? rest := ok_or (after_first (lit "://") trimmed) InvalidActionUrl in
  fail? existsb (one_of [47; 63; 35]) rest with InvalidActionUrl ;;
  Ok (mk_mail_config product trimmed).

Definition action_path (kind : EmailKind) : str :=
  lit match kind with
      | Verification => "/verify-email"
      | PasswordReset => "/reset-password"
      | InvitationMail => "/invitations/accept"
      | SecurityNotification => "/account/security"
      end.

Definition render (c : TransactionalMailConfig) (kind : EmailKind) (token : str) :
    result TransactionalMailConfigError (str * RenderedTransactionalMail) :=
  fail? is_empty token || (1024 <? str_len token) || existsb is_control token
        || existsb (one_of [38; 35]) token with InvalidActionToken ;;
  let? action_url := MailActionUrl_new (public_base_url c ++ action_path kind ++ lit "?token=" ++ token) in
  Ok (action_url, render_transactional_mail kind action_url (product_name c)).

(** ** Messages *)

Record EmailMessage := mk_mail {
  mail_kind : EmailKind;
  mail_recipient : str;
  mail_subject : str;
  mail_text_body : str;
  mail_html_body : option str;
  mail_action_url : option str;
  mail_correlation_id : str;
}.
Definition EmailMessage_new (kind : EmailKind) (recipient subject text_body correlation_id : str) :
    result MailMessageError EmailMessage :=
  fail? is_empty subject || (200 <? str_len subject) || existsb is_control subject
    with InvalidSubject ;;
  fail? is_empty text_body || (128 * 1024 <? str_len text_body) with InvalidBody ;;
  Ok (mk_mail kind recipient subject text_body None None correlation_id).
Definition with_html_body (m : EmailMessage) (html_body : str) : result MailMessageError EmailMessage :=
  fail? is_empty html_body || (128 * 1024 <? str_len html_body) with InvalidBody ;;
  Ok (mk_mail (mail_kind m) (mail_recipient m) (mail_subject m) (mail_text_body m) (Some html_body)
        (mail_action_url m) (mail_correlation_id m)).
Definition with_action_url (m : EmailMessage) (url : str) : EmailMessage :=
  mk_mail (mail_kind m) (mail_recipient m) (mail_subject m) (mail_text_body m) (mail_html_body m)
    (Some url) (mail_correlation_id m).

(** [str::lines], whose trailing carriage returns the caller trims anyway. *)
Definition first_http_url (text : str) : option str :=
  head (omap (λ line,
      List.find (λ part, starts_with HTTP part || starts_with HTTPS part)
        (List.filter (λ part, negb (is_empty part)) (split_by is_whitespace (trim line))))
    (split_char 10 text)).
Definition action_url (m : EmailMessage) : option str :=
  match mail_action_url m with Some url => Some url | None => first_http_url (mail_text_body m) end.

(** ** Lemmas *)

(** The characters that delimit tags and attribute values. *)
Definition is_markup (c : char) : bool := one_of [60; 62; 34; 39] c.

Lemma filterb_bind {A B} (p : B → bool) (f : A → list B) l :
  List.filter p (l ≫= f) = l ≫= (λ x, List.filter p (f x)).
Proof.
  induction l as [|x l IH]; [done|]. cbn. by rewrite List.filter_app, IH.
Qed.

Lemma escape_char_no_markup c : List.filter is_markup (html_escape_char c) = [].
Proof.
  unfold html_escape_char. repeat case_match; try (vm_compute; reflexivity).
  cbn. unfold is_markup, one_of. rewrite bool_decide_false; [done|].
  bprop. rewrite !elem_of_cons, elem_of_nil. tauto.
Qed.

Lemma escape_no_markup s : List.filter is_markup (html_escape s) = [].
Proof.
  unfold html_escape. rewrite filterb_bind. induction s as [|c s IH]; [done|]. cbn.
  by rewrite escape_char_no_markup.
Qed.

Lemma escape_char_prefix c1 c2 r1 r2 :
  html_escape_char c1 ++ r1 = html_escape_char c2 ++ r2 → c1 = c2 ∧ r1 = r2.
Proof.
  unfold html_escape_char. intros H.
  repeat match type of H with
         | context [if ?b then _ else _] => destruct b eqn:?
         end; bprop; subst; cbn in H; injection H; intros; subst; first [done | congruence | lia].
Qed.

Lemma html_escape_inj s1 s2 : html_escape s1 = html_escape s2 → s1 = s2.
Proof.
  assert (Hne : ∀ c r, html_escape_char c ++ r ≠ []).
  { intros c r. unfold html_escape_char. repeat case_match; done. }
  revert s2. induction s1 as [|c1 s1 IH]; intros [|c2 s2] H; cbn in H; [done|..].
  - by destruct (Hne c2 (html_escape s2)).
  - by destruct (Hne c1 (html_escape s1)).
  - apply escape_char_prefix in H as [-> H]. f_equal. auto.
Qed.

Lemma split_by_head_app p a c r :
  forallb (λ x, negb (p x)) a = true → p c = true → head (split_by p (a ++ c :: r)) = Some a.
Proof.
  intros Ha Hc. induction a as [|x a IH]; cbn in *; [by rewrite Hc|].
  apply andb_true_iff in Ha as [Hx Ha]. apply negb_true_iff in Hx. rewrite Hx.
  specialize (IH Ha). destruct (split_by p (a ++ c :: r)) as [|w ws]; cbn in *; congruence.
Qed.

Lemma url_authority_app a c r :
  existsb (one_of [47; 63; 35]) a = false → c ∈ [47; 63] → url_authority (a ++ c :: r) = a.
Proof.
  intros Ha Hc. unfold url_authority. rewrite split_by_head_app; [done|..].
  - apply forallb_spec. intros x Hx. rewrite existsb_false_spec in Ha. specialize (Ha x Hx).
    unfold one_of in *. bprop. set_solver.
  - unfold one_of. by apply bool_decide_eq_true.
Qed.

(** What an accepted URL looks like. *)
Lemma MailActionUrl_new_Ok value v :
  MailActionUrl_new value = Ok v →
  v = value ∧ ∃ scheme remainder, value = scheme ++ remainder ∧
    url_authority remainder ≠ [] ∧ (64 ∉ url_authority remainder) ∧
    (scheme = HTTPS ∨ scheme = HTTP ∧ loopback_host (url_host (url_authority remainder)) = true).
Proof.
  unfold MailActionUrl_new. intros H. apply fail_Ok in H as [_ H].
  apply rbind_Ok in H as ([secure remainder] & Hs & H). cbv zeta in H.
  apply fail_Ok in H as [Ha H]. apply fail_Ok in H as [Hl [= <-]]. split; [done|].
  apply orb_false_iff in Ha as [Ha Hat].
  assert (url_authority remainder ≠ [] ∧ 64 ∉ url_authority remainder) as [Hne Hno].
  { split; [by intros E; rewrite E in Ha|]. intros Hin.
    by rewrite (proj2 (contains_char_spec _ _) Hin) in Hat. }
  destruct (strip_prefix HTTPS value) as [r|] eqn:E1.
  - injection Hs as <- <-. exists HTTPS, r. apply strip_prefix_Some in E1. eauto 6.
  - destruct (strip_prefix HTTP value) as [r|] eqn:E2; [|done]. injection Hs as <- <-.
    exists HTTP, r. apply strip_prefix_Some in E2. apply negb_false_iff in Hl. eauto 8.
Qed.

(** The configured origin: a scheme and an authority, nothing after it. *)
Record origin_parts (base scheme authority : str) : Prop := {
  op_base : base = scheme ++ authority;
  op_scheme : scheme = HTTPS ∨ scheme = HTTP ∧ loopback_host (url_host authority) = true;
  op_nonempty : authority ≠ [];
  op_no_user : 64 ∉ authority;
  op_bare : existsb (one_of [47; 63; 35]) authority = false;
}.

Lemma TransactionalMailConfig_new_Ok product base c :
  TransactionalMailConfig_new product base = Ok c →
  product_name c = product ∧ ∃ scheme authority, origin_parts (public_base_url c) scheme authority.
Proof.
  unfold TransactionalMailConfig_new. cbv zeta. set (trimmed := trim_end_slashes base). intros H.
  apply rbind_Ok in H as (u & Hu & H). apply rbind_Ok in H as (rest & Hr & H).
  apply fail_Ok in H as [Hb [= <-]]. split; [done|]. cbn.
  apply MailActionUrl_new_Ok in Hu as (-> & scheme & remainder & E & Hne & Hno & Hs).
  assert (∃ a, remainder = a ++ [47] ∧ trimmed = scheme ++ a) as (a & -> & Et).
  { destruct remainder as [|z l _] using rev_ind; [done|]. rewrite app_assoc in E.
    apply app_inj_tail in E as [-> <-]. eauto. }
  assert (rest = a) as ->.
  { rewrite Et in Hr. destruct Hs as [->|[-> _]]; cbn in Hr; by injection Hr as <-. }
  rewrite url_authority_app in Hne, Hno, Hs by (done || left).
  exists scheme, a. by constructor.
Qed.

Section mail_properties.
(** Mail links stay on the configured origin.  A configuration that was
    accepted names a scheme and an authority without credentials, path, query
    or fragment, HTTPS unless the host is loopback; every message it renders,
    whatever the token, links to that authority, under the path of its kind,
    and its text shows the link on a line of its own. *)
Theorem mail_links_stay_on_origin product base c kind token url mail :
  TransactionalMailConfig_new product base = Ok c → render c kind token = Ok (url, mail) →
  ∃ scheme authority, origin_parts (public_base_url c) scheme authority ∧
    url = scheme ++ authority ++ action_path kind ++ lit "?token=" ++ token ∧
    url_authority (authority ++ action_path kind ++ lit "?token=" ++ token) = authority ∧
    mail = render_transactional_mail kind url product ∧
    ∃ before after, rendered_text mail = before ++ nl ++ url ++ nl ++ after.
Proof.
  intros (<- & scheme & authority & Ho)%TransactionalMailConfig_new_Ok H.
  unfold render in H. apply fail_Ok in H as [_ H]. apply rbind_Ok in H as (u & Hu & [= <- <-]).
  apply MailActionUrl_new_Ok in Hu as [-> _]. exists scheme, authority.
  split_and!; [done|by rewrite (op_base _ _ _ Ho), <- app_assoc| |done|].
  - destruct kind; (apply (url_authority_app authority 47); [by destruct Ho|left]).
  - unfold render_transactional_mail, rendered_text, text_page.
    match goal with |- ∃ _ _, lit "Hi," ++ nl ++ nl ++ ?i ++ nl ++ nl ++ ?t ++ ?col ++ nl ++ ?u ++ nl ++ ?r = _ =>
      exists (lit "Hi," ++ nl ++ nl ++ i ++ nl ++ nl ++ t ++ col), r end.
    by rewrite <- !app_assoc.
Qed.

(** The HTML page is inert in its data.  The sequence of tag and quote
    characters of the page is the same for every message, whatever the product
    name and the URL contain, and escaping loses nothing: two different values
    are never displayed alike. *)
Theorem mail_html_inert kind1 kind2 url1 url2 product1 product2 :
  List.filter is_markup (rendered_html (render_transactional_mail kind1 url1 product1)) =
  List.filter is_markup (rendered_html (render_transactional_mail kind2 url2 product2)) ∧
  (html_escape url1 = html_escape url2 → url1 = url2).
Proof.
  split; [|apply html_escape_inj].
  unfold render_transactional_mail, rendered_html, html_page. rewrite !filterb_bind.
  induction html_template as [|[line|h] l IH]; [done|..]; cbn [mbind list_bind piece_text].
  - f_equal. exact IH.
  - rewrite !escape_no_markup. exact IH.
Qed.

Lemma mail_links_stay_on_origin_witness :
  ∃ scheme authority, origin_parts (lit "https://app.example") scheme authority.
Proof.
  destruct (mail_links_stay_on_origin (lit "Acme") (lit "https://app.example//")
    (mk_mail_config (lit "Acme") (lit "https://app.example")) PasswordReset (lit "t0ken@/?")
    (lit "https://app.example/reset-password?token=t0ken@/?")
    (render_transactional_mail PasswordReset
       (lit "https://app.example/reset-password?token=t0ken@/?") (lit "Acme")))
    as (scheme & authority & H & _).
  - vm_compute. reflexivity.
  - vm_compute. reflexivity.
  - exists scheme, authority. exact H.
Defined.

(** The host of a bracketed authority is what stands between the brackets;
    what follows the closing bracket is not looked at. *)
Example bracketed_suffix_accepted :
  MailActionUrl_new (lit "http://[::1].evil.example/") = Ok (lit "http://[::1].evil.example/").
Proof. vm_compute. reflexivity. Qed.
End mail_properties.
