(* ===== verification/UnitOfWork.v ===== *)
(** * UnitOfWork: atomic, idempotent commits

    Models the bounded mutation of src/crates/wasi-auth/src/authentication.rs
    ([AuthMutation] and its parts) and the transaction boundary
    [AtomicTestUnitOfWork] of src/crates/wasi-auth/src/testkit.rs, the
    reference implementation of the [AuthUnitOfWork] port: a staged copy, a
    failure that a test can inject after each stage, receipts by idempotency
    key.  The locks are taken one after the other by one thread, so they are
    never poisoned and the store is a plain value.

    The specification is a log of the committed mutations ([spec_commit]); the
    refinement theorem says that [commit] is a commit on that log. *)

From S2P Require Export Domain MailMessage.
Open Scope Z_scope.

Definition MAX_TRANSACTION_ITEMS : nat := 1024.

(** ** authentication.rs: mutations *)

Inductive CredentialKind := Password | OAuth | Passkey | Totp | RecoveryCode.
Record CredentialDescriptor := mk_credential {
  credential_id : str;
  credential_user_id : str;
  credential_kind : CredentialKind;
  secret_version : Z;
}.

(** [SecretMaterial::new]; the bytes are those [expose] returns. *)
Definition SecretMaterial_new (bytes : list Z) : result AuthenticationError (list Z) :=
  fail? match bytes with [] => true | _ => false end with InvalidValue ;; Ok bytes.

Record SanitizedEvent := mk_event {
  aggregate_type : str;
  aggregate_id : str;
  expected_revision : Z;
  event_type : str;
  payload_json : str;
}.

Inductive ProjectionKind :=
| PUser | POrganization | PMembership | PInvitation | PRole | PSession
| PProviderConfiguration | PRedirectAllowlist | PSigningKey | PPolicyBundle.
Inductive ProjectionMutation :=
| ProjectionUpsert (projection : ProjectionKind) (key value_json : str)
| ProjectionDelete (projection : ProjectionKind) (key : str).
Inductive SecretMutation :=
| SecretPut (credential : CredentialDescriptor) (material : list Z)
| SecretDelete (credential_id : str).

Inductive RelationshipOperation := Grant | Revoke.
Record RelationshipOutboxIntent := mk_intent {
  intent_operation : RelationshipOperation;
  intent_resource : str;
  intent_relation : str;
  intent_subject : str;
  resource_revision : Z;
  intent_consistency_token : option str;
}.
Definition deny_while_pending (i : RelationshipOutboxIntent) : bool :=
  match intent_operation i with Revoke => true | Grant => false end.

Inductive OutboxIntent :=
| Mail (message : EmailMessage)
| Relationship (intent : RelationshipOutboxIntent).

Record AuthMutation := mk_mutation {
  idempotency_key : str;
  operation : str;
  request_hash : list Z;
  events : list SanitizedEvent;
  projections : list ProjectionMutation;
  secrets : list SecretMutation;
  outbox_intents : list OutboxIntent;
}.
Definition AuthMutation_new (key op : str) (hash : list Z) (es : list SanitizedEvent)
    (ps : list ProjectionMutation) (ss : list SecretMutation) (os : list OutboxIntent) :
    result AuthenticationError AuthMutation :=
  fail? is_empty op || (128 <? str_len op) || negb (forallb permission_byte (str_bytes op))
        || match es with [] => true | _ => false end
        || existsb (λ n, bool_decide (MAX_TRANSACTION_ITEMS < n)%nat)
             [length es; length ps; length ss; length os] with InvalidValue ;;
  Ok (mk_mutation key op hash es ps ss os).

Record CommitReceipt := mk_receipt { revision : Z; replayed : bool }.

(** ** testkit.rs: the atomic store *)

Inductive CommitStage := SEvents | SProjections | SSecrets | SOutbox.
#[export] Instance CommitStage_eq_dec : EqDecision CommitStage.
Proof. solve_decision. Defined.

Inductive AtomicTestStoreError :=
| Injected (stage : CommitStage)
| LockUnavailable
| IdempotencyConflict.

Inductive CapturedOutboxIntent :=
| CapturedMail (kind : EmailKind) (correlation_id : str)
| CapturedRelationship (intent : RelationshipOutboxIntent).

Record StoredReceipt := mk_stored {
  stored_operation : str;
  stored_hash : list Z;
  stored_receipt : CommitReceipt;
}.
Record AtomicTestState := mk_state {
  st_revision : Z;
  st_receipts : bmap StoredReceipt;
  st_events : list SanitizedEvent;
  st_projections : list ProjectionMutation;
  st_secrets : bmap (list Z);
  st_outbox : list CapturedOutboxIntent;
}.
Definition initial : AtomicTestState := mk_state 0 [] [] [] [] [].

Record AtomicTestUnitOfWork := mk_store {
  state : AtomicTestState;
  fail_next : option CommitStage;
}.

Definition fail_next_at (u : AtomicTestUnitOfWork) (stage : CommitStage) : AtomicTestUnitOfWork :=
  mk_store (state u) (Some stage).

(** [fail_if_requested]: the request is consumed when it fires. *)
Definition fail_if_requested (requested : option CommitStage) (stage : CommitStage) :
    result AtomicTestStoreError unit * option CommitStage :=
  if bool_decide (requested = Some stage) then (Err (Injected stage), None) else (Ok tt, requested).

Definition apply_secret (m : bmap (list Z)) (s : SecretMutation) : bmap (list Z) :=
  match s with
  | SecretPut c material => bmap_insert (credential_id c) material m
  | SecretDelete id => bmap_remove id m
  end.
Definition capture (o : OutboxIntent) : CapturedOutboxIntent :=
  match o with
  | Mail m => CapturedMail (mail_kind m) (mail_correlation_id m)
  | Relationship r => CapturedRelationship r
  end.

(** The staged copy after each stage. *)
Definition stage_events (s : AtomicTestState) (m : AuthMutation) : AtomicTestState :=
  mk_state (st_revision s) (st_receipts s) (st_events s ++ events m) (st_projections s)
    (st_secrets s) (st_outbox s).
Definition stage_projections (s : AtomicTestState) (m : AuthMutation) : AtomicTestState :=
  mk_state (st_revision s) (st_receipts s) (st_events s) (st_projections s ++ projections m)
    (st_secrets s) (st_outbox s).
Definition stage_secrets (s : AtomicTestState) (m : AuthMutation) : AtomicTestState :=
  mk_state (st_revision s) (st_receipts s) (st_events s) (st_projections s)
    (foldl apply_secret (st_secrets s) (secrets m)) (st_outbox s).
Definition stage_outbox (s : AtomicTestState) (m : AuthMutation) : AtomicTestState :=
  mk_state (st_revision s) (st_receipts s) (st_events s) (st_projections s)
    (st_secrets s) (st_outbox s ++ map capture (outbox_intents m)).
Definition stage_receipt (s : AtomicTestState) (m : AuthMutation) :
    CommitReceipt * AtomicTestState :=
  let revision := u64_saturating_add (st_revision s) (Z.of_nat (length (events m))) in
  let receipt := mk_receipt revision false in
  (receipt,
   mk_state revision
     (bmap_insert (idempotency_key m) (mk_stored (operation m) (request_hash m) receipt) (st_receipts s))
     (st_events s) (st_projections s) (st_secrets s) (st_outbox s)).

Definition commit (u : AtomicTestUnitOfWork) (m : AuthMutation) :
    result AtomicTestStoreError CommitReceipt * AtomicTestUnitOfWork :=
  match bmap_get (idempotency_key m) (st_receipts (state u)) with
  | Some stored =>
      if negb (bool_decide (stored_operation stored = operation m))
         || negb (bool_decide (stored_hash stored = request_hash m))
      then (Err IdempotencyConflict, u)
      else (Ok (mk_receipt (revision (stored_receipt stored)) true), u)
  | None =>
      let staged := stage_events (state u) m in
      match fail_if_requested (fail_next u) SEvents with
      | (Err e, f) => (Err e, mk_store (state u) f)
      | (Ok _, f) =>
      let staged := stage_projections staged m in
      match fail_if_requested f SProjections with
      | (Err e, f) => (Err e, mk_store (state u) f)
      | (Ok _, f) =>
      let staged := stage_secrets staged m in
      match fail_if_requested f SSecrets with
      | (Err e, f) => (Err e, mk_store (state u) f)
      | (Ok _, f) =>
      let staged := stage_outbox staged m in
      match fail_if_requested f SOutbox with
      | (Err e, f) => (Err e, mk_store (state u) f)
      | (Ok _, f) =>
          let '(receipt, staged) := stage_receipt staged m in
          (Ok receipt, mk_store staged f)
      end end end end
  end.

(** ** The specification: a log of committed mutations *)

Definition total_events (log : list AuthMutation) : Z :=
  Z.of_nat (length (log ≫= events)).
Definition spec_revision (log : list AuthMutation) : Z := Z.min u64_max (total_events log).

(** The log up to and including the mutation with the given key. *)
Fixpoint log_upto (key : str) (log : list AuthMutation) : option (AuthMutation * list AuthMutation) :=
  match log with
  | [] => None
  | m :: log =>
      if bool_decide (idempotency_key m = key) then Some (m, [m])
      else match log_upto key log with Some (m', pre) => Some (m', m :: pre) | None => None end
  end.

Definition spec_commit (log : list AuthMutation) (f : option CommitStage) (m : AuthMutation) :
    result AtomicTestStoreError CommitReceipt * list AuthMutation :=
  match log_upto (idempotency_key m) log with
  | Some (m', upto) =>
      if decide (operation m' = operation m ∧ request_hash m' = request_hash m)
      then (Ok (mk_receipt (spec_revision upto) true), log)
      else (Err IdempotencyConflict, log)
  | None =>
      match f with
      | Some stage => (Err (Injected stage), log)
      | None => (Ok (mk_receipt (spec_revision (log ++ [m])) false), log ++ [m])
      end
  end.

(** The store holds exactly what the log says. *)
Record implements (u : AtomicTestUnitOfWork) (log : list AuthMutation) : Prop := {
  im_keys : NoDup (idempotency_key <$> log);
  im_revision : st_revision (state u) = spec_revision log;
  im_events : st_events (state u) = log ≫= events;
  im_projections : st_projections (state u) = log ≫= projections;
  im_secrets : st_secrets (state u) = foldl apply_secret [] (log ≫= secrets);
  im_outbox : st_outbox (state u) = map capture (log ≫= outbox_intents);
  im_receipts k : bmap_get k (st_receipts (state u)) =
    (λ '(m, upto), mk_stored (operation m) (request_hash m) (mk_receipt (spec_revision upto) false))
      <$> log_upto k log;
  im_sorted : msorted (st_receipts (state u));
}.

(** ** Lemmas *)

Lemma log_upto_snoc k log m :
  log_upto k (log ++ [m]) =
  match log_upto k log with
  | Some r => Some r
  | None => if bool_decide (idempotency_key m = k) then Some (m, log ++ [m]) else None
  end.
Proof.
  induction log as [|m' log IH]; cbn; [by case_bool_decide|].
  destruct (bool_decide (idempotency_key m' = k)); [done|]. rewrite IH. destruct (log_upto k log) as [[]|]; [done|].
  by case_bool_decide.
Qed.

Lemma log_upto_None k log : log_upto k log = None ↔ k ∉ idempotency_key <$> log.
Proof.
  induction log as [|m log IH]; cbn; [set_solver|]. rewrite not_elem_of_cons, <- IH.
  case_bool_decide; [split; [done|intros []; congruence]|].
  destruct (log_upto k log) as [[]|]; naive_solver.
Qed.

Lemma spec_revision_snoc log m :
  u64_saturating_add (spec_revision log) (Z.of_nat (length (events m))) = spec_revision (log ++ [m]).
Proof.
  unfold u64_saturating_add, spec_revision, total_events.
  rewrite bind_app, length_app, bind_cons, app_nil_r. lia.
Qed.

(** Everything a first successful commit stages. *)
Definition committed (s : AtomicTestState) (m : AuthMutation) : CommitReceipt * AtomicTestState :=
  stage_receipt (stage_outbox (stage_secrets (stage_projections (stage_events s m) m) m) m) m.

Lemma commit_first u m :
  bmap_get (idempotency_key m) (st_receipts (state u)) = None →
  commit u m =
  match fail_next u with
  | Some stage => (Err (Injected stage), mk_store (state u) None)
  | None => (Ok (fst (committed (state u) m)), mk_store (snd (committed (state u) m)) None)
  end.
Proof. intros H. unfold commit. rewrite H. by destruct (fail_next u) as [[]|]. Qed.

Lemma implements_committed u m log f :
  implements u log → log_upto (idempotency_key m) log = None →
  implements (mk_store (snd (committed (state u) m)) f) (log ++ [m]) ∧
  fst (committed (state u) m) = mk_receipt (spec_revision (log ++ [m])) false.
Proof.
  intros [Hk Hr He Hp Hs Ho Hrec Hsort] Hnew. split.
  - assert (NoDup (idempotency_key <$> log ++ [m])).
    { rewrite fmap_app. apply NoDup_app. split_and!; [done| |apply NoDup_singleton].
      intros k Hin ->%list_elem_of_singleton. by apply log_upto_None in Hnew. }
    constructor; [done|..]; cbn; rewrite ?Hr, ?He, ?Hp, ?Hs, ?Ho, ?spec_revision_snoc, ?bind_app,
      ?bind_singleton, ?foldl_app, ?map_app; try done.
    + intros k. rewrite bmap_get_insert, log_upto_snoc, Hrec by done.
      destruct (decide (k = idempotency_key m)) as [->|Hne].
      * rewrite Hnew. by rewrite !bool_decide_true.
      * rewrite !(bool_decide_false (_ = _)) by done.
        by destruct (log_upto k log) as [[]|].
    + by apply bmap_insert_sorted.
  - cbn. by rewrite Hr, spec_revision_snoc.
Qed.

Lemma commit_refines u log m :
  implements u log →
  fst (commit u m) = fst (spec_commit log (fail_next u) m) ∧
  implements (snd (commit u m)) (snd (spec_commit log (fail_next u) m)).
Proof.
  intros Him. unfold spec_commit.
  destruct (log_upto (idempotency_key m) log) as [[m' upto]|] eqn:Hl.
  - unfold commit. rewrite (im_receipts u log Him), Hl. cbn.
    case_decide as Hd.
    + destruct Hd as [Ho Hh]. rewrite !bool_decide_true by done. done.
    + destruct (negb _ || negb _) eqn:Hb; [done|].
      bprop. exfalso. by apply Hd.
  - rewrite commit_first by (by rewrite (im_receipts u log Him), Hl).
    destruct (fail_next u) as [stage|]; cbn [fst snd].
    + split; [done|]. destruct Him; by constructor.
    + destruct (implements_committed u m log None Him Hl) as [H1 H2]. by rewrite H2.
Qed.

(** ** The port: what a unit of work promises to the application *)

Class AuthUnitOfWork (U E : Type) := {
  uow_commit : U → AuthMutation → result E CommitReceipt * U;
  (** the mutations durably committed, in order *)
  uow_holds : U → list AuthMutation → Prop;
  (** commits the complete mutation or nothing, and replays a known key *)
  uow_atomic u log m : uow_holds u log →
    match uow_commit u m with
    | (Ok r, u') =>
        match log_upto (idempotency_key m) log with
        | Some (m', upto) =>
            operation m' = operation m ∧ request_hash m' = request_hash m ∧
            r = mk_receipt (spec_revision upto) true ∧ uow_holds u' log
        | None => r = mk_receipt (spec_revision (log ++ [m])) false ∧ uow_holds u' (log ++ [m])
        end
    | (Err _, u') => uow_holds u' log
    end;
}.

Lemma commit_atomic u log m :
  implements u log →
  match commit u m with
  | (Ok r, u') =>
      match log_upto (idempotency_key m) log with
      | Some (m', upto) =>
          operation m' = operation m ∧ request_hash m' = request_hash m ∧
          r = mk_receipt (spec_revision upto) true ∧ implements u' log
      | None => r = mk_receipt (spec_revision (log ++ [m])) false ∧ implements u' (log ++ [m])
      end
  | (Err _, u') => implements u' log
  end.
Proof.
  intros Him. destruct (commit_refines u log m Him) as [Hr Hi].
  unfold spec_commit in Hr, Hi. destruct (commit u m) as [r u']. cbn in Hr, Hi. subst r.
  destruct (log_upto (idempotency_key m) log) as [[m' upto]|].
  - case_decide; cbn in *; [tauto|done].
  - destruct (fail_next u); cbn in *; done.
Qed.

#[export] Instance atomic_unit_of_work : AuthUnitOfWork AtomicTestUnitOfWork AtomicTestStoreError := {
  uow_commit := commit;
  uow_holds := implements;
  uow_atomic := commit_atomic;
}.

(** [AuthApplication::commit], and a caller that sends the same command [n] times. *)
Section application.
Context {U E : Type} `{AuthUnitOfWork U E}.
#[local] Set Default Proof Using "Type".

Definition application_commit (u : U) (m : AuthMutation) : result E CommitReceipt * U :=
  uow_commit u m.

Fixpoint commit_retries (n : nat) (u : U) (m : AuthMutation) : list (result E CommitReceipt) * U :=
  match n with
  | O => ([], u)
  | S n =>
      let '(r, u) := application_commit u m in
      let '(rs, u) := commit_retries n u m in
      (r :: rs, u)
  end.

Lemma retries_known n u m log upto :
  uow_holds u log → log_upto (idempotency_key m) log = Some (m, upto) →
  uow_holds (snd (commit_retries n u m)) log ∧
  Forall (λ r, r = Ok (mk_receipt (spec_revision upto) true) ∨ ∃ e, r = Err e)
    (fst (commit_retries n u m)).
Proof.
  intros Hu Hl. revert u Hu. induction n as [|n IH]; intros u Hu; [by split|]. cbn.
  pose proof (uow_atomic u log m Hu) as Ha. unfold application_commit.
  destruct (uow_commit u m) as [[r|e] u'].
  - rewrite Hl in Ha. destruct Ha as (_ & _ & -> & Hu').
    specialize (IH u' Hu'). destruct (commit_retries n u' m) as [rs u'']. cbn in *.
    destruct IH. split; [done|]. constructor; [by left|done].
  - specialize (IH u' Ha). destruct (commit_retries n u' m) as [rs u'']. cbn in *.
    destruct IH. split; [done|]. constructor; [by right; exists e|done].
Qed.
End application.

(** ** Properties *)

Section unit_of_work_properties.
(** C9: atomicity and idempotency.  The staged store is a refinement of a log
    of committed mutations: a commit answers what a commit on the log
    answers (a replay of the receipt of the same key, a conflict when the
    key was used for something else, the injected failure, or a new receipt
    with the saturated event count) and leaves events, projections, secrets,
    outbox and receipts exactly as the log says, with nothing of a failed
    commit and everything of a successful one. *)
Theorem commit_refines_log u log m :
  implements u log →
  fst (commit u m) = fst (spec_commit log (fail_next u) m) ∧
  implements (snd (commit u m)) (snd (spec_commit log (fail_next u) m)).
Proof. apply commit_refines. Qed.

(** Retries are safe on any unit of work that keeps its contract.  When a
    caller sends one command [n] times with a fresh key, the durable log
    grows by that command at most once, and by it exactly when some attempt
    succeeded; every successful attempt reports the same revision, and all
    but the first report a replay. *)
Theorem retries_commit_once {U E} `{AuthUnitOfWork U E} n (u : U) m log :
  uow_holds u log → log_upto (idempotency_key m) log = None →
  let '(rs, u') := commit_retries n u m in
  let oks := omap ok rs in
  (oks = [] ∧ uow_holds u' log) ∨
  (∃ k, oks = mk_receipt (spec_revision (log ++ [m])) false ::
              replicate k (mk_receipt (spec_revision (log ++ [m])) true)) ∧
  uow_holds u' (log ++ [m]).
Proof.
  intros Hu Hl. revert u Hu. induction n as [|n IH]; intros u Hu; [by left|]. cbn.
  pose proof (uow_atomic u log m Hu) as Ha. unfold application_commit.
  destruct (uow_commit u m) as [[r|e] u'].
  - rewrite Hl in Ha. destruct Ha as [-> Hu'].
    assert (Hk : log_upto (idempotency_key m) (log ++ [m]) = Some (m, log ++ [m])).
    { rewrite log_upto_snoc, Hl. by rewrite bool_decide_true. }
    pose proof (retries_known n u' m _ _ Hu' Hk) as [Hh Hrs].
    destruct (commit_retries n u' m) as [rs u'']. cbn in *. right. split; [|done].
    clear Hh. induction Hrs as [|r rs [->|[e ->]] _ [k Hr]]; cbn.
    + by exists 0%nat.
    + injection Hr as Hr. exists (S k). cbn. by rewrite Hr.
    + injection Hr as Hr. exists k. by rewrite Hr.
  - specialize (IH u' Ha). destruct (commit_retries n u' m) as [rs u'']. cbn. done.
Qed.

(** Mutation bounds.  A mutation is accepted exactly when its operation is
    a bounded name over letters, digits and [._-:], it carries at least one
    event, and each of its four collections has at most 1,024 entries; it is
    then carried unchanged. *)
Theorem AuthMutation_new_iff key op hash es ps ss os m :
  AuthMutation_new key op hash es ps ss os = Ok m ↔
  m = mk_mutation key op hash es ps ss os ∧
  op ≠ [] ∧ Z.of_nat (length op) ≤ 128 ∧ forallb permission_byte op = true ∧ es ≠ [] ∧
  Forall (λ n, (n ≤ MAX_TRANSACTION_ITEMS)%nat) [length es; length ps; length ss; length os].
Proof.
  assert (Hlt : ∀ b, permission_byte b = true → b < 128).
  { intros b. unfold permission_byte, one_of. bprop.
    intros [?%is_ascii_alphanumeric_lt|Hb]; [done|]. set_unfold in Hb. lia. }
  unfold AuthMutation_new. rewrite fail_Ok, !orb_false_iff, negb_false_iff, Z.ltb_ge.
  rewrite is_empty_false, forallb_bytes by done. rewrite existsb_false_spec.
  assert (Hmax : (∀ n, n ∈ [length es; length ps; length ss; length os] →
      bool_decide (MAX_TRANSACTION_ITEMS < n)%nat = false) ↔
    Forall (λ n, (n ≤ MAX_TRANSACTION_ITEMS)%nat) [length es; length ps; length ss; length os]).
  { rewrite Forall_forall. setoid_rewrite bool_decide_eq_false. setoid_rewrite Nat.nlt_ge. done. }
  rewrite Hmax.
  assert (He : is_empty op = false ↔ op ≠ []) by (destruct op; naive_solver). rewrite He.
  assert (Hlen : forallb permission_byte op = true → str_len op = Z.of_nat (length op)).
  { intros Hf. unfold str_len. rewrite (forallb_ascii_len permission_byte); auto.
    by rewrite forallb_bytes. }
  split.
  - intros (((([? ?] & Hf) & ?) & ?) & [= <-]). rewrite <- Hlen by done. by split_and!.
  - intros (-> & ? & Hl & Hf & ? & ?). rewrite <- Hlen in Hl by done. by split_and!.
Qed.

Definition sample_mutation (key : string) : AuthMutation :=
  mk_mutation (lit key) (lit "user.register") [1; 2]
    [mk_event (lit "user") (lit "u1") 0 (lit "registered") (lit "{}")] []
    [SecretPut (mk_credential (lit "c1") (lit "u1") Password 1) [7]] [].

Lemma implements_initial f : implements (mk_store initial f) [].
Proof. constructor; cbn; try done; constructor. Qed.

Lemma commit_refines_log_witness :
  fst (commit (mk_store initial None) (sample_mutation "k1")) = Ok (mk_receipt 1 false).
Proof.
  rewrite (proj1 (commit_refines_log (mk_store initial None) [] (sample_mutation "k1")
    (implements_initial None))). vm_compute. reflexivity.
Defined.

Lemma retries_commit_once_witness :
  let '(rs, u) := commit_retries 3 (mk_store initial (Some SSecrets)) (sample_mutation "k1") in
  uow_holds u [] ∨ uow_holds u [sample_mutation "k1"].
Proof.
  pose proof (retries_commit_once 3 (mk_store initial (Some SSecrets)) (sample_mutation "k1") []
    (implements_initial _) eq_refl) as H.
  destruct (commit_retries 3 _ _) as [rs u].
  destruct H as [[_ H]|[_ H]]; [left; exact H|right; exact H].
Defined.

(** The run of the witness: the injected failure, the commit, one replay. *)
Example retries_run :
  fst (commit_retries 3 (mk_store initial (Some SSecrets)) (sample_mutation "k1")) =
  [Err (Injected SSecrets); Ok (mk_receipt 1 false); Ok (mk_receipt 1 true)].
Proof. vm_compute. reflexivity. Qed.
End unit_of_work_properties.
