(* ===== verification/AccessModel.v ===== *)
(** * AccessModel: the organization permission catalog

    Models src/crates/wasi-auth/src/postgres/access_model.rs: permission
    definitions with their dependencies, the breadth-first expansion of a
    requested permission set, the custom-role checks, and the product catalog
    itself, entry by entry.  The loop over the queue takes a fuel that bounds
    the number of distinct catalog entries, which is how often it can run. *)

From S2P Require Export Domain.
Open Scope nat_scope.

Inductive PermissionRisk := Low | Medium | High.
Inductive PermissionCatalog := CoreTenancy | ApplicationCatalog.
Record PermissionDefinition := mk_permission {
  perm_id : str;
  label : str;
  description : str;
  group : str;
  dependencies : list str;
  risk : PermissionRisk;
  custom_role_eligible : bool;
  catalog : PermissionCatalog;
}.

Inductive AccessModelError := UnknownPermission | RestrictedPermission | IncompleteDependencies.
#[export] Instance AccessModelError_eq_dec : EqDecision AccessModelError.
Proof. solve_decision. Defined.

(** [definition]: the first entry with the id. *)
Definition definition (defs : list PermissionDefinition) (p : str) : option PermissionDefinition :=
  List.find (λ d, bool_decide (perm_id d = p)) defs.
Definition is_allowed_for_custom_role (defs : list PermissionDefinition) (p : str) : bool :=
  match definition defs p with Some d => custom_role_eligible d | None => false end.

(** [index]: a hash map collected from the entries, where a later entry
    replaces an earlier one with the same id. *)
Definition index_get (defs : list PermissionDefinition) (p : str) : option PermissionDefinition :=
  List.find (λ d, bool_decide (perm_id d = p)) (reverse defs).
Definition index_contains (defs : list PermissionDefinition) (p : str) : bool :=
  match index_get defs p with Some _ => true | None => false end.

(** The [expanded] set and the [queue] of the traversal. *)
Definition work : Type := list str * list str.
Definition push (w : work) (p : str) : work :=
  let '(expanded, queue) := w in
  if bset_contains p expanded then w else (bset_insert p expanded, queue ++ [p]).

Section expansion.
Context (defs : list PermissionDefinition).

(** Both loops that insert: over the request and over the dependencies of the
    current permission. *)
Fixpoint push_all (e : AccessModelError) (ps : list str) (w : work) :
    result AccessModelError work :=
  match ps with
  | [] => Ok w
  | p :: ps =>
      fail? negb (index_contains defs p) with e ;;
      push_all e ps (push w p)
  end.

(** [while let Some(current) = queue.pop_front()]; [None] when out of fuel. *)
Fixpoint expand_loop (fuel : nat) (w : work) : option (result AccessModelError (list str)) :=
  match w with
  | (expanded, []) => Some (Ok expanded)
  | (expanded, current :: queue) =>
      match fuel with
      | O => None
      | S fuel =>
          match index_get defs current with
          | None => Some (Err IncompleteDependencies)
          | Some d =>
              match push_all IncompleteDependencies (dependencies d) (expanded, queue) with
              | Err e => Some (Err e)
              | Ok w => expand_loop fuel w
              end
          end
      end
  end.

Definition expand_with_dependencies (permissions : list str) :
    option (result AccessModelError (list str)) :=
  match push_all UnknownPermission permissions ([], []) with
  | Err e => Some (Err e)
  | Ok w => expand_loop (length defs) w
  end.

Definition validate_custom_role_permissions (permissions : list str) :
    result AccessModelError unit :=
  for_each (λ p,
      match definition defs p with
      | None => Err UnknownPermission
      | Some d => if custom_role_eligible d then Ok tt else Err RestrictedPermission
      end) permissions.

Definition ensure_dependencies_present (permissions : list str) : result AccessModelError unit :=
  for_each (λ p,
      let? d := ok_or (definition defs p) UnknownPermission in
      for_each (λ dep,
          fail? negb (bool_decide (dep ∈ permissions)) with IncompleteDependencies ;; Ok tt)
        (dependencies d)) permissions.
End expansion.

(** ** The product catalog *)

Definition permission_entry (id label description group : string) (deps : list string)
    (risk : PermissionRisk) (eligible : bool) (catalog : PermissionCatalog) : PermissionDefinition :=
  mk_permission (lit id) (lit label) (lit description) (lit group) (map lit deps) risk eligible catalog.

Definition PRODUCT_DEFINITIONS : list PermissionDefinition :=
  [permission_entry "audit.view" "View audit log" "Read organization audit events"
     "Core" [] Low true CoreTenancy;
   permission_entry "counter.change" "Change counter" "Increment or adjust the demo counter"
     "Counter" ["counter.view"] Medium true ApplicationCatalog;
   permission_entry "counter.reset" "Reset counter" "Reset the demo counter to zero"
     "Counter" ["counter.view"] Medium true ApplicationCatalog;
   permission_entry "counter.view" "View counter" "Read the demo counter value"
     "Counter" [] Low true ApplicationCatalog;
   permission_entry "dashboard.manage" "Manage dashboard" "Configure dashboard layout and widgets"
     "Dashboard" ["dashboard.view"] Medium true ApplicationCatalog;
   permission_entry "dashboard.view" "View dashboard" "Open the product dashboard"
     "Dashboard" [] Low true ApplicationCatalog;
   permission_entry "member.invite" "Invite members" "Create invitations for new members"
     "Members" ["member.view"] Medium true CoreTenancy;
   permission_entry "member.manage" "Manage members" "Change member roles and remove members"
     "Members" ["member.view"] High true CoreTenancy;
   permission_entry "member.view" "View members" "List organization memberships"
     "Members" [] Low true CoreTenancy;
   permission_entry "organization.update" "Update organization" "Change organization display name and settings"
     "Core" ["organization.view"] Medium true CoreTenancy;
   permission_entry "organization.view" "View organization" "Read organization profile and metadata"
     "Core" [] Low true CoreTenancy;
   permission_entry "ownership.transfer" "Transfer ownership" "Transfer organization ownership to another member"
     "Core" [] High false CoreTenancy;
   permission_entry "query.execute" "Execute queries" "Run read queries against application data"
     "Query" ["query.view"] Medium true ApplicationCatalog;
   permission_entry "query.execute_mutation" "Execute mutations" "Run mutating queries against application data"
     "Query" ["query.execute"] High true ApplicationCatalog;
   permission_entry "query.manage" "Manage queries" "Create and configure saved queries"
     "Query" ["query.view"] Medium true ApplicationCatalog;
   permission_entry "query.view" "View queries" "List and inspect saved queries"
     "Query" [] Low true ApplicationCatalog;
   permission_entry "resource.manage" "Manage resources" "Create, update, and delete resources"
     "Resources" ["resource.view"] Medium true ApplicationCatalog;
   permission_entry "resource.view" "View resources" "List and inspect resources"
     "Resources" [] Low true ApplicationCatalog;
   permission_entry "role.manage" "Manage roles" "Create and update custom roles"
     "Roles" ["role.view"] High true CoreTenancy;
   permission_entry "role.view" "View roles" "List roles and their permissions"
     "Roles" [] Low true CoreTenancy;
   permission_entry "vault.manage" "Manage vault" "Create and update vault secrets metadata"
     "Vault" ["vault.view"] High true ApplicationCatalog;
   permission_entry "vault.reveal" "Reveal vault secrets" "Reveal secret values from the vault"
     "Vault" ["vault.view"] High true ApplicationCatalog;
   permission_entry "vault.view" "View vault" "List vault entries without revealing values"
     "Vault" [] Low true ApplicationCatalog].

Definition ORGANIZATION_PERMISSION_CATALOG : list str :=
  map lit ["audit.view"; "counter.change"; "counter.reset"; "counter.view"; "dashboard.manage";
    "dashboard.view"; "member.invite"; "member.manage"; "member.view";
    "organization.update"; "organization.view"; "ownership.transfer"; "query.execute";
    "query.execute_mutation"; "query.manage"; "query.view"; "resource.manage";
    "resource.view"; "role.manage"; "role.view"; "vault.manage"; "vault.reveal";
    "vault.view"].

(** ** Lemmas *)

Section expansion_lemmas.
Context (defs : list PermissionDefinition).

Definition depends (p q : str) : Prop := ∃ d, index_get defs p = Some d ∧ q ∈ dependencies d.
Definition closed (S : str → Prop) : Prop := ∀ p q, S p → depends p q → S q.
Definition known (p : str) : Prop := index_contains defs p = true.

(** The invariant of the traversal, for the request [ps]. *)
Record work_ok (ps : list str) (w : work) : Prop := {
  wk_sorted : ssorted (fst w);
  wk_known p : p ∈ fst w → known p;
  wk_queue p : p ∈ snd w → p ∈ fst w;
  wk_request p : p ∈ ps → p ∈ fst w;
  wk_done p q : p ∈ fst w → p ∉ snd w → depends p q → q ∈ fst w;
  wk_least S p : closed S → (∀ q, q ∈ ps → S q) → p ∈ fst w → S p;
}.

(** What is left to do: entries not yet reached, and reached but queued. *)
Definition remaining (w : work) : nat := (length defs - length (fst w)) + length (snd w).

Lemma length_bset_insert x (s : list str) : x ∉ s → length (bset_insert x s) = S (length s).
Proof.
  induction s as [|y s IH]; cbn; [done|]. intros Hx. apply not_elem_of_cons in Hx as [Hne Hx].
  destruct (str_ltb x y); [done|]. rewrite bool_decide_false by done. cbn. by rewrite IH.
Qed.

Lemma known_in p : known p → p ∈ perm_id <$> defs.
Proof.
  unfold known, index_contains, index_get. destruct (find _ _) as [d|] eqn:E; [|done]. intros _.
  apply find_some in E as [Hin Hp]. apply bool_decide_eq_true in Hp as <-.
  apply list_elem_of_fmap. exists d. split; [done|]. by apply elem_of_reverse, list_elem_of_In.
Qed.

Lemma work_size ps w : work_ok ps w → length (fst w) ≤ length defs.
Proof.
  intros [Hs Hk _ _ _ _]. rewrite <- (length_fmap perm_id defs).
  apply submseteq_length, NoDup_submseteq; [by apply ssorted_NoDup|].
  intros p Hp. by apply known_in, Hk.
Qed.

(** One insertion. *)
Lemma push_spec E Q p E' Q' :
  push (E, Q) p = (E', Q') → ssorted E →
  ssorted E' ∧ (∀ x, x ∈ E' ↔ x = p ∨ x ∈ E) ∧
  (∀ x, x ∈ Q' → x ∈ Q ∨ x = p) ∧ (∀ x, x ∈ Q → x ∈ Q') ∧ (∀ x, x ∈ E' → x ∉ E → x ∈ Q') ∧
  length E' + length Q = length E + length Q'.
Proof.
  unfold push, bset_contains. intros H Hs. case_bool_decide as Hin; injection H as <- <-.
  - split_and!; auto; [|by intros]. intros x. split; [by right|by intros [->|]].
  - split_and!.
    + by apply bset_insert_sorted.
    + intros x. apply elem_of_bset_insert.
    + intros x. rewrite elem_of_app, list_elem_of_singleton. done.
    + intros x Hx. apply elem_of_app. by left.
    + intros x Hx%elem_of_bset_insert Hn. apply elem_of_app. right. apply list_elem_of_singleton. tauto.
    + rewrite length_bset_insert, length_app by done. cbn. lia.
Qed.

Lemma push_all_Ok e l E Q E' Q' :
  push_all defs e l (E, Q) = Ok (E', Q') → ssorted E →
  ssorted E' ∧ (∀ x, x ∈ E' ↔ x ∈ l ∨ x ∈ E) ∧ (∀ x, x ∈ l → known x) ∧
  (∀ x, x ∈ Q' → x ∈ Q ∨ x ∈ l) ∧ (∀ x, x ∈ Q → x ∈ Q') ∧ (∀ x, x ∈ E' → x ∉ E → x ∈ Q') ∧
  length E' + length Q = length E + length Q'.
Proof.
  revert E Q. induction l as [|p l IH]; intros E Q H Hs; cbn [push_all] in H.
  { injection H as <- <-. split_and!; auto; try set_solver. }
  apply fail_Ok in H as [Hk H]. apply negb_false_iff in Hk.
  destruct (push (E, Q) p) as [E1 Q1] eqn:Ep.
  destruct (push_spec _ _ _ _ _ Ep Hs) as (S1 & X1 & Q1a & Q1b & N1 & L1).
  destruct (IH _ _ H S1) as (S2 & X2 & K2 & Q2a & Q2b & N2 & L2).
  split_and!; try done; try lia.
  - intros x. rewrite X2, X1, elem_of_cons. tauto.
  - intros x [->|Hx]%elem_of_cons; auto.
  - intros x Hx%Q2a. rewrite elem_of_cons. destruct Hx as [Hx|?]; [apply Q1a in Hx|]; tauto.
  - auto.
  - intros x Hx Hn. destruct (decide (x ∈ E1)) as [H1|H1]; auto.
Qed.

Lemma push_all_total e l w : (∀ x, x ∈ l → known x) → ∃ w', push_all defs e l w = Ok w'.
Proof.
  revert w. induction l as [|p l IH]; intros w Hk; cbn; [by eauto|].
  rewrite (Hk p) by left. cbn. apply IH. intros; apply Hk. by right.
Qed.

Lemma push_all_Err e l w e' :
  push_all defs e l w = Err e' → e' = e ∧ ∃ x, x ∈ l ∧ ¬ known x.
Proof.
  revert w. induction l as [|p l IH]; intros w; cbn; [done|].
  unfold known. destruct (index_contains defs p) eqn:E; cbn.
  - intros (-> & x & ? & ?)%IH. split; [done|]. exists x. split; [by right|done].
  - intros [= <-]. split; [done|]. exists p. split; [left|by rewrite E].
Qed.

Lemma work_initial ps w : push_all defs UnknownPermission ps ([], []) = Ok w → work_ok ps w.
Proof.
  destruct w as [E Q]. intros H.
  destruct (push_all_Ok _ _ _ _ _ _ H ltac:(constructor)) as (Hs & Hx & Hk & Hqa & _ & Hn & _).
  constructor; cbn; auto.
  - intros p [Hp|Hp]%Hx; [auto|set_solver].
  - intros p [Hp|Hp]%Hqa; [set_solver|]. apply Hx. by left.
  - intros p Hp. apply Hx. by left.
  - intros p q Hp Hq. exfalso. apply Hq, Hn; [done|set_solver].
  - intros S p _ HS [Hp|Hp]%Hx; [auto|set_solver].
Qed.

Lemma work_step ps E current Q d w :
  work_ok ps (E, current :: Q) → index_get defs current = Some d →
  push_all defs IncompleteDependencies (dependencies d) (E, Q) = Ok w →
  work_ok ps w ∧ remaining w < remaining (E, current :: Q).
Proof.
  intros [Hs Hk Hq Hr Hd Hl] Hc H; cbn in *. destruct w as [E' Q'].
  destruct (push_all_Ok _ _ _ _ _ _ H Hs) as (Hs' & Hx & Hkn & Hqa & Hqb & Hn & Hlen).
  assert (Hw : work_ok ps (E', Q')).
  { constructor; cbn; auto.
    - intros p [Hp|Hp]%Hx; auto.
    - intros p [Hp|Hp]%Hqa; apply Hx; [right|by left]. apply Hq. by right.
    - intros p Hp. apply Hx. right. auto.
    - intros p q Hp Hpq Hdep. apply Hx.
      destruct (decide (p = current)) as [->|Hne].
      + left. destruct Hdep as (d' & Hd' & Hin). by simplify_eq.
      + destruct (decide (p ∈ E)) as [HpE|HpE]; [|by exfalso; apply Hpq, Hn].
        right. apply (Hd p q); [done| |done]. apply not_elem_of_cons. split; [done|]. auto.
    - intros S p HS Hps [Hp|Hp]%Hx; [|by apply (Hl S)].
      apply (HS current); [apply (Hl S); auto; apply Hq; left|]. by exists d. }
  split; [done|]. apply work_size in Hw. unfold remaining; cbn in *. lia.
Qed.

Lemma expand_loop_spec ps fuel w :
  work_ok ps w → remaining w ≤ fuel →
  (∃ E, expand_loop defs fuel w = Some (Ok E) ∧ work_ok ps (E, [])) ∨
  (expand_loop defs fuel w = Some (Err IncompleteDependencies) ∧
   ∃ p q, p ∈ perm_id <$> defs ∧ depends p q ∧ ¬ known q).
Proof.
  revert w. induction fuel as [|fuel IH]; intros [E [|current Q]] Hw Hf; cbn [expand_loop];
    [by left; exists E|unfold remaining in Hf; cbn in Hf; lia|by left; exists E|].
  assert (Hcur : known current) by (apply (wk_known ps _ Hw), (wk_queue ps _ Hw); left).
  unfold known, index_contains in Hcur. destruct (index_get defs current) as [d|] eqn:Hd; [|done].
  destruct (push_all defs IncompleteDependencies (dependencies d) (E, Q)) as [w'|e] eqn:Hp.
  - destruct (work_step _ _ _ _ _ _ Hw Hd Hp). apply IH; [done|lia].
  - right. apply push_all_Err in Hp as (-> & q & Hq & Hk). split; [done|].
    exists current, q. split_and!; try done.
    + apply known_in. unfold known, index_contains. by rewrite Hd.
    + by exists d.
Qed.

Lemma expansion_cases ps :
  (expand_with_dependencies defs ps = Some (Err UnknownPermission) ∧ ∃ p, p ∈ ps ∧ ¬ known p) ∨
  (expand_with_dependencies defs ps = Some (Err IncompleteDependencies) ∧
     (∀ p, p ∈ ps → known p) ∧ ∃ p q, p ∈ perm_id <$> defs ∧ depends p q ∧ ¬ known q) ∨
  (∃ out, expand_with_dependencies defs ps = Some (Ok out) ∧ (∀ p, p ∈ ps → known p) ∧
     work_ok ps (out, [])).
Proof.
  unfold expand_with_dependencies.
  destruct (push_all defs UnknownPermission ps ([], [])) as [w|e] eqn:Hp.
  - pose proof (work_initial _ _ Hp) as Hw. destruct w as [E Q].
    destruct (push_all_Ok _ _ _ _ _ _ Hp ltac:(constructor)) as (_ & _ & Hk & _ & _ & _ & Hl).
    destruct (expand_loop_spec ps (length defs) (E, Q)) as [(out & -> & Ho)|(-> & Hb)];
      [done| |by right; right; exists out|by right; left].
    pose proof (work_size _ _ Hw). unfold remaining; cbn in *. lia.
  - left. apply push_all_Err in Hp as [-> Hk]. by split.
Qed.
End expansion_lemmas.

Lemma find_reverse defs p d :
  NoDup (perm_id <$> defs) → index_get defs p = Some d ↔ definition defs p = Some d.
Proof.
  intros Hnd.
  assert (Hf : ∀ l, (∀ x, x ∈ l ↔ x ∈ defs) →
    List.find (λ d, bool_decide (perm_id d = p)) l = Some d ↔ d ∈ defs ∧ perm_id d = p).
  { intros l Hl. split.
    - intros [Hin Hp]%find_some. apply bool_decide_eq_true in Hp. by rewrite <- list_elem_of_In, Hl in Hin.
    - intros [Hin Hp]. destruct (find _ l) as [d'|] eqn:E.
      + apply find_some in E as [Hin' Hp']. apply bool_decide_eq_true in Hp'.
        rewrite <- list_elem_of_In, Hl in Hin'. f_equal.
        apply list_elem_of_lookup in Hin as [i Hi], Hin' as [j Hj].
        assert (i = j) as ->; [|congruence].
        eapply NoDup_lookup; [done|rewrite list_lookup_fmap, Hi; cbn; reflexivity|].
        rewrite list_lookup_fmap, Hj. cbn. congruence.
      + eapply find_none in E; [|by rewrite <- list_elem_of_In, Hl].
        by apply bool_decide_eq_false in E. }
  unfold index_get, definition. rewrite !Hf; [done|done|]. intros x. apply elem_of_reverse.
Qed.

Lemma validate_custom_Ok defs ps :
  validate_custom_role_permissions defs ps = Ok tt ↔
  ∀ p, p ∈ ps → ∃ d, definition defs p = Some d ∧ custom_role_eligible d = true.
Proof.
  unfold validate_custom_role_permissions. rewrite for_each_Ok, Forall_forall.
  split; intros H p Hp; specialize (H p Hp); destruct (definition defs p) as [d|]; try done.
  - exists d. by destruct (custom_role_eligible d).
  - destruct H as (d' & [= <-] & ->). done.
  - by destruct H as (d' & ? & _).
Qed.

Lemma ensure_dependencies_Ok defs ps :
  ensure_dependencies_present defs ps = Ok tt ↔
  ∀ p, p ∈ ps → ∃ d, definition defs p = Some d ∧ ∀ q, q ∈ dependencies d → q ∈ ps.
Proof.
  unfold ensure_dependencies_present. rewrite for_each_Ok, Forall_forall.
  assert (Hd : ∀ l, for_each (λ dep, if negb (bool_decide (dep ∈ ps))
      then Err IncompleteDependencies else Ok tt) l = Ok tt ↔ ∀ q, q ∈ l → q ∈ ps).
  { intros l. rewrite for_each_Ok, Forall_forall. split; intros H q Hq; specialize (H q Hq).
    - by case_bool_decide.
    - by rewrite bool_decide_true. }
  split; intros H p Hp; specialize (H p Hp); destruct (definition defs p) as [d|]; try done; cbn in *.
  - exists d. split; [done|]. by apply Hd.
  - destruct H as (d' & [= <-] & H). by apply Hd.
  - by destruct H as (d' & ? & _).
Qed.

(** Facts of the product catalog, by evaluation. *)
Lemma product_ids : map perm_id PRODUCT_DEFINITIONS = ORGANIZATION_PERMISSION_CATALOG.
Proof. vm_compute. reflexivity. Qed.

Lemma product_sorted : ssorted ORGANIZATION_PERMISSION_CATALOG.
Proof.
  replace ORGANIZATION_PERMISSION_CATALOG with (bset_of_list ORGANIZATION_PERMISSION_CATALOG)
    by (vm_compute; reflexivity). apply bset_of_list_sorted.
Qed.

Lemma product_unique : NoDup (perm_id <$> PRODUCT_DEFINITIONS).
Proof. change (NoDup (map perm_id PRODUCT_DEFINITIONS)). rewrite product_ids. apply ssorted_NoDup, product_sorted. Qed.

Lemma product_known p : known PRODUCT_DEFINITIONS p ↔ p ∈ ORGANIZATION_PERMISSION_CATALOG.
Proof.
  rewrite <- product_ids. split; [apply known_in|].
  intros (d & -> & Hd)%list_elem_of_fmap. unfold known, index_contains.
  destruct (index_get PRODUCT_DEFINITIONS (perm_id d)) eqn:E; [done|].
  unfold index_get in E. eapply find_none in E; [|by rewrite <- list_elem_of_In, elem_of_reverse].
  by apply bool_decide_eq_false in E.
Qed.

(** Every dependency is in the catalog and as eligible as its dependent. *)
Lemma product_dependency d q :
  d ∈ PRODUCT_DEFINITIONS → q ∈ dependencies d →
  ∃ d', definition PRODUCT_DEFINITIONS q = Some d' ∧ custom_role_eligible d' = true.
Proof.
  assert (H : forallb (λ d, forallb (is_allowed_for_custom_role PRODUCT_DEFINITIONS) (dependencies d))
    PRODUCT_DEFINITIONS = true) by (vm_compute; reflexivity).
  rewrite forallb_spec in H. intros Hd Hq. specialize (H d Hd). rewrite forallb_spec in H.
  specialize (H q Hq). unfold is_allowed_for_custom_role in H.
  destruct (definition PRODUCT_DEFINITIONS q) as [d'|]; [by eauto|done].
Qed.

Lemma product_depends p q :
  depends PRODUCT_DEFINITIONS p q →
  ∃ d', definition PRODUCT_DEFINITIONS q = Some d' ∧ custom_role_eligible d' = true.
Proof.
  intros (d & Hd & Hq). apply (product_dependency d q); [|done].
  apply find_some in Hd as [Hd _]. by apply elem_of_reverse, list_elem_of_In.
Qed.

Lemma definition_known defs p : is_Some (definition defs p) → known defs p.
Proof.
  intros [d Hd]. apply find_some in Hd as [Hin Hp]. unfold known, index_contains, index_get.
  destruct (find _ (reverse defs)) eqn:E; [done|].
  eapply find_none in E; [|by rewrite <- list_elem_of_In, elem_of_reverse, list_elem_of_In]. congruence.
Qed.

(** ** Properties *)

Section access_model_properties.
(** Expansion computes the least closure.  For any catalog, cyclic ones
    included, the expansion terminates: it returns, sorted and without
    duplicates, the smallest set that contains the request and is closed
    under declared dependencies; it fails only for an unknown requested
    permission or a catalog whose dependencies are not all declared. *)
Theorem expand_least_closure defs ps :
  ∃ r, expand_with_dependencies defs ps = Some r ∧
  match r with
  | Ok out =>
      ssorted out ∧ (∀ p, p ∈ ps → p ∈ out) ∧ closed defs (λ p, p ∈ out) ∧
      ∀ S, closed defs S → (∀ p, p ∈ ps → S p) → ∀ p, p ∈ out → S p
  | Err UnknownPermission => ∃ p, p ∈ ps ∧ index_contains defs p = false
  | Err IncompleteDependencies =>
      ∃ p q, p ∈ perm_id <$> defs ∧ depends defs p q ∧ index_contains defs q = false
  | Err RestrictedPermission => False
  end.
Proof.
  destruct (expansion_cases defs ps) as
    [(-> & p & Hp & Hk)|[(-> & _ & p & q & Hp & Hd & Hk)|(out & -> & _ & [Hs _ _ Hr Hd Hl])]];
    eexists; (split; [done|]).
  - exists p. split; [done|]. by apply not_true_iff_false.
  - exists p, q. split_and!; try done. by apply not_true_iff_false.
  - split_and!; auto.
    + intros p q Hp. apply (Hd p q Hp). set_solver.
    + intros S HS Hps p Hp. by apply (Hl S).
Qed.

(** The custom-role pipeline on the product catalog.  A request for
    catalog permissions always expands; the expansion is closed under
    dependencies as [ensure_dependencies_present] checks it, and stays free
    of restricted permissions when the request was. *)
Theorem product_expansion_valid ps :
  (∀ p, p ∈ ps → p ∈ ORGANIZATION_PERMISSION_CATALOG) →
  ∃ out, expand_with_dependencies PRODUCT_DEFINITIONS ps = Some (Ok out) ∧
    ensure_dependencies_present PRODUCT_DEFINITIONS out = Ok tt ∧
    (validate_custom_role_permissions PRODUCT_DEFINITIONS ps = Ok tt →
     validate_custom_role_permissions PRODUCT_DEFINITIONS out = Ok tt).
Proof.
  intros Hps. destruct (expansion_cases PRODUCT_DEFINITIONS ps) as
    [(_ & p & Hp & Hk)|[(_ & _ & p & q & _ & Hd & Hk)|(out & Hout & _ & [_ Hkn _ Hr Hd Hl])]].
  { destruct Hk. by apply product_known, Hps. }
  { destruct Hk. apply product_depends in Hd as (d' & Hd' & _). apply definition_known. by rewrite Hd'. }
  exists out. split; [done|]. split.
  - rewrite ensure_dependencies_Ok. intros p Hp. pose proof (Hkn p Hp) as Hk.
    unfold known, index_contains in Hk.
    destruct (index_get PRODUCT_DEFINITIONS p) as [d|] eqn:E; [|done].
    exists d. split; [by apply (find_reverse _ _ _ product_unique)|].
    intros q Hq. apply (Hd p q); [done|set_solver|by exists d].
  - rewrite !validate_custom_Ok. intros Hv p Hp.
    apply (Hl (λ p, ∃ d, definition PRODUCT_DEFINITIONS p = Some d ∧ custom_role_eligible d = true));
      [|done|done].
    intros p' q _ Hdep. by apply product_depends in Hdep.
Qed.

(** The catalog and the built-in roles agree.  The catalog list is the
    sorted list of the definitions' ids; the owner role holds exactly the
    catalog; every built-in role is closed under the catalog's dependencies;
    and exactly [ownership.transfer] is withheld from custom roles. *)
Theorem catalog_matches_roles :
  map perm_id PRODUCT_DEFINITIONS = ORGANIZATION_PERMISSION_CATALOG ∧
  ssorted ORGANIZATION_PERMISSION_CATALOG ∧
  (∀ p, p ∈ built_in_names Owner ↔ p ∈ ORGANIZATION_PERMISSION_CATALOG) ∧
  (∀ role, ensure_dependencies_present PRODUCT_DEFINITIONS (built_in_names role) = Ok tt) ∧
  (∀ p, p ∈ ORGANIZATION_PERMISSION_CATALOG →
        is_allowed_for_custom_role PRODUCT_DEFINITIONS p
        = negb (bool_decide (p = permissions.OWNERSHIP_TRANSFER))).
Proof.
  split_and!; [apply product_ids|apply product_sorted| | |].
  - intros p. split; revert p; apply subset_compute; vm_compute; reflexivity.
  - intros []; vm_compute; reflexivity.
  - assert (H : forallb (λ p, bool_decide (is_allowed_for_custom_role PRODUCT_DEFINITIONS p
      = negb (bool_decide (p = permissions.OWNERSHIP_TRANSFER)))) ORGANIZATION_PERMISSION_CATALOG = true)
      by (vm_compute; reflexivity).
    rewrite forallb_spec in H. intros p Hp%H. by apply bool_decide_eq_true in Hp.
Qed.

Lemma product_expansion_valid_witness :
  ∃ out, expand_with_dependencies PRODUCT_DEFINITIONS [lit "query.execute_mutation"] = Some (Ok out).
Proof.
  destruct (product_expansion_valid [lit "query.execute_mutation"]) as (out & H & _).
  - apply subset_compute. vm_compute. reflexivity.
  - exists out. exact H.
Defined.
End access_model_properties.
