(* ===== verification/SchemaPlan.v ===== *)
(** * SchemaPlan: validation of the applied migration history

    Models src/crates/wasi-auth/src/schema.rs: the ordered migration catalog
    and [plan_schema], which checks an applied history against it and returns
    the pending suffix.  The checksum of a migration's SQL document (SHA-256)
    is a parameter.  Indexing a slice out of range, which panics, is [None]. *)

From S2P Require Export Collections.
Open Scope nat_scope.

Inductive SchemaMigrationMode := Transactional | Autocommit.
Record SchemaMigration := mk_migration { version : str; mode : SchemaMigrationMode }.
Record AppliedSchemaMigration := mk_applied { applied_version : str; checksum : str }.

Inductive SchemaPlanError :=
| UnknownVersion (version : str)
| ChecksumDrift (version : str)
| Gap (version : str)
| DuplicateVersion (version : str).

Definition schema_migrations : list SchemaMigration :=
  [mk_migration (lit "0001_relational_kernel") Transactional;
   mk_migration (lit "0002_outbox_delivery_id") Transactional;
   mk_migration (lit "0003_management_integrity") Transactional;
   mk_migration (lit "0004_owner_invariant") Transactional;
   mk_migration (lit "0005_owner_trigger_revision") Transactional;
   mk_migration (lit "0006_oauth_provider_defaults") Transactional;
   mk_migration (lit "0007_signing_key_references") Transactional;
   mk_migration (lit "0008_fullstack_redirects") Transactional;
   mk_migration (lit "0009_context_invalidation") Transactional;
   mk_migration (lit "0010_typed_relationship_outbox") Transactional;
   mk_migration (lit "0011_organization_slug_expand") Transactional;
   mk_migration (lit "0012_organization_slug_unique_index") Autocommit;
   mk_migration (lit "0013_fullstack_permissions") Transactional;
   mk_migration (lit "0014_totp_last_consumed_step") Transactional].

Section plan.
(** [checksum_hex] of the catalog entry. *)
Context (checksum_hex : SchemaMigration → str).

Definition known_migrations : bmap SchemaMigration :=
  bmap_of_list (map (λ m, (version m, m)) schema_migrations).

(** The loop over the applied history; [seen] is the set it fills. *)
Fixpoint check_applied (seen : list str) (applied : list AppliedSchemaMigration) :
    result SchemaPlanError (list str) :=
  match applied with
  | [] => Ok seen
  | a :: applied =>
      fail? bset_contains (applied_version a) seen with DuplicateVersion (applied_version a) ;;
      match bmap_get (applied_version a) known_migrations with
      | None => Err (UnknownVersion (applied_version a))
      | Some expected =>
          fail? negb (bool_decide (checksum a = checksum_hex expected)) with
              ChecksumDrift (applied_version a) ;;
          check_applied (bset_insert (applied_version a) seen) applied
      end
  end.

(** [&list[n..]] *)
Definition slice_from {A} (n : nat) (l : list A) : option (list A) :=
  if bool_decide (n ≤ length l) then Some (drop n l) else None.

Definition plan_schema (applied : list AppliedSchemaMigration) :
    option (result SchemaPlanError (list SchemaMigration)) :=
  match check_applied [] applied with
  | Err e => Some (Err e)
  | Ok seen =>
      match for_each (λ expected,
          fail? negb (bset_contains (version expected) seen) with Gap (version expected) ;; Ok tt)
        (take (length applied) schema_migrations) with
      | Err e => Some (Err e)
      | Ok _ => Ok <$> slice_from (length applied) schema_migrations
      end
  end.

(** ** Lemmas *)

Lemma versions_unique : NoDup (version <$> schema_migrations).
Proof.
  change (version <$> schema_migrations) with (map version schema_migrations).
  replace (map version schema_migrations) with (bset_of_list (map version schema_migrations))
    by (vm_compute; reflexivity).
  apply ssorted_NoDup, bset_of_list_sorted.
Qed.

Lemma known_get v m :
  bmap_get v known_migrations = Some m ↔ m ∈ schema_migrations ∧ version m = v.
Proof.
  assert (Hk : known_migrations = map (λ m, (version m, m)) schema_migrations)
    by (vm_compute; reflexivity).
  assert (Hs : msorted known_migrations).
  { replace (known_migrations.*1) with (bset_of_list (map version schema_migrations))
      by (vm_compute; reflexivity). apply bset_of_list_sorted. }
  split.
  - intros H%bmap_get_elem. rewrite Hk in H. apply list_elem_of_fmap in H as (m' & [= -> ->] & ?).
    done.
  - intros [Hm <-]. apply bmap_elem_get; [done|]. rewrite Hk.
    apply (list_elem_of_fmap_2 (λ m, (version m, m))). done.
Qed.

(** An applied entry of the catalog with the catalog's checksum. *)
Definition genuine (a : AppliedSchemaMigration) : Prop :=
  ∃ m, m ∈ schema_migrations ∧ version m = applied_version a ∧ checksum a = checksum_hex m.

Lemma check_applied_Ok seen applied seen' :
  check_applied seen applied = Ok seen' ↔
  NoDup (applied_version <$> applied) ∧ (∀ a, a ∈ applied → applied_version a ∉ seen) ∧
  Forall genuine applied ∧ seen' = foldl (λ s a, bset_insert (applied_version a) s) seen applied.
Proof.
  revert seen. induction applied as [|a l IH]; intros seen; cbn [check_applied foldl].
  { split; [intros [= <-]; split_and!; [constructor|set_solver|constructor|done]|].
    by intros (_ & _ & _ & ->). }
  rewrite fail_Ok. unfold bset_contains at 1. rewrite bool_decide_eq_false.
  rewrite fmap_cons, NoDup_cons, Forall_cons, list_elem_of_fmap.
  destruct (bmap_get (applied_version a) known_migrations) as [m|] eqn:Hm.
  - apply known_get in Hm as [Hm Hv]. rewrite fail_Ok, negb_false_iff, bool_decide_eq_true, IH.
    split.
    + intros (Hn & Hc & Hnd & Hs & Hg & ->). split_and!; try done.
      * intros (b & Hb & Hin). apply (Hs b Hin). apply elem_of_bset_insert. by left.
      * intros b [->|Hb]%elem_of_cons; [done|]. intros Hin. apply (Hs b Hb), elem_of_bset_insert. by right.
      * by exists m.
    + intros ((Hn & Hnd) & Hs & ((m' & Hm' & Hv' & Hc) & Hg) & ->). split_and!; try done.
      * apply Hs. left.
      * rewrite Hc. f_equal. apply list_elem_of_lookup in Hm as [i Hi], Hm' as [j Hj].
        assert (i = j) as ->; [|congruence].
        eapply NoDup_lookup; [apply versions_unique|rewrite list_lookup_fmap, Hi; cbn; reflexivity|].
        rewrite list_lookup_fmap, Hj. cbn. congruence.
      * intros b Hb [Heq|Hin]%elem_of_bset_insert; [apply Hn; by exists b|].
        apply (Hs b); [by right|done].
  - split; [by intros [_ ?]|]. intros (_ & _ & ((m' & Hm' & Hv' & _) & _) & _).
    by rewrite (proj2 (known_get _ m')) in Hm.
Qed.

Lemma elem_of_seen applied v :
  v ∈ foldl (λ s a, bset_insert (applied_version a) s) [] applied ↔ v ∈ applied_version <$> applied.
Proof.
  assert (Hg : ∀ s, v ∈ foldl (λ s a, bset_insert (applied_version a) s) s applied ↔
    v ∈ s ∨ v ∈ applied_version <$> applied).
  { induction applied as [|a l IH]; intros s; cbn [foldl]; [cbn; set_solver|].
    rewrite IH, elem_of_bset_insert, fmap_cons, elem_of_cons. tauto. }
  rewrite Hg. set_solver.
Qed.
End plan.

Section plan_properties.
Context (checksum_hex : SchemaMigration → str).

Lemma genuine_bounded applied :
  NoDup (applied_version <$> applied) → Forall (genuine checksum_hex) applied →
  length applied ≤ length schema_migrations.
Proof.
  intros Hnd Hg. rewrite <- (length_fmap applied_version), <- (length_fmap version schema_migrations).
  apply submseteq_length, NoDup_submseteq; [done|].
  intros v (a & -> & Ha)%list_elem_of_fmap. rewrite Forall_forall in Hg.
  destruct (Hg a Ha) as (m & Hm & <- & _). by apply list_elem_of_fmap_2.
Qed.

Lemma no_gap_permutation applied :
  NoDup (applied_version <$> applied) → length applied ≤ length schema_migrations →
  (∀ m, m ∈ take (length applied) schema_migrations → version m ∈ applied_version <$> applied) →
  applied_version <$> applied ≡ₚ version <$> take (length applied) schema_migrations.
Proof.
  intros Hnd Hl Hin. symmetry. apply submseteq_length_Permutation.
  - apply NoDup_submseteq.
    + rewrite fmap_take. eapply sublist_NoDup; [apply versions_unique|apply sublist_take].
    + intros v (m & -> & Hm)%list_elem_of_fmap. auto.
  - rewrite !length_fmap, length_take. lia.
Qed.

(** Migration planning.  Planning never fails by an out-of-range slice;
    it succeeds exactly when the applied history is, in some order, a prefix
    of the catalog with the catalog's checksums (no duplicate, unknown,
    drifted or missing entry), and the plan is then the rest of the catalog
    in catalog order. *)
Theorem plan_schema_exact applied :
  is_Some (plan_schema checksum_hex applied) ∧
  ∀ pending,
    plan_schema checksum_hex applied = Some (Ok pending) ↔
    applied_version <$> applied ≡ₚ version <$> take (length applied) schema_migrations ∧
    Forall (genuine checksum_hex) applied ∧
    pending = drop (length applied) schema_migrations.
Proof.
  unfold plan_schema. destruct (check_applied checksum_hex [] applied) as [seen|e] eqn:Hc.
  - apply check_applied_Ok in Hc as (Hnd & _ & Hg & ->).
    pose proof (genuine_bounded _ Hnd Hg) as Hl. unfold slice_from.
    rewrite bool_decide_true by done.
    set (gaps := for_each _ _).
    assert (Hgap : gaps = Ok tt ↔ ∀ m, m ∈ take (length applied) schema_migrations →
      version m ∈ applied_version <$> applied).
    { unfold gaps. rewrite for_each_Ok, Forall_forall. unfold bset_contains.
      split; intros H m Hm; specialize (H m Hm).
      - destruct (bool_decide _) eqn:E in H; [|done]. apply bool_decide_eq_true in E.
        by rewrite elem_of_seen in E.
      - rewrite bool_decide_true; [done|]. by rewrite elem_of_seen. }
    destruct gaps as [[]|e] eqn:Eg.
    + split; [by eexists|]. intros pending. cbn. split.
      * intros [= <-]. split_and!; try done. apply no_gap_permutation; auto. by apply Hgap.
      * by intros (_ & _ & ->).
    + split; [by eexists|]. intros pending. split; [done|]. intros (Hp & _ & _).
      assert (Err e = @Ok SchemaPlanError unit tt) as ?; [|done]. apply Hgap. intros m Hm.
      rewrite Hp. by apply list_elem_of_fmap_2.
  - split; [by eexists|]. intros pending. split; [done|]. intros (Hp & Hg & _).
    assert (check_applied checksum_hex [] applied
      = Ok (foldl (λ s a, bset_insert (applied_version a) s) [] applied)) as Hok; [|congruence].
    apply check_applied_Ok. split_and!; try done; [|set_solver].
    rewrite Hp, fmap_take. eapply sublist_NoDup; [apply versions_unique|apply sublist_take].
Qed.
End plan_properties.

(** Planning on concrete histories, with the version itself as checksum. *)
Example plan_empty : plan_schema version [] = Some (Ok schema_migrations).
Proof. vm_compute. reflexivity. Qed.
Example plan_gap :
  plan_schema version [mk_applied (lit "0002_outbox_delivery_id") (lit "0002_outbox_delivery_id")]
  = Some (Err (Gap (lit "0001_relational_kernel"))).
Proof. vm_compute. reflexivity. Qed.
