(* ===== verification/Mfa.v ===== *)
(** * Mfa: TOTP codes, recovery codes and their encodings

    Models src/crates/wasi-auth/src/authentication/mfa.rs: TOTP configuration
    and verification over the skew window, recovery codes (generation,
    normalization, keyed hashing, verification), Base32 and percent encoding.
    The two HMACs and the random source are parameters.  [u32] arithmetic is
    written with its wrap-around, and reading a digest out of range, which
    panics, is [None]. *)

From S2P Require Export Domain.
From stdpp Require Import pretty.
Open Scope Z_scope.

Inductive MfaError := InvalidConfiguration | InvalidCode | InvalidSecret.
#[export] Instance MfaError_eq_dec : EqDecision MfaError.
Proof. solve_decision. Defined.

Definition u32_wrap (x : Z) : Z := Z.land x (Z.ones 32).
Definition BASE32_ALPHABET : str := lit "ABCDEFGHIJKLMNOPQRSTUVWXYZ234567".

Record TotpConfig := mk_totp { period_seconds : Z; digits : Z; allowed_skew_steps : Z }.
Definition TotpConfig_new (period digits skew : Z) : result MfaError TotpConfig :=
  fail? (period <? 15) || (120 <? period) || (digits <? 6) || (8 <? digits) || (2 <? skew)
    with InvalidConfiguration ;;
  Ok (mk_totp period digits skew).
Definition TotpConfig_default : TotpConfig := mk_totp 30 6 1.

(** ** encode_base32 *)

Definition base32_char (index : Z) : char := default 0 (BASE32_ALPHABET !! Z.to_nat index).

(** [while bit_count >= 5]: emits the leading group until fewer than five bits
    are left; the fuel is the bit count itself. *)
Fixpoint drain (fuel : nat) (accumulator bit_count : Z) (output : str) : Z * str :=
  match fuel with
  | O => (bit_count, output)
  | S fuel =>
      if 5 <=? bit_count then
        let bit_count := bit_count - 5 in
        let index := Z.land (Z.shiftr accumulator bit_count) 0x1f in
        drain fuel accumulator bit_count (output ++ [base32_char index])
      else (bit_count, output)
  end.

Definition base32_step (st : Z * Z * str) (byte : Z) : Z * Z * str :=
  let '(accumulator, bit_count, output) := st in
  let accumulator := Z.lor (u32_wrap (Z.shiftl accumulator 8)) byte in
  let bit_count := bit_count + 8 in
  let '(bit_count, output) := drain (Z.to_nat bit_count) accumulator bit_count output in
  (accumulator, bit_count, output).

Definition encode_base32 (bytes : list Z) : str :=
  let '(accumulator, bit_count, output) := foldl base32_step (0, 0, []) bytes in
  if 0 <? bit_count then
    let index := Z.land (u32_wrap (Z.shiftl accumulator (5 - bit_count))) 0x1f in
    output ++ [base32_char index]
  else output.

(** ** percent_encode *)

Definition hex_digit (n : Z) : char := if n <? 10 then 48 + n else 55 + n.
Definition unreserved (b : Z) : bool := is_ascii_alphanumeric b || one_of [45; 46; 95; 126] b.
Definition percent_byte (b : Z) : str :=
  if unreserved b then [b] else [37; hex_digit (b / 16); hex_digit (b mod 16)].
Definition percent_encode (value : str) : str := str_bytes value ≫= percent_byte.

(** ** TOTP *)

(** [TotpSecret::from_bytes] *)
Definition TotpSecret_from_bytes (bytes : list Z) : result MfaError (list Z) :=
  fail? bool_decide (length bytes < 16)%nat with InvalidSecret ;; Ok bytes.

(** [format!("{value:0width$}")] *)
Definition format_padded (width : nat) (value : Z) : str :=
  let s := lit (pretty (Z.to_N value)) in replicate (width - length s) 48 ++ s.

Definition provisioning_uri (issuer account : str) (secret : list Z) (config : TotpConfig) :
    result MfaError str :=
  fail? is_empty (trim issuer) || is_empty (trim account) with InvalidCode ;;
  let issuer := percent_encode (trim issuer) in
  let account := percent_encode (trim account) in
  Ok (lit "otpauth://totp/" ++ issuer ++ lit ":" ++ account ++ lit "?secret="
      ++ encode_base32 secret ++ lit "&issuer=" ++ issuer ++ lit "&algorithm=SHA1&digits="
      ++ format_padded 0 (digits config) ++ lit "&period=" ++ format_padded 0 (period_seconds config)).

Section totp.
(** [Hmac::<Sha1>]: key and message to digest. *)
Context (hmac_sha1 : list Z → list Z → list Z).

(** The dynamic truncation of the digest; [None] where indexing panics. *)
Definition truncate (digest : list Z) : option Z :=
  last ← digest !! (length digest - 1)%nat;
  let offset := Z.to_nat (Z.land last 0x0f) in
  d0 ← digest !! offset;
  d1 ← digest !! (offset + 1)%nat;
  d2 ← digest !! (offset + 2)%nat;
  d3 ← digest !! (offset + 3)%nat;
  Some (Z.lor (Z.lor (Z.lor (u32_wrap (Z.shiftl (Z.land d0 0x7f) 24)) (u32_wrap (Z.shiftl d1 16)))
                 (u32_wrap (Z.shiftl d2 8))) d3).

Definition totp_value (secret : list Z) (step digits : Z) : option str :=
  binary ← truncate (hmac_sha1 secret (to_be_bytes step));
  Some (format_padded (Z.to_nat digits) (binary mod 10 ^ digits)).

Definition verify_totp_step (secret code : list Z) (step digits : Z) : option bool :=
  expected ← totp_value secret step digits;
  Some (bool_decide (str_bytes expected = code)).

(** One candidate of the window: a match replaces a lower one. *)
Definition try_step (secret code : list Z) (digits : Z) (candidate : option Z)
    (matched : option Z) : option (option Z) :=
  match candidate with
  | None => Some matched
  | Some step =>
      hit ← verify_totp_step secret code step digits;
      Some (if hit : bool
            then Some match matched with None => step | Some current => Z.max current step end
            else matched)
  end.

Fixpoint try_offsets (secret code : list Z) (digits step : Z) (offsets : list Z)
    (matched : option Z) : option (option Z) :=
  match offsets with
  | [] => Some matched
  | offset :: offsets =>
      matched ← try_step secret code digits (u64_checked_sub step offset) matched;
      matched ← (if offset =? 0 then Some matched
                 else try_step secret code digits (u64_checked_add step offset) matched);
      try_offsets secret code digits step offsets matched
  end.

Definition verify_totp (secret : list Z) (code : str) (unix_seconds : Z) (config : TotpConfig) :
    option (result MfaError (option Z)) :=
  if bool_decide (length secret < 16)%nat then Some (Err InvalidSecret)
  else if negb (str_len code =? digits config)
          || negb (forallb is_ascii_digit (str_bytes code)) then Some (Err InvalidCode)
  else
    let step := unix_seconds / period_seconds config in
    let offsets := map Z.of_nat (seq 0 (S (Z.to_nat (allowed_skew_steps config)))) in
    Ok <$> try_offsets secret (str_bytes code) (digits config) step offsets None.
End totp.

(** ** Recovery codes *)

Definition RECOVERY_CODE_BYTES : nat := 10.

(** [chunks(4)] joined with [-]. *)
Fixpoint group4 (s : str) : str :=
  match s with
  | a :: b :: c :: d :: ((_ :: _) as rest) => a :: b :: c :: d :: 45 :: group4 rest
  | _ => s
  end.

Definition normalize_recovery_code (code : str) : result MfaError str :=
  let normalized :=
    map ascii_upper
      (List.filter (λ b, negb (b =? 45) && negb (is_ascii_whitespace b)) (str_bytes code)) in
  fail? negb (bool_decide (length normalized = 16%nat))
        || negb (forallb (λ b, bool_decide (b ∈ BASE32_ALPHABET)) normalized) with InvalidCode ;;
  ok_or (from_utf8 normalized) InvalidCode.

Section recovery.
(** [Hmac::<Sha256>] and a random source that fills a buffer. *)
Context (hmac_sha256 : list Z → list Z → list Z).
Context {E : Type} (fill_bytes : nat → result E (list Z)).

Definition RecoveryCode_generate : result E str :=
  let? bytes := fill_bytes RECOVERY_CODE_BYTES in
  Ok (group4 (encode_base32 bytes)).

Definition hash_recovery_code (pepper : list Z) (code : str) : result MfaError (list Z) :=
  fail? bool_decide (length pepper < 16)%nat with InvalidSecret ;;
  let? normalized := normalize_recovery_code code in
  Ok (hmac_sha256 pepper (str_bytes normalized)).

Definition verify_recovery_code (pepper : list Z) (candidate : str) (expected : list Z) :
    result MfaError bool :=
  let? candidate := hash_recovery_code pepper candidate in
  Ok (bool_decide (candidate = expected)).
End recovery.

Example base32_foobar : encode_base32 (str_bytes (lit "foobar")) = lit "MZXW6YTBOI".
Proof. vm_compute. reflexivity. Qed.

(** ** Base32: lemmas *)

(** The number a sequence of digits denotes, most significant first. *)
Definition be_value (base : Z) (ds : list Z) : Z := foldl (λ acc d, acc * base + d) 0 ds.
Definition digits_in (base : Z) (ds : list Z) : Prop := Forall (λ d, 0 ≤ d < base) ds.

Lemma be_value_snoc base ds d : be_value base (ds ++ [d]) = be_value base ds * base + d.
Proof. unfold be_value. by rewrite foldl_app. Qed.

Lemma be_value_inj base ds1 ds2 :
  0 < base → digits_in base ds1 → digits_in base ds2 → length ds1 = length ds2 →
  be_value base ds1 = be_value base ds2 → ds1 = ds2.
Proof.
  intros Hb. revert ds2. induction ds1 as [|d1 ds1 IH] using rev_ind; intros ds2 H1 H2 Hl Hv.
  { by destruct ds2. }
  destruct ds2 as [|d2 ds2 _] using rev_ind; [rewrite length_app in Hl; cbn in Hl; lia|].
  rewrite !be_value_snoc in Hv. rewrite !length_app in Hl. cbn in Hl.
  apply Forall_app in H1 as [H1 Hd1], H2 as [H2 Hd2].
  rewrite Forall_singleton in Hd1, Hd2.
  assert (be_value base ds1 = be_value base ds2 ∧ d1 = d2) as [Hq ->]
    by (apply (Z.div_mod_unique base); lia).
  f_equal. apply IH; auto; lia.
Qed.

Lemma land_31 x : Z.land x 0x1f = x mod 32.
Proof. change 0x1f with (Z.ones 5). by rewrite Z.land_ones by lia. Qed.
Lemma u32_wrap_mod x : u32_wrap x = x mod 2 ^ 32.
Proof. unfold u32_wrap. by rewrite Z.land_ones by lia. Qed.

(** The low [k] bits split into the leading group of five and the rest. *)
Lemma mod_split acc k : 0 ≤ k → acc mod 2 ^ (k + 5) = (acc / 2 ^ k) mod 32 * 2 ^ k + acc mod 2 ^ k.
Proof.
  intros Hk. rewrite Z.pow_add_r by lia. change (2 ^ 5) with 32.
  rewrite Z.rem_mul_r by (try apply Z.pow_nonzero; lia). lia.
Qed.

(** The accumulator after a byte is shifted in. *)
Lemma shift_in acc byte k :
  0 ≤ acc → 0 ≤ byte < 256 → 0 ≤ k ≤ 24 →
  0 ≤ Z.lor (u32_wrap (Z.shiftl acc 8)) byte ∧
  Z.lor (u32_wrap (Z.shiftl acc 8)) byte mod 2 ^ (k + 8) = acc mod 2 ^ k * 256 + byte.
Proof.
  intros Ha Hb Hk. rewrite u32_wrap_mod, Z.shiftl_mul_pow2 by lia. change (2 ^ 8) with 256.
  assert (Hlor : Z.lor ((acc * 256) mod 2 ^ 32) byte = (acc * 256) mod 2 ^ 32 + byte).
  { assert (Hm : (acc * 256) mod 2 ^ 32 = acc mod 2 ^ 24 * 256).
    { change (2 ^ 32) with (2 ^ 24 * 256). by rewrite Z.mul_mod_distr_r by lia. }
    rewrite Hm. rewrite Z.add_nocarry_lxor; [rewrite Z.lxor_lor; [done|]|].
    all: apply Z.bits_inj'; intros i Hi; rewrite Z.bits_0, Z.land_spec;
      destruct (decide (i < 8)) as [Hlt|Hge];
      [change 256 with (2 ^ 8); rewrite Z.mul_pow2_bits_low by lia; done|
       rewrite (Z.bits_above_log2 byte i), andb_false_r; try done; try lia;
       destruct (decide (byte = 0)) as [->|]; [cbn; lia|];
       assert (Z.log2 byte < 8) by (apply Z.log2_lt_pow2; lia); lia]. }
  rewrite Hlor. pose proof (Z.mod_pos_bound (acc * 256) (2 ^ 32) ltac:(lia)). split; [lia|].
  rewrite <- Z.add_mod_idemp_l by (apply Z.pow_nonzero; lia).
  replace (((acc * 256) mod 2 ^ 32) mod 2 ^ (k + 8)) with ((acc * 256) mod 2 ^ (k + 8)).
  2:{ replace (2 ^ 32) with (2 ^ (k + 8) * 2 ^ (24 - k)) by (rewrite <- Z.pow_add_r by lia; f_equal; lia).
      rewrite Z.rem_mul_r by (try apply Z.pow_nonzero; try apply Z.pow_pos_nonneg; lia).
      rewrite (Z.mul_comm (2 ^ (k + 8)) (_ mod 2 ^ (24 - k))).
      rewrite Z.mod_add, Z.mod_mod by (apply Z.pow_nonzero; lia). done. }
  rewrite Z.pow_add_r by lia. change (2 ^ 8) with 256.
  rewrite Z.mul_mod_distr_r by (try apply Z.pow_nonzero; lia).
  apply Z.mod_small. pose proof (Z.mod_pos_bound acc (2 ^ k) ltac:(apply Z.pow_pos_nonneg; lia)). nia.
Qed.

Lemma drain_spec fuel acc k out ds :
  0 ≤ k → k ≤ Z.of_nat fuel → digits_in 32 ds → out = map base32_char ds →
  ∃ ds' k', drain fuel acc k out = (k', map base32_char ds') ∧ digits_in 32 ds' ∧ 0 ≤ k' < 5 ∧
    5 * Z.of_nat (length ds') + k' = 5 * Z.of_nat (length ds) + k ∧
    be_value 32 ds' * 2 ^ k' + acc mod 2 ^ k' = be_value 32 ds * 2 ^ k + acc mod 2 ^ k.
Proof.
  revert k out ds. induction fuel as [|fuel IH]; intros k out ds Hk Hf Hd ->; cbn [drain].
  { exists ds, k. split_and!; auto; lia. }
  destruct (Z.leb_spec 5 k) as [H5|H5]; [|exists ds, k; split_and!; auto; lia].
  rewrite land_31, Z.shiftr_div_pow2 by lia. set (i := (acc / 2 ^ (k - 5)) mod 32).
  pose proof (Z.mod_pos_bound (acc / 2 ^ (k - 5)) 32 ltac:(lia)).
  destruct (IH (k - 5) (map base32_char ds ++ [base32_char i]) (ds ++ [i]))
    as (ds' & k' & -> & Hd' & Hk' & Hl & Hv); [lia|lia| |by rewrite map_app|].
  { apply Forall_app. split; [done|]. by apply Forall_singleton. }
  exists ds', k'. rewrite length_app in Hl; cbn in Hl. split_and!; try done; try lia.
  rewrite Hv, be_value_snoc. replace k with (k - 5 + 5) at 3 4 by lia.
  rewrite mod_split, Z.pow_add_r by lia. unfold i. change (2 ^ 5) with 32. ring.
Qed.

Definition b32_inv (bytes : list Z) (st : Z * Z * str) : Prop :=
  let '(acc, k, out) := st in
  ∃ ds, out = map base32_char ds ∧ digits_in 32 ds ∧ 0 ≤ acc ∧ 0 ≤ k < 5 ∧
    5 * Z.of_nat (length ds) + k = 8 * Z.of_nat (length bytes) ∧
    be_value 32 ds * 2 ^ k + acc mod 2 ^ k = be_value 256 bytes.

Lemma b32_inv_all bytes : digits_in 256 bytes → b32_inv bytes (foldl base32_step (0, 0, []) bytes).
Proof.
  induction bytes as [|b bytes IH] using rev_ind; intros Hb.
  { exists []. split_and!; try done. constructor. }
  apply Forall_app in Hb as [Hbs Hb]. rewrite Forall_singleton in Hb.
  rewrite foldl_app. cbn [foldl]. specialize (IH Hbs).
  destruct (foldl base32_step (0, 0, []) bytes) as [[acc k] out].
  destruct IH as (ds & -> & Hd & Ha & Hk & Hl & Hv). unfold base32_step.
  destruct (shift_in acc b k Ha Hb ltac:(lia)) as [Ha' Hm].
  set (acc' := Z.lor _ b) in *.
  destruct (drain_spec (Z.to_nat (k + 8)) acc' (k + 8) (map base32_char ds) ds)
    as (ds' & k' & -> & Hd' & Hk' & Hl' & Hv'); try done; try lia.
  exists ds'. split_and!; try done; try lia.
  - rewrite length_app. cbn. lia.
  - rewrite Hv', Hm, be_value_snoc, <- Hv, Z.pow_add_r by lia. change (2 ^ 8) with 256. ring.
Qed.

(** What [encode_base32] writes: the base-32 digits of the byte string read as
    one number and shifted left to a whole number of groups. *)
Lemma encode_base32_digits bytes :
  digits_in 256 bytes →
  ∃ ds pad, encode_base32 bytes = map base32_char ds ∧ digits_in 32 ds ∧ 0 ≤ pad < 5 ∧
    5 * Z.of_nat (length ds) = 8 * Z.of_nat (length bytes) + pad ∧
    be_value 32 ds = be_value 256 bytes * 2 ^ pad.
Proof.
  intros Hb%b32_inv_all. unfold encode_base32.
  destruct (foldl base32_step (0, 0, []) bytes) as [[acc k] out].
  destruct Hb as (ds & -> & Hd & Ha & Hk & Hl & Hv).
  destruct (Z.ltb_spec 0 k) as [Hpos|Hz].
  - rewrite land_31, u32_wrap_mod, Z.shiftl_mul_pow2 by lia.
    assert (Hi : ((acc * 2 ^ (5 - k)) mod 2 ^ 32) mod 32 = acc mod 2 ^ k * 2 ^ (5 - k)).
    { change (2 ^ 32) with (32 * 2 ^ 27). rewrite Z.rem_mul_r, Z.mul_comm by lia.
      rewrite (Z.mul_comm 32), Z.mod_add, Z.mod_mod by lia.
      replace 32 with (2 ^ k * 2 ^ (5 - k)) by (rewrite <- Z.pow_add_r by lia; by replace (k + (5 - k)) with 5 by lia).
      rewrite (Z.mul_comm (2 ^ (5 - k)) acc), Z.mul_mod_distr_r by (apply Z.pow_nonzero; lia). done. }
    rewrite Hi. exists (ds ++ [acc mod 2 ^ k * 2 ^ (5 - k)]), (5 - k).
    pose proof (Z.mod_pos_bound acc (2 ^ k) ltac:(apply Z.pow_pos_nonneg; lia)).
    assert (H32 : 2 ^ k * 2 ^ (5 - k) = 32) by (rewrite <- Z.pow_add_r by lia; by replace (k + (5 - k)) with 5 by lia).
    pose proof (Z.pow_pos_nonneg 2 (5 - k) ltac:(lia) ltac:(lia)).
    split_and!; try lia.
    + by rewrite map_app.
    + apply Forall_app. split; [done|]. apply Forall_singleton. nia.
    + rewrite length_app. cbn. lia.
    + rewrite be_value_snoc, <- Hv. rewrite <- H32. ring.
  - assert (k = 0) as -> by lia. exists ds, 0. split_and!; try done; try lia.
    rewrite Z.mod_1_r in Hv. lia.
Qed.

Lemma alphabet_unique : NoDup BASE32_ALPHABET.
Proof.
  apply (NoDup_fmap_1 (λ c, [c])), (bool_decide_unpack _). vm_compute. reflexivity.
Qed.

Lemma base32_char_in i : 0 ≤ i < 32 → base32_char i ∈ BASE32_ALPHABET.
Proof.
  intros Hi. unfold base32_char. destruct (lookup_lt_is_Some_2 BASE32_ALPHABET (Z.to_nat i)) as [c Hc].
  { change (length BASE32_ALPHABET) with 32%nat. lia. }
  rewrite Hc. cbn. by eapply list_elem_of_lookup_2.
Qed.

Lemma base32_char_inj i j : 0 ≤ i < 32 → 0 ≤ j < 32 → base32_char i = base32_char j → i = j.
Proof.
  intros Hi Hj. unfold base32_char.
  destruct (lookup_lt_is_Some_2 BASE32_ALPHABET (Z.to_nat i)) as [c Hc];
    [change (length BASE32_ALPHABET) with 32%nat; lia|].
  destruct (lookup_lt_is_Some_2 BASE32_ALPHABET (Z.to_nat j)) as [d Hd];
    [change (length BASE32_ALPHABET) with 32%nat; lia|].
  rewrite Hc, Hd. cbn. intros ->.
  assert (Z.to_nat i = Z.to_nat j) by (eapply NoDup_lookup; [apply alphabet_unique|done..]). lia.
Qed.

Lemma map_base32_inj ds1 ds2 :
  digits_in 32 ds1 → digits_in 32 ds2 → map base32_char ds1 = map base32_char ds2 → ds1 = ds2.
Proof.
  intros H1. revert ds2. induction H1 as [|d ds1 Hd H1 IH]; intros ds2 H2 Heq.
  - by destruct ds2.
  - destruct ds2 as [|d2 ds2]; [done|]. apply Forall_cons in H2 as [Hd2 H2].
    injection Heq as Hc Heq. f_equal; [by apply base32_char_inj|by apply IH].
Qed.

(** ** TOTP: lemmas *)

Section totp_lemmas.
Context (hmac_sha1 : list Z → list Z → list Z).
Hypothesis hmac_length : ∀ key msg, length (hmac_sha1 key msg) = 20%nat.
#[local] Set Default Proof Using "All".

(** Every index of the truncation is within the twenty digest bytes. *)
Lemma truncate_total key msg : ∃ v, truncate (hmac_sha1 key msg) = Some v.
Proof.
  unfold truncate. set (d := hmac_sha1 key msg). pose proof (hmac_length key msg : length d = 20%nat) as Hl.
  destruct (lookup_lt_is_Some_2 d (length d - 1)) as [lastb ->]; [lia|]. cbn.
  assert (Ho : (Z.to_nat (Z.land lastb 15) < 16)%nat).
  { change 15 with (Z.ones 4). rewrite Z.land_ones by lia.
    pose proof (Z.mod_pos_bound lastb (2 ^ 4) ltac:(lia)). lia. }
  set (o := Z.to_nat (Z.land lastb 15)) in *.
  destruct (lookup_lt_is_Some_2 d o) as [d0 ->]; [lia|]. cbn.
  destruct (lookup_lt_is_Some_2 d (o + 1)) as [d1 ->]; [lia|]. cbn.
  destruct (lookup_lt_is_Some_2 d (o + 2)) as [d2 ->]; [lia|]. cbn.
  destruct (lookup_lt_is_Some_2 d (o + 3)) as [d3 ->]; [lia|]. cbn. by eexists.
Qed.

Context (secret code : list Z) (dg : Z).

(** [s] is a time step, a [u64], and the code is the one of it. *)
Definition hits (s : Z) : Prop :=
  is_u64 s ∧ ∃ expected, totp_value hmac_sha1 secret s dg = Some expected ∧ str_bytes expected = code.

Lemma verify_step_spec s :
  is_u64 s → ∃ b, verify_totp_step hmac_sha1 secret code s dg = Some b ∧ (b = true ↔ hits s).
Proof.
  intros Hu. unfold verify_totp_step, hits, totp_value.
  destruct (truncate_total secret (to_be_bytes s)) as [v ->]. cbn.
  eexists; split; [done|]. rewrite bool_decide_eq_true. naive_solver.
Qed.

(** [m] is the greatest hit among the steps of [S]. *)
Definition best (S : Z → Prop) (m : option Z) : Prop :=
  match m with
  | Some x => S x ∧ hits x ∧ ∀ y, S y → hits y → y ≤ x
  | None => ∀ y, S y → ¬ hits y
  end.

Lemma best_proper S S' m : (∀ y, S y ↔ S' y) → best S m → best S' m.
Proof. intros HS. destruct m; cbn; setoid_rewrite HS; done. Qed.

Lemma try_step_spec S m c :
  (∀ s, c = Some s → is_u64 s) → best S m →
  ∃ m', try_step hmac_sha1 secret code dg c m = Some m' ∧ best (λ y, S y ∨ c = Some y) m'.
Proof.
  intros Hu Hb. destruct c as [s|]; cbn [try_step].
  2:{ exists m. split; [done|]. eapply best_proper; [|done]. intros y. naive_solver. }
  destruct (verify_step_spec s (Hu s eq_refl)) as (b & -> & Hh). cbn. eexists; split; [done|].
  destruct b.
  - assert (Hs : hits s) by by apply Hh. destruct m as [x|]; cbn in *.
    + destruct Hb as (HS & Hx & Hmax). split_and!.
      * destruct (Z.max_spec x s) as [[_ ->]|[_ ->]]; auto.
      * destruct (Z.max_spec x s) as [[_ ->]|[_ ->]]; auto.
      * intros y [Hy|[= <-]] Hhy; [specialize (Hmax y Hy Hhy)|]; lia.
    + split_and!; auto. intros y [Hy|[= <-]] Hhy; [by destruct (Hb y)|lia].
  - assert (Hs : ¬ hits s) by (rewrite <- Hh; done). destruct m as [x|]; cbn in *.
    + destruct Hb as (HS & Hx & Hmax). split_and!; auto. intros y [Hy|[= <-]] Hhy; [auto|done].
    + intros y [Hy|[= <-]]; auto.
Qed.

Lemma checked_sub_u64 step o s : is_u64 step → 0 ≤ o → u64_checked_sub step o = Some s → is_u64 s.
Proof. unfold u64_checked_sub, is_u64. intros ?? E. case_match; simplify_eq. bprop. lia. Qed.
Lemma checked_add_u64 step o s : is_u64 step → 0 ≤ o → u64_checked_add step o = Some s → is_u64 s.
Proof. unfold u64_checked_add, is_u64. intros ?? E. case_match; simplify_eq. bprop. lia. Qed.

Lemma try_offsets_spec step offsets S m :
  is_u64 step → Forall (λ o, 0 ≤ o) offsets → best S m →
  ∃ m', try_offsets hmac_sha1 secret code dg step offsets m = Some m' ∧
    best (λ y, S y ∨ ∃ o, o ∈ offsets ∧
           (u64_checked_sub step o = Some y ∨ o ≠ 0 ∧ u64_checked_add step o = Some y)) m'.
Proof.
  intros Hu Ho. revert S m. induction Ho as [|o offsets Ho _ IH]; intros S m Hb; cbn [try_offsets].
  { exists m. split; [done|]. eapply best_proper; [|done]. intros y. set_solver. }
  destruct (try_step_spec S m (u64_checked_sub step o)) as (m1 & -> & H1);
    [intros s; by apply checked_sub_u64|done|]. cbn.
  assert (∃ m2, (if o =? 0 then Some m1
      else try_step hmac_sha1 secret code dg (u64_checked_add step o) m1) = Some m2 ∧
    best (λ y, (S y ∨ u64_checked_sub step o = Some y) ∨
               o ≠ 0 ∧ u64_checked_add step o = Some y) m2) as (m2 & -> & H2).
  { destruct (Z.eqb_spec o 0) as [->|Hne].
    - exists m1. split; [done|]. eapply best_proper; [|done]. intros y. naive_solver.
    - destruct (try_step_spec _ m1 (u64_checked_add step o) (λ s, checked_add_u64 step o s Hu Ho) H1)
        as (m2 & -> & H2).
      exists m2. split; [done|]. eapply best_proper; [|done]. intros y. naive_solver. }
  cbn. destruct (IH _ _ H2) as (m' & -> & H'). exists m'. split; [done|].
  eapply best_proper; [|done]. intros y. setoid_rewrite elem_of_cons. naive_solver.
Qed.
End totp_lemmas.

(** ** Recovery codes: lemmas *)

Definition recovery_keep (b : Z) : bool := negb (b =? 45) && negb (is_ascii_whitespace b).

Lemma group4_cons a b c d e r :
  group4 (a :: b :: c :: d :: e :: r) = a :: b :: c :: d :: 45 :: group4 (e :: r).
Proof. reflexivity. Qed.

Lemma group4_filter s :
  forallb recovery_keep s = true → List.filter recovery_keep (group4 s) = s.
Proof.
  remember (length s) as n eqn:Hn. revert s Hn.
  induction n as [n IH] using (well_founded_induction Nat.lt_wf_0). intros s -> H.
  assert (Hf : ∀ l, forallb recovery_keep l = true → List.filter recovery_keep l = l).
  { clear. induction l as [|x l IH]; cbn; [done|]. intros [-> ?]%andb_true_iff. by rewrite IH. }
  destruct s as [|a [|b [|c [|d [|e r]]]]]; try (by apply Hf).
  rewrite group4_cons. cbn in H. rewrite !andb_true_iff in H. destruct H as (Ha & Hb & Hc & Hd & He).
  cbn [List.filter]. rewrite Ha, Hb, Hc, Hd.
  change (recovery_keep 45) with false. cbn iota.
  assert (Hr : List.filter recovery_keep (group4 (e :: r)) = e :: r).
  { apply (IH (length (e :: r))); [cbn; lia|done|cbn; by apply andb_true_iff]. }
  by rewrite Hr.
Qed.

Lemma alphabet_facts :
  forallb (λ c, recovery_keep c && (c <? 128) && (0 <=? c) && bool_decide (ascii_upper c = c)) BASE32_ALPHABET = true.
Proof. vm_compute. reflexivity. Qed.

Lemma alphabet_char c :
  c ∈ BASE32_ALPHABET → recovery_keep c = true ∧ 0 ≤ c < 128 ∧ ascii_upper c = c.
Proof.
  pose proof alphabet_facts as H. rewrite forallb_spec in H. intros Hc%H. bprop. naive_solver lia.
Qed.

Lemma group4_in s c : c ∈ group4 s → c = 45 ∨ c ∈ s.
Proof.
  remember (length s) as n eqn:Hn. revert s Hn.
  induction n as [n IH] using (well_founded_induction Nat.lt_wf_0). intros s ->.
  destruct s as [|x1 [|x2 [|x3 [|x4 [|x5 r]]]]]; try (by right).
  rewrite group4_cons, !elem_of_cons. intros [?|[?|[?|[?|[?|H]]]]]; auto 10.
  apply (IH (length (x5 :: r))) in H; [|cbn; lia|done].
  rewrite elem_of_cons in H. tauto.
Qed.

Lemma normalize_grouped s :
  (∀ c, c ∈ s → c ∈ BASE32_ALPHABET) → length s = 16%nat →
  normalize_recovery_code (group4 s) = Ok s.
Proof.
  intros Hs Hl. unfold normalize_recovery_code.
  assert (Hb : str_bytes (group4 s) = group4 s).
  { apply str_bytes_ascii, Forall_forall. intros c [->|Hc%Hs%alphabet_char]%group4_in; lia. }
  assert (Hk : forallb recovery_keep s = true).
  { apply forallb_spec. intros c Hc%Hs%alphabet_char. tauto. }
  rewrite Hb. change (λ b, negb (b =? 45) && negb (is_ascii_whitespace b)) with recovery_keep.
  rewrite group4_filter by done.
  assert (Hu : map ascii_upper s = s).
  { clear -Hs. induction s as [|c s IH]; [done|]. cbn. f_equal; [apply alphabet_char, Hs; left|].
    apply IH. intros; apply Hs; by right. }
  rewrite Hu, Hl. rewrite bool_decide_true by done.
  assert (Hf : forallb (λ b, bool_decide (b ∈ BASE32_ALPHABET)) s = true).
  { apply forallb_spec. intros c Hc%Hs. by apply bool_decide_eq_true. }
  rewrite Hf. cbn. rewrite <- (str_bytes_ascii s) at 1.
  - rewrite from_utf8_str_bytes; [done|]. apply forallb_spec. intros c Hc%Hs%alphabet_char.
    unfold is_scalar. lia.
  - apply Forall_forall. intros c Hc%Hs%alphabet_char. lia.
Qed.

Lemma encode_base32_alphabet bytes :
  digits_in 256 bytes → ∀ c, c ∈ encode_base32 bytes → c ∈ BASE32_ALPHABET.
Proof.
  intros (ds & pad & -> & Hd & _)%encode_base32_digits c (d & -> & Hin)%list_elem_of_fmap.
  apply base32_char_in. unfold digits_in in Hd. rewrite Forall_forall in Hd. auto.
Qed.

(** ** Percent encoding: a decoder, and lemmas *)

Definition hex_value (c : char) : option Z :=
  if in_range 48 57 c then Some (c - 48) else if in_range 65 70 c then Some (c - 55) else None.
Fixpoint percent_decode (s : str) : option (list Z) :=
  match s with
  | [] => Some []
  | c :: r =>
      if c =? 37 then
        match r with
        | h :: l :: r =>
            match hex_value h, hex_value l, percent_decode r with
            | Some h, Some l, Some bs => Some (h * 16 + l :: bs)
            | _, _, _ => None
            end
        | _ => None
        end
      else match percent_decode r with Some bs => Some (c :: bs) | None => None end
  end.

Lemma hex_value_digit n : 0 ≤ n < 16 → hex_value (hex_digit n) = Some n.
Proof.
  intros Hn. unfold hex_value, hex_digit, in_range. destruct (Z.ltb_spec n 10).
  - rewrite (proj2 (andb_true_iff _ _)) by lia. f_equal. lia.
  - destruct (_ && _) eqn:E; [lia|]. rewrite (proj2 (andb_true_iff _ _)) by lia. f_equal. lia.
Qed.

Lemma percent_decode_byte b s :
  0 ≤ b < 256 → percent_decode (percent_byte b ++ s) = (λ bs, b :: bs) <$> percent_decode s.
Proof.
  intros Hb. unfold percent_byte. destruct (unreserved b) eqn:Hu; cbn [app percent_decode].
  - destruct (Z.eqb_spec b 37) as [->|]; [by vm_compute in Hu|]. by destruct (percent_decode s).
  - rewrite Z.eqb_refl. rewrite !hex_value_digit.
    + destruct (percent_decode s); cbn; [|done]. do 2 f_equal. pose proof (Z.div_mod b 16). lia.
    + apply Z.mod_pos_bound. lia.
    + split; [apply Z.div_pos; lia|apply Z.div_lt_upper_bound; lia].
Qed.

Lemma utf8_bytes_range s : wf_str s = true → digits_in 256 (str_bytes s).
Proof.
  intros Hs. unfold wf_str in Hs. rewrite forallb_spec in Hs. apply Forall_forall. intros b Hb.
  apply list_elem_of_bind in Hb as (c & Hb & Hc). specialize (Hs c Hc).
  unfold is_scalar in Hs. unfold utf8_char in Hb. bprop.
  pose proof (Z.div_mod c 64 ltac:(lia)). pose proof (Z.mod_pos_bound c 64 ltac:(lia)).
  repeat case_match; bprop; set_unfold in Hb;
  pose proof (Z.mod_pos_bound (c / 64) 64 ltac:(lia)); pose proof (Z.mod_pos_bound (c / 4096) 64 ltac:(lia));
  pose proof (Z.div_lt_upper_bound c 64 32); pose proof (Z.div_lt_upper_bound c 4096 16);
  pose proof (Z.div_lt_upper_bound c 262144 8);
  pose proof (Z.div_pos c 64); pose proof (Z.div_pos c 4096); pose proof (Z.div_pos c 262144);
  intuition lia.
Qed.

(** ** Properties *)

Section mfa_properties.
(** Base32 is the positional encoding and loses nothing.  The output has
    [ceil(8n/5)] characters of the alphabet; they are the base-32 digits of
    the input read as one big-endian number, shifted left by the padding
    bits, in spite of the 32-bit accumulator that wraps; and two byte strings
    with the same encoding are equal. *)
Theorem base32_faithful bytes1 bytes2 :
  digits_in 256 bytes1 → digits_in 256 bytes2 →
  (∃ ds pad, encode_base32 bytes1 = map base32_char ds ∧ digits_in 32 ds ∧ 0 ≤ pad < 5 ∧
     5 * Z.of_nat (length ds) = 8 * Z.of_nat (length bytes1) + pad ∧
     be_value 32 ds = be_value 256 bytes1 * 2 ^ pad) ∧
  (encode_base32 bytes1 = encode_base32 bytes2 → bytes1 = bytes2).
Proof.
  intros H1 H2. split; [by apply encode_base32_digits|]. intros Heq.
  destruct (encode_base32_digits bytes1 H1) as (ds1 & pad1 & E1 & D1 & P1 & L1 & V1).
  destruct (encode_base32_digits bytes2 H2) as (ds2 & pad2 & E2 & D2 & P2 & L2 & V2).
  assert (ds1 = ds2) as <- by (apply map_base32_inj; congruence).
  assert (length bytes1 = length bytes2) by lia. assert (pad1 = pad2) as <- by lia.
  apply (be_value_inj 256); try done. apply (Z.mul_cancel_r _ _ (2 ^ pad1)); [|lia].
  apply Z.pow_nonzero; lia.
Qed.

(** The steps of the window: those within the skew of the clock's step. *)
Definition in_window (config : TotpConfig) (now s : Z) : Prop :=
  is_u64 s ∧ Z.abs (s - now / period_seconds config) ≤ Z.max 0 (allowed_skew_steps config).

Lemma clock_step_u64 now period : is_u64 now → 1 ≤ period → is_u64 (now / period).
Proof.
  unfold is_u64. intros Hnow Hp. split; [apply Z.div_pos; lia|].
  etrans; [apply Z.div_le_upper_bound; [lia|]|apply Hnow]. nia.
Qed.

Lemma try_window_spec hmac_sha1 secret code dg now config :
  (∀ key msg, length (hmac_sha1 key msg) = 20%nat) → is_u64 now → 1 ≤ period_seconds config →
  ∃ m, try_offsets hmac_sha1 secret code dg (now / period_seconds config)
         (map Z.of_nat (seq 0 (S (Z.to_nat (allowed_skew_steps config))))) None = Some m
    ∧ best hmac_sha1 secret code dg (in_window config now) m.
Proof.
  intros Hmac Hnow Hp. unfold in_window. set (step := now / period_seconds config).
  assert (is_u64 step) as Hstep by (by apply clock_step_u64).
  destruct (try_offsets_spec hmac_sha1 Hmac secret code dg step
    (map Z.of_nat (seq 0 (S (Z.to_nat (allowed_skew_steps config))))) (λ _, False) None)
    as (m & -> & Hm); [done| |by intros y []|].
  { apply Forall_fmap, Forall_forall. intros k _. cbn. lia. }
  exists m. split; [done|]. eapply best_proper; [exact Hmac| |exact Hm]. unfold is_u64 in *.
  intros y. cbn beta. split.
  - intros [[]|(o & Ho & Hy)]. apply list_elem_of_fmap in Ho as (k & -> & Hk%elem_of_seq).
    unfold u64_checked_sub, u64_checked_add in Hy.
    destruct Hy as [Hy|[_ Hy]]; case_match; simplify_eq; bprop; lia.
  - intros [Hy1 Hy2]. right. exists (Z.abs (y - step)). split.
    + apply list_elem_of_fmap. exists (Z.to_nat (Z.abs (y - step))).
      split; [lia|]. apply elem_of_seq. lia.
    + unfold u64_checked_sub, u64_checked_add. destruct (Z.le_gt_cases y step).
      * left. rewrite (proj2 (Z.leb_le _ _)) by lia. f_equal. lia.
      * right. split; [lia|]. rewrite (proj2 (Z.leb_le _ _)) by lia. f_equal. lia.
Qed.

(** TOTP verification.  With a 20-byte HMAC, a valid configuration and a
    well-formed code, verification never reads the digest out of range and
    returns the greatest time step within the skew window (cut to [u64])
    whose code is the given one, or nothing when there is none. *)
Theorem verify_totp_greatest_step hmac_sha1 secret code now period dg skew config :
  (∀ key msg, length (hmac_sha1 key msg) = 20%nat) →
  TotpConfig_new period dg skew = Ok config → 0 ≤ skew → 0 ≤ now ≤ u64_max →
  (16 ≤ length secret)%nat → str_len code = dg → forallb is_ascii_digit (str_bytes code) = true →
  ∃ m, verify_totp hmac_sha1 secret code now config = Some (Ok m) ∧
    best hmac_sha1 secret (str_bytes code) dg
      (λ s, 0 ≤ s ≤ u64_max ∧ now / period - skew ≤ s ≤ now / period + skew) m.
Proof.
  intros Hmac Hcfg Hskew Hnow Hsec Hlen Hdig. unfold TotpConfig_new in Hcfg.
  apply fail_Ok in Hcfg as [Hb [= <-]]. bprop. unfold verify_totp.
  rewrite bool_decide_false by lia. cbn [digits period_seconds allowed_skew_steps].
  rewrite (proj2 (Z.eqb_eq _ _)) by done. rewrite Hdig. cbn [negb orb].
  destruct (try_window_spec hmac_sha1 secret (str_bytes code) dg now (mk_totp period dg skew))
    as (m & E & Hm); [done|done|cbn; lia|].
  cbn [period_seconds allowed_skew_steps] in E. rewrite E. exists m. split; [done|].
  eapply best_proper; [exact Hmac| |exact Hm]. intros y. unfold in_window, is_u64. cbn. lia.
Qed.

(** Recovery codes round trip.  Whatever ten bytes the random source
    gives, the generated code can be hashed under any pepper of 128 bits or
    more, and the code so displayed verifies against that hash, as does anything
    typed that normalizes to the same sixteen characters. *)
Theorem recovery_code_roundtrip (hmac : list Z → list Z → list Z)
    (bytes pepper : list Z) :
  digits_in 256 bytes → length bytes = RECOVERY_CODE_BYTES → (16 ≤ length pepper)%nat →
  ∃ code h,
    RecoveryCode_generate (E := unit) (λ _, Ok bytes) = Ok code ∧
    normalize_recovery_code code = Ok (encode_base32 bytes) ∧
    hash_recovery_code hmac pepper code = Ok h ∧
    verify_recovery_code hmac pepper code h = Ok true ∧
    ∀ typed, normalize_recovery_code typed = Ok (encode_base32 bytes) →
             verify_recovery_code hmac pepper typed h = Ok true.
Proof.
  intros Hb Hl Hp.
  assert (Hlen : length (encode_base32 bytes) = 16%nat).
  { destruct (encode_base32_digits bytes Hb) as (ds & pad & -> & _ & Hpad & Hlen & _).
    rewrite length_map. unfold RECOVERY_CODE_BYTES in Hl. lia. }
  pose proof (normalize_grouped _ (encode_base32_alphabet bytes Hb) Hlen) as Hn.
  assert (Hv : ∀ typed, normalize_recovery_code typed = Ok (encode_base32 bytes) →
    hash_recovery_code hmac pepper typed = Ok (hmac pepper (str_bytes (encode_base32 bytes)))).
  { intros typed Ht. unfold hash_recovery_code. rewrite bool_decide_false by lia. by rewrite Ht. }
  eexists _, _. split; [done|]. split; [done|]. split; [by apply Hv|].
  assert (Hver : ∀ typed, normalize_recovery_code typed = Ok (encode_base32 bytes) →
    verify_recovery_code hmac pepper typed (hmac pepper (str_bytes (encode_base32 bytes))) = Ok true).
  { intros typed Ht. unfold verify_recovery_code. rewrite Hv by done. cbn.
    by rewrite bool_decide_true. }
  split; auto.
Qed.

(** Percent encoding is reversible: decoding what [percent_encode] wrote
    gives the bytes of the value, so distinct issuers and accounts stay
    distinct in a provisioning URI. *)
Theorem percent_encode_roundtrip value :
  wf_str value = true → percent_decode (percent_encode value) = Some (str_bytes value).
Proof.
  intros Hb%utf8_bytes_range. unfold percent_encode.
  induction Hb as [|b bs Hb _ IH]; [done|]. rewrite bind_cons, percent_decode_byte by done.
  by rewrite IH.
Qed.

Lemma base32_faithful_witness :
  ∃ ds pad, encode_base32 [1; 2; 3] = map base32_char ds ∧ digits_in 32 ds ∧ 0 ≤ pad < 5 ∧
    5 * Z.of_nat (length ds) = 8 * 3 + pad ∧ be_value 32 ds = be_value 256 [1; 2; 3] * 2 ^ pad.
Proof.
  apply (base32_faithful [1; 2; 3] [1; 2; 3]); repeat constructor; lia.
Defined.

Lemma verify_totp_greatest_step_witness :
  ∃ m, verify_totp (λ _ _, replicate 20 0) (replicate 16 7) (lit "000000") 59 TotpConfig_default
       = Some (Ok m).
Proof.
  destruct (verify_totp_greatest_step (λ _ _, replicate 20 0) (replicate 16 7) (lit "000000") 59
    30 6 1 TotpConfig_default) as (m & H & _).
  - intros _ _. reflexivity.
  - reflexivity.
  - lia.
  - unfold u64_max. lia.
  - cbn. lia.
  - reflexivity.
  - reflexivity.
  - exists m. exact H.
Defined.

Lemma recovery_code_roundtrip_witness :
  ∃ code, RecoveryCode_generate (E := unit) (λ _, Ok (replicate 10 255)) = Ok code.
Proof.
  destruct (recovery_code_roundtrip (λ k m, m) (replicate 10 255) (replicate 16 1)) as (c & h & H & _).
  - repeat constructor; lia.
  - reflexivity.
  - cbn. lia.
  - exists c. exact H.
Defined.

End mfa_properties.
