(* ===== verification/Authorization.v ===== *)
(** * Authorization: requests, decisions and the provider port

    Models src/crates/wasi-auth/src/authorization.rs: validated names and
    resources, the access request with its tenant boundary, decisions, the
    [DecisionProvider] port (a type class with the law its callers rely on) and
    the bounded [Authorizer]; with the exact-rule provider of
    src/crates/wasi-auth/src/testkit.rs as a first instance.  A provider that
    answers asynchronously is a function of the request here: an evaluation
    does not change the provider. *)

From S2P Require Export Context.
Open Scope Z_scope.

Definition MAX_BATCH_CHECKS : nat := 100.
Definition MAX_NAME_BYTES : Z := 128.
Definition MAX_RESOURCE_ID_BYTES : Z := 512.
Definition MAX_ATTRIBUTES : nat := 64.
Definition MAX_ATTRIBUTE_VALUE_BYTES : Z := 2048.

Inductive AuthorizationRequestError :=
| InvalidName | InvalidResourceId | TenantMismatch | TooManyAttributes | InvalidAttribute.
#[export] Instance AuthorizationRequestError_eq_dec : EqDecision AuthorizationRequestError.
Proof. solve_decision. Defined.

(** [.], [_], [-], [:] *)
Definition name_byte (b : Z) : bool := is_ascii_alphanumeric b || one_of [46; 95; 45; 58] b.
Definition validate_name (value : str) : result AuthorizationRequestError unit :=
  fail? is_empty value || (MAX_NAME_BYTES <? str_len value)
        || negb (forallb name_byte (str_bytes value)) with InvalidName ;;
  Ok tt.

(** [ActionName::new] and [ResourceType::new]. *)
Definition ActionName_new (value : str) : result AuthorizationRequestError str :=
  try? validate_name value ;; Ok value.
Definition ResourceType_new (value : str) : result AuthorizationRequestError str :=
  try? validate_name value ;; Ok value.

Record Resource := mk_resource {
  resource_type : str;
  resource_id : str;
  resource_organization_id : option str;
}.
Definition Resource_new (ty id : str) (org : option str) : result AuthorizationRequestError Resource :=
  fail? is_empty id || (MAX_RESOURCE_ID_BYTES <? str_len id) || existsb is_control id
    with InvalidResourceId ;;
  Ok (mk_resource ty id org).

Inductive ConsistencyRequirement :=
| MinimizeLatency
| FullyConsistent
| AtLeastAsFresh (token : str).
#[export] Instance ConsistencyRequirement_eq_dec : EqDecision ConsistencyRequirement.
Proof. solve_decision. Defined.

Record AccessRequest := mk_request {
  context : VerifiedAuthContext;
  action : str;
  resource : Resource;
  consistency : ConsistencyRequirement;
  attributes : bmap str;
  authorization : option AuthorizationSnapshot;
}.

Definition AccessRequest_new (c : VerifiedAuthContext) (a : str) (r : Resource) :
    result AuthorizationRequestError AccessRequest :=
  fail? negb (system_administrator (principal c))
        && negb (bool_decide (resource_organization_id r = ctx_organization_id c))
    with TenantMismatch ;;
  Ok (mk_request c a r MinimizeLatency [] None).
Definition with_authorization_snapshot (q : AccessRequest) (s : AuthorizationSnapshot) : AccessRequest :=
  mk_request (context q) (action q) (resource q) (consistency q) (attributes q) (Some s).
Definition with_consistency (q : AccessRequest) (c : ConsistencyRequirement) : AccessRequest :=
  mk_request (context q) (action q) (resource q) c (attributes q) (authorization q).
Definition with_attribute (q : AccessRequest) (name value : str) :
    result AuthorizationRequestError AccessRequest :=
  fail? bool_decide (MAX_ATTRIBUTES ≤ length (attributes q))%nat with TooManyAttributes ;;
  try? map_err (λ _, InvalidAttribute) (validate_name name) ;;
  fail? (MAX_ATTRIBUTE_VALUE_BYTES <? str_len value) || existsb is_control value
    with InvalidAttribute ;;
  Ok (mk_request (context q) (action q) (resource q) (consistency q)
        (bmap_insert name value (attributes q)) (authorization q)).

Record Decision := mk_decision {
  allowed : bool;
  reason : str;
  policy_revision : str;
  consistency_token : option str;
}.
Definition Decision_allow (revision reason : str) : Decision := mk_decision true reason revision None.
Definition Decision_deny (revision reason : str) : Decision := mk_decision false reason revision None.
Definition with_consistency_token (d : Decision) (token : str) : Decision :=
  mk_decision (allowed d) (reason d) (policy_revision d) (Some token).

Record ProviderCapabilities := mk_capabilities {
  cap_batch_check : bool;
  cap_list_resources : bool;
  cap_consistency_tokens : bool;
}.

(** ** The provider port *)

(** The default [batch_check] of the trait. *)
Definition default_batch_check {E} (check : AccessRequest → result E Decision)
    (requests : list AccessRequest) : result E (list Decision) :=
  collect_map check requests.

Class DecisionProvider (P E : Type) := {
  dp_capabilities : P → ProviderCapabilities;
  dp_check : P → AccessRequest → result E Decision;
  dp_batch_check : P → list AccessRequest → result E (list Decision);
  (** a batch that is answered is answered request by request *)
  dp_batch_length p requests decisions :
    dp_batch_check p requests = Ok decisions → length decisions = length requests;
}.

Inductive BatchAuthorizationError (E : Type) :=
| TooManyRequests
| Provider (e : E).
Arguments TooManyRequests {E}.
Arguments Provider {E} e.

Section authorizer.
Context {P E : Type} `{DecisionProvider P E}.
Definition Authorizer_check (p : P) (q : AccessRequest) : result E Decision := dp_check p q.
Definition Authorizer_batch_check (p : P) (requests : list AccessRequest) :
    result (BatchAuthorizationError E) (list Decision) :=
  fail? bool_decide (MAX_BATCH_CHECKS < length requests)%nat with TooManyRequests ;;
  map_err Provider (dp_batch_check p requests).
End authorizer.

(** ** testkit.rs: exact rules *)

Record InMemoryRule := mk_rule {
  rule_user_id : str;
  rule_organization_id : option str;
  rule_action : str;
  rule_resource_type : str;
  rule_resource_id : str;
}.
#[export] Instance InMemoryRule_eq_dec : EqDecision InMemoryRule.
Proof. solve_decision. Defined.

Record InMemoryDecisionProvider := mk_in_memory {
  rules : list InMemoryRule;
  in_memory_revision : str;
}.
Definition InMemoryDecisionProvider_new (rs : list InMemoryRule) :
    result ContextError InMemoryDecisionProvider :=
  let? revision := identifier_new (lit "testkit-in-memory-v1") in
  Ok (mk_in_memory rs revision).
Definition rule_of (q : AccessRequest) : InMemoryRule :=
  mk_rule (p_user_id (principal (context q))) (resource_organization_id (resource q)) (action q)
    (resource_type (resource q)) (resource_id (resource q)).
Definition in_memory_check (p : InMemoryDecisionProvider) (q : AccessRequest) :
    result Empty_set Decision :=
  Ok (if bool_decide (rule_of q ∈ rules p)
      then Decision_allow (in_memory_revision p) (lit "testkit.allow")
      else Decision_deny (in_memory_revision p) (lit "testkit.deny")).

#[export] Instance in_memory_provider : DecisionProvider InMemoryDecisionProvider Empty_set := {
  dp_capabilities _ := mk_capabilities false false false;
  dp_check := in_memory_check;
  dp_batch_check p := default_batch_check (in_memory_check p);
  dp_batch_length p requests decisions := length_collect_map (in_memory_check p) requests decisions;
}.

(** ** Issuer-scoped identities (cedar.rs and spicedb.rs) *)

Section identity.
(** base64's URL-safe engine without padding. *)
Context (base64_url : list Z → str).
Definition identity_bytes (p : Principal) : list Z :=
  str_bytes (p_issuer p) ++ [0] ++ str_bytes (p_user_id p).
Definition canonical_principal_id (q : AccessRequest) : str :=
  lit "v1_" ++ base64_url (identity_bytes (principal (context q))).
End identity.

(** The attributes sent to a provider: the verified organization overwrites an
    application attribute of the same name. *)
Definition ORGANIZATION_ATTRIBUTE : str := lit "wasi_organization_id".
Definition request_context (q : AccessRequest) : bmap str :=
  match ctx_organization_id (context q) with
  | Some org => bmap_insert ORGANIZATION_ATTRIBUTE org (attributes q)
  | None => attributes q
  end.

(** ** Requests as their builders make them *)

Inductive request_built : AccessRequest → Prop :=
| built_new c a r q : AccessRequest_new c a r = Ok q → request_built q
| built_snapshot q s : request_built q → request_built (with_authorization_snapshot q s)
| built_consistency q c : request_built q → request_built (with_consistency q c)
| built_attribute q n v q' : request_built q → with_attribute q n v = Ok q' → request_built q'.

Lemma length_bmap_insert {V} k (v : V) (m : bmap V) :
  (length (bmap_insert k v m) ≤ S (length m))%nat.
Proof.
  induction m as [|[k' v'] m IH]; cbn; [lia|]. repeat case_match; cbn; lia.
Qed.

Record request_ok (q : AccessRequest) : Prop := {
  rok_tenant : system_administrator (principal (context q)) = true ∨
               resource_organization_id (resource q) = ctx_organization_id (context q);
  rok_sorted : msorted (attributes q);
  rok_count : (length (attributes q) ≤ MAX_ATTRIBUTES)%nat;
  rok_attribute n v : (n, v) ∈ attributes q →
    validate_name n = Ok tt ∧ str_len v ≤ MAX_ATTRIBUTE_VALUE_BYTES ∧
    ∀ c, c ∈ v → is_control c = false;
}.

Lemma bmap_insert_elem {V} k (v : V) (m : bmap V) k' v' :
  (k', v') ∈ bmap_insert k v m → (k' = k ∧ v' = v) ∨ (k', v') ∈ m.
Proof.
  induction m as [|[k1 v1] m IH]; cbn; [set_solver|]. repeat case_match; set_solver.
Qed.

Lemma request_built_ok q : request_built q → request_ok q.
Proof.
  induction 1 as [c a r q H|q s _ []|q c _ []|q n v q' _ [Ht Hs Hc Ha] H].
  - unfold AccessRequest_new in H. apply fail_Ok in H as [Hb [= <-]].
    constructor; cbn; try (by constructor); [|lia|set_solver].
    apply andb_false_iff in Hb as [Hb|Hb]; apply negb_false_iff in Hb; [by left|right].
    by apply bool_decide_eq_true in Hb.
  - by constructor.
  - by constructor.
  - unfold with_attribute in H. apply fail_Ok in H as [Hlen H].
    apply rbind_Ok in H as ([] & Hn & H). apply map_err_Ok in Hn.
    apply fail_Ok in H as [Hv [= <-]]. apply bool_decide_eq_false in Hlen.
    apply orb_false_iff in Hv as [Hv1 Hv2]. rewrite existsb_false_spec in Hv2. bprop.
    constructor; cbn; [done|by apply bmap_insert_sorted| |].
    + pose proof (length_bmap_insert n v (attributes q)). lia.
    + intros n' v' [[-> ->]|Hin]%bmap_insert_elem; auto.
Qed.

Lemma identity_bytes_inj p1 p2 :
  (∀ c, c ∈ p_issuer p1 → is_control c = false) → (∀ c, c ∈ p_issuer p2 → is_control c = false) →
  wf_str (p_issuer p1) = true → wf_str (p_issuer p2) = true →
  wf_str (p_user_id p1) = true → wf_str (p_user_id p2) = true →
  identity_bytes p1 = identity_bytes p2 → p_issuer p1 = p_issuer p2 ∧ p_user_id p1 = p_user_id p2.
Proof.
  intros ? ? ? ? ? ? ?. by apply nul_joined_inj.
Qed.

(** What a provider is told of a request: the application's attributes, except
    that the verified organization, if there is one, stands for the attribute
    of its name. *)
Definition told (q : AccessRequest) (facts : bmap str) : Prop :=
  ∀ name, bmap_get name facts
    = match ctx_organization_id (context q) with
      | Some org => if bool_decide (name = lit "wasi_organization_id") then Some org else bmap_get name (attributes q)
      | None => bmap_get name (attributes q)
      end.
Lemma request_context_told q : request_built q → told q (request_context q).
Proof.
  intros [_ Hs _ _]%request_built_ok name. unfold request_context.
  destruct (ctx_organization_id (context q)); [|done]. by rewrite bmap_get_insert.
Qed.

(** ** Properties *)

Section authorization_properties.
(** The tenant boundary.  A request is refused exactly when its principal
    is no system administrator and its resource belongs to another
    organization (or to one and the context to none, or the reverse); and
    whatever consistency, snapshot and attributes are added later, a built
    request keeps that boundary, and at most 64 attributes with valid names
    and bounded values free of control characters. *)
Theorem request_tenant_boundary c a r q :
  (AccessRequest_new c a r = Err TenantMismatch ↔
     system_administrator (principal c) = false ∧
     resource_organization_id r ≠ ctx_organization_id c) ∧
  (request_built q →
     (system_administrator (principal (context q)) = true ∨
      resource_organization_id (resource q) = ctx_organization_id (context q)) ∧
     (length (attributes q) ≤ MAX_ATTRIBUTES)%nat ∧
     ∀ n v, (n, v) ∈ attributes q →
       validate_name n = Ok tt ∧ str_len v ≤ MAX_ATTRIBUTE_VALUE_BYTES ∧
       ∀ c, c ∈ v → is_control c = false).
Proof.
  split.
  - unfold AccessRequest_new. destruct (system_administrator (principal c)); cbn.
    + split; [done|by intros []].
    + case_bool_decide; cbn; [split; [done|by intros []]|by split].
  - intros [Ht _ Hc Ha]%request_built_ok. by split_and!.
Qed.

(** The organization that providers see is the verified one: when the
    context has an organization, no application attribute can replace it,
    and every other attribute arrives as it was set. *)
Theorem verified_organization_wins q org :
  request_built q → ctx_organization_id (context q) = Some org →
  bmap_get ORGANIZATION_ATTRIBUTE (request_context q) = Some org ∧
  ∀ n, n ≠ ORGANIZATION_ATTRIBUTE →
       bmap_get n (request_context q) = bmap_get n (attributes q).
Proof.
  intros [_ Hs _ _]%request_built_ok Ho. unfold request_context. rewrite Ho. split.
  - rewrite bmap_get_insert by done. by rewrite bool_decide_true.
  - intros n Hn. rewrite bmap_get_insert by done. by rewrite bool_decide_false.
Qed.

(** Identities are issuer-scoped.  With an injective Base64 encoding, two
    validated principals have the same provider identifier only when both
    issuer and user agree: the zero byte between them cannot occur in an
    issuer, so no user of one issuer can pass for a user of another. *)
Theorem canonical_id_injective base64_url q1 q2 p1 p2 u1 i1 a1 u2 i2 a2 :
  (∀ x y : list Z, base64_url x = base64_url y → x = y) →
  Principal_new u1 i1 a1 = Ok p1 → Principal_new u2 i2 a2 = Ok p2 →
  principal (context q1) = p1 → principal (context q2) = p2 →
  wf_str u1 = true → wf_str i1 = true → wf_str u2 = true → wf_str i2 = true →
  canonical_principal_id base64_url q1 = canonical_principal_id base64_url q2 →
  i1 = i2 ∧ u1 = u2.
Proof.
  intros Hinj H1 H2 Hq1 Hq2 Wu1 Wi1 Wu2 Wi2 Heq.
  assert (Hp : ∀ u i a p, Principal_new u i a = Ok p →
    p_issuer p = i ∧ p_user_id p = u ∧ ∀ c, c ∈ i → is_control c = false).
  { intros u i a p. unfold Principal_new. intros [Hb [= <-]]%fail_Ok.
    apply orb_false_iff in Hb as [_ Hb]. by rewrite existsb_false_spec in Hb. }
  destruct (Hp _ _ _ _ H1) as (<- & <- & Hc1), (Hp _ _ _ _ H2) as (<- & <- & Hc2).
  unfold canonical_principal_id in Heq. rewrite Hq1, Hq2 in Heq.
  apply app_inv_head, Hinj in Heq. by apply identity_bytes_inj.
Qed.

(** Bounded batches, for every provider that keeps the port's law: a
    batch of more than 100 requests is refused whatever the provider, and an
    answered batch has one decision per request. *)
Theorem batch_bounded {P E} `{DecisionProvider P E} (p : P) requests :
  match Authorizer_batch_check p requests with
  | Ok ds => (length requests ≤ MAX_BATCH_CHECKS)%nat ∧ length ds = length requests
  | Err TooManyRequests => (MAX_BATCH_CHECKS < length requests)%nat
  | Err (Provider e) =>
      (length requests ≤ MAX_BATCH_CHECKS)%nat ∧ dp_batch_check p requests = Err e
  end.
Proof.
  unfold Authorizer_batch_check. case_bool_decide; [done|].
  destruct (dp_batch_check p requests) as [ds|e] eqn:Hb; cbn; [|split; [lia|done]].
  split; [lia|]. by eapply dp_batch_length.
Qed.

Definition alice := mk_principal (lit "alice") (lit "https://idp") false.
Definition alice_context :=
  mk_auth_context alice (Some (lit "org-1")) (lit "s1") (lit "r1") Aal1 10 20 None None.
Definition alice_request :=
  mk_request alice_context (lit "doc.read") (mk_resource (lit "doc") (lit "1") (Some (lit "org-1")))
    MinimizeLatency [] None.

Lemma alice_built : request_built alice_request.
Proof.
  eapply (built_new alice_context (lit "doc.read") (mk_resource (lit "doc") (lit "1") (Some (lit "org-1")))).
  vm_compute. reflexivity.
Qed.

Lemma request_tenant_boundary_witness : (length (attributes alice_request) ≤ MAX_ATTRIBUTES)%nat.
Proof.
  exact (proj1 (proj2 (proj2 (request_tenant_boundary alice_context (lit "doc.read")
    (mk_resource (lit "doc") (lit "1") (Some (lit "org-1"))) alice_request) alice_built))).
Defined.

Lemma verified_organization_wins_witness :
  bmap_get ORGANIZATION_ATTRIBUTE (request_context alice_request) = Some (lit "org-1").
Proof.
  exact (proj1 (verified_organization_wins alice_request (lit "org-1") alice_built eq_refl)).
Defined.

Lemma canonical_id_injective_witness : lit "https://idp" = lit "https://idp" ∧ lit "alice" = lit "alice".
Proof.
  apply (canonical_id_injective (λ x, x) alice_request alice_request alice alice
    (lit "alice") (lit "https://idp") false (lit "alice") (lit "https://idp") false); try reflexivity.
  intros x y H. exact H.
Defined.
End authorization_properties.
