(* ===== verification/SpiceDb.v ===== *)
(** * SpiceDb: the SpiceDB decision provider and relationship writer

    Models src/crates/wasi-auth/src/spicedb.rs: name and identifier checks, the
    permission map, the single and the bulk permission check, and the
    relationship writer of the outbox worker, every early return included.
    Parameters: the runtime's HTTP transport, the [http] crate's request
    builder and URI type, serde_json on the wire structures, base64. *)

From S2P Require Export UnitOfWork Authorization.
Open Scope Z_scope.

Definition MAX_DOCUMENT_BYTES : Z := 256 * 1024.

Inductive SpiceDbError (T : Type) :=
| UnmappedAction
| InvalidRequest
| Transport (e : T)
| ProviderAuthentication
| ProviderUnavailable
| InvalidResponse
| ConditionalPermission.
Arguments UnmappedAction {T}.
Arguments InvalidRequest {T}.
Arguments Transport {T} e.
Arguments ProviderAuthentication {T}.
Arguments ProviderUnavailable {T}.
Arguments InvalidResponse {T}.
Arguments ConditionalPermission {T}.

Inductive SpiceDbConfigurationError :=
| InvalidEndpoint | InvalidToken | InvalidPermissionMap | InvalidPolicyRevision.

(** ** Names, identifiers and configuration values *)

Definition is_spicedb_name (value : str) : bool :=
  (3 <=? str_len value) && (str_len value <=? 64)
  && match str_bytes value with b :: _ => is_ascii_lowercase b | [] => false end
  && forallb (λ b, is_ascii_lowercase b || is_ascii_digit b || (b =? 95)) (str_bytes value).

(** [/], [_], [|], [-], [=], [+] *)
Definition is_spicedb_id (value : str) : bool :=
  negb (is_empty value) && (str_len value <=? 1024)
  && forallb (λ b, is_ascii_alphanumeric b || one_of [47; 95; 124; 45; 61; 43] b) (str_bytes value).

Definition SpiceDbBearerToken_new (value : str) : result SpiceDbConfigurationError str :=
  fail? is_empty value || (4096 <? str_len value) || existsb is_control value with InvalidToken ;;
  Ok value.

Definition PermissionMap_new (entries : list (str * str)) :
    result SpiceDbConfigurationError (bmap str) :=
  let entries := bmap_of_list entries in
  fail? match entries with [] => true | _ => false end
        || existsb (λ '(action, permission),
               is_empty action || (128 <? str_len action) || negb (is_spicedb_name permission)
               || existsb is_control action) entries with InvalidPermissionMap ;;
  Ok entries.

(** ** Wire structures *)

Record ObjectReference := mk_object { object_type : str; object_id : str }.
Record CheckItem := mk_check {
  check_resource : ObjectReference;
  check_permission : str;
  check_subject : ObjectReference;
  check_context : option (bmap str);
}.
Record CheckPermissionRequest := mk_check_request {
  cpr_consistency : ConsistencyRequirement;
  cpr_item : CheckItem;
}.
Record CheckPermissionResponse := mk_check_response {
  checked_at : option str;
  permissionship : str;
  partial_caveat_info : bool;
}.
Record CheckBulkPermissionsRequest := mk_bulk_request {
  cbr_consistency : ConsistencyRequirement;
  cbr_items : list CheckItem;
}.
(** A pair of the bulk response: the permissionship with its caveat flag, and
    whether the pair is an error. *)
Record CheckBulkPermissionsPair := mk_pair {
  pair_item : option (str * bool);
  pair_error : bool;
}.
Record CheckBulkPermissionsResponse := mk_bulk_response {
  bulk_checked_at : option str;
  pairs : list CheckBulkPermissionsPair;
}.
Record RelationshipUpdate := mk_update {
  update_operation : str;
  update_resource : ObjectReference;
  update_relation : str;
  update_subject : ObjectReference;
}.

Record OutboundRequest (Uri : Type) := mk_outbound {
  out_uri : Uri;
  out_headers : list (str * str);
  out_body : list Z;
}.
Arguments mk_outbound {Uri}.
Arguments out_uri {Uri}.
Arguments out_headers {Uri}.
Arguments out_body {Uri}.
(** A response: status, the content type when it is visible text, the body. *)
Record HttpResponse := mk_http_response {
  status : Z;
  content_type : option str;
  body : list Z;
}.

(** [split(';').next()] and [trim], as the three calls read the media type. *)
Definition media_type (r : HttpResponse) : option str :=
  (λ v, trim (default [] (head (split_char 59 v)))) <$> content_type r.

Definition relationship_update {T} (intent : RelationshipOutboxIntent) :
    result (SpiceDbError T) RelationshipUpdate :=
  let? (resource_type, resource_id) := ok_or (split_once 58 (intent_resource intent)) InvalidRequest in
  let? (subject_type, subject_id) := ok_or (split_once 58 (intent_subject intent)) InvalidRequest in
  fail? negb (is_spicedb_name resource_type) || negb (is_spicedb_id resource_id)
        || negb (is_spicedb_name subject_type) || negb (is_spicedb_id subject_id)
        || negb (is_spicedb_name (intent_relation intent)) with InvalidRequest ;;
  Ok (mk_update
        (lit match intent_operation intent with
             | Grant => "OPERATION_TOUCH"
             | Revoke => "OPERATION_DELETE"
             end)
        (mk_object resource_type resource_id) (intent_relation intent)
        (mk_object subject_type subject_id)).

Section provider.
Context {T Uri : Type}.
Context (send : OutboundRequest Uri → result T HttpResponse).
Context (builds : OutboundRequest Uri → bool) (with_path : Uri → str → option Uri).
Context (base64_url : list Z → str).
Context (check_to_vec : CheckPermissionRequest → option (list Z))
        (check_from_slice : list Z → option CheckPermissionResponse)
        (bulk_to_vec : CheckBulkPermissionsRequest → option (list Z))
        (bulk_from_slice : list Z → option CheckBulkPermissionsResponse)
        (write_to_vec : list RelationshipUpdate → option (list Z))
        (write_from_slice : list Z → option (option str)).

Record SpiceDbProvider := mk_provider {
  endpoint : Uri;
  bearer_token : str;
  permission_map : bmap str;
  provider_revision : str;
}.

Definition permission_for (p : SpiceDbProvider) (a : str) : result (SpiceDbError T) str :=
  ok_or (bmap_get a (permission_map p)) UnmappedAction.

(** The request's context object, absent when it would be empty. *)
Definition context_json (q : AccessRequest) : option (bmap str) :=
  match request_context q with [] => None | m => Some m end.

(** The item both calls send for one request. *)
Definition check_item (p : SpiceDbProvider) (q : AccessRequest) : result (SpiceDbError T) CheckItem :=
  fail? negb (is_spicedb_name (resource_type (resource q)))
        || negb (is_spicedb_id (resource_id (resource q))) with InvalidRequest ;;
  let? permission := permission_for p (action q) in
  Ok (mk_check (mk_object (resource_type (resource q)) (resource_id (resource q))) permission
        (mk_object (lit "user") (canonical_principal_id base64_url q)) (context_json q)).

(** The bounded POST and the checks of its response, which the three calls share. *)
Definition headers (token : str) (body : list Z) : list (str * str) :=
  [(lit "content-type", lit "application/json"); (lit "accept", lit "application/json");
   (lit "content-length", lit (pretty.pretty (N.of_nat (length body))));
   (lit "authorization", lit "Bearer " ++ token)].
Definition exchange (uri : Uri) (token : str) (encoded : option (list Z)) :
    result (SpiceDbError T) (list Z) :=
  let? body := ok_or encoded InvalidRequest in
  fail? MAX_DOCUMENT_BYTES <? Z.of_nat (length body) with InvalidRequest ;;
  let outbound := mk_outbound uri (headers token body) body in
  fail? negb (builds outbound) with InvalidRequest ;;
  let? response := map_err Transport (send outbound) in
  if status response =? 200 then
    fail? negb (bool_decide (media_type response = Some (lit "application/json")))
          || (MAX_DOCUMENT_BYTES <? Z.of_nat (length (SpiceDb.body response))) with InvalidResponse ;;
    Ok (SpiceDb.body response)
  else if (status response =? 401) || (status response =? 403) then Err ProviderAuthentication
  else Err ProviderUnavailable.

(** The verdict of a permissionship, with the token of the check. *)
Definition verdict (p : SpiceDbProvider) (permissionship token : str) :
    result (SpiceDbError T) Decision :=
  if bool_decide (permissionship = lit "PERMISSIONSHIP_HAS_PERMISSION") then
    Ok (with_consistency_token (Decision_allow (provider_revision p) (lit "spicedb.allow")) token)
  else if bool_decide (permissionship = lit "PERMISSIONSHIP_NO_PERMISSION") then
    Ok (with_consistency_token (Decision_deny (provider_revision p) (lit "spicedb.deny")) token)
  else if bool_decide (permissionship = lit "PERMISSIONSHIP_CONDITIONAL_PERMISSION") then
    Err ConditionalPermission
  else Err InvalidResponse.

Definition check_inner (p : SpiceDbProvider) (q : AccessRequest) : result (SpiceDbError T) Decision :=
  let? item := check_item p q in
  let? response :=
    exchange (endpoint p) (bearer_token p)
      (check_to_vec (mk_check_request (consistency q) item)) in
  let? wire := ok_or (check_from_slice response) InvalidResponse in
  fail? partial_caveat_info wire with ConditionalPermission ;;
  let? token := ok_or (checked_at wire) InvalidResponse in
  verdict p (permissionship wire) token.

Definition pair_verdict (p : SpiceDbProvider) (token : str) (pair : CheckBulkPermissionsPair) :
    result (SpiceDbError T) Decision :=
  fail? pair_error pair with ProviderUnavailable ;;
  let? (permissionship, caveat) := ok_or (pair_item pair) InvalidResponse in
  fail? caveat with ConditionalPermission ;;
  verdict p permissionship token.

Definition batch_check_inner (p : SpiceDbProvider) (requests : list AccessRequest) :
    result (SpiceDbError T) (list Decision) :=
  match requests with
  | [] => Ok []
  | first :: _ =>
      fail? existsb (λ q, negb (bool_decide (consistency q = consistency first))) requests
        with InvalidRequest ;;
      let? items := collect_map (check_item p) requests in
      let? body := ok_or (bulk_to_vec (mk_bulk_request (consistency first) items)) InvalidRequest in
      fail? MAX_DOCUMENT_BYTES <? Z.of_nat (length body) with InvalidRequest ;;
      let? uri := ok_or (with_path (endpoint p) (lit "/v1/permissions/checkbulk")) InvalidRequest in
      let? response := exchange uri (bearer_token p) (Some body) in
      let? wire := ok_or (bulk_from_slice response) InvalidResponse in
      fail? negb (bool_decide (length (pairs wire) = length requests)) with InvalidResponse ;;
      let? token := ok_or (bulk_checked_at wire) InvalidResponse in
      collect_map (pair_verdict p token) (pairs wire)
  end.

(** [SpiceDbRelationshipWriter::write]: the token of the committed write. *)
Definition write (uri : Uri) (token : str) (intents : list RelationshipOutboxIntent) :
    result (SpiceDbError T) str :=
  fail? match intents with [] => true | _ => false end
        || bool_decide (100 < length intents)%nat with InvalidRequest ;;
  let? updates := collect_map relationship_update intents in
  let? response := exchange uri token (write_to_vec updates) in
  let? written_at := ok_or (write_from_slice response) InvalidResponse in
  match written_at with
  | Some t =>
      fail? is_empty t || (4096 <? str_len t) || existsb is_control t with InvalidResponse ;; Ok t
  | None => Err InvalidResponse
  end.
End provider.

(** ** Lemmas *)

Section provider_lemmas.
Context {T Uri : Type}.
Context (send : OutboundRequest Uri → result T HttpResponse).
Context (builds : OutboundRequest Uri → bool) (with_path : Uri → str → option Uri).
Context (base64_url : list Z → str).
Context (check_to_vec : CheckPermissionRequest → option (list Z))
        (check_from_slice : list Z → option CheckPermissionResponse)
        (bulk_to_vec : CheckBulkPermissionsRequest → option (list Z))
        (bulk_from_slice : list Z → option CheckBulkPermissionsResponse)
        (write_to_vec : list RelationshipUpdate → option (list Z))
        (write_from_slice : list Z → option (option str)).

(** A successful exchange: what was sent and under which credential, and an
    answer of status 200 with a bounded JSON document. *)
Definition exchanged (uri : Uri) (token : str) (sent received : list Z) : Prop :=
  ∃ request response content,
    out_uri request = uri ∧ out_body request = sent ∧
    (lit "authorization", lit "Bearer " ++ token) ∈ out_headers request ∧
    Z.of_nat (length sent) ≤ 262144 ∧
    send request = Ok response ∧ status response = 200 ∧
    content_type response = Some content ∧
    trim (default [] (head (split_char 59 content))) = lit "application/json" ∧
    body response = received ∧ Z.of_nat (length received) ≤ 262144.

Lemma exchange_Ok uri token encoded received :
  exchange send builds uri token encoded = Ok received →
  ∃ sent, encoded = Some sent ∧ exchanged uri token sent received.
Proof.
  unfold exchange. intros H. apply rbind_Ok in H as (sent & Hs & H).
  apply fail_Ok in H as [Hl H]. cbv zeta in H. apply fail_Ok in H as [_ H].
  apply rbind_Ok in H as (response & Hr & H). apply map_err_Ok in Hr.
  destruct (status response =? 200) eqn:Est; [|by destruct (_ || _)].
  apply fail_Ok in H as [Hm [= <-]]. destruct encoded; cbn in Hs; [injection Hs as ->|done].
  apply orb_false_iff in Hm as [Hm1 Hm2]. apply negb_false_iff, bool_decide_eq_true in Hm1.
  exists sent. split; [done|]. unfold media_type in Hm1. apply fmap_Some in Hm1 as (content & Hc & Hj).
  exists (mk_outbound uri (headers token sent) sent), response, content.
  unfold MAX_DOCUMENT_BYTES in *. bprop. split_and!; try done.
  unfold headers. cbn [out_headers]. rewrite !elem_of_cons. auto.
Qed.

(** Types and identifiers that SpiceDB can name. *)
Definition spicedb_type (value : str) : Prop :=
  3 ≤ str_len value ≤ 64 ∧ (∃ b rest, str_bytes value = b :: rest ∧ 97 ≤ b ≤ 122) ∧
  ∀ b, b ∈ str_bytes value → 97 ≤ b ≤ 122 ∨ 48 ≤ b ≤ 57 ∨ b = 95.
Definition spicedb_identifier (value : str) : Prop :=
  value ≠ [] ∧ str_len value ≤ 1024 ∧
  ∀ b, b ∈ str_bytes value → 48 ≤ b ≤ 57 ∨ 65 ≤ b ≤ 90 ∨ 97 ≤ b ≤ 122 ∨ b ∈ [47; 95; 124; 45; 61; 43].
Lemma is_spicedb_name_type value : is_spicedb_name value = true → spicedb_type value.
Proof.
  unfold is_spicedb_name, spicedb_type, is_ascii_lowercase, is_ascii_digit, in_range.
  rewrite !andb_true_iff, forallb_spec. intros [[[H1 H2] Hh] Hall]. split; [bprop; lia|]. split.
  - destruct (str_bytes value) as [|b rest]; [done|]. exists b, rest. bprop. done.
  - intros b Hb. specialize (Hall b Hb). rewrite !orb_true_iff, !andb_true_iff, Z.eqb_eq, !Z.leb_le in Hall. lia.
Qed.
Lemma is_spicedb_id_identifier value : is_spicedb_id value = true → spicedb_identifier value.
Proof.
  unfold is_spicedb_id, spicedb_identifier, is_ascii_alphanumeric, is_ascii_lowercase, is_ascii_uppercase,
    is_ascii_digit, in_range, one_of.
  rewrite !andb_true_iff, forallb_spec. intros [[Hne Hl] Hall]. split; [by destruct value|]. split; [bprop; lia|].
  intros b Hb. specialize (Hall b Hb). rewrite !orb_true_iff, !andb_true_iff, !Z.leb_le, bool_decide_eq_true in Hall.
  clear -Hall. tauto.
Qed.

Lemma verdict_Ok p x token d :
  verdict (T := T) (Uri := Uri) p x token = Ok d →
  policy_revision d = provider_revision p ∧ consistency_token d = Some token ∧
  (allowed d = true ∧ x = lit "PERMISSIONSHIP_HAS_PERMISSION" ∨
   allowed d = false ∧ x = lit "PERMISSIONSHIP_NO_PERMISSION").
Proof.
  unfold verdict. case_bool_decide; [intros [= <-]; cbn; auto|].
  case_bool_decide; [intros [= <-]; cbn; auto|]. by case_bool_decide.
Qed.

Lemma check_item_Ok (p : SpiceDbProvider (Uri := Uri)) q item :
  check_item (T := T) base64_url p q = Ok item →
  is_spicedb_name (resource_type (resource q)) = true ∧
  is_spicedb_id (resource_id (resource q)) = true ∧
  ∃ permission, bmap_get (action q) (permission_map p) = Some permission ∧
    item = mk_check (mk_object (resource_type (resource q)) (resource_id (resource q))) permission
             (mk_object (lit "user") (canonical_principal_id base64_url q)) (context_json q).
Proof.
  unfold check_item, permission_for. intros [Hb H]%fail_Ok.
  apply orb_false_iff in Hb as [H1 H2]. apply negb_false_iff in H1, H2.
  destruct (bmap_get (action q) (permission_map p)) as [perm|]; [|done].
  cbn in H. injection H as <-. split; [done|]. split; [done|]. by exists perm.
Qed.

Lemma batch_length p requests ds :
  batch_check_inner send builds with_path base64_url bulk_to_vec bulk_from_slice p requests = Ok ds →
  length ds = length requests.
Proof.
  destruct requests as [|first rest]; cbn [batch_check_inner]; [by intros [= <-]|].
  intros [_ H]%fail_Ok. apply rbind_Ok in H as (items & _ & H).
  apply rbind_Ok in H as (b & _ & H). apply fail_Ok in H as [_ H].
  apply rbind_Ok in H as (uri & _ & H). apply rbind_Ok in H as (resp & _ & H).
  apply rbind_Ok in H as (wire & _ & H). apply fail_Ok in H as [Hl H].
  apply rbind_Ok in H as (token & _ & H). apply negb_false_iff, bool_decide_eq_true in Hl.
  apply length_collect_map in H. congruence.
Qed.

(** The provider implements the port. *)
#[global] Instance spicedb_provider : DecisionProvider (SpiceDbProvider (Uri := Uri)) (SpiceDbError T) := {
  dp_capabilities _ := mk_capabilities true false true;
  dp_check := check_inner send builds base64_url check_to_vec check_from_slice;
  dp_batch_check := batch_check_inner send builds with_path base64_url bulk_to_vec bulk_from_slice;
  dp_batch_length := batch_length;
}.

(** ** Properties *)

(** C26: SpiceDB checks fail closed.  A decision exists only when the resource
    has a type and an identifier that SpiceDB can name, the action is mapped,
    and the provider answered 200 with a bounded JSON document that has a check
    token and no caveat.  What was asked, under the provider's credential and
    with the request's consistency, is whether the user named by issuer and
    identifier of the principal has the mapped permission on the resource, in
    the context of the application's attributes with the verified
    organization; the decision allows exactly on HAS_PERMISSION and denies
    exactly on NO_PERMISSION, and carries the provider's token.  Everything
    else is an error. *)
Theorem spicedb_check_fail_closed p q d :
  request_built q →
  check_inner send builds base64_url check_to_vec check_from_slice p q = Ok d →
  spicedb_type (resource_type (resource q)) ∧ spicedb_identifier (resource_id (resource q)) ∧
  ∃ permission facts sent received wire token,
    let user := principal (context q) in
    bmap_get (action q) (permission_map p) = Some permission ∧ told q facts ∧
    check_to_vec
      (mk_check_request (consistency q)
         (mk_check (mk_object (resource_type (resource q)) (resource_id (resource q))) permission
            (mk_object (lit "user")
               (lit "v1_" ++ base64_url (str_bytes (p_issuer user) ++ [0] ++ str_bytes (p_user_id user))))
            (if bool_decide (facts = []) then None else Some facts))) = Some sent ∧
    exchanged (endpoint p) (bearer_token p) sent received ∧
    check_from_slice received = Some wire ∧
    partial_caveat_info wire = false ∧ checked_at wire = Some token ∧
    policy_revision d = provider_revision p ∧ consistency_token d = Some token ∧
    (allowed d = true ∧ permissionship wire = lit "PERMISSIONSHIP_HAS_PERMISSION" ∨
     allowed d = false ∧ permissionship wire = lit "PERMISSIONSHIP_NO_PERMISSION").
Proof.
  intros Hb. unfold check_inner. intros H. apply rbind_Ok in H as (item & Hi & H).
  apply rbind_Ok in H as (received & He & H). apply exchange_Ok in He as (sent & Hs & He).
  apply rbind_Ok in H as (wire & Hw & H). apply fail_Ok in H as [Hc H].
  apply rbind_Ok in H as (token & Ht & H). apply verdict_Ok in H as (Hr & Htok & Hv).
  destruct (check_item_Ok _ _ _ Hi) as (Hn & Hid & permission & Hp & ->).
  destruct (check_from_slice received) eqn:Ew; cbn in Hw; [injection Hw as ->|done].
  destruct (checked_at wire) eqn:Et; cbn in Ht; [injection Ht as ->|done].
  split; [by apply is_spicedb_name_type|]. split; [by apply is_spicedb_id_identifier|].
  exists permission, (request_context q), sent, received, wire, token. cbv zeta.
  split_and!; try done; [by apply request_context_told|]. rewrite <- Hs. repeat f_equal. unfold context_json.
  by destruct (request_context q).
Qed.

(** Bulk checks answer every request of the batch, in order: a decision
    list exists only when all requests ask for the same consistency and every
    one of them is representable and mapped, the single exchange returned as
    many pairs as requests, and each decision is the verdict of its pair,
    with no error, no missing item and no caveat in any of them. *)
Theorem spicedb_batch_pointwise p requests ds :
  requests ≠ [] →
  batch_check_inner send builds with_path base64_url bulk_to_vec bulk_from_slice p requests = Ok ds →
  (∀ q1 q2, q1 ∈ requests → q2 ∈ requests → consistency q1 = consistency q2) ∧
  Forall (λ q, is_ok (check_item (T := T) base64_url p q) = true) requests ∧
  ∃ prs token, length prs = length requests ∧
    Forall2 (λ pair d, ∃ x, pair_error pair = false ∧ pair_item pair = Some (x, false) ∧
      consistency_token d = Some token ∧
      (allowed d = true ∧ x = lit "PERMISSIONSHIP_HAS_PERMISSION" ∨
       allowed d = false ∧ x = lit "PERMISSIONSHIP_NO_PERMISSION")) prs ds.
Proof.
  destruct requests as [|first rest]; cbn [batch_check_inner]; [done|]. intros _.
  intros [Hc H]%fail_Ok. apply rbind_Ok in H as (items & Hi & H).
  apply rbind_Ok in H as (b & _ & H). apply fail_Ok in H as [_ H].
  apply rbind_Ok in H as (uri & _ & H). apply rbind_Ok in H as (resp & _ & H).
  apply rbind_Ok in H as (wire & _ & H). apply fail_Ok in H as [Hl H].
  apply rbind_Ok in H as (token & _ & H). apply negb_false_iff, bool_decide_eq_true in Hl.
  split_and!.
  - rewrite existsb_false_spec in Hc.
    assert (Hf : ∀ q, q ∈ first :: rest → consistency q = consistency first).
    { intros q Hq. specialize (Hc q Hq). by apply negb_false_iff, bool_decide_eq_true in Hc. }
    intros q1 q2 H1 H2. rewrite (Hf q1 H1), (Hf q2 H2). done.
  - apply collect_map_Ok in Hi. apply Forall_forall. intros q Hq.
    apply list_elem_of_lookup in Hq as [i Hq].
    destruct (Forall2_lookup_l _ _ _ _ _ Hi Hq) as (item & _ & Hit). by rewrite Hit.
  - exists (pairs wire), token. split; [done|]. apply collect_map_Ok in H.
    eapply Forall2_impl; [exact H|]. intros pair d Hv. unfold pair_verdict in Hv.
    apply fail_Ok in Hv as [He Hv]. destruct (pair_item pair) as [[x caveat]|] eqn:Ep; [|done].
    cbn in Hv. apply fail_Ok in Hv as [-> Hv]. apply verdict_Ok in Hv as (_ & Ht & Hx).
    exists x. by split_and!.
Qed.

(** Relationship writes.  A write that succeeds carried between 1 and 100
    intents, each translated exactly (touch for a grant, delete for a
    revocation, and the two references and the relation of the intent, which
    the update determines), in order and in one acceptable exchange. *)
Theorem spicedb_write_exact uri bearer intents token :
  write send builds write_to_vec write_from_slice uri bearer intents = Ok token →
  (1 ≤ length intents ≤ 100)%nat ∧ token ≠ [] ∧
  ∃ updates sent received,
    write_to_vec updates = Some sent ∧ exchanged uri bearer sent received ∧
    Forall2 (λ i u,
        intent_resource i = object_type (update_resource u) ++ [58] ++ object_id (update_resource u) ∧
        intent_subject i = object_type (update_subject u) ++ [58] ++ object_id (update_subject u) ∧
        intent_relation i = update_relation u ∧
        update_operation u = lit (if deny_while_pending i then "OPERATION_DELETE" else "OPERATION_TOUCH"))
      intents updates.
Proof.
  unfold write. intros [Hn H]%fail_Ok. apply orb_false_iff in Hn as [Hn1 Hn2].
  apply bool_decide_eq_false in Hn2. apply rbind_Ok in H as (updates & Hu & H).
  apply rbind_Ok in H as (received & He & H). apply exchange_Ok in He as (sent & Hs & He).
  apply rbind_Ok in H as (wat & _ & H). destruct wat as [t|]; [|done].
  apply fail_Ok in H as [Ht [= ->]].
  split; [destruct intents; [done|]; cbn in *; lia|].
  split; [by destruct token|]. exists updates, sent, received. split_and!; [done|done|].
  apply collect_map_Ok in Hu. eapply Forall2_impl; [exact Hu|]. intros i u Hi.
  unfold relationship_update in Hi.
  destruct (split_once 58 (intent_resource i)) as [[rt ri]|] eqn:Er; [|done].
  destruct (split_once 58 (intent_subject i)) as [[st si]|] eqn:Es; [|done]. cbn in Hi.
  apply fail_Ok in Hi as [_ [= <-]]. cbn.
  apply split_once_Some in Er as [-> _], Es as [-> _].
  split_and!; try done. unfold deny_while_pending. by destruct (intent_operation i).
Qed.
End provider_lemmas.

(** ** A provider that answers, used to evaluate the definitions *)

Module SpiceDbExample.
Definition ask := mk_request
  (mk_auth_context (mk_principal (lit "alice") (lit "https://idp") false) (Some (lit "org-1"))
     (lit "s1") (lit "r1") Aal1 10 20 None None)
  (lit "doc.read") (mk_resource (lit "document") (lit "42") (Some (lit "org-1"))) FullyConsistent [] None.
Definition provider : SpiceDbProvider (Uri := unit) :=
  mk_provider tt (lit "secret") [(lit "doc.read", lit "view")] (lit "rev-1").
Definition send (_ : OutboundRequest unit) : result unit HttpResponse :=
  Ok (mk_http_response 200 (Some (lit "application/json; charset=utf-8")) [123; 125]).
Definition answer := mk_check_response (Some (lit "zed")) (lit "PERMISSIONSHIP_HAS_PERMISSION") false.
Definition bulk_answer := mk_bulk_response (Some (lit "zed"))
  [mk_pair (Some (lit "PERMISSIONSHIP_NO_PERMISSION", false)) false].
Definition intent := mk_intent Revoke (lit "document:42") (lit "viewer") (lit "user:alice") 7 None.
Definition allow := with_consistency_token (Decision_allow (lit "rev-1") (lit "spicedb.allow")) (lit "zed").
Definition deny := with_consistency_token (Decision_deny (lit "rev-1") (lit "spicedb.deny")) (lit "zed").
End SpiceDbExample.

Section spicedb_witnesses.
Import SpiceDbExample.

Lemma spicedb_check_fail_closed_witness :
  ∃ permission, bmap_get (action ask) (permission_map provider) = Some permission.
Proof.
  destruct (spicedb_check_fail_closed send (λ _, true) (λ x, x) (λ _, Some [1]) (λ _, Some answer)
    provider ask allow) as (_ & _ & permission & _ & _ & _ & _ & _ & H & _).
  - refine (built_consistency (mk_request (context ask) (action ask) (resource ask) MinimizeLatency [] None)
      FullyConsistent (built_new (context ask) (action ask) (resource ask) _ _)). vm_compute. reflexivity.
  - vm_compute. reflexivity.
  - exists permission. exact H.
Defined.

Lemma spicedb_batch_pointwise_witness :
  Forall (λ q, is_ok (check_item (T := unit) (λ x, x) provider q) = true) [ask].
Proof.
  refine (proj1 (proj2 (spicedb_batch_pointwise send (λ _, true) (λ _ _, Some tt) (λ x, x)
    (λ _, Some [1]) (λ _, Some bulk_answer) provider [ask] [deny] _ _))).
  - discriminate.
  - vm_compute. reflexivity.
Defined.

Lemma spicedb_write_exact_witness : (1 ≤ length [intent] ≤ 100)%nat.
Proof.
  refine (proj1 (spicedb_write_exact send (λ _, true) (λ _, Some [1]) (λ _, Some (Some (lit "zed")))
    tt (lit "secret") [intent] (lit "zed") _)).
  vm_compute. reflexivity.
Defined.
End spicedb_witnesses.
