(* ===== verification/TrustedContext.v ===== *)
(** * TrustedContext: the signed envelope between ingress and guest

    Models [TrustedContextCodec] of src/crates/wasi-auth/src/http.rs: sealing a
    verified request context for one request boundary and opening it again,
    every check in the order of the code.  Parameters: HMAC-SHA-256, URL-safe
    Base64, and serde_json on the payload structure. *)

From S2P Require Export Context.
Open Scope Z_scope.

Definition MAX_TRUSTED_CONTEXT_HEADER_BYTES : Z := 32 * 1024.
Definition TRUSTED_CONTEXT_VERSION : Z := 1.
Definition DEFAULT_TRUSTED_CONTEXT_MAX_AGE_SECONDS : Z := 5.
Definition TRUSTED_CONTEXT_DOMAIN : list Z := lit "wasi-auth:trusted-context:v1" ++ [0].

Inductive TrustedContextError :=
| InvalidConfiguration | InvalidEnvelope | Expired | BindingMismatch | InvalidContext.
#[export] Instance TrustedContextError_eq_dec : EqDecision TrustedContextError.
Proof. solve_decision. Defined.

Record TrustedContextCodec := mk_codec {
  audience : str;
  key : list Z;
  max_age_seconds : Z;
}.
Definition TrustedContextCodec_new (aud : str) (k : list Z) :
    result TrustedContextError TrustedContextCodec :=
  fail? is_empty aud || (256 <? str_len aud) || existsb is_control aud
        || forallb (λ b, b =? 0) k with InvalidConfiguration ;;
  Ok (mk_codec aud k DEFAULT_TRUSTED_CONTEXT_MAX_AGE_SECONDS).
Definition with_max_age_seconds (c : TrustedContextCodec) (age : Z) :
    result TrustedContextError TrustedContextCodec :=
  fail? negb ((1 <=? age) && (age <=? 30)) with InvalidConfiguration ;;
  Ok (mk_codec (audience c) (key c) age).

Record TrustedContextPayload := mk_payload {
  pl_version : Z;
  pl_audience : str;
  pl_method : str;
  pl_path : str;
  pl_sealed_at : Z;
  pl_user_id : str;
  pl_issuer : str;
  pl_system_administrator : bool;
  pl_organization_id : option str;
  pl_session_id : str;
  pl_request_id : str;
  pl_assurance : AuthenticationAssurance;
  pl_issued_at : Z;
  pl_expires_at : Z;
  pl_decision_id : option str;
  pl_policy_revision : option str;
  pl_permissions : list str;
  pl_role_ids : list str;
  pl_consistency_token : option str;
}.

Definition validate_trusted_path (path : str) : result TrustedContextError unit :=
  fail? is_empty path || (2048 <? str_len path) || negb (starts_with [47] path)
        || existsb is_control path with BindingMismatch ;;
  Ok tt.

Definition seal_payload (c : TrustedContextCodec) (ctx : VerifiedRequestContext) (method path : str)
    (now : Z) : TrustedContextPayload :=
  let auth := rc_auth ctx in
  let authorization := rc_authorization ctx in
  mk_payload TRUSTED_CONTEXT_VERSION (audience c) method path now
    (p_user_id (principal auth)) (p_issuer (principal auth)) (system_administrator (principal auth))
    (ctx_organization_id auth) (ctx_session_id auth) (ctx_request_id auth) (assurance auth)
    (issued_at_unix_seconds auth) (ctx_expires_at auth) (ctx_decision_id auth)
    (ctx_policy_revision auth) (snap_permissions authorization) (snap_role_ids authorization)
    (snap_consistency_token authorization).

(** The reconstruction of a verified context from a payload whose signature,
    binding and freshness were checked. *)
Definition open_payload (p : TrustedContextPayload) : result TrustedContextError VerifiedRequestContext :=
  map_err (λ _ : ContextError, InvalidContext)
    (let? policy_revision := transpose_map identifier_new (pl_policy_revision p) in
     let? user_id := identifier_new (pl_user_id p) in
     let? principal := Principal_new user_id (pl_issuer p) (pl_system_administrator p) in
     let? organization_id := transpose_map identifier_new (pl_organization_id p) in
     let? session_id := identifier_new (pl_session_id p) in
     let? request_id := identifier_new (pl_request_id p) in
     let? decision_id := transpose_map identifier_new (pl_decision_id p) in
     let? auth :=
       from_validated (mk_auth_context principal organization_id session_id request_id
         (pl_assurance p) (pl_issued_at p) (pl_expires_at p) decision_id policy_revision) in
     let? role_ids := collect_map identifier_new (pl_role_ids p) in
     let? authorization :=
       AuthorizationSnapshot_new (pl_permissions p) role_ids policy_revision
         (pl_consistency_token p) in
     Ok (mk_request_context auth authorization)).

Definition dot : Z := 46.

Section codec.
Context (hmac_sha256 : list Z → list Z → list Z).
Context (b64_encode : list Z → str) (b64_decode : str → option (list Z)).
Context (to_vec : TrustedContextPayload → option (list Z))
        (from_slice : list Z → option TrustedContextPayload).

Definition signature (c : TrustedContextCodec) (payload : list Z) : list Z :=
  hmac_sha256 (key c) (TRUSTED_CONTEXT_DOMAIN ++ payload).

Definition seal (c : TrustedContextCodec) (ctx : VerifiedRequestContext) (method path : str) (now : Z) :
    result TrustedContextError str :=
  try? validate_trusted_path path ;;
  fail? ctx_expires_at (rc_auth ctx) <=? now with Expired ;;
  fail? negb (bool_decide (ctx_policy_revision (rc_auth ctx)
                           = snap_policy_revision (rc_authorization ctx))) with InvalidContext ;;
  let? bytes := ok_or (to_vec (seal_payload c ctx method path now)) InvalidEnvelope in
  let payload := b64_encode bytes in
  let envelope := payload ++ [dot] ++ b64_encode (signature c (str_bytes payload)) in
  fail? MAX_TRUSTED_CONTEXT_HEADER_BYTES <? str_len envelope with InvalidEnvelope ;;
  Ok envelope.

(** The binding of a payload to the request it arrived with. *)
Definition binding_ok (c : TrustedContextCodec) (p : TrustedContextPayload)
    (method path request_id : str) : bool :=
  (pl_version p =? TRUSTED_CONTEXT_VERSION) && bool_decide (pl_audience p = audience c)
  && bool_decide (pl_method p = method) && bool_decide (pl_path p = path)
  && bool_decide (pl_request_id p = request_id).
Definition stale (c : TrustedContextCodec) (p : TrustedContextPayload) (now : Z) : bool :=
  (u64_saturating_add now 1 <? pl_sealed_at p)
  || (max_age_seconds c <? u64_saturating_sub now (pl_sealed_at p))
  || (pl_expires_at p <=? now).

Definition open (c : TrustedContextCodec) (envelope method path request_id : str) (now : Z) :
    result TrustedContextError VerifiedRequestContext :=
  try? validate_trusted_path path ;;
  fail? MAX_TRUSTED_CONTEXT_HEADER_BYTES <? str_len envelope with InvalidEnvelope ;;
  let? (payload, tag) :=
    match split_once dot envelope with
    | Some (payload, tag) =>
        if contains_char dot tag then Err InvalidEnvelope else Ok (payload, tag)
    | None => Err InvalidEnvelope
    end in
  let? tag := ok_or (b64_decode tag) InvalidEnvelope in
  fail? negb (bool_decide (signature c (str_bytes payload) = tag)) with InvalidEnvelope ;;
  let? bytes := ok_or (b64_decode payload) InvalidEnvelope in
  let? p := ok_or (from_slice bytes) InvalidEnvelope in
  fail? negb (binding_ok c p method path request_id) with BindingMismatch ;;
  fail? stale c p now with Expired ;;
  open_payload p.
End codec.

(** ** Lemmas *)

(** What the constructors guarantee of a verified request context. *)
Record wf_auth (a : VerifiedAuthContext) : Prop := {
  wfa_user : validate_identifier (p_user_id (principal a)) = Ok tt;
  wfa_issuer : Principal_new (p_user_id (principal a)) (p_issuer (principal a))
                 (system_administrator (principal a)) = Ok (principal a);
  wfa_org x : ctx_organization_id a = Some x → validate_identifier x = Ok tt;
  wfa_session : validate_identifier (ctx_session_id a) = Ok tt;
  wfa_request : validate_identifier (ctx_request_id a) = Ok tt;
  wfa_decision x : ctx_decision_id a = Some x → validate_identifier x = Ok tt;
  wfa_revision x : ctx_policy_revision a = Some x → validate_identifier x = Ok tt;
  wfa_lifetime : issued_at_unix_seconds a < ctx_expires_at a;
}.
Record wf_snapshot (s : AuthorizationSnapshot) : Prop := {
  wfs_sorted : ssorted (snap_permissions s);
  wfs_permissions : Forall (λ p, validate_identifier p = Ok tt) (snap_permissions s);
  wfs_roles_sorted : ssorted (snap_role_ids s);
  wfs_roles : Forall (λ p, validate_identifier p = Ok tt) (snap_role_ids s);
  wfs_token t : snap_consistency_token s = Some t →
    is_empty t || (4096 <? str_len t) || existsb is_control t = false;
}.

Lemma transpose_identifier o :
  (∀ x, o = Some x → validate_identifier x = Ok tt) → transpose_map identifier_new o = Ok o.
Proof.
  intros H. destruct o as [x|]; cbn; [|done]. by rewrite (proj2 (identifier_new_Ok x x)) by auto.
Qed.

Lemma collect_identifiers (f : str → result ContextError str) l :
  (∀ x, validate_identifier x = Ok tt → f x = Ok x) →
  Forall (λ p, validate_identifier p = Ok tt) l → collect_map f l = Ok l.
Proof.
  intros Hf Hl. rewrite (collect_map_pure f (λ x, x)); [by rewrite map_id|].
  rewrite Forall_forall in Hl. auto.
Qed.

Lemma open_seal_payload c ctx method path now :
  wf_auth (rc_auth ctx) → wf_snapshot (rc_authorization ctx) →
  ctx_policy_revision (rc_auth ctx) = snap_policy_revision (rc_authorization ctx) →
  open_payload (seal_payload c ctx method path now) = Ok ctx.
Proof.
  intros [] [] Hrev. destruct ctx as [auth snap]. unfold open_payload, seal_payload; cbn in *.
  rewrite transpose_identifier by done; cbn.
  rewrite (proj2 (identifier_new_Ok _ _)) by done; cbn. rewrite wfa_issuer0; cbn.
  rewrite transpose_identifier by done; cbn.
  rewrite (proj2 (identifier_new_Ok (ctx_session_id auth) _)) by done; cbn.
  rewrite (proj2 (identifier_new_Ok (ctx_request_id auth) _)) by done; cbn.
  rewrite transpose_identifier by done; cbn.
  unfold from_validated; cbn. rewrite (proj2 (Z.leb_gt _ _)) by done; cbn.
  rewrite collect_identifiers; [|intros x Hx; by apply identifier_new_Ok|done]; cbn.
  unfold AuthorizationSnapshot_new.
  rewrite collect_identifiers; [|intros x Hx; by rewrite Hx|done]; cbn.
  replace (match snap_consistency_token snap with
           | Some t => is_empty t || (4096 <? str_len t) || existsb is_control t
           | None => false end) with false
    by (destruct (snap_consistency_token snap); [symmetry; auto|done]).
  cbn. rewrite !bset_of_list_id by done. destruct auth, snap; cbn in *. by subst.
Qed.

Lemma transpose_identifier_Ok o o' : transpose_map identifier_new o = Ok o' → o' = o.
Proof.
  destruct o as [x|]; cbn; [|congruence]. intros (y & Hy & ->)%rmap_Ok.
  by apply identifier_new_Ok in Hy as [-> _].
Qed.

(** The context a payload states: every field of it, the permissions and the
    roles as sets. *)
Definition stated_context (p : TrustedContextPayload) (ctx : VerifiedRequestContext) : Prop :=
  rc_auth ctx = mk_auth_context (mk_principal (pl_user_id p) (pl_issuer p) (pl_system_administrator p))
    (pl_organization_id p) (pl_session_id p) (pl_request_id p) (pl_assurance p) (pl_issued_at p)
    (pl_expires_at p) (pl_decision_id p) (pl_policy_revision p)
  ∧ (∀ perm, perm ∈ snap_permissions (rc_authorization ctx) ↔ perm ∈ pl_permissions p)
  ∧ (∀ role, role ∈ snap_role_ids (rc_authorization ctx) ↔ role ∈ pl_role_ids p)
  ∧ snap_policy_revision (rc_authorization ctx) = pl_policy_revision p
  ∧ snap_consistency_token (rc_authorization ctx) = pl_consistency_token p.

Lemma collect_identifiers_Ok l l' : collect_map identifier_new l = Ok l' → l' = l.
Proof.
  rewrite collect_map_Ok. induction 1 as [|x y l l' [-> _]%identifier_new_Ok _ ->]; done.
Qed.

(** The context rebuilt from a payload is the one the payload states. *)
Lemma open_payload_Ok p ctx : open_payload p = Ok ctx → stated_context p ctx.
Proof.
  unfold open_payload. rewrite map_err_Ok. intros H.
  apply rbind_Ok in H as (rev & ->%transpose_identifier_Ok & H).
  apply rbind_Ok in H as (uid & [-> _]%identifier_new_Ok & H).
  apply rbind_Ok in H as (pr & Hpr & H). apply fail_Ok in Hpr as [_ [= <-]].
  apply rbind_Ok in H as (org & ->%transpose_identifier_Ok & H).
  apply rbind_Ok in H as (sid & [-> _]%identifier_new_Ok & H).
  apply rbind_Ok in H as (rid & [-> _]%identifier_new_Ok & H).
  apply rbind_Ok in H as (did & ->%transpose_identifier_Ok & H).
  apply rbind_Ok in H as (auth & Ha & H). apply fail_Ok in Ha as [_ [= <-]].
  apply rbind_Ok in H as (roles & ->%collect_identifiers_Ok & H). apply rbind_Ok in H as (snap & Hs & [= <-]).
  apply AuthorizationSnapshot_new_inv in Hs as [-> _]. unfold stated_context. cbn.
  split_and!; try done; intros x; apply elem_of_bset_of_list.
Qed.

Section codec_properties.
Context (hmac_sha256 : list Z → list Z → list Z).
Context (b64_encode : list Z → str) (b64_decode : str → option (list Z)).
Context (to_vec : TrustedContextPayload → option (list Z))
        (from_slice : list Z → option TrustedContextPayload).

(** C35: a sealed context opens to itself at its own boundary.  With a Base64
    that decodes what it encoded and writes no dot, and a JSON codec that
    reads back what it wrote, a well-formed context sealed for a method and a
    path opens, with the same method, path and request id and within the
    replay window and the session's lifetime, to exactly that context. *)
Theorem seal_open_roundtrip c ctx method path sealed_at now envelope :
  (∀ x, b64_decode (b64_encode x) = Some x) →
  (∀ x, dot ∉ b64_encode x) →
  (∀ p b, to_vec p = Some b → from_slice b = Some p) →
  wf_auth (rc_auth ctx) → wf_snapshot (rc_authorization ctx) →
  seal hmac_sha256 b64_encode to_vec c ctx method path sealed_at = Ok envelope →
  0 ≤ sealed_at ≤ now → now ≤ u64_max → now - sealed_at ≤ max_age_seconds c →
  now < ctx_expires_at (rc_auth ctx) →
  open hmac_sha256 b64_decode from_slice c envelope method path
    (ctx_request_id (rc_auth ctx)) now = Ok ctx.
Proof.
  intros Hb64 Hdot Hjson Ha Hs H Hle Hmax Hage Hexp. unfold seal in H.
  apply rbind_Ok in H as ([] & Hpath & H). apply fail_Ok in H as [_ H].
  apply fail_Ok in H as [Hrev H]. apply negb_false_iff, bool_decide_eq_true in Hrev.
  apply rbind_Ok in H as (bytes & Hbytes & H). cbv zeta in H.
  apply fail_Ok in H as [Hlen [= <-]].
  destruct (to_vec _) as [b|] eqn:Hvec; cbn in Hbytes; [injection Hbytes as ->|done].
  cbn [app] in Hlen. unfold open. rewrite Hpath; cbn [rbind].
  rewrite (proj2 (split_once_Some dot _ (b64_encode bytes) _) (conj eq_refl (Hdot bytes))), Hlen.
  destruct (contains_char dot _) eqn:Hc; [by apply contains_char_spec, Hdot in Hc|].
  cbn [rbind]. rewrite Hb64; cbn [ok_or rbind]. rewrite bool_decide_true by done; cbn [negb].
  rewrite Hb64; cbn [ok_or rbind]. rewrite (Hjson _ _ Hvec); cbn [ok_or rbind].
  unfold binding_ok, stale. cbn. rewrite !bool_decide_true by done. cbn.
  unfold u64_saturating_add, u64_saturating_sub.
  rewrite (proj2 (Z.ltb_ge (Z.min _ _) _)), (proj2 (Z.ltb_ge _ (Z.max _ _))), (proj2 (Z.leb_gt _ _)) by lia.
  cbn. by apply (open_seal_payload c ctx method path sealed_at).
Qed.

(** C10: an envelope is accepted only with a valid signature over its payload
    under the key of the codec, for this version and audience, this method,
    this path and this request id, sealed no more than one second ahead of and
    no more than the replay window before the present, and for a session that
    has not expired; the context it yields is, field by field, the one the
    payload states: principal, organization, session, request, assurance,
    lifetime, decision, policy revision, permissions, roles and consistency
    token. *)
Theorem open_checks_everything c envelope method path request_id now ctx :
  open hmac_sha256 b64_decode from_slice c envelope method path request_id now = Ok ctx →
  ∃ payload tag bytes p,
    envelope = payload ++ [dot] ++ tag ∧
    b64_decode tag = Some (hmac_sha256 (key c)
      (lit "wasi-auth:trusted-context:v1" ++ [0] ++ str_bytes payload)) ∧
    b64_decode payload = Some bytes ∧ from_slice bytes = Some p ∧
    pl_version p = 1 ∧ pl_audience p = audience c ∧ pl_method p = method ∧ pl_path p = path ∧
    pl_request_id p = request_id ∧
    pl_sealed_at p ≤ now + 1 ∧ now - pl_sealed_at p ≤ max_age_seconds c ∧
    now < pl_expires_at p ∧ stated_context p ctx.
Proof.
  unfold open. intros H. apply rbind_Ok in H as ([] & _ & H). apply fail_Ok in H as [_ H].
  apply rbind_Ok in H as ([payload tag] & Hsplit & H).
  apply rbind_Ok in H as (tag' & Htag & H). apply fail_Ok in H as [Hsig H].
  apply rbind_Ok in H as (bytes & Hbytes & H). apply rbind_Ok in H as (p & Hp & H).
  apply fail_Ok in H as [Hbind H]. apply fail_Ok in H as [Hst H].
  destruct (split_once dot envelope) as [[x y]|] eqn:Es; [|done].
  destruct (contains_char dot y); [done|]. injection Hsplit as -> ->.
  apply split_once_Some in Es as [-> _].
  destruct (b64_decode tag) eqn:Et; cbn in Htag; [injection Htag as ->|done].
  apply negb_false_iff, bool_decide_eq_true in Hsig as <-.
  destruct (b64_decode payload) eqn:Epl; cbn in Hbytes; [injection Hbytes as ->|done].
  destruct (from_slice bytes) eqn:Ej; cbn in Hp; [injection Hp as ->|done].
  unfold binding_ok in Hbind. apply negb_false_iff in Hbind. rewrite !andb_true_iff in Hbind.
  destruct Hbind as ((((H0 & H1) & H2) & H3) & H4). apply Z.eqb_eq in H0.
  apply bool_decide_eq_true in H1, H2, H3, H4.
  unfold stale, u64_saturating_add, u64_saturating_sub in Hst.
  rewrite !orb_false_iff in Hst. destruct Hst as [[Hs1 Hs2] Hs3]. bprop.
  apply open_payload_Ok in H. exists payload, tag, bytes, p.
  split_and!; first [done | lia].
Qed.
End codec_properties.

(** ** A concrete boundary *)

#[export] Instance TrustedContextPayload_eq_dec : EqDecision TrustedContextPayload.
Proof. solve_decision. Defined.

Module TrustedContextExample.
(** A dot-free text encoding, a checksum in place of the MAC and a JSON codec
    that knows one document. *)
Definition encode (x : list Z) : str := map (λ z, if z <? dot then z else z + 1) x.
Definition decode (x : str) : option (list Z) :=
  Some (map (λ z, if z <? dot then z else z - 1) x).
Definition checksum (k m : list Z) : list Z := [foldl Z.add 0 (k ++ m) mod 100].

Definition codec := mk_codec (lit "guest") [7; 9] 5.
Definition context := mk_request_context
  (mk_auth_context (mk_principal (lit "alice") (lit "https://id.example") false)
     (Some (lit "acme")) (lit "s1") (lit "r1") Aal2 100 200 None (Some (lit "v3")))
  (mk_snapshot [lit "a.view"; lit "b.edit"] [lit "member"] (Some (lit "v3")) None).
Definition document := seal_payload codec context (lit "GET") (lit "/orders") 150.
Definition to_vec (p : TrustedContextPayload) : option (list Z) :=
  if bool_decide (p = document) then Some [1; 46; 3] else None.
Definition from_slice (b : list Z) : option TrustedContextPayload :=
  if bool_decide (b = [1; 46; 3]) then Some document else None.
Definition envelope : str := [1; 47; 3; 46; 63].

Lemma decode_encode x : decode (encode x) = Some x.
Proof.
  unfold decode, encode. rewrite map_map. f_equal. rewrite <- (map_id x) at 2.
  apply map_ext. intros z. destruct (Z.ltb_spec z dot); [by rewrite (proj2 (Z.ltb_lt _ _))|].
  rewrite (proj2 (Z.ltb_ge _ _)) by lia. lia.
Qed.
Lemma encode_no_dot x : dot ∉ encode x.
Proof.
  unfold encode. rewrite list_elem_of_In, in_map_iff. intros (z & Hz & _).
  destruct (Z.ltb_spec z dot); lia.
Qed.
Lemma json_roundtrip p b : to_vec p = Some b → from_slice b = Some p.
Proof.
  unfold to_vec. destruct (bool_decide_reflect (p = document)) as [->|]; [|done].
  by intros [= <-].
Qed.
Lemma context_wf : wf_auth (rc_auth context) ∧ wf_snapshot (rc_authorization context).
Proof.
  split; constructor; cbn [rc_auth rc_authorization context snap_permissions snap_role_ids
    snap_consistency_token ctx_organization_id ctx_decision_id ctx_policy_revision];
    try (intros ? [= <-]); try reflexivity; repeat constructor; reflexivity.
Qed.

Lemma seal_open_roundtrip_witness :
  open checksum decode from_slice codec envelope (lit "GET") (lit "/orders") (lit "r1") 153 = Ok context.
Proof.
  apply (seal_open_roundtrip checksum encode decode to_vec from_slice codec context
           (lit "GET") (lit "/orders") 150 153).
  - apply decode_encode.
  - apply encode_no_dot.
  - apply json_roundtrip.
  - apply context_wf.
  - apply context_wf.
  - vm_compute. reflexivity.
  - lia.
  - vm_compute. discriminate.
  - vm_compute. discriminate.
  - vm_compute. reflexivity.
Defined.

Lemma open_checks_everything_witness :
  ∃ payload tag, envelope = payload ++ [dot] ++ tag ∧
    decode tag = Some (checksum (key codec)
      (lit "wasi-auth:trusted-context:v1" ++ [0] ++ str_bytes payload)).
Proof.
  destruct (open_checks_everything checksum decode from_slice codec envelope (lit "GET")
    (lit "/orders") (lit "r1") 153 context) as (payload & tag & bytes & p & H1 & H2 & _).
  - vm_compute. reflexivity.
  - exists payload, tag. split; [exact H1|exact H2].
Defined.
End TrustedContextExample.
