(* ===== verification/Headers.v ===== *)
(** * Headers: the interface of the [http] crate, and IP addresses

    The HTTP boundary of src/crates/wasi-auth/src/http.rs works on the
    [HeaderMap], [HeaderName] and [HeaderValue] of the third-party [http]
    crate.  The class below states the operations the boundary calls and the
    documented laws it relies on; [alist_headers] is a concrete instance. *)

From S2P Require Export Context.
Open Scope Z_scope.

(** Visible ASCII, the characters a textual header value may hold. *)
Definition visible_ascii (c : char) : bool := in_range 32 126 c || (c =? 9).

Class HttpHeaders := {
  HeaderMap : Type;
  HeaderValue : Type;
  empty_headers : HeaderMap;
  get_all : HeaderMap → str → list HeaderValue;
  header_insert : HeaderMap → str → HeaderValue → HeaderMap;
  header_remove : HeaderMap → str → HeaderMap;
  header_keys : HeaderMap → list str;
  to_str : HeaderValue → option str;
  from_str : str → option HeaderValue;
  (** [HeaderValue::from_static] on a literal of visible ASCII. *)
  from_static : str → HeaderValue;

  get_all_empty n : get_all empty_headers n = [];
  get_all_insert h n v m :
    get_all (header_insert h n v) m = if bool_decide (m = n) then [v] else get_all h m;
  get_all_remove h n m :
    get_all (header_remove h n) m = if bool_decide (m = n) then [] else get_all h m;
  header_keys_spec h n : n ∈ header_keys h ↔ get_all h n ≠ [];
  header_keys_once h : NoDup (header_keys h);
  to_str_from_str s v : from_str s = Some v → to_str v = Some s;
  to_str_from_static s : forallb visible_ascii s = true → to_str (from_static s) = Some s;
}.

(** [HeaderMap::get]: the first value. *)
Definition header_get `{HttpHeaders} (h : HeaderMap) (n : str) : option HeaderValue :=
  head (get_all h n).
(** [headers.get(n).and_then(|value| value.to_str().ok())]. *)
Definition header_text `{HttpHeaders} (h : HeaderMap) (n : str) : option str :=
  header_get h n ≫= to_str.

(** ** An instance: an association list of byte strings *)

Definition alist_get_all (h : list (str * list Z)) (n : str) : list (list Z) :=
  omap (λ kv, if bool_decide (kv.1 = n) then Some kv.2 else None) h.
Definition alist_remove (h : list (str * list Z)) (n : str) : list (str * list Z) :=
  List.filter (λ kv, negb (bool_decide (kv.1 = n))) h.
Definition alist_insert (h : list (str * list Z)) (n : str) (v : list Z) : list (str * list Z) :=
  (n, v) :: alist_remove h n.
Definition alist_text (v : list Z) : option str := if forallb visible_ascii v then Some v else None.

Lemma alist_get_all_remove h n m :
  alist_get_all (alist_remove h n) m = if bool_decide (m = n) then [] else alist_get_all h m.
Proof.
  unfold alist_get_all, alist_remove. induction h as [|[k w] h IH]; cbn; [by destruct (bool_decide _)|].
  destruct (bool_decide_reflect (k = n)) as [->|Hk]; cbn; rewrite IH.
  - destruct (bool_decide_reflect (m = n)) as [E|E]; [done|].
    by rewrite (bool_decide_false (n = m)) by done.
  - destruct (bool_decide_reflect (k = m)) as [E|E]; [|done].
    by rewrite (bool_decide_false (m = n)) by (by rewrite <- E).
Qed.

Lemma alist_get_all_insert h n v m :
  alist_get_all (alist_insert h n v) m = if bool_decide (m = n) then [v] else alist_get_all h m.
Proof.
  unfold alist_insert. unfold alist_get_all at 1. cbn.
  fold (alist_get_all (alist_remove h n) m). rewrite alist_get_all_remove.
  destruct (bool_decide_reflect (m = n)) as [E|E].
  - by rewrite bool_decide_true.
  - by rewrite bool_decide_false by done.
Qed.

Definition alist_keys (h : list (str * list Z)) : list str := remove_dups (map fst h).
Lemma alist_keys_spec (h : list (str * list Z)) n : n ∈ alist_keys h ↔ alist_get_all h n ≠ [].
Proof.
  unfold alist_keys. rewrite elem_of_remove_dups. unfold alist_get_all. induction h as [|[k v] h IH]; cbn; [set_solver|].
  rewrite elem_of_cons, IH. destruct (bool_decide_reflect (k = n)) as [->|Hk]; naive_solver.
Qed.

Lemma alist_text_Some s v : alist_text s = Some v → alist_text v = Some s.
Proof. unfold alist_text. destruct (forallb _ s) eqn:E; [|done]. intros [= <-]. by rewrite E. Qed.

Lemma alist_text_visible s : forallb visible_ascii s = true → alist_text s = Some s.
Proof. unfold alist_text. by intros ->. Qed.

#[export] Instance alist_headers : HttpHeaders := {|
  HeaderMap := list (str * list Z);
  HeaderValue := list Z;
  empty_headers := [];
  get_all := alist_get_all;
  header_insert := alist_insert;
  header_remove := alist_remove;
  header_keys := alist_keys;
  to_str := alist_text;
  from_str := alist_text;
  from_static s := s;
  get_all_empty n := eq_refl;
  get_all_insert := alist_get_all_insert;
  get_all_remove := alist_get_all_remove;
  header_keys_spec := alist_keys_spec;
  header_keys_once h := NoDup_remove_dups (map fst h);
  to_str_from_str := alist_text_Some;
  to_str_from_static := alist_text_visible;
|}.

(** ** URIs and IP addresses

    What the configuration code of the legacy middleware and of the policy
    clients uses of [http::Uri], as a class, and the textual IP addresses of
    the Rust standard library, as an executable parser. *)

(** The parts of a parsed URI as the crate's accessors return them. *)
Class UriParser := {
  Uri : Type;
  uri_parse : str → option Uri;
  scheme_str : Uri → option str;
  uri_authority : Uri → option str;
  uri_host : Uri → option str;
  path_and_query : Uri → option str;
  uri_path : Uri → str;
  uri_query : Uri → option str;
}.

(** ** [core::net]'s address parser

    A reader takes the rest of the input and, if it succeeds, returns a value
    and what it left; a failing reader has read nothing. *)
Definition reader (A : Type) : Type := str → option (A * str).

Definition to_digit (radix : Z) (c : char) : option Z :=
  let d := if in_range 48 57 c then Some (c - 48)
           else if in_range 97 122 c then Some (c - 97 + 10)
           else if in_range 65 90 c then Some (c - 65 + 10)
           else None in
  match d with Some d => if d <? radix then Some d else None | None => None end.
Definition read_given_char (c : char) : reader unit := λ s,
  match s with d :: s => if d =? c then Some (tt, s) else None | [] => None end.
Definition read_separator {A} (sep : char) (index : nat) (inner : reader A) : reader A := λ s,
  match index with
  | O => inner s
  | S _ => match read_given_char sep s with Some (_, s) => inner s | None => None end
  end.
(** The digits at the front, their value and their number. *)
Fixpoint read_digits (radix : Z) (s : str) (acc : Z) (count : nat) : Z * nat * str :=
  match s with
  | c :: r =>
      match to_digit radix c with
      | Some d => read_digits radix r (acc * radix + d) (S count)
      | None => (acc, count, s)
      end
  | [] => (acc, count, [])
  end.
Definition read_number (radix : Z) (max_digits : nat) (allow_zero_prefix : bool) (maximum : Z) : reader Z := λ s,
  let has_leading_zero := match s with c :: _ => c =? 48 | [] => false end in
  let '(value, count, rest) := read_digits radix s 0 O in
  if bool_decide (max_digits < count)%nat || bool_decide (count = O)
     || (negb allow_zero_prefix && has_leading_zero && bool_decide (1 < count)%nat)
     || (maximum <? value)
  then None else Some (value, rest).
Definition octet (index : nat) : reader Z := read_separator 46 index (read_number 10 3 false 255).
Definition read_ipv4_addr : reader (list Z) := λ s,
  match octet 0 s with
  | Some (a, s) =>
      match octet 1 s with
      | Some (b, s) =>
          match octet 2 s with
          | Some (c, s) =>
              match octet 3 s with Some (d, s) => Some ([a; b; c; d], s) | None => None end
          | None => None
          end
      | None => None
      end
  | None => None
  end.
(** [read_groups] with [left] groups to go, the next being group [i]; the flag
    says that the groups end in an embedded IPv4 address. *)
Fixpoint read_groups (i left : nat) (s : str) : list Z * bool * str :=
  match left with
  | O => ([], false, s)
  | S rest =>
      match (match rest with O => None | S _ => read_separator 58 i read_ipv4_addr s end) with
      | Some (octets, s) =>
          match octets with
          | [a; b; c; d] => ([a * 256 + b; c * 256 + d], true, s)
          | _ => ([], false, s)
          end
      | None =>
          match read_separator 58 i (read_number 16 4 true 65535) s with
          | Some (g, s) => let '(gs, v4, s) := read_groups (S i) rest s in (g :: gs, v4, s)
          | None => ([], false, s)
          end
      end
  end.
Definition read_ipv6_addr : reader (list Z) := λ s,
  let '(head, head_ipv4, s) := read_groups 0 8 s in
  if bool_decide (length head = 8%nat) then Some (head, s)
  else if head_ipv4 then None
  else
    match read_given_char 58 s with
    | Some (_, s) =>
        match read_given_char 58 s with
        | Some (_, s) =>
            let '(tail, _, s) := read_groups 0 (8 - (length head + 1)) s in
            Some (head ++ replicate (8 - length head - length tail) 0 ++ tail, s)
        | None => None
        end
    | None => None
    end.

Inductive IpAddr := V4 (octets : list Z) | V6 (segments : list Z).
Definition parse_ip (s : str) : option IpAddr :=
  match read_ipv4_addr s with
  | Some (octets, rest) => if is_empty rest then Some (V4 octets) else None
  | None =>
      match read_ipv6_addr s with
      | Some (segments, rest) => if is_empty rest then Some (V6 segments) else None
      | None => None
      end
  end.
Definition is_loopback (address : IpAddr) : bool :=
  match address with
  | V4 octets => bool_decide (head octets = Some 127)
  | V6 segments => bool_decide (segments = [0; 0; 0; 0; 0; 0; 0; 1])
  end.

(** [str::trim_matches(['[', ']'])]. *)
Definition is_bracket (c : char) : bool := one_of [91; 93] c.
Definition trim_brackets (s : str) : str :=
  reverse (drop_while is_bracket (reverse (drop_while is_bracket s))).

Example parsed_addresses :
  map parse_ip [lit "127.0.0.1"; lit "::1"; lit "127.0.0.01"; lit "1.2.3"; lit "::ffff:127.0.0.1"; lit "::"; lit "1::2::3"; lit "2001:db8:0:0:0:0:0:1"]
  = [Some (V4 [127; 0; 0; 1]); Some (V6 [0; 0; 0; 0; 0; 0; 0; 1]); None; None;
     Some (V6 [0; 0; 0; 0; 0; 65535; 32512; 1]); Some (V6 [0; 0; 0; 0; 0; 0; 0; 0]); None;
     Some (V6 [8193; 3512; 0; 0; 0; 0; 0; 1])].
Proof. reflexivity. Qed.
