(* ===== verification/Ingress.v ===== *)
(** * Ingress: the native trusted HTTP boundary

    Models the boundary part of src/crates/wasi-auth/src/http.rs: content
    length, correlation, credential and cookie extraction, CSRF, the route
    policies, [TrustedIngress::authenticate_request], the exact-origin CORS
    policy, metadata stripping and response security headers.  The header map
    is the interface [HttpHeaders]; the credential authenticator and the clock
    are parameters, as the type parameters [A] and [C] are in the code. *)

From S2P Require Export Headers.
Open Scope Z_scope.

Definition DEFAULT_MAX_REQUEST_BODY_BYTES : Z := 256 * 1024.
Definition REQUEST_ID_HEADER : str := lit "x-request-id".
Definition AUTH_CONTEXT_HEADER : str := lit "x-wasi-auth-context".
Definition LEGACY_SESSION_HEADER : str := lit "x-auth-session".
Definition LEGACY_ADMIN_HEADER : str := lit "x-auth-admin-token".
Definition CSRF_HEADER : str := lit "x-csrf-token".
(** The standard names of [http::header]. *)
Definition ORIGIN : str := lit "origin".
Definition VARY : str := lit "vary".
Definition COOKIE : str := lit "cookie".
Definition AUTHORIZATION : str := lit "authorization".
Definition CONTENT_LENGTH : str := lit "content-length".
Definition CACHE_CONTROL : str := lit "cache-control".
Definition X_CONTENT_TYPE_OPTIONS : str := lit "x-content-type-options".
Definition REFERRER_POLICY : str := lit "referrer-policy".
Definition CONTENT_SECURITY_POLICY : str := lit "content-security-policy".
Definition STRICT_TRANSPORT_SECURITY : str := lit "strict-transport-security".
Definition ACCESS_CONTROL_ALLOW_ORIGIN : str := lit "access-control-allow-origin".
Definition ACCESS_CONTROL_ALLOW_METHODS : str := lit "access-control-allow-methods".
Definition ACCESS_CONTROL_ALLOW_HEADERS : str := lit "access-control-allow-headers".
Definition ACCESS_CONTROL_ALLOW_CREDENTIALS : str := lit "access-control-allow-credentials".
Definition ACCESS_CONTROL_REQUEST_METHOD : str := lit "access-control-request-method".
Definition ACCESS_CONTROL_REQUEST_HEADERS : str := lit "access-control-request-headers".

Inductive HttpBoundaryError (E : Type) :=
| BodyTooLarge | InvalidContentLength | InvalidRequestId | InvalidCredentials
| MissingCredentials | Authenticator (e : E) | InvalidContext (e : ContextError)
| InsufficientAssurance | Csrf.
Arguments BodyTooLarge {E}.
Arguments InvalidContentLength {E}.
Arguments InvalidRequestId {E}.
Arguments InvalidCredentials {E}.
Arguments MissingCredentials {E}.
Arguments Authenticator {E} e.
Arguments InvalidContext {E} e.
Arguments InsufficientAssurance {E}.
Arguments Csrf {E}.

Definition status_code {E} (e : HttpBoundaryError E) : Z :=
  match e with
  | BodyTooLarge => 413
  | InvalidContentLength | InvalidRequestId | InvalidCredentials | Csrf => 400
  | MissingCredentials | InsufficientAssurance => 401
  | Authenticator _ | InvalidContext _ => 503
  end.

Inductive Credential := Bearer (token : str) | SessionCookie (value : str).
#[export] Instance Credential_eq_dec : EqDecision Credential.
Proof. solve_decision. Defined.

Record AuthenticatedSession := mk_session {
  as_principal : Principal;
  as_organization_id : option str;
  as_session_id : str;
  as_assurance : AuthenticationAssurance;
  as_issued_at : Z;
  as_expires_at : Z;
  as_decision_id : option str;
  as_policy_revision : option str;
  as_authorization : AuthorizationSnapshot;
}.

Inductive RoutePolicy := Public | PublicForm | Optional | Authenticated | SessionMutation | StepUp.
#[export] Instance RoutePolicy_eq_dec : EqDecision RoutePolicy.
Proof. solve_decision. Defined.

Definition required_assurance (policy : RoutePolicy) : option AuthenticationAssurance :=
  match policy with
  | Public | PublicForm | Optional => None
  | Authenticated | SessionMutation => Some Aal1
  | StepUp => Some Aal2
  end.

Record TrustedIngressConfig := mk_ingress_config {
  max_request_body_bytes : Z;
  allowed_browser_origin : str;
  allow_development_session_cookie : bool;
}.
Definition TrustedIngressConfig_new (origin : str) : result ContextError TrustedIngressConfig :=
  fail? is_empty origin || existsb is_control origin with InvalidIdentifier ;;
  Ok (mk_ingress_config DEFAULT_MAX_REQUEST_BODY_BYTES origin false).
Definition with_max_request_body_bytes (c : TrustedIngressConfig) (bytes : Z) : TrustedIngressConfig :=
  mk_ingress_config bytes (allowed_browser_origin c) (allow_development_session_cookie c).
Definition with_development_session_cookie (c : TrustedIngressConfig) : TrustedIngressConfig :=
  mk_ingress_config (max_request_body_bytes c) (allowed_browser_origin c)
    (starts_with (lit "http://localhost") (allowed_browser_origin c)
     || starts_with (lit "http://127.0.0.1") (allowed_browser_origin c)
     || starts_with (lit "http://[::1]") (allowed_browser_origin c)).

Definition requires_csrf (method : str) : bool :=
  negb (bool_decide (method ∈ [lit "GET"; lit "HEAD"; lit "OPTIONS"])).

Section boundary.
Context `{HttpHeaders} {E : Type}.
Implicit Types headers : HeaderMap.

Definition validate_content_length headers (limit : Z) : result (HttpBoundaryError E) unit :=
  match get_all headers CONTENT_LENGTH with
  | [] => Ok tt
  | [value] =>
      let? length := ok_or (to_str value ≫= parse_usize) InvalidContentLength in
      fail? limit <? length with BodyTooLarge ;;
      Ok tt
  | _ :: _ :: _ => Err InvalidContentLength
  end.

Definition request_id headers : result (HttpBoundaryError E) str :=
  match get_all headers REQUEST_ID_HEADER with
  | [] => Err InvalidRequestId
  | [value] =>
      let? text := ok_or (to_str value) InvalidRequestId in
      map_err (λ _, InvalidRequestId) (identifier_new text)
  | _ :: _ :: _ => Err InvalidRequestId
  end.

(** One round of the inner loop of [cookie_value]. *)
Definition cookie_step (name : str) (found : option str) (cookie : str) :
    result (HttpBoundaryError E) (option str) :=
  match split_once 61 (trim cookie) with
  | None => Ok found
  | Some (cookie_name, value) =>
      if bool_decide (cookie_name = name) then
        fail? bool_decide (is_Some found) || is_empty value with InvalidCredentials ;;
        Ok (Some value)
      else Ok found
  end.
Definition cookie_value headers (name : str) : result (HttpBoundaryError E) (option str) :=
  try_fold (λ found header,
    let? header := ok_or (to_str header) InvalidCredentials in
    try_fold (cookie_step name) found (split_char 59 header)) None (get_all headers COOKIE).

Definition credential headers (allow_development : bool) :
    result (HttpBoundaryError E) (option Credential) :=
  let authorization := get_all headers AUTHORIZATION in
  let bearer := head authorization in
  fail? bool_decide (2 ≤ length authorization)%nat with InvalidCredentials ;;
  let? host_cookie := cookie_value headers (lit "__Host-session") in
  let? development_cookie :=
    if allow_development then cookie_value headers (lit "wasi_auth_dev_session") else Ok None in
  fail? bool_decide (is_Some host_cookie) && bool_decide (is_Some development_cookie)
    with InvalidCredentials ;;
  let session_cookie := match host_cookie with Some _ => host_cookie | None => development_cookie end in
  fail? bool_decide (is_Some bearer) && bool_decide (is_Some session_cookie)
    with InvalidCredentials ;;
  match bearer with
  | Some value =>
      let? value := ok_or (to_str value) InvalidCredentials in
      match strip_prefix (lit "Bearer ") value with
      | Some token => fail? is_empty token with InvalidCredentials ;; Ok (Some (Bearer token))
      | None => Err InvalidCredentials
      end
  | None => Ok (SessionCookie <$> session_cookie)
  end.

Definition validate_csrf headers (allowed_origin : str) : result (HttpBoundaryError E) unit :=
  let? origin :=
    match header_text headers ORIGIN with
    | Some origin => if bool_decide (origin = allowed_origin) then Ok origin else Err Csrf
    | None => Err Csrf
    end in
  fail? negb (bool_decide (origin = allowed_origin)) with Csrf ;;
  let? header_token := ok_or (header_text headers CSRF_HEADER) Csrf in
  let? cookie := cookie_value headers (lit "__Host-csrf") in
  let? cookie_token := ok_or cookie Csrf in
  fail? (str_len header_token <? 32)
        || negb (bool_decide (str_bytes header_token = str_bytes cookie_token)) with Csrf ;;
  Ok tt.

Definition is_bearer (c : option Credential) : bool :=
  match c with Some (Bearer _) => true | _ => false end.

Section ingress.
Context (authenticator : Credential → result E AuthenticatedSession) (now : Z).

Definition authenticate_request (config : TrustedIngressConfig) (method : str) headers
    (policy : RoutePolicy) : result (HttpBoundaryError E) (option VerifiedRequestContext) :=
  try? validate_content_length headers (max_request_body_bytes config) ;;
  let? request_id := request_id headers in
  let? credential := credential headers (allow_development_session_cookie config) in
  let browser_mutation :=
    requires_csrf method && bool_decide (policy ∈ [PublicForm; SessionMutation])
    && negb (is_bearer credential) in
  try? (if browser_mutation then validate_csrf headers (allowed_browser_origin config) else Ok tt) ;;
  match credential with
  | None =>
      match policy with
      | Public | PublicForm | Optional => Ok None
      | Authenticated | SessionMutation | StepUp => Err MissingCredentials
      end
  | Some credential =>
      fail? bool_decide (policy ∈ [Public; PublicForm]) with InvalidCredentials ;;
      let? session := map_err Authenticator (authenticator credential) in
      fail? as_expires_at session <=? now with InvalidContext InvalidLifetime ;;
      fail? match required_assurance policy with
            | Some required => negb (satisfies (as_assurance session) required)
            | None => false
            end with InsufficientAssurance ;;
      let? auth := map_err InvalidContext
        (from_validated (mk_auth_context (as_principal session) (as_organization_id session)
           (as_session_id session) request_id (as_assurance session) (as_issued_at session)
           (as_expires_at session) (as_decision_id session) (as_policy_revision session))) in
      Ok (Some (mk_request_context auth (as_authorization session)))
  end.

Definition authenticate (config : TrustedIngressConfig) (method : str) headers
    (policy : RoutePolicy) : result (HttpBoundaryError E) (option VerifiedAuthContext) :=
  rmap (fmap rc_auth) (authenticate_request config method headers policy).
End ingress.

Definition strip_untrusted_auth_metadata headers : HeaderMap :=
  header_remove (header_remove (header_remove headers AUTH_CONTEXT_HEADER) LEGACY_SESSION_HEADER)
    LEGACY_ADMIN_HEADER.
End boundary.

(** ** Response security headers *)

Inductive ResponseSecurityPolicy := Sensitive | DynamicPage | ImmutableAsset.
#[export] Instance ResponseSecurityPolicy_eq_dec : EqDecision ResponseSecurityPolicy.
Proof. solve_decision. Defined.

Definition CACHE_NO_STORE : str := lit "no-store".
Definition CACHE_REVALIDATE : str := lit "no-cache, must-revalidate".
Definition CACHE_IMMUTABLE : str := lit "public, max-age=31536000, immutable".
Definition cache_control (policy : ResponseSecurityPolicy) : str :=
  match policy with
  | Sensitive => CACHE_NO_STORE
  | DynamicPage => CACHE_REVALIDATE
  | ImmutableAsset => CACHE_IMMUTABLE
  end.
Definition CSP_VALUE : str := lit "default-src 'self'; frame-ancestors 'none'; base-uri 'self'".
Definition HSTS_VALUE : str := lit "max-age=31536000; includeSubDomains".

Section response.
Context `{HttpHeaders}.
Implicit Types headers : HeaderMap.

Definition apply_response_security headers (policy : ResponseSecurityPolicy) (secure : bool) :
    HeaderMap :=
  let headers := header_insert headers CACHE_CONTROL (from_static (cache_control policy)) in
  let headers := header_insert headers X_CONTENT_TYPE_OPTIONS (from_static (lit "nosniff")) in
  let headers := header_insert headers REFERRER_POLICY (from_static (lit "same-origin")) in
  let headers :=
    if negb (bool_decide (policy = ImmutableAsset))
    then header_insert headers CONTENT_SECURITY_POLICY (from_static CSP_VALUE) else headers in
  if secure then header_insert headers STRICT_TRANSPORT_SECURITY (from_static HSTS_VALUE)
  else header_remove headers STRICT_TRANSPORT_SECURITY.
Definition apply_secure_response_headers headers : HeaderMap :=
  apply_response_security headers Sensitive true.
End response.

(** ** Exact-origin CORS *)

Inductive CorsError := InvalidConfiguration | PreflightRejected.
#[export] Instance CorsError_eq_dec : EqDecision CorsError.
Proof. solve_decision. Defined.

Record CorsConfig := mk_cors {
  allowed_origins : list str;
  allowed_methods : list str;
  allowed_headers : list str;
  allow_credentials : bool;
}.

Definition forbidden_origin (origin : str) : bool :=
  bool_decide (origin = [42]) || existsb is_control origin
  || (negb (starts_with (lit "https://") origin) && negb (starts_with (lit "http://localhost") origin)
      && negb (starts_with (lit "http://127.0.0.1") origin)
      && negb (starts_with (lit "http://[::1]") origin)).

(** [Vec<String>::join(", ")]. *)
Fixpoint join_comma (l : list str) : str :=
  match l with
  | [] => []
  | [x] => x
  | x :: l => x ++ lit ", " ++ join_comma l
  end.

Section cors.
(** [Method::from_bytes(..).is_ok()] and [HeaderName::from_bytes(..).is_ok()]
    of the [http] crate. *)
Context (method_ok header_name_ok : list Z → bool).

Definition CorsConfig_new (origins methods headers : list str) (credentials : bool) :
    result CorsError CorsConfig :=
  let origins := bset_of_list origins in
  let methods := bset_of_list (map to_ascii_uppercase methods) in
  let headers := bset_of_list (map to_ascii_lowercase headers) in
  fail? match origins with [] => true | _ => false end
        || match methods with [] => true | _ => false end
        || existsb forbidden_origin origins
        || existsb (λ m, negb (method_ok (str_bytes m))) methods
        || existsb (λ h, is_empty h || negb (header_name_ok (str_bytes h))) headers
    with InvalidConfiguration ;;
  Ok (mk_cors origins methods headers credentials).
End cors.

Section cors_response.
Context `{HttpHeaders}.
Implicit Types headers : HeaderMap.

(** [CorsConfig::apply]: the new response headers and the returned flag. *)
Definition cors_apply (c : CorsConfig) (request_headers response_headers : HeaderMap) :
    HeaderMap * bool :=
  match header_text request_headers ORIGIN with
  | None => (response_headers, false)
  | Some origin =>
      if negb (bset_contains origin (allowed_origins c)) then (response_headers, false)
      else match from_str origin with
           | None => (response_headers, false)
           | Some origin =>
               let headers := header_insert response_headers ACCESS_CONTROL_ALLOW_ORIGIN origin in
               let headers := header_insert headers VARY (from_static (lit "Origin")) in
               (if allow_credentials c
                then header_insert headers ACCESS_CONTROL_ALLOW_CREDENTIALS (from_static (lit "true"))
                else headers, true)
           end
  end.

Definition requested_headers (request_headers : HeaderMap) : list str :=
  bset_of_list
    (map to_ascii_lowercase
       (List.filter (λ h, negb (is_empty h))
          (map trim (split_char 44 (default [] (header_text request_headers ACCESS_CONTROL_REQUEST_HEADERS)))))).

(** [CorsConfig::preflight]: the headers of the 204 response. *)
Definition preflight (c : CorsConfig) (request_headers : HeaderMap) : result CorsError HeaderMap :=
  let? origin :=
    match header_text request_headers ORIGIN with
    | Some o => if bset_contains o (allowed_origins c) then Ok o else Err PreflightRejected
    | None => Err PreflightRejected
    end in
  let? method :=
    match to_ascii_uppercase <$> header_text request_headers ACCESS_CONTROL_REQUEST_METHOD with
    | Some m => if bset_contains m (allowed_methods c) then Ok m else Err PreflightRejected
    | None => Err PreflightRejected
    end in
  let requested := requested_headers request_headers in
  fail? negb (forallb (λ h, bset_contains h (allowed_headers c)) requested) with PreflightRejected ;;
  let? origin := ok_or (from_str origin) PreflightRejected in
  let headers := header_insert empty_headers ACCESS_CONTROL_ALLOW_ORIGIN origin in
  let? method := ok_or (from_str method) PreflightRejected in
  let headers := header_insert headers ACCESS_CONTROL_ALLOW_METHODS method in
  let? headers :=
    match requested with
    | [] => Ok headers
    | _ :: _ =>
        let? value := ok_or (from_str (join_comma requested)) PreflightRejected in
        Ok (header_insert headers ACCESS_CONTROL_ALLOW_HEADERS value)
    end in
  let headers := header_insert headers VARY (from_static (lit "Origin")) in
  Ok (if allow_credentials c
      then header_insert headers ACCESS_CONTROL_ALLOW_CREDENTIALS (from_static (lit "true"))
      else headers).
End cors_response.

(** ** Cookies *)

(** The value a cookie pair gives to [name]. *)
Definition named (name cookie : str) : option str :=
  match split_once 61 (trim cookie) with
  | Some (n, v) => if bool_decide (n = name) then Some v else None
  | None => None
  end.
(** Every value the request gives to the cookie [name], in order; [None] when
    a [Cookie] header is not text. *)
Definition cookies_named `{HttpHeaders} (headers : HeaderMap) (name : str) : option (list str) :=
  texts ← mapM to_str (get_all headers COOKIE);
  Some (omap (named name) (texts ≫= split_char 59)).

(** The accumulator of the cookie loops: at most one, non-empty, value. *)
Definition single (found : option str) (vs : list str) (r : option str) : Prop :=
  (vs = [] ∧ r = found) ∨ (found = None ∧ ∃ v, vs = [v] ∧ v ≠ [] ∧ r = Some v).

Lemma single_app found vs1 vs2 r :
  single found (vs1 ++ vs2) r ↔ ∃ f, single found vs1 f ∧ single f vs2 r.
Proof.
  unfold single. split.
  - intros [[[-> ->]%app_eq_nil ->]|(-> & v & Hv & Hne & ->)]; [exists found; split; by left|].
    apply app_eq_unit in Hv as [[-> ->]|[-> ->]].
    + exists None. split; [by left|right; eauto].
    + exists (Some v). split; [right; eauto|by left].
  - intros (f & [[-> ->]|(-> & v & -> & Hne & ->)] & [[-> ->]|(E & w & -> & Hw & ->)]); try done.
    + by left.
    + right. split; [done|]. by exists w.
    + right. split; [done|]. by exists v.
Qed.

#[local] Arguments lit : simpl never.

Section boundary_lemmas.
Context `{HttpHeaders} {E : Type}.
Implicit Types headers : HeaderMap.

Lemma cookie_step_Ok name found cookie r :
  cookie_step (E:=E) name found cookie = Ok r ↔
  single found (match named name cookie with Some v => [v] | None => [] end) r.
Proof.
  unfold cookie_step, named, single. destruct (split_once 61 (trim cookie)) as [[n v]|].
  2: { split; [intros [= <-]; by left|]. by intros [[_ ->]|(_ & ? & ? & _)]. }
  destruct (bool_decide (n = name)).
  2: { split; [intros [= <-]; by left|]. by intros [[_ ->]|(_ & ? & ? & _)]. }
  rewrite fail_Ok, orb_false_iff, bool_decide_eq_false. split.
  - intros [[Hf Hv] [= <-]]. right. split; [by destruct found; [destruct Hf; eauto|]|].
    exists v. by destruct v.
  - intros [[? _]|(-> & w & [= <-] & Hw & ->)]; [done|]. split; [|done].
    split; [by intros [? ?]|by destruct v].
Qed.

Lemma cookie_pieces_Ok name l found r :
  try_fold (cookie_step (E:=E) name) found l = Ok r ↔ single found (omap (named name) l) r.
Proof.
  revert found. induction l as [|c l IH]; intros found; cbn.
  - unfold single. split; [intros [= <-]; by left|]. by intros [[_ ->]|(_ & ? & ? & _)].
  - rewrite rbind_Ok. setoid_rewrite cookie_step_Ok. setoid_rewrite IH.
    rewrite <- single_app. by destruct (named name c).
Qed.

(** [cookie_value] finds exactly the cookies that are given once, with a
    value. *)
Lemma cookie_value_Ok headers name r :
  cookie_value (E:=E) headers name = Ok r ↔
  ∃ vs, cookies_named headers name = Some vs ∧ single None vs r.
Proof.
  unfold cookie_value, cookies_named. generalize (@None str) as found.
  induction (get_all headers COOKIE) as [|v hs IH]; intros found; cbn.
  - unfold single. split; [intros [= <-]; exists []; split; [done|by left]|].
    by intros (vs & [= <-] & [[_ ->]|(_ & ? & ? & _)]).
  - destruct (to_str v) as [t|]; cbn; [|split; [done|by intros (? & ? & _)]].
    rewrite rbind_Ok. setoid_rewrite cookie_pieces_Ok. setoid_rewrite IH.
    destruct (mapM to_str hs) as [ts|]; cbn.
    + rewrite omap_app. split.
      * intros (f & Hf & vs & [= <-] & Hr). eexists; split; [done|]. apply single_app. eauto.
      * intros (vs & [= <-] & (f & Hf & Hr)%single_app). eauto 6.
    + split; [by intros (? & _ & ? & ? & _)|by intros (? & ? & _)].
Qed.
End boundary_lemmas.

Section boundary_properties.
Context `{HttpHeaders} {E : Type}.
Implicit Types headers : HeaderMap.

(** The session cookies of a request, the production and the development one. *)
Definition session_cookies headers (allow_development : bool) : option (list str * list str) :=
  hosts ← cookies_named headers (lit "__Host-session");
  devs ← (if allow_development then cookies_named headers (lit "wasi_auth_dev_session") else Some []);
  Some (hosts, devs).

(** What a request must present for each credential the boundary extracts. *)
Definition presents headers (hosts devs : list str) (c : option Credential) : Prop :=
  match c with
  | None => get_all headers AUTHORIZATION = [] ∧ hosts = [] ∧ devs = []
  | Some (Bearer t) =>
      t ≠ [] ∧ hosts = [] ∧ devs = [] ∧
      ∃ v, get_all headers AUTHORIZATION = [v] ∧ to_str v = Some (lit "Bearer " ++ t)
  | Some (SessionCookie s) => s ≠ [] ∧ get_all headers AUTHORIZATION = [] ∧ hosts ++ devs = [s]
  end.

Lemma session_cookies_Ok headers (dev : bool) hc dc :
  (cookie_value (E:=E) headers (lit "__Host-session") = Ok hc ∧
   (if dev then cookie_value (E:=E) headers (lit "wasi_auth_dev_session") else Ok None) = Ok dc) ↔
  ∃ hosts devs, session_cookies headers dev = Some (hosts, devs) ∧
    single None hosts hc ∧ single None devs dc.
Proof.
  rewrite cookie_value_Ok. unfold session_cookies.
  destruct (cookies_named headers (lit "__Host-session")) as [hosts|]; cbn.
  2: { split; [by intros [(? & ? & _) _]|by intros (? & ? & ? & _)]. }
  destruct dev.
  - rewrite cookie_value_Ok. destruct (cookies_named headers (lit "wasi_auth_dev_session")) as [devs|]; cbn.
    + split; [intros [(? & [= <-] & ?) (? & [= <-] & ?)]; eauto 8|].
      intros (? & ? & [= <- <-] & ? & ?); eauto 8.
    + split; [by intros [_ (? & ? & _)]|by intros (? & ? & ? & _)].
  - split.
    + intros [(? & [= <-] & ?) [= <-]]. exists hosts, []. split_and!; [done..|by left].
    + intros (? & ? & [= <- <-] & ? & Hd). split; [eauto|].
      by destruct Hd as [[_ ->]|(_ & ? & ? & _)].
Qed.

(** Credential extraction is unambiguous.  A request yields a bearer
    token exactly when it has one [Authorization] header [Bearer t] with a
    non-empty token and no session cookie; a session cookie exactly when it
    has no [Authorization] header and one non-empty session cookie over all
    its [Cookie] headers (the development cookie counting only when it is
    enabled); nothing exactly when it has none of them.  Every other
    combination is an error. *)
Theorem credential_exact headers (dev : bool) c :
  credential (E:=E) headers dev = Ok c ↔
  ∃ hosts devs, session_cookies headers dev = Some (hosts, devs) ∧ presents headers hosts devs c.
Proof.
  unfold credential. cbv zeta. rewrite fail_Ok, bool_decide_eq_false.
  rewrite rbind_Ok. setoid_rewrite rbind_Ok. split.
  - intros (Hlen & hc & Hhc & dc & Hdc & Hr).
    destruct (proj1 (session_cookies_Ok headers dev hc dc) (conj Hhc Hdc)) as (hosts & devs & Hs & Hh & Hd).
    exists hosts, devs. split; [done|].
    apply fail_Ok in Hr as [Hboth Hr]. apply fail_Ok in Hr as [Hex Hr].
    destruct Hh as [[-> ->]|(_ & v & -> & Hv & ->)], Hd as [[-> ->]|(_ & w & -> & Hw & ->)];
      destruct (get_all headers AUTHORIZATION) as [|a [|a' l]] eqn:Ha; cbn in Hlen, Hboth, Hex, Hr;
      try done; try (exfalso; lia).
    + by injection Hr as <-.
    + apply rbind_Ok in Hr as (t & Ht & Hr). destruct (to_str a) as [t'|] eqn:Ea; [|done].
      injection Ht as ->. destruct (strip_prefix (lit "Bearer ") t) as [tok|] eqn:Es; [|done].
      apply fail_Ok in Hr as [Hne [= <-]]. apply strip_prefix_Some in Es as ->.
      split_and!; try done; [by destruct tok|eauto].
    + injection Hr as <-. by split_and!.
    + injection Hr as <-. by split_and!.
  - intros (hosts & devs & Hs & Hp).
    assert (∃ hc dc : option str, single None hosts hc ∧ single None devs dc ∧
              (hc, dc) = (head hosts, head devs)) as (hc & dc & Hh & Hd & [= -> ->]).
    { exists (head hosts), (head devs). unfold single.
      destruct c as [[t|s]|]; cbn in Hp.
      - destruct Hp as (_ & -> & -> & _). by split_and!; [left|left|].
      - destruct Hp as (Hne & _ & Hs1). apply app_eq_unit in Hs1 as [[-> ->]|[-> ->]].
        + split_and!; [by left|right; eauto|done].
        + split_and!; [right; eauto|by left|done].
      - destruct Hp as (_ & -> & ->). by split_and!; [left|left|]. }
    destruct (proj2 (session_cookies_Ok headers dev (head hosts) (head devs))
      ltac:(eauto)) as [Hhc Hdc].
    destruct c as [[t|s]|]; cbn in Hp.
    + destruct Hp as (Hne & -> & -> & v & -> & Hv). split; [cbn; lia|].
      exists None; split; [done|]. exists None; split; [done|]. cbn. rewrite Hv.
      cbn [ok_or rbind]. rewrite (proj2 (strip_prefix_Some _ _ t) eq_refl). by destruct t.
    + destruct Hp as (Hne & -> & Hs1). split; [cbn; lia|].
      exists (head hosts); split; [done|]. exists (head devs); split; [done|].
      by apply app_eq_unit in Hs1 as [[-> ->]|[-> ->]].
    + destruct Hp as (-> & -> & ->). split; [cbn; lia|].
      exists None; split; [done|]. by exists None.
Qed.
(** The double-submit check: the request comes from the allowed origin and
    its token header repeats the only CSRF cookie. *)
Definition csrf_proof headers (allowed_origin : str) : Prop :=
  header_text headers ORIGIN = Some allowed_origin ∧
  ∃ token cookie, header_text headers CSRF_HEADER = Some token ∧
    cookies_named headers (lit "__Host-csrf") = Some [cookie] ∧
    str_bytes token = str_bytes cookie ∧ 32 ≤ str_len token.

Lemma validate_csrf_Ok headers allowed :
  validate_csrf (E:=E) headers allowed = Ok tt ↔ csrf_proof headers allowed.
Proof.
  unfold validate_csrf, csrf_proof. rewrite rbind_Ok. split.
  - intros (origin & Ho & H1). destruct (header_text headers ORIGIN) as [o|]; [|done].
    destruct (bool_decide (o = allowed)) eqn:Eo; [|done]. apply bool_decide_eq_true in Eo. split; [by rewrite Eo|].
    apply fail_Ok in H1 as [_ H1]. apply rbind_Ok in H1 as (token & Ht & H1).
    apply rbind_Ok in H1 as (ck & Hc & H1). apply rbind_Ok in H1 as (cookie & Hck & H1).
    apply fail_Ok in H1 as [Hb _]. apply orb_false_iff in Hb as [Hl Hb].
    destruct (header_text headers CSRF_HEADER) as [t|]; [injection Ht as ->|done].
    destruct ck as [c'|]; [injection Hck as ->|done]. bprop.
    apply cookie_value_Ok in Hc as (vs & Hv & [[_ ?]|(_ & v & -> & _ & [= <-])]); [done|].
    by exists token, cookie.
  - intros (-> & token & cookie & -> & Hc & Hb & Hl). exists allowed.
    rewrite !bool_decide_true by done. split; [done|]. cbn [negb ok_or rbind].
    rewrite (proj2 (cookie_value_Ok headers (lit "__Host-csrf") (Some cookie))); cbn [ok_or rbind].
    + rewrite bool_decide_true by done. by rewrite (proj2 (Z.ltb_ge _ _)) by done.
    + exists [cookie]. split; [done|]. right. split; [done|]. exists cookie.
      split_and!; try done. intros ->. unfold str_len in Hl. rewrite Hb in Hl. cbn in Hl. lia.
Qed.

Context (authenticator : Credential → result E AuthenticatedSession) (now : Z).

(** C11: every context the boundary installs was earned.  A verified context
    is returned only on a route that accepts credentials, for the one
    credential the request presents (a bearer token without session cookies,
    or one session cookie without an [Authorization] header), which the
    authenticator accepted as a session that has not expired, and that has
    assurance aal2 when the route is a step-up route; the context carries that
    session's principal, organization, session id and authorization unchanged,
    and the request id of the one correlation header. *)
Theorem ingress_context_earned config method headers policy ctx :
  authenticate_request authenticator now config method headers policy = Ok (Some ctx) →
  policy ≠ Public ∧ policy ≠ PublicForm ∧
  ∃ cred hosts devs session rid,
    session_cookies headers (allow_development_session_cookie config) = Some (hosts, devs) ∧
    presents headers hosts devs (Some cred) ∧
    authenticator cred = Ok session ∧
    now < as_expires_at session ∧ as_issued_at session < as_expires_at session ∧
    (policy = StepUp → as_assurance session = Aal2) ∧
    (∃ v, get_all headers REQUEST_ID_HEADER = [v] ∧ to_str v = Some rid ∧
          validate_identifier rid = Ok tt) ∧
    ctx = mk_request_context
      (mk_auth_context (as_principal session) (as_organization_id session) (as_session_id session)
         rid (as_assurance session) (as_issued_at session) (as_expires_at session)
         (as_decision_id session) (as_policy_revision session))
      (as_authorization session).
Proof.
  unfold authenticate_request. intros H1. apply rbind_Ok in H1 as ([] & _ & H1).
  apply rbind_Ok in H1 as (rid & Hrid & H1). apply rbind_Ok in H1 as ([cred|] & Hcred & H1);
    apply rbind_Ok in H1 as ([] & _ & H1); [|by destruct policy].
  apply fail_Ok in H1 as [Hp H1]. apply rbind_Ok in H1 as (session & Hs & H1).
  apply map_err_Ok in Hs. apply fail_Ok in H1 as [Hexp H1]. apply fail_Ok in H1 as [Has H1].
  apply rbind_Ok in H1 as (auth & Ha & [= <-]). apply map_err_Ok, fail_Ok in Ha as [Hl [= <-]].
  cbn in Hl. bprop. split; [by intros ->; destruct Hp; left|].
  split; [by intros ->; destruct Hp; right; left|].
  apply credential_exact in Hcred as (hosts & devs & Hcookies & Hpres).
  exists cred, hosts, devs, session, rid. split_and!; try done.
  - intros ->. cbn in Has. apply negb_false_iff, satisfies_spec in Has. by destruct Has.
  - unfold request_id in Hrid. destruct (get_all headers REQUEST_ID_HEADER) as [|v [|]]; try done.
    exists v. apply rbind_Ok in Hrid as (t & Ht & Hrid). destruct (to_str v); [|done].
    injection Ht as ->. by apply map_err_Ok, identifier_new_Ok in Hrid as [-> ?].
Qed.

(** C37: browser mutations are CSRF-checked.  A request with a method other
    than GET, HEAD and OPTIONS passes a [PublicForm] or [SessionMutation]
    route only with the double-submit proof from the allowed origin, unless
    it presents a bearer token. *)
Theorem browser_mutation_needs_csrf config method headers policy r :
  authenticate_request authenticator now config method headers policy = Ok r →
  method ∉ [lit "GET"; lit "HEAD"; lit "OPTIONS"] → policy ∈ [PublicForm; SessionMutation] →
  csrf_proof headers (allowed_browser_origin config) ∨
  ∃ token, credential (E:=E) headers (allow_development_session_cookie config) = Ok (Some (Bearer token)).
Proof.
  unfold authenticate_request. intros H1 Hm Hp. apply rbind_Ok in H1 as ([] & _ & H1).
  apply rbind_Ok in H1 as (rid & _ & H1). apply rbind_Ok in H1 as (cred & Hcred & H1).
  apply rbind_Ok in H1 as ([] & Hc & _). unfold requires_csrf in Hc.
  rewrite (bool_decide_false _ Hm), (bool_decide_true _ Hp) in Hc. cbn in Hc.
  destruct cred as [[t|s]|]; cbn in Hc; [right; eauto|left; by apply validate_csrf_Ok..].
Qed.
End boundary_properties.

(** Looks a header name up in a header map built by insertions and removals
    of the literal names above. *)
Ltac headers_lookup :=
  unfold header_text, header_get;
  repeat first
    [ rewrite get_all_insert | rewrite get_all_remove | rewrite get_all_empty
    | rewrite bool_decide_true by reflexivity
    | rewrite bool_decide_false by (vm_compute; discriminate)
    | progress cbn [negb] ];
  cbn [head mbind option_bind].

Section cors_properties.
Context `{HttpHeaders} (method_ok header_name_ok : list Z → bool).

Lemma CorsConfig_new_Ok origins methods headers credentials c :
  CorsConfig_new method_ok header_name_ok origins methods headers credentials = Ok c →
  (∀ o, o ∈ allowed_origins c ↔ o ∈ origins) ∧ allow_credentials c = credentials ∧
  (∀ o, o ∈ allowed_origins c → forbidden_origin o = false) ∧
  (∀ h, h ∈ allowed_headers c ↔ ∃ h', h' ∈ headers ∧ h = to_ascii_lowercase h').
Proof.
  unfold CorsConfig_new. cbv zeta. intros H1. apply fail_Ok in H1 as [Hf [= <-]]. cbn.
  rewrite !orb_false_iff in Hf. destruct Hf as ((((_ & _) & Ho) & _) & _).
  rewrite existsb_false_spec in Ho. split_and!; try done.
  - intros o. apply elem_of_bset_of_list.
  - intros h. rewrite elem_of_bset_of_list, list_elem_of_In, in_map_iff.
    setoid_rewrite list_elem_of_In. naive_solver.
Qed.

Lemma wildcard_forbidden o : forbidden_origin o = false → o ≠ [42].
Proof. intros Hf ->. vm_compute in Hf. discriminate. Qed.

(** What a CORS response says of an origin: it is echoed, it was configured,
    it is not the wildcard, and credentials are allowed only as configured. *)
Definition echoes (origins : list str) (credentials : bool) (o : str) (response : HeaderMap) : Prop :=
  o ∈ origins ∧ o ≠ [42] ∧ header_text response ACCESS_CONTROL_ALLOW_ORIGIN = Some o ∧
  header_text response VARY = Some (lit "Origin") ∧
  (credentials = true → header_text response ACCESS_CONTROL_ALLOW_CREDENTIALS = Some (lit "true")).

(** CORS answers exactly the configured origins.  For a configuration
    that was accepted, a preflight succeeds only for a request whose origin
    is one of the configured ones, echoing that origin and never a wildcard,
    and only when every requested header is configured; and the headers of
    an ordinary response are changed only for such an origin. *)
Theorem cors_exact_origins origins methods headers credentials c request response :
  CorsConfig_new method_ok header_name_ok origins methods headers credentials = Ok c →
  (∀ r, preflight c request = Ok r →
    ∃ o, header_text request ORIGIN = Some o ∧ echoes origins credentials o r ∧
      (credentials = false → get_all r ACCESS_CONTROL_ALLOW_CREDENTIALS = []) ∧
      (∀ h, h ∈ requested_headers request → ∃ h', h' ∈ headers ∧ h = to_ascii_lowercase h')) ∧
  (∀ r, cors_apply c request response = (r, false) → r = response) ∧
  (∀ r, cors_apply c request response = (r, true) →
    ∃ o, header_text request ORIGIN = Some o ∧ echoes origins credentials o r).
Proof.
  intros (Ho & <- & Hf & Hh)%CorsConfig_new_Ok. split_and!.
  - intros r Hr. unfold preflight in Hr. apply rbind_Ok in Hr as (o & Hor & Hr).
    destruct (header_text request ORIGIN) as [o'|]; [|done].
    destruct (bset_contains o' _) eqn:Hin; [injection Hor as ->|done].
    apply bool_decide_eq_true in Hin. exists o. split; [done|].
    apply rbind_Ok in Hr as (m & _ & Hr). apply fail_Ok in Hr as [Hreq Hr].
    apply negb_false_iff in Hreq. rewrite forallb_spec in Hreq.
    apply rbind_Ok in Hr as (ov & Hov & Hr). destruct (from_str o) as [ov'|] eqn:Eo; [injection Hov as ->|done].
    apply rbind_Ok in Hr as (mv & Hmv & Hr). apply rbind_Ok in Hr as (hs & Hhs & Hr).
    assert (header_text hs ACCESS_CONTROL_ALLOW_ORIGIN = Some o ∧
            get_all hs ACCESS_CONTROL_ALLOW_CREDENTIALS = []) as [Hs1 Hs2].
    { destruct (requested_headers request); [injection Hhs as <-|].
      - split; headers_lookup; [by apply to_str_from_str|done].
      - apply rbind_Ok in Hhs as (v & _ & [= <-]). split; headers_lookup; [by apply to_str_from_str|done]. }
    injection Hr as <-. split_and!.
    + split_and!; [by apply Ho|by apply wildcard_forbidden, Hf|..].
      * unfold header_text, header_get in *. by destruct (allow_credentials c); headers_lookup.
      * destruct (allow_credentials c); headers_lookup; by apply to_str_from_static.
      * intros ->. headers_lookup. by apply to_str_from_static.
    + intros ->. by headers_lookup.
    + intros h Hin'. apply Hh. specialize (Hreq h Hin'). by apply bool_decide_eq_true in Hreq.
  - intros r. unfold cors_apply. destruct (header_text request ORIGIN) as [o|]; [|congruence].
    destruct (negb _); [congruence|]. destruct (from_str o); congruence.
  - intros r. unfold cors_apply. destruct (header_text request ORIGIN) as [o|]; [|congruence].
    destruct (negb (bset_contains o _)) eqn:Hin; [congruence|]. apply negb_false_iff, bool_decide_eq_true in Hin.
    destruct (from_str o) as [ov|] eqn:Eo; [|congruence]. intros [= <-]. exists o. split; [done|].
    split_and!; [by apply Ho|by apply wildcard_forbidden, Hf|..].
    + destruct (allow_credentials c); headers_lookup; by apply to_str_from_str.
    + destruct (allow_credentials c); headers_lookup; by apply to_str_from_static.
    + intros ->. headers_lookup. by apply to_str_from_static.
Qed.
End cors_properties.

Section response_properties.
Context `{HttpHeaders}.

(** Stripping removes the internal identity headers and nothing else. *)
Lemma get_all_strip headers n :
  get_all (strip_untrusted_auth_metadata headers) n =
  if bool_decide (n ∈ [AUTH_CONTEXT_HEADER; LEGACY_SESSION_HEADER; LEGACY_ADMIN_HEADER])
  then [] else get_all headers n.
Proof.
  unfold strip_untrusted_auth_metadata. rewrite !get_all_remove.
  repeat case_bool_decide; set_solver.
Qed.

(** Response security is complete and idempotent.  Whatever headers a
    response had, afterwards its cache directive is the one of its class (so
    a sensitive response is never stored), sniffing is off, referrers stay on
    the origin, framing is forbidden on everything but immutable assets, and
    the transport policy is present exactly on secure transport; applying it
    again changes no header, and no other header is touched. *)
Theorem response_security_exact headers policy secure n :
  let r := apply_response_security headers policy secure in
  header_text r CACHE_CONTROL = Some (cache_control policy) ∧
  header_text r X_CONTENT_TYPE_OPTIONS = Some (lit "nosniff") ∧
  header_text r REFERRER_POLICY = Some (lit "same-origin") ∧
  (policy ≠ ImmutableAsset → header_text r CONTENT_SECURITY_POLICY = Some CSP_VALUE) ∧
  header_text r STRICT_TRANSPORT_SECURITY = (if secure then Some HSTS_VALUE else None) ∧
  get_all (apply_response_security r policy secure) n = get_all r n ∧
  (n ∉ [CACHE_CONTROL; X_CONTENT_TYPE_OPTIONS; REFERRER_POLICY; CONTENT_SECURITY_POLICY;
        STRICT_TRANSPORT_SECURITY] → get_all r n = get_all headers n).
Proof.
  intros r. subst r. unfold apply_response_security. split_and!.
  1-3: destruct policy, secure; headers_lookup; by apply to_str_from_static.
  - destruct policy; [..|done]; intros _; destruct secure; headers_lookup; by apply to_str_from_static.
  - destruct policy, secure; headers_lookup; first [by apply to_str_from_static|done].
  - destruct (negb _), secure; repeat rewrite ?get_all_insert, ?get_all_remove;
      by repeat case_bool_decide.
  - intros Hn. destruct (negb _), secure; repeat rewrite ?get_all_insert, ?get_all_remove;
      repeat case_bool_decide; set_solver.
Qed.
End response_properties.

(** ** Concrete requests *)

Module IngressExample.
Definition origin : str := lit "https://app.example".
Definition config : TrustedIngressConfig := mk_ingress_config DEFAULT_MAX_REQUEST_BODY_BYTES origin false.
Definition token : str := lit "0123456789abcdef0123456789abcdef".
Definition request : @HeaderMap alist_headers :=
  [(REQUEST_ID_HEADER, lit "r1"); (CONTENT_LENGTH, lit "+12"); (ORIGIN, origin);
   (CSRF_HEADER, token);
   (COOKIE, lit "theme=dark; __Host-session=s3cret; __Host-csrf=" ++ token)].
Definition session : AuthenticatedSession :=
  mk_session (mk_principal (lit "alice") (lit "https://id.example") false) None (lit "s1") Aal1
    100 200 None None (mk_snapshot [lit "a.view"] [] None None).
Definition authenticator (c : Credential) : result unit AuthenticatedSession :=
  if bool_decide (c = SessionCookie (lit "s3cret")) then Ok session else Err tt.
Definition context : VerifiedRequestContext :=
  mk_request_context
    (mk_auth_context (as_principal session) None (lit "s1") (lit "r1") Aal1 100 200 None None)
    (as_authorization session).

Lemma ingress_context_earned_witness :
  ∃ cred hosts devs, session_cookies request false = Some (hosts, devs) ∧
    presents request hosts devs (Some cred) ∧ authenticator cred = Ok session.
Proof.
  destruct (ingress_context_earned authenticator 150 config (lit "POST") request SessionMutation context)
    as (_ & _ & cred & hosts & devs & s & rid & H0 & H1 & H2 & _).
  - vm_compute. reflexivity.
  - exists cred, hosts, devs. split; [exact H0|]. split; [exact H1|]. rewrite H2. revert H2. unfold authenticator.
    destruct (bool_decide _); congruence.
Defined.

Lemma browser_mutation_needs_csrf_witness :
  csrf_proof request origin ∨
  ∃ token, credential (E:=unit) request false = Ok (Some (Bearer token)).
Proof.
  apply (browser_mutation_needs_csrf authenticator 150 config (lit "POST") request SessionMutation
           (Some context)).
  - vm_compute. reflexivity.
  - apply (bool_decide_unpack _). vm_compute. exact I.
  - right. left.
Defined.

(** A step-up or plain authenticated route does not check the CSRF proof of a
    cookie-backed mutation; only [SessionMutation] does. *)
Example authenticated_route_skips_csrf :
  let bare : @HeaderMap alist_headers := [(REQUEST_ID_HEADER, lit "r1"); (COOKIE, lit "__Host-session=s3cret")] in
  authenticate_request authenticator 150 config (lit "POST") bare Authenticated = Ok (Some context) ∧
  authenticate_request authenticator 150 config (lit "POST") bare SessionMutation = Err Csrf.
Proof. split; vm_compute; reflexivity. Qed.

Definition cors : CorsConfig := mk_cors [origin] [lit "POST"] [lit "x-csrf-token"] true.
Definition preflight_request : @HeaderMap alist_headers :=
  [(ORIGIN, origin); (ACCESS_CONTROL_REQUEST_METHOD, lit "post");
   (ACCESS_CONTROL_REQUEST_HEADERS, lit " X-CSRF-Token ,")].

Lemma cors_exact_origins_witness :
  ∃ r : HeaderMap, preflight cors preflight_request = Ok r ∧
    header_text r ACCESS_CONTROL_ALLOW_ORIGIN = Some origin.
Proof.
  destruct (cors_exact_origins (λ _, true) (λ _, true) [origin] [lit "post"] [lit "X-CSRF-Token"]
    true cors preflight_request empty_headers) as (Hp & _ & _).
  - vm_compute. reflexivity.
  - eexists. split; [vm_compute; reflexivity|].
    edestruct Hp as (o & Ho & He & _); [vm_compute; reflexivity|].
    destruct He as (_ & _ & He & _). vm_compute in Ho. injection Ho as <-. exact He.
Defined.

(** The loopback tests are textual prefixes: a remote host whose name starts
    with [localhost] passes them, as a CORS origin without TLS and as an
    origin that enables the development cookie. *)
Definition localhost_lookalike : str := lit "http://localhost.evil.example".
Example loopback_is_a_prefix_test :
  forbidden_origin localhost_lookalike = false ∧
  rmap (λ c, allow_development_session_cookie (with_development_session_cookie c))
    (TrustedIngressConfig_new localhost_lookalike) = Ok true.
Proof. split; vm_compute; reflexivity. Qed.
End IngressExample.
