(* ===== verification/Postgres.v ===== *)
(** * Postgres: calls, identifiers, parameters and materialized rows

    [io W E A] is a call in a world [W] that returns a value or an error and
    may change the world in both cases.  The text form of a UUID is a class:
    the sources print and parse it with the [uuid] crate, and PostgreSQL casts
    it.  [PgValue], [PgRow] and the typed column readers are those of
    src/crates/wasi-auth/src/postgres.rs.  A row is a [BTreeMap] from column
    names to values; an absent column and an SQL [NULL] read alike. *)

From S2P Require Export Collections.
Open Scope Z_scope.

(** The sixteen bytes of a [Uuid]; PostgreSQL and Rust order them alike. *)
Abbreviation Uuid := (list Z) (only parsing).

(** ** Identifiers *)

(** The text form of the [uuid] crate, which PostgreSQL shares. *)
Class UuidText := {
  uuid_to_string : Uuid → str;
  uuid_parse_str : str → option Uuid;
  uuid_parse_to_string : ∀ u, uuid_parse_str (uuid_to_string u) = Some u;
}.

Definition UUID_RANDOM_BYTES : nat := 10.
(** [uuid_v7] on the drawn bytes, which fill an array of [UUID_RANDOM_BYTES]. *)
Definition uuid_v7_bytes (now_ms : Z) (random : list Z) : Uuid :=
  let byte i := nth i random 0 in
  drop 2 (to_be_bytes (Z.min now_ms 0x0000ffffffffffff))
  ++ [Z.lor 0x70 (Z.land (byte 0%nat) 0x0f); byte 1%nat; Z.lor 0x80 (Z.land (byte 2%nat) 0x3f)]
  ++ drop 3 random.

(** ** Calls *)

(** Effectful code: a call may change the world whether it fails or not. *)
Definition io (W E A : Type) : Type := W → result E A * W.
Definition io_bind {W E A B} (m : io W E A) (k : A → io W E B) : io W E B :=
  λ w, match m w with (Ok a, w') => k a w' | (Err e, w') => (Err e, w') end.
Definition io_lift {W E A} (r : result E A) : io W E A := λ w, (r, w).
Definition io_call {W E F A} (f : F → E) (m : io W F A) : io W E A :=
  λ w, let (r, w') := m w in (map_err f r, w').
(** Looks at a failure instead of returning early. *)
Definition io_attempt {W E F A} (m : io W F A) : io W E (result F A) :=
  λ w, let (r, w') := m w in (Ok r, w').
Notation "'do!' x := m 'in' k" := (io_bind m (λ x, k))
  (at level 10, x pattern, m at level 99, k at level 200,
   format "'[v' 'do!'  x  :=  m  'in'  '/' k ']'") : result_scope.
Notation "'fail!' c 'with' e ;; k" := (if (c : bool) then io_lift (Err e) else k)
  (at level 10, c at level 99, e at level 99, k at level 200,
   format "'[v' 'fail!'  c  'with'  e  ;;  '/' k ']'") : result_scope.
(** A loop that threads an accumulator and stops at the first error. *)
Definition io_fold {W E A S} (f : S → A → io W E S) : S → list A → io W E S :=
  fix go acc l :=
    match l with
    | [] => io_lift (Ok acc)
    | x :: l => do! acc := f acc x in go acc l
    end.

(** ** Rows *)

Inductive PgValue :=
| PgNull
| PgBool (b : bool)
| PgI64 (n : Z)
| PgText (s : str)
| PgBytes (bs : list Z)
| PgJson (document : Value).

Inductive RowDecodeError := Missing (column : str) | WrongType (column : str).

Definition PgRow := bmap PgValue.
Definition PgRow_new (values : list (str * PgValue)) : PgRow := bmap_of_list values.

Definition row_text (row : PgRow) (column : str) : result RowDecodeError (option str) :=
  match bmap_get column row with
  | Some (PgText value) => Ok (Some value)
  | Some PgNull | None => Ok None
  | Some _ => Err (WrongType column)
  end.
Definition required_text (row : PgRow) (column : str) : result RowDecodeError str :=
  let? value := row_text row column in ok_or value (Missing column).

Definition row_i64 (row : PgRow) (column : str) : result RowDecodeError (option Z) :=
  match bmap_get column row with
  | Some (PgI64 value) => Ok (Some value)
  | Some PgNull | None => Ok None
  | Some _ => Err (WrongType column)
  end.
Definition required_i64 (row : PgRow) (column : str) : result RowDecodeError Z :=
  let? value := row_i64 row column in ok_or value (Missing column).

Definition row_bytes (row : PgRow) (column : str) : result RowDecodeError (option (list Z)) :=
  match bmap_get column row with
  | Some (PgBytes value) => Ok (Some value)
  | Some PgNull | None => Ok None
  | Some _ => Err (WrongType column)
  end.
Definition required_bytes (row : PgRow) (column : str) : result RowDecodeError (list Z) :=
  let? value := row_bytes row column in ok_or value (Missing column).

Definition row_bool (row : PgRow) (column : str) : result RowDecodeError (option bool) :=
  match bmap_get column row with
  | Some (PgBool value) => Ok (Some value)
  | Some PgNull | None => Ok None
  | Some _ => Err (WrongType column)
  end.

Definition row_json (row : PgRow) (column : str) : result RowDecodeError (option Value) :=
  match bmap_get column row with
  | Some (PgJson value) => Ok (Some value)
  | Some PgNull | None => Ok None
  | Some _ => Err (WrongType column)
  end.

(** [i64::try_from(value).unwrap_or(i64::MAX)] of a [u64] *)
Definition u64_to_i64 (value : Z) : Z := if value <=? i64_max then value else i64_max.
Lemma u64_to_i64_id v : v ≤ i64_max → u64_to_i64 v = v.
Proof. unfold u64_to_i64. destruct (Z.leb_spec v i64_max); lia. Qed.
(** [u64::try_from] of an [i64] *)
Definition u64_try_from (value : Z) : option Z := if 0 <=? value then Some value else None.
Lemma u64_try_from_Some v x : u64_try_from v = Some x ↔ x = v ∧ 0 ≤ v.
Proof. unfold u64_try_from. destruct (Z.leb_spec 0 v); naive_solver lia. Qed.

(** A nullable column. *)
Definition pg_text (v : option str) : PgValue := match v with Some s => PgText s | None => PgNull end.
Definition pg_bytes (v : option (list Z)) : PgValue := match v with Some b => PgBytes b | None => PgNull end.
Definition pg_i64 (v : option Z) : PgValue := match v with Some n => PgI64 n | None => PgNull end.

Lemma u64_to_i64_le n : u64_to_i64 n ≤ i64_max.
Proof. unfold u64_to_i64. destruct (Z.leb_spec n i64_max); lia. Qed.
Lemma u64_to_i64_small n : n ≤ i64_max → u64_to_i64 n = n.
Proof. unfold u64_to_i64. destruct (Z.leb_spec n i64_max); lia. Qed.
Lemma u64_to_i64_mono m n : m ≤ n → u64_to_i64 m ≤ u64_to_i64 n.
Proof.
  unfold u64_to_i64. destruct (Z.leb_spec m i64_max), (Z.leb_spec n i64_max); lia.
Qed.

(** Successful runs of a sequence. *)
Lemma io_bind_Ok {W E A B} (m : io W E A) (k : A → io W E B) w b w' :
  io_bind m k w = (Ok b, w') ↔ ∃ a w1, m w = (Ok a, w1) ∧ k a w1 = (Ok b, w').
Proof. unfold io_bind. destruct (m w) as [[a|e] w1]; naive_solver. Qed.
Lemma io_lift_Ok {W E A} (r : result E A) (w : W) a w' :
  io_lift r w = (Ok a, w') ↔ r = Ok a ∧ w' = w.
Proof. unfold io_lift. naive_solver. Qed.
Lemma io_call_Ok {W E F A} (f : F → E) (m : io W F A) w a w' :
  io_call f m w = (Ok a, w') ↔ m w = (Ok a, w').
Proof. unfold io_call. destruct (m w) as [[x|e] w1]; cbn; naive_solver. Qed.
Lemma io_fail_Ok {W E A} (c : bool) (e : E) (k : io W E A) w a w' :
  (if c then io_lift (Err e) else k) w = (Ok a, w') ↔ c = false ∧ k w = (Ok a, w').
Proof. destruct c; cbn; naive_solver. Qed.
