(* ===== verification/Outbox.v ===== *)
(** * Outbox: the durable delivery queue

    Models the table [auth_outbox] and the statements that change it:
    src/crates/wasi-auth/src/postgres/{lease_outbox, complete_outbox,
    retry_outbox, load_relationship_consistency}.sql, the trigger
    [auth_track_membership_authorization] of migration 0010 that records a
    relationship change with the next authorization revision of its
    organization, and the insertion of a mail by the workflow statements.

    A statement is one atomic transition of the table.  [FOR UPDATE SKIP
    LOCKED] makes the rows another transaction holds invisible to a lease, so
    the lease takes the set of locked identifiers as an argument and every
    theorem quantifies over it.  [step] collects the transitions, for any
    number of workers, together with the deliveries the providers accepted;
    the theorems are by induction on it. *)

From S2P Require Export Postgres UnitOfWork.
From stdpp Require Import gmap.
Open Scope Z_scope.

(** ** The table *)

Inductive OutboxStatus := Pending | Leased | Delivered | DeadLetter.
Inductive OutboxKind := KMail | KRelationship.
#[export] Instance OutboxStatus_eq_dec : EqDecision OutboxStatus.
Proof. solve_decision. Defined.
#[export] Instance OutboxKind_eq_dec : EqDecision OutboxKind.
Proof. solve_decision. Defined.
#[export] Instance RelationshipOperation_eq_dec : EqDecision RelationshipOperation.
Proof. solve_decision. Defined.

Record RelationshipKey := mk_key {
  key_resource_type : str;
  key_resource_id : str;
  key_relation : str;
  key_subject_type : str;
  key_subject_id : str;
}.
#[export] Instance RelationshipKey_eq_dec : EqDecision RelationshipKey.
Proof. solve_decision. Defined.

(** The three shapes that the constraint [auth_outbox_payload_shape] admits;
    the last is a relationship row of the format before migration 0010. *)
Inductive OutboxPayload :=
| MailPayload (key_version : str) (ciphertext : list Z)
| RelationshipPayload (operation : RelationshipOperation) (key : RelationshipKey) (revision : Z)
| LegacyRelationshipPayload (key_version : str) (ciphertext : list Z).

Record OutboxRow := mk_row {
  outbox_id : Uuid;
  deduplication_key : str;
  payload : OutboxPayload;
  row_status : OutboxStatus;
  attempt_count : Z;
  available_at_ms : Z;
  row_lease_id : option Uuid;
  leased_until_ms : option Z;
  delivered_at_ms : option Z;
  delivery_id : option str;
  last_error_code : option str;
  created_at_ms : Z;
  updated_at_ms : Z;
}.

(** The part of the database the outbox depends on: the authorization
    revision of each organization, and the rows. *)
Record Outbox := mk_outbox {
  authorization_revision : gmap str Z;
  rows : list OutboxRow;
}.

Definition kind_of (p : OutboxPayload) : OutboxKind :=
  match p with MailPayload _ _ => KMail | _ => KRelationship end.
Definition row_kind (r : OutboxRow) : OutboxKind := kind_of (payload r).

(** ** lease_outbox.sql *)

(** Two rows of one relationship, the first before the second. *)
Definition earlier (e c : OutboxRow) : bool :=
  match payload e, payload c with
  | RelationshipPayload _ k v, RelationshipPayload _ k' v' =>
      bool_decide (k = k')
      && ((v <? v') || ((v =? v') && str_ltb (outbox_id e) (outbox_id c)))
  | _, _ => false
  end.
Definition settled (r : OutboxRow) : bool := bool_decide (row_status r = Delivered).

(** The [WHERE] clause of the candidates. *)
Definition leasable (all : list OutboxRow) (kind : OutboxKind) (now : Z) (c : OutboxRow) : bool :=
  bool_decide (row_kind c = kind)
  && (available_at_ms c <=? now)
  && match row_status c with
     | Pending => true
     | Leased => match leased_until_ms c with Some t => t <=? now | None => false end
     | _ => false
     end
  && negb (existsb (λ e, earlier e c && negb (settled e)) all).

(** [ORDER BY available_at_ms, created_at_ms, outbox_id] *)
Definition lease_order (a b : OutboxRow) : Prop :=
  available_at_ms a < available_at_ms b
  ∨ (available_at_ms a = available_at_ms b
     ∧ (created_at_ms a < created_at_ms b
        ∨ (created_at_ms a = created_at_ms b ∧ str_le (outbox_id a) (outbox_id b)))).
#[export] Instance lease_order_dec : RelDecision lease_order.
Proof. intros a b. unfold lease_order. apply _. Defined.

Definition candidates (locked : list Uuid) (kind : OutboxKind) (now : Z) (limit : nat)
    (all : list OutboxRow) : list OutboxRow :=
  take limit (merge_sort lease_order
    (List.filter (λ c, leasable all kind now c && negb (bool_decide (outbox_id c ∈ locked))) all)).

Definition lease_row (now : Z) (lease : Uuid) (until : Z) (r : OutboxRow) : OutboxRow :=
  mk_row (outbox_id r) (deduplication_key r) (payload r) Leased (attempt_count r + 1)
    (available_at_ms r) (Some lease) (Some until) (delivered_at_ms r) (delivery_id r)
    (last_error_code r) (created_at_ms r) now.

(** Updates the rows that satisfy [p] and returns them, as
    [UPDATE .. WHERE .. RETURNING] does. *)
Definition update_where (p : OutboxRow → bool) (f : OutboxRow → OutboxRow) (t : Outbox) :
    list OutboxRow * Outbox :=
  (map f (List.filter p (rows t)),
   mk_outbox (authorization_revision t) (map (λ r, if p r then f r else r) (rows t))).

Definition lease_outbox (locked : list Uuid) (kind : OutboxKind) (now : Z) (limit : nat)
    (lease : Uuid) (until : Z) (t : Outbox) : list OutboxRow * Outbox :=
  let ids := map outbox_id (candidates locked kind now limit (rows t)) in
  update_where (λ r, bool_decide (outbox_id r ∈ ids)) (lease_row now lease until) t.

(** ** complete_outbox.sql and retry_outbox.sql *)

(** [outbox_id = $1 AND lease_id = $2 AND status = 'leased'] *)
Definition owned (id lease : Uuid) (r : OutboxRow) : bool :=
  bool_decide (outbox_id r = id) && bool_decide (row_lease_id r = Some lease)
  && bool_decide (row_status r = Leased).

Definition complete_row (now : Z) (delivery : str) (r : OutboxRow) : OutboxRow :=
  mk_row (outbox_id r) (deduplication_key r) (payload r) Delivered (attempt_count r)
    (available_at_ms r) None None (Some now) (Some delivery) None (created_at_ms r) now.
Definition complete_outbox (id lease : Uuid) (now : Z) (delivery : str) (t : Outbox) :
    list OutboxRow * Outbox :=
  update_where (owned id lease) (complete_row now delivery) t.

Definition retry_row (now available : Z) (error : str) (max_attempts : Z) (r : OutboxRow) :
    OutboxRow :=
  mk_row (outbox_id r) (deduplication_key r) (payload r)
    (if max_attempts <=? attempt_count r then DeadLetter else Pending) (attempt_count r)
    available None None (delivered_at_ms r) (delivery_id r) (Some error) (created_at_ms r) now.
Definition retry_outbox (id lease : Uuid) (now available : Z) (error : str) (max_attempts : Z)
    (t : Outbox) : list OutboxRow * Outbox :=
  update_where (owned id lease) (retry_row now available error max_attempts) t.

(** ** Recording work *)

Definition id_free (id : Uuid) (t : Outbox) : bool :=
  negb (existsb (λ r, bool_decide (outbox_id r = id)) (rows t)).
Definition key_free (key : str) (t : Outbox) : bool :=
  negb (existsb (λ r, bool_decide (deduplication_key r = key)) (rows t)).
Definition new_row (id : Uuid) (key : str) (p : OutboxPayload) (at_ms : Z) : OutboxRow :=
  mk_row id key p Pending 0 at_ms None None None None None at_ms at_ms.
Definition insert_row (r : OutboxRow) (t : Outbox) : Outbox :=
  mk_outbox (authorization_revision t) (rows t ++ [r]).

(** The [INSERT] of a workflow statement; [None] is a unique violation, which
    rolls the statement back. *)
Definition enqueue_mail (id : Uuid) (key key_version : str) (ciphertext : list Z) (at_ms : Z)
    (t : Outbox) : option Outbox :=
  if id_free id t && key_free key t
  then Some (insert_row (new_row id key (MailPayload key_version ciphertext) at_ms) t)
  else None.

Record Membership := mk_membership {
  member_organization : str;
  member_user : str;
  member_role : str;
  member_status : str;
  member_updated_at_ms : Z;
}.
Definition member_active (m : Membership) : bool := bool_decide (member_status m = lit "active").

Inductive TriggerEvent :=
| TgInsert (new : Membership)
| TgUpdate (old new : Membership)
| TgDelete (old : Membership).
Definition tg_target (e : TriggerEvent) : Membership :=
  match e with TgInsert new => new | TgUpdate _ new => new | TgDelete old => old end.
Definition tg_previous_active (e : TriggerEvent) : bool :=
  match e with TgInsert _ => false | TgUpdate old _ => member_active old | TgDelete old => member_active old end.
Definition tg_current_active (e : TriggerEvent) : bool :=
  match e with TgInsert new => member_active new | TgUpdate _ new => member_active new | TgDelete _ => false end.
Definition tg_unchanged (e : TriggerEvent) : bool :=
  match e with
  | TgUpdate old new =>
      bool_decide (member_role old = member_role new) && bool_decide (member_status old = member_status new)
  | _ => false
  end.

Definition member_key (m : Membership) : RelationshipKey :=
  mk_key (lit "organization") (member_organization m) (lit "member") (lit "user") (member_user m).
Definition operation_text (op : RelationshipOperation) : str :=
  lit match op with Grant => "grant" | Revoke => "revoke" end.
Definition intent_deduplication_key (m : Membership) (revision : Z) (op : RelationshipOperation) : str :=
  lit "relationship:organization:" ++ member_organization m ++ lit ":member:user:"
  ++ member_user m ++ lit ":" ++ lit (pretty.pretty revision) ++ lit ":" ++ operation_text op.

(** [auth_track_membership_authorization()] with the identifier that
    [gen_random_uuid()] draws; [None] is a raised exception or a primary-key
    violation. *)
Definition track_membership (e : TriggerEvent) (id : Uuid) (t : Outbox) : option Outbox :=
  if tg_unchanged e then Some t else
  let m := tg_target e in
  match authorization_revision t !! member_organization m with
  | None => None
  | Some revision =>
      let next_revision := revision + 1 in
      let t := mk_outbox (<[member_organization m := next_revision]> (authorization_revision t)) (rows t) in
      if Bool.eqb (tg_previous_active e) (tg_current_active e) then Some t else
      let op := if tg_current_active e then Grant else Revoke in
      let key := intent_deduplication_key m next_revision op in
      if negb (key_free key t) then Some t
      else if negb (id_free id t) then None
      else Some (insert_row
        (new_row id key (RelationshipPayload op (member_key m) next_revision) (member_updated_at_ms m)) t)
  end.

(** ** load_relationship_consistency.sql *)

Definition scoped (resource_type resource_id : str) (r : OutboxRow) : bool :=
  match payload r with
  | RelationshipPayload _ k _ =>
      bool_decide (key_resource_type k = resource_type) && bool_decide (key_resource_id k = resource_id)
  | _ => false
  end.
Definition revision_of (r : OutboxRow) : Z :=
  match payload r with RelationshipPayload _ _ v => v | _ => 0 end.

(** [delivered_at_ms DESC]: a null sorts first. *)
Definition desc_option (a b : option Z) : Prop :=
  match a, b with None, Some _ => True | Some x, Some y => y < x | _, _ => False end.
#[export] Instance desc_option_dec : RelDecision desc_option.
Proof. intros [a|] [b|]; cbn; apply _. Defined.
Definition token_order (a b : OutboxRow) : Prop :=
  revision_of b < revision_of a
  ∨ (revision_of a = revision_of b
     ∧ (desc_option (delivered_at_ms a) (delivered_at_ms b)
        ∨ (delivered_at_ms a = delivered_at_ms b ∧ str_le (outbox_id b) (outbox_id a)))).
#[export] Instance token_order_dec : RelDecision token_order.
Proof. intros a b. unfold token_order. apply _. Defined.

Definition max_revision (rs : list OutboxRow) : option Z :=
  foldr (λ r acc, Some (match acc with Some v => Z.max (revision_of r) v | None => revision_of r end))
    None rs.
Definition has_token (r : OutboxRow) : bool :=
  settled r && bool_decide (delivery_id r ≠ None).

Definition select_consistency (resource_type resource_id : str) (t : Outbox) :
    bool * option str * option Z :=
  let rs := List.filter (scoped resource_type resource_id) (rows t) in
  (existsb (λ r, negb (settled r)) rs,
   mbind delivery_id (head (merge_sort token_order (List.filter has_token rs))),
   max_revision rs).

(** ** The system: the table and the deliveries the providers accepted *)

Definition intent_of (op : RelationshipOperation) (k : RelationshipKey) (revision : Z) :
    RelationshipOutboxIntent :=
  mk_intent op (key_resource_type k ++ lit ":" ++ key_resource_id k) (key_relation k)
    (key_subject_type k ++ lit ":" ++ key_subject_id k) revision None.

(** A mail under its correlation identifier with the provider's delivery
    identifier, or a relationship change with the provider's token. *)
Inductive Acceptance :=
| AcceptedMail (correlation delivery : str)
| AcceptedRelationship (intent : RelationshipOutboxIntent) (token : str).

Record System := mk_system { table : Outbox; accepted : list Acceptance }.

(** What a provider accepts when it takes the work of a row. *)
Definition acceptance (r : OutboxRow) (d : str) : option Acceptance :=
  match payload r with
  | MailPayload _ _ => Some (AcceptedMail (deduplication_key r) d)
  | RelationshipPayload op k v => Some (AcceptedRelationship (intent_of op k v) d)
  | LegacyRelationshipPayload _ _ => None
  end.
Definition evidence (log : list Acceptance) (r : OutboxRow) (d : str) : Prop :=
  ∃ a, acceptance r d = Some a ∧ a ∈ log.

Definition MAX_ATTEMPTS : Z := 8.

Inductive step : System → System → Prop :=
| step_mail id key key_version ciphertext at_ms t t' log :
    enqueue_mail id key key_version ciphertext at_ms t = Some t' →
    step (mk_system t log) (mk_system t' log)
| step_membership e id t t' log :
    track_membership e id t = Some t' →
    step (mk_system t log) (mk_system t' log)
| step_lease locked kind now limit lease until t log :
    step (mk_system t log)
         (mk_system (lease_outbox locked kind now limit lease until t).2 log)
| step_accept r d a t log :
    r ∈ rows t → 0 < attempt_count r → acceptance r d = Some a →
    step (mk_system t log) (mk_system t (log ++ [a]))
| step_complete id lease now d t log :
    (∀ r, r ∈ rows t → owned id lease r = true → evidence log r d) →
    step (mk_system t log) (mk_system (complete_outbox id lease now d t).2 log)
| step_retry id lease now available error t log :
    step (mk_system t log)
         (mk_system (retry_outbox id lease now available error MAX_ATTEMPTS t).2 log).

(** ** Migration 0010 *)

(** A row of the join of memberships, organizations and users. *)
Record JoinedMember := mk_joined {
  jm_organization : str;
  jm_user : str;
  jm_membership_status : str;
  jm_organization_status : str;
  jm_user_status : str;
  jm_membership_updated_at_ms : Z;
  jm_organization_updated_at_ms : Z;
  jm_user_updated_at_ms : Z;
}.
Definition bootstrapped (m : JoinedMember) : bool :=
  bool_decide (jm_membership_status m = lit "active") && bool_decide (jm_organization_status m = lit "active")
  && bool_decide (jm_user_status m = lit "active").
Definition joined_key (m : JoinedMember) : RelationshipKey :=
  mk_key (lit "organization") (jm_organization m) (lit "member") (lit "user") (jm_user m).
Definition bootstrap_deduplication_key (m : JoinedMember) (revision : Z) : str :=
  lit "relationship:organization:" ++ jm_organization m ++ lit ":member:user:"
  ++ jm_user m ++ lit ":" ++ lit (pretty.pretty revision) ++ lit ":bootstrap-grant".
Definition greatest (m : JoinedMember) : Z :=
  Z.max (jm_membership_updated_at_ms m) (Z.max (jm_organization_updated_at_ms m) (jm_user_updated_at_ms m)).
(** [INSERT .. SELECT .. ON CONFLICT (deduplication_key) DO NOTHING], for one
    row of the join with the identifier that is drawn for it; without its
    organization the row is not in the join. *)
Definition bootstrap_grant (m : JoinedMember) (id : Uuid) (t : Outbox) : option Outbox :=
  match authorization_revision t !! jm_organization m with
  | Some revision =>
      if bootstrapped m then
        let key := bootstrap_deduplication_key m revision in
        if negb (key_free key t) then Some t
        else if negb (id_free id t) then None
        else Some (insert_row (new_row id key (RelationshipPayload Grant (joined_key m) revision) (greatest m)) t)
      else Some t
  | None => Some t
  end.
Fixpoint bootstrap_grants (ms : list (JoinedMember * Uuid)) (t : Outbox) : option Outbox :=
  match ms with [] => Some t | (m, id) :: ms => t ← bootstrap_grant m id t; bootstrap_grants ms t end.
(** [UPDATE .. SET status = 'dead_letter' .. WHERE kind = 'relationship'] *)
Definition retire_legacy_row (r : OutboxRow) : OutboxRow :=
  mk_row (outbox_id r) (deduplication_key r) (payload r) DeadLetter (attempt_count r) (available_at_ms r)
    None None (delivered_at_ms r) (delivery_id r) (Some (lit "legacy_relationship_payload")) (created_at_ms r)
    (Z.max (updated_at_ms r) (available_at_ms r)).
Definition migrate_0010 (ms : list (JoinedMember * Uuid)) (t : Outbox) : option Outbox :=
  bootstrap_grants ms
    (update_where (λ r, bool_decide (row_kind r = KRelationship)) retire_legacy_row t).2.


(** ** The invariant *)

Definition is_legacy (r : OutboxRow) : Prop := ∃ v c, payload r = LegacyRelationshipPayload v c.

Definition status_sound (log : list Acceptance) (r : OutboxRow) : Prop :=
  match row_status r with
  | Pending => 0 ≤ attempt_count r < MAX_ATTEMPTS ∧ row_lease_id r = None ∧ leased_until_ms r = None
  | Leased => 0 < attempt_count r ∧ is_Some (row_lease_id r) ∧ is_Some (leased_until_ms r)
  | Delivered =>
      0 < attempt_count r ∧ row_lease_id r = None ∧ leased_until_ms r = None
      ∧ is_Some (delivered_at_ms r) ∧ ∃ d, delivery_id r = Some d ∧ evidence log r d
  | DeadLetter =>
      row_lease_id r = None ∧ leased_until_ms r = None
      ∧ (is_legacy r ∨ MAX_ATTEMPTS ≤ attempt_count r)
  end.

(** Before the migration: mails as the worker leaves them, with the mails the
    provider accepted, and relationship rows of the old format in any state. *)
Record before_0010 (s : System) : Prop := {
  before_ids : NoDup (map outbox_id (rows (table s)));
  before_rows : ∀ r, r ∈ rows (table s) → (∃ v c, payload r = MailPayload v c) ∧ status_sound (accepted s) r ∨ is_legacy r;
  before_log : ∀ a, a ∈ accepted s → ∃ r d, r ∈ rows (table s) ∧ 0 < attempt_count r ∧ acceptance r d = Some a;
}.
(** After it, for the members there were, each once. *)
Definition migrated (s : System) : Prop :=
  ∃ t0 ms, before_0010 (mk_system t0 (accepted s)) ∧ NoDup (map (λ mi, joined_key mi.1) ms)
    ∧ migrate_0010 ms t0 = Some (table s).
Definition reachable (s : System) : Prop := ∃ s0, migrated s0 ∧ rtc step s0 s.

Record sound (s : System) : Prop := {
  sound_ids : NoDup (map outbox_id (rows (table s)));
  sound_status : ∀ r, r ∈ rows (table s) → status_sound (accepted s) r;
  sound_order : ∀ e c, e ∈ rows (table s) → c ∈ rows (table s) →
    earlier e c = true → 0 < attempt_count c → row_status e = Delivered;
  sound_revisions : ∀ r op k v, r ∈ rows (table s) → payload r = RelationshipPayload op k v →
    ∃ current, authorization_revision (table s) !! key_resource_id k = Some current ∧ v ≤ current;
  sound_log : ∀ a, a ∈ accepted s → ∃ r d, r ∈ rows (table s) ∧ 0 < attempt_count r
    ∧ acceptance r d = Some a;
}.

(** The columns an update leaves alone, and the attempts, which it only
    counts up. *)
Definition same_work (r r' : OutboxRow) : Prop :=
  outbox_id r' = outbox_id r ∧ deduplication_key r' = deduplication_key r
  ∧ payload r' = payload r ∧ attempt_count r ≤ attempt_count r'.

Lemma same_work_earlier e e' c c' :
  same_work e e' → same_work c c' → earlier e' c' = earlier e c.
Proof.
  intros (He & _ & Hp & _) (Hc & _ & Hq & _). unfold earlier. by rewrite He, Hc, Hp, Hq.
Qed.
Lemma same_work_acceptance r r' d : same_work r r' → acceptance r' d = acceptance r d.
Proof. intros (_ & Hk & Hp & _). unfold acceptance. by rewrite Hp, Hk. Qed.
Lemma same_work_evidence log r r' d : same_work r r' → evidence log r d → evidence log r' d.
Proof. intros Hs (a & Ha & Hin). exists a. by rewrite (same_work_acceptance r r'). Qed.
Lemma same_work_refl r : same_work r r.
Proof. repeat split. lia. Qed.
Lemma same_work_trans r1 r2 r3 : same_work r1 r2 → same_work r2 r3 → same_work r1 r3.
Proof. intros (?&?&?&?) (?&?&?&?). repeat split; congruence || lia. Qed.
#[local] Hint Resolve same_work_refl : wauth.

Lemma evidence_app log a r d : evidence log r d → evidence (log ++ a) r d.
Proof. intros (x & Hx & Hin). exists x. rewrite elem_of_app. auto. Qed.

Lemma status_sound_app log a r : status_sound log r → status_sound (log ++ a) r.
Proof.
  unfold status_sound. destruct (row_status r); [done..| |done].
  intros (? & ? & ? & ? & d & ? & ?). do 4 (split; [done|]).
  exists d. split; [done|]. by apply evidence_app.
Qed.

Lemma elem_of_update p f t r' :
  r' ∈ rows (update_where p f t).2 ↔ ∃ r, r ∈ rows t ∧ r' = (if p r then f r else r).
Proof. cbn. rewrite list_elem_of_fmap. naive_solver. Qed.

(** An update keeps the invariant when it keeps the columns that say what the
    work is, keeps each row's own invariant, leaves delivered rows delivered,
    and attempts only rows whose predecessors are delivered. *)
Lemma update_sound p f t log :
  (∀ r, same_work r (f r)) →
  (∀ r, r ∈ rows t → p r = true → status_sound log r → status_sound log (f r)) →
  (∀ r, r ∈ rows t → p r = true → row_status r ≠ Delivered) →
  (∀ c, c ∈ rows t → p c = true → 0 < attempt_count (f c) →
    ∀ e, e ∈ rows t → earlier e c = true → row_status e = Delivered) →
  sound (mk_system t log) → sound (mk_system (update_where p f t).2 log).
Proof.
  intros Hsame Hstatus Hkeep Horder [Hids Hst Hord Hrev Hlog].
  assert (Hw : ∀ r, same_work r (if p r then f r else r)) by (intros r; destruct (p r); auto with wauth).
  split; cbn [table accepted] in *.
  - cbn. rewrite map_map. erewrite map_ext; [exact Hids|]. intros r. by destruct (Hw r).
  - intros r' (r & Hr & ->)%elem_of_update. destruct (p r) eqn:E; auto.
  - intros e' c' (e & He & ->)%elem_of_update (c & Hc & ->)%elem_of_update.
    rewrite (same_work_earlier e _ c) by apply Hw. intros Hec Hatt.
    assert (Hd : row_status e = Delivered).
    { destruct (p c) eqn:Ec; [by apply (Horder c)|by apply (Hord e c)]. }
    destruct (p e) eqn:Ee; [|done]. by destruct (Hkeep e He Ee Hd).
  - intros r' op k v (r & Hr & ->)%elem_of_update Hp. cbn.
    apply (Hrev r op k v Hr). destruct (Hw r) as (_ & _ & E & _). congruence.
  - intros a Ha. destruct (Hlog a Ha) as (r & d & Hr & Hatt & Hacc).
    exists (if p r then f r else r), d. rewrite elem_of_update, (same_work_acceptance r) by apply Hw.
    split; [eauto|]. split; [|done]. destruct (Hw r) as (_ & _ & _ & ?). lia.
Qed.

Lemma lease_row_same now lease until r : same_work r (lease_row now lease until r).
Proof. repeat split; cbn; lia. Qed.
Lemma complete_row_same now d r : same_work r (complete_row now d r).
Proof. repeat split; cbn; lia. Qed.
Lemma retry_row_same now av e m r : same_work r (retry_row now av e m r).
Proof. repeat split; cbn; lia. Qed.
#[local] Hint Resolve lease_row_same complete_row_same retry_row_same : wauth.

Lemma elem_of_candidates locked kind now limit all c :
  c ∈ candidates locked kind now limit all →
  c ∈ all ∧ leasable all kind now c = true ∧ (outbox_id c ∉ locked).
Proof.
  unfold candidates. intros Hc.
  assert (Hm : c ∈ merge_sort lease_order
    (List.filter (λ c, leasable all kind now c && negb (bool_decide (outbox_id c ∈ locked))) all)).
  { eapply elem_of_take in Hc as (i & Hi & _). by eapply list_elem_of_lookup_2. }
  rewrite merge_sort_Permutation, elem_of_filterb, andb_true_iff, negb_true_iff, bool_decide_eq_false in Hm.
  tauto.
Qed.

Lemma leasable_iff all kind now c :
  leasable all kind now c = true ↔
  row_kind c = kind ∧ available_at_ms c ≤ now
  ∧ (row_status c = Pending
     ∨ (row_status c = Leased ∧ ∃ until, leased_until_ms c = Some until ∧ until ≤ now))
  ∧ ∀ e, e ∈ all → earlier e c = true → row_status e = Delivered.
Proof.
  unfold leasable, settled. rewrite !andb_true_iff, negb_true_iff, existsb_false_spec, bool_decide_eq_true, Z.leb_le.
  assert (Hs : (match row_status c with
     | Pending => true
     | Leased => match leased_until_ms c with Some t => t <=? now | None => false end
     | _ => false end) = true ↔ (row_status c = Pending
     ∨ (row_status c = Leased ∧ ∃ until, leased_until_ms c = Some until ∧ until ≤ now))).
  { destruct (row_status c), (leased_until_ms c); rewrite ?Z.leb_le; naive_solver. }
  rewrite Hs. split.
  - intros [[[? ?] ?] He]. do 3 (split; [done|]). intros e Hin Hec. specialize (He e Hin).
    rewrite Hec in He. cbn in He. by apply negb_false_iff, bool_decide_eq_true in He.
  - intros (? & ? & ? & He). split; [done|]. intros e Hin.
    destruct (earlier e c) eqn:Ec; [|done]. cbn. rewrite He by done. done.
Qed.

(** Identifiers select single rows. *)
Lemma id_inj (l : list OutboxRow) r1 r2 :
  NoDup (map outbox_id l) → r1 ∈ l → r2 ∈ l → outbox_id r1 = outbox_id r2 → r1 = r2.
Proof.
  intros Hnd (i & Hi)%list_elem_of_lookup_1 (j & Hj)%list_elem_of_lookup_1 E.
  assert (i = j) as ->; [|congruence].
  eapply NoDup_lookup; [exact Hnd|..]; rewrite list_lookup_fmap; [by rewrite Hi|]. by rewrite Hj, E.
Qed.

(** A row is taken by a lease exactly when it is one of the candidates. *)
Lemma leased_candidate locked kind now limit t r :
  NoDup (map outbox_id (rows t)) → r ∈ rows t →
  bool_decide (outbox_id r ∈ map outbox_id (candidates locked kind now limit (rows t))) = true →
  r ∈ candidates locked kind now limit (rows t).
Proof.
  intros Hnd Hr (c & E & Hc)%bool_decide_eq_true%list_elem_of_fmap.
  destruct (elem_of_candidates _ _ _ _ _ _ Hc) as (Hin & _ & _).
  by rewrite (id_inj _ r c Hnd Hr Hin E).
Qed.

Lemma lease_sound locked kind now limit lease until t log :
  sound (mk_system t log) → sound (mk_system (lease_outbox locked kind now limit lease until t).2 log).
Proof.
  intros Hs. pose proof (sound_ids _ Hs) as Hnd. unfold lease_outbox.
  assert (Hc : ∀ r, r ∈ rows t →
    bool_decide (outbox_id r ∈ map outbox_id (candidates locked kind now limit (rows t))) = true →
    leasable (rows t) kind now r = true).
  { intros r Hr Hb. eapply elem_of_candidates, leased_candidate; eauto. }
  assert (Ha : ∀ r, r ∈ rows t → leasable (rows t) kind now r = true →
    row_status r ≠ Delivered ∧ 0 ≤ attempt_count r).
  { intros r Hr (_ & _ & Hst & _)%leasable_iff. pose proof (sound_status _ Hs r Hr) as H.
    unfold status_sound in H. destruct Hst as [E|[E _]]; rewrite E in *; (split; [done|lia]). }
  apply update_sound; [auto with wauth|..|done].
  - intros r Hr Hb _. destruct (Ha r Hr (Hc r Hr Hb)). cbn. split; [lia|]. by split; eexists.
  - intros r Hr Hb. apply (Ha r Hr (Hc r Hr Hb)).
  - intros c Hin Hb _. by apply leasable_iff with kind now, Hc.
Qed.

Lemma owned_iff id lease r :
  owned id lease r = true ↔ outbox_id r = id ∧ row_lease_id r = Some lease ∧ row_status r = Leased.
Proof. unfold owned. rewrite !andb_true_iff, !bool_decide_eq_true. tauto. Qed.

Lemma complete_sound id lease now d t log :
  (∀ r, r ∈ rows t → owned id lease r = true → evidence log r d) →
  sound (mk_system t log) → sound (mk_system (complete_outbox id lease now d t).2 log).
Proof.
  intros Hev Hs. apply update_sound; [auto with wauth|..|done].
  - intros r Hr Ho. pose proof (Hev r Hr Ho). apply owned_iff in Ho as (_ & _ & E).
    unfold status_sound at 1. rewrite E. intros (? & _ & _). cbn.
    do 3 (split; [done|]). split; [by eexists|]. exists d. split; [done|].
    by apply (same_work_evidence _ r); [auto with wauth|].
  - intros r _ (_ & _ & E)%owned_iff. by rewrite E.
  - intros c Hc (_ & _ & E)%owned_iff _ e He Hec. apply (sound_order _ Hs e c He Hc Hec).
    pose proof (sound_status _ Hs c Hc) as H. unfold status_sound in H. rewrite E in H. tauto.
Qed.

Lemma retry_sound id lease now available error t log :
  sound (mk_system t log) →
  sound (mk_system (retry_outbox id lease now available error MAX_ATTEMPTS t).2 log).
Proof.
  intros Hs. apply update_sound; [auto with wauth|..|done].
  - intros r _ (_ & _ & E)%owned_iff. unfold status_sound. rewrite E. cbn. intros (? & _ & _).
    destruct (Z.leb_spec MAX_ATTEMPTS (attempt_count r)); cbn; repeat split; auto; lia.
  - intros r _ (_ & _ & E)%owned_iff. by rewrite E.
  - intros c Hc (_ & _ & E)%owned_iff _ e He Hec. apply (sound_order _ Hs e c He Hc Hec).
    pose proof (sound_status _ Hs c Hc) as H. unfold status_sound in H. rewrite E in H. tauto.
Qed.

Lemma id_free_iff id t : id_free id t = true ↔ ∀ r, r ∈ rows t → outbox_id r ≠ id.
Proof.
  unfold id_free. rewrite negb_true_iff, existsb_false_spec. by setoid_rewrite bool_decide_eq_false.
Qed.

(** A new row that comes after every row of its relationship keeps the
    invariant. *)
Lemma insert_sound id key p at_ms t log :
  id_free id t = true →
  (∀ v c, p ≠ LegacyRelationshipPayload v c) →
  (∀ op k v, p = RelationshipPayload op k v →
    ∃ current, authorization_revision t !! key_resource_id k = Some current ∧ v ≤ current) →
  (∀ op k v r op' v', p = RelationshipPayload op k v → r ∈ rows t →
    payload r = RelationshipPayload op' k v' → v' < v) →
  sound (mk_system t log) → sound (mk_system (insert_row (new_row id key p at_ms) t) log).
Proof.
  intros Hid Hleg Hrev Hlate [Hids Hst Hord Hr Hlog]. rewrite id_free_iff in Hid.
  split; cbn [table accepted insert_row authorization_revision rows] in *.
  - rewrite map_app. apply NoDup_app. split; [done|]. split; [|apply NoDup_singleton].
    intros x (r & -> & Hin)%list_elem_of_fmap [E|[]%not_elem_of_nil]%elem_of_cons. by apply (Hid r).
  - intros r [Hin| ->%list_elem_of_singleton]%elem_of_app; [auto|].
    cbn. unfold MAX_ATTEMPTS. split; [lia|done].
  - intros e c [He| ->%list_elem_of_singleton]%elem_of_app
      [Hc| ->%list_elem_of_singleton]%elem_of_app Hec Hatt; [by apply (Hord e c)|cbn in Hatt; lia| |cbn in Hatt; lia].
    exfalso. unfold earlier in Hec. cbn in Hec.
    destruct p as [|op k v|]; [done| |done]. destruct (payload c) as [|op' k' v'|] eqn:Ec; [done| |done].
    rewrite andb_true_iff, bool_decide_eq_true, orb_true_iff, andb_true_iff, Z.ltb_lt, Z.eqb_eq in Hec.
    destruct Hec as [-> Hv]. specialize (Hlate op k' v c op' v' eq_refl Hc Ec). lia.
  - intros r op k v [Hin| ->%list_elem_of_singleton]%elem_of_app Hp; eauto.
  - intros a Ha. destruct (Hlog a Ha) as (r & d & ? & ? & ?). exists r, d. rewrite elem_of_app. auto.
Qed.

Lemma enqueue_mail_sound id key kv c at_ms t t' log :
  enqueue_mail id key kv c at_ms t = Some t' →
  sound (mk_system t log) → sound (mk_system t' log).
Proof.
  unfold enqueue_mail. destruct (id_free id t) eqn:Hid; [|done]. destruct (key_free key t); [|done].
  intros [= <-]. by apply insert_sound.
Qed.

(** Advancing the revision of an organization keeps the invariant. *)
Lemma advance_sound org revision t log :
  authorization_revision t !! org = Some revision →
  sound (mk_system t log) →
  sound (mk_system (mk_outbox (<[org := revision + 1]> (authorization_revision t)) (rows t)) log).
Proof.
  intros Horg [Hids Hst Hord Hr Hlog]. split; cbn [table accepted authorization_revision rows] in *; try done.
  intros r op k v Hin Hp. destruct (Hr r op k v Hin Hp) as (current & Hc & Hle).
  destruct (decide (org = key_resource_id k)) as [->|Hne].
  - rewrite lookup_insert_eq. exists (revision + 1). split; [done|].
    assert (current = revision) by congruence. lia.
  - rewrite lookup_insert_ne by done. eauto.
Qed.

Lemma track_membership_sound e id t t' log :
  track_membership e id t = Some t' →
  sound (mk_system t log) → sound (mk_system t' log).
Proof.
  unfold track_membership. destruct (tg_unchanged e); [by intros [= <-]|].
  set (m := tg_target e). destruct (authorization_revision t !! member_organization m) as [revision|] eqn:Horg; [|done].
  set (t1 := mk_outbox _ _). intros H Hs.
  pose proof (advance_sound _ _ _ _ Horg Hs) as Hs1. fold t1 in Hs1.
  destruct (Bool.eqb _ _); [by injection H as <-|].
  destruct (negb (key_free _ t1)); [by injection H as <-|].
  destruct (id_free id t1) eqn:Hid; cbn [negb] in H; [|done]. injection H as <-.
  apply insert_sound; [done|done|..|done].
  - intros op k v [= <- <- <-]. cbn. exists (revision + 1). rewrite lookup_insert_eq. split; [done|lia].
  - intros op k v r op' v' [= <- <- <-] Hin Hp.
    destruct (sound_revisions _ Hs r _ _ _ Hin Hp) as (current & Hc & Hle). cbn in Hc.
    assert (current = revision) by congruence. lia.
Qed.

Lemma accept_sound r d a t log :
  r ∈ rows t → 0 < attempt_count r → acceptance r d = Some a →
  sound (mk_system t log) → sound (mk_system t (log ++ [a])).
Proof.
  intros Hin Hatt Ha [Hids Hst Hord Hr Hlog]. split; cbn [table accepted] in *; try done.
  - intros r' Hr'. by apply status_sound_app, Hst.
  - intros a' [Ha'| ->%list_elem_of_singleton]%elem_of_app; eauto.
Qed.

Lemma step_sound s s' : step s s' → sound s → sound s'.
Proof.
  destruct 1; eauto using enqueue_mail_sound, track_membership_sound, lease_sound, accept_sound,
    complete_sound, retry_sound.
Qed.

(** *** The migration *)

Lemma legacy_sound s :
  before_0010 s →
  sound (mk_system (update_where (λ r, bool_decide (row_kind r = KRelationship)) retire_legacy_row (table s)).2 (accepted s))
  ∧ ∀ r op k v, r ∈ rows (update_where (λ r, bool_decide (row_kind r = KRelationship)) retire_legacy_row (table s)).2 →
      payload r ≠ RelationshipPayload op k v.
Proof.
  destruct s as [t log]. intros [Hids Hrows Hlog]. cbn [table accepted] in *.
  set (p := λ r, bool_decide (row_kind r = KRelationship)).
  assert (Hw : ∀ r, same_work r (if p r then retire_legacy_row r else r))
    by (intros r; destruct (p r); repeat split; cbn; lia).
  assert (Htyped : ∀ r op k v, r ∈ rows (update_where p retire_legacy_row t).2 → payload r ≠ RelationshipPayload op k v).
  { intros r' op k v (r & Hr & ->)%elem_of_update Hp. destruct (Hw r) as (_ & _ & E & _). rewrite E in Hp.
    destruct (Hrows r Hr) as [[(? & ? & Hm) _]|(? & ? & Hl)]; congruence. }
  split; [|done]. split; cbn [table accepted].
  - cbn. rewrite map_map. erewrite map_ext; [exact Hids|]. intros r. by destruct (Hw r).
  - intros r' (r & Hr & ->)%elem_of_update. unfold p, row_kind.
    destruct (Hrows r Hr) as [[(? & ? & Hm) Hst]|(? & ? & Hl)]; [by rewrite Hm|].
    rewrite Hl. cbn. split_and!; [done|done|]. left. by do 2 eexists.
  - intros e c He Hc Hec. exfalso. unfold earlier in Hec.
    destruct (payload e) as [|op k v|] eqn:E; [done| |done]. by eapply Htyped in E.
  - intros r op k v Hr Hp. by apply Htyped in Hp.
  - intros a Ha. destruct (Hlog a Ha) as (r & d & Hr & Hatt & Hacc).
    exists (if p r then retire_legacy_row r else r), d. rewrite elem_of_update, (same_work_acceptance r) by apply Hw.
    split; [eauto|]. split; [|done]. destruct (Hw r) as (_ & _ & _ & ?). lia.
Qed.
Lemma bootstrap_sound ms : ∀ t t' log,
  bootstrap_grants ms t = Some t' → NoDup (map (λ mi, joined_key mi.1) ms) →
  (∀ r op k v, r ∈ rows t → payload r = RelationshipPayload op k v → k ∉ map (λ mi, joined_key mi.1) ms) →
  sound (mk_system t log) → sound (mk_system t' log).
Proof.
  induction ms as [|[m id] ms IH]; intros t t' log; cbn; [by intros [= <-]|].
  intros (t1 & E & Hrest)%bind_Some [Hnew Hnd]%NoDup_cons Hkeys Hs.
  assert (Hskip : sound (mk_system t log) → t1 = t → sound (mk_system t' log)).
  { intros _ ->. eapply IH; [done|done| |done]. intros r op k v Hr Hp Hk. eapply Hkeys; [done|done|by right]. }
  unfold bootstrap_grant in E.
  destruct (authorization_revision t !! jm_organization m) as [revision|] eqn:Hrev; [|by injection E as <-; apply Hskip].
  destruct (bootstrapped m); [|by injection E as <-; apply Hskip]. cbv zeta in E.
  destruct (negb (key_free _ t)); [by injection E as <-; apply Hskip|].
  destruct (id_free id t) eqn:Hid; [|done]. injection E as <-. eapply IH; [done|done|..].
  - intros r op k v [Hr| ->%list_elem_of_singleton]%elem_of_app Hp.
    + intros Hk. eapply Hkeys; [done|done|by right].
    + cbn in Hp. by injection Hp as _ <- _.
  - apply insert_sound; [done|done|..|done].
    + intros op k v [= _ <- <-]. exists revision. cbn. split; [done|lia].
    + intros op k v r op' v' [= _ <- <-] Hr Hp. exfalso. eapply Hkeys; [done|done|by left].
Qed.
Lemma migrated_sound s : migrated s → sound s.
Proof.
  intros (t0 & ms & Hb & Hnd & Hm). destruct (legacy_sound _ Hb) as [Hs Hnone]. destruct s as [t log].
  eapply bootstrap_sound; [exact Hm|done| |exact Hs]. intros r op k v Hr Hp. by apply Hnone in Hp.
Qed.

Lemma steps_sound s s' : rtc step s s' → sound s → sound s'.
Proof. induction 1; eauto using step_sound. Qed.

(** *** The order of the acceptances *)

(** Whatever the provider accepted is the work of an attempted row, and the
    work of every earlier row of its relationship was accepted before. *)
Definition accepted_in_order (s : System) : Prop :=
  ∀ i a, accepted s !! i = Some a → ∃ c d, c ∈ rows (table s) ∧ 0 < attempt_count c ∧ acceptance c d = Some a
    ∧ ∀ e, e ∈ rows (table s) → earlier e c = true →
        ∃ j d' b, (j < i)%nat ∧ acceptance e d' = Some b ∧ accepted s !! j = Some b.

Lemma kept_in_order s s' :
  accepted s' = accepted s →
  (∀ r, r ∈ rows (table s) → ∃ r', r' ∈ rows (table s') ∧ same_work r r') →
  (∀ c e', c ∈ rows (table s) → 0 < attempt_count c → e' ∈ rows (table s') → earlier e' c = true →
     ∃ e, e ∈ rows (table s) ∧ same_work e e') →
  accepted_in_order s → accepted_in_order s'.
Proof.
  intros Hlog Hfw Hbw Ho i a. rewrite Hlog. intros Ha. destruct (Ho i a Ha) as (c & d & Hc & Hatt & Hacc & He).
  destruct (Hfw c Hc) as (c' & Hc' & Hw). exists c', d. split_and!; [done|by destruct Hw as (_ & _ & _ & ?); lia|by rewrite (same_work_acceptance c)|].
  intros e' He' Hec'. assert (earlier e' c = true) as Hec.
  { rewrite (same_work_earlier e' e' c c') in Hec'; auto with wauth. }
  destruct (Hbw c e' Hc Hatt He' Hec) as (e & Hin & Hwe).
  rewrite (same_work_earlier e e' c c) in Hec by auto with wauth.
  destruct (He e Hin Hec) as (j & d' & b & Hj & Hb & Hl). exists j, d', b. by rewrite (same_work_acceptance e).
Qed.
Lemma inserted_in_order id key p at_ms t log :
  (∀ op k v r op' v', p = RelationshipPayload op k v → r ∈ rows t →
    payload r = RelationshipPayload op' k v' → v' < v) →
  accepted_in_order (mk_system t log) →
  accepted_in_order (mk_system (insert_row (new_row id key p at_ms) t) log).
Proof.
  intros Hlate. apply kept_in_order; [done|..]; cbn.
  - intros r Hr. exists r. rewrite elem_of_app. auto with wauth.
  - intros c e' Hc _ [He| ->%list_elem_of_singleton]%elem_of_app Hec; [eauto with wauth|].
    exfalso. unfold earlier in Hec. cbn in Hec. destruct p as [|op k v|]; [done| |done].
    destruct (payload c) as [|op' k' v'|] eqn:Ec; [done| |done].
    rewrite andb_true_iff, bool_decide_eq_true, orb_true_iff, andb_true_iff, Z.ltb_lt, Z.eqb_eq in Hec.
    destruct Hec as [-> Hv]. specialize (Hlate op k' v c op' v' eq_refl Hc Ec). lia.
Qed.
Lemma updated_in_order p f t log :
  (∀ r, same_work r (f r)) → accepted_in_order (mk_system t log) →
  accepted_in_order (mk_system (update_where p f t).2 log).
Proof.
  intros Hf. assert (Hw : ∀ r, same_work r (if p r then f r else r)) by (intros r; destruct (p r); auto with wauth).
  apply kept_in_order; [done|..]; cbn [table].
  - intros r Hr. eexists. split; [apply elem_of_update; by exists r|apply Hw].
  - intros c e' _ _ (e & He & ->)%elem_of_update _. exists e. split; [done|apply Hw].
Qed.
Lemma step_in_order s s' : step s s' → sound s → accepted_in_order s → accepted_in_order s'.
Proof.
  destruct 1 as [id key kv c at_ms t t' log E|e id t t' log E| |r d a t log Hr Hatt Ha| |]; intros Hs;
    try (apply updated_in_order; auto with wauth).
  - unfold enqueue_mail in E. destruct (id_free id t && key_free key t); [|done]. injection E as <-. by apply inserted_in_order.
  - unfold track_membership in E. destruct (tg_unchanged e); [by injection E as <-|].
    set (m := tg_target e) in E. destruct (authorization_revision t !! member_organization m) as [revision|] eqn:Horg; [|done].
    destruct (Bool.eqb _ _); [by injection E as <-|]. destruct (negb (key_free _ _)); [by injection E as <-|].
    destruct (negb (id_free _ _)); [done|]. injection E as <-.
    intros Ho. apply inserted_in_order; [|exact Ho].
    intros op k v r op' v' [= <- <- <-] Hin Hp. cbn in Hin.
    destruct (sound_revisions _ Hs r _ _ _ Hin Hp) as (current & Hc & Hle). cbn in Hc.
    assert (current = revision) by congruence. lia.
  - intros Ho i b. cbn [accepted table]. intros [Hi|[Hi Hb]]%lookup_app_Some.
    + destruct (Ho i b Hi) as (c & d' & Hc & Hac & Hacc & He). exists c, d'. split_and!; [done..|].
      intros e' He' Hec. destruct (He e' He' Hec) as (j & d'' & b' & ? & ? & Hj). exists j, d'', b'.
      split_and!; [done..|]. by apply lookup_app_l_Some.
    + apply list_lookup_singleton_Some in Hb as [Hz <-]. exists r, d. split_and!; [done..|].
      intros e' He' Hec. pose proof (sound_order _ Hs e' r He' Hr Hec Hatt) as Hd.
      pose proof (sound_status _ Hs e' He') as Hst. unfold status_sound in Hst. rewrite Hd in Hst.
      destruct Hst as (_ & _ & _ & _ & d' & _ & b & Hb & (j & Hj)%list_elem_of_lookup_1). cbn in Hj.
      exists j, d', b. apply lookup_lt_Some in Hj as Hlt. split_and!; [lia|done|]. by apply lookup_app_l_Some.
Qed.
Lemma migrated_in_order s : migrated s → accepted_in_order s.
Proof.
  intros (t0 & ms & Hb & Hnd & Hm). assert (sound s) as Hs by (apply migrated_sound; by exists t0, ms).
  intros i a Ha. destruct (before_log _ Hb a) as (r & d & Hr & Hatt & Hacc); [by eapply list_elem_of_lookup_2|].
  destruct (before_rows _ Hb r Hr) as [[(v & c & E) _]|(v & c & E)]; [|unfold acceptance in Hacc; by rewrite E in Hacc].
  cbn in Hr. assert (Hin : r ∈ rows (update_where (λ r, bool_decide (row_kind r = KRelationship)) retire_legacy_row t0).2).
  { apply elem_of_update. exists r. split; [done|]. unfold row_kind. by rewrite E. }
  exists r, d. split_and!; [|done..|].
  - unfold migrate_0010 in Hm. revert Hin Hm. generalize (update_where (λ r, bool_decide (row_kind r = KRelationship)) retire_legacy_row t0).2.
    clear. induction ms as [|[m id] ms IH]; intros t Hin; cbn; [by intros [= <-]|].
    intros (t1 & E & Hm)%bind_Some. apply (IH t1); [|done]. unfold bootstrap_grant in E. clear -E Hin.
    repeat case_match; simplify_eq; try done. cbn. apply elem_of_app. by left.
  - intros e _ Hec. unfold earlier in Hec. rewrite E in Hec. by destruct (payload e).
Qed.
Lemma reachable_in_order s : reachable s → accepted_in_order s.
Proof.
  intros (s0 & H0 & Hs). pose proof (migrated_sound _ H0) as Hsound. apply migrated_in_order in H0.
  induction Hs as [|s1 s2 s3 H12 _ IH]; [done|]. apply IH; eauto using step_sound, step_in_order.
Qed.

Lemma reachable_sound s : reachable s → sound s.
Proof. intros (s0 & H0 & Hs). eapply steps_sound, migrated_sound; eauto. Qed.
#[export] Hint Resolve reachable_sound : wauth.

(** ** What the table never forgets *)

Definition terminal (r : OutboxRow) : Prop := row_status r = Delivered ∨ row_status r = DeadLetter.

Lemma update_keeps_terminal p f t r :
  (∀ r, r ∈ rows t → p r = true → ¬ terminal r) →
  r ∈ rows t → terminal r → r ∈ rows (update_where p f t).2.
Proof.
  intros Hp Hr Ht. apply elem_of_update. exists r. split; [done|].
  destruct (p r) eqn:E; [|done]. by destruct (Hp r Hr E).
Qed.
Lemma update_keeps_work p f t r :
  (∀ r, same_work r (f r)) → r ∈ rows t →
  ∃ r', r' ∈ rows (update_where p f t).2 ∧ same_work r r'.
Proof.
  intros Hf Hr. exists (if p r then f r else r). rewrite elem_of_update.
  split; [eauto|]. destruct (p r); auto with wauth.
Qed.
Lemma owned_not_terminal id lease r : owned id lease r = true → ¬ terminal r.
Proof. intros (_ & _ & E)%owned_iff [H|H]; congruence. Qed.

Lemma track_membership_rows e id t t' r :
  track_membership e id t = Some t' → r ∈ rows t → r ∈ rows t'.
Proof.
  unfold track_membership. intros H Hr.
  destruct (tg_unchanged e); [by injection H as <-|].
  destruct (_ !! _); [|done]. destruct (Bool.eqb _ _); [by injection H as <-|].
  destruct (negb (key_free _ _)); [by injection H as <-|].
  destruct (negb (id_free _ _)); [done|]. injection H as <-. cbn. apply elem_of_app. auto.
Qed.
Lemma enqueue_mail_rows id key kv c at_ms t t' r :
  enqueue_mail id key kv c at_ms t = Some t' → r ∈ rows t → r ∈ rows t'.
Proof.
  unfold enqueue_mail. intros H Hr. destruct (id_free id t && key_free key t); [|done].
  injection H as <-. cbn. apply elem_of_app. auto.
Qed.

Lemma step_keeps_terminal s s' r :
  sound s → step s s' → r ∈ rows (table s) → terminal r → r ∈ rows (table s').
Proof.
  intros Hs Hstep Hr Ht. destruct Hstep; cbn [table] in *;
    eauto using track_membership_rows, enqueue_mail_rows.
  - apply update_keeps_terminal; [|done..]. intros r' Hr' Hb.
    apply leased_candidate, elem_of_candidates in Hb as (_ & Hl%leasable_iff & _); [|apply (sound_ids _ Hs)|done].
    destruct Hl as (_ & _ & [E|[E _]] & _); intros [?|?]; congruence.
  - apply update_keeps_terminal; [|done..]. intros r' _. apply owned_not_terminal.
  - apply update_keeps_terminal; [|done..]. intros r' _. apply owned_not_terminal.
Qed.

Lemma step_keeps_work s s' r :
  step s s' → r ∈ rows (table s) → ∃ r', r' ∈ rows (table s') ∧ same_work r r'.
Proof.
  destruct 1; cbn [table]; intros Hr;
    eauto using track_membership_rows, enqueue_mail_rows, same_work_refl;
    apply update_keeps_work; auto with wauth.
Qed.
Lemma steps_keep_work s s' r :
  rtc step s s' → r ∈ rows (table s) → ∃ r', r' ∈ rows (table s') ∧ same_work r r'.
Proof.
  intros H. revert r. induction H as [|s1 s2 s3 H12 _ IH]; intros r Hr; [eauto with wauth|].
  destruct (step_keeps_work _ _ _ H12 Hr) as (r2 & Hr2 & ?).
  destruct (IH r2 Hr2) as (r3 & ? & ?). eauto using same_work_trans.
Qed.
Lemma steps_keep_terminal s s' r :
  rtc step s s' → sound s → r ∈ rows (table s) → terminal r → r ∈ rows (table s').
Proof.
  induction 1 as [|s1 s2 s3 H12 _ IH]; [done|]. intros Hs Hr Ht.
  apply IH; [by eapply step_sound|by eapply step_keeps_terminal|done].
Qed.
Lemma step_log s s' a : step s s' → a ∈ accepted s → a ∈ accepted s'.
Proof. destruct 1; cbn; auto. rewrite elem_of_app. auto. Qed.
Lemma steps_log s s' a : rtc step s s' → a ∈ accepted s → a ∈ accepted s'.
Proof. induction 1; eauto using step_log. Qed.

(** ** Theorems on the queue *)

(** The row [e] records a change of the same relationship as [c] that comes
    before it: of a lower revision, or of the same and a lower identifier. *)
Definition predecessor (e c : OutboxRow) : Prop :=
  ∃ op k v op' v', payload e = RelationshipPayload op k v ∧ payload c = RelationshipPayload op' k v'
    ∧ (v < v' ∨ v = v' ∧ str_lt (outbox_id e) (outbox_id c)).
Lemma earlier_iff e c : earlier e c = true ↔ predecessor e c.
Proof.
  unfold earlier, predecessor. destruct (payload e) as [|op k v|]; [naive_solver| |naive_solver].
  destruct (payload c) as [|op' k' v'|]; [naive_solver| |naive_solver].
  rewrite andb_true_iff, bool_decide_eq_true, orb_true_iff, andb_true_iff, Z.ltb_lt, Z.eqb_eq. unfold str_lt.
  split; [intros [-> ?]; eauto 10|]. intros (? & ? & ? & ? & ? & [= <- <- <-] & [= <- <- <-] & ?). done.
Qed.

(** C25: No relationship change overtakes an earlier one.  In every state that
    any interleaving of workers, membership changes and providers can produce
    after the migration, bootstrap grants and old rows included, a row that
    was ever leased has every earlier row of the same relationship (lower
    revision, or the same revision and a lower identifier) already delivered,
    under a token the provider returned for it; and in the provider's own log
    whatever it accepted is the work of such a leased row, and comes after an
    acceptance of every earlier row of its relationship.  (The first
    acceptances are in order; a write that outlives its lease may be accepted
    again later, as [late_write_restores_a_revoked_grant] shows.) *)
Theorem relationships_delivered_in_order s :
  reachable s →
  (∀ e c, e ∈ rows (table s) → c ∈ rows (table s) → predecessor e c → 0 < attempt_count c →
     row_status e = Delivered
     ∧ ∃ token op k v, delivery_id e = Some token ∧ payload e = RelationshipPayload op k v
         ∧ AcceptedRelationship (intent_of op k v) token ∈ accepted s)
  ∧ ∀ i a, accepted s !! i = Some a →
      ∃ c d, c ∈ rows (table s) ∧ 0 < attempt_count c ∧ acceptance c d = Some a
        ∧ ∀ e, e ∈ rows (table s) → predecessor e c →
            ∃ j d' b, (j < i)%nat ∧ acceptance e d' = Some b ∧ accepted s !! j = Some b.
Proof.
  intros Hr. split.
  - apply reachable_sound in Hr as Hs. intros e c He Hc Hec Hatt. apply earlier_iff in Hec as Hb.
    pose proof (sound_order _ Hs e c He Hc Hb Hatt) as Hd. split; [done|].
    pose proof (sound_status _ Hs e He) as H. unfold status_sound in H. rewrite Hd in H.
    destruct H as (_ & _ & _ & _ & token & Ht & a & Ha & Hin). destruct Hec as (op & k & v & _ & _ & Hp & _).
    exists token, op, k, v. unfold acceptance in Ha. rewrite Hp in Ha. by injection Ha as <-.
  - intros i a Ha. destruct (reachable_in_order s Hr i a Ha) as (c & d & Hc & Hatt & Hacc & He).
    exists c, d. split_and!; [done..|]. intros e Hin Hec%earlier_iff. by apply He.
Qed.

(** Delivery is at least once and failure is bounded.  In every reachable
    state a row marked delivered was accepted by its provider under the
    recorded identifier; a row waiting for another attempt has had fewer than
    eight; a dead letter of the current format has had at least eight; a row
    holds a lease exactly while its status is leased; and the providers were
    only given work that was recorded and leased. *)
Theorem outbox_statuses_earned s :
  reachable s →
  (∀ r, r ∈ rows (table s) →
    (row_status r = Delivered → ∃ d, delivery_id r = Some d ∧ evidence (accepted s) r d)
    ∧ (row_status r = Pending → 0 ≤ attempt_count r < 8)
    ∧ (row_status r = DeadLetter → is_legacy r ∨ 8 ≤ attempt_count r)
    ∧ (row_status r = Leased ↔ is_Some (row_lease_id r)))
  ∧ ∀ a, a ∈ accepted s → ∃ r d, r ∈ rows (table s) ∧ 0 < attempt_count r ∧ acceptance r d = Some a.
Proof.
  intros Hs%reachable_sound. split; [|apply (sound_log _ Hs)].
  intros r Hr. pose proof (sound_status _ Hs r Hr) as H. unfold status_sound, MAX_ATTEMPTS in H.
  destruct (row_status r).
  - destruct H as (? & -> & _). repeat split; try done; try lia. all: by intros [].
  - destruct H as (_ & ? & _). by repeat split.
  - destruct H as (_ & -> & _ & _ & ?). repeat split; try done.
  - destruct H as (-> & _ & ?). repeat split; try done. all: by intros [].
Qed.

(** Delivered rows and dead letters are final.  No sequence of steps from a
    reachable state changes or removes such a row in any column, and no
    recorded work of any status disappears or changes its identifier,
    deduplication key or payload. *)
Theorem outbox_terminal_rows_final s s' r :
  reachable s → rtc step s s' → r ∈ rows (table s) →
  (terminal r → r ∈ rows (table s'))
  ∧ ∃ r', r' ∈ rows (table s') ∧ same_work r r'.
Proof.
  intros Hs%reachable_sound Hss Hr. split; [|by eapply steps_keep_work].
  by eapply steps_keep_terminal.
Qed.

(** A lease takes exactly the candidates, each once. *)
Lemma candidates_NoDup locked kind now limit all :
  NoDup (map outbox_id all) → NoDup (candidates locked kind now limit all).
Proof.
  intros Hnd. eapply sublist_NoDup; [|apply sublist_take]. rewrite merge_sort_Permutation.
  apply NoDup_ListNoDup, List.NoDup_filter, NoDup_ListNoDup. by eapply NoDup_fmap_1.
Qed.
Lemma lease_returns locked kind now limit lease until t :
  NoDup (map outbox_id (rows t)) →
  (lease_outbox locked kind now limit lease until t).1 ≡ₚ
  map (lease_row now lease until) (candidates locked kind now limit (rows t)).
Proof.
  intros Hnd. cbn. apply fmap_Permutation. apply NoDup_Permutation.
  - apply NoDup_ListNoDup, List.NoDup_filter, NoDup_ListNoDup. by eapply NoDup_fmap_1.
  - by apply candidates_NoDup.
  - intros c. rewrite elem_of_filterb. split; [intros []; eauto using leased_candidate|].
    intros Hc. destruct (elem_of_candidates _ _ _ _ _ _ Hc) as (Hin & _). split; [done|].
    apply bool_decide_eq_true, list_elem_of_fmap. eauto.
Qed.

#[export] Instance lease_order_total : Total lease_order.
Proof.
  intros a b. unfold lease_order.
  destruct (Z.lt_trichotomy (available_at_ms a) (available_at_ms b)) as [?|[->|?]]; [auto| |auto].
  destruct (Z.lt_trichotomy (created_at_ms a) (created_at_ms b)) as [?|[->|?]]; [auto| |auto].
  destruct (total str_le (outbox_id a) (outbox_id b)); auto 6.
Qed.
#[export] Instance lease_order_trans : Transitive lease_order.
Proof.
  intros a b c. unfold lease_order. intros [?|[? [?|[? ?]]]] [?|[? [?|[? ?]]]]; try (left; lia); try (right; split; [lia|]; left; lia).
  right. split; [lia|]. right. split; [lia|]. by eapply (transitivity (R := str_le)).
Qed.

(** Eligible for a lease: the condition of the statement and not locked. *)
Definition eligible (locked : list Uuid) (kind : OutboxKind) (now : Z) (t : Outbox) (r : OutboxRow) : Prop :=
  r ∈ rows t ∧ leasable (rows t) kind now r = true ∧ (outbox_id r ∉ locked).

Lemma sorted_take_drop {A} (R : relation A) `{!Transitive R} n (l : list A) x y :
  StronglySorted R l → x ∈ take n l → y ∈ drop n l → R x y.
Proof.
  revert n. induction l as [|z l IH]; intros [|n]; cbn; intros H Hx Hy;
    try (by apply not_elem_of_nil in Hx).
  inversion_clear H as [|? ? Hs HF]. rewrite Forall_forall in HF.
  apply elem_of_cons in Hx as [->|Hx]; [|by eapply IH].
  apply HF. apply list_elem_of_lookup_1 in Hy as (i & Hi). rewrite lookup_drop in Hi.
  by eapply list_elem_of_lookup_2.
Qed.

(** An eligible row is a candidate, or the candidates are full and all
    precede it. *)
Lemma eligible_split locked kind now limit t r :
  eligible locked kind now t r →
  r ∈ candidates locked kind now limit (rows t)
  ∨ ((NoDup (map outbox_id (rows t)) → (r ∉ candidates locked kind now limit (rows t)))
     ∧ length (candidates locked kind now limit (rows t)) = limit
     ∧ ∀ c, c ∈ candidates locked kind now limit (rows t) → lease_order c r).
Proof.
  intros (Hin & Hl & Hlock). unfold candidates. set (l := List.filter _ (rows t)).
  set (m := merge_sort lease_order l).
  assert (Hr : r ∈ m).
  { subst m. rewrite merge_sort_Permutation. apply elem_of_filterb. split; [done|].
    by rewrite Hl, (bool_decide_eq_false_2 _ Hlock). }
  assert (Hnd : NoDup (map outbox_id (rows t)) → NoDup m).
  { intros H. subst m l. rewrite merge_sort_Permutation.
    apply NoDup_ListNoDup, List.NoDup_filter, NoDup_ListNoDup. by eapply NoDup_fmap_1. }
  rewrite <- (take_drop limit m), elem_of_app in Hr. destruct Hr as [Hr|Hr]; [by left|right].
  split; [|split].
  - intros H%Hnd Ht. rewrite <- (take_drop limit m) in H. apply NoDup_app in H as (_ & H & _). by apply (H r).
  - rewrite length_take. apply list_elem_of_lookup_1 in Hr as (i & Hi). rewrite lookup_drop in Hi.
    apply lookup_lt_Some in Hi. lia.
  - intros c Hc. eapply (sorted_take_drop lease_order); [apply (StronglySorted_merge_sort lease_order)|exact Hc|exact Hr].
Qed.

(** A lease takes the right rows.  The rows it returns are rows of the
    table that are due, unlocked, pending or abandoned by an expired lease,
    and whose relationship has no unsettled predecessor; there are at most
    [limit] of them; and an eligible row is left behind only when [limit] rows
    that precede it in the order of the statement were taken. *)
Theorem lease_outbox_exact locked kind now limit lease until t :
  NoDup (map outbox_id (rows t)) →
  let (taken, t') := lease_outbox locked kind now limit lease until t in
  (length taken ≤ limit)%nat
  ∧ (∀ r', r' ∈ taken → ∃ r, eligible locked kind now t r ∧ r' = lease_row now lease until r)
  ∧ (∀ r, eligible locked kind now t r →
      lease_row now lease until r ∈ taken
      ∨ (r ∈ rows t' ∧ length taken = limit
         ∧ ∀ c, lease_row now lease until c ∈ taken → eligible locked kind now t c → lease_order c r)).
Proof.
  intros Hnd. pose proof (lease_returns locked kind now limit lease until t Hnd) as Hp.
  destruct (lease_outbox locked kind now limit lease until t) as [taken t'] eqn:El.
  cbn [fst] in Hp. split; [|split].
  - rewrite Hp, length_map. apply firstn_le_length.
  - intros r'. rewrite Hp. intros (c & -> & Hc)%list_elem_of_fmap.
    exists c. split; [by apply elem_of_candidates in Hc|done].
  - intros r Hr. destruct (eligible_split locked kind now limit t r Hr) as [Hc|(Hc & Hlen & Hle)].
    + left. rewrite Hp. by apply list_elem_of_fmap_2.
    + right. split; [|split].
      * replace t' with (lease_outbox locked kind now limit lease until t).2 by (by rewrite El).
        apply elem_of_update. exists r. split; [apply Hr|].
        destruct (bool_decide _) eqn:Hb; [|done].
        destruct (Hc Hnd). apply leased_candidate; [done|apply Hr|done].
      * by rewrite Hp, length_map.
      * intros c. rewrite Hp. intros (c' & E & Hc')%list_elem_of_fmap Hel. apply Hle.
        rewrite (id_inj (rows t) c c' Hnd); [done|apply Hel|by eapply elem_of_candidates|].
        injection E. congruence.
Qed.

(** A batch never carries two changes of one relationship, so the order of
    the updates within one provider call cannot matter: two rows returned by
    one lease that name the same relationship are the same row. *)
Theorem lease_batch_conflict_free locked kind now limit lease until t r1 r2 op1 op2 k v1 v2 :
  NoDup (map outbox_id (rows t)) →
  r1 ∈ (lease_outbox locked kind now limit lease until t).1 →
  r2 ∈ (lease_outbox locked kind now limit lease until t).1 →
  payload r1 = RelationshipPayload op1 k v1 → payload r2 = RelationshipPayload op2 k v2 → r1 = r2.
Proof.
  intros Hnd. rewrite !(lease_returns locked kind now limit lease until t Hnd).
  intros (c1 & -> & H1)%list_elem_of_fmap (c2 & -> & H2)%list_elem_of_fmap. cbn. intros E1 E2.
  apply elem_of_candidates in H1 as (Hin1 & Hl1%leasable_iff & _), H2 as (Hin2 & Hl2%leasable_iff & _).
  destruct Hl1 as (_ & _ & Hst1 & He1), Hl2 as (_ & _ & Hst2 & He2).
  assert (H21 : earlier c2 c1 = false).
  { apply not_true_iff_false. intros H%He1; [|done]. destruct Hst2 as [?|[? _]]; congruence. }
  assert (H12 : earlier c1 c2 = false).
  { apply not_true_iff_false. intros H%He2; [|done]. destruct Hst1 as [?|[? _]]; congruence. }
  unfold earlier in H12, H21. rewrite E1, E2 in H12, H21.
  rewrite bool_decide_eq_true_2 in H12, H21 by done. cbn [andb] in H12, H21.
  apply orb_false_iff in H12 as [Hv12 Hi12], H21 as [Hv21 Hi21].
  rewrite Z.ltb_ge in Hv12, Hv21. assert (v1 = v2) as -> by lia.
  rewrite Z.eqb_refl in Hi12, Hi21. cbn in Hi12, Hi21.
  rewrite (id_inj _ c1 c2 Hnd Hin1 Hin2); [done|].
  destruct (str_lt_total (outbox_id c1) (outbox_id c2)) as [H|[H|H]]; unfold str_lt in *; congruence.
Qed.

(** *** Consistency *)

Lemma max_revision_Some rs :
  match max_revision rs with
  | Some v => (∃ r, r ∈ rs ∧ revision_of r = v) ∧ ∀ r, r ∈ rs → revision_of r ≤ v
  | None => rs = []
  end.
Proof.
  induction rs as [|r rs IH]; [done|]. unfold max_revision in *. cbn [foldr].
  destruct (foldr _ None rs) as [v|].
  - destruct IH as ((r0 & Hr0 & E) & Hle). split.
    + destruct (Z.max_spec (revision_of r) v) as [[? ->]|[? ->]].
      * exists r0. split; [by right|done].
      * exists r. split; [by left|done].
    + intros r' [->|Hr'%Hle]%elem_of_cons; lia.
  - subst. split; [exists r; split; [by left|done]|].
    intros r' [->|[]%not_elem_of_nil]%elem_of_cons. lia.
Qed.

Lemma desc_option_total a b : desc_option a b ∨ a = b ∨ desc_option b a.
Proof.
  destruct a as [a|], b as [b|]; cbn; auto.
  destruct (Z.lt_trichotomy a b) as [?|[->|?]]; auto.
Qed.
Lemma desc_option_trans a b c : desc_option a b → desc_option b c → desc_option a c.
Proof. destruct a, b, c; cbn; lia || done. Qed.
#[export] Instance token_order_total : Total token_order.
Proof.
  intros a b. unfold token_order.
  destruct (Z.lt_trichotomy (revision_of a) (revision_of b)) as [?|[->|?]]; [auto| |auto].
  destruct (desc_option_total (delivered_at_ms a) (delivered_at_ms b)) as [?|[->|?]]; [auto| |auto].
  destruct (total str_le (outbox_id a) (outbox_id b)); auto 6.
Qed.
#[export] Instance token_order_trans : Transitive token_order.
Proof.
  intros a b c. unfold token_order.
  intros [?|[? [?|[Eab ?]]]] [?|[? [?|[Ebc ?]]]]; try (left; lia); right; (split; [lia|]).
  - left. by eapply desc_option_trans.
  - left. by rewrite <- Ebc.
  - left. by rewrite Eab.
  - right. split; [congruence|]. by eapply (transitivity (R := str_le)).
Qed.

Lemma sorted_head {A} (R : relation A) `{!RelDecision R, !Total R, !Transitive R} (l : list A) x :
  head (merge_sort R l) = Some x → x ∈ l ∧ ∀ y, y ∈ l → y = x ∨ R x y.
Proof.
  intros H. pose proof (StronglySorted_merge_sort R l) as Hs.
  pose proof (merge_sort_Permutation R l) as Hp. destruct (merge_sort R l) as [|z m]; [done|].
  injection H as ->. inversion_clear Hs as [|? ? _ HF]. rewrite Forall_forall in HF.
  split; [rewrite <- Hp; by left|]. intros y. rewrite <- Hp. intros [->|Hy]%elem_of_cons; auto.
Qed.

(** What an answer of the statement says.  A settled resource has every one of
    its relationship changes delivered and accepted; when it has any, the
    revision is its largest and the token is the one the provider returned for
    a change of that revision.  An unsettled one has an undelivered change. *)
Definition consistency_answer (resource_type resource_id : str) (s : System)
    (answer : bool * option str * option Z) : Prop :=
  let '(has_unsettled, token, revision) := answer in
  if has_unsettled
  then ∃ r, r ∈ rows (table s) ∧ scoped resource_type resource_id r = true ∧ row_status r ≠ Delivered
  else (∀ r, r ∈ rows (table s) → scoped resource_type resource_id r = true →
         row_status r = Delivered ∧ ∃ d, delivery_id r = Some d ∧ evidence (accepted s) r d)
       ∧ match revision with
         | None => token = None ∧ ∀ r, r ∈ rows (table s) → scoped resource_type resource_id r = false
         | Some v =>
             (∀ r, r ∈ rows (table s) → scoped resource_type resource_id r = true → revision_of r ≤ v)
             ∧ ∃ r d, r ∈ rows (table s) ∧ scoped resource_type resource_id r = true
                 ∧ revision_of r = v ∧ token = Some d ∧ delivery_id r = Some d
                 ∧ evidence (accepted s) r d
         end.

Lemma select_consistency_exact s resource_type resource_id :
  sound s → consistency_answer resource_type resource_id s
              (select_consistency resource_type resource_id (table s)).
Proof.
  intros Hs. unfold select_consistency, consistency_answer.
  set (rs := List.filter (scoped resource_type resource_id) (rows (table s))).
  assert (Hrs : ∀ r, r ∈ rs ↔ r ∈ rows (table s) ∧ scoped resource_type resource_id r = true)
    by (intros r; apply elem_of_filterb).
  destruct (existsb (λ r, negb (settled r)) rs) eqn:Hu.
  - apply existsb_spec in Hu as (r & [Hr Hsc]%Hrs & Hn). exists r. split; [done|]. split; [done|].
    apply negb_true_iff, bool_decide_eq_false in Hn. done.
  - rewrite existsb_false_spec in Hu.
    assert (Hd : ∀ r, r ∈ rs → row_status r = Delivered
      ∧ ∃ d, delivery_id r = Some d ∧ evidence (accepted s) r d).
    { intros r Hr. pose proof (Hu r Hr) as Hset.
      apply negb_false_iff, bool_decide_eq_true in Hset. apply Hrs in Hr as [Hin _].
      pose proof (sound_status _ Hs r Hin) as H. unfold status_sound in H. rewrite Hset in H. tauto. }
    split; [intros r Hr Hsc; by apply Hd, Hrs|].
    assert (Ht : List.filter has_token rs = rs).
    { apply forallb_filter_id, forallb_spec. intros r Hr. destruct (Hd r Hr) as (E & d & Ed & _).
      unfold has_token, settled. by rewrite E, Ed. }
    rewrite Ht. pose proof (max_revision_Some rs) as Hm. destruct (max_revision rs) as [v|].
    + destruct Hm as ((r0 & Hr0 & Ev) & Hle). split; [intros r ? ?; by apply Hle, Hrs|].
      destruct (head (merge_sort token_order rs)) as [r|] eqn:Hh.
      * apply sorted_head in Hh as [Hr Hall]; [|apply _..]. destruct (Hd r Hr) as (_ & d & Ed & Hev).
        exists r, d. cbn. rewrite Ed. pose proof (Hle r Hr).
        assert (v ≤ revision_of r).
        { subst v. destruct (Hall r0 Hr0) as [->|[?|[? _]]]; lia. }
        apply Hrs in Hr as [? ?]. repeat split; auto; lia.
      * exfalso. pose proof (merge_sort_Permutation token_order rs) as Hp.
        destruct (merge_sort token_order rs); [|done]. apply Permutation_nil in Hp.
        rewrite Hp in Hr0. by apply not_elem_of_nil in Hr0.
    + rewrite Hm. split; [done|]. intros r Hr. apply not_true_iff_false. intros Hsc.
      assert (Hin : r ∈ rs) by (by apply Hrs). rewrite Hm in Hin. by apply not_elem_of_nil in Hin.
Qed.

(** ** Example runs *)

Module OutboxExample.
#[local] Instance RelationshipOutboxIntent_eq_dec : EqDecision RelationshipOutboxIntent.
Proof. solve_decision. Defined.
#[local] Instance Acceptance_eq_dec : EqDecision Acceptance.
Proof. solve_decision. Defined.

(** One event of a run; the n-th row is the one accepted. *)
Inductive Event :=
| EMembership (e : TriggerEvent) (id : Uuid)
| ELease (now : Z) (limit : nat) (lease : Uuid)
| EAccept (n : nat) (d : str)
| EComplete (id lease : Uuid) (now : Z) (d : str)
| ERetry (id lease : Uuid) (now available : Z).

Definition guard (id lease : Uuid) (d : str) (s : System) : bool :=
  forallb (λ r, negb (owned id lease r)
    || match acceptance r d with Some a => bool_decide (a ∈ accepted s) | None => false end)
    (rows (table s)).
Definition play (s : System) (e : Event) : option System :=
  match e with
  | EMembership e id => (λ t, mk_system t (accepted s)) <$> track_membership e id (table s)
  | ELease now limit lease =>
      Some (mk_system (lease_outbox [] KRelationship now limit lease (now + 30000) (table s)).2 (accepted s))
  | EAccept n d =>
      r ← rows (table s) !! n;
      a ← acceptance r d;
      if 0 <? attempt_count r then Some (mk_system (table s) (accepted s ++ [a])) else None
  | EComplete id lease now d =>
      if guard id lease d s
      then Some (mk_system (complete_outbox id lease now d (table s)).2 (accepted s)) else None
  | ERetry id lease now available =>
      Some (mk_system (retry_outbox id lease now available (lit "provider_failure") MAX_ATTEMPTS (table s)).2
              (accepted s))
  end.
Fixpoint run (s : System) (es : list Event) : option System :=
  match es with [] => Some s | e :: es => s' ← play s e; run s' es end.

Lemma play_step s e s' : play s e = Some s' → step s s'.
Proof.
  destruct s as [t log], e; cbn.
  - destruct (track_membership e id t) eqn:E; [|done]. intros [= <-]. by eapply step_membership.
  - intros [= <-]. apply step_lease.
  - destruct (rows t !! n) as [r|] eqn:Er; [|done]. cbn. destruct (acceptance r d) as [a|] eqn:Ea; [|done].
    cbn. destruct (Z.ltb_spec 0 (attempt_count r)); [|done]. intros [= <-].
    eapply step_accept; [by eapply list_elem_of_lookup_2|done|done].
  - destruct (guard id lease d (mk_system t log)) eqn:Hg; [|done]. intros [= <-]. apply step_complete.
    unfold guard in Hg. rewrite forallb_spec in Hg. intros r Hr Ho. specialize (Hg r Hr). cbn in Hg.
    rewrite Ho in Hg. cbn in Hg. destruct (acceptance r d) as [a|] eqn:Ea; [|done].
    exists a. split; [done|]. by apply bool_decide_eq_true in Hg.
  - intros [= <-]. apply step_retry.
Qed.
Lemma run_steps s es s' : run s es = Some s' → rtc step s s'.
Proof.
  revert s. induction es as [|e es IH]; cbn; intros s H; [injection H as ->; constructor|].
  destruct (play s e) as [s1|] eqn:E; [|done]. cbn in H. eapply rtc_l; eauto using play_step.
Qed.

Definition start : System := mk_system (mk_outbox {[ lit "org" := 4 ]} []) [].
Lemma start_migrated : migrated start.
Proof.
  exists (table start), []. split; [|split; [constructor|done]]. split; cbn; [constructor|..]; by intros ? []%not_elem_of_nil.
Qed.
Lemma run_reachable es s : run start es = Some s → reachable s.
Proof. intros H. exists start. split; [apply start_migrated|by eapply run_steps]. Qed.

Definition alice (active : bool) (at_ms : Z) : Membership :=
  mk_membership (lit "org") (lit "alice") (lit "member") (lit (if active then "active" else "suspended")) at_ms.
Definition bob (at_ms : Z) : Membership :=
  mk_membership (lit "org") (lit "bob") (lit "member") (lit "active") at_ms.

(** Alice is suspended at revision 5 and Bob joins at revision 6.  The first
    attempt to tell the provider about Alice fails, Bob is delivered, and
    Alice's revocation is delivered by the second attempt. *)
Definition overtaken : list Event :=
  [EMembership (TgUpdate (alice true 0) (alice false 100)) [1];
   EMembership (TgInsert (bob 200)) [2];
   ELease 1000 1 [7]; ERetry [1] [7] 1000 3000;
   ELease 1000 1 [8]; EAccept 1 (lit "zed-1"); EComplete [2] [8] 1000 (lit "zed-1");
   ELease 3000 1 [9]; EAccept 0 (lit "zed-2"); EComplete [1] [9] 3000 (lit "zed-2")].
Definition overtaken_state : System := default start (run start overtaken).
Lemma overtaken_reachable : reachable overtaken_state.
Proof. apply (run_reachable overtaken). vm_compute. reflexivity. Qed.

(** The resource is settled, the provider's newest token is the one of Alice's
    revocation, and the statement returns the older one of Bob's grant: it
    orders by revision before delivery time. *)
Example settled_token_is_not_the_newest :
  select_consistency (lit "organization") (lit "org") (table overtaken_state)
    = (false, Some (lit "zed-1"), Some 6)
  ∧ last (accepted overtaken_state)
    = Some (AcceptedRelationship (intent_of Revoke (member_key (alice false 100)) 5) (lit "zed-2")).
Proof. split; vm_compute; reflexivity. Qed.

(** A worker leases Alice's grant and stalls for longer than its lease; a
    second worker delivers the grant and then the revocation; the first
    worker's provider call arrives last. *)
Definition stalled : list Event :=
  [EMembership (TgInsert (alice true 0)) [1];
   ELease 0 10 [7];
   ELease 30000 10 [8]; EAccept 0 (lit "zed-1"); EComplete [1] [8] 30000 (lit "zed-1");
   EMembership (TgUpdate (alice true 0) (alice false 30000)) [2];
   ELease 30000 10 [9]; EAccept 1 (lit "zed-2"); EComplete [2] [9] 30000 (lit "zed-2");
   EAccept 0 (lit "zed-3")].
Definition stalled_state : System := default start (run start stalled).
Lemma stalled_reachable : reachable stalled_state.
Proof. apply (run_reachable stalled). vm_compute. reflexivity. Qed.

(** Everything is settled and the revocation is the newest change, but the last
    write the provider applied is the grant. *)
Example late_write_restores_a_revoked_grant :
  select_consistency (lit "organization") (lit "org") (table stalled_state)
    = (false, Some (lit "zed-2"), Some 6)
  ∧ last (accepted stalled_state)
    = Some (AcceptedRelationship (intent_of Grant (member_key (alice true 0)) 5) (lit "zed-3")).
Proof. split; vm_compute; reflexivity. Qed.

(** The rows of the second run: Alice's grant and her revocation. *)
Definition stalled_row (n : nat) : OutboxRow :=
  default (new_row [] [] (MailPayload [] []) 0) (rows (table stalled_state) !! n).
Lemma stalled_row_in n : is_Some (rows (table stalled_state) !! n) → stalled_row n ∈ rows (table stalled_state).
Proof. intros [r Hr]. unfold stalled_row. rewrite Hr. by eapply list_elem_of_lookup_2. Qed.

Lemma relationships_delivered_in_order_witness :
  row_status (stalled_row 0) = Delivered
  ∧ ∃ c d, acceptance c d = accepted stalled_state !! 1%nat.
Proof.
  destruct (relationships_delivered_in_order stalled_state stalled_reachable) as [Hrows Hlog]. split.
  - apply (Hrows (stalled_row 0) (stalled_row 1)).
    + apply stalled_row_in. vm_compute. by eexists.
    + apply stalled_row_in. vm_compute. by eexists.
    + apply earlier_iff. vm_compute. reflexivity.
    + vm_compute. reflexivity.
  - assert (is_Some (accepted stalled_state !! 1%nat)) as [a Ha] by (vm_compute; by eexists).
    destruct (Hlog 1%nat a Ha) as (c & d & _ & _ & Hacc & _). exists c, d. by rewrite Hacc, Ha.
Defined.

(** The migration of a table with a relationship row of the old format, while
    Alice is an active member: the old row dies and her grant is recorded. *)
Definition old_row : OutboxRow := new_row [9] (lit "old") (LegacyRelationshipPayload (lit "k1") [1]) 0.
Definition old_table : Outbox := mk_outbox {[ lit "org" := 4 ]} [old_row].
Definition alice_joined : JoinedMember :=
  mk_joined (lit "org") (lit "alice") (lit "active") (lit "active") (lit "active") 10 20 30.
Definition upgraded : System := mk_system (default old_table (migrate_0010 [(alice_joined, [1])] old_table)) [].
Lemma upgraded_reachable : reachable upgraded.
Proof.
  exists upgraded. split; [|constructor]. exists old_table, [(alice_joined, [1])]. split; [|split].
  - split; cbn; [apply NoDup_singleton| |by intros ? []%not_elem_of_nil].
    intros r ->%list_elem_of_singleton. right. by do 2 eexists.
  - apply NoDup_singleton.
  - vm_compute. reflexivity.
Qed.
Example upgraded_rows :
  reachable upgraded
  ∧ map row_status (rows (table upgraded)) = [DeadLetter; Pending]
  ∧ map payload (rows (table upgraded))
    = [LegacyRelationshipPayload (lit "k1") [1]; RelationshipPayload Grant (joined_key alice_joined) 4].
Proof. split; [apply upgraded_reachable|]. split; vm_compute; reflexivity. Qed.

Lemma outbox_statuses_earned_witness :
  ∃ d, delivery_id (stalled_row 1) = Some d ∧ evidence (accepted stalled_state) (stalled_row 1) d.
Proof.
  apply (outbox_statuses_earned stalled_state stalled_reachable).
  - apply stalled_row_in. vm_compute. by eexists.
  - vm_compute. reflexivity.
Defined.

Lemma outbox_terminal_rows_final_witness :
  stalled_row 0 ∈ rows (lease_outbox [] KRelationship 90000 10 [9] 120000 (table stalled_state)).2.
Proof.
  apply (outbox_terminal_rows_final stalled_state
    (mk_system (lease_outbox [] KRelationship 90000 10 [9] 120000 (table stalled_state)).2 (accepted stalled_state))).
  - apply stalled_reachable.
  - apply rtc_once, (step_lease [] KRelationship 90000 10 [9] 120000 (table stalled_state)).
  - apply stalled_row_in. vm_compute. by eexists.
  - left. vm_compute. reflexivity.
Defined.

(** Both members are queued; a lease of one row takes Alice's. *)
Definition queued : Outbox :=
  table (default start (run start
    [EMembership (TgUpdate (alice true 0) (alice false 100)) [1]; EMembership (TgInsert (bob 200)) [2]])).
Lemma queued_ids : NoDup (map outbox_id (rows queued)).
Proof. vm_compute. repeat constructor; rewrite ?elem_of_cons, ?elem_of_nil; naive_solver. Qed.

Definition queued_row (n : nat) : OutboxRow :=
  default (new_row [] [] (MailPayload [] []) 0) (rows queued !! n).
Lemma lease_outbox_exact_witness :
  lease_row 1000 [7] 31000 (queued_row 1) ∈ (lease_outbox [] KRelationship 1000 1 [7] 31000 queued).1
  ∨ queued_row 1 ∈ rows (lease_outbox [] KRelationship 1000 1 [7] 31000 queued).2.
Proof.
  destruct (lease_outbox_exact [] KRelationship 1000 1 [7] 31000 queued queued_ids) as (_ & _ & H).
  destruct (H (queued_row 1)) as [Ht|(Ht & _ & _)].
  - split; [vm_compute; right; left|]. split; [vm_compute; reflexivity|apply not_elem_of_nil].
  - left. exact Ht.
  - right. exact Ht.
Defined.

Lemma lease_batch_conflict_free_witness :
  head (lease_outbox [] KRelationship 1000 10 [7] 31000 queued).1
    = Some (lease_row 1000 [7] 31000 (queued_row 0)).
Proof.
  destruct (head (lease_outbox [] KRelationship 1000 10 [7] 31000 queued).1) as [r|] eqn:E;
    [|vm_compute in E; discriminate E].
  f_equal.
  apply (lease_batch_conflict_free [] KRelationship 1000 10 [7] 31000 queued r _ Revoke Revoke
    (member_key (alice false 100)) 5 5 queued_ids).
  - destruct (lease_outbox [] KRelationship 1000 10 [7] 31000 queued).1 as [|r0 rs]; [discriminate E|].
    injection E as ->. left.
  - vm_compute. left.
  - vm_compute in E. injection E as <-. vm_compute. reflexivity.
  - vm_compute. reflexivity.
Defined.
End OutboxExample.
