(* ===== verification/OutboxWorker.v ===== *)
(** * OutboxWorker: the mail and relationship workers

    Models src/crates/wasi-auth/src/postgres/outbox.rs: the decoding of leased
    rows, the reconstruction of a mail from its sealed payload, and the two
    dispatch loops.  The workers run against a world ([OutboxWorld]) that
    holds the database, the mail provider and the HTTP transport to SpiceDB;
    its laws say that a statement is executed atomically at some moment
    between its call and its return, that any other steps of the system may
    happen before and after, that SpiceDB commits the updates of one write
    document together, and that a failed call may or may not have taken
    effect.  The relationship writer itself is [write], which
    [write_is_spicedb_write] identifies with the writer of SpiceDb.v.  The
    theorems show that whatever the world does, a pass of a worker is a
    sequence of steps of [Outbox.step]. *)

From S2P Require Import SpiceDb.
From S2P Require Export Outbox.
Open Scope Z_scope.

#[local] Arguments lit : simpl never.

(** ** Statements on the wire *)

Inductive Sql := LEASE_OUTBOX_SQL | COMPLETE_OUTBOX_SQL | RETRY_OUTBOX_SQL
               | LOAD_RELATIONSHIP_CONSISTENCY_SQL.

Definition kind_text (k : OutboxKind) : str :=
  lit match k with KMail => "mail" | KRelationship => "relationship" end.
Definition kind_of_text (s : str) : option OutboxKind :=
  if bool_decide (s = lit "mail") then Some KMail
  else if bool_decide (s = lit "relationship") then Some KRelationship else None.
Definition status_text (s : OutboxStatus) : str :=
  lit match s with
      | Pending => "pending" | Leased => "leased" | Delivered => "delivered"
      | DeadLetter => "dead_letter"
      end.

Section wire.
Context `{UuidText}.

(** The columns [RETURNING] names, with the nulls of the payload's shape. *)
Definition lease_columns (r : OutboxRow) : PgRow :=
  let '(key_version, ciphertext, op, key, revision) :=
    match payload r with
    | MailPayload v c | LegacyRelationshipPayload v c => (Some v, Some c, None, None, None)
    | RelationshipPayload op k v => (None, None, Some op, Some k, Some v)
    end in
  PgRow_new
    [(lit "outbox_id", PgText (uuid_to_string (outbox_id r)));
     (lit "kind", PgText (kind_text (row_kind r)));
     (lit "deduplication_key", PgText (deduplication_key r));
     (lit "key_version", pg_text key_version);
     (lit "payload_ciphertext", pg_bytes ciphertext);
     (lit "relationship_operation", pg_text (operation_text <$> op));
     (lit "resource_type", pg_text (key_resource_type <$> key));
     (lit "resource_id", pg_text (key_resource_id <$> key));
     (lit "relation", pg_text (key_relation <$> key));
     (lit "subject_type", pg_text (key_subject_type <$> key));
     (lit "subject_id", pg_text (key_subject_id <$> key));
     (lit "resource_revision", pg_i64 revision);
     (lit "attempt_count", PgI64 (attempt_count r));
     (lit "lease_id", pg_text (uuid_to_string <$> row_lease_id r));
     (lit "leased_until_ms", pg_i64 (leased_until_ms r))].

Definition outcome_columns (outcome : str) : PgRow := PgRow_new [(lit "outcome", PgText outcome)].

(** Executes a statement on its parameters; [None] is a database error. *)
Definition exec (locked : list Uuid) (sql : Sql) (ps : list PgValue) (t : Outbox) :
    option (list PgRow * Outbox) :=
  match sql, ps with
  | LEASE_OUTBOX_SQL, [PgText kind; PgI64 now; PgI64 limit; PgText lease; PgI64 until] =>
      lease ← uuid_parse_str lease;
      if limit <? 0 then None else
      match kind_of_text kind with
      | None => Some ([], t)
      | Some kind =>
          let (taken, t') := lease_outbox locked kind now (Z.to_nat limit) lease until t in
          Some (map lease_columns taken, t')
      end
  | COMPLETE_OUTBOX_SQL, [PgText id; PgText lease; PgI64 now; PgText delivery] =>
      id ← uuid_parse_str id;
      lease ← uuid_parse_str lease;
      let (changed, t') := complete_outbox id lease now delivery t in
      Some (map (λ _, outcome_columns (lit "delivered")) changed, t')
  | RETRY_OUTBOX_SQL, [PgText id; PgText lease; PgI64 now; PgI64 available; PgText error; PgI64 max] =>
      id ← uuid_parse_str id;
      lease ← uuid_parse_str lease;
      let (changed, t') := retry_outbox id lease now available error max t in
      Some (map (λ r, outcome_columns (status_text (row_status r))) changed, t')
  | LOAD_RELATIONSHIP_CONSISTENCY_SQL, [PgText resource_type; PgText resource_id] =>
      let '(has_unsettled, token, revision) := select_consistency resource_type resource_id t in
      Some ([PgRow_new [(lit "has_unsettled", PgBool has_unsettled);
                        (lit "consistency_token", pg_text token);
                        (lit "resource_revision", pg_i64 revision)]], t)
  | _, _ => None
  end.
End wire.

(** ** The world *)

(** The collaborators of the workers: the clock, the random source, the
    PostgreSQL transport, the mail provider, and the HTTP transport to SpiceDB.
    A request to SpiceDB is labelled with the changes on whose behalf it is
    sent; the label names what the log records when SpiceDB commits, and the
    code does not read it back. *)
Class OutboxWorld (W TE ME SE RE : Type) := {
  view : W → System;
  now_unix_seconds : W → Z;
  fill_bytes : nat → io W RE (list Z);
  query : Sql → list PgValue → io W TE (list PgRow);
  send : EmailMessage → io W ME str;
  spicedb_send : list RelationshipOutboxIntent → OutboundRequest str → io W SE HttpResponse;
}.
(** The configuration of the relationship writer, the [http] crate's request
    builder and serde_json on the two documents of a write. *)
Class RelationshipWriter := {
  writer_endpoint : str;
  writer_token : str;
  writer_builds : OutboundRequest str → bool;
  write_to_vec : list RelationshipUpdate → option (list Z);
  write_from_slice : list Z → option (option str);
}.

Section writer.
Context {W TE ME SE RE : Type} `{OutboxWorld W TE ME SE RE} `{RelationshipWriter}.

(** The bounded POST of [SpiceDb.exchange], through the world. *)
Definition post_write (intents : list RelationshipOutboxIntent) (encoded : option (list Z)) :
    io W (SpiceDbError SE) (list Z) :=
  do! body := io_lift (ok_or encoded InvalidRequest) in
  fail! SpiceDb.MAX_DOCUMENT_BYTES <? Z.of_nat (length body) with InvalidRequest ;;
  let outbound := mk_outbound writer_endpoint (headers writer_token body) body in
  fail! negb (writer_builds outbound) with InvalidRequest ;;
  do! response := io_call SpiceDb.Transport (spicedb_send intents outbound) in
  io_lift
    (if SpiceDb.status response =? 200 then
       fail? negb (bool_decide (media_type response = Some (lit "application/json")))
             || (SpiceDb.MAX_DOCUMENT_BYTES <? Z.of_nat (length (SpiceDb.body response))) with InvalidResponse ;;
       Ok (SpiceDb.body response)
     else if (SpiceDb.status response =? 401) || (SpiceDb.status response =? 403) then Err ProviderAuthentication
     else Err ProviderUnavailable).
(** [SpiceDbRelationshipWriter::write] *)
Definition write (intents : list RelationshipOutboxIntent) : io W (SpiceDbError SE) str :=
  fail! match intents with [] => true | _ => false end
        || bool_decide (100 < length intents)%nat with InvalidRequest ;;
  do! updates := io_lift (collect_map relationship_update intents) in
  do! response := post_write intents (write_to_vec updates) in
  io_lift
    (let? written_at := ok_or (write_from_slice response) InvalidResponse in
     match written_at with
     | Some t =>
         fail? is_empty t || (4096 <? str_len t) || existsb is_control t with InvalidResponse ;; Ok t
     | None => Err InvalidResponse
     end).

(** It is the writer of [SpiceDb] over the transport of this moment. *)
Lemma write_is_spicedb_write intents w :
  (write intents w).1
  = SpiceDb.write (λ outbound, (spicedb_send intents outbound w).1) writer_builds write_to_vec write_from_slice
      writer_endpoint writer_token intents.
Proof.
  unfold write, SpiceDb.write. destruct (_ || _ : bool); [done|]. unfold io_bind at 1, io_lift at 1.
  destruct (collect_map relationship_update intents) as [updates|e]; [|done]. cbn [rbind].
  unfold post_write, exchange, io_bind, io_lift, io_call.
  destruct (write_to_vec updates) as [body|]; [|done]. cbn [ok_or rbind].
  destruct (_ <? _); [done|]. destruct (negb _); [done|].
  destruct (spicedb_send _ _ w) as [[response|e] w1]; cbn; [|done].
  destruct (SpiceDb.status response =? 200); cbn.
  - destruct (_ || _); [done|]. cbn. destruct (write_from_slice _) as [[t|]|]; cbn; [|done..].
    by destruct (_ || _).
  - by destruct (_ || _).
Qed.
End writer.

(** What the workers rely on of it. *)
Class OutboxWorldLaws `{UuidText} (W TE ME SE RE : Type) `{OutboxWorld W TE ME SE RE} `{RelationshipWriter} : Prop := {
  fill_bytes_steps n w r w' : fill_bytes n w = (r, w') → rtc step (view w) (view w');
  (** Executed at some moment [t1], with its rows in any order; or failed,
      executed or not. *)
  query_executes sql ps w r w' :
    query sql ps w = (r, w') →
    ∃ s1, rtc step (view w) s1
    ∧ ((∃ locked out t2, exec locked sql ps (table s1) = Some (out, t2)
          ∧ rtc step (mk_system t2 (accepted s1)) (view w')
          ∧ ∀ out', r = Ok out' → out' ≡ₚ out)
       ∨ (rtc step s1 (view w') ∧ ∀ out', r ≠ Ok out'));
  (** Accepted under the returned identifier; or failed, accepted or not. *)
  send_accepts m w r w' :
    send m w = (r, w') →
    ∃ s1, rtc step (view w) s1
    ∧ ((∃ d, (∀ d', r = Ok d' → d' = d)
          ∧ rtc step (mk_system (table s1) (accepted s1 ++ [AcceptedMail (mail_correlation_id m) d])) (view w'))
       ∨ (rtc step s1 (view w') ∧ ∀ d, r ≠ Ok d));
  (** SpiceDB commits the updates of a write document all together, and an
      answer of status 200 with a token is the token of that commit; any other
      outcome may or may not have committed. *)
  spicedb_commits intents updates outbound w r w' :
    spicedb_send intents outbound w = (r, w') →
    collect_map (relationship_update (T := SE)) intents = Ok updates → write_to_vec updates = Some (out_body outbound) →
    ∃ s1, rtc step (view w) s1
    ∧ ((∃ d, (∀ response d', r = Ok response → SpiceDb.status response = 200 →
                write_from_slice (SpiceDb.body response) = Some (Some d') → d' = d)
          ∧ rtc step (mk_system (table s1) (accepted s1 ++ map (λ i, AcceptedRelationship i d) intents)) (view w'))
       ∨ (rtc step s1 (view w') ∧ ∀ response d, r = Ok response → SpiceDb.status response = 200 →
            write_from_slice (SpiceDb.body response) ≠ Some (Some d)));
}.

(** A write that returns a token was committed under it; one that fails was
    committed or not. *)
Lemma write_accepts `{OutboxWorldLaws W TE ME SE RE} intents w r w' :
  write intents w = (r, w') →
  ∃ s1, rtc step (view w) s1
  ∧ ((∃ d, (∀ d', r = Ok d' → d' = d)
        ∧ rtc step (mk_system (table s1) (accepted s1 ++ map (λ i, AcceptedRelationship i d) intents)) (view w'))
     ∨ (rtc step s1 (view w') ∧ ∀ d, r ≠ Ok d)).
Proof.
  assert (Hstay : ∀ e, (Err e, w) = (r, w') → ∃ s1, rtc step (view w) s1
    ∧ ((∃ d, (∀ d', r = Ok d' → d' = d)
          ∧ rtc step (mk_system (table s1) (accepted s1 ++ map (λ i, AcceptedRelationship i d) intents)) (view w'))
       ∨ (rtc step s1 (view w') ∧ ∀ d, r ≠ Ok d))).
  { intros e [= <- <-]. exists (view w). split; [done|]. right. done. }
  unfold write. destruct (_ || _ : bool); [apply Hstay|]. unfold io_bind at 1, io_lift at 1.
  destruct (collect_map relationship_update intents) as [updates|e] eqn:Hu; [|apply Hstay].
  unfold post_write, io_bind, io_lift, io_call.
  destruct (write_to_vec updates) as [body|] eqn:Hbody; [|apply Hstay]. cbn [ok_or].
  destruct (_ <? _); [apply Hstay|]. destruct (negb _); [apply Hstay|].
  destruct (spicedb_send _ _ w) as [answer w1] eqn:Hsend.
  destruct (spicedb_commits _ _ _ _ _ _ Hsend Hu Hbody) as (s1 & Hs1 & Hcase). intros E.
  assert (w' = w1 ∧ ∀ d, r = Ok d → ∃ response, answer = Ok response ∧ SpiceDb.status response = 200
    ∧ write_from_slice (SpiceDb.body response) = Some (Some d)) as [-> Hok].
  { destruct answer as [response|e]; cbn in E; [|by injection E as <- <-].
    destruct (Z.eqb_spec (SpiceDb.status response) 200) as [H200|_].
    2: { by destruct (_ || _) in E; injection E as <- <-. }
    destruct (_ || _) in E; [by injection E as <- <-|]. cbn in E. injection E as E <-. split; [done|]. intros d ->.
    exists response. split_and!; [done|done|]. destruct (write_from_slice _) as [[t|]|]; cbn in E; try discriminate E.
    destruct (_ || _) in E; [done|]. by injection E as <-. }
  exists s1. split; [done|]. destruct Hcase as [(d & Hd & Hc)|[Hc Hn]]; [left|right].
  - exists d. split; [|done]. intros d' (response & Ha & Hs & Hw)%Hok. by eapply Hd.
  - split; [done|]. intros d (response & Ha & Hs & Hw)%Hok. by eapply Hn.
Qed.

Record OutboxLease := mk_lease {
  lease_outbox_id : Uuid;
  lease_deduplication_key : str;
  lease_key_version : option str;
  lease_payload_ciphertext : list Z;
  lease_relationship : option RelationshipOutboxIntent;
  lease_attempt_count : Z;
  lease_id : Uuid;
}.

Record DispatchReport := mk_report {
  report_leased : nat;
  report_delivered : nat;
  report_retried : nat;
  report_dead_lettered : nat;
}.
Definition count_delivered (r : DispatchReport) : DispatchReport :=
  mk_report (report_leased r) (S (report_delivered r)) (report_retried r) (report_dead_lettered r).
(** [if dead { report.dead_lettered += 1 } else { report.retried += 1 }] *)
Definition count_failure (dead : bool) (r : DispatchReport) : DispatchReport :=
  if dead then mk_report (report_leased r) (report_delivered r) (report_retried r) (S (report_dead_lettered r))
  else mk_report (report_leased r) (report_delivered r) (S (report_retried r)) (report_dead_lettered r).

(** [1_000_u64.saturating_mul(2_u64.saturating_pow(attempt_count.min(10)))] *)
Definition retry_delay_ms (attempt_count : Z) : Z :=
  u64_saturating_mul 1000 (Z.min u64_max (2 ^ Z.min attempt_count 10)).
(** [i64::try_from(batch_size).unwrap_or(i64::MAX)] *)
Definition batch_limit (batch_size : nat) : Z := u64_to_i64 (Z.of_nat batch_size).

(** ** The mail worker *)

Module MailWorker.
Inductive MailOutboxError (E : Type) :=
| InvalidBatch | RandomnessUnavailable | Transport (e : E) | InvalidRow
| Row (e : RowDecodeError) | InvalidDeliveryId | LeaseLost.
Arguments InvalidBatch {E}.
Arguments RandomnessUnavailable {E}.
Arguments Transport {E} e.
Arguments InvalidRow {E}.
Arguments Row {E} e.
Arguments InvalidDeliveryId {E}.
Arguments LeaseLost {E}.

Definition MAIL_LEASE_MS : Z := 30000.
Definition MAX_MAIL_BATCH : nat := 25.

Record MailPayloadV1 := mk_v1 {
  v1_version : Z; v1_kind : str; v1_recipient : str; v1_token : str; v1_redirect_uri : str;
}.
Record MailPayloadV2 := mk_v2 {
  v2_version : Z; v2_kind : str; v2_recipient : str; v2_subject : str; v2_text_body : str;
  v2_html_body : str; v2_action_url : str;
}.

(** The parts of a parsed [http::Uri] that [PublicBaseUrl::new] reads. *)
Record UriParts := mk_uri {
  uri_scheme : option str;
  uri_authority : option str;
  uri_host : option str;
  uri_query : option str;
  uri_path : option str;
}.
Definition PublicBaseUrl_new (parse : str → option UriParts) (value : str) : result unit str :=
  let? uri := ok_or (parse value) tt in
  let? scheme := ok_or (uri_scheme uri) tt in
  let? authority := ok_or (uri_authority uri) tt in
  let? host := ok_or (uri_host uri) tt in
  let secure := bool_decide (scheme = lit "https") in
  let loopback := bool_decide (scheme = lit "http")
    && bool_decide (host ∈ [lit "localhost"; lit "127.0.0.1"; lit "[::1]"]) in
  fail? (negb secure && negb loopback) || contains_char 64 authority
        || bool_decide (is_Some (uri_query uri))
        || match uri_path uri with Some path => negb (bool_decide (path = lit "/")) | None => false end
    with tt ;;
  Ok (trim_end_slashes value).
Definition one_time_url (base path token : str) : str := base ++ path ++ lit "?token=" ++ token.

Definition decode_lease `{UuidText} {E} (row : PgRow) : result (MailOutboxError E) OutboxLease :=
  let? kind := map_err Row (required_text row (lit "kind")) in
  fail? negb (bool_decide (kind = lit "mail")) with InvalidRow ;;
  let? ciphertext := map_err Row (required_bytes row (lit "payload_ciphertext")) in
  fail? is_empty ciphertext || (256 * 1024 <? Z.of_nat (length ciphertext)) with InvalidRow ;;
  let? id := map_err Row (required_text row (lit "outbox_id")) in
  let? id := ok_or (uuid_parse_str id) InvalidRow in
  let? deduplication_key := map_err Row (required_text row (lit "deduplication_key")) in
  let? key_version := map_err Row (required_text row (lit "key_version")) in
  let? attempts := map_err Row (required_i64 row (lit "attempt_count")) in
  let? attempts := ok_or (u64_try_from attempts) InvalidRow in
  let? lease := map_err Row (required_text row (lit "lease_id")) in
  let? lease := ok_or (uuid_parse_str lease) InvalidRow in
  Ok (mk_lease id deduplication_key (Some key_version) ciphertext None attempts lease).

Section worker.
Context {W TE ME SE RE : Type} `{UuidText} `{OutboxWorld W TE ME SE RE}.
(** [OutboxSealingKey::open], the three [serde_json] decoders, and the
    configured origin. *)
Context (open : str → list Z → option (list Z)).
Context (version_from_slice : list Z → option Z)
        (v1_from_slice : list Z → option MailPayloadV1)
        (v2_from_slice : list Z → option MailPayloadV2).
Context (public_base_url : str).

Definition v1_template (kind : str) : option (EmailKind * str * str) :=
  if bool_decide (kind = lit "email_verification") then
    Some (Verification, lit "Verify your email", lit "/verify-email")
  else if bool_decide (kind = lit "password_reset") then
    Some (PasswordReset, lit "Reset your password", lit "/reset-password")
  else if bool_decide (kind = lit "invitation") then
    Some (InvitationMail, lit "Organization invitation", lit "/invitations/accept")
  else None.
Definition v2_kind_of (kind : str) : option EmailKind :=
  if bool_decide (kind = lit "email_verification") then Some Verification
  else if bool_decide (kind = lit "password_reset") then Some PasswordReset
  else if bool_decide (kind = lit "invitation") then Some InvitationMail
  else if bool_decide (kind = lit "security_notification") then Some SecurityNotification
  else None.

Definition message_from_v1 (deduplication_key : str) (plaintext : list Z) : result unit EmailMessage :=
  let? p := ok_or (v1_from_slice plaintext) tt in
  fail? negb (v1_version p =? 1) || negb (starts_with (lit "/") (v1_redirect_uri p))
        || starts_with (lit "//") (v1_redirect_uri p) with tt ;;
  let? (kind, subject, path) := ok_or (v1_template (v1_kind p)) tt in
  let? recipient := map_err (λ _, tt) (Recipient_new (v1_recipient p)) in
  let? action_url := map_err (λ _, tt) (MailActionUrl_new (one_time_url public_base_url path (v1_token p))) in
  map_err (λ _, tt)
    (rmap (λ m, with_action_url m action_url)
       (EmailMessage_new kind recipient subject action_url deduplication_key)).

Definition message_from_v2 (deduplication_key : str) (plaintext : list Z) : result unit EmailMessage :=
  let? p := ok_or (v2_from_slice plaintext) tt in
  fail? negb (v2_version p =? 2) with tt ;;
  let? kind := ok_or (v2_kind_of (v2_kind p)) tt in
  let? recipient := map_err (λ _, tt) (Recipient_new (v2_recipient p)) in
  let? action_url := map_err (λ _, tt) (MailActionUrl_new (v2_action_url p)) in
  map_err (λ _, tt)
    (let? m := EmailMessage_new kind recipient (v2_subject p) (v2_text_body p) deduplication_key in
     rmap (λ m, with_action_url m action_url) (with_html_body m (v2_html_body p))).

Definition message_from_encrypted (deduplication_key key_version : str) (ciphertext : list Z) :
    result unit EmailMessage :=
  let? plaintext := ok_or (open key_version ciphertext) tt in
  let? version := ok_or (version_from_slice plaintext) tt in
  if version =? 1 then message_from_v1 deduplication_key plaintext
  else if version =? 2 then message_from_v2 deduplication_key plaintext
  else Err tt.

Definition message (l : OutboxLease) : result unit EmailMessage :=
  let? key_version := ok_or (lease_key_version l) tt in
  message_from_encrypted (lease_deduplication_key l) key_version (lease_payload_ciphertext l).

Definition lease (batch_size : nat) (now_ms : Z) : io W (MailOutboxError TE) (list OutboxLease) :=
  do! random := io_call (λ _, RandomnessUnavailable) (fill_bytes UUID_RANDOM_BYTES) in
  let id := uuid_v7_bytes now_ms random in
  do! rows := io_call Transport (query LEASE_OUTBOX_SQL
    [PgText (lit "mail"); PgI64 (u64_to_i64 now_ms); PgI64 (batch_limit batch_size);
     PgText (uuid_to_string id); PgI64 (u64_to_i64 (u64_saturating_add now_ms MAIL_LEASE_MS))]) in
  io_lift (collect_map decode_lease rows).

Definition complete (l : OutboxLease) (delivery : str) (now_ms : Z) : io W (MailOutboxError TE) unit :=
  fail! is_empty delivery || (512 <? str_len delivery) || existsb is_control delivery
    with InvalidDeliveryId ;;
  do! rows := io_call Transport (query COMPLETE_OUTBOX_SQL
    [PgText (uuid_to_string (lease_outbox_id l)); PgText (uuid_to_string (lease_id l));
     PgI64 (u64_to_i64 now_ms); PgText delivery]) in
  io_lift
    match rows with
    | row :: _ =>
        if bool_decide (ok (required_text row (lit "outcome")) = Some (lit "delivered"))
        then Ok tt else Err LeaseLost
    | [] => Err LeaseLost
    end.

Definition retry (l : OutboxLease) (error_code : str) (now_ms : Z) : io W (MailOutboxError TE) bool :=
  do! rows := io_call Transport (query RETRY_OUTBOX_SQL
    [PgText (uuid_to_string (lease_outbox_id l)); PgText (uuid_to_string (lease_id l));
     PgI64 (u64_to_i64 now_ms);
     PgI64 (u64_to_i64 (u64_saturating_add now_ms (retry_delay_ms (lease_attempt_count l))));
     PgText error_code; PgI64 (u64_to_i64 MAX_ATTEMPTS)]) in
  io_lift
    match rows with
    | row :: _ =>
        match required_text row (lit "outcome") with
        | Ok o =>
            if bool_decide (o = lit "pending") then Ok false
            else if bool_decide (o = lit "dead_letter") then Ok true else Err LeaseLost
        | Err _ => Err LeaseLost
        end
    | [] => Err LeaseLost
    end.

(** The body of the loop over the leases. *)
Definition dispatch_one (now_ms : Z) (report : DispatchReport) (l : OutboxLease) :
    io W (MailOutboxError TE) DispatchReport :=
  match message l with
  | Ok m =>
      do! sent := io_attempt (send m) in
      match sent with
      | Ok delivery =>
          do! _ := complete l delivery now_ms in
          io_lift (Ok (count_delivered report))
      | Err _ =>
          do! dead := retry l (lit "mail_transport") now_ms in
          io_lift (Ok (count_failure dead report))
      end
  | Err _ =>
      do! dead := retry l (lit "invalid_payload") now_ms in
      io_lift (Ok (count_failure dead report))
  end.

Definition dispatch (batch_size : nat) : io W (MailOutboxError TE) DispatchReport :=
  fail! bool_decide (batch_size = 0%nat) || bool_decide (MAX_MAIL_BATCH < batch_size)%nat
    with InvalidBatch ;;
  λ w,
  let now_ms := u64_saturating_mul (now_unix_seconds w) 1000 in
  (do! leases := lease batch_size now_ms in
   io_fold (dispatch_one now_ms) (mk_report (length leases) 0 0 0) leases) w.
End worker.
End MailWorker.

(** ** The relationship worker *)

Module RelationshipWorker.
Inductive RelationshipOutboxError (E : Type) :=
| InvalidBatch | RandomnessUnavailable | Transport (e : E) | InvalidRow
| Row (e : RowDecodeError) | InvalidConsistencyToken | LeaseLost.
Arguments InvalidBatch {E}.
Arguments RandomnessUnavailable {E}.
Arguments Transport {E} e.
Arguments InvalidRow {E}.
Arguments Row {E} e.
Arguments InvalidConsistencyToken {E}.
Arguments LeaseLost {E}.

Definition RELATIONSHIP_LEASE_MS : Z := 30000.
Definition MAX_RELATIONSHIP_BATCH : nat := 100.

Definition decode_relationship_lease `{UuidText} {E} (row : PgRow) :
    result (RelationshipOutboxError E) OutboxLease :=
  let? kind := map_err Row (required_text row (lit "kind")) in
  fail? negb (bool_decide (kind = lit "relationship")) with InvalidRow ;;
  let? op := map_err Row (required_text row (lit "relationship_operation")) in
  let? operation :=
    if bool_decide (op = lit "grant") then Ok Grant
    else if bool_decide (op = lit "revoke") then Ok Revoke else Err InvalidRow in
  let? revision := map_err Row (required_i64 row (lit "resource_revision")) in
  let? revision := ok_or (u64_try_from revision) InvalidRow in
  let? resource_type := map_err Row (required_text row (lit "resource_type")) in
  let? resource_id := map_err Row (required_text row (lit "resource_id")) in
  let? relation := map_err Row (required_text row (lit "relation")) in
  let? subject_type := map_err Row (required_text row (lit "subject_type")) in
  let? subject_id := map_err Row (required_text row (lit "subject_id")) in
  let relationship := mk_intent operation (resource_type ++ lit ":" ++ resource_id) relation
    (subject_type ++ lit ":" ++ subject_id) revision None in
  let? id := map_err Row (required_text row (lit "outbox_id")) in
  let? id := ok_or (uuid_parse_str id) InvalidRow in
  let? deduplication_key := map_err Row (required_text row (lit "deduplication_key")) in
  let? attempts := map_err Row (required_i64 row (lit "attempt_count")) in
  let? attempts := ok_or (u64_try_from attempts) InvalidRow in
  let? lease := map_err Row (required_text row (lit "lease_id")) in
  let? lease := ok_or (uuid_parse_str lease) InvalidRow in
  Ok (mk_lease id deduplication_key None [] (Some relationship) attempts lease).

Section worker.
Context {W TE ME SE RE : Type} `{UuidText} `{OutboxWorld W TE ME SE RE} `{RelationshipWriter}.

Definition lease_relationships (batch_size : nat) (now_ms : Z) :
    io W (RelationshipOutboxError TE) (list OutboxLease) :=
  do! random := io_call (λ _, RandomnessUnavailable) (fill_bytes UUID_RANDOM_BYTES) in
  let id := uuid_v7_bytes now_ms random in
  do! rows := io_call Transport (query LEASE_OUTBOX_SQL
    [PgText (lit "relationship"); PgI64 (u64_to_i64 now_ms); PgI64 (batch_limit batch_size);
     PgText (uuid_to_string id); PgI64 (u64_to_i64 (u64_saturating_add now_ms RELATIONSHIP_LEASE_MS))]) in
  io_lift (collect_map decode_relationship_lease rows).

Definition relationship (l : OutboxLease) : result unit RelationshipOutboxIntent :=
  ok_or (lease_relationship l) tt.

Definition complete_relationship (l : OutboxLease) (consistency_token : str) (now_ms : Z) :
    io W (RelationshipOutboxError TE) unit :=
  fail! is_empty consistency_token || (4096 <? str_len consistency_token)
        || existsb is_control consistency_token with InvalidConsistencyToken ;;
  do! rows := io_call Transport (query COMPLETE_OUTBOX_SQL
    [PgText (uuid_to_string (lease_outbox_id l)); PgText (uuid_to_string (lease_id l));
     PgI64 (u64_to_i64 now_ms); PgText consistency_token]) in
  io_lift
    match rows with
    | row :: _ =>
        if bool_decide (ok (required_text row (lit "outcome")) = Some (lit "delivered"))
        then Ok tt else Err LeaseLost
    | [] => Err LeaseLost
    end.

Definition retry_relationship (l : OutboxLease) (error_code : str) (now_ms : Z) :
    io W (RelationshipOutboxError TE) bool :=
  do! rows := io_call Transport (query RETRY_OUTBOX_SQL
    [PgText (uuid_to_string (lease_outbox_id l)); PgText (uuid_to_string (lease_id l));
     PgI64 (u64_to_i64 now_ms);
     PgI64 (u64_to_i64 (u64_saturating_add now_ms (retry_delay_ms (lease_attempt_count l))));
     PgText error_code; PgI64 (u64_to_i64 MAX_ATTEMPTS)]) in
  io_lift
    match rows with
    | row :: _ =>
        match required_text row (lit "outcome") with
        | Ok o =>
            if bool_decide (o = lit "pending") then Ok false
            else if bool_decide (o = lit "dead_letter") then Ok true else Err LeaseLost
        | Err _ => Err LeaseLost
        end
    | [] => Err LeaseLost
    end.

(** The first loop: keeps the leases with a typed intent, retries the rest. *)
Definition sort_out (now_ms : Z)
    (acc : DispatchReport * list (OutboxLease * RelationshipOutboxIntent)) (l : OutboxLease) :
    io W (RelationshipOutboxError TE) (DispatchReport * list (OutboxLease * RelationshipOutboxIntent)) :=
  let (report, valid) := acc in
  match relationship l with
  | Ok intent => io_lift (Ok (report, valid ++ [(l, intent)]))
  | Err _ =>
      do! dead := retry_relationship l (lit "invalid_payload") now_ms in
      io_lift (Ok (count_failure dead report, valid))
  end.
Definition complete_one (consistency_token : str) (now_ms : Z) (report : DispatchReport)
    (v : OutboxLease * RelationshipOutboxIntent) : io W (RelationshipOutboxError TE) DispatchReport :=
  do! _ := complete_relationship v.1 consistency_token now_ms in
  io_lift (Ok (count_delivered report)).
Definition retry_one (now_ms : Z) (report : DispatchReport)
    (v : OutboxLease * RelationshipOutboxIntent) : io W (RelationshipOutboxError TE) DispatchReport :=
  do! dead := retry_relationship v.1 (lit "provider_failure") now_ms in
  io_lift (Ok (count_failure dead report)).

(** The pass after its guard, at the time [now_ms] read from the clock. *)
Definition dispatch_leases (batch_size : nat) (now_ms : Z) : io W (RelationshipOutboxError TE) DispatchReport :=
  do! leases := lease_relationships batch_size now_ms in
  do! (report, valid) := io_fold (sort_out now_ms) (mk_report (length leases) 0 0 0, []) leases in
  match valid with
  | [] => io_lift (Ok report)
  | _ :: _ =>
      do! receipt := io_attempt (write (map snd valid)) in
      match receipt with
      | Ok token => io_fold (complete_one token now_ms) report valid
      | Err _ => io_fold (retry_one now_ms) report valid
      end
  end.
(** [RelationshipOutboxWorker::dispatch] *)
Definition dispatch_relationships (batch_size : nat) : io W (RelationshipOutboxError TE) DispatchReport :=
  fail! bool_decide (batch_size = 0%nat) || bool_decide (MAX_RELATIONSHIP_BATCH < batch_size)%nat
    with InvalidBatch ;;
  λ w, dispatch_leases batch_size (u64_saturating_mul (now_unix_seconds w) 1000) w.
End worker.
End RelationshipWorker.

(** ** Resource-scoped consistency *)

Record RelationshipConsistency := mk_consistency {
  has_unsettled : bool;
  consistency_token : option str;
  consistency_revision : option Z;
}.
Inductive RelationshipConsistencyError (E : Type) :=
| CInvalidResource | CTransport (e : E) | CRow (e : RowDecodeError) | CInvalidRow.
Arguments CInvalidResource {E}.
Arguments CTransport {E} e.
Arguments CRow {E} e.
Arguments CInvalidRow {E}.

Definition valid_relationship_name (value : str) : bool :=
  (3 <=? str_len value) && (str_len value <=? 64)
  && match str_bytes value with b :: _ => is_ascii_lowercase b | [] => false end
  && forallb (λ b, is_ascii_lowercase b || is_ascii_digit b || (b =? 95)) (str_bytes value).

Definition decode_consistency {E} (rows : list PgRow) :
    result (RelationshipConsistencyError E) RelationshipConsistency :=
  let? row := ok_or (head rows) CInvalidRow in
  let? unsettled := map_err CRow (row_bool row (lit "has_unsettled")) in
  let? unsettled := ok_or unsettled CInvalidRow in
  let? token := map_err CRow (row_text row (lit "consistency_token")) in
  fail? match token with
        | Some t => is_empty t || (4096 <? str_len t) || existsb is_control t
        | None => false
        end with CInvalidRow ;;
  let? revision := map_err CRow (row_i64 row (lit "resource_revision")) in
  let? revision :=
    match revision with
    | Some v => rmap Some (ok_or (u64_try_from v) CInvalidRow)
    | None => Ok None
    end in
  Ok (mk_consistency unsettled token revision).

Definition load_relationship_consistency {W TE ME SE RE} `{OutboxWorld W TE ME SE RE}
    (resource_type resource_id : str) : io W (RelationshipConsistencyError TE) RelationshipConsistency :=
  fail! negb (valid_relationship_name resource_type) || is_empty resource_id
        || (1024 <? str_len resource_id) || existsb is_control resource_id with CInvalidResource ;;
  do! rows := io_call CTransport (query LOAD_RELATIONSHIP_CONSISTENCY_SQL
    [PgText resource_type; PgText resource_id]) in
  io_lift (decode_consistency rows).

(** ** Reasoning about a worker *)

Section logic.
Context {W TE ME SE RE : Type} `{UuidText} `{OutboxWorld W TE ME SE RE} `{RelationshipWriter} `{!OutboxWorldLaws W TE ME SE RE}.

(** What other steps of the system do not undo. *)
Definition stable (P : System → Prop) : Prop := ∀ s s', rtc step s s' → sound s → P s → P s'.

(** A call refines the system and establishes [Q] when it succeeds. *)
Definition hoare {E A} (P : System → Prop) (m : io W E A) (Q : A → System → Prop) : Prop :=
  ∀ w r w', sound (view w) → P (view w) → m w = (r, w') →
    rtc step (view w) (view w') ∧ ∀ a, r = Ok a → Q a (view w').

Lemma hoare_lift {E A} P (r : result E A) (Q : A → System → Prop) :
  (∀ a s, r = Ok a → P s → Q a s) → hoare P (io_lift r) Q.
Proof. intros HQ w r' w' _ HP [= <- <-]. split; [constructor|eauto]. Qed.

Lemma hoare_bind {E A B} P (m : io W E A) Q (k : A → io W E B) R :
  hoare P m Q → (∀ a, hoare (Q a) (k a) R) → hoare P (io_bind m k) R.
Proof.
  intros Hm Hk w r w' Hs HP. unfold io_bind. destruct (m w) as [[a|e] w1] eqn:E1.
  - intros E2. destruct (Hm w _ _ Hs HP E1) as [Hst HQ].
    destruct (Hk a w1 r w' (steps_sound _ _ Hst Hs) (HQ a eq_refl) E2) as [Hst' HR].
    split; [by etrans|done].
  - intros [= <- <-]. destruct (Hm w _ _ Hs HP E1) as [Hst _]. split; [done|discriminate].
Qed.

Lemma hoare_call {E F A} (f : F → E) P (m : io W F A) Q :
  hoare P m Q → hoare P (io_call f m) Q.
Proof.
  intros Hm w r w' Hs HP. unfold io_call. destruct (m w) as [r1 w1] eqn:E1. intros [= <- <-].
  destruct (Hm w _ _ Hs HP E1) as [? HQ]. split; [done|]. intros a ->%map_err_Ok. auto.
Qed.

Lemma hoare_attempt {E F A} P (m : io W F A) Q :
  hoare P m Q → hoare P (io_attempt (E := E) m) (λ r s, ∀ a, r = Ok a → Q a s).
Proof.
  intros Hm w r w' Hs HP. unfold io_attempt. destruct (m w) as [r1 w1] eqn:E1. intros [= <- <-].
  destruct (Hm w _ _ Hs HP E1) as [? HQ]. split; [done|]. by intros a [= <-].
Qed.

Lemma hoare_frame {E A} R P (m : io W E A) Q :
  stable R → hoare P m Q → hoare (λ s, P s ∧ R s) m (λ a s, Q a s ∧ R s).
Proof.
  intros HR Hm w r w' Hs [HP HRw] E1. destruct (Hm w r w' Hs HP E1) as [Hst HQ].
  split; [done|]. intros a ->. split; [auto|]. by apply (HR _ _ Hst).
Qed.

Lemma hoare_weaken {E A} P P' (m : io W E A) Q Q' :
  (∀ s, P' s → P s) → (∀ a s, Q a s → Q' a s) → hoare P m Q → hoare P' m Q'.
Proof. intros HP HQ Hm w r w' Hs HPw E1. destruct (Hm w r w' Hs (HP _ HPw) E1). eauto. Qed.

Lemma hoare_pure {E A} (p : Prop) P (m : io W E A) Q :
  (∀ s, P s → p) → (p → hoare P m Q) → hoare P m Q.
Proof. intros Hp Hm w r w' Hs HP. by apply (Hm (Hp _ HP)). Qed.

(** The frame rule with the frame kept in both conditions. *)
Lemma hoare_keep {E A} P (m : io W E A) Q R :
  stable R → (∀ s, R s → P s) → hoare P m Q → hoare R m (λ a s, Q a s ∧ R s).
Proof.
  intros HR HP Hm. eapply hoare_weaken; [| |apply (hoare_frame R); done]; [|done].
  intros s HRs. split; [by apply HP|done].
Qed.

Lemma hoare_fold {E A S} (I : S → list A → System → Prop) (f : S → A → io W E S) acc l :
  (∀ acc x l, hoare (I acc (x :: l)) (f acc x) (λ acc', I acc' l)) →
  hoare (I acc l) (io_fold f acc l) (λ acc', I acc' []).
Proof.
  intros Hf. revert acc. induction l as [|x l IH]; intros acc; cbn.
  - apply hoare_lift. by intros a s [= <-].
  - eapply hoare_bind; [apply Hf|]. intros acc'. apply IH.
Qed.

Lemma stable_and P Q : stable P → stable Q → stable (λ s, P s ∧ Q s).
Proof. intros HP HQ s s' Hss Hs [? ?]. split; eauto. Qed.
Lemma stable_forall {A} (P : A → System → Prop) : (∀ a, stable (P a)) → stable (λ s, ∀ a, P a s).
Proof. intros HP s s' Hss Hs Ha a. by eapply HP. Qed.
Lemma stable_impl (p : Prop) P : stable P → stable (λ s, p → P s).
Proof. intros HP s s' Hss Hs Hp ?. by eapply HP; auto. Qed.

(** *** Facts that are stable *)

(** What a provider accepts for a lease. *)
Definition lease_acceptance (l : OutboxLease) (d : str) : Acceptance :=
  match lease_relationship l with
  | Some i => AcceptedRelationship i d
  | None => AcceptedMail (lease_deduplication_key l) d
  end.
(** The row of a lease is in the table, attempted, with the work it names. *)
Definition holds (l : OutboxLease) (s : System) : Prop :=
  ∃ r, r ∈ rows (table s) ∧ outbox_id r = lease_outbox_id l ∧ 0 < attempt_count r
    ∧ ∀ d, acceptance r d = Some (lease_acceptance l d).
Definition logged (a : Acceptance) (s : System) : Prop := a ∈ accepted s.
Definition finished (st : OutboxStatus) (id : Uuid) (s : System) : Prop :=
  ∃ r, r ∈ rows (table s) ∧ outbox_id r = id ∧ row_status r = st.

Lemma holds_stable l : stable (holds l).
Proof.
  intros s s' Hss _ (r & Hr & Hid & Hatt & Hacc).
  destruct (steps_keep_work _ _ _ Hss Hr) as (r' & Hr' & Hw). exists r'.
  split; [done|]. destruct Hw as (Hi & Hk & Hp & Ha). split; [congruence|]. split; [lia|].
  intros d. rewrite <- Hacc. by apply same_work_acceptance.
Qed.
Lemma logged_stable a : stable (logged a).
Proof. intros s s' Hss _. by apply steps_log. Qed.
Lemma finished_stable st id : st = Delivered ∨ st = DeadLetter → stable (finished st id).
Proof.
  intros Hst s s' Hss Hs (r & Hr & Hid & Hrs). exists r. split; [|done].
  eapply steps_keep_terminal; eauto. unfold terminal. rewrite Hrs. done.
Qed.

(** A row that a complete or retry of this lease reaches is the lease's row. *)
Lemma holds_owned l s r :
  sound s → holds l s → r ∈ rows (table s) → owned (lease_outbox_id l) (lease_id l) r = true →
  ∀ d, acceptance r d = Some (lease_acceptance l d).
Proof.
  intros Hs (r0 & Hr0 & Hid & _ & Hacc) Hr (Ho & _ & _)%owned_iff d.
  rewrite (id_inj _ r r0 (sound_ids _ Hs) Hr Hr0); [done|congruence].
Qed.

(** *** The statements *)

#[local] Set Default Proof Using "Type*".

(** A statement whose execution is a step of the system, from [P] to [Q]. *)
Lemma hoare_query (P : System → Prop) sql ps (Q : list PgRow → System → Prop) :
  stable P →
  (∀ out out' s s', Q out s → out' ≡ₚ out → rtc step s s' → sound s → Q out' s') →
  (∀ locked out t2 s, sound s → P s → exec locked sql ps (table s) = Some (out, t2) →
    step s (mk_system t2 (accepted s)) ∧ Q out (mk_system t2 (accepted s))) →
  hoare P (query sql ps) Q.
Proof.
  intros HP HQ Hex w r w' Hs HPw E.
  destruct (query_executes _ _ _ _ _ E) as (s1 & Hw1 & [(locked & out & t2 & He & Hw2 & Hout)|[Hw2 Hne]]).
  - assert (Hs1 : sound s1) by (by eapply steps_sound).
    destruct (Hex locked out t2 s1 Hs1 (HP _ _ Hw1 Hs HPw) He) as [Hstep Hq]. split.
    + etrans; [exact Hw1|]. eapply rtc_l; [exact Hstep|exact Hw2].
    + intros out' ->. eapply HQ; eauto. by eapply step_sound.
  - split; [by etrans|]. intros out ->. by destruct (Hne out).
Qed.

Lemma hoare_fill (P : System → Prop) n : stable P → hoare P (fill_bytes n) (λ _, P).
Proof.
  intros HP w r w' Hs HPw E. pose proof (fill_bytes_steps _ _ _ _ E) as Hst. split; [done|].
  intros _ _. by apply (HP _ _ Hst).
Qed.

(** The rows a lease returned, and their fate so far. *)
Definition taken_rows (kind : OutboxKind) (limit : nat) (out : list PgRow) (s : System) : Prop :=
  ∃ taken, out = map lease_columns taken ∧ NoDup (map outbox_id taken) ∧ (length taken ≤ limit)%nat
    ∧ ∀ r, r ∈ taken → row_kind r = kind ∧ 0 < attempt_count r
        ∧ ∃ r', r' ∈ rows (table s) ∧ same_work r r'.

Lemma batch_limit_nat n : (n ≤ 100)%nat → batch_limit n = Z.of_nat n.
Proof. intros Hn. apply u64_to_i64_small. unfold i64_max. lia. Qed.

Lemma query_lease kind now batch lease until :
  (batch ≤ 100)%nat →
  hoare (λ _, True)
    (query LEASE_OUTBOX_SQL [PgText (kind_text kind); PgI64 now; PgI64 (batch_limit batch);
                             PgText (uuid_to_string lease); PgI64 until])
    (taken_rows kind batch).
Proof.
  intros Hb. apply hoare_query; [done|..].
  - intros out out' s s' (taken & -> & Hnd & Hlen & Hall) Hp Hss _.
    apply Permutation_map_inv in Hp as (taken' & -> & Hp). exists taken'.
    split; [done|]. rewrite <- Hp. split; [done|]. split; [done|]. intros r. rewrite <- Hp. intros Hr.
    destruct (Hall r Hr) as (? & ? & r' & Hr' & Hw).
    destruct (steps_keep_work _ _ _ Hss Hr') as (r2 & ? & ?). eauto 6 using same_work_trans.
  - intros locked out t2 s Hs _. unfold exec. rewrite uuid_parse_to_string. cbn [mbind option_bind].
    rewrite batch_limit_nat by done. rewrite (proj2 (Z.ltb_ge _ _)), Nat2Z.id by lia.
    replace (kind_of_text (kind_text kind)) with (Some kind) by (by destruct kind).
    destruct (lease_outbox locked kind now batch lease until (table s)) as [taken t'] eqn:El.
    intros [= <- <-]. split.
    { replace t' with (lease_outbox locked kind now batch lease until (table s)).2 by (by rewrite El).
      destruct s. apply step_lease. }
    pose proof (lease_returns locked kind now batch lease until (table s) (sound_ids _ Hs)) as Hp.
    rewrite El in Hp. cbn [fst] in Hp. exists taken. split; [done|].
    rewrite Hp, map_map, length_map. split; [|split].
    + apply NoDup_fmap_2_strong; [|by apply candidates_NoDup, (sound_ids _ Hs)].
      intros c1 c2 Hc1 Hc2. cbn. apply (id_inj (rows (table s))); [apply (sound_ids _ Hs)|..];
        by eapply elem_of_candidates.
    + apply firstn_le_length.
    + intros r. rewrite Hp. intros (c & -> & Hc)%list_elem_of_fmap.
      destruct (elem_of_candidates _ _ _ _ _ _ Hc) as (Hin & (Hk & _ & Hst & _)%leasable_iff & _).
      pose proof (sound_status _ Hs c Hin) as Hc'. unfold status_sound in Hc'.
      split; [done|]. split; [destruct Hst as [E|[E _]]; rewrite E in Hc'; cbn; lia|].
      exists (lease_row now lease until c). split; [|apply same_work_refl].
      replace t' with (lease_outbox locked kind now batch lease until (table s)).2 by (by rewrite El).
      apply elem_of_update. exists c. split; [done|].
      rewrite bool_decide_eq_true_2; [done|]. by apply list_elem_of_fmap_2.
Qed.

Lemma query_complete l now d :
  hoare (λ s, holds l s ∧ logged (lease_acceptance l d) s)
    (query COMPLETE_OUTBOX_SQL [PgText (uuid_to_string (lease_outbox_id l));
       PgText (uuid_to_string (lease_id l)); PgI64 now; PgText d])
    (λ out s, out ≠ [] → finished Delivered (lease_outbox_id l) s).
Proof.
  apply hoare_query.
  - apply stable_and; [apply holds_stable|apply logged_stable].
  - intros out out' s s' HQ Hp Hss Hs Hne. eapply finished_stable; [by left|done..|].
    apply HQ. intros ->. by apply Permutation_nil_r in Hp.
  - intros locked out t2 s Hs [Hh Hl]. unfold exec. rewrite !uuid_parse_to_string. cbn [mbind option_bind].
    destruct (complete_outbox (lease_outbox_id l) (lease_id l) now d (table s)) as [changed t'] eqn:Ec.
    intros [= <- <-]. replace t' with (complete_outbox (lease_outbox_id l) (lease_id l) now d (table s)).2
      by (by rewrite Ec). split.
    + destruct s as [t log]. apply step_complete. intros r Hr Ho. exists (lease_acceptance l d).
      split; [by eapply (holds_owned l)|done].
    + intros Hne. replace changed with (complete_outbox (lease_outbox_id l) (lease_id l) now d (table s)).1
        in Hne by (by rewrite Ec). cbn in Hne.
      destruct (List.filter _ (rows (table s))) as [|r rs] eqn:Ef; [done|].
      assert (Hr : r ∈ List.filter (owned (lease_outbox_id l) (lease_id l)) (rows (table s)))
        by (rewrite Ef; by left).
      apply elem_of_filterb in Hr as [Hr Ho]. exists (complete_row now d r).
      split; [apply elem_of_update; exists r; by rewrite Ho|]. by apply owned_iff in Ho as [? _].
Qed.

(** What the answer of a retry tells. *)
Definition retry_answer (id : Uuid) (out : list PgRow) (s : System) : Prop :=
  ∀ row, row ∈ out → ∃ st, row = outcome_columns (status_text st)
    ∧ (st = DeadLetter → finished DeadLetter id s).

Lemma query_retry l now available error :
  hoare (λ _, True)
    (query RETRY_OUTBOX_SQL [PgText (uuid_to_string (lease_outbox_id l));
       PgText (uuid_to_string (lease_id l)); PgI64 now; PgI64 available; PgText error;
       PgI64 (u64_to_i64 MAX_ATTEMPTS)])
    (retry_answer (lease_outbox_id l)).
Proof.
  apply hoare_query; [done|..].
  - intros out out' s s' HQ Hp Hss Hs row. rewrite Hp. intros (st & -> & Hst)%HQ.
    exists st. split; [done|]. intros E. eapply finished_stable; [by right|done..|auto].
  - intros locked out t2 s Hs _. unfold exec. rewrite !uuid_parse_to_string. cbn [mbind option_bind].
    rewrite u64_to_i64_small by (unfold MAX_ATTEMPTS, i64_max; lia).
    destruct (retry_outbox (lease_outbox_id l) (lease_id l) now available error MAX_ATTEMPTS (table s))
      as [changed t'] eqn:Ec.
    intros [= <- <-]. replace t' with
      (retry_outbox (lease_outbox_id l) (lease_id l) now available error MAX_ATTEMPTS (table s)).2
      by (by rewrite Ec). split; [destruct s; apply step_retry|].
    replace changed with (retry_outbox (lease_outbox_id l) (lease_id l) now available error MAX_ATTEMPTS (table s)).1
      by (by rewrite Ec).
    intros row (r' & -> & Hr')%list_elem_of_fmap. exists (row_status r'). split; [done|]. intros E.
    apply list_elem_of_fmap in Hr' as (r & -> & [Hr Ho]%elem_of_filterb).
    exists (retry_row now available error MAX_ATTEMPTS r).
    split; [apply elem_of_update; exists r; by rewrite Ho|]. by apply owned_iff in Ho as [? _].
Qed.

(** Acceptances of held leases are steps. *)
Lemma accept_steps ls d s :
  (∀ l, l ∈ ls → holds l s) →
  rtc step s (mk_system (table s) (accepted s ++ map (λ l, lease_acceptance l d) ls)).
Proof.
  destruct s as [t log]. cbn [table accepted]. revert log.
  induction ls as [|l ls IH]; intros log Hh; [rewrite app_nil_r; constructor|].
  destruct (Hh l ltac:(by left)) as (r & Hr & _ & Hatt & Hacc). cbn [table] in Hr.
  eapply rtc_l; [by apply (step_accept r d (lease_acceptance l d))|].
  replace (log ++ map (λ l, lease_acceptance l d) (l :: ls))
    with ((log ++ [lease_acceptance l d]) ++ map (λ l, lease_acceptance l d) ls)
    by (by rewrite <- app_assoc).
  apply IH.
  intros l' Hl'. destruct (Hh l' ltac:(by right)) as (r' & ?). by exists r'.
Qed.

Lemma send_hoare l m :
  mail_correlation_id m = lease_deduplication_key l → lease_relationship l = None →
  hoare (holds l) (send m) (λ d, logged (lease_acceptance l d)).
Proof.
  intros Hc Hr w r w' Hs Hh E.
  destruct (send_accepts _ _ _ _ E) as (s1 & Hk1 & [(d & Hd & Hk2)|[Hk2 Hne]]).
  - assert (Hstep : rtc step s1 (mk_system (table s1) (accepted s1 ++ [AcceptedMail (mail_correlation_id m) d]))).
    { pose proof (accept_steps [l] d s1) as Ha. cbn [map] in Ha. unfold lease_acceptance in Ha.
      rewrite Hr in Ha. rewrite Hc. apply Ha. intros l' ->%list_elem_of_singleton. by eapply holds_stable. }
    split; [etrans; [exact Hk1|]; etrans; [exact Hstep|exact Hk2]|].
    intros d' Hd'. rewrite (Hd d' Hd'). eapply steps_log; [exact Hk2|]. cbn. apply elem_of_app. right.
    unfold lease_acceptance. rewrite Hr, <- Hc. by left.
  - split; [by etrans|]. intros d Hd. by destruct (Hne d).
Qed.

Lemma write_hoare (valid : list (OutboxLease * RelationshipOutboxIntent)) :
  (∀ v, v ∈ valid → lease_relationship v.1 = Some v.2) →
  hoare (λ s, ∀ v, v ∈ valid → holds v.1 s) (write (map snd valid))
    (λ d s, ∀ v, v ∈ valid → logged (lease_acceptance v.1 d) s).
Proof.
  intros Hv w r w' Hs Hh E.
  assert (Hm : ∀ d, map (λ i, AcceptedRelationship i d) (map snd valid)
                    = map (λ l, lease_acceptance l d) (map fst valid)).
  { intros d. rewrite !map_map. apply map_ext_in. intros v Hin%list_elem_of_In.
    unfold lease_acceptance. by rewrite (Hv v Hin). }
  destruct (write_accepts _ _ _ _ E) as (s1 & Hk1 & [(d & Hd & Hk2)|[Hk2 Hne]]).
  - rewrite Hm in Hk2.
    assert (Hstep : rtc step s1 (mk_system (table s1) (accepted s1 ++ map (λ l, lease_acceptance l d) (map fst valid)))).
    { apply accept_steps. intros l (v & -> & Hin)%list_elem_of_fmap. eapply holds_stable; eauto. }
    split; [etrans; [exact Hk1|]; etrans; [exact Hstep|exact Hk2]|].
    intros d' Hd' v Hin. rewrite (Hd d' Hd'). eapply steps_log; [exact Hk2|]. cbn. apply elem_of_app. right.
    rewrite map_map. apply list_elem_of_fmap. eauto.
  - split; [by etrans|]. intros d Hd. by destruct (Hne d).
Qed.

(** *** A pass *)

(** The leases of one batch: distinct rows, each held. *)
Definition leases_ok (p : OutboxLease → Prop) (limit : nat) (ls : list OutboxLease) (s : System) : Prop :=
  NoDup (map lease_outbox_id ls) ∧ (length ls ≤ limit)%nat ∧ ∀ l, l ∈ ls → holds l s ∧ p l.

Lemma decoded_leases_ok {E} (decode : PgRow → result E OutboxLease) p kind limit out ls s :
  (∀ r l, row_kind r = kind → decode (lease_columns r) = Ok l →
    lease_outbox_id l = outbox_id r ∧ p l ∧ ∀ d, acceptance r d = Some (lease_acceptance l d)) →
  taken_rows kind limit out s → collect_map decode out = Ok ls → leases_ok p limit ls s.
Proof.
  intros Hdec (taken & -> & Hnd & Hlen & Hall) Hc%collect_map_Ok.
  rewrite Forall2_fmap_l in Hc.
  assert (Hids : map lease_outbox_id ls = map outbox_id taken).
  { clear Hnd Hlen. induction Hc as [|r l taken ls Hr _ IH]; [done|]. cbn. f_equal.
    - apply (Hdec r l); [|done]. by apply Hall; left.
    - apply IH. intros r' Hr'. apply Hall. by right. }
  split; [by rewrite Hids|]. split; [by rewrite <- (Forall2_length _ _ _ Hc)|].
  intros l Hl. apply list_elem_of_lookup_1 in Hl as (i & Hi).
  destruct (Forall2_lookup_r _ _ _ _ _ Hc Hi) as (r & Hri & Hd).
  destruct (Hall r) as (Hk & Hatt & r' & Hr' & (E1 & E2 & E3 & E4)); [by eapply list_elem_of_lookup_2|].
  destruct (Hdec r l Hk Hd) as (Hid & Hp & Hacc). split; [|done].
  exists r'. split; [done|]. split; [congruence|]. split; [lia|].
  intros d. rewrite <- Hacc. by apply same_work_acceptance.
Qed.

(** The counts of a report are about the rows [all] of the batch: each of them
    is delivered, dead, to be tried again or still to do. *)
Definition progress (all : list Uuid) (report : DispatchReport) (todo : list OutboxLease) (s : System) : Prop :=
  report_leased report = length all ∧
  ∃ done dead again, done ++ dead ++ again ++ map lease_outbox_id todo ≡ₚ all
    ∧ length done = report_delivered report ∧ length dead = report_dead_lettered report
    ∧ length again = report_retried report
    ∧ (∀ id, id ∈ done → finished Delivered id s)
    ∧ (∀ id, id ∈ dead → finished DeadLetter id s).

Lemma progress_stable all report todo : stable (progress all report todo).
Proof.
  intros s s' Hss Hs (Hlim & done & dead & again & Hp & Hk1 & Hk2 & Hk3 & Hdone & Hdead). split; [done|]. exists done, dead, again.
  do 4 (split; [done|]). split; intros id Hid.
  - eapply finished_stable; eauto.
  - eapply finished_stable; eauto.
Qed.

Lemma progress_delivered all report l todo s :
  progress all report (l :: todo) s → finished Delivered (lease_outbox_id l) s →
  progress all (count_delivered report) todo s.
Proof.
  intros (Hlim & done & dead & again & Hp & Hk1 & Hk2 & Hk3 & Hdone & Hdead) Hf. split; [done|].
  exists (lease_outbox_id l :: done), dead, again. cbn. split; [|split_and!; try done; [lia|]].
  - rewrite <- Hp. cbn. solve_Permutation.
  - intros id [->|?]%elem_of_cons; auto.
Qed.
Lemma progress_failure all dead0 report l todo s :
  progress all report (l :: todo) s → (dead0 = true → finished DeadLetter (lease_outbox_id l) s) →
  progress all (count_failure dead0 report) todo s.
Proof.
  intros (Hlim & done & dead & again & Hp & Hk1 & Hk2 & Hk3 & Hdone & Hdead) Hf.
  split; [by destruct dead0|]. destruct dead0.
  - exists done, (lease_outbox_id l :: dead), again. cbn. split; [|split_and!; try done; [lia|]].
    + rewrite <- Hp. cbn. solve_Permutation.
    + intros id [->|?]%elem_of_cons; auto.
  - exists done, dead, (lease_outbox_id l :: again). cbn. split; [|split_and!; try done; lia].
    rewrite <- Hp. cbn. solve_Permutation.
Qed.

Lemma progress_start ls s : progress (map lease_outbox_id ls) (mk_report (length ls) 0 0 0) ls s.
Proof.
  split; [by rewrite length_map|]. exists [], [], []. cbn. split_and!; try done; intros id []%not_elem_of_nil.
Qed.

Lemma status_text_dead st : status_text st = lit "dead_letter" → st = DeadLetter.
Proof. by destruct st. Qed.
Lemma outcome_text o : required_text (outcome_columns o) (lit "outcome") = Ok o.
Proof. reflexivity. Qed.
End logic.

(** ** Reading a leased row back *)

Section columns.
Context `{UuidText} (r : OutboxRow).

Lemma column_id : required_text (lease_columns r) (lit "outbox_id") = Ok (uuid_to_string (outbox_id r)).
Proof. unfold lease_columns. by destruct (payload r). Qed.
Lemma column_kind : required_text (lease_columns r) (lit "kind") = Ok (kind_text (row_kind r)).
Proof. unfold lease_columns. by destruct (payload r). Qed.
Lemma column_key : required_text (lease_columns r) (lit "deduplication_key") = Ok (deduplication_key r).
Proof. unfold lease_columns. by destruct (payload r). Qed.
Lemma column_attempts : required_i64 (lease_columns r) (lit "attempt_count") = Ok (attempt_count r).
Proof. unfold lease_columns. by destruct (payload r). Qed.
Lemma column_relationship :
  required_text (lease_columns r) (lit "relationship_operation")
    = match payload r with
      | RelationshipPayload op _ _ => Ok (operation_text op)
      | _ => Err (Missing (lit "relationship_operation"))
      end
  ∧ required_i64 (lease_columns r) (lit "resource_revision")
    = match payload r with
      | RelationshipPayload _ _ v => Ok v
      | _ => Err (Missing (lit "resource_revision"))
      end
  ∧ ∀ op k v, payload r = RelationshipPayload op k v →
    required_text (lease_columns r) (lit "resource_type") = Ok (key_resource_type k)
    ∧ required_text (lease_columns r) (lit "resource_id") = Ok (key_resource_id k)
    ∧ required_text (lease_columns r) (lit "relation") = Ok (key_relation k)
    ∧ required_text (lease_columns r) (lit "subject_type") = Ok (key_subject_type k)
    ∧ required_text (lease_columns r) (lit "subject_id") = Ok (key_subject_id k).
Proof.
  unfold lease_columns. destruct (payload r); (split; [done|]; split; [done|]); intros op k v E; [done| |done].
  injection E as -> -> ->. by repeat split.
Qed.
End columns.

(** ** The mail worker refines the system *)

Section mail.
Context {W TE ME SE RE : Type} `{UuidText} `{OutboxWorld W TE ME SE RE} `{RelationshipWriter} `{!OutboxWorldLaws W TE ME SE RE}.
Context (open : str → list Z → option (list Z)).
Context (version_from_slice : list Z → option Z)
        (v1_from_slice : list Z → option MailWorker.MailPayloadV1)
        (v2_from_slice : list Z → option MailWorker.MailPayloadV2).
Context (public_base_url : str).
Abbreviation message := (MailWorker.message open version_from_slice v1_from_slice v2_from_slice public_base_url).
Abbreviation dispatch :=
  (MailWorker.dispatch open version_from_slice v1_from_slice v2_from_slice public_base_url).
Abbreviation dispatch_one :=
  (MailWorker.dispatch_one open version_from_slice v1_from_slice v2_from_slice public_base_url).

Lemma EmailMessage_new_id kind recipient subject text_body id m :
  EmailMessage_new kind recipient subject text_body id = Ok m → mail_correlation_id m = id.
Proof. unfold EmailMessage_new. rewrite !fail_Ok. by intros (_ & _ & [= <-]). Qed.
Lemma with_html_body_id m html_body m' :
  with_html_body m html_body = Ok m' → mail_correlation_id m' = mail_correlation_id m.
Proof. unfold with_html_body. rewrite fail_Ok. by intros (_ & [= <-]). Qed.

(** A message carries the deduplication key of its row, so a provider can
    recognise a repeated delivery. *)
Lemma message_correlation l m : message l = Ok m → mail_correlation_id m = lease_deduplication_key l.
Proof.
  unfold MailWorker.message, MailWorker.message_from_encrypted, MailWorker.message_from_v1, MailWorker.message_from_v2.
  rewrite rbind_Ok. intros (kv & _ & Hm). rewrite rbind_Ok in Hm. destruct Hm as (plain & _ & Hm).
  rewrite rbind_Ok in Hm. destruct Hm as (version & _ & Hm).
  destruct (version =? 1); [|destruct (version =? 2); [|done]].
  - rewrite rbind_Ok in Hm. destruct Hm as (p & _ & Hm). rewrite fail_Ok, rbind_Ok in Hm.
    destruct Hm as (_ & [[kind subject] path] & _ & Hm). ok_inv Hm. cbn. by eapply EmailMessage_new_id.
  - rewrite rbind_Ok in Hm. destruct Hm as (p & _ & Hm). rewrite fail_Ok, rbind_Ok in Hm.
    destruct Hm as (_ & kind & _ & Hm). ok_inv Hm. cbn. erewrite with_html_body_id by done.
    by eapply EmailMessage_new_id.
Qed.

Lemma decode_mail r l :
  row_kind r = KMail → MailWorker.decode_lease (E := TE) (lease_columns r) = Ok l →
  lease_outbox_id l = outbox_id r ∧ lease_relationship l = None
  ∧ ∀ d, acceptance r d = Some (lease_acceptance l d).
Proof.
  intros Hk. unfold MailWorker.decode_lease.
  rewrite column_kind, column_id, column_key, Hk. cbn [map_err rbind].
  rewrite uuid_parse_to_string. intros Hd. ok_inv Hd. cbn. do 2 (split; [done|]).
  intros d. unfold row_kind in Hk. unfold acceptance, lease_acceptance. by destruct (payload r).
Qed.

#[local] Set Default Proof Using "Type*".

Lemma lease_hoare batch now :
  (batch ≤ 100)%nat →
  hoare (λ _, True) (MailWorker.lease batch now) (leases_ok (λ l, lease_relationship l = None) batch).
Proof.
  intros Hb. eapply hoare_bind; [by apply hoare_call, (hoare_fill (λ _, True))|].
  intros random. eapply hoare_bind; [by apply hoare_call, (query_lease KMail)|].
  intros out. apply hoare_lift. intros ls s Hc Ht. eapply decoded_leases_ok; eauto. apply decode_mail.
Qed.

Lemma complete_hoare l d now :
  hoare (λ s, holds l s ∧ logged (lease_acceptance l d) s) (MailWorker.complete l d now)
    (λ _, finished Delivered (lease_outbox_id l)).
Proof.
  unfold MailWorker.complete. destruct (_ || _ : bool); [by apply hoare_lift|].
  eapply hoare_bind; [apply hoare_call, query_complete|]. intros out. apply hoare_lift.
  intros [] s Hout Hf. destruct out; [done|]. by apply Hf.
Qed.

Lemma retry_hoare l code now :
  hoare (λ _, True) (MailWorker.retry l code now)
    (λ dead s, dead = true → finished DeadLetter (lease_outbox_id l) s).
Proof.
  unfold MailWorker.retry. eapply hoare_bind; [apply hoare_call, query_retry|].
  intros out. apply hoare_lift. intros dead s Hout Hr ->. destruct out as [|row out]; [done|].
  destruct (Hr row ltac:(by left)) as (st & -> & Hst). rewrite outcome_text in Hout.
  repeat case_bool_decide; try done. by apply Hst, status_text_dead.
Qed.

(** The invariant of the loop: progress, with the remaining leases held. *)
Definition mail_loop (batch : list Uuid) (report : DispatchReport) (todo : list OutboxLease) (s : System) : Prop :=
  progress batch report todo s ∧ ∀ l, l ∈ todo → holds l s ∧ lease_relationship l = None.
Lemma mail_loop_stable batch report todo : stable (mail_loop batch report todo).
Proof.
  intros s s' Hss Hs [Hp Hl]. split; [by eapply progress_stable|].
  intros l Hin. destruct (Hl l Hin). split; [by eapply holds_stable|done].
Qed.

Lemma mail_failure_hoare batch report l todo code now :
  hoare (mail_loop batch report (l :: todo))
    (do! dead := MailWorker.retry l code now in io_lift (Ok (count_failure dead report)))
    (λ report', mail_loop batch report' todo).
Proof.
  eapply hoare_bind; [eapply hoare_keep; [apply mail_loop_stable| |apply retry_hoare]; done|].
  intros dead. apply hoare_lift. intros report' s [= <-] [Hf [Hp Hl]].
  split; [by eapply progress_failure|]. intros x Hx. apply Hl. by right.
Qed.

Lemma dispatch_one_hoare batch now report l todo :
  hoare (mail_loop batch report (l :: todo)) (dispatch_one now report l)
    (λ report', mail_loop batch report' todo).
Proof.
  unfold MailWorker.dispatch_one. destruct (message l) as [m|] eqn:Em; [|apply mail_failure_hoare].
  apply message_correlation in Em.
  apply hoare_pure with (lease_relationship l = None); [intros s [_ Hl]; by apply Hl; left|]. intros Hrel.
  eapply hoare_bind.
  { eapply hoare_keep; [apply mail_loop_stable| |by apply hoare_attempt, (send_hoare l)].
    intros s [_ Hl]. by apply Hl; left. }
  intros [d|e]; [|eapply hoare_weaken; [| |apply mail_failure_hoare]; [by intros s [_ ?]|done]].
  eapply hoare_bind.
  - apply (hoare_keep (λ s, holds l s ∧ logged (lease_acceptance l d) s)).
    + apply stable_and; [|apply mail_loop_stable]. intros s s' Hss Hs Hlog a Ha. eapply logged_stable; eauto.
    + intros s [Hlog [_ Hl]]. split; [by apply Hl; left|by apply Hlog].
    + apply complete_hoare.
  - intros []. apply hoare_lift. intros report' s [= <-] [Hf [_ [Hp Hl]]].
    split; [by eapply progress_delivered|]. intros x Hx. apply Hl. by right.
Qed.

(** A pass of the mail worker is a run of the system.  Whatever other
    workers and requests do meanwhile and wherever a call fails, the pass only
    takes steps of the outbox, so every invariant of the queue holds
    throughout; in particular it marks a row delivered only after the provider
    accepted that row's message.  When it reports success, it leased at most
    the requested number of rows, each is counted exactly once, and the
    delivered and dead-lettered counts are about distinct rows that have those
    statuses in the final table. *)
Theorem mail_dispatch_refines batch w r w' :
  reachable (view w) → dispatch batch w = (r, w') →
  rtc step (view w) (view w')
  ∧ ∀ report, r = Ok report →
      (report_leased report ≤ batch ≤ 25)%nat
      ∧ report_leased report
        = (report_delivered report + report_retried report + report_dead_lettered report)%nat
      ∧ ∃ done dead, NoDup (done ++ dead)
          ∧ length done = report_delivered report ∧ length dead = report_dead_lettered report
          ∧ (∀ id, id ∈ done → finished Delivered id (view w'))
          ∧ (∀ id, id ∈ dead → finished DeadLetter id (view w')).
Proof.
  intros Hs%reachable_sound. unfold MailWorker.dispatch.
  destruct (bool_decide (batch = 0%nat) || bool_decide (MailWorker.MAX_MAIL_BATCH < batch)%nat) eqn:Hb.
  { intros [= <- <-]. split; [constructor|done]. }
  apply orb_false_iff in Hb as [_ Hb%bool_decide_eq_false]. unfold MailWorker.MAX_MAIL_BATCH in Hb.
  set (now := u64_saturating_mul _ _). intros E.
  assert (Ht : hoare (λ _, True)
    (do! leases := MailWorker.lease batch now in
     io_fold (dispatch_one now) (mk_report (length leases) 0 0 0) leases)
    (λ report s, ∃ all, NoDup all ∧ (length all ≤ batch)%nat ∧ mail_loop all report [] s)).
  { eapply hoare_bind; [apply lease_hoare; lia|]. intros ls.
    apply hoare_pure with (NoDup (map lease_outbox_id ls) ∧ (length ls ≤ batch)%nat); [by intros s (? & ? & _)|].
    intros [Hnd Hlen].
    eapply hoare_weaken; [| |apply (hoare_fold (mail_loop (map lease_outbox_id ls))), dispatch_one_hoare].
    - intros s (_ & _ & Hall). split; [by apply progress_start|done].
    - intros report s Hloop. exists (map lease_outbox_id ls). by rewrite length_map. }
  destruct (Ht w r w' Hs I E) as [Hst HQ]. split; [done|]. intros report ->.
  destruct (HQ report eq_refl) as (all & Hnd & Hlen & (Hlim & done & dead & again & Hp & Hk1 & Hk2 & Hk3 & Hdone & Hdead) & _).
  cbn in Hp. rewrite app_nil_r in Hp. rewrite <- Hp in Hnd, Hlim. rewrite <- Hp in Hlen.
  rewrite !length_app in Hlim, Hlen. split; [lia|]. split; [lia|]. exists done, dead. split_and!; try done.
  rewrite app_assoc in Hnd. by apply NoDup_app in Hnd as [? _].
Qed.
End mail.

(** ** The relationship worker refines the system *)

Section relationships.
Context {W TE ME SE RE : Type} `{UuidText} `{OutboxWorld W TE ME SE RE} `{RelationshipWriter} `{!OutboxWorldLaws W TE ME SE RE}.
Import RelationshipWorker.

Lemma decode_relationship r l :
  row_kind r = KRelationship → decode_relationship_lease (E := TE) (lease_columns r) = Ok l →
  lease_outbox_id l = outbox_id r ∧ is_Some (lease_relationship l)
  ∧ ∀ d, acceptance r d = Some (lease_acceptance l d).
Proof.
  intros Hk. unfold decode_relationship_lease. destruct (column_relationship r) as (Hop & Hrev & Hcols).
  rewrite column_kind, column_id, column_key, Hk, Hop, Hrev. cbn [map_err rbind].
  rewrite uuid_parse_to_string. rewrite bool_decide_eq_true_2 by done. cbn [negb].
  unfold row_kind in Hk. destruct (payload r) as [| op k v |] eqn:Ep; [done| |done].
  destruct (Hcols op k v eq_refl) as (-> & -> & -> & -> & ->). cbn [map_err rbind].
  replace (if bool_decide (operation_text op = lit "grant") then Ok Grant
           else if bool_decide (operation_text op = lit "revoke") then Ok Revoke else Err InvalidRow)
    with (Ok (E := RelationshipOutboxError TE) op) by (by destruct op).
  cbn [rbind]. unfold u64_try_from at 1. destruct (0 <=? v); [|done]. cbn [ok_or rbind].
  intros Hd. ok_inv Hd. cbn. split; [done|]. split; [by eexists|]. intros d.
  unfold acceptance, lease_acceptance. by rewrite Ep.
Qed.

#[local] Set Default Proof Using "Type*".

Lemma lease_relationships_hoare batch now :
  (batch ≤ 100)%nat →
  hoare (λ _, True) (lease_relationships batch now) (leases_ok (λ l, is_Some (lease_relationship l)) batch).
Proof.
  intros Hb. eapply hoare_bind; [by apply hoare_call, (hoare_fill (λ _, True))|].
  intros random. eapply hoare_bind; [by apply hoare_call, (query_lease KRelationship)|].
  intros out. apply hoare_lift. intros ls s Hc Ht. eapply decoded_leases_ok; eauto. apply decode_relationship.
Qed.

Lemma complete_relationship_hoare l d now :
  hoare (λ s, holds l s ∧ logged (lease_acceptance l d) s) (complete_relationship l d now)
    (λ _, finished Delivered (lease_outbox_id l)).
Proof.
  unfold complete_relationship. destruct (_ || _ : bool); [by apply hoare_lift|].
  eapply hoare_bind; [apply hoare_call, query_complete|]. intros out. apply hoare_lift.
  intros [] s Hout Hf. destruct out; [done|]. by apply Hf.
Qed.

Lemma retry_relationship_hoare l code now :
  hoare (λ _, True) (retry_relationship l code now)
    (λ dead s, dead = true → finished DeadLetter (lease_outbox_id l) s).
Proof.
  unfold retry_relationship. eapply hoare_bind; [apply hoare_call, query_retry|].
  intros out. apply hoare_lift. intros dead s Hout Hr ->. destruct out as [|row out]; [done|].
  destruct (Hr row ltac:(by left)) as (st & -> & Hst). rewrite outcome_text in Hout.
  repeat case_bool_decide; try done. by apply Hst, status_text_dead.
Qed.

Abbreviation Pair := (OutboxLease * RelationshipOutboxIntent)%type.

(** The invariant of the loops: progress on the remaining pairs, each held and
    satisfying [P]. *)
Definition pair_loop (P : Pair → System → Prop) (batch : list Uuid) (report : DispatchReport)
    (todo : list Pair) (s : System) : Prop :=
  progress batch report (map fst todo) s
  ∧ ∀ v, v ∈ todo → holds v.1 s ∧ lease_relationship v.1 = Some v.2 ∧ P v s.
Lemma pair_loop_stable P batch report todo :
  (∀ v, stable (P v)) → stable (pair_loop P batch report todo).
Proof.
  intros HP s s' Hss Hs [Hp Hl]. split; [by eapply progress_stable|].
  intros v Hv. destruct (Hl v Hv) as (? & ? & ?). split; [by eapply holds_stable|]. split; [done|by eapply HP].
Qed.

(** Every decoded lease has a typed intent, so the first loop keeps them all. *)
Lemma sort_out_all now report (valid : list Pair) ls w :
  (∀ l, l ∈ ls → is_Some (lease_relationship l)) →
  ∃ more, io_fold (sort_out now) (report, valid) ls w = (Ok (report, valid ++ more), w)
    ∧ map fst more = ls ∧ ∀ v, v ∈ more → lease_relationship v.1 = Some v.2.
Proof.
  revert valid. induction ls as [|l ls IH]; intros valid Hl.
  - exists []. rewrite app_nil_r. repeat split. intros v []%not_elem_of_nil.
  - destruct (Hl l ltac:(by left)) as [i Hi].
    destruct (IH (valid ++ [(l, i)])) as (more & Hf & Hm & Hr); [intros x Hx; apply Hl; by right|].
    exists ((l, i) :: more). split; [|split].
    + assert (Hk1 : sort_out (TE := TE) now (report, valid) l w = (Ok (report, valid ++ [(l, i)]), w))
        by (unfold sort_out, relationship; by rewrite Hi).
      change (io_bind (sort_out now (report, valid) l) (λ acc, io_fold (sort_out now) acc ls) w
              = (Ok (report, valid ++ (l, i) :: more), w)).
      unfold io_bind. rewrite Hk1, Hf, <- app_assoc. done.
    + cbn. by rewrite Hm.
    + intros v [->|Hv]%elem_of_cons; auto.
Qed.

Lemma complete_one_hoare token now batch report v todo :
  hoare (pair_loop (λ v, logged (lease_acceptance v.1 token)) batch report (v :: todo))
    (complete_one token now report v)
    (λ report', pair_loop (λ v, logged (lease_acceptance v.1 token)) batch report' todo).
Proof.
  eapply hoare_bind.
  - eapply hoare_keep; [by apply pair_loop_stable; intros; apply logged_stable| |apply complete_relationship_hoare].
    intros s [_ Hl]. destruct (Hl v ltac:(by left)) as (? & _ & ?). by split.
  - intros []. apply hoare_lift. intros report' s [= <-] [Hf [Hp Hl]].
    split; [by eapply progress_delivered|]. intros x Hx. apply Hl. by right.
Qed.

Lemma retry_one_hoare now batch report v todo :
  hoare (pair_loop (λ _ _, True) batch report (v :: todo)) (retry_one now report v)
    (λ report', pair_loop (λ _ _, True) batch report' todo).
Proof.
  eapply hoare_bind.
  - eapply hoare_keep; [by apply pair_loop_stable| |apply retry_relationship_hoare]. done.
  - intros dead. apply hoare_lift. intros report' s [= <-] [Hf [Hp Hl]].
    split; [by eapply progress_failure|]. intros x Hx. apply Hl. by right.
Qed.

(** The provider call and the acknowledgements that follow it. *)
Lemma settle_hoare now batch report (valid : list Pair) :
  (∀ v, v ∈ valid → lease_relationship v.1 = Some v.2) →
  hoare (pair_loop (λ _ _, True) batch report valid)
    (do! receipt := io_attempt (write (map snd valid)) in
     match receipt with
     | Ok token => io_fold (complete_one token now) report valid
     | Err _ => io_fold (retry_one now) report valid
     end)
    (λ report', progress batch report' []).
Proof.
  intros Hv. eapply hoare_bind.
  { eapply hoare_keep; [by apply pair_loop_stable| |by apply hoare_attempt, write_hoare].
    intros s [_ Hl] v Hin. by apply Hl. }
  intros [token|e].
  - eapply hoare_weaken; [| |apply (hoare_fold (pair_loop (λ v, logged (lease_acceptance v.1 token)) batch)),
      complete_one_hoare].
    + intros s [Hlog [Hp Hl]]. split; [done|]. intros v Hin. destruct (Hl v Hin) as (? & ? & _).
      split; [done|]. split; [done|]. by apply (Hlog token).
    + by intros report' s [? _].
  - eapply hoare_weaken; [| |apply (hoare_fold (pair_loop (λ _ _, True) batch)), retry_one_hoare].
    + by intros s [_ ?].
    + by intros report' s [? _].
Qed.

(** The rest of a pass, after the lease. *)
Lemma dispatch_leased_hoare now ls :
  (∀ l, l ∈ ls → is_Some (lease_relationship l)) →
  hoare (λ s, ∀ l, l ∈ ls → holds l s)
    (do! (report, valid) := io_fold (sort_out now) (mk_report (length ls) 0 0 0, []) ls in
     match valid with
     | [] => io_lift (Ok report)
     | _ :: _ =>
         do! receipt := io_attempt (write (map snd valid)) in
         match receipt with
         | Ok token => io_fold (complete_one token now) report valid
         | Err _ => io_fold (retry_one now) report valid
         end
     end) (λ report, progress (map lease_outbox_id ls) report []).
Proof.
  intros Hsome w r w' Hs Hall. unfold io_bind at 1.
  destruct (sort_out_all now (mk_report (length ls) 0 0 0) [] ls w Hsome) as (valid & -> & Hm & Hv).
  cbn [app]. assert (HI : pair_loop (λ _ _, True) (map lease_outbox_id ls) (mk_report (length ls) 0 0 0) valid (view w)).
  { split; [rewrite Hm; by apply progress_start|]. intros v Hin.
    split; [apply Hall; rewrite <- Hm; by apply list_elem_of_fmap_2|]. auto. }
  destruct valid as [|v valid]; [|by apply settle_hoare].
  intros [= <- <-]. split; [constructor|]. intros report [= <-]. apply HI.
Qed.

Lemma decode_relationship_id r l :
  decode_relationship_lease (E := TE) (lease_columns r) = Ok l → lease_outbox_id l = outbox_id r.
Proof using H.
  destruct (row_kind r) eqn:Hk; [|by intros [? _]%decode_relationship].
  unfold decode_relationship_lease. rewrite column_kind, Hk. done.
Qed.
(** The rows of the lease statement are the leases of the pass. *)
Lemma lease_relationships_took batch now w ls w1 :
  (batch ≤ 100)%nat → lease_relationships batch now w = (Ok ls, w1) →
  ∃ s1 locked lease taken t2, rtc step (view w) s1
    ∧ lease_outbox locked KRelationship (u64_to_i64 now) batch lease (u64_to_i64 (u64_saturating_add now 30000)) (table s1)
      = (taken, t2)
    ∧ rtc step (mk_system t2 (accepted s1)) (view w1) ∧ map lease_outbox_id ls ≡ₚ map outbox_id taken.
Proof.
  intros Hb (random & w0 & Hf%io_call_Ok%fill_bytes_steps & E)%io_bind_Ok.
  apply io_bind_Ok in E as (out & w2 & Hq%io_call_Ok & [Hc%collect_map_Ok ->]%io_lift_Ok).
  destruct (query_executes _ _ _ _ _ Hq) as (s1 & Hk1 & [(locked & out0 & t2 & He & Hk2 & Hout)|[_ Hne]]);
    [|by destruct (Hne out)].
  specialize (Hout out eq_refl). unfold exec in He. rewrite uuid_parse_to_string in He. cbn [mbind option_bind] in He.
  rewrite batch_limit_nat in He by done. rewrite (proj2 (Z.ltb_ge _ _)), Nat2Z.id in He by lia.
  change (kind_of_text (lit "relationship")) with (Some KRelationship) in He.
  cbv iota in He.
  destruct (lease_outbox locked KRelationship _ _ _ _ _) as [taken t'] eqn:El in He. injection He as <- <-.
  eexists s1, locked, _, taken, t'. split_and!; [by etrans|exact El|done|].
  apply Permutation_map_inv in Hout as (taken' & -> & Hp). rewrite Hp. clear -Hc.
  rewrite Forall2_fmap_l in Hc. induction Hc as [|r l rs ls Hr%decode_relationship_id _ IH]; [done|]. cbn. by rewrite Hr, IH.
Qed.

(** A delivered row carries a token under which the provider accepted it. *)
Lemma finished_accepted id s :
  sound s → finished Delivered id s →
  ∃ r token a, r ∈ rows (table s) ∧ outbox_id r = id ∧ row_status r = Delivered
    ∧ delivery_id r = Some token ∧ acceptance r token = Some a ∧ a ∈ accepted s.
Proof using.
  intros Hs (r & Hr & Hid & Hst). pose proof (sound_status _ Hs r Hr) as Hrow. unfold status_sound in Hrow.
  rewrite Hst in Hrow. destruct Hrow as (_ & _ & _ & _ & token & Ht & a & Ha & Hin). by exists r, token, a.
Qed.

End relationships.

(** ** The consistency query *)

Section consistency.
Context {W TE ME SE RE : Type} `{UuidText} `{OutboxWorld W TE ME SE RE} `{RelationshipWriter} `{!OutboxWorldLaws W TE ME SE RE}.

Lemma decode_consistency_columns {E} unsettled token revision c :
  decode_consistency (E := E)
    [PgRow_new [(lit "has_unsettled", PgBool unsettled); (lit "consistency_token", pg_text token);
                (lit "resource_revision", pg_i64 revision)]] = Ok c →
  (has_unsettled c, consistency_token c, consistency_revision c) = (unsettled, token, revision).
Proof.
  unfold decode_consistency. cbn [head ok_or rbind].
  assert (Hk1 : ∀ r, r = PgRow_new [(lit "has_unsettled", PgBool unsettled); (lit "consistency_token", pg_text token);
                (lit "resource_revision", pg_i64 revision)] →
    row_bool r (lit "has_unsettled") = Ok (Some unsettled)
    ∧ row_text r (lit "consistency_token") = Ok token
    ∧ row_i64 r (lit "resource_revision") = Ok revision).
  { intros r ->. by destruct token, revision. }
  destruct (Hk1 _ eq_refl) as (-> & -> & ->). cbn [map_err rbind ok_or].
  destruct (match token with Some t => _ | None => false end); [done|].
  destruct revision as [v|]; [|by intros [= <-]].
  unfold u64_try_from. destruct (0 <=? v); [|done]. by intros [= <-].
Qed.

(** The synchronization state a caller must deny on is honest.  When
    [load_relationship_consistency] answers, its answer is true of a moment
    during the call: if it says settled, every relationship change of exactly
    that resource had been accepted by the provider and acknowledged, and the
    revision is the largest, with the token the provider gave for a change of
    that revision; if it says unsettled, some change of that resource was
    undelivered, dead letters included. *)
Theorem relationship_consistency_honest resource_type resource_id w c w' :
  reachable (view w) →
  load_relationship_consistency resource_type resource_id w = (Ok c, w') →
  ∃ s, rtc step (view w) s ∧ rtc step s (view w')
    ∧ consistency_answer resource_type resource_id s
        (has_unsettled c, consistency_token c, consistency_revision c).
Proof using Type*.
  intros Hs%reachable_sound. unfold load_relationship_consistency.
  destruct (_ || _ : bool); [by intros [=]|]. unfold io_bind, io_call.
  destruct (query _ _ w) as [r w1] eqn:E. destruct r as [out|e]; [|by intros [=]]. cbn [map_err].
  unfold io_lift. intros [= Hd <-].
  destruct (query_executes _ _ _ _ _ E) as (s1 & Hk1 & [(locked & out0 & t2 & He & Hk2 & Hout)|[_ Hne]]);
    [|by destruct (Hne out)].
  pose proof (select_consistency_exact s1 resource_type resource_id (steps_sound _ _ Hk1 Hs)) as Ha.
  specialize (Hout out eq_refl). cbn [exec] in He.
  destruct (select_consistency resource_type resource_id (table s1)) as [[u t] v].
  injection He as <- <-. apply Permutation_singleton_r in Hout as ->.
  rewrite (decode_consistency_columns _ _ _ _ Hd). exists s1. split; [done|]. split; [|done].
  by destruct s1.
Qed.
End consistency.

(** ** A sequential world and its runs *)

Module OutboxWorkerExample.
#[local] Instance plain_uuid : UuidText :=
  {| uuid_to_string := λ u, u; uuid_parse_str := Some; uuid_parse_to_string := λ u, eq_refl |}.

(** One worker, alone with the table; the providers accept everything. *)
#[local] Instance alone : OutboxWorld System unit unit unit unit := {|
  view := λ s, s;
  now_unix_seconds := λ _, 100;
  fill_bytes := λ n s, (Ok (replicate n 7), s);
  query := λ sql ps s,
    match exec [] sql ps (table s) with
    | Some (out, t) => (Ok out, mk_system t (accepted s))
    | None => (Err tt, s)
    end;
  send := λ m s,
    (Ok (lit "mail-1"), mk_system (table s) (accepted s ++ [AcceptedMail (mail_correlation_id m) (lit "mail-1")]));
  spicedb_send := λ intents _ s,
    (Ok (mk_http_response 200 (Some (lit "application/json")) (lit "zed-1")),
     mk_system (table s) (accepted s ++ map (λ i, AcceptedRelationship i (lit "zed-1")) intents));
|}.
#[local] Instance spicedb_writer : RelationshipWriter := {|
  writer_endpoint := lit "https://spicedb.example/v1/relationships/write"; writer_token := lit "secret";
  writer_builds := λ _, true; write_to_vec := λ _, Some [1]; write_from_slice := λ b, Some (Some b);
|}.
#[local] Instance alone_laws : OutboxWorldLaws System unit unit unit unit.
Proof.
  split; cbn.
  - by intros n w r w' [= <- <-].
  - intros sql ps w r w' E. exists w. split; [done|].
    destruct (exec [] sql ps (table w)) as [[out t]|] eqn:Ex; injection E as <- <-; [left|by right].
    exists [], out, t. split; [done|]. split; [done|]. by intros out' [= <-].
  - intros m w r w' [= <- <-]. exists w. split; [done|]. left. exists (lit "mail-1").
    split; [by intros d' [= <-]|done].
  - intros intents updates outbound w r w' [= <- <-] _ _. exists w. split; [done|]. left. exists (lit "zed-1").
    split; [|done]. by intros response d' [= <-] _ [= <-].
Qed.

Definition payload_v2 : MailWorker.MailPayloadV2 :=
  MailWorker.mk_v2 2 (lit "password_reset") (lit "alice@example.com") (lit "Reset") (lit "Hi")
    (lit "<p>Hi</p>") (lit "https://app.example.com/reset-password?token=t").
Definition mail_dispatch : nat → io System (MailWorker.MailOutboxError unit) DispatchReport :=
  MailWorker.dispatch (λ _ c, Some c) (λ _, Some 2) (λ _, None) (λ _, Some payload_v2) (lit "https://app.example.com").

Definition mailed : System :=
  default OutboxExample.start ((λ t, mk_system t []) <$>
    enqueue_mail [3] (lit "mail:1") (lit "k1") [1; 2; 3] 0 (table OutboxExample.start)).
Lemma mailed_reachable : reachable mailed.
Proof.
  exists OutboxExample.start. split; [apply OutboxExample.start_migrated|].
  apply rtc_once. by eapply (step_mail [3] (lit "mail:1") (lit "k1") [1; 2; 3] 0 (table OutboxExample.start)).
Qed.

(** The queued mail is delivered by the next pass. *)
Lemma mail_dispatch_refines_witness :
  (mail_dispatch 5 mailed).1 = Ok (mk_report 1 1 0 0)
  ∧ rtc step mailed (mail_dispatch 5 mailed).2.
Proof.
  split; [vm_compute; reflexivity|].
  apply (mail_dispatch_refines (H := plain_uuid) (H0 := alone)
           (λ _ c, Some c) (λ _, Some 2) (λ _, None) (λ _, Some payload_v2)
           (lit "https://app.example.com") 5 mailed (mail_dispatch 5 mailed).1 (mail_dispatch 5 mailed).2
           mailed_reachable).
  vm_compute. reflexivity.
Defined.

Definition joining : list OutboxExample.Event :=
  [OutboxExample.EMembership (TgInsert (OutboxExample.alice true 0)) [1];
   OutboxExample.EMembership (TgInsert (OutboxExample.bob 0)) [2]].
Definition joined : System := default OutboxExample.start (OutboxExample.run OutboxExample.start joining).
Lemma joined_reachable : reachable joined.
Proof. apply (OutboxExample.run_reachable joining). vm_compute. reflexivity. Qed.


Definition overtaken_answer : RelationshipConsistency := mk_consistency false (Some (lit "zed-1")) (Some 6).
Lemma relationship_consistency_honest_witness :
  ∃ s, rtc step OutboxExample.overtaken_state s
    ∧ consistency_answer (lit "organization") (lit "org") s (false, Some (lit "zed-1"), Some 6).
Proof.
  destruct (relationship_consistency_honest (H := plain_uuid) (H0 := alone)
    (lit "organization") (lit "org") OutboxExample.overtaken_state
    overtaken_answer OutboxExample.overtaken_state OutboxExample.overtaken_reachable
    ltac:(vm_compute; reflexivity)) as (s & Hk1 & _ & Hk2).
  exists s. split; [exact Hk1|exact Hk2].
Defined.
End OutboxWorkerExample.
