(* ===== verification/KernelState.v ===== *)
(** * KernelState: the tables of the relational kernel

    Models the tables of migrations/postgres/0001 that the statements of
    [Kernel] read or write, keyed by their primary keys.  A column that no
    modelled statement reads ([updated_at_ms], display fields, the metadata of
    an audit record) is left out.  A [TEXT] column constrained to a few values
    is an enumeration with its text.  [auth_outbox] and the authorization
    revisions of the organizations are the record of [Outbox]. *)

From S2P Require Export Context Outbox.
From stdpp Require Export gmap.
Open Scope Z_scope.

Inductive DbUserStatus := UPending | UActive | UDisabled | UAnonymized.
#[export] Instance DbUserStatus_eq_dec : EqDecision DbUserStatus.
Proof. solve_decision. Defined.
Definition user_status_text (s : DbUserStatus) : str :=
  lit match s with
      | UPending => "pending_verification" | UActive => "active" | UDisabled => "disabled"
      | UAnonymized => "anonymized"
      end.

Inductive DbAssurance := DbAal1 | DbAal2 | DbAal3.
#[export] Instance DbAssurance_eq_dec : EqDecision DbAssurance.
Proof. solve_decision. Defined.
Definition assurance_text (a : DbAssurance) : str :=
  lit match a with DbAal1 => "aal1" | DbAal2 => "aal2" | DbAal3 => "aal3" end.

Inductive TokenPurpose := EmailVerificationToken | PasswordResetToken | InvitationToken.
#[export] Instance TokenPurpose_eq_dec : EqDecision TokenPurpose.
Proof. solve_decision. Defined.

Inductive SigningKeyStatus := KeyNext | KeyActive | KeyRetired | KeyRevoked.
#[export] Instance SigningKeyStatus_eq_dec : EqDecision SigningKeyStatus.
Proof. solve_decision. Defined.

Inductive DbMemberStatus := MActive | MSuspended | MBlocked | MRemoved.
#[export] Instance DbMemberStatus_eq_dec : EqDecision DbMemberStatus.
Proof. solve_decision. Defined.

Definition member_status_text (s : DbMemberStatus) : str :=
  lit match s with
      | MActive => "active" | MSuspended => "suspended" | MBlocked => "blocked" | MRemoved => "removed"
      end.

Inductive DbInvitationStatus := IPending | IAccepted | IRevoked | IExpired.
#[export] Instance DbInvitationStatus_eq_dec : EqDecision DbInvitationStatus.
Proof. solve_decision. Defined.
Definition invitation_status_text (s : DbInvitationStatus) : str :=
  lit match s with
      | IPending => "pending" | IAccepted => "accepted" | IRevoked => "revoked" | IExpired => "expired"
      end.

(** [auth_users] *)
Record UserRow := mk_user {
  u_normalized_email : str;
  u_primary_email : str;
  u_status : DbUserStatus;
  u_security_revision : Z;
  u_created_at_ms : Z;
}.
(** [auth_passwords] *)
Record PasswordRow := mk_password {
  pw_hash : str;
  pw_last_authenticated_at_ms : option Z;
  pw_revoked_at_ms : option Z;
}.
(** [auth_sessions] *)
Record SessionRow := mk_session {
  s_user : Uuid;
  s_organization : option Uuid;
  s_assurance : DbAssurance;
  s_revision : Z;
  s_user_security_revision : Z;
  s_expires_at_ms : Z;
  s_revoked_at_ms : option Z;
  s_created_at_ms : Z;
}.
(** [auth_refresh_tokens] *)
Record RefreshRow := mk_refresh {
  rt_session : Uuid;
  rt_family : Uuid;
  rt_successor_hash : option (list Z);
  rt_successor_key_version : option str;
  rt_successor_ciphertext : option (list Z);
  rt_replay_until_ms : option Z;
  rt_expires_at_ms : Z;
  rt_rotated_at_ms : option Z;
  rt_revoked_at_ms : option Z;
}.
(** [auth_one_time_tokens] *)
Record OneTimeRow := mk_one_time {
  ot_purpose : TokenPurpose;
  ot_user : option Uuid;
  ot_expires_at_ms : Z;
  ot_consumed_at_ms : option Z;
}.
(** [auth_idempotency]; the response is its [user_id] member, or its
    [organization_id] member for the creation of an organization. *)
Record IdempotencyRow := mk_idempotency {
  id_actor_key : str;
  id_operation : str;
  id_request_hash : list Z;
  id_response : option str;
}.
(** [auth_rate_limit_buckets] *)
Record BucketRow := mk_bucket { b_attempts : Z; b_window_expires_at_ms : Z }.
(** [auth_audit_log] *)
Record AuditRow := mk_audit_row {
  a_id : Uuid;
  a_organization : option Uuid;
  a_actor : option Uuid;
  a_session : option Uuid;
  a_action : str;
  a_resource : str * str;
  a_succeeded : bool;
  a_request_id : str;
  a_occurred_at_ms : Z;
}.
(** A record of an account, with a null [organization_id]. *)
Definition mk_audit (id : Uuid) (actor session : option Uuid) (action : str) (resource : str * str)
    (succeeded : bool) (request_id : str) (at_ms : Z) : AuditRow :=
  mk_audit_row id None actor session action resource succeeded request_id at_ms.

(** [auth_organizations]; its [authorization_revision] is in [Outbox]. *)
Record OrganizationRow := mk_org_row {
  o_name : str;
  o_slug : option str;
  o_active : bool;
  o_owner_count : Z;
  o_created_at_ms : Z;
}.
(** [auth_roles] *)
Record RoleRow := mk_role_row { r_name : str; r_built_in : bool }.
(** [auth_memberships] *)
Record MembershipRow := mk_member { m_role : str; m_status : DbMemberStatus; m_joined_at_ms : Z }.
(** [auth_invitations] *)
Record InvitationRow := mk_invitation_row {
  i_organization : Uuid;
  i_email : str;
  i_role : str;
  i_token_hash : list Z;
  i_status : DbInvitationStatus;
  i_expires_at_ms : Z;
  i_accepted_by : option Uuid;
  i_created_by : Uuid;
  i_created_at_ms : Z;
}.

(** Organizations, roles with their permissions, memberships, invitations,
    system administrators ([true] is not revoked), signing keys and the active
    policy bundle. *)
Record Directory := mk_directory {
  organizations : gmap Uuid OrganizationRow;
  org_roles : gmap (Uuid * str) RoleRow;
  memberships : gmap (Uuid * Uuid) MembershipRow;
  granted_permissions : gmap (Uuid * str) (gset str);
  invitations : gmap Uuid InvitationRow;
  administrators : gmap Uuid bool;
  signing_keys : gmap str SigningKeyStatus;
  active_policy : option str;
}.

Record Db := mk_db {
  users : gmap Uuid UserRow;
  passwords : gmap Uuid PasswordRow;
  sessions : gmap Uuid SessionRow;
  refresh_tokens : gmap (list Z) RefreshRow;
  one_time_tokens : gmap (list Z) OneTimeRow;
  idempotency : gmap str IdempotencyRow;
  buckets : gmap str BucketRow;
  directory : Directory;
  audit : list AuditRow;
  mail_outbox : Outbox;
}.

Definition set_users (f : gmap Uuid UserRow → gmap Uuid UserRow) (d : Db) : Db :=
  mk_db (f (users d)) (passwords d) (sessions d) (refresh_tokens d) (one_time_tokens d)
    (idempotency d) (buckets d) (directory d) (audit d) (mail_outbox d).
Definition set_passwords (f : gmap Uuid PasswordRow → gmap Uuid PasswordRow) (d : Db) : Db :=
  mk_db (users d) (f (passwords d)) (sessions d) (refresh_tokens d) (one_time_tokens d)
    (idempotency d) (buckets d) (directory d) (audit d) (mail_outbox d).
Definition set_sessions (f : gmap Uuid SessionRow → gmap Uuid SessionRow) (d : Db) : Db :=
  mk_db (users d) (passwords d) (f (sessions d)) (refresh_tokens d) (one_time_tokens d)
    (idempotency d) (buckets d) (directory d) (audit d) (mail_outbox d).
Definition set_refresh_tokens (f : gmap (list Z) RefreshRow → gmap (list Z) RefreshRow) (d : Db) : Db :=
  mk_db (users d) (passwords d) (sessions d) (f (refresh_tokens d)) (one_time_tokens d)
    (idempotency d) (buckets d) (directory d) (audit d) (mail_outbox d).
Definition set_one_time_tokens (f : gmap (list Z) OneTimeRow → gmap (list Z) OneTimeRow) (d : Db) : Db :=
  mk_db (users d) (passwords d) (sessions d) (refresh_tokens d) (f (one_time_tokens d))
    (idempotency d) (buckets d) (directory d) (audit d) (mail_outbox d).
Definition set_idempotency (f : gmap str IdempotencyRow → gmap str IdempotencyRow) (d : Db) : Db :=
  mk_db (users d) (passwords d) (sessions d) (refresh_tokens d) (one_time_tokens d)
    (f (idempotency d)) (buckets d) (directory d) (audit d) (mail_outbox d).
Definition set_buckets (f : gmap str BucketRow → gmap str BucketRow) (d : Db) : Db :=
  mk_db (users d) (passwords d) (sessions d) (refresh_tokens d) (one_time_tokens d)
    (idempotency d) (f (buckets d)) (directory d) (audit d) (mail_outbox d).
Definition set_directory (f : Directory → Directory) (d : Db) : Db :=
  mk_db (users d) (passwords d) (sessions d) (refresh_tokens d) (one_time_tokens d)
    (idempotency d) (buckets d) (f (directory d)) (audit d) (mail_outbox d).
Definition set_audit (f : list AuditRow → list AuditRow) (d : Db) : Db :=
  mk_db (users d) (passwords d) (sessions d) (refresh_tokens d) (one_time_tokens d)
    (idempotency d) (buckets d) (directory d) (f (audit d)) (mail_outbox d).
Definition set_mail_outbox (f : Outbox → Outbox) (d : Db) : Db :=
  mk_db (users d) (passwords d) (sessions d) (refresh_tokens d) (one_time_tokens d)
    (idempotency d) (buckets d) (directory d) (audit d) (f (mail_outbox d)).
Definition set_administrators (f : gmap Uuid bool → gmap Uuid bool) (d : Directory) : Directory :=
  mk_directory (organizations d) (org_roles d) (memberships d) (granted_permissions d) (invitations d)
    (f (administrators d)) (signing_keys d) (active_policy d).

(** ** Inserts: [None] is a unique violation, which aborts the statement *)

Definition insert_session (id : Uuid) (s : SessionRow) (d : Db) : option Db :=
  match sessions d !! id with
  | None => Some (set_sessions <[id := s]> d)
  | Some _ => None
  end.
Definition insert_refresh_token (hash : list Z) (r : RefreshRow) (d : Db) : option Db :=
  match refresh_tokens d !! hash with
  | None => Some (set_refresh_tokens <[hash := r]> d)
  | Some _ => None
  end.
Definition insert_one_time_token (hash : list Z) (r : OneTimeRow) (d : Db) : option Db :=
  match one_time_tokens d !! hash with
  | None => Some (set_one_time_tokens <[hash := r]> d)
  | Some _ => None
  end.
Definition insert_audit (r : AuditRow) (d : Db) : option Db :=
  if existsb (λ r', bool_decide (a_id r' = a_id r)) (audit d) then None
  else Some (set_audit (λ l, l ++ [r]) d).
Definition insert_mail (id : Uuid) (key key_version : str) (ciphertext : list Z) (at_ms : Z) (d : Db) :
    option Db :=
  t ← enqueue_mail id key key_version ciphertext at_ms (mail_outbox d);
  Some (set_mail_outbox (λ _, t) d).

(** A row of a session that is live for its user at [now]: the condition
    every statement puts on the session that acts. *)
Definition live_session (now : Z) (s : SessionRow) (u : UserRow) : bool :=
  bool_decide (s_revoked_at_ms s = None) && (now <? s_expires_at_ms s)
  && (s_user_security_revision s =? u_security_revision u) && bool_decide (u_status u = UActive).

(** Sets [revoked_at_ms] and counts a revision. *)
Definition revoke_session_row (now : Z) (s : SessionRow) : SessionRow :=
  mk_session (s_user s) (s_organization s) (s_assurance s) (s_revision s + 1)
    (s_user_security_revision s) (s_expires_at_ms s) (Some now) (s_created_at_ms s).
Definition revoke_refresh_row (now : Z) (r : RefreshRow) : RefreshRow :=
  mk_refresh (rt_session r) (rt_family r) (rt_successor_hash r) (rt_successor_key_version r)
    (rt_successor_ciphertext r) (rt_replay_until_ms r) (rt_expires_at_ms r) (rt_rotated_at_ms r)
    (Some now).
(** [UPDATE .. SET .. WHERE p] *)
Definition update_rows `{Countable K} {V} (p : K → V → bool) (f : V → V) (m : gmap K V) : gmap K V :=
  map_imap (λ k v, Some (if p k v then f v else v)) m.

Definition consume_row (now : Z) (t : OneTimeRow) : OneTimeRow :=
  mk_one_time (ot_purpose t) (ot_user t) (ot_expires_at_ms t) (Some now).

(** ** Lemmas *)

Lemma lookup_update_rows `{Countable K} {V} p f (m : gmap K V) k :
  update_rows p f m !! k = (λ v, if p k v then f v else v) <$> (m !! k).
Proof. unfold update_rows. rewrite map_lookup_imap. by destruct (m !! k). Qed.

Lemma live_session_spec now s u :
  live_session now s u = true ↔
  s_revoked_at_ms s = None ∧ now < s_expires_at_ms s
  ∧ s_user_security_revision s = u_security_revision u ∧ u_status u = UActive.
Proof. unfold live_session. bprop. tauto. Qed.
