(* ===== verification/Kernel.v ===== *)
(** * Kernel: the statements on identities, sessions and tokens

    One definition per SQL statement of src/crates/wasi-auth/src/postgres that
    issues, reads, rotates or revokes a session, a refresh token, a password
    or a one-time token.  A statement is one atomic transition: its common
    table expressions all read the state before it.  [None] is a database
    error (a unique violation or a malformed identifier), which leaves the
    state as it was; an empty list of rows is a statement whose guards did not
    hold.  Parameters keep the order and the meaning of the placeholders. *)

From S2P Require Export KernelState.
Open Scope Z_scope.

#[local] Arguments lit : simpl never.

Section statements.
Context `{UuidText}.

(** ** Refresh tokens *)

(** issue_token_pair.sql *)
Definition issue_token_pair (session : Uuid) (hash : list Z) (family : Uuid) (expires now : Z)
    (audit_id : Uuid) (request_id : str) (d : Db) : option (bool * Db) :=
  match sessions d !! session with
  | None => Some (false, d)
  | Some s =>
      match users d !! s_user s with
      | None => Some (false, d)
      | Some u =>
          if negb (live_session now s u) then Some (false, d) else
          match refresh_tokens d !! hash with
          | Some _ => Some (false, d)                   (* ON CONFLICT DO NOTHING *)
          | None =>
              let d := set_refresh_tokens
                <[hash := mk_refresh session family None None None None expires None None]> d in
              d ← insert_audit (mk_audit audit_id (Some (s_user s)) (Some session)
                     (lit "auth.token.issue") (lit "session", uuid_to_string session) true request_id now) d;
              Some (true, d)
          end
      end
  end.

(** load_refresh_session.sql *)
Definition load_refresh_session (hash : list Z) (d : Db) : option Uuid :=
  rt_session <$> refresh_tokens d !! hash.

(** The parameters [$1] to [$12] of rotate_refresh_token.sql. *)
Record RotateArgs := mk_rotate {
  ro_current : list Z;
  ro_bound_session : option Uuid;
  ro_next : list Z;
  ro_key_version : str;
  ro_ciphertext : list Z;
  ro_replay_until : Z;
  ro_now : Z;
  ro_expires : Z;
  ro_rotation_audit : Uuid;
  ro_reuse_audit : Uuid;
  ro_request_id : str;
  ro_session_expires : Z;
}.
Inductive RotateOutcome :=
| Rotated
| Replayed (key_version : str) (ciphertext : list Z)
| ReuseDetected
| InvalidRefresh.

(** [current_token] *)
Definition current_token (a : RotateArgs) (d : Db) : option (RefreshRow * SessionRow * UserRow) :=
  r ← refresh_tokens d !! ro_current a;
  s ← sessions d !! rt_session r;
  u ← users d !! s_user s;
  if match ro_bound_session a with Some b => bool_decide (b = rt_session r) | None => true end
  then Some (r, s, u) else None.
Definition rotatable (now : Z) (r : RefreshRow) (s : SessionRow) (u : UserRow) : bool :=
  bool_decide (rt_rotated_at_ms r = None) && bool_decide (rt_revoked_at_ms r = None)
  && (now <? rt_expires_at_ms r) && live_session now s u.
Definition replayable (now : Z) (r : RefreshRow) (s : SessionRow) (u : UserRow) :
    option (str * list Z) :=
  if bool_decide (rt_rotated_at_ms r ≠ None) && bool_decide (rt_revoked_at_ms r = None)
     && match rt_replay_until_ms r with Some t => now <=? t | None => false end
     && live_session now s u
  then v ← rt_successor_key_version r; c ← rt_successor_ciphertext r; Some (v, c)
  else None.
Definition rotate_row (a : RotateArgs) (r : RefreshRow) : RefreshRow :=
  mk_refresh (rt_session r) (rt_family r) (Some (ro_next a)) (Some (ro_key_version a))
    (Some (ro_ciphertext a)) (Some (ro_replay_until a)) (rt_expires_at_ms r) (Some (ro_now a))
    (rt_revoked_at_ms r).
Definition renew_session_row (a : RotateArgs) (s : SessionRow) : SessionRow :=
  mk_session (s_user s) (s_organization s) (s_assurance s) (s_revision s + 1)
    (s_user_security_revision s) (Z.max (s_expires_at_ms s) (ro_session_expires a))
    (s_revoked_at_ms s) (s_created_at_ms s).

Definition rotate_token (a : RotateArgs) (r : RefreshRow) (s : SessionRow) (d : Db) : option Db :=
  let d := set_refresh_tokens <[ro_current a := rotate_row a r]> d in
  d ← insert_refresh_token (ro_next a)
        (mk_refresh (rt_session r) (rt_family r) None None None None (ro_expires a) None None) d;
  let d := set_sessions <[rt_session r := renew_session_row a s]> d in
  insert_audit (mk_audit (ro_rotation_audit a) (Some (s_user s)) (Some (rt_session r))
    (lit "auth.token.refresh") (lit "session", uuid_to_string (rt_session r)) true (ro_request_id a) (ro_now a)) d.

(** The family is revoked whether or not the session still was; the audit
    record and the outcome need a session that was not revoked before. *)
Definition detect_reuse (a : RotateArgs) (r : RefreshRow) (s : SessionRow) (d : Db) :
    option (RotateOutcome * Db) :=
  let d := set_refresh_tokens (update_rows
    (λ _ r', bool_decide (rt_family r' = rt_family r) && bool_decide (rt_revoked_at_ms r' = None))
    (revoke_refresh_row (ro_now a))) d in
  match s_revoked_at_ms s with
  | Some _ => Some (InvalidRefresh, d)
  | None =>
      let d := set_sessions <[rt_session r := revoke_session_row (ro_now a) s]> d in
      d ← insert_audit (mk_audit (ro_reuse_audit a) (Some (s_user s)) (Some (rt_session r))
            (lit "auth.token.reuse") (lit "session", uuid_to_string (rt_session r)) false (ro_request_id a)
            (ro_now a)) d;
      Some (ReuseDetected, d)
  end.

(** rotate_refresh_token.sql *)
Definition rotate_refresh_token (a : RotateArgs) (d : Db) : option (RotateOutcome * Db) :=
  match current_token a d with
  | None => Some (InvalidRefresh, d)
  | Some (r, s, u) =>
      if rotatable (ro_now a) r s u then
        d ← rotate_token a r s d; Some (Rotated, d)
      else
        match replayable (ro_now a) r s u with
        | Some (v, c) => Some (Replayed v c, d)
        | None =>
            if bool_decide (rt_rotated_at_ms r ≠ None) && bool_decide (rt_revoked_at_ms r = None)
            then detect_reuse a r s d
            else Some (InvalidRefresh, d)
        end
  end.

(** ** Sessions *)

Record ContextRow := mk_context_row {
  cr_user : Uuid;
  cr_primary_email : str;
  cr_session : Uuid;
  cr_organization : option Uuid;
  cr_assurance : DbAssurance;
  cr_created_at_ms : Z;
  cr_expires_at_ms : Z;
  cr_session_revision : Z;
  cr_user_security_revision : Z;
  cr_authorization_revision : option Z;
  cr_role : option str;
  cr_permissions : list str;
  cr_policy_revision : option str;
  cr_system_administrator : bool;
}.

Definition key_verifies (status : SigningKeyStatus) : bool :=
  match status with KeyActive | KeyRetired => true | KeyNext | KeyRevoked => false end.
Definition signing_key_accepted (key : str) (d : Db) : bool :=
  match signing_keys (directory d) !! key with Some st => key_verifies st | None => false end.
Definition is_administrator (user : Uuid) (d : Db) : bool :=
  default false (administrators (directory d) !! user).
(** The active membership of the session's user in its organization. *)
Definition selected_membership (s : SessionRow) (d : Db) : option (Uuid * MembershipRow) :=
  org ← s_organization s;
  m ← memberships (directory d) !! (org, s_user s);
  if bool_decide (m_status m = MActive) then Some (org, m) else None.
Definition organization_selected (s : SessionRow) (d : Db) : bool :=
  match s_organization s with
  | None => true
  | Some org =>
      default false (o_active <$> organizations (directory d) !! org)
      && bool_decide (is_Some (selected_membership s d))
  end.
(** [jsonb_agg(permission ORDER BY permission)], or the empty array *)
Definition permissions_of (org : Uuid) (role : str) (d : Db) : list str :=
  sort_unstable (elements (default ∅ (granted_permissions (directory d) !! (org, role)))).

(** The row that load_request_context.sql and load_request_fingerprint.sql
    project, for a signing key condition [key_ok]. *)
Definition context_row (session : Uuid) (now : Z) (key_ok : bool) (d : Db) : option ContextRow :=
  s ← sessions d !! session;
  u ← users d !! s_user s;
  if live_session now s u && key_ok && organization_selected s d then
    Some (mk_context_row (s_user s) (u_primary_email u) session (s_organization s) (s_assurance s)
      (s_created_at_ms s) (s_expires_at_ms s) (s_revision s) (s_user_security_revision s)
      (org ← s_organization s; authorization_revision (mail_outbox d) !! uuid_to_string org)
      ((λ om, m_role om.2) <$> selected_membership s d)
      match selected_membership s d with
      | Some (org, m) => permissions_of org (m_role m) d
      | None => []
      end
      (active_policy (directory d)) (is_administrator (s_user s) d))
  else None.
(** load_request_context.sql; an empty key is a request without a token. *)
Definition load_request_context (session : Uuid) (now : Z) (key : str) (d : Db) : option ContextRow :=
  context_row session now (is_empty key || signing_key_accepted key d) d.
(** load_request_fingerprint.sql *)
Definition load_request_fingerprint (session : Uuid) (now : Z) (key : str) (d : Db) :
    option ContextRow :=
  context_row session now (signing_key_accepted key d) d.

(** revoke_session.sql *)
Definition revoke_session (target actor : Uuid) (now : Z) (audit_id : Uuid) (request_id : str) (d : Db) :
    option (bool * Db) :=
  match sessions d !! actor with
  | None => Some (false, d)
  | Some sa =>
      match users d !! s_user sa with
      | None => Some (false, d)
      | Some u =>
          if negb (live_session now sa u) then Some (false, d) else
          match sessions d !! target with
          | None => Some (false, d)
          | Some st =>
              if bool_decide (s_user st = s_user sa) && bool_decide (s_revoked_at_ms st = None) then
                let d := set_sessions <[target := revoke_session_row now st]> d in
                let d := set_refresh_tokens (update_rows
                  (λ _ r, bool_decide (rt_session r = target) && bool_decide (rt_revoked_at_ms r = None))
                  (revoke_refresh_row now)) d in
                d ← insert_audit (mk_audit audit_id (Some (s_user st)) (Some actor)
                      (lit "auth.session.revoke") (lit "session", uuid_to_string target) true request_id now) d;
                Some (true, d)
              else Some (false, d)
          end
      end
  end.

(** list_sessions.sql: [ORDER BY created_at_ms DESC, session_id LIMIT 100] *)
Definition session_order (a b : Uuid * SessionRow) : Prop :=
  s_created_at_ms b.2 < s_created_at_ms a.2
  ∨ (s_created_at_ms a.2 = s_created_at_ms b.2 ∧ str_le a.1 b.1).
#[export] Instance session_order_dec : RelDecision session_order.
Proof. intros a b. unfold session_order. apply _. Defined.
Definition list_sessions (user : Uuid) (now : Z) (d : Db) : list (Uuid * SessionRow) :=
  take 100 (merge_sort session_order
    (List.filter (λ ks, bool_decide (s_user ks.2 = user) && bool_decide (s_revoked_at_ms ks.2 = None)
                        && (now <? s_expires_at_ms ks.2))
       (map_to_list (sessions d)))).
(** ** Passwords and one-time tokens *)

(** The row of [auth_users] under its unique [normalized_email]. *)
Definition user_by_email (email : str) (d : Db) : option (Uuid * UserRow) :=
  head (List.filter (λ ku, bool_decide (u_normalized_email ku.2 = email)) (map_to_list (users d))).

Record RegisterArgs := mk_register {
  rg_idempotency_key : str;
  rg_actor_key : str;
  rg_request_hash : list Z;
  rg_user : Uuid;
  rg_normalized_email : str;
  rg_primary_email : str;
  rg_password_hash : str;
  rg_token_hash : list Z;
  rg_token_expires : Z;
  rg_outbox_id : Uuid;
  rg_deduplication_key : str;
  rg_key_version : str;
  rg_ciphertext : list Z;
  rg_audit_id : Uuid;
  rg_request_id : str;
  rg_now : Z;
}.
Inductive RegisterOutcome :=
| RegCreated (user : str)
| RegReplayed (user : option str)
| RegIdempotencyConflict
| RegEmailConflict.

Definition REGISTER_OPERATION : str := lit "register_password".
(** The stored key belongs to the same actor, operation and request. *)
Definition same_registration (actor : str) (request_hash : list Z) (i : IdempotencyRow) : bool :=
  bool_decide (id_actor_key i = actor) && bool_decide (id_operation i = REGISTER_OPERATION)
  && bool_decide (id_request_hash i = request_hash).

Definition insert_registration (a : RegisterArgs) (d : Db) : option Db :=
  match users d !! rg_user a with
  | Some _ => None
  | None =>
      let d := set_users <[rg_user a := mk_user (rg_normalized_email a) (rg_primary_email a) UPending 1 (rg_now a)]> d in
      match passwords d !! rg_user a with
      | Some _ => None
      | None =>
          let d := set_passwords <[rg_user a := mk_password (rg_password_hash a) None None]> d in
          d ← insert_one_time_token (rg_token_hash a)
                (mk_one_time EmailVerificationToken (Some (rg_user a)) (rg_token_expires a) None) d;
          d ← insert_mail (rg_outbox_id a) (rg_deduplication_key a) (rg_key_version a)
                (rg_ciphertext a) (rg_now a) d;
          d ← insert_audit (mk_audit (rg_audit_id a) None None (lit "auth.password.register")
                (lit "user", uuid_to_string (rg_user a)) true (rg_request_id a) (rg_now a)) d;
          Some (set_idempotency <[rg_idempotency_key a :=
            mk_idempotency (rg_actor_key a) REGISTER_OPERATION (rg_request_hash a)
              (Some (uuid_to_string (rg_user a)))]> d)
      end
  end.

(** register_password.sql *)
Definition register_password (a : RegisterArgs) (d : Db) : option (RegisterOutcome * Db) :=
  match idempotency d !! rg_idempotency_key a with
  | Some i =>
      if same_registration (rg_actor_key a) (rg_request_hash a) i
      then Some (RegReplayed (id_response i), d)
      else Some (RegIdempotencyConflict, d)
  | None =>
      match user_by_email (rg_normalized_email a) d with
      | Some _ => Some (RegEmailConflict, d)
      | None =>
          d ← insert_registration a d; Some (RegCreated (uuid_to_string (rg_user a)), d)
      end
  end.

(** registration_replay.sql *)
Definition registration_replay (key actor : str) (request_hash : list Z) (d : Db) :
    option RegisterOutcome :=
  (λ i, if same_registration actor request_hash i then RegReplayed (id_response i)
        else RegIdempotencyConflict) <$> idempotency d !! key.

(** [expires_at_ms >= $2], of the given purpose and not consumed *)
Definition usable_token (purpose : TokenPurpose) (now : Z) (t : OneTimeRow) : bool :=
  bool_decide (ot_purpose t = purpose) && (now <=? ot_expires_at_ms t)
  && bool_decide (ot_consumed_at_ms t = None).

Record NewSession := mk_new_session { ns_session : Uuid; ns_user : Uuid; ns_expires_at_ms : Z }.

(** A first session of a user: no organization, [aal1], the user's security
    revision. *)
Definition open_session (session user : Uuid) (revision expires now : Z) (audit_id : Uuid)
    (action : str) (resource : str * str) (request_id : str) (d : Db) : option (option NewSession * Db) :=
  d ← insert_session session (mk_session user None DbAal1 1 revision expires None now) d;
  d ← insert_audit (mk_audit audit_id (Some user) (Some session) action resource true request_id now) d;
  Some (Some (mk_new_session session user expires), d).

Definition set_user_status (st : DbUserStatus) (u : UserRow) : UserRow :=
  mk_user (u_normalized_email u) (u_primary_email u) st (u_security_revision u) (u_created_at_ms u).
Definition bump_security_revision (u : UserRow) : UserRow :=
  mk_user (u_normalized_email u) (u_primary_email u) (u_status u) (u_security_revision u + 1) (u_created_at_ms u).

(** verify_email.sql *)
Definition verify_email (hash : list Z) (now : Z) (session : Uuid) (expires : Z) (audit_id : Uuid)
    (request_id : str) (bootstrap : list str) (d : Db) : option (option NewSession * Db) :=
  match one_time_tokens d !! hash with
  | Some t =>
      if negb (usable_token EmailVerificationToken now t) then Some (None, d) else
      let d := set_one_time_tokens <[hash := consume_row now t]> d in
      match (user ← ot_user t; u ← users d !! user; Some (user, u)) with
      | Some (user, u) =>
          if bool_decide (u_status u = UPending) || bool_decide (u_status u = UActive) then
            let d := set_users <[user := set_user_status UActive u]> d in
            let d :=
              if bool_decide (u_normalized_email u ∈ bootstrap)
                 && bool_decide (administrators (directory d) !! user = None)
              then set_directory (set_administrators <[user := true]>) d else d in
            open_session session user (u_security_revision u) expires now audit_id
              (lit "auth.email.verify") (lit "user", uuid_to_string user) request_id d
          else Some (None, d)
      | None => Some (None, d)
      end
  | None => Some (None, d)
  end.

(** The upsert of a bucket: [window_expires_at_ms <= now] starts a new window,
    which lasts [renewal]. *)
Definition count_attempt (key : str) (window renewal now : Z) (d : Db) : option (BucketRow * Db) :=
  if i64_max <? now + window then None else
  let b :=
    match buckets d !! key with
    | None => mk_bucket 1 (now + window)
    | Some b =>
        if b_window_expires_at_ms b <=? now then mk_bucket 1 (now + renewal)
        else mk_bucket (b_attempts b + 1) (b_window_expires_at_ms b)
    end in
  Some (b, set_buckets <[key := b]> d).

(** check_rate_limit.sql *)
Definition check_rate_limit (key : str) (maximum window now : Z) (d : Db) : option ((bool * Z) * Db) :=
  '(b, d) ← count_attempt key window window now d;
  Some ((b_attempts b <=? maximum, Z.max (b_window_expires_at_ms b - now) 0), d).

(** The mail and the token that a request by email records, with the audit
    record of the statement. *)
Record MailArgs := mk_mail_args {
  ma_token_hash : list Z;
  ma_token_expires : Z;
  ma_outbox_id : Uuid;
  ma_deduplication_key : str;
  ma_key_version : str;
  ma_ciphertext : list Z;
  ma_audit_id : Uuid;
  ma_request_id : str;
  ma_now : Z;
}.
Definition queue_token (purpose : TokenPurpose) (actor : option Uuid) (action : str) (user : Uuid)
    (a : MailArgs) (d : Db) : option Db :=
  d ← insert_one_time_token (ma_token_hash a) (mk_one_time purpose (Some user) (ma_token_expires a) None) d;
  d ← insert_mail (ma_outbox_id a) (ma_deduplication_key a) (ma_key_version a) (ma_ciphertext a) (ma_now a) d;
  insert_audit (mk_audit (ma_audit_id a) actor None action (lit "user", uuid_to_string user) true (ma_request_id a) (ma_now a)) d.

(** resend_email_verification.sql: at most five for a bucket; the first window
    lasts an hour, and an expired window is renewed to expire at once. *)
Definition resend_email_verification (email bucket : str) (a : MailArgs) (d : Db) :
    option (bool * Db) :=
  '(b, d) ← count_attempt bucket 3600000 0 (ma_now a) d;
  match user_by_email email d with
  | Some (user, u) =>
      if bool_decide (u_status u = UPending) && (b_attempts b <=? 5) then
        let d := set_one_time_tokens (update_rows
          (λ _ t, bool_decide (ot_user t = Some user) && bool_decide (ot_purpose t = EmailVerificationToken)
                  && bool_decide (ot_consumed_at_ms t = None))
          (consume_row (ma_now a))) d in
        d ← queue_token EmailVerificationToken None (lit "auth.email.verification.resend") user a d;
        Some (true, d)
      else Some (false, d)
  | None => Some (false, d)
  end.

(** start_password_reset.sql *)
Definition start_password_reset (email : str) (a : MailArgs) (d : Db) : option (bool * Db) :=
  match user_by_email email d with
  | Some (user, u) =>
      match passwords d !! user with
      | Some p =>
          if bool_decide (u_status u = UActive) && bool_decide (pw_revoked_at_ms p = None) then
            d ← queue_token PasswordResetToken (Some user) (lit "auth.password.reset.start") user a d;
            Some (true, d)
          else Some (false, d)
      | None => Some (false, d)
      end
  | None => Some (false, d)
  end.

(** load_password_login.sql and load_password_by_user.sql *)
Definition load_password_login (email : str) (d : Db) : option (Uuid * UserRow * str) :=
  '(user, u) ← user_by_email email d;
  p ← passwords d !! user;
  if bool_decide (pw_revoked_at_ms p = None) then Some (user, u, pw_hash p) else None.
Definition load_password_by_user (user : Uuid) (d : Db) : option (UserRow * str) :=
  u ← users d !! user;
  p ← passwords d !! user;
  if bool_decide (pw_revoked_at_ms p = None) then Some (u, pw_hash p) else None.

(** issue_password_session.sql *)
Definition issue_password_session (user : Uuid) (email hash : str) (session : Uuid) (expires now : Z)
    (audit_id : Uuid) (request_id : str) (d : Db) : option (option NewSession * Db) :=
  match (u ← users d !! user; p ← passwords d !! user; Some (u, p)) with
  | Some (u, p) =>
      if bool_decide (u_normalized_email u = email) && bool_decide (u_status u = UActive)
         && bool_decide (pw_revoked_at_ms p = None) && bool_decide (pw_hash p = hash) then
        let d := set_passwords <[user := mk_password (pw_hash p) (Some now) None]> d in
        open_session session user (u_security_revision u) expires now audit_id
          (lit "auth.password.login") (lit "session", uuid_to_string session) request_id d
      else Some (None, d)
  | None => Some (None, d)
  end.

(** change_password.sql *)
Definition change_password (user session : Uuid) (old new : str) (now : Z) (audit_id : Uuid)
    (request_id : str) (d : Db) : option (bool * Db) :=
  match (s ← sessions d !! session; u ← users d !! s_user s; p ← passwords d !! s_user s; Some (s, u, p)) with
  | Some (s, u, p) =>
      if bool_decide (s_user s = user) && live_session now s u
         && bool_decide (pw_hash p = old) && bool_decide (pw_revoked_at_ms p = None) then
        let of_user k := match sessions d !! k with Some s' => bool_decide (s_user s' = user) | None => false end in
        let d := set_passwords <[user := mk_password new (pw_last_authenticated_at_ms p) None]> d in
        let d := set_users <[user := bump_security_revision u]> d in
        let d := set_refresh_tokens (update_rows
          (λ _ r, negb (bool_decide (rt_session r = session)) && of_user (rt_session r)
                  && bool_decide (rt_revoked_at_ms r = None))
          (revoke_refresh_row now)) d in
        let d := set_sessions (update_rows
          (λ k s', bool_decide (s_user s' = user) && negb (bool_decide (k = session))
                   && bool_decide (s_revoked_at_ms s' = None))
          (revoke_session_row now)) d in
        let d := set_sessions
          <[session := mk_session (s_user s) (s_organization s) (s_assurance s) (s_revision s + 1)
                         (u_security_revision u + 1) (s_expires_at_ms s) (s_revoked_at_ms s)
                         (s_created_at_ms s)]> d in
        d ← insert_audit (mk_audit audit_id (Some user) (Some session) (lit "auth.password.change")
              (lit "user", uuid_to_string user) true request_id now) d;
        Some (true, d)
      else Some (false, d)
  | None => Some (false, d)
  end.

(** Without counting a session revision, as complete_password_reset.sql does. *)
Definition expel_session_row (now : Z) (s : SessionRow) : SessionRow :=
  mk_session (s_user s) (s_organization s) (s_assurance s) (s_revision s)
    (s_user_security_revision s) (s_expires_at_ms s) (Some now) (s_created_at_ms s).

(** complete_password_reset.sql: the token is consumed and the password
    replaced before the status of the user is looked at. *)
Definition complete_password_reset (hash : list Z) (now : Z) (password : str) (session : Uuid)
    (expires : Z) (audit_id : Uuid) (request_id : str) (d : Db) : option (option NewSession * Db) :=
  match one_time_tokens d !! hash with
  | Some t =>
      if negb (usable_token PasswordResetToken now t) then Some (None, d) else
      let d := set_one_time_tokens <[hash := consume_row now t]> d in
      match (user ← ot_user t; p ← passwords d !! user; Some (user, p)) with
      | Some (user, p) =>
          let d := set_passwords <[user := mk_password password (pw_last_authenticated_at_ms p) None]> d in
          match users d !! user with
          | Some u =>
              if bool_decide (u_status u = UActive) then
                let of_user k := match sessions d !! k with Some s' => bool_decide (s_user s' = user) | None => false end in
                let d := set_users <[user := bump_security_revision u]> d in
                let d := set_refresh_tokens (update_rows
                  (λ _ r, of_user (rt_session r) && bool_decide (rt_revoked_at_ms r = None))
                  (revoke_refresh_row now)) d in
                let d := set_sessions (update_rows
                  (λ _ s, bool_decide (s_user s = user) && bool_decide (s_revoked_at_ms s = None))
                  (expel_session_row now)) d in
                open_session session user (u_security_revision u + 1) expires now audit_id
                  (lit "auth.password.reset.complete") (lit "user", uuid_to_string user) request_id d
              else Some (None, d)
          | None => Some (None, d)
          end
      | None => Some (None, d)
      end
  | None => Some (None, d)
  end.
End statements.
