(* ===== verification/Organizations.v ===== *)
(** * Organizations: the statements of organization management

    Models the SQL of src/crates/wasi-auth/src/postgres that
    management.rs and organizations.rs execute (organizations, roles,
    memberships, invitations, system administration), with the triggers of
    migrations 0004 and 0010 that they fire: a change of a membership adjusts
    the owner count of its organization before the row is written, and counts
    a revision and queues the relationship change after it.

    A statement is one atomic step.  Its data-modifying expressions read the
    state before it, a raised exception or a violated constraint is [None],
    and the identifiers that [gen_random_uuid()] draws in a trigger are an
    argument.  [ORDER BY] on text is the order of the bytes. *)

From S2P Require Export Kernel.
Open Scope Z_scope.

#[local] Arguments lit : simpl never.

Definition OWNER : str := lit "owner".
Definition ADMIN : str := lit "admin".
Definition MEMBER : str := lit "member".
Definition VIEWER : str := lit "viewer".
Definition OWNERSHIP_TRANSFER : str := lit "ownership.transfer".

(** The permissions that create_organization.sql grants. *)
Definition OWNER_PERMISSIONS : list str :=
  map lit ["organization.view"; "organization.update"; "member.view"; "member.invite"; "member.manage";
    "role.view"; "role.manage"; "audit.view"; "counter.view"; "counter.change"; "counter.reset";
    "dashboard.view"; "dashboard.manage"; "resource.view"; "resource.manage"; "query.view";
    "query.manage"; "query.execute"; "query.execute_mutation"; "ownership.transfer"; "vault.view";
    "vault.manage"; "vault.reveal"].
Definition ADMIN_PERMISSIONS : list str :=
  map lit ["organization.view"; "organization.update"; "member.view"; "member.invite"; "member.manage";
    "role.view"; "role.manage"; "audit.view"; "counter.view"; "counter.change"; "counter.reset";
    "dashboard.view"; "dashboard.manage"; "resource.view"; "resource.manage"; "query.view";
    "query.manage"; "query.execute"; "query.execute_mutation"; "vault.view"; "vault.manage";
    "vault.reveal"].
Definition MEMBER_PERMISSIONS : list str :=
  map lit ["organization.view"; "member.view"; "role.view"; "counter.view"; "counter.change";
    "dashboard.view"; "query.view"; "query.execute"].
Definition VIEWER_PERMISSIONS : list str :=
  map lit ["organization.view"; "member.view"; "role.view"; "counter.view"; "dashboard.view"].
Definition BUILT_IN_ROLES : list (str * str * list str) :=
  [(OWNER, lit "Owner", OWNER_PERMISSIONS); (ADMIN, lit "Administrator", ADMIN_PERMISSIONS);
   (MEMBER, lit "Member", MEMBER_PERMISSIONS); (VIEWER, lit "Viewer", VIEWER_PERMISSIONS)].

(** ** Tables of the directory *)

Definition set_organizations (f : gmap Uuid OrganizationRow → gmap Uuid OrganizationRow) : Db → Db :=
  set_directory (λ r, mk_directory (f (organizations r)) (org_roles r) (memberships r) (granted_permissions r)
    (invitations r) (administrators r) (signing_keys r) (active_policy r)).
Definition set_roles (f : gmap (Uuid * str) RoleRow → gmap (Uuid * str) RoleRow) : Db → Db :=
  set_directory (λ r, mk_directory (organizations r) (f (org_roles r)) (memberships r) (granted_permissions r)
    (invitations r) (administrators r) (signing_keys r) (active_policy r)).
Definition set_memberships (f : gmap (Uuid * Uuid) MembershipRow → gmap (Uuid * Uuid) MembershipRow) : Db → Db :=
  set_directory (λ r, mk_directory (organizations r) (org_roles r) (f (memberships r)) (granted_permissions r)
    (invitations r) (administrators r) (signing_keys r) (active_policy r)).
Definition set_granted_permissions (f : gmap (Uuid * str) (gset str) → gmap (Uuid * str) (gset str)) : Db → Db :=
  set_directory (λ r, mk_directory (organizations r) (org_roles r) (memberships r) (f (granted_permissions r))
    (invitations r) (administrators r) (signing_keys r) (active_policy r)).
Definition set_invitations (f : gmap Uuid InvitationRow → gmap Uuid InvitationRow) : Db → Db :=
  set_directory (λ r, mk_directory (organizations r) (org_roles r) (memberships r) (granted_permissions r)
    (f (invitations r)) (administrators r) (signing_keys r) (active_policy r)).

Definition is_owner (m : MembershipRow) : bool :=
  bool_decide (m_role m = OWNER) && bool_decide (m_status m = MActive).
Definition with_owner_count (n : Z) (o : OrganizationRow) : OrganizationRow :=
  mk_org_row (o_name o) (o_slug o) (o_active o) n (o_created_at_ms o).

(** [auth_adjust_owner_count()], before a membership is written *)
Definition adjust_owner_count (org : Uuid) (old_is_owner new_is_owner : bool) (d : Db) : option Db :=
  if old_is_owner && negb new_is_owner then
    o ← organizations (directory d) !! org;
    if 1 <? o_owner_count o
    then Some (set_organizations <[org := with_owner_count (o_owner_count o - 1) o]> d)
    else None
  else if new_is_owner && negb old_is_owner then
    o ← organizations (directory d) !! org;
    Some (set_organizations <[org := with_owner_count (o_owner_count o + 1) o]> d)
  else Some d.

Section organizations.
Context `{UuidText}.

Definition tracked (org user : Uuid) (m : MembershipRow) (now : Z) : Membership :=
  mk_membership (uuid_to_string org) (uuid_to_string user) (m_role m) (member_status_text (m_status m)) now.
(** The row itself: its role must exist. *)
Definition put_membership (org user : Uuid) (m : MembershipRow) (d : Db) : option Db :=
  if bool_decide (is_Some (org_roles (directory d) !! (org, m_role m)))
  then Some (set_memberships <[(org, user) := m]> d) else None.
(** [auth_track_membership_authorization()], after it *)
Definition track (e : TriggerEvent) (id : Uuid) (d : Db) : option Db :=
  t ← track_membership e id (mail_outbox d);
  Some (set_mail_outbox (λ _, t) d).

(** [INSERT], [UPDATE] and [INSERT .. ON CONFLICT DO UPDATE] of a membership
    with their triggers.  The last fires the trigger before an insert also
    when the row exists, and then the ones of an update. *)
Definition insert_membership (org user : Uuid) (m : MembershipRow) (now : Z) (id : Uuid) (d : Db) : option Db :=
  d ← adjust_owner_count org false (is_owner m) d;
  d ← put_membership org user m d;
  track (TgInsert (tracked org user m now)) id d.
Definition update_membership (org user : Uuid) (old new : MembershipRow) (now : Z) (id : Uuid) (d : Db) :
    option Db :=
  d ← adjust_owner_count org (is_owner old) (is_owner new) d;
  d ← put_membership org user new d;
  track (TgUpdate (tracked org user old now) (tracked org user new now)) id d.
Definition upsert_membership (org user : Uuid) (role : str) (now : Z) (id : Uuid) (d : Db) : option Db :=
  let inserted := mk_member role MActive now in
  match memberships (directory d) !! (org, user) with
  | None => insert_membership org user inserted now id d
  | Some old =>
      d ← adjust_owner_count org false (is_owner inserted) d;
      update_membership org user old (mk_member role MActive (m_joined_at_ms old)) now id d
  end.
(** An [UPDATE] of several rows; [ids] draws an identifier for each
    organization. *)
Definition update_memberships (f : MembershipRow → MembershipRow) (now : Z) (ids : Uuid → Uuid)
    (rows : list ((Uuid * Uuid) * MembershipRow)) (d : Db) : option Db :=
  foldr (λ km k d, update_membership km.1.1 km.1.2 km.2 (f km.2) now (ids km.1.1) d ≫= k) Some rows d.
Definition with_role (role : str) (m : MembershipRow) : MembershipRow :=
  mk_member role (m_status m) (m_joined_at_ms m).
Definition with_member_status (st : DbMemberStatus) (m : MembershipRow) : MembershipRow :=
  mk_member (m_role m) st (m_joined_at_ms m).

(** [UPDATE auth_organizations SET authorization_revision = authorization_revision + 1]:
    whether the row exists *)
Definition bump_revision (org : Uuid) (d : Db) : option Db :=
  revision ← authorization_revision (mail_outbox d) !! uuid_to_string org;
  Some (set_mail_outbox (λ t, mk_outbox (<[uuid_to_string org := revision + 1]> (authorization_revision t)) (rows t)) d).

(** ** The acting session *)

Definition stepped_up (s : SessionRow) : bool := negb (bool_decide (s_assurance s = DbAal1)).
Definition account_actor (session : Uuid) (now : Z) (d : Db) : option SessionRow :=
  s ← sessions d !! session;
  u ← users d !! s_user s;
  if live_session now s u then Some s else None.
Definition holds (org : Uuid) (role permission : str) (d : Db) : bool :=
  bool_decide (permission ∈ default ∅ (granted_permissions (directory d) !! (org, role))).
(** A live session of an active member. *)
Definition member_actor (session org : Uuid) (now : Z) (d : Db) : option (SessionRow * MembershipRow) :=
  s ← account_actor session now d;
  m ← memberships (directory d) !! (org, s_user s);
  if bool_decide (m_status m = MActive) then Some (s, m) else None.
(** With a permission of the member's role. *)
Definition permitted_actor (permission : str) (session org : Uuid) (now : Z) (d : Db) :
    option (SessionRow * MembershipRow) :=
  sm ← member_actor session org now d;
  if holds org (m_role sm.2) permission d then Some sm else None.
(** With that permission and a second factor. *)
Definition privileged_actor (permission : str) (session org : Uuid) (now : Z) (d : Db) :
    option (SessionRow * MembershipRow) :=
  sm ← permitted_actor permission session org now d;
  if stepped_up sm.1 then Some sm else None.
Definition active_organization (org : Uuid) (d : Db) : option OrganizationRow :=
  o ← organizations (directory d) !! org;
  if o_active o then Some o else None.
Definition active_membership (org user : Uuid) (d : Db) : option MembershipRow :=
  m ← memberships (directory d) !! (org, user);
  if bool_decide (m_status m = MActive) then Some m else None.
Definition can_transfer_ownership (org : Uuid) (m : MembershipRow) (d : Db) : bool :=
  holds org (m_role m) OWNERSHIP_TRANSFER d.

(** [SELECT count( * ) FROM auth_memberships WHERE role_id = 'owner' AND status = 'active'] *)
Definition owners (org : Uuid) (d : Db) : gmap (Uuid * Uuid) MembershipRow :=
  filter (λ km, km.1.1 = org ∧ is_owner km.2 = true) (memberships (directory d)).
Definition more_owners (org : Uuid) (d : Db) : bool := (1 <? size (owners org d))%nat.

(** [UPDATE auth_sessions SET selected_organization_id = .., session_revision = session_revision + 1] *)
Definition select_row (org : option Uuid) (s : SessionRow) : SessionRow :=
  mk_session (s_user s) org (s_assurance s) (s_revision s + 1) (s_user_security_revision s)
    (s_expires_at_ms s) (s_revoked_at_ms s) (s_created_at_ms s).
Definition clear_sessions (p : SessionRow → bool) : Db → Db :=
  set_sessions (update_rows (λ _ s, p s) (select_row None)).
Definition selects (org : Uuid) (s : SessionRow) : bool := bool_decide (s_organization s = Some org).

(** The statements' records of what they did. *)
Definition org_audit (id org : Uuid) (session : Uuid) (s : SessionRow) (action type resource request_id : str)
    (now : Z) : Db → option Db :=
  insert_audit (mk_audit_row id (Some org) (Some (s_user s)) (Some session) action (type, resource) true
    request_id now).

(** ** Memberships *)

(** The row that assign_membership_role.sql and transfer_ownership.sql return. *)
Record MemberOut := mk_member_out {
  mo_organization : Uuid;
  mo_user : Uuid;
  mo_primary_email : str;
  mo_row : MembershipRow;
}.

(** The [eligible] condition of assign_membership_role.sql *)
Definition assignable (org : Uuid) (actor target : MembershipRow) (role : str) (d : Db) : bool :=
  (negb (bool_decide (m_role target = OWNER)) && negb (bool_decide (role = OWNER)))
  || (can_transfer_ownership org actor d
      && (bool_decide (role = OWNER) || negb (bool_decide (m_role target = OWNER)) || more_owners org d)).

(** assign_membership_role.sql; the account of the member exists. *)
Definition assign_membership_role (session org user : Uuid) (role : str) (now : Z) (audit_id : Uuid)
    (request_id : str) (id : Uuid) (d : Db) : option (option MemberOut * Db) :=
  match (sm ← privileged_actor (lit "member.manage") session org now d;
         o ← active_organization org d;
         target ← active_membership org user d;
         r ← org_roles (directory d) !! (org, role);
         Some (sm, target)) with
  | Some (s, actor, target) =>
      if negb (assignable org actor target role d) then Some (None, d) else
      let new := with_role role target in
      d ← update_membership org user target new now id d;
      d ← org_audit audit_id org session s (lit "member.role.assign") (lit "membership") (uuid_to_string user)
            request_id now d;
      Some ((λ u, mk_member_out org user (u_primary_email u) new) <$> users d !! user, d)
  | None => Some (None, d)
  end.

(** The common part of remove_membership.sql and leave_organization.sql: the
    member is removed and its sessions leave the organization. *)
Definition end_membership (session org user : Uuid) (s : SessionRow) (target : MembershipRow) (action : string)
    (now : Z) (audit_id : Uuid) (request_id : str) (id : Uuid) (d : Db) : option (bool * Db) :=
  d ← update_membership org user target (with_member_status MRemoved target) now id d;
  let d := clear_sessions (λ s', bool_decide (s_user s' = user) && selects org s') d in
  d ← org_audit audit_id org session s (lit action) (lit "membership") (uuid_to_string user) request_id now d;
  Some (true, d).

(** remove_membership.sql *)
Definition remove_membership (session org user : Uuid) (now : Z) (audit_id : Uuid) (request_id : str)
    (id : Uuid) (d : Db) : option (bool * Db) :=
  match (sm ← privileged_actor (lit "member.manage") session org now d;
         o ← active_organization org d;
         target ← active_membership org user d;
         Some (sm, target)) with
  | Some (s, actor, target) =>
      if negb (bool_decide (m_role target = OWNER)) || (can_transfer_ownership org actor d && more_owners org d)
      then end_membership session org user s target "member.remove" now audit_id request_id id d
      else Some (false, d)
  | None => Some (false, d)
  end.

(** leave_organization.sql *)
Definition leave_organization (session org : Uuid) (now : Z) (audit_id : Uuid) (request_id : str)
    (id : Uuid) (d : Db) : option (bool * Db) :=
  match (sm ← member_actor session org now d; o ← active_organization org d; Some sm) with
  | Some (s, target) =>
      if negb (bool_decide (m_role target = OWNER)) || more_owners org d
      then end_membership session org (s_user s) s target "member.leave" now audit_id request_id id d
      else Some (false, d)
  | None => Some (false, d)
  end.

(** transfer_ownership.sql: the target is promoted first; the actor is demoted
    when its role is owner. *)
Definition transfer_ownership (session org target : Uuid) (now : Z) (audit_id : Uuid) (request_id : str)
    (id id' : Uuid) (d : Db) : option (option MemberOut * Db) :=
  match (sm ← privileged_actor OWNERSHIP_TRANSFER session org now d;
         o ← active_organization org d;
         m ← active_membership org target d;
         Some (sm, m)) with
  | Some (s, actor, m) =>
      if bool_decide (s_user s = target) then Some (None, d) else
      let new := with_role OWNER m in
      d ← update_membership org target m new now id d;
      d ← if bool_decide (m_role actor = OWNER)
          then update_membership org (s_user s) actor (with_role ADMIN actor) now id' d else Some d;
      d ← org_audit audit_id org session s OWNERSHIP_TRANSFER (lit "organization") (uuid_to_string org) request_id now d;
      Some ((λ u, mk_member_out org target (u_primary_email u) new) <$> users d !! target, d)
  | None => Some (None, d)
  end.

(** ** Roles *)

Record RoleOut := mk_role_out {
  ro_organization : Uuid;
  ro_role : str;
  ro_name : str;
  ro_built_in : bool;
  ro_permissions : list str;
}.

(** [UNIQUE (organization_id, name)], the row of [role] itself apart *)
Definition name_taken (org : Uuid) (role name : str) (d : Db) : bool :=
  existsb (λ kr, bool_decide (kr.1.1 = org) && negb (bool_decide (kr.1.2 = role)) && bool_decide (r_name kr.2 = name))
    (map_to_list (org_roles (directory d))).
Definition built_in_role (org : Uuid) (role : str) (d : Db) : bool :=
  default false (r_built_in <$> org_roles (directory d) !! (org, role)).

(** upsert_role.sql *)
Definition upsert_role (session org : Uuid) (role name : str) (permissions : list str) (now : Z)
    (audit_id : Uuid) (request_id : str) (d : Db) : option (option RoleOut * Db) :=
  match (sm ← privileged_actor (lit "role.manage") session org now d;
         o ← active_organization org d; Some sm) with
  | Some (s, _) =>
      if built_in_role org role d then Some (None, d) else
      if name_taken org role name d || negb (bool_decide (NoDup permissions)) then None else
      let d := set_roles <[(org, role) := mk_role_row name false]> d in
      let d := set_granted_permissions <[(org, role) := list_to_set permissions]> d in
      match bump_revision org d with
      | None => Some (None, d)
      | Some d =>
          d ← org_audit audit_id org session s (lit "role.manage") (lit "role") role request_id now d;
          Some (Some (mk_role_out org role name false permissions), d)
      end
  | None => Some (None, d)
  end.

Inductive DeleteRoleOutcome := RoleDeleted | RoleUsed (members invitations : Z).

Definition role_members (org : Uuid) (role : str) (active : bool) (d : Db) : gmap (Uuid * Uuid) MembershipRow :=
  filter (λ km, km.1.1 = org ∧ m_role km.2 = role ∧ bool_decide (m_status km.2 = MActive) = active)
    (memberships (directory d)).
Definition pending_invitations (org : Uuid) (role : str) (d : Db) : gmap Uuid InvitationRow :=
  filter (λ ki, i_organization ki.2 = org ∧ i_role ki.2 = role ∧ i_status ki.2 = IPending)
    (invitations (directory d)).
Definition with_invitation_role (role : str) (i : InvitationRow) : InvitationRow :=
  mk_invitation_row (i_organization i) (i_email i) role (i_token_hash i) (i_status i) (i_expires_at_ms i)
    (i_accepted_by i) (i_created_by i) (i_created_at_ms i).
(** The trigger queues nothing for a row that is and stays inactive. *)
Definition retarget (now : Z) (rows : list ((Uuid * Uuid) * MembershipRow)) (d : Db) : option Db :=
  update_memberships (with_role MEMBER) now (λ _, []) rows d.

(** delete_role.sql; the permissions of the role go with it. *)
Definition delete_role (session org : Uuid) (role : str) (now : Z) (audit_id : Uuid) (request_id : str)
    (d : Db) : option (option DeleteRoleOutcome * Db) :=
  match (sm ← privileged_actor (lit "role.manage") session org now d;
         o ← active_organization org d; r ← org_roles (directory d) !! (org, role); Some (sm, r)) with
  | Some (s, _, r) =>
      if r_built_in r then Some (None, d) else
      let members := Z.of_nat (size (role_members org role true d)) in
      let pending := Z.of_nat (size (pending_invitations org role d)) in
      if (0 <? members) || (0 <? pending) then Some (Some (RoleUsed members pending), d) else
      d ← retarget now (map_to_list (role_members org role false d)) d;
      let settled i := bool_decide (i_organization i = org) && bool_decide (i_role i = role)
                       && negb (bool_decide (i_status i = IPending)) in
      if existsb (λ ki, settled ki.2) (map_to_list (invitations (directory d)))
         && bool_decide (org_roles (directory d) !! (org, MEMBER) = None) then None else
      let d := set_invitations (update_rows (λ _ i, settled i) (with_invitation_role MEMBER)) d in
      let d := set_roles (delete (org, role)) d in
      let d := set_granted_permissions (delete (org, role)) d in
      match bump_revision org d with
      | None => Some (None, d)
      | Some d =>
          d ← org_audit audit_id org session s (lit "role.manage") (lit "role") role request_id now d;
          Some (Some RoleDeleted, d)
      end
  | None => Some (None, d)
  end.

(** ** Organizations *)

(** The row of an organization with the role of the actor and its
    permissions. *)
Record OrgOut := mk_org_out {
  oo_organization : Uuid;
  oo_row : OrganizationRow;
  oo_role : str;
  oo_permissions : list str;
}.

Record CreateOrgArgs := mk_create_org {
  co_idempotency_key : str;
  co_actor_key : str;
  co_request_hash : list Z;
  co_organization : Uuid;
  co_name : str;
  co_session : Uuid;
  co_audit_id : Uuid;
  co_request_id : str;
  co_now : Z;
  co_slug : str;
}.
Inductive CreateOrgOutcome :=
| OrgCreated (out : OrgOut)
| OrgReplayed (out : OrgOut)
| OrgIdempotencyConflict
| OrgSlugConflict
| OrgUnauthorized.
Definition CREATE_OPERATION : str := lit "create_organization".

Definition same_creation (a : CreateOrgArgs) (i : IdempotencyRow) : bool :=
  bool_decide (id_operation i = CREATE_OPERATION) && bool_decide (id_actor_key i = co_actor_key a)
  && bool_decide (id_request_hash i = co_request_hash a).
Definition slug_taken (slug : str) (d : Db) : bool :=
  existsb (λ ko, bool_decide (o_slug ko.2 = Some slug)) (map_to_list (organizations (directory d))).
(** The constraint [auth_organizations_slug_format]:
    [^[a-z][a-z0-9]*(?:-[a-z0-9]+)*$] and two to 48 characters. *)
Fixpoint slug_tail (after_dash : bool) (s : str) : bool :=
  match s with
  | [] => negb after_dash
  | c :: s =>
      if is_ascii_lowercase c || is_ascii_digit c then slug_tail false s
      else (c =? 45) && negb after_dash && slug_tail true s
  end.
Definition slug_format (s : str) : bool :=
  (2 <=? length s)%nat && (length s <=? 48)%nat
  && match s with c :: s => is_ascii_lowercase c && slug_tail false s | [] => false end.

(** The [replayed] branch: the session of the actor key is not asked to be
    live, and the role reported is that of an owner. *)
Definition replay_creation (a : CreateOrgArgs) (i : IdempotencyRow) (d : Db) : option CreateOrgOutcome :=
  match id_response i with
  | None => Some OrgUnauthorized
  | Some text =>
      org ← uuid_parse_str text;
      session ← uuid_parse_str (co_actor_key a);
      match (o ← organizations (directory d) !! org; s ← sessions d !! session;
             m ← active_membership org (s_user s) d; Some o) with
      | Some o => Some (OrgReplayed (mk_org_out org o OWNER (permissions_of org OWNER d)))
      | None => Some OrgUnauthorized
      end
  end.

Definition insert_built_in_roles (org : Uuid) (d : Db) : Db :=
  foldr (λ '(role, name, permissions) d,
    set_granted_permissions <[(org, role) := list_to_set permissions]>
      (set_roles <[(org, role) := mk_role_row name true]> d)) d BUILT_IN_ROLES.
(** The row of [auth_organizations], with its revision 1. *)
Definition insert_organization (org : Uuid) (o : OrganizationRow) (d : Db) : option Db :=
  match organizations (directory d) !! org, authorization_revision (mail_outbox d) !! uuid_to_string org with
  | None, None =>
      Some (set_mail_outbox (λ t, mk_outbox (<[uuid_to_string org := 1]> (authorization_revision t)) (rows t))
              (set_organizations <[org := o]> d))
  | _, _ => None
  end.
Definition create_new_organization (a : CreateOrgArgs) (s : SessionRow) (id : Uuid) (d : Db) :
    option (CreateOrgOutcome * Db) :=
  let org := co_organization a in
  let o := mk_org_row (co_name a) (Some (co_slug a)) true 0 (co_now a) in
  if negb (slug_format (co_slug a)) then None else
  d ← insert_organization org o d;
  let d := insert_built_in_roles org d in
  d ← insert_membership org (s_user s) (mk_member OWNER MActive (co_now a)) (co_now a) id d;
  let d := set_sessions <[co_session a := select_row (Some org) s]> d in
  d ← org_audit (co_audit_id a) org (co_session a) s (lit "organization.create") (lit "organization")
        (uuid_to_string org) (co_request_id a) (co_now a) d;
  let d := set_idempotency <[co_idempotency_key a :=
    mk_idempotency (co_actor_key a) CREATE_OPERATION (co_request_hash a) (Some (uuid_to_string org))]> d in
  Some (OrgCreated (mk_org_out org o OWNER (permissions_of org OWNER d)), d).

(** create_organization.sql *)
Definition create_organization (a : CreateOrgArgs) (id : Uuid) (d : Db) : option (CreateOrgOutcome * Db) :=
  match idempotency d !! co_idempotency_key a with
  | Some i =>
      if same_creation a i then o ← replay_creation a i d; Some (o, d)
      else Some (OrgIdempotencyConflict, d)
  | None =>
      if slug_taken (co_slug a) d then Some (OrgSlugConflict, d) else
      match account_actor (co_session a) (co_now a) d with
      | None => Some (OrgUnauthorized, d)
      | Some s => create_new_organization a s id d
      end
  end.

(** select_organization.sql *)
Definition select_organization (session org : Uuid) (now : Z) (audit_id : Uuid) (request_id : str) (d : Db) :
    option (bool * Db) :=
  match (sm ← member_actor session org now d; o ← active_organization org d; Some sm) with
  | Some (s, _) =>
      let d := set_sessions <[session := select_row (Some org) s]> d in
      d ← org_audit audit_id org session s (lit "organization.select") (lit "session") (uuid_to_string session)
            request_id now d;
      Some (true, d)
  | None => Some (false, d)
  end.

(** update_organization.sql *)
Definition update_organization (session org : Uuid) (name : str) (now : Z) (audit_id : Uuid) (request_id : str)
    (d : Db) : option (option OrgOut * Db) :=
  match (sm ← privileged_actor (lit "organization.update") session org now d;
         o ← active_organization org d; Some (sm, o)) with
  | Some (s, m, o) =>
      let o := mk_org_row name (o_slug o) (o_active o) (o_owner_count o) (o_created_at_ms o) in
      let out := mk_org_out org o (m_role m) (permissions_of org (m_role m) d) in
      let d := set_organizations <[org := o]> d in
      d ← org_audit audit_id org session s (lit "organization.update") (lit "organization") (uuid_to_string org)
            request_id now d;
      Some (Some out, d)
  | None => Some (None, d)
  end.

Definition with_invitation_status (st : DbInvitationStatus) (i : InvitationRow) : InvitationRow :=
  mk_invitation_row (i_organization i) (i_email i) (i_role i) (i_token_hash i) st (i_expires_at_ms i)
    (i_accepted_by i) (i_created_by i) (i_created_at_ms i).
Definition pending_in (org : Uuid) (i : InvitationRow) : bool :=
  bool_decide (i_organization i = org) && bool_decide (i_status i = IPending).
(** An invitation token that nobody used. *)
Definition open_invitation_token (t : OneTimeRow) : bool :=
  bool_decide (ot_purpose t = InvitationToken) && bool_decide (ot_consumed_at_ms t = None).

(** archive_organization.sql *)
Definition archive_organization (session org : Uuid) (now : Z) (audit_id : Uuid) (request_id : str) (d : Db) :
    option (option OrgOut * Db) :=
  match (sm ← privileged_actor OWNERSHIP_TRANSFER session org now d;
         o ← active_organization org d; Some (sm, o)) with
  | Some (s, m, o) =>
      let o := mk_org_row (o_name o) (o_slug o) false (o_owner_count o) (o_created_at_ms o) in
      let out := mk_org_out org o (m_role m) (permissions_of org (m_role m) d) in
      let hashes := map (λ ki, i_token_hash ki.2)
        (List.filter (λ ki, pending_in org ki.2) (map_to_list (invitations (directory d)))) in
      let d := set_organizations <[org := o]> d in
      let d := default d (bump_revision org d) in
      let d := set_invitations (update_rows (λ _ i, pending_in org i) (with_invitation_status IRevoked)) d in
      let d := set_one_time_tokens (update_rows
        (λ h t, bool_decide (h ∈ hashes) && open_invitation_token t) (consume_row now)) d in
      let d := clear_sessions (selects org) d in
      d ← org_audit audit_id org session s (lit "organization.archive") (lit "organization") (uuid_to_string org)
            request_id now d;
      Some (Some out, d)
  | None => Some (None, d)
  end.

(** ** Invitations *)

Record InviteArgs := mk_invite {
  in_token_hash : list Z;
  in_expires : Z;
  in_outbox_id : Uuid;
  in_deduplication_key : str;
  in_key_version : str;
  in_ciphertext : list Z;
  in_audit_id : Uuid;
  in_request_id : str;
  in_now : Z;
}.
(** [token_hash] is unique among the invitations. *)
Definition hash_taken (hash : list Z) (d : Db) : bool :=
  existsb (λ ki, bool_decide (i_token_hash ki.2 = hash)) (map_to_list (invitations (directory d))).
(** The token and the mail of an invitation. *)
Definition queue_invitation (a : InviteArgs) (d : Db) : option Db :=
  d ← insert_one_time_token (in_token_hash a) (mk_one_time InvitationToken None (in_expires a) None) d;
  insert_mail (in_outbox_id a) (in_deduplication_key a) (in_key_version a) (in_ciphertext a) (in_now a) d.

(** create_invitation.sql; whether the organization is active is not asked. *)
Definition create_invitation (session org : Uuid) (email role : str) (invitation : Uuid) (a : InviteArgs)
    (d : Db) : option (option (Uuid * InvitationRow) * Db) :=
  match (sm ← privileged_actor (lit "member.invite") session org (in_now a) d;
         r ← org_roles (directory d) !! (org, role); Some sm) with
  | Some (s, m) =>
      if bool_decide (role = OWNER) && negb (can_transfer_ownership org m d) then Some (None, d) else
      let d := set_invitations (update_rows
        (λ _ i, pending_in org i && bool_decide (i_email i = email)) (with_invitation_status IRevoked)) d in
      match invitations (directory d) !! invitation with
      | Some _ => None
      | None =>
          if hash_taken (in_token_hash a) d then None else
          let i := mk_invitation_row org email role (in_token_hash a) IPending (in_expires a) None (s_user s)
                     (in_now a) in
          let d := set_invitations <[invitation := i]> d in
          d ← queue_invitation a d;
          d ← org_audit (in_audit_id a) org session s (lit "member.invite") (lit "invitation")
                (uuid_to_string invitation) (in_request_id a) (in_now a) d;
          Some (Some (invitation, i), d)
      end
  | None => Some (None, d)
  end.

(** The invitation of a token. *)
Definition invitation_of (hash : list Z) (d : Db) : option (Uuid * InvitationRow) :=
  head (List.filter (λ ki, bool_decide (i_token_hash ki.2 = hash)) (map_to_list (invitations (directory d)))).
Definition accept_row (user : Uuid) (i : InvitationRow) : InvitationRow :=
  mk_invitation_row (i_organization i) (i_email i) (i_role i) (i_token_hash i) IAccepted (i_expires_at_ms i)
    (Some user) (i_created_by i) (i_created_at_ms i).
Definition acceptable (now : Z) (s : SessionRow) (i : InvitationRow) : bool :=
  bool_decide (i_status i = IPending) && (now <? i_expires_at_ms i)
  && (negb (bool_decide (i_role i = OWNER) || bool_decide (i_role i = ADMIN)) || stepped_up s).

(** accept_invitation.sql *)
Definition accept_invitation (session : Uuid) (hash : list Z) (now : Z) (audit_id : Uuid) (request_id : str)
    (id : Uuid) (d : Db) : option (option OrgOut * Db) :=
  match (s ← account_actor session now d; u ← users d !! s_user s;
         ki ← invitation_of hash d; o ← active_organization (i_organization ki.2) d;
         if bool_decide (i_email ki.2 = u_normalized_email u) && acceptable now s ki.2
         then Some (s, ki, o) else None) with
  | Some (s, (k, i), o) =>
      let org := i_organization i in
      let out := mk_org_out org o (i_role i) (permissions_of org (i_role i) d) in
      let d := set_invitations <[k := accept_row (s_user s) i]> d in
      match one_time_tokens d !! hash with
      | Some t =>
          if negb (open_invitation_token t) then Some (None, d) else
          let d := set_one_time_tokens <[hash := consume_row now t]> d in
          d ← upsert_membership org (s_user s) (i_role i) now id d;
          let d := set_sessions <[session := select_row (Some org) s]> d in
          d ← org_audit audit_id org session s (lit "invitation.accept") (lit "invitation") (uuid_to_string k)
                request_id now d;
          Some (Some out, d)
      | None => Some (None, d)
      end
  | None => Some (None, d)
  end.

(** The pending invitation that revoke_invitation.sql and
    resend_invitation.sql lock. *)
Definition locked_invitation (session org invitation : Uuid) (now : Z) (d : Db) :
    option (SessionRow * InvitationRow) :=
  sm ← privileged_actor (lit "member.invite") session org now d;
  i ← invitations (directory d) !! invitation;
  if pending_in org i then Some (sm.1, i) else None.
Definition consume_invitation_token (hash : list Z) (now : Z) : Db → Db :=
  set_one_time_tokens (update_rows (λ h t, bool_decide (h = hash) && open_invitation_token t) (consume_row now)).

(** revoke_invitation.sql *)
Definition revoke_invitation (session org invitation : Uuid) (now : Z) (audit_id : Uuid) (request_id : str)
    (d : Db) : option (option (Uuid * InvitationRow) * Db) :=
  match locked_invitation session org invitation now d with
  | Some (s, i) =>
      let i' := with_invitation_status IRevoked i in
      let d := set_invitations <[invitation := i']> d in
      let d := consume_invitation_token (i_token_hash i) now d in
      d ← org_audit audit_id org session s (lit "member.invite.revoke") (lit "invitation")
            (uuid_to_string invitation) request_id now d;
      Some (Some (invitation, i'), d)
  | None => Some (None, d)
  end.

Definition rotate_invitation (hash : list Z) (expires : Z) (i : InvitationRow) : InvitationRow :=
  mk_invitation_row (i_organization i) (i_email i) (i_role i) hash (i_status i) expires
    (i_accepted_by i) (i_created_by i) (i_created_at_ms i).
(** resend_invitation.sql *)
Definition resend_invitation (session org invitation : Uuid) (a : InviteArgs) (d : Db) :
    option (option (Uuid * InvitationRow) * Db) :=
  match locked_invitation session org invitation (in_now a) d with
  | Some (s, i) =>
      let d := consume_invitation_token (i_token_hash i) (in_now a) d in
      if negb (bool_decide (in_token_hash a = i_token_hash i)) && hash_taken (in_token_hash a) d then None else
      let i' := rotate_invitation (in_token_hash a) (in_expires a) i in
      let d := set_invitations <[invitation := i']> d in
      d ← queue_invitation a d;
      d ← org_audit (in_audit_id a) org session s (lit "member.invite.resend") (lit "invitation")
            (uuid_to_string invitation) (in_request_id a) (in_now a) d;
      Some (Some (invitation, i'), d)
  | None => Some (None, d)
  end.

(** ** System administration *)

Definition administrator_actor (session : Uuid) (now : Z) (d : Db) : option SessionRow :=
  s ← account_actor session now d;
  if is_administrator (s_user s) d && stepped_up s then Some s else None.

(** The memberships that set_user_disabled.sql changes. *)
Definition held_memberships (user : Uuid) (d : Db) : gmap (Uuid * Uuid) MembershipRow :=
  filter (λ km, km.1.2 = user ∧ (m_status km.2 = MActive ∨ m_status km.2 = MBlocked))
    (memberships (directory d)).
Definition may_disable (user : Uuid) (d : Db) : bool :=
  forallb (λ km, negb (is_owner km.2) || more_owners km.1.1 d) (map_to_list (held_memberships user d)).
Definition toggled (disabled : bool) (m : MembershipRow) : MembershipRow :=
  with_member_status (if disabled then MBlocked else MActive) m.
Definition toggle_memberships (disabled : bool) (now : Z) (ids : Uuid → Uuid)
    (rows : list ((Uuid * Uuid) * MembershipRow)) (d : Db) : option Db :=
  update_memberships (toggled disabled) now ids rows d.
Definition disable_session_row (disabled : bool) (now : Z) (s : SessionRow) : SessionRow :=
  mk_session (s_user s) (s_organization s) (s_assurance s) (s_revision s + 1) (s_user_security_revision s)
    (s_expires_at_ms s) (if disabled then Some now else s_revoked_at_ms s) (s_created_at_ms s).

(** set_user_disabled.sql; [ids] draws an identifier for each organization. *)
Definition set_user_disabled (session user : Uuid) (disabled : bool) (now : Z) (audit_id : Uuid)
    (request_id : str) (ids : Uuid → Uuid) (d : Db) : option (option (Uuid * UserRow) * Db) :=
  match (s ← administrator_actor session now d; u ← users d !! user;
         if negb (bool_decide (u_status u = UAnonymized)) && (negb disabled || may_disable user d)
         then Some (s, u) else None) with
  | Some (s, u) =>
      let u := mk_user (u_normalized_email u) (u_primary_email u) (if disabled then UDisabled else UActive)
                 (u_security_revision u + 1) (u_created_at_ms u) in
      let held := map_to_list (held_memberships user d) in
      let d := set_users <[user := u]> d in
      d ← toggle_memberships disabled now ids held d;
      let d := set_sessions (update_rows
        (λ _ s', bool_decide (s_user s' = user) && (disabled || bool_decide (s_revoked_at_ms s' = None)))
        (disable_session_row disabled now)) d in
      d ← insert_audit (mk_audit audit_id (Some (s_user s)) (Some session)
            (lit (if disabled then "system.user.disable" else "system.user.enable"))
            (lit "user", uuid_to_string user) true request_id now) d;
      Some (Some (user, u), d)
  | None => Some (None, d)
  end.

(** ** Queries *)

(** get_organization.sql *)
Definition get_organization (session org : Uuid) (now : Z) (d : Db) : option OrgOut :=
  '(_, m) ← member_actor session org now d;
  o ← active_organization org d;
  Some (mk_org_out org o (m_role m) (permissions_of org (m_role m) d)).

(** list_organizations.sql: [ORDER BY created_at_ms, organization_id] *)
Definition org_order (a b : OrgOut) : Prop :=
  o_created_at_ms (oo_row a) < o_created_at_ms (oo_row b)
  ∨ (o_created_at_ms (oo_row a) = o_created_at_ms (oo_row b) ∧ str_le (oo_organization a) (oo_organization b)).
#[export] Instance org_order_dec : RelDecision org_order.
Proof. intros a b. unfold org_order. apply _. Defined.
Definition list_organizations (user : Uuid) (d : Db) : list OrgOut :=
  merge_sort org_order
    (omap (λ ko, m ← active_membership ko.1 user d;
                 if o_active ko.2
                 then Some (mk_org_out ko.1 ko.2 (m_role m) (permissions_of ko.1 (m_role m) d)) else None)
       (map_to_list (organizations (directory d)))).

(** list_memberships.sql: [ORDER BY primary_email, user_id] *)
Definition member_order (a b : MemberOut) : Prop :=
  if bool_decide (mo_primary_email a = mo_primary_email b) then str_le (mo_user a) (mo_user b)
  else str_le (mo_primary_email a) (mo_primary_email b).
#[export] Instance member_order_dec : RelDecision member_order.
Proof. intros a b. unfold member_order. case_bool_decide; apply _. Defined.
Definition list_memberships (session org : Uuid) (now : Z) (d : Db) : list MemberOut :=
  match permitted_actor (lit "member.view") session org now d with
  | None => []
  | Some _ =>
      merge_sort member_order
        (omap (λ km, if bool_decide (km.1.1 = org)
                     then (λ u, mk_member_out org km.1.2 (u_primary_email u) km.2) <$> users d !! km.1.2 else None)
           (map_to_list (memberships (directory d))))
  end.

(** list_roles.sql: [ORDER BY built_in DESC, name, role_id]; a name is unique
    in its organization. *)
Definition role_order (a b : RoleOut) : Prop :=
  if bool_decide (ro_built_in a = ro_built_in b) then str_le (ro_name a) (ro_name b)
  else ro_built_in a = true.
#[export] Instance role_order_dec : RelDecision role_order.
Proof. intros a b. unfold role_order. case_bool_decide; apply _. Defined.
Definition list_roles (session org : Uuid) (now : Z) (d : Db) : list RoleOut :=
  match permitted_actor (lit "role.view") session org now d with
  | None => []
  | Some _ =>
      merge_sort role_order
        (omap (λ kr, if bool_decide (kr.1.1 = org)
                     then Some (mk_role_out org kr.1.2 (r_name kr.2) (r_built_in kr.2) (permissions_of org kr.1.2 d))
                     else None)
           (map_to_list (org_roles (directory d))))
  end.

(** list_invitations.sql: [None] for an actor that may not see them;
    [ORDER BY created_at_ms DESC] *)
Definition invitation_order (a b : Uuid * InvitationRow) : Prop :=
  i_created_at_ms b.2 < i_created_at_ms a.2
  ∨ (i_created_at_ms a.2 = i_created_at_ms b.2 ∧ str_le a.1 b.1).
#[export] Instance invitation_order_dec : RelDecision invitation_order.
Proof. intros a b. unfold invitation_order. apply _. Defined.
Definition list_invitations (session org : Uuid) (now : Z) (d : Db) : option (list (Uuid * InvitationRow)) :=
  _ ← permitted_actor (lit "member.view") session org now d;
  Some (merge_sort invitation_order
    (List.filter (λ ki, bool_decide (i_organization ki.2 = org)) (map_to_list (invitations (directory d))))).

(** list_admin_users.sql: [ORDER BY created_at_ms DESC, user_id] *)
Definition admin_order (a b : Uuid * UserRow) : Prop :=
  u_created_at_ms b.2 < u_created_at_ms a.2 ∨ (u_created_at_ms a.2 = u_created_at_ms b.2 ∧ str_le a.1 b.1).
#[export] Instance admin_order_dec : RelDecision admin_order.
Proof. intros a b. unfold admin_order. apply _. Defined.
Definition list_admin_users (session : Uuid) (now : Z) (d : Db) : list (Uuid * UserRow) :=
  match administrator_actor session now d with
  | None => []
  | Some _ => merge_sort admin_order (map_to_list (users d))
  end.

(** list_audit_events.sql: [None] for an actor that may not see them; the
    sequence number of a record is its position. *)
Definition audit_authorized (session : Uuid) (org : option Uuid) (now : Z) (d : Db) : bool :=
  match account_actor session now d with
  | None => false
  | Some s =>
      (is_administrator (s_user s) d && stepped_up s)
      || match org with
         | Some org =>
             match active_membership org (s_user s) d with
             | Some m => holds org (m_role m) (lit "audit.view") d
             | None => false
             end
         | None => false
         end
  end.
Definition sequenced (l : list AuditRow) : list (Z * AuditRow) :=
  zip (map Z.of_nat (seq 1 (length l))) l.
Definition list_audit_events (session : Uuid) (org : option Uuid) (after limit now : Z) (d : Db) :
    option (list (Z * AuditRow)) :=
  if audit_authorized session org now d then
    Some (take (Z.to_nat limit)
      (List.filter (λ sa, (after <? sa.1)
         && match org with Some o => bool_decide (a_organization sa.2 = Some o) | None => true end)
         (sequenced (audit d))))
  else None.

(** ** The statements that write *)

Inductive OrgStatement :=
| CreateOrganization (a : CreateOrgArgs) (id : Uuid)
| SelectOrganization (session org : Uuid) (now : Z) (aid : Uuid) (rid : str)
| UpdateOrganization (session org : Uuid) (name : str) (now : Z) (aid : Uuid) (rid : str)
| ArchiveOrganization (session org : Uuid) (now : Z) (aid : Uuid) (rid : str)
| UpsertRole (session org : Uuid) (role name : str) (permissions : list str) (now : Z) (aid : Uuid) (rid : str)
| DeleteRole (session org : Uuid) (role : str) (now : Z) (aid : Uuid) (rid : str)
| AssignRole (session org user : Uuid) (role : str) (now : Z) (aid : Uuid) (rid : str) (id : Uuid)
| RemoveMember (session org user : Uuid) (now : Z) (aid : Uuid) (rid : str) (id : Uuid)
| LeaveOrganization (session org : Uuid) (now : Z) (aid : Uuid) (rid : str) (id : Uuid)
| TransferOwnership (session org target : Uuid) (now : Z) (aid : Uuid) (rid : str) (id id' : Uuid)
| CreateInvitation (session org : Uuid) (email role : str) (invitation : Uuid) (a : InviteArgs)
| AcceptInvitation (session : Uuid) (hash : list Z) (now : Z) (aid : Uuid) (rid : str) (id : Uuid)
| RevokeInvitation (session org invitation : Uuid) (now : Z) (aid : Uuid) (rid : str)
| ResendInvitation (session org invitation : Uuid) (a : InviteArgs)
| SetUserDisabled (session user : Uuid) (disabled : bool) (now : Z) (aid : Uuid) (rid : str) (ids : Uuid → Uuid).

Definition org_run (stmt : OrgStatement) (d : Db) : option Db :=
  match stmt with
  | CreateOrganization a id => snd <$> create_organization a id d
  | SelectOrganization session org now aid rid => snd <$> select_organization session org now aid rid d
  | UpdateOrganization session org name now aid rid => snd <$> update_organization session org name now aid rid d
  | ArchiveOrganization session org now aid rid => snd <$> archive_organization session org now aid rid d
  | UpsertRole session org role name ps now aid rid => snd <$> upsert_role session org role name ps now aid rid d
  | DeleteRole session org role now aid rid => snd <$> delete_role session org role now aid rid d
  | AssignRole session org user role now aid rid id =>
      snd <$> assign_membership_role session org user role now aid rid id d
  | RemoveMember session org user now aid rid id => snd <$> remove_membership session org user now aid rid id d
  | LeaveOrganization session org now aid rid id => snd <$> leave_organization session org now aid rid id d
  | TransferOwnership session org target now aid rid id id' =>
      snd <$> transfer_ownership session org target now aid rid id id' d
  | CreateInvitation session org email role invitation a =>
      snd <$> create_invitation session org email role invitation a d
  | AcceptInvitation session hash now aid rid id => snd <$> accept_invitation session hash now aid rid id d
  | RevokeInvitation session org invitation now aid rid =>
      snd <$> revoke_invitation session org invitation now aid rid d
  | ResendInvitation session org invitation a => snd <$> resend_invitation session org invitation a d
  | SetUserDisabled session user disabled now aid rid ids =>
      snd <$> set_user_disabled session user disabled now aid rid ids d
  end.
End organizations.
