(* ===== verification/KernelHistory.v ===== *)
(** * KernelHistory: what no statement can undo

    [kstep] is the step relation of the relational kernel: one execution of a
    statement of [Kernel], or of any other statement of the library, of which
    it assumes what [foreign] says (they leave refresh tokens alone, touch
    only invitations among the one-time tokens, and respect the history).
    [evolves] is the history relation that every step preserves: rows are
    never deleted, revocation, consumption and rotation are final, revisions
    grow, and the permissions of an organization's roles change only with its
    authorization revision.  The theorems on sessions and tokens follow from
    it by induction on the steps. *)

From S2P Require Export Kernel.
Open Scope Z_scope.

#[local] Arguments lit : simpl never.

(** ** The history relation *)

Definition tbl `{Countable K} {V} (R : V → V → Prop) (m m' : gmap K V) : Prop :=
  ∀ k v, m !! k = Some v → ∃ v', m' !! k = Some v' ∧ R v v'.

Definition session_evolves (s s' : SessionRow) : Prop :=
  s_user s' = s_user s ∧ s_created_at_ms s' = s_created_at_ms s
  ∧ s_expires_at_ms s ≤ s_expires_at_ms s'
  ∧ s_user_security_revision s ≤ s_user_security_revision s'
  ∧ s_revision s ≤ s_revision s'
  ∧ (s_revoked_at_ms s ≠ None → s_revoked_at_ms s' ≠ None)
  ∧ (s_revoked_at_ms s' = None → s_revision s' = s_revision s → s' = s).
Definition user_evolves (u u' : UserRow) : Prop :=
  u_normalized_email u' = u_normalized_email u ∧ u_primary_email u' = u_primary_email u
  ∧ u_security_revision u ≤ u_security_revision u'.
Definition refresh_evolves (r r' : RefreshRow) : Prop :=
  rt_session r' = rt_session r ∧ rt_family r' = rt_family r
  ∧ rt_expires_at_ms r' = rt_expires_at_ms r
  ∧ (rt_rotated_at_ms r ≠ None →
     rt_rotated_at_ms r' = rt_rotated_at_ms r ∧ rt_successor_hash r' = rt_successor_hash r
     ∧ rt_successor_key_version r' = rt_successor_key_version r
     ∧ rt_successor_ciphertext r' = rt_successor_ciphertext r
     ∧ rt_replay_until_ms r' = rt_replay_until_ms r)
  ∧ (rt_revoked_at_ms r ≠ None → rt_revoked_at_ms r' ≠ None).
Definition token_evolves (t t' : OneTimeRow) : Prop :=
  ot_purpose t' = ot_purpose t ∧ ot_user t' = ot_user t
  ∧ ot_expires_at_ms t' = ot_expires_at_ms t
  ∧ (ot_consumed_at_ms t ≠ None → ot_consumed_at_ms t' ≠ None).

Section history.
Context `{UuidText}.

Definition roles_of (org : Uuid) (d : Db) (role : str) : option (gset str) :=
  granted_permissions (directory d) !! (org, role).
(** The permissions of an organization change only with its revision. *)
Definition directory_evolves (d d' : Db) : Prop :=
  ∀ org rev, authorization_revision (mail_outbox d) !! uuid_to_string org = Some rev →
  ∃ rev', authorization_revision (mail_outbox d') !! uuid_to_string org = Some rev'
    ∧ rev ≤ rev' ∧ (rev' = rev → ∀ role, roles_of org d' role = roles_of org d role).

Record evolves (d d' : Db) : Prop := {
  ev_sessions : tbl session_evolves (sessions d) (sessions d');
  ev_users : tbl user_evolves (users d) (users d');
  ev_refresh : tbl refresh_evolves (refresh_tokens d) (refresh_tokens d');
  ev_tokens : tbl token_evolves (one_time_tokens d) (one_time_tokens d');
  ev_idempotency : tbl eq (idempotency d) (idempotency d');
  ev_directory : directory_evolves d d';
}.

(** The statements of the library that [Kernel] does not define.
    [OrganizationHistory] and [CredentialHistory] show this of the statements
    on organizations, roles and invitations and of multi-factor step-up, OAuth
    and passkey logins, [Administration] of policies and signing keys; of the
    outbox workers it is the assumption that they write other tables. *)
Record foreign (d d' : Db) : Prop := {
  fo_evolves : evolves d d';
  fo_refresh : refresh_tokens d' = refresh_tokens d;
  fo_tokens : ∀ h t, ot_purpose t ≠ InvitationToken →
    one_time_tokens d' !! h = Some t ↔ one_time_tokens d !! h = Some t;
}.

(** [uuid_v7] draws a family identifier that no token has. *)
Definition fresh_family (family : Uuid) (d : Db) : Prop :=
  ∀ h r, refresh_tokens d !! h = Some r → rt_family r ≠ family.

Inductive kstep : Db → Db → Prop :=
| k_issue session hash family expires now aid rid o d d' :
    fresh_family family d →
    issue_token_pair session hash family expires now aid rid d = Some (o, d') → kstep d d'
| k_rotate a o d d' : rotate_refresh_token a d = Some (o, d') → kstep d d'
| k_revoke target actor now aid rid o d d' :
    revoke_session target actor now aid rid d = Some (o, d') → kstep d d'
| k_register a o d d' : register_password a d = Some (o, d') → kstep d d'
| k_verify hash now session expires aid rid boot o d d' :
    verify_email hash now session expires aid rid boot d = Some (o, d') → kstep d d'
| k_resend email bucket a o d d' :
    resend_email_verification email bucket a d = Some (o, d') → kstep d d'
| k_rate key maximum window now o d d' :
    check_rate_limit key maximum window now d = Some (o, d') → kstep d d'
| k_start_reset email a o d d' : start_password_reset email a d = Some (o, d') → kstep d d'
| k_login user email hash session expires now aid rid o d d' :
    issue_password_session user email hash session expires now aid rid d = Some (o, d') → kstep d d'
| k_change user session old new now aid rid o d d' :
    change_password user session old new now aid rid d = Some (o, d') → kstep d d'
| k_reset hash now password session expires aid rid o d d' :
    complete_password_reset hash now password session expires aid rid d = Some (o, d') → kstep d d'
| k_foreign d d' : foreign d d' → kstep d d'.

(** A run from the migrated database, in which no refresh token exists yet. *)
Definition kernel_reachable (d : Db) : Prop := ∃ d0, refresh_tokens d0 = ∅ ∧ rtc kstep d0 d.
End history.

(** ** [evolves] is a preorder *)

#[export] Instance tbl_refl `{Countable K} {V} (R : V → V → Prop) `{!Reflexive R} :
  Reflexive (tbl (K := K) R).
Proof. intros m k v Hv. eauto. Qed.
#[export] Instance tbl_trans `{Countable K} {V} (R : V → V → Prop) `{!Transitive R} :
  Transitive (tbl (K := K) R).
Proof.
  intros m1 m2 m3 H12 H23 k v Hv. destruct (H12 k v Hv) as (v2 & Hv2 & ?).
  destruct (H23 k v2 Hv2) as (v3 & ? & ?). exists v3. split; [done|]. by etrans.
Qed.
Lemma tbl_insert_new `{Countable K} {V} (R : V → V → Prop) `{!Reflexive R} (m : gmap K V) k v :
  m !! k = None → tbl R m (<[k := v]> m).
Proof.
  intros Hk k' v' Hv. exists v'. split; [|done].
  rewrite lookup_insert_ne; [done|]. intros ->. congruence.
Qed.
Lemma tbl_insert_old `{Countable K} {V} (R : V → V → Prop) `{!Reflexive R} (m : gmap K V) k v v' :
  m !! k = Some v → R v v' → tbl R m (<[k := v']> m).
Proof.
  intros Hk HR k' w Hw. destruct (decide (k = k')) as [->|].
  - exists v'. rewrite lookup_insert_eq. split; [done|]. by simplify_eq.
  - exists w. by rewrite lookup_insert_ne.
Qed.
Lemma tbl_update_rows `{Countable K} {V} (R : V → V → Prop) `{!Reflexive R} p f (m : gmap K V) :
  (∀ k v, m !! k = Some v → p k v = true → R v (f v)) → tbl R m (update_rows p f m).
Proof.
  intros HR k v Hv. rewrite lookup_update_rows, Hv. cbn. eexists. split; [done|].
  destruct (p k v) eqn:E; [by eapply HR|done].
Qed.

#[export] Instance session_evolves_refl : Reflexive session_evolves.
Proof. intros s. unfold session_evolves. split_and!; done || lia. Qed.
#[export] Instance session_evolves_trans : Transitive session_evolves.
Proof.
  intros s1 s2 s3 (?&?&?&?&?&R12&E12) (?&?&?&?&?&R23&E23). unfold session_evolves.
  split_and!; try lia; try congruence; [by auto|]. intros Hn Hr.
  assert (s_revoked_at_ms s2 = None) as Hn2.
  { destruct (s_revoked_at_ms s2) eqn:E; [|done]. by destruct R23. }
  rewrite (E23 Hn) by lia. apply E12; [done|lia].
Qed.
#[export] Instance user_evolves_refl : Reflexive user_evolves.
Proof. intros u. unfold user_evolves. split_and!; done || lia. Qed.
#[export] Instance user_evolves_trans : Transitive user_evolves.
Proof. intros u1 u2 u3 (?&?&?) (?&?&?). unfold user_evolves. split_and!; congruence || lia. Qed.
#[export] Instance refresh_evolves_refl : Reflexive refresh_evolves.
Proof. intros r. unfold refresh_evolves. naive_solver. Qed.
#[export] Instance refresh_evolves_trans : Transitive refresh_evolves.
Proof.
  intros r1 r2 r3 (?&?&?&H12&K12) (?&?&?&H23&K23). unfold refresh_evolves.
  split_and!; try congruence; [|by auto].
  intros Hr. destruct (H12 Hr) as (?&?&?&?&?).
  destruct H23 as (?&?&?&?&?); [congruence|]. split_and!; congruence.
Qed.
#[export] Instance token_evolves_refl : Reflexive token_evolves.
Proof. intros t. unfold token_evolves. naive_solver. Qed.
#[export] Instance token_evolves_trans : Transitive token_evolves.
Proof. intros t1 t2 t3 (?&?&?&?) (?&?&?&?). unfold token_evolves. split_and!; congruence || auto. Qed.

Section lemmas.
Context `{UuidText}.

#[export] Instance evolves_refl : Reflexive evolves.
Proof.
  intros d. split; try reflexivity. intros org rev Hr. exists rev. split_and!; done || lia.
Qed.
#[export] Instance evolves_trans : Transitive evolves.
Proof.
  intros d1 d2 d3 [A1 A2 A3 A4 A5 A6] [B1 B2 B3 B4 B5 B6]. split; try (by etrans; eauto).
  intros org rev Hr. destruct (A6 org rev Hr) as (r2 & Hr2 & ? & E2).
  destruct (B6 org r2 Hr2) as (r3 & Hr3 & ? & E3). exists r3. split_and!; [done|lia|].
  intros -> role. rewrite E3 by lia. apply E2. lia.
Qed.

(** One table changed, the others as they were. *)
Lemma evolves_sessions f d : tbl session_evolves (sessions d) (f (sessions d)) → evolves d (set_sessions f d).
Proof. intros Hs. destruct (evolves_refl d). by split. Qed.
Lemma evolves_users f d : tbl user_evolves (users d) (f (users d)) → evolves d (set_users f d).
Proof. intros Hs. destruct (evolves_refl d). by split. Qed.
Lemma evolves_refresh f d :
  tbl refresh_evolves (refresh_tokens d) (f (refresh_tokens d)) → evolves d (set_refresh_tokens f d).
Proof. intros Hs. destruct (evolves_refl d). by split. Qed.
Lemma evolves_tokens f d :
  tbl token_evolves (one_time_tokens d) (f (one_time_tokens d)) → evolves d (set_one_time_tokens f d).
Proof. intros Hs. destruct (evolves_refl d). by split. Qed.
Lemma evolves_idempotency f d : tbl eq (idempotency d) (f (idempotency d)) → evolves d (set_idempotency f d).
Proof. intros Hs. destruct (evolves_refl d). by split. Qed.
Lemma evolves_passwords f d : evolves d (set_passwords f d).
Proof. destruct (evolves_refl d). by split. Qed.
Lemma evolves_buckets f d : evolves d (set_buckets f d).
Proof. destruct (evolves_refl d). by split. Qed.
Lemma evolves_administrators f d : evolves d (set_directory (set_administrators f) d).
Proof. destruct (evolves_refl d). by split. Qed.
Lemma evolves_audit f d : evolves d (set_audit f d).
Proof. destruct (evolves_refl d). by split. Qed.
Lemma evolves_mail_outbox t d :
  authorization_revision t = authorization_revision (mail_outbox d) → evolves d (set_mail_outbox (λ _, t) d).
Proof.
  intros Ht. destruct (evolves_refl d). split; try done.
  intros org rev Hr. exists rev. cbn. rewrite Ht. split_and!; done || lia.
Qed.
End lemmas.

(** Rows that were revoked or consumed in place. *)
Lemma revoke_session_row_evolves now s : session_evolves s (revoke_session_row now s).
Proof. unfold session_evolves; cbn. split_and!; done || lia. Qed.
Lemma expel_session_row_evolves now s : session_evolves s (expel_session_row now s).
Proof. unfold session_evolves; cbn. split_and!; done || lia. Qed.
Lemma revoke_refresh_row_evolves now r : refresh_evolves r (revoke_refresh_row now r).
Proof. unfold refresh_evolves; cbn. naive_solver. Qed.
Lemma consume_row_evolves now t : token_evolves t (consume_row now t).
Proof. unfold token_evolves; cbn. naive_solver. Qed.
Lemma bump_security_revision_evolves u : user_evolves u (bump_security_revision u).
Proof. unfold user_evolves; cbn. split_and!; done || lia. Qed.

#[export] Hint Resolve revoke_session_row_evolves expel_session_row_evolves revoke_refresh_row_evolves
  consume_row_evolves bump_security_revision_evolves : wauth.

(** Successful inserts. *)
Lemma insert_session_Some id s d d' :
  insert_session id s d = Some d' ↔ sessions d !! id = None ∧ d' = set_sessions <[id := s]> d.
Proof. unfold insert_session. destruct (sessions d !! id); naive_solver. Qed.
Lemma insert_refresh_token_Some h r d d' :
  insert_refresh_token h r d = Some d' ↔
  refresh_tokens d !! h = None ∧ d' = set_refresh_tokens <[h := r]> d.
Proof. unfold insert_refresh_token. destruct (refresh_tokens d !! h); naive_solver. Qed.
Lemma insert_one_time_token_Some h r d d' :
  insert_one_time_token h r d = Some d' ↔
  one_time_tokens d !! h = None ∧ d' = set_one_time_tokens <[h := r]> d.
Proof. unfold insert_one_time_token. destruct (one_time_tokens d !! h); naive_solver. Qed.
Lemma insert_audit_Some r d d' :
  insert_audit r d = Some d' ↔
  existsb (λ r', bool_decide (a_id r' = a_id r)) (audit d) = false
  ∧ d' = set_audit (λ l, l ++ [r]) d.
Proof. unfold insert_audit. destruct existsb; naive_solver. Qed.
Lemma insert_mail_Some id key v c at_ms d d' :
  insert_mail id key v c at_ms d = Some d' ↔
  ∃ t, enqueue_mail id key v c at_ms (mail_outbox d) = Some t ∧ d' = set_mail_outbox (λ _, t) d.
Proof. unfold insert_mail. rewrite bind_Some. naive_solver. Qed.
Lemma enqueue_mail_revision id key v c at_ms t t' :
  enqueue_mail id key v c at_ms t = Some t' → authorization_revision t' = authorization_revision t.
Proof. unfold enqueue_mail. destruct (_ && _); naive_solver. Qed.

(** Opens a statement: its guards become equations, its inserts the states
    they lead to. *)
Ltac open_inserts :=
  repeat match goal with
  | E : insert_session _ _ _ = Some _ |- _ => apply insert_session_Some in E as [? ->]
  | E : insert_refresh_token _ _ _ = Some _ |- _ => apply insert_refresh_token_Some in E as [? ->]
  | E : insert_one_time_token _ _ _ = Some _ |- _ => apply insert_one_time_token_Some in E as [? ->]
  | E : insert_audit _ _ = Some _ |- _ => apply insert_audit_Some in E as [? ->]
  | E : insert_mail _ _ _ _ _ _ = Some _ |- _ => apply insert_mail_Some in E as (? & ? & ->)
  end.
Ltac open_stmt E :=
  repeat match type of E with
  | (let _ := _ in _) = Some _ => cbv zeta in E
  | (_ ≫= _) = Some _ => apply bind_Some in E as (? & ? & E)
  | match ?x with Some _ => _ | None => _ end = Some _ => destruct x eqn:?
  | (if ?c then _ else _) = Some _ => destruct c eqn:?
  | (let '(_, _) := ?x in _) = Some _ => destruct x eqn:?
  | None = Some _ => discriminate E
  end; try discriminate E; try first [injection E as <- <- | injection E as <-]; open_inserts.

(** Peels the last table update of a statement. *)
Ltac evolve_last :=
  match goal with
  | |- evolves ?d ?d => reflexivity
  | |- evolves _ (set_audit _ _) => etrans; [|apply evolves_audit]
  | |- evolves _ (set_passwords _ _) => etrans; [|apply evolves_passwords]
  | |- evolves _ (set_buckets _ _) => etrans; [|apply evolves_buckets]
  | |- evolves _ (set_directory (set_administrators _) _) => etrans; [|apply evolves_administrators]
  | |- evolves _ (set_mail_outbox _ _) =>
      etrans; [|apply evolves_mail_outbox; by eapply enqueue_mail_revision]
  | |- evolves _ (set_sessions _ _) => etrans; [|apply evolves_sessions]
  | |- evolves _ (set_users _ _) => etrans; [|apply evolves_users]
  | |- evolves _ (set_refresh_tokens _ _) => etrans; [|apply evolves_refresh]
  | |- evolves _ (set_one_time_tokens _ _) => etrans; [|apply evolves_tokens]
  | |- evolves _ (set_idempotency _ _) => etrans; [|apply evolves_idempotency]
  | |- tbl _ _ (<[_ := _]> _) =>
      first [ apply tbl_insert_new; [apply _|cbn; solve [eauto]]
            | eapply tbl_insert_old; [apply _|cbn; eassumption|]; try solve [eauto with wauth] ]
  | |- tbl _ _ (update_rows _ _ _) => apply tbl_update_rows; [apply _|]; intros; solve [eauto with wauth]
  end.
Ltac evolve := repeat evolve_last.

(** A user found through a chain of lookups. *)
Ltac open_lookups :=
  repeat match goal with
  | E : (_ ≫= _) = Some _ |- _ => apply bind_Some in E as (? & ? & E)
  end; simplify_eq; cbn [users passwords sessions refresh_tokens one_time_tokens directory buckets
    set_users set_passwords set_sessions set_refresh_tokens set_one_time_tokens set_directory
    set_buckets] in *.

Section evolution.
Context `{UuidText}.

Lemma issue_token_pair_evolves session hash family expires now aid rid o d d' :
  issue_token_pair session hash family expires now aid rid d = Some (o, d') → evolves d d'.
Proof. unfold issue_token_pair. intros E. open_stmt E; evolve. Qed.

Lemma current_token_Some a d r s u :
  current_token a d = Some (r, s, u) →
  refresh_tokens d !! ro_current a = Some r ∧ sessions d !! rt_session r = Some s
  ∧ users d !! s_user s = Some u
  ∧ (∀ b, ro_bound_session a = Some b → b = rt_session r).
Proof.
  unfold current_token. intros E. open_stmt E.
  destruct (ro_bound_session a) as [b|] eqn:Eb; bprop; simplify_eq; naive_solver.
Qed.
Lemma rotatable_spec now r s u :
  rotatable now r s u = true ↔
  rt_rotated_at_ms r = None ∧ rt_revoked_at_ms r = None ∧ now < rt_expires_at_ms r
  ∧ live_session now s u = true.
Proof. unfold rotatable. bprop. tauto. Qed.

Lemma rotate_token_evolves a r s u d d' :
  current_token a d = Some (r, s, u) → rotatable (ro_now a) r s u = true →
  rotate_token a r s d = Some d' → evolves d d'.
Proof.
  intros (Hr & Hs & _)%current_token_Some (Hrot & Hrev & _ & (Hlive & _)%live_session_spec)%rotatable_spec E.
  unfold rotate_token in E. open_stmt E. cbn in *. evolve.
  - unfold refresh_evolves; cbn. split_and!; done.
  - unfold session_evolves; cbn. split_and!; done || lia.
Qed.

Lemma detect_reuse_evolves a r s u o d d' :
  current_token a d = Some (r, s, u) → detect_reuse a r s d = Some (o, d') → evolves d d'.
Proof.
  intros (Hr & Hs & _)%current_token_Some. unfold detect_reuse. intros E. open_stmt E; evolve.
Qed.

Lemma rotate_refresh_token_evolves a o d d' :
  rotate_refresh_token a d = Some (o, d') → evolves d d'.
Proof.
  unfold rotate_refresh_token. destruct (current_token a d) as [[[r s] u]|] eqn:Ec; [|by intros [= <- <-]].
  intros E. destruct rotatable eqn:Er.
  - open_stmt E. by eapply rotate_token_evolves.
  - destruct replayable as [[v c]|]; [by injection E as <- <-|].
    destruct (_ && _); [by eapply detect_reuse_evolves|by injection E as <- <-].
Qed.

Lemma revoke_session_evolves target actor now aid rid o d d' :
  revoke_session target actor now aid rid d = Some (o, d') → evolves d d'.
Proof. unfold revoke_session. intros E. open_stmt E; evolve. Qed.

Lemma register_password_evolves a o d d' : register_password a d = Some (o, d') → evolves d d'.
Proof.
  unfold register_password. intros E. open_stmt E; try reflexivity.
  match goal with H : insert_registration _ _ = Some _ |- _ => rename H into E end.
  unfold insert_registration in E. open_stmt E. evolve.
Qed.

Lemma open_session_evolves session user revision expires now aid action resource rid o d d' :
  open_session session user revision expires now aid action resource rid d = Some (o, d') → evolves d d'.
Proof. unfold open_session. intros E. open_stmt E. evolve. Qed.

Lemma activate_evolves u : user_evolves u (set_user_status UActive u).
Proof. unfold user_evolves; cbn. split_and!; done || lia. Qed.

Lemma verify_email_evolves hash now session expires aid rid boot o d d' :
  verify_email hash now session expires aid rid boot d = Some (o, d') → evolves d d'.
Proof.
  unfold verify_email. intros E. open_stmt E; evolve.
  etrans; [|by eapply open_session_evolves]. open_lookups.
  destruct (_ && _); evolve; cbn; by eauto using activate_evolves.
Qed.

Lemma count_attempt_evolves key window renewal now b d d' :
  count_attempt key window renewal now d = Some (b, d') → evolves d d'.
Proof. unfold count_attempt. intros E. open_stmt E; evolve. Qed.

Lemma check_rate_limit_evolves key maximum window now o d d' :
  check_rate_limit key maximum window now d = Some (o, d') → evolves d d'.
Proof. unfold check_rate_limit. intros E. open_stmt E. by eapply count_attempt_evolves. Qed.

Lemma queue_token_evolves purpose actor action user a d d' :
  queue_token purpose actor action user a d = Some d' → evolves d d'.
Proof. unfold queue_token. intros E. open_stmt E. evolve. Qed.

Lemma resend_email_verification_evolves email bucket a o d d' :
  resend_email_verification email bucket a d = Some (o, d') → evolves d d'.
Proof.
  unfold resend_email_verification. intros E. open_stmt E;
    (etrans; [by eapply count_attempt_evolves|]); try reflexivity.
  etrans; [|by eapply queue_token_evolves]. evolve.
Qed.

Lemma start_password_reset_evolves email a o d d' :
  start_password_reset email a d = Some (o, d') → evolves d d'.
Proof.
  unfold start_password_reset. intros E. open_stmt E; try reflexivity. by eapply queue_token_evolves.
Qed.

Lemma issue_password_session_evolves user email hash session expires now aid rid o d d' :
  issue_password_session user email hash session expires now aid rid d = Some (o, d') → evolves d d'.
Proof.
  unfold issue_password_session. intros E. open_stmt E; try reflexivity.
  etrans; [|by eapply open_session_evolves]. evolve.
Qed.

Lemma complete_password_reset_evolves hash now password session expires aid rid o d d' :
  complete_password_reset hash now password session expires aid rid d = Some (o, d') → evolves d d'.
Proof.
  unfold complete_password_reset. intros E. open_stmt E; evolve.
  etrans; [|by eapply open_session_evolves]. open_lookups. evolve.
Qed.

Lemma change_password_evolves user session old new now aid rid o d d' :
  change_password user session old new now aid rid d = Some (o, d') → evolves d d'.
Proof.
  unfold change_password. intros E. open_stmt E; try reflexivity. open_lookups.
  match goal with Hb : _ && _ && _ && _ = true |- _ => rename Hb into Hguard end.
  bprop. destruct Hguard as [[[<- (Hn & _ & Hsec & _)%live_session_spec] _] _].
  evolve. eapply tbl_insert_old; [apply _| |].
  - cbn. rewrite lookup_update_rows. erewrite H1 by done. cbn.
    rewrite (bool_decide_true (session = session)) by done. by rewrite andb_false_r.
  - unfold session_evolves; cbn. split_and!; done || lia.
Qed.

Lemma kstep_evolves d d' : kstep d d' → evolves d d'.
Proof.
  destruct 1; eauto using issue_token_pair_evolves, rotate_refresh_token_evolves, revoke_session_evolves,
    register_password_evolves, verify_email_evolves, resend_email_verification_evolves,
    check_rate_limit_evolves, start_password_reset_evolves, issue_password_session_evolves,
    change_password_evolves, complete_password_reset_evolves, fo_evolves.
Qed.
Lemma ksteps_evolve d d' : rtc kstep d d' → evolves d d'.
Proof. induction 1; [done|]. etrans; [by apply kstep_evolves|done]. Qed.
End evolution.
