(* ===== verification/OrganizationHistory.v ===== *)
(** * OrganizationHistory: management respects the history of the kernel

    [org_step] is one execution of a statement of [Organizations].  Every such
    step is one of the steps that [KernelHistory] admits of the statements it
    does not define ([foreign]), so the theorems on sessions, tokens and
    verified contexts hold with organization management interleaved. *)

From S2P Require Export KernelHistory Organizations.
Open Scope Z_scope.

#[local] Arguments lit : simpl never.

Section history.
Context `{UuidText}.

(** The permissions of a custom role that the service lets through. *)
Definition allowed (stmt : OrgStatement) : Prop :=
  match stmt with UpsertRole _ _ _ _ permissions _ _ _ => OWNERSHIP_TRANSFER ∉ permissions | _ => True end.
Definition org_step (d d' : Db) : Prop := ∃ stmt, allowed stmt ∧ org_run stmt d = Some d'.

(** ** Steps of the foreign class *)

#[export] Instance foreign_refl : Reflexive foreign.
Proof. intros d. by split. Qed.
#[export] Instance foreign_trans : Transitive foreign.
Proof.
  intros d1 d2 d3 [E1 R1 T1] [E2 R2 T2]. split; [by etrans|congruence|].
  intros h t Ht. by rewrite T2, T1.
Qed.

#[export] Instance uuid_to_string_inj : Inj eq eq uuid_to_string.
Proof. intros a b E. apply (f_equal uuid_parse_str) in E. rewrite !uuid_parse_to_string in E. by simplify_eq. Qed.

(** The accounts are as they were. *)
Record same_accounts (d d' : Db) : Prop := {
  sa_users : users d' = users d;
  sa_sessions : sessions d' = sessions d;
  sa_refresh : refresh_tokens d' = refresh_tokens d;
  sa_tokens : one_time_tokens d' = one_time_tokens d;
  sa_idempotency : idempotency d' = idempotency d;
}.
Lemma foreign_of_directory d d' : same_accounts d d' → directory_evolves d d' → foreign d d'.
Proof.
  intros [Hu Hs Hr Ht Hi] Hd. split; [split|done|]; rewrite ?Hu, ?Hs, ?Hr, ?Ht, ?Hi; done.
Qed.
Definition revisions (d : Db) : gmap str Z := authorization_revision (mail_outbox d).
Definition grants (d : Db) : gmap (Uuid * str) (gset str) := granted_permissions (directory d).

(** Permissions and revisions of one organization changed: its revision grew. *)
Lemma foreign_regrant org d d' :
  same_accounts d d' →
  (∀ k, k.1 ≠ org → grants d' !! k = grants d !! k) →
  (∀ t, t ≠ uuid_to_string org → revisions d' !! t = revisions d !! t) →
  (∀ r, revisions d !! uuid_to_string org = Some r →
     ∃ r', revisions d' !! uuid_to_string org = Some r' ∧ r < r') →
  foreign d d'.
Proof.
  intros Ha Hg Hr Ho. apply foreign_of_directory; [done|]. intros o rev Hrev.
  destruct (decide (o = org)) as [->|Hne].
  - destruct (Ho rev Hrev) as (r' & Hr' & Hlt). exists r'. split_and!; [done|lia|lia].
  - exists rev. split_and!; [|lia|].
    + unfold revisions in Hr. rewrite Hr; [done|]. by intros ?%(inj uuid_to_string).
    + intros _ role. unfold roles_of, grants in *. by rewrite Hg.
Qed.
Lemma foreign_same d d' :
  same_accounts d d' → grants d' = grants d → revisions d' = revisions d → foreign d d'.
Proof.
  intros Ha Hg Hr. apply foreign_of_directory; [done|]. intros o rev Hrev.
  exists rev. unfold revisions, grants, roles_of in *. rewrite Hr, Hg. split_and!; done || lia.
Qed.

Lemma foreign_sessions f d : tbl session_evolves (sessions d) (f (sessions d)) → foreign d (set_sessions f d).
Proof. intros Ht. split; [by apply evolves_sessions|done..]. Qed.
Lemma foreign_users f d : tbl user_evolves (users d) (f (users d)) → foreign d (set_users f d).
Proof. intros Ht. split; [by apply evolves_users|done..]. Qed.
Lemma foreign_idempotency f d : tbl eq (idempotency d) (f (idempotency d)) → foreign d (set_idempotency f d).
Proof. intros Ht. split; [by apply evolves_idempotency|done..]. Qed.
Lemma foreign_audit f d : foreign d (set_audit f d).
Proof. by apply foreign_same. Qed.
Lemma foreign_organizations f d : foreign d (set_organizations f d).
Proof. by apply foreign_same. Qed.
Lemma foreign_roles f d : foreign d (set_roles f d).
Proof. by apply foreign_same. Qed.
Lemma foreign_memberships f d : foreign d (set_memberships f d).
Proof. by apply foreign_same. Qed.
Lemma foreign_invitations f d : foreign d (set_invitations f d).
Proof. by apply foreign_same. Qed.
Lemma foreign_mail t d :
  authorization_revision t = authorization_revision (mail_outbox d) → foreign d (set_mail_outbox (λ _, t) d).
Proof. intros Ht. by apply foreign_same. Qed.

(** Invitation tokens. *)
Lemma foreign_consume p now d :
  (∀ h t, p h t = true → open_invitation_token t = true) →
  foreign d (set_one_time_tokens (update_rows p (consume_row now)) d).
Proof.
  intros Hp. split; [apply evolves_tokens, tbl_update_rows; [apply _|]; intros; eauto with wauth|done|].
  intros h t Ht. cbn. rewrite lookup_update_rows, fmap_Some.
  assert (∀ t', p h t' = true → ot_purpose t' = InvitationToken) as Hinv.
  { intros t' [? _]%Hp%andb_true_iff. by bprop. }
  split.
  - intros (t' & Ht' & ->). destruct (p h t') eqn:E; [|done]. by rewrite <- (Hinv t' E) in Ht.
  - intros Hl. exists t. split; [done|]. destruct (p h t) eqn:E; [|done]. by apply Hinv in E.
Qed.
Lemma foreign_consume_one h t now d :
  one_time_tokens d !! h = Some t → open_invitation_token t = true →
  foreign d (set_one_time_tokens <[h := consume_row now t]> d).
Proof.
  intros Hl Ho. apply andb_true_iff in Ho as [Hp Hc]. bprop.
  split; [apply evolves_tokens; eapply tbl_insert_old; eauto with wauth; apply _|done|].
  intros h' t' Ht'. cbn. destruct (decide (h = h')) as [<-|]; [|by rewrite lookup_insert_ne].
  rewrite lookup_insert_eq. split; [intros [= <-]; by destruct Ht'|]. intros E. simplify_eq.
Qed.
Lemma foreign_new_token h t d :
  one_time_tokens d !! h = None → ot_purpose t = InvitationToken →
  foreign d (set_one_time_tokens <[h := t]> d).
Proof.
  intros Hl Hp. split; [apply evolves_tokens, tbl_insert_new; [apply _|done]|done|].
  intros h' t' Ht'. cbn. destruct (decide (h = h')) as [<-|]; [|by rewrite lookup_insert_ne].
  rewrite lookup_insert_eq, Hl. split; [intros [= <-]; by destruct Ht'|done].
Qed.

(** The triggers. *)
Lemma track_revisions e id t t' :
  track_membership e id t = Some t' →
  authorization_revision t' = authorization_revision t
  ∨ ∃ r, authorization_revision t !! member_organization (tg_target e) = Some r
      ∧ authorization_revision t' = <[member_organization (tg_target e) := r + 1]> (authorization_revision t).
Proof.
  unfold track_membership. destruct (tg_unchanged e); [intros [= <-]; by left|].
  destruct (authorization_revision t !! _) as [r|] eqn:Er; [|done]. intros E. right. exists r. split; [done|].
  repeat case_match; by simplify_eq.
Qed.
Lemma foreign_track e id org d d' :
  member_organization (tg_target e) = uuid_to_string org → track e id d = Some d' → foreign d d'.
Proof.
  unfold track. intros Hm (t & Ht & [= <-])%bind_Some. apply track_revisions in Ht as [Ht|(r & Hr & Ht)].
  - by apply foreign_mail.
  - rewrite Hm in *. apply (foreign_regrant org); [done|done| |]; unfold revisions; cbn; rewrite Ht.
    + intros t' Hne. by rewrite lookup_insert_ne.
    + intros r' Hr'. rewrite lookup_insert_eq. eexists. split; [done|]. simplify_eq. lia.
Qed.
Lemma foreign_adjust org a b d d' : adjust_owner_count org a b d = Some d' → foreign d d'.
Proof. unfold adjust_owner_count. intros E. open_stmt E; first [reflexivity|apply foreign_organizations]. Qed.
Lemma foreign_put org user m d d' : put_membership org user m d = Some d' → foreign d d'.
Proof. unfold put_membership. intros E. open_stmt E. apply foreign_memberships. Qed.

Lemma insert_membership_foreign org user m now id d d' :
  insert_membership org user m now id d = Some d' → foreign d d'.
Proof.
  unfold insert_membership. intros (d1 & ?%foreign_adjust & (d2 & ?%foreign_put & E)%bind_Some)%bind_Some.
  etrans; [done|]. etrans; [done|]. eapply (foreign_track _ _ org); [|exact E]. done.
Qed.
Lemma update_membership_foreign org user old new now id d d' :
  update_membership org user old new now id d = Some d' → foreign d d'.
Proof.
  unfold update_membership. intros (d1 & ?%foreign_adjust & (d2 & ?%foreign_put & E)%bind_Some)%bind_Some.
  etrans; [done|]. etrans; [done|]. eapply (foreign_track _ _ org); [|exact E]. done.
Qed.
Lemma upsert_membership_foreign org user role now id d d' :
  upsert_membership org user role now id d = Some d' → foreign d d'.
Proof.
  unfold upsert_membership. intros E. destruct (memberships _ !! _).
  - apply bind_Some in E as (d1 & ?%foreign_adjust & E). etrans; [done|]. by eapply update_membership_foreign.
  - by eapply insert_membership_foreign.
Qed.
Lemma bump_revision_foreign org d d' : bump_revision org d = Some d' → foreign d d'.
Proof.
  unfold bump_revision. intros (r & Hr & [= <-])%bind_Some. apply (foreign_regrant org); [done|done| |]; unfold revisions; cbn.
  - intros t Hne. by rewrite lookup_insert_ne.
  - intros r' Hr'. rewrite lookup_insert_eq. eexists. split; [done|]. simplify_eq. lia.
Qed.

(** A write of a membership leaves the accounts alone. *)
#[export] Instance same_accounts_refl : Reflexive same_accounts.
Proof. by intros d. Qed.
#[export] Instance same_accounts_trans : Transitive same_accounts.
Proof. intros d1 d2 d3 [] []. split; congruence. Qed.
Lemma accounts_adjust org a b d d' : adjust_owner_count org a b d = Some d' → same_accounts d d'.
Proof. unfold adjust_owner_count. intros E. by open_stmt E. Qed.
Lemma accounts_put org user m d d' : put_membership org user m d = Some d' → same_accounts d d'.
Proof. unfold put_membership. intros E. by open_stmt E. Qed.
Lemma accounts_track e id d d' : track e id d = Some d' → same_accounts d d'.
Proof. unfold track. by intros (t & _ & [= <-])%bind_Some. Qed.
Lemma insert_membership_accounts org user m now id d d' :
  insert_membership org user m now id d = Some d' → same_accounts d d'.
Proof.
  unfold insert_membership.
  intros (d1 & ?%accounts_adjust & (d2 & ?%accounts_put & ?%accounts_track)%bind_Some)%bind_Some. by do 2 (etrans; [done|]).
Qed.
Lemma update_membership_accounts org user old new now id d d' :
  update_membership org user old new now id d = Some d' → same_accounts d d'.
Proof.
  unfold update_membership.
  intros (d1 & ?%accounts_adjust & (d2 & ?%accounts_put & ?%accounts_track)%bind_Some)%bind_Some. by do 2 (etrans; [done|]).
Qed.
Lemma upsert_membership_accounts org user role now id d d' :
  upsert_membership org user role now id d = Some d' → same_accounts d d'.
Proof.
  unfold upsert_membership. intros E. destruct (memberships _ !! _).
  - apply bind_Some in E as (d1 & ?%accounts_adjust & E). etrans; [done|]. by eapply update_membership_accounts.
  - by eapply insert_membership_accounts.
Qed.

(** ** The acting session *)

Lemma account_actor_Some session now d s :
  account_actor session now d = Some s ↔
  sessions d !! session = Some s ∧ ∃ u, users d !! s_user s = Some u ∧ live_session now s u = true.
Proof.
  unfold account_actor. split.
  - intros (s' & Hs & (u & Hu & E)%bind_Some)%bind_Some. destruct live_session eqn:El; [|done]. simplify_eq. eauto.
  - intros (Hs & u & Hu & Hl). by rewrite Hs; cbn; rewrite Hu; cbn; rewrite Hl.
Qed.
(** [s] is the live session [session]: not revoked, not expired, and of the
    current security revision of an active user. *)
Definition acts (session : Uuid) (now : Z) (d : Db) (s : SessionRow) : Prop :=
  ∃ u, sessions d !! session = Some s ∧ users d !! s_user s = Some u ∧ s_revoked_at_ms s = None
    ∧ now < s_expires_at_ms s ∧ s_user_security_revision s = u_security_revision u ∧ u_status u = UActive.
Lemma account_acts session now d s : account_actor session now d = Some s → acts session now d s.
Proof.
  intros (Hs & u & Hu & Hl%live_session_spec)%account_actor_Some. exists u. naive_solver.
Qed.
Lemma stepped_up_second_factor s : stepped_up s = true → s_assurance s ≠ DbAal1.
Proof. unfold stepped_up. by rewrite negb_true_iff, bool_decide_eq_false. Qed.
(** A live session with a second factor of a system administrator. *)
Definition administers (session : Uuid) (now : Z) (d : Db) : Prop :=
  ∃ s, acts session now d s ∧ s_assurance s ≠ DbAal1 ∧ administrators (directory d) !! s_user s = Some true.
Lemma administrator_row session now d s :
  administrator_actor session now d = Some s →
  acts session now d s ∧ s_assurance s ≠ DbAal1 ∧ administrators (directory d) !! s_user s = Some true.
Proof.
  unfold administrator_actor. intros (s' & Hs%account_acts & E)%bind_Some.
  destruct (_ && _) eqn:Eg in E; [|done]. injection E as ->. apply andb_true_iff in Eg as [Ha Hup%stepped_up_second_factor].
  split_and!; [done|done|]. unfold is_administrator in Ha. by destruct (administrators _ !! _) as [[]|].
Qed.
Lemma administrator_administers session now d s : administrator_actor session now d = Some s → administers session now d.
Proof. intros ?%administrator_row. by exists s. Qed.
Lemma member_actor_Some session org now d s m :
  member_actor session org now d = Some (s, m) ↔
  account_actor session now d = Some s ∧ memberships (directory d) !! (org, s_user s) = Some m
  ∧ m_status m = MActive.
Proof.
  unfold member_actor. rewrite bind_Some. split.
  - intros (s' & Hs & (m' & Hm & E)%bind_Some). case_bool_decide; by simplify_eq.
  - intros (Hs & Hm & Ha). exists s. split; [done|]. rewrite Hm. cbn. by rewrite bool_decide_true.
Qed.
Lemma permitted_actor_Some p session org now d s m :
  permitted_actor p session org now d = Some (s, m) ↔
  member_actor session org now d = Some (s, m) ∧ holds org (m_role m) p d = true.
Proof.
  unfold permitted_actor. rewrite bind_Some. split.
  - intros ([s' m'] & Hs & E). destruct holds eqn:?; by simplify_eq.
  - intros [Hs Hh]. exists (s, m). split; [done|]. cbn. by rewrite Hh.
Qed.
Lemma privileged_actor_Some p session org now d s m :
  privileged_actor p session org now d = Some (s, m) ↔
  permitted_actor p session org now d = Some (s, m) ∧ stepped_up s = true.
Proof.
  unfold privileged_actor. rewrite bind_Some. split.
  - intros ([s' m'] & Hs & E). cbn in E. destruct stepped_up eqn:?; by simplify_eq.
  - intros [Hs Hh]. exists (s, m). split; [done|]. cbn. by rewrite Hh.
Qed.
Lemma privileged_session p session org now d s m :
  privileged_actor p session org now d = Some (s, m) → sessions d !! session = Some s.
Proof.
  by intros [[[[Hs _]%account_actor_Some _]%member_actor_Some _]%permitted_actor_Some _]%privileged_actor_Some.
Qed.
Lemma member_session session org now d s m :
  member_actor session org now d = Some (s, m) → sessions d !! session = Some s.
Proof. by intros [[Hs _]%account_actor_Some _]%member_actor_Some. Qed.
Lemma active_organization_Some org d o :
  active_organization org d = Some o ↔ organizations (directory d) !! org = Some o ∧ o_active o = true.
Proof.
  unfold active_organization. rewrite bind_Some. split.
  - intros (o' & Ho & E). destruct (o_active o') eqn:?; by simplify_eq.
  - intros [Ho Ha]. exists o. split; [done|]. by rewrite Ha.
Qed.
Lemma active_membership_Some org user d m :
  active_membership org user d = Some m ↔
  memberships (directory d) !! (org, user) = Some m ∧ m_status m = MActive.
Proof.
  unfold active_membership. rewrite bind_Some. split.
  - intros (m' & Hm & E). case_bool_decide; by simplify_eq.
  - intros [Hm Ha]. exists m. split; [done|]. by rewrite bool_decide_true.
Qed.

Lemma select_row_evolves org s : session_evolves s (select_row org s).
Proof. unfold session_evolves; cbn. split_and!; done || lia. Qed.
Lemma clear_sessions_foreign p d : foreign d (clear_sessions p d).
Proof. apply foreign_sessions, tbl_update_rows; [apply _|]. intros. apply select_row_evolves. Qed.
Lemma org_audit_Some id org session s action type resource rid now d d' :
  org_audit id org session s action type resource rid now d = Some d' →
  ∃ r, d' = set_audit (λ l, l ++ [r]) d.
Proof. unfold org_audit. intros [_ ->]%insert_audit_Some. by eexists. Qed.
Lemma org_audit_foreign id org session s action type resource rid now d d' :
  org_audit id org session s action type resource rid now d = Some d' → foreign d d'.
Proof. intros [r ->]%org_audit_Some. apply foreign_audit. Qed.
End history.

(** Peels the last change of a statement. *)
Ltac foreign_last :=
  match goal with
  | |- foreign ?d ?d => reflexivity
  | |- foreign _ (set_audit _ _) => etrans; [|apply foreign_audit]
  | |- foreign _ (set_organizations _ _) => etrans; [|apply foreign_organizations]
  | |- foreign _ (set_roles _ _) => etrans; [|apply foreign_roles]
  | |- foreign _ (set_memberships _ _) => etrans; [|apply foreign_memberships]
  | |- foreign _ (set_invitations _ _) => etrans; [|apply foreign_invitations]
  | |- foreign _ (clear_sessions _ _) => etrans; [|apply clear_sessions_foreign]
  | |- foreign _ (set_mail_outbox (λ _, _) _) =>
      etrans; [|apply foreign_mail; by eapply enqueue_mail_revision]
  | E : org_audit _ _ _ _ _ _ _ _ _ _ = Some ?d |- foreign _ ?d => etrans; [|by eapply org_audit_foreign]; clear E
  | E : update_membership _ _ _ _ _ _ _ = Some ?d |- foreign _ ?d =>
      etrans; [|by eapply update_membership_foreign]; clear E
  | E : insert_membership _ _ _ _ _ _ = Some ?d |- foreign _ ?d =>
      etrans; [|by eapply insert_membership_foreign]; clear E
  | E : upsert_membership _ _ _ _ _ _ = Some ?d |- foreign _ ?d =>
      etrans; [|by eapply upsert_membership_foreign]; clear E
  end.
Ltac peel := repeat foreign_last.

Section statements.
Context `{UuidText}.

Lemma end_membership_foreign session org user s m action now aid rid id o d d' :
  end_membership session org user s m action now aid rid id d = Some (o, d') → foreign d d'.
Proof. unfold end_membership. intros E. open_stmt E. peel. Qed.
Lemma assign_foreign session org user role now aid rid id o d d' :
  assign_membership_role session org user role now aid rid id d = Some (o, d') → foreign d d'.
Proof. unfold assign_membership_role. intros E. open_stmt E; peel. Qed.
Lemma remove_foreign session org user now aid rid id o d d' :
  remove_membership session org user now aid rid id d = Some (o, d') → foreign d d'.
Proof. unfold remove_membership. intros E. open_stmt E; peel. by eapply end_membership_foreign. Qed.
Lemma leave_foreign session org now aid rid id o d d' :
  leave_organization session org now aid rid id d = Some (o, d') → foreign d d'.
Proof. unfold leave_organization. intros E. open_stmt E; peel. by eapply end_membership_foreign. Qed.
Lemma transfer_foreign session org target now aid rid id id' o d d' :
  transfer_ownership session org target now aid rid id id' d = Some (o, d') → foreign d d'.
Proof.
  unfold transfer_ownership. intros E. open_stmt E; peel.
  case_bool_decide; simplify_eq; peel.
Qed.
Lemma select_foreign session org now aid rid o d d' :
  select_organization session org now aid rid d = Some (o, d') → foreign d d'.
Proof.
  unfold select_organization. intros E. open_stmt E; peel. open_lookups.
  apply foreign_sessions. eapply tbl_insert_old; [apply _|by eapply member_session|apply select_row_evolves].
Qed.
Lemma update_organization_foreign session org name now aid rid o d d' :
  update_organization session org name now aid rid d = Some (o, d') → foreign d d'.
Proof. unfold update_organization. intros E. open_stmt E; peel. Qed.
Lemma archive_foreign session org now aid rid o d d' :
  archive_organization session org now aid rid d = Some (o, d') → foreign d d'.
Proof.
  unfold archive_organization. intros E. open_stmt E; peel.
  etrans; [|apply foreign_consume; by intros ? ? [_ ?]%andb_true_iff]. peel.
  destruct (bump_revision _ _) eqn:Eb; cbn; [etrans; [|by eapply bump_revision_foreign]|]; peel.
Qed.

(** Roles: the permissions change with the revision. *)
Lemma bump_regrant_foreign org f d d' :
  (∀ k, k.1 ≠ org → f (grants d) !! k = grants d !! k) →
  bump_revision org (set_granted_permissions f d) = Some d' → foreign d d'.
Proof.
  unfold bump_revision. intros Hf (r & Hr & [= <-])%bind_Some.
  apply (foreign_regrant org); [done|done| |]; unfold revisions in *; cbn in *.
  - intros t Hne. by rewrite lookup_insert_ne.
  - intros r' Hr'. rewrite lookup_insert_eq. eexists. split; [done|]. simplify_eq. lia.
Qed.
Lemma no_bump_regrant_foreign org f d :
  (∀ k, k.1 ≠ org → f (grants d) !! k = grants d !! k) →
  bump_revision org (set_granted_permissions f d) = None → foreign d (set_granted_permissions f d).
Proof.
  unfold bump_revision. intros Hf Hb. apply (foreign_regrant org); [done|done|done|].
  intros r Hr. unfold revisions in Hr. cbn in Hb. by rewrite Hr in Hb.
Qed.
Lemma grant_others (org : Uuid) (role : str) (g : gset str) (m : gmap (Uuid * str) (gset str)) k :
  k.1 ≠ org → <[(org, role) := g]> m !! k = m !! k.
Proof. intros Hk. rewrite lookup_insert_ne; [done|]. by intros <-. Qed.
Lemma revoke_others (org : Uuid) (role : str) (m : gmap (Uuid * str) (gset str)) k :
  k.1 ≠ org → delete (org, role) m !! k = m !! k.
Proof. intros Hk. rewrite lookup_delete_ne; [done|]. by intros <-. Qed.

Lemma upsert_foreign session org role name permissions now aid rid o d d' :
  upsert_role session org role name permissions now aid rid d = Some (o, d') → foreign d d'.
Proof.
  unfold upsert_role. intros E. open_stmt E; peel.
  - etrans; [|eapply bump_regrant_foreign; [|eassumption]; intros; by apply grant_others]. peel.
  - etrans; [|eapply no_bump_regrant_foreign; [|eassumption]; intros; by apply grant_others]. peel.
Qed.
Lemma update_memberships_foreign f now ids rows d d' :
  update_memberships f now ids rows d = Some d' → foreign d d'.
Proof.
  revert d. induction rows as [|km rows IH]; intros d; [by intros [= <-]|].
  intros (d1 & E & ?%IH)%bind_Some. etrans; [by eapply update_membership_foreign|done].
Qed.
Lemma delete_foreign session org role now aid rid o d d' :
  delete_role session org role now aid rid d = Some (o, d') → foreign d d'.
Proof.
  unfold delete_role. intros E. open_stmt E; peel.
  - etrans; [|eapply bump_regrant_foreign; [|eassumption]; intros; by apply revoke_others]. peel. by eapply update_memberships_foreign.
  - etrans; [|eapply no_bump_regrant_foreign; [|eassumption]; intros; by apply revoke_others]. peel. by eapply update_memberships_foreign.
Qed.

(** Creation: the organization is new. *)
Lemma insert_organization_Some org o d d' :
  insert_organization org o d = Some d' →
  organizations (directory d) !! org = None ∧ revisions d !! uuid_to_string org = None
  ∧ d' = set_mail_outbox (λ t, mk_outbox (<[uuid_to_string org := 1]> (authorization_revision t)) (rows t))
           (set_organizations <[org := o]> d).
Proof. unfold insert_organization, revisions. intros E. repeat case_match; by simplify_eq. Qed.
Lemma built_in_roles_others org d :
  same_accounts d (insert_built_in_roles org d) ∧ mail_outbox (insert_built_in_roles org d) = mail_outbox d
  ∧ organizations (directory (insert_built_in_roles org d)) = organizations (directory d)
  ∧ memberships (directory (insert_built_in_roles org d)) = memberships (directory d)
  ∧ ∀ k, k.1 ≠ org → grants (insert_built_in_roles org d) !! k = grants d !! k.
Proof.
  unfold insert_built_in_roles. induction BUILT_IN_ROLES as [|[[role name] ps] l (IH & IHm & IHo & IHb & IHg)]; [done|].
  cbn [foldr]. split_and!; try done; [by destruct IH; split|]. intros k Hk. unfold grants in *. cbn. rewrite grant_others by done. by apply IHg.
Qed.
Lemma create_foreign a id o d d' : create_organization a id d = Some (o, d') → foreign d d'.
Proof.
  unfold create_organization. intros E. open_stmt E; peel.
  unfold create_new_organization in E. open_stmt E.
  match goal with Ha : account_actor _ _ _ = Some _ |- _ => apply account_actor_Some in Ha as [Hs _] end.
  match goal with Hi : insert_organization _ _ _ = Some _ |- _ =>
    apply insert_organization_Some in Hi as (Ho & Hr & ->) end.
  match goal with Hi : insert_membership _ _ _ _ _ (insert_built_in_roles ?org ?x) = Some _ |- _ =>
    destruct (built_in_roles_others org x) as (Ha & Hm & _ & _ & Hg); pose proof (insert_membership_accounts _ _ _ _ _ _ _ Hi) as Ha'
  end.
  match goal with Ho : org_audit _ _ _ _ _ _ _ _ _ _ = Some _ |- _ => apply org_audit_Some in Ho as [r ->] end.
  etrans; [|apply foreign_idempotency, tbl_insert_new; [apply _|]].
  2:{ cbn. rewrite (sa_idempotency _ _ Ha'), (sa_idempotency _ _ Ha). done. }
  etrans; [|apply foreign_audit]. etrans; [|apply foreign_sessions; eapply tbl_insert_old; [apply _| |apply select_row_evolves]].
  2:{ cbn. rewrite (sa_sessions _ _ Ha'), (sa_sessions _ _ Ha). done. }
  foreign_last. eapply (foreign_regrant (co_organization a)).
  - etrans; [|exact Ha]. done.
  - intros k Hk. rewrite Hg by done. done.
  - intros t Ht. unfold revisions. rewrite Hm. cbn. by rewrite lookup_insert_ne.
  - intros r' Hr'. unfold revisions in *. congruence.
Qed.

(** Invitations. *)
Lemma queue_invitation_foreign a d d' : queue_invitation a d = Some d' → foreign d d'.
Proof. unfold queue_invitation. intros E. open_stmt E. peel. by apply foreign_new_token. Qed.
Lemma consume_invitation_foreign hash now d : foreign d (consume_invitation_token hash now d).
Proof. apply foreign_consume. by intros ? ? [_ ?]%andb_true_iff. Qed.
Lemma invite_foreign session org email role invitation a o d d' :
  create_invitation session org email role invitation a d = Some (o, d') → foreign d d'.
Proof.
  unfold create_invitation. intros E. open_stmt E; peel.
  etrans; [|by eapply queue_invitation_foreign]. peel.
Qed.
Lemma revoke_invitation_foreign session org invitation now aid rid o d d' :
  revoke_invitation session org invitation now aid rid d = Some (o, d') → foreign d d'.
Proof.
  unfold revoke_invitation. intros E. open_stmt E; peel. etrans; [|apply consume_invitation_foreign]. peel.
Qed.
Lemma resend_foreign session org invitation a o d d' :
  resend_invitation session org invitation a d = Some (o, d') → foreign d d'.
Proof.
  unfold resend_invitation. intros E. open_stmt E; peel.
  etrans; [|by eapply queue_invitation_foreign]. peel. apply consume_invitation_foreign.
Qed.
(** What an acceptance found. *)
Lemma accept_guard session hash now d s k i o :
  (s ← account_actor session now d; u ← users d !! s_user s;
   ki ← invitation_of hash d; o ← active_organization (i_organization ki.2) d;
   if bool_decide (i_email ki.2 = u_normalized_email u) && acceptable now s ki.2
   then Some (s, ki, o) else None) = Some (s, (k, i), o) →
  account_actor session now d = Some s ∧ invitation_of hash d = Some (k, i)
  ∧ active_organization (i_organization i) d = Some o ∧ acceptable now s i = true
  ∧ ∃ u, users d !! s_user s = Some u ∧ i_email i = u_normalized_email u.
Proof.
  intros (s' & Hs & (u & Hu & (ki & Hk & (o' & Ho & E)%bind_Some)%bind_Some)%bind_Some)%bind_Some.
  destruct (_ && _) eqn:Eg in E; [|done]. simplify_eq. apply andb_true_iff in Eg as [He Ha]. bprop. eauto 10.
Qed.
Lemma accept_foreign session hash now aid rid id o d d' :
  accept_invitation session hash now aid rid id d = Some (o, d') → foreign d d'.
Proof.
  unfold accept_invitation. intros E. open_stmt E; peel.
  match goal with Hg : _ = Some (_, (_, _), _) |- _ => apply accept_guard in Hg as ([Hs _]%account_actor_Some & _) end.
  match goal with Hu : upsert_membership _ _ _ _ _ _ = Some _ |- _ =>
    pose proof (upsert_membership_accounts _ _ _ _ _ _ _ Hu) as Ha end.
  etrans; [|apply foreign_sessions; eapply tbl_insert_old; [apply _| |apply select_row_evolves]].
  2:{ rewrite (sa_sessions _ _ Ha). done. }
  peel. etrans; [|eapply foreign_consume_one; [done|]]; [peel|].
  by match goal with Hb : negb _ = false |- _ => apply negb_false_iff in Hb end.
Qed.

(** System administration. *)
Lemma disable_foreign session user disabled now aid rid ids o d d' :
  set_user_disabled session user disabled now aid rid ids d = Some (o, d') → foreign d d'.
Proof.
  unfold set_user_disabled. intros E. open_stmt E; peel. open_lookups.
  destruct (_ && _) in Heqo0; [|done]. simplify_eq.
  etrans; [|apply foreign_sessions, tbl_update_rows; [apply _|]].
  - etrans; [|by eapply update_memberships_foreign]. apply foreign_users. eapply tbl_insert_old; [apply _|done|].
    unfold user_evolves; cbn. split_and!; done || lia.
  - intros k s' _ _. unfold session_evolves; cbn. split_and!; try done; try lia. by destruct disabled.
Qed.

(** Every statement of organization management is a step that the kernel
    admits of the statements it does not define. *)
Lemma org_run_foreign stmt d d' : org_run stmt d = Some d' → foreign d d'.
Proof.
  destruct stmt; cbn; intros ([o d1] & E & ->)%fmap_Some;
    eauto using create_foreign, select_foreign, update_organization_foreign, archive_foreign,
      upsert_foreign, delete_foreign, assign_foreign, remove_foreign, leave_foreign, transfer_foreign,
      invite_foreign, accept_foreign, revoke_invitation_foreign, resend_foreign, disable_foreign.
Qed.
Lemma org_step_kstep d d' : org_step d d' → kstep d d'.
Proof. intros (stmt & _ & ?%org_run_foreign). by apply k_foreign. Qed.
End statements.
