(* ===== verification/OrganizationProofs.v ===== *)
(** * OrganizationProofs: lemmas on ownership, privilege and tenancy

    What the statements of [Organizations] do to the directory.  The trigger
    on memberships keeps the owner count of every organization and, while the
    count is right, at least one active owner; a management statement has an
    effect only for a live session with a second factor of an active member
    whose role has the permission, and touches no other organization; an owner
    is made only by an owner, by accepting an invitation, by creating the
    organization, or by restoring a blocked account. *)

From S2P Require Export OrganizationHistory.
Open Scope Z_scope.

#[local] Arguments lit : simpl never.

(** ** What a write of a membership does *)

Definition orgs (d : Db) : gmap Uuid OrganizationRow := organizations (directory d).
Definition members (d : Db) : gmap (Uuid * Uuid) MembershipRow := memberships (directory d).

(** The trigger before a write: the owner count follows. *)
Definition counted (org : Uuid) (before after : bool) (m m' : gmap Uuid OrganizationRow) : Prop :=
  match before, after with
  | true, false =>
      ∃ o, m !! org = Some o ∧ 1 < o_owner_count o ∧ m' = <[org := with_owner_count (o_owner_count o - 1) o]> m
  | false, true => ∃ o, m !! org = Some o ∧ m' = <[org := with_owner_count (o_owner_count o + 1) o]> m
  | _, _ => m' = m
  end.

(** The other tables of the directory are as they were. *)
Record same_directory (d d' : Db) : Prop := {
  sd_roles : org_roles (directory d') = org_roles (directory d);
  sd_grants : grants d' = grants d;
  sd_invitations : invitations (directory d') = invitations (directory d);
  sd_administrators : administrators (directory d') = administrators (directory d);
}.
#[export] Instance same_directory_refl : Reflexive same_directory.
Proof. by intros d. Qed.
#[export] Instance same_directory_trans : Transitive same_directory.
Proof. intros d1 d2 d3 [] []. split; congruence. Qed.

Section effects.
Context `{UuidText}.

Lemma adjust_effect org before after d d' :
  adjust_owner_count org before after d = Some d' →
  counted org before after (orgs d) (orgs d') ∧ members d' = members d ∧ same_directory d d'.
Proof.
  unfold adjust_owner_count, counted, orgs. intros E. destruct before, after; cbn in *; open_stmt E; split_and!; try done.
  - eexists. split_and!; [done|by apply Z.ltb_lt|done].
  - eexists. split; done.
Qed.
Lemma put_effect org user m d d' :
  put_membership org user m d = Some d' →
  orgs d' = orgs d ∧ members d' = <[(org, user) := m]> (members d) ∧ same_directory d d'
  ∧ is_Some (org_roles (directory d) !! (org, m_role m)).
Proof. unfold put_membership. intros E. open_stmt E. by bprop. Qed.
Lemma track_effect e id d d' :
  track e id d = Some d' → orgs d' = orgs d ∧ members d' = members d ∧ same_directory d d'.
Proof. unfold track. by intros (t & _ & [= <-])%bind_Some. Qed.

Lemma update_membership_effect org user old new now id d d' :
  update_membership org user old new now id d = Some d' →
  counted org (is_owner old) (is_owner new) (orgs d) (orgs d')
  ∧ members d' = <[(org, user) := new]> (members d) ∧ same_directory d d'
  ∧ is_Some (org_roles (directory d) !! (org, m_role new)).
Proof.
  unfold update_membership.
  intros (d1 & (Hc & Hm1 & S1)%adjust_effect & (d2 & (Ho2 & Hm2 & S2 & Hr)%put_effect & (Ho3 & Hm3 & S3)%track_effect)%bind_Some)%bind_Some.
  rewrite Ho3, Ho2, Hm3, Hm2, Hm1. split_and!; [done|done|by do 2 (etrans; [done|])|].
  by rewrite <- (sd_roles _ _ S1).
Qed.
Lemma insert_membership_effect org user m now id d d' :
  insert_membership org user m now id d = Some d' →
  counted org false (is_owner m) (orgs d) (orgs d')
  ∧ members d' = <[(org, user) := m]> (members d) ∧ same_directory d d'
  ∧ is_Some (org_roles (directory d) !! (org, m_role m)).
Proof.
  unfold insert_membership.
  intros (d1 & (Hc & Hm1 & S1)%adjust_effect & (d2 & (Ho2 & Hm2 & S2 & Hr)%put_effect & (Ho3 & Hm3 & S3)%track_effect)%bind_Some)%bind_Some.
  rewrite Ho3, Ho2, Hm3, Hm2, Hm1. split_and!; [done|done|by do 2 (etrans; [done|])|].
  by rewrite <- (sd_roles _ _ S1).
Qed.

(** ** Counting owners *)

Lemma owners_members org d d' : members d' = members d → owners org d' = owners org d.
Proof. unfold owners, members. by intros ->. Qed.
Lemma owners_lookup org d k m :
  owners org d !! k = Some m ↔ members d !! k = Some m ∧ k.1 = org ∧ is_owner m = true.
Proof. unfold owners. rewrite map_lookup_filter_Some. cbn. naive_solver. Qed.
Lemma owners_write org org' user m d d' :
  members d' = <[(org', user) := m]> (members d) →
  owners org d' =
    if bool_decide (org = org') && is_owner m then <[(org', user) := m]> (owners org d)
    else if bool_decide (org = org') then delete (org', user) (owners org d) else owners org d.
Proof.
  unfold owners, members. intros ->. case_bool_decide as Ho; cbn [andb].
  - subst org'. destruct (is_owner m) eqn:Em.
    + rewrite map_filter_insert_True by done. done.
    + rewrite map_filter_insert_False by (cbn; intros [_ ?]; congruence). by rewrite map_filter_delete.
  - rewrite map_filter_insert_False by (cbn; intros [? _]; congruence).
    rewrite map_filter_delete. apply delete_id. apply map_lookup_filter_None. right. cbn. intros. naive_solver.
Qed.
Lemma owners_size_write org user (old : option MembershipRow) m d d' :
  members d !! (org, user) = old → members d' = <[(org, user) := m]> (members d) →
  (size (owners org d') + Nat.b2n (default false (is_owner <$> old))
   = size (owners org d) + Nat.b2n (is_owner m))%nat.
Proof.
  intros Hold Hm. rewrite (owners_write _ _ _ _ _ _ Hm), bool_decide_true by done. cbn [andb].
  assert (owners org d !! (org, user) = if default false (is_owner <$> old) then old else None) as Hl.
  { destruct (owners org d !! (org, user)) as [m'|] eqn:E.
    - apply owners_lookup in E as (E & _ & Ho). rewrite <- Hold, E. cbn. by rewrite Ho.
    - subst old. destruct (members d !! (org, user)) as [m'|] eqn:Em'; cbn; [|done]. destruct (is_owner m') eqn:Eo; [|done].
      by rewrite (proj2 (owners_lookup org d (org, user) m')) in E. }
  destruct (is_owner m), old as [m'|]; cbn in *.
  - destruct (is_owner m'); cbn.
    + rewrite map_size_insert_Some by eauto. lia.
    + rewrite map_size_insert_None by done. lia.
  - rewrite map_size_insert_None by done. lia.
  - destruct (is_owner m'); cbn.
    + rewrite map_size_delete_Some by eauto.
      assert (0 < size (owners org d))%nat; [|lia].
      apply Nat.neq_0_lt_0. intros E%map_size_empty_inv. by rewrite E in Hl.
    + rewrite map_size_delete_None by done. lia.
  - rewrite map_size_delete_None by done. lia.
Qed.

(** ** The invariant of the directory *)

Definition role_of (org : Uuid) (role : str) (d : Db) : option RoleRow := org_roles (directory d) !! (org, role).
Definition BUILT_IN_IDS : list str := [OWNER; ADMIN; MEMBER; VIEWER].
Definition has_owner (org : Uuid) (d : Db) : Prop := owners org d ≠ ∅.

(** Roles belong to organizations, members and invitations have roles, the
    built-in roles are there, ownership is an owner's to transfer, and the
    owner counts are the numbers of active owners. *)
Record directory_wf (d : Db) : Prop := {
  wf_role_org : ∀ org role, is_Some (role_of org role d) → is_Some (orgs d !! org);
  wf_member_role : ∀ org user m, members d !! (org, user) = Some m → is_Some (role_of org (m_role m) d);
  wf_invitation_role : ∀ k i, invitations (directory d) !! k = Some i → is_Some (role_of (i_organization i) (i_role i) d);
  wf_built_in : ∀ org o role, orgs d !! org = Some o → role ∈ BUILT_IN_IDS →
    r_built_in <$> role_of org role d = Some true;
  wf_grant_role : ∀ org role g, grants d !! (org, role) = Some g → is_Some (role_of org role d);
  wf_transfer : ∀ org role g, grants d !! (org, role) = Some g → OWNERSHIP_TRANSFER ∈ g → role = OWNER;
  wf_count : ∀ org o, orgs d !! org = Some o → o_owner_count o = Z.of_nat (size (owners org d));
}.

(** Keeps the invariant and an owner of every organization. *)
Definition okeeps (d d' : Db) : Prop :=
  directory_wf d → directory_wf d' ∧ ∀ org, has_owner org d → has_owner org d'.
#[export] Instance okeeps_refl : Reflexive okeeps.
Proof. by intros d. Qed.
#[export] Instance okeeps_trans : Transitive okeeps.
Proof. intros d1 d2 d3 H12 H23 W1. destruct (H12 W1) as [W2 K2]. destruct (H23 W2) as [W3 K3]. auto. Qed.

Lemma okeeps_assuming d d' : (directory_wf d → okeeps d d') → okeeps d d'.
Proof. intros Hf W. by apply Hf. Qed.
Lemma okeeps_eq d d' : directory d' = directory d → okeeps d d'.
Proof.
  intros E W. assert (∀ org, owners org d' = owners org d) as Ho by (intros; unfold owners; by rewrite E).
  split; [|intros org; unfold has_owner; by rewrite Ho].
  destruct W as [A1 A2 A3 A4 A5 A6 A7]. unfold role_of, orgs, members, grants in *. split; unfold role_of, orgs, members, grants;
    rewrite ?E; try done. intros org o Hl. rewrite Ho. eauto.
Qed.

(** The owner counts and the members are as they were, the rest may grow. *)
Lemma okeeps_rows d d' :
  members d' = members d → grants d' = grants d →
  org_roles (directory d') = org_roles (directory d) →
  (∀ k i, invitations (directory d') !! k = Some i → is_Some (role_of (i_organization i) (i_role i) d)) →
  (∀ org, o_owner_count <$> orgs d' !! org = o_owner_count <$> orgs d !! org) →
  directory_wf d → directory_wf d' ∧ ∀ org, has_owner org d → has_owner org d'.
Proof.
  intros Hm Hg Hr Hi Hc [A1 A2 A3 A4 A5 A6 A7].
  assert (∀ org, owners org d' = owners org d) as Ho by (intros; by apply owners_members).
  assert (∀ org, is_Some (orgs d' !! org) ↔ is_Some (orgs d !! org)) as Hs.
  { intros org. specialize (Hc org). destruct (orgs d' !! org), (orgs d !! org); try done; split; by eauto || intros []. }
  split; [|intros org; unfold has_owner; by rewrite Ho].
  unfold role_of in *. split; unfold role_of; rewrite ?Hm, ?Hg, ?Hr; try done.
  - intros org role Hx. apply Hs. eauto.
  - intros org o role Hx. destruct (proj1 (Hs org)) as [o' ?]; eauto.
  - intros org o Hx. rewrite Ho. specialize (Hc org). rewrite Hx in Hc. destruct (orgs d !! org) as [o'|] eqn:Eo; [|done].
    cbn in Hc. simplify_eq. rewrite <- (A7 org o' Eo). congruence.
Qed.

Lemma counted_lookup org before after m m' :
  counted org before after m m' →
  ∀ k o', m' !! k = Some o' → ∃ o, m !! k = Some o
    ∧ o_owner_count o' = o_owner_count o +
        (if bool_decide (k = org) then Z.b2z after - Z.b2z before else 0).
Proof.
  unfold counted. intros Hc k o' Hk.
  destruct before, after; [subst m'|destruct Hc as (o & Ho & _ & ->)|destruct Hc as (o & Ho & ->)|subst m'];
    try (exists o'; split; [done|case_bool_decide; lia]).
  all: destruct (decide (org = k)) as [<-|];
    [rewrite lookup_insert_eq in Hk; exists o; injection Hk as <-; rewrite bool_decide_true by done; cbn; split; [done|lia]
    |rewrite lookup_insert_ne in Hk by done; exists o'; rewrite bool_decide_false by congruence; split; [done|lia]].
Qed.
Lemma counted_dom org before after m m' k : counted org before after m m' → is_Some (m !! k) → is_Some (m' !! k).
Proof.
  unfold counted. intros Hc Hk.
  destruct before, after; [by subst m'|destruct Hc as (o & Ho & _ & ->)|destruct Hc as (o & Ho & ->)|by subst m'];
    (destruct (decide (org = k)) as [<-|]; [rewrite lookup_insert_eq; eauto|by rewrite lookup_insert_ne]).
Qed.

(** A write of a membership, with the trigger that counts. *)
Lemma okeeps_write org user old m d d' :
  members d !! (org, user) = old →
  counted org (default false (is_owner <$> old)) (is_owner m) (orgs d) (orgs d') →
  members d' = <[(org, user) := m]> (members d) → same_directory d d' → is_Some (role_of org (m_role m) d) →
  okeeps d d'.
Proof.
  intros Hold Hc Hm [Sr Sg Si _] Hrole W. destruct (W) as [A1 A2 A3 A4 A5 A6 A7].
  pose proof (owners_size_write org user old m d d' Hold Hm) as Hsz.
  assert (Hother : ∀ org', org' ≠ org → owners org' d' = owners org' d).
  { intros org' Hne. rewrite (owners_write _ _ _ _ _ _ Hm). by rewrite bool_decide_false. }
  assert (Hcount : ∀ org' o, orgs d' !! org' = Some o → o_owner_count o = Z.of_nat (size (owners org' d'))).
  { intros org' o' Ho'. destruct (counted_lookup _ _ _ _ _ Hc _ _ Ho') as (o & Ho & ->). rewrite (A7 _ _ Ho).
    case_bool_decide as He; [subst org'|rewrite Hother by done; lia].
    destruct (default false _), (is_owner m); cbn in *; lia. }
  assert (Hlook : ∀ org' user' m', members d' !! (org', user') = Some m' →
    members d !! (org', user') = Some m' ∨ (org' = org ∧ m' = m)).
  { intros org' user' m'. rewrite Hm. destruct (decide ((org, user) = (org', user'))) as [[= <- <-]|];
      [rewrite lookup_insert_eq; intros [= <-]; by right|rewrite lookup_insert_ne by done; by left]. }
  split.
  - unfold role_of in *. split; unfold role_of; rewrite ?Sr, ?Sg, ?Si; try done.
    + intros org' role Hx. eapply counted_dom; eauto.
    + intros org' user' m' [?|[-> ->]]%Hlook; eauto.
    + intros org' o' role Ho'. destruct (counted_lookup _ _ _ _ _ Hc _ _ Ho') as (o & Ho & _). eauto.
  - intros org' Ho. destruct (decide (org' = org)) as [->|Hne]; [|unfold has_owner; by rewrite Hother].
    intros E. rewrite E, map_size_empty in Hsz.
    assert (size (owners org d) ≠ 0%nat) as Hn by (by intros ?%map_size_empty_inv).
    destruct (is_owner m) eqn:Em; [destruct (default false _); cbn in Hsz; lia|].
    destruct (default false _) eqn:Eo; cbn in Hsz; [|lia].
    unfold counted in Hc. destruct Hc as (o & Hl & Hlt & _). rewrite (A7 _ _ Hl) in Hlt. lia.
Qed.

Lemma okeeps_update org user old m now id d d' :
  members d !! (org, user) = Some old → update_membership org user old m now id d = Some d' → okeeps d d'.
Proof. intros Hold (Hc & Hm & Hs & Hr)%update_membership_effect. by eapply (okeeps_write org user (Some old)). Qed.
Lemma okeeps_insert org user m now id d d' :
  members d !! (org, user) = None → insert_membership org user m now id d = Some d' → okeeps d d'.
Proof. intros Hold (Hc & Hm & Hs & Hr)%insert_membership_effect. by eapply (okeeps_write org user None). Qed.
(** An upsert that does not count an owner twice. *)
Lemma okeeps_upsert org user role now id d d' :
  (role = OWNER → members d !! (org, user) = None) →
  upsert_membership org user role now id d = Some d' → okeeps d d'.
Proof.
  unfold upsert_membership. intros Hclean E. destruct (memberships _ !! _) as [old|] eqn:Em.
  - assert (is_owner (mk_member role MActive now) = false) as Ho.
    { unfold is_owner. cbn. rewrite bool_decide_false; [done|]. intros ->. unfold members in Hclean.
      rewrite Hclean in Em by done. done. }
    rewrite Ho in E. cbn in E. by eapply okeeps_update.
  - by eapply okeeps_insert.
Qed.
(** Rows that are updated one after the other. *)
Lemma okeeps_updates f now ids rows d d' :
  NoDup rows.*1 → (∀ k m, (k, m) ∈ rows → members d !! k = Some m) →
  update_memberships f now ids rows d = Some d' → okeeps d d'.
Proof.
  revert d. induction rows as [|[[org user] m] rows IH]; intros d Hnd Hin; [by intros [= <-]|].
  intros (d1 & E & Hrest)%bind_Some. cbn in E, Hnd. apply NoDup_cons in Hnd as [Hni Hnd].
  etrans; [eapply okeeps_update; [|exact E]; apply Hin; by left|].
  apply IH; [done| |done]. intros k m' Hk.
  apply update_membership_effect in E as (_ & -> & _). rewrite lookup_insert_ne; [apply Hin; by right|].
  intros <-. apply Hni. apply list_elem_of_fmap. by exists ((org, user), m').
Qed.
Lemma okeeps_held p (P : ∀ x, Decision (p x)) f now ids d0 d d' :
  members d = members d0 →
  update_memberships f now ids (map_to_list (filter p (members d0))) d = Some d' → okeeps d d'.
Proof.
  intros Hm. apply okeeps_updates; [apply NoDup_fst_map_to_list|].
  intros k m. rewrite elem_of_map_to_list, map_lookup_filter_Some, Hm. by intros [? _].
Qed.

(** Updates that touch one table. *)
Lemma okeeps_organization org o o' d :
  orgs d !! org = Some o → o_owner_count o' = o_owner_count o → okeeps d (set_organizations <[org := o']> d).
Proof.
  intros Ho Hc W. apply okeeps_rows; [done..|by destruct W| |done].
  intros org'. unfold orgs in *. cbn. destruct (decide (org = org')) as [<-|].
  - rewrite lookup_insert_eq, Ho. cbn. by rewrite Hc.
  - by rewrite lookup_insert_ne.
Qed.
Lemma okeeps_invitations f d :
  (∀ k i', f (invitations (directory d)) !! k = Some i' →
     is_Some (role_of (i_organization i') (i_role i') d)
     ∨ ∃ k0 i, invitations (directory d) !! k0 = Some i ∧ i_organization i' = i_organization i ∧ i_role i' = i_role i) →
  okeeps d (set_invitations f d).
Proof.
  intros Hf W. apply okeeps_rows; [done..| |done|done].
  intros k i' [?|(k0 & i & Hi & -> & ->)]%Hf; [done|]. by eapply wf_invitation_role.
Qed.
Lemma okeeps_mark p st d :
  okeeps d (set_invitations (update_rows p (with_invitation_status st)) d).
Proof.
  apply okeeps_invitations. intros k i'. rewrite lookup_update_rows. intros (i & Hi & ->)%fmap_Some.
  right. exists k, i. by destruct (p k i).
Qed.
End effects.

(** Peels the changes outside the directory. *)
Ltac okeeps_last :=
  match goal with
  | |- okeeps ?d ?d => reflexivity
  | E : org_audit _ _ _ _ _ _ _ _ _ _ = Some ?d |- okeeps _ ?d => apply org_audit_Some in E as [? ->]
  | |- okeeps _ (set_audit _ ?d) => etrans; [|by apply (okeeps_eq d)]
  | |- okeeps _ (set_sessions _ ?d) => etrans; [|by apply (okeeps_eq d)]
  | |- okeeps _ (clear_sessions _ ?d) => etrans; [|by apply (okeeps_eq d)]
  | |- okeeps _ (set_one_time_tokens _ ?d) => etrans; [|by apply (okeeps_eq d)]
  | |- okeeps _ (consume_invitation_token _ _ ?d) => etrans; [|by apply (okeeps_eq d)]
  | |- okeeps _ (set_idempotency _ ?d) => etrans; [|by apply (okeeps_eq d)]
  | |- okeeps _ (set_users _ ?d) => etrans; [|by apply (okeeps_eq d)]
  end.
Ltac okeep := repeat okeeps_last.

Section statements.
Context `{UuidText}.

Lemma active_member_row org user d m : active_membership org user d = Some m → members d !! (org, user) = Some m.
Proof. by intros [? _]%active_membership_Some. Qed.
Lemma privileged_row p session org now d s m :
  privileged_actor p session org now d = Some (s, m) → members d !! (org, s_user s) = Some m.
Proof. by intros [[(_ & ? & _)%member_actor_Some _]%permitted_actor_Some _]%privileged_actor_Some. Qed.
Lemma bump_revision_directory org d d' : bump_revision org d = Some d' → directory d' = directory d.
Proof. unfold bump_revision. by intros (r & _ & [= <-])%bind_Some. Qed.
Lemma queue_invitation_directory a d d' : queue_invitation a d = Some d' → directory d' = directory d.
Proof. unfold queue_invitation. intros E. by open_stmt E. Qed.

Lemma end_membership_okeeps session org user s m action now aid rid id o d d' :
  members d !! (org, user) = Some m →
  end_membership session org user s m action now aid rid id d = Some (o, d') → okeeps d d'.
Proof. unfold end_membership. intros Hm E. open_stmt E. okeep. by eapply okeeps_update. Qed.
Lemma assign_okeeps session org user role now aid rid id o d d' :
  assign_membership_role session org user role now aid rid id d = Some (o, d') → okeeps d d'.
Proof.
  unfold assign_membership_role. intros E. open_stmt E; okeep. open_lookups.
  eapply okeeps_update; [|done]. by eapply active_member_row.
Qed.
Lemma remove_okeeps session org user now aid rid id o d d' :
  remove_membership session org user now aid rid id d = Some (o, d') → okeeps d d'.
Proof.
  unfold remove_membership. intros E. open_stmt E; okeep. open_lookups.
  eapply end_membership_okeeps; [|done]. by eapply active_member_row.
Qed.
Lemma leave_okeeps session org now aid rid id o d d' :
  leave_organization session org now aid rid id d = Some (o, d') → okeeps d d'.
Proof.
  unfold leave_organization. intros E. open_stmt E; okeep. open_lookups.
  eapply end_membership_okeeps; [|done]. by eapply member_actor_Some.
Qed.
Lemma transfer_okeeps session org target now aid rid id id' o d d' :
  transfer_ownership session org target now aid rid id id' d = Some (o, d') → okeeps d d'.
Proof.
  unfold transfer_ownership. intros E. open_stmt E; okeep. open_lookups.
  match goal with E : update_membership _ _ _ _ _ _ _ = Some ?x |- _ => rename E into Ep end.
  etrans; [eapply okeeps_update; [|exact Ep]; by eapply active_member_row|].
  case_bool_decide; simplify_eq; okeep. eapply okeeps_update; [|done].
  apply update_membership_effect in Ep as (_ & -> & _). bprop. rewrite lookup_insert_ne by congruence.
  by eapply privileged_row.
Qed.
Lemma select_okeeps session org now aid rid o d d' :
  select_organization session org now aid rid d = Some (o, d') → okeeps d d'.
Proof. unfold select_organization. intros E. open_stmt E; okeep. Qed.
Lemma update_organization_okeeps session org name now aid rid o d d' :
  update_organization session org name now aid rid d = Some (o, d') → okeeps d d'.
Proof.
  unfold update_organization. intros E. open_stmt E; okeep. open_lookups.
  eapply okeeps_organization; [by eapply active_organization_Some|done].
Qed.
Lemma archive_okeeps session org now aid rid o d d' :
  archive_organization session org now aid rid d = Some (o, d') → okeeps d d'.
Proof.
  unfold archive_organization. intros E. open_stmt E; okeep. open_lookups. etrans; [|apply okeeps_mark].
  etrans; [eapply okeeps_organization; [by eapply active_organization_Some|]; shelve|].
  destruct (bump_revision _ _) eqn:Eb; cbn; [|reflexivity]. apply okeeps_eq. by eapply bump_revision_directory.
  Unshelve. done.
Qed.
Lemma okeeps_reinvite k i i' d :
  invitations (directory d) !! k = Some i → i_organization i' = i_organization i → i_role i' = i_role i →
  okeeps d (set_invitations <[k := i']> d).
Proof.
  intros Hi Ho Hr. apply okeeps_invitations. intros k' i''. destruct (decide (k = k')) as [<-|].
  - rewrite lookup_insert_eq. intros [= <-]. right. by exists k, i.
  - rewrite lookup_insert_ne by done. intros ?. right. by exists k', i''.
Qed.
Lemma invitation_of_Some hash d k i :
  invitation_of hash d = Some (k, i) → invitations (directory d) !! k = Some i ∧ i_token_hash i = hash.
Proof.
  unfold invitation_of. intros Hh. apply head_Some_elem_of in Hh.
  apply list_elem_of_In, filter_In in Hh as [Hin%list_elem_of_In%elem_of_map_to_list Hb]. by bprop.
Qed.
Lemma accept_okeeps session hash now aid rid id o d d' :
  (∀ k i s, invitation_of hash d = Some (k, i) → sessions d !! session = Some s → i_role i = OWNER →
     members d !! (i_organization i, s_user s) = None) →
  accept_invitation session hash now aid rid id d = Some (o, d') → okeeps d d'.
Proof.
  intros Hclean. unfold accept_invitation. intros E. open_stmt E; okeep.
  all: match goal with Hg : _ = Some (_, (_, _), _) |- _ =>
    apply accept_guard in Hg as ([Hs _]%account_actor_Some & Hi & _) end.
  2: (etrans; [|eapply okeeps_upsert; [|done]; intros; by eapply Hclean]); okeep.
  all: apply invitation_of_Some in Hi as [Hi _]; by eapply okeeps_reinvite.
Qed.
Lemma locked_invitation_Some session org k now d s i :
  locked_invitation session org k now d = Some (s, i) →
  ∃ m, privileged_actor (lit "member.invite") session org now d = Some (s, m)
    ∧ invitations (directory d) !! k = Some i ∧ i_organization i = org ∧ i_status i = IPending.
Proof.
  unfold locked_invitation. intros ([s' m] & Ha & (i' & Hi & E)%bind_Some)%bind_Some.
  destruct (pending_in org i') eqn:Ep; [|done]. simplify_eq. apply andb_true_iff in Ep as [? ?]. bprop. eauto.
Qed.
Lemma revoke_okeeps session org invitation now aid rid o d d' :
  revoke_invitation session org invitation now aid rid d = Some (o, d') → okeeps d d'.
Proof.
  unfold revoke_invitation. intros E. open_stmt E; okeep.
  match goal with Hl : locked_invitation _ _ _ _ _ = Some _ |- _ => apply locked_invitation_Some in Hl as (m & _ & Hi & _) end.
  by eapply okeeps_reinvite.
Qed.
Lemma resend_okeeps session org invitation a o d d' :
  resend_invitation session org invitation a d = Some (o, d') → okeeps d d'.
Proof.
  unfold resend_invitation. intros E. open_stmt E; okeep.
  match goal with Hl : locked_invitation _ _ _ _ _ = Some _ |- _ => apply locked_invitation_Some in Hl as (m & _ & Hi & _) end.
  match goal with Hq : queue_invitation _ _ = Some _ |- _ => apply queue_invitation_directory in Hq end.
  etrans; [|by eapply okeeps_eq]. etrans; [|by eapply okeeps_reinvite]. okeep.
Qed.
Lemma invite_okeeps session org email role invitation a o d d' :
  create_invitation session org email role invitation a d = Some (o, d') → okeeps d d'.
Proof.
  unfold create_invitation. intros E. open_stmt E; okeep. open_lookups.
  match goal with Hq : queue_invitation _ _ = Some _ |- _ => apply queue_invitation_directory in Hq end.
  etrans; [|by eapply okeeps_eq]. etrans; [apply (okeeps_mark (λ _ i, pending_in org i && bool_decide (i_email i = email)) IRevoked)|].
  apply okeeps_invitations. intros k i'. destruct (decide (invitation = k)) as [<-|].
  - rewrite lookup_insert_eq. intros [= <-]. left. unfold role_of. cbn. eauto.
  - rewrite lookup_insert_ne by done. intros ?. right. by exists k, i'.
Qed.
Lemma disable_okeeps session user disabled now aid rid ids o d d' :
  set_user_disabled session user disabled now aid rid ids d = Some (o, d') → okeeps d d'.
Proof.
  unfold set_user_disabled. intros E. open_stmt E; okeep.
  match goal with Ht : toggle_memberships _ _ _ _ _ = Some _ |- _ => rename Ht into Et end.
  etrans; [|eapply okeeps_held; [|exact Et]; done]. okeep.
Qed.

(** Roles. *)
Lemma okeeps_custom_role org role name permissions d :
  is_Some (orgs d !! org) → built_in_role org role d = false → OWNERSHIP_TRANSFER ∉ permissions →
  okeeps d (set_granted_permissions <[(org, role) := list_to_set permissions]>
              (set_roles <[(org, role) := mk_role_row name false]> d)).
Proof.
  intros [o Ho] Hb Hp [A1 A2 A3 A4 A5 A6 A7]. split; [|done].
  set (d' := set_granted_permissions _ _).
  assert (Hgrow : ∀ org' role', is_Some (role_of org' role' d) → is_Some (role_of org' role' d')).
  { intros org' role' Hx. unfold role_of. cbn. by destruct (decide ((org, role) = (org', role'))) as [<-|];
      [rewrite lookup_insert_eq; eauto|rewrite lookup_insert_ne]. }
  assert (Hnew : is_Some (role_of org role d')) by (unfold role_of; cbn; rewrite lookup_insert_eq; eauto).
  split; try done.
  - intros org' role'. unfold role_of. cbn. destruct (decide ((org, role) = (org', role'))) as [[= <- <-]|];
      [by eauto|rewrite lookup_insert_ne by done; apply A1].
  - intros org' user m Hm. apply Hgrow. eauto.
  - intros k i Hi. apply Hgrow. eauto.
  - intros org' o' role' Ho' Hin. unfold role_of. cbn. pose proof (A4 _ _ _ Ho' Hin) as Hbi.
    destruct (decide ((org, role) = (org', role'))) as [[= <- <-]|]; [|by rewrite lookup_insert_ne].
    unfold built_in_role in Hb. unfold role_of in Hbi. by rewrite Hbi in Hb.
  - intros org' role' g. unfold grants. cbn. destruct (decide ((org, role) = (org', role'))) as [[= <- <-]|]; [done|].
    rewrite lookup_insert_ne by done. intros Hg. apply Hgrow. eauto.
  - intros org' role' g. unfold grants. cbn. destruct (decide ((org, role) = (org', role'))) as [[= <- <-]|].
    + rewrite lookup_insert_eq. intros [= <-]. by rewrite elem_of_list_to_set.
    + rewrite lookup_insert_ne by done. apply A6.
Qed.
Lemma upsert_okeeps session org role name permissions now aid rid o d d' :
  OWNERSHIP_TRANSFER ∉ permissions →
  upsert_role session org role name permissions now aid rid d = Some (o, d') → okeeps d d'.
Proof.
  intros Hp. unfold upsert_role. intros E. open_stmt E; okeep; open_lookups.
  all: match goal with Ho : active_organization _ _ = Some _ |- _ => apply active_organization_Some in Ho as [Ho _] end.
  1: match goal with Hb : bump_revision _ _ = Some _ |- _ => apply bump_revision_directory in Hb end;
    (etrans; [|by eapply okeeps_eq]).
  all: apply okeeps_custom_role; unfold orgs; by eauto.
Qed.

Lemma update_memberships_effect f now ids rows d d' :
  NoDup rows.*1 → (∀ k m, (k, m) ∈ rows → members d !! k = Some m) →
  update_memberships f now ids rows d = Some d' →
  same_directory d d'
  ∧ ∀ k m', members d' !! k = Some m' →
      (∃ m, (k, m) ∈ rows ∧ m' = f m) ∨ ((k ∉ rows.*1) ∧ members d !! k = Some m').
Proof.
  revert d. induction rows as [|[[org user] m] rows IH]; intros d Hnd Hin.
  { intros [= <-]. split; [done|]. intros k m' Hk. right. split; [by apply not_elem_of_nil|done]. }
  intros (d1 & E & Hrest)%bind_Some. cbn in E, Hnd. apply NoDup_cons in Hnd as [Hni Hnd].
  apply update_membership_effect in E as (_ & Hm & Hs & _).
  destruct (IH d1) as [Hs' Hl]; [done| |done|].
  { intros k m' Hk. rewrite Hm, lookup_insert_ne; [apply Hin; by right|].
    intros <-. apply Hni, list_elem_of_fmap. by exists ((org, user), m'). }
  split; [by etrans|]. intros k m' [(m0 & ? & ->)|[Hk Hk']]%Hl; [left; exists m0; split; [by right|done]|].
  rewrite Hm in Hk'. destruct (decide ((org, user) = k)) as [<-|Hne].
  - rewrite lookup_insert_eq in Hk'. left. exists m. split; [by left|congruence].
  - rewrite lookup_insert_ne in Hk' by done. right. split; [|done]. cbn. by apply not_elem_of_cons.
Qed.

Lemma okeeps_drop_role org role d :
  (∀ user m, members d !! (org, user) = Some m → m_role m ≠ role) →
  (∀ k i, invitations (directory d) !! k = Some i → i_organization i = org → i_role i ≠ role) →
  (is_Some (orgs d !! org) → role ∉ BUILT_IN_IDS) →
  okeeps d (set_granted_permissions (delete (org, role)) (set_roles (delete (org, role)) d)).
Proof.
  intros Hm Hi Hb [A1 A2 A3 A4 A5 A6 A7]. split; [|done].
  assert (Hkeep : ∀ org' role', (org' = org → role' ≠ role) → is_Some (role_of org' role' d) →
    is_Some (role_of org' role' (set_granted_permissions (delete (org, role)) (set_roles (delete (org, role)) d)))).
  { intros org' role' Hne Hx. unfold role_of. cbn. rewrite lookup_delete_ne; [done|]. intros [= <- <-]. by destruct Hne. }
  split; try done.
  - intros org' role'. unfold role_of. cbn. rewrite lookup_delete_is_Some. intros [_ ?]. eauto.
  - intros org' user m Hx. apply Hkeep; [|eauto]. intros ->. eauto.
  - intros k i Hx. apply Hkeep; eauto.
  - intros org' o' role' Ho' Hin. unfold role_of. cbn. rewrite lookup_delete_ne; [by eapply A4|].
    intros [= <- <-]. apply Hb in Hin; [done|]. eauto.
  - intros org' role' g. unfold grants. cbn. intros [Hne Hg]%lookup_delete_Some. apply Hkeep; [|eauto].
    intros -> ->. by destruct Hne.
  - intros org' role' g. unfold grants. cbn. intros [_ Hg]%lookup_delete_Some. by eapply A6.
Qed.
Lemma retargeted_members org role now d d1 :
  retarget now (map_to_list (role_members org role false d)) d = Some d1 →
  size (role_members org role true d) = 0%nat → role ≠ MEMBER →
  same_directory d d1 ∧ okeeps d d1 ∧ ∀ user m, members d1 !! (org, user) = Some m → m_role m ≠ role.
Proof.
  intros E Hact Hrole. unfold retarget in E.
  pose proof (okeeps_held _ _ _ _ _ d d d1 eq_refl E) as Hk.
  apply update_memberships_effect in E as [Hs Hl]; [|apply NoDup_fst_map_to_list|].
  2:{ intros k m. rewrite elem_of_map_to_list. unfold role_members. by intros [? _]%map_lookup_filter_Some. }
  split_and!; [done|done|]. intros user m [(m0 & _ & ->)|[Hni Hm]]%Hl; [cbn; congruence|]. intros <-.
  apply map_size_empty_inv in Hact. destruct (decide (m_status m = MActive)) as [Ha|Ha].
  - assert (role_members org (m_role m) true d !! (org, user) = Some m) as Hx; [|by rewrite Hact in Hx].
    apply map_lookup_filter_Some. split; [done|]. cbn. by rewrite bool_decide_true.
  - apply Hni, list_elem_of_fmap. exists ((org, user), m). split; [done|]. apply elem_of_map_to_list.
    apply map_lookup_filter_Some. split; [done|]. cbn. by rewrite bool_decide_false.
Qed.
Lemma okeeps_retarget_invitations p d :
  (∀ k i, invitations (directory d) !! k = Some i → p k i = true → is_Some (role_of (i_organization i) MEMBER d)) →
  okeeps d (set_invitations (update_rows p (with_invitation_role MEMBER)) d).
Proof.
  intros Hp. apply okeeps_invitations. intros k i'. rewrite lookup_update_rows. intros (i & Hi & ->)%fmap_Some.
  destruct (p k i) eqn:E; [left; exact (Hp k i Hi E)|right; by exists k, i].
Qed.
Lemma okeeps_delete org role d :
  (∀ user m, members d !! (org, user) = Some m → m_role m ≠ role) →
  (∀ k i, invitations (directory d) !! k = Some i → i_organization i = org → i_role i = role → i_status i ≠ IPending) →
  is_Some (role_of org MEMBER d) → role ∉ BUILT_IN_IDS →
  okeeps d (set_granted_permissions (delete (org, role)) (set_roles (delete (org, role))
    (set_invitations (update_rows
       (λ _ i, bool_decide (i_organization i = org) && bool_decide (i_role i = role)
               && negb (bool_decide (i_status i = IPending))) (with_invitation_role MEMBER)) d))).
Proof.
  intros Hm Hi Hmem Hrole. etrans; [apply okeeps_retarget_invitations|apply okeeps_drop_role]; [|done| |done].
  - intros k i _ Hp. bprop. destruct Hp as [[-> _] _]. done.
  - intros k i'. cbn. rewrite lookup_update_rows. intros (i & Hk & ->)%fmap_Some Ho.
    destruct (bool_decide _ && _ && _) eqn:Ep; cbn in *.
    + intros <-. apply Hrole. unfold BUILT_IN_IDS. do 2 right. by left.
    + intros Hr. rewrite bool_decide_true, bool_decide_true, bool_decide_false in Ep; by eauto.
Qed.
Lemma delete_okeeps session org role now aid rid o d d' :
  delete_role session org role now aid rid d = Some (o, d') → okeeps d d'.
Proof.
  unfold delete_role. intros E. open_stmt E; okeep; open_lookups.
  all: match goal with Hz : (_ <? _) || _ = false |- _ => apply orb_false_iff in Hz as [Hz1%Z.ltb_ge Hz2%Z.ltb_ge] end.
  all: match goal with Ho : active_organization _ _ = Some _ |- _ => apply active_organization_Some in Ho as [Horg _] end.
  all: match goal with Hr : retarget _ _ _ = Some ?x |- _ => rename Hr into Er, x into d1 end.
  all: apply okeeps_assuming; intros W.
  all: assert (role ∉ BUILT_IN_IDS) as Hrole by
    (intros Hin; pose proof (wf_built_in _ W _ _ _ Horg Hin) as Hb; unfold role_of in Hb; simplify_option_eq; congruence).
  all: apply retargeted_members in Er as (Hs & Hk & Hm); [|lia|set_solver].
  all: etrans; [exact Hk|].
  1: match goal with Hb : bump_revision _ _ = Some _ |- _ => apply bump_revision_directory in Hb end;
    (etrans; [|by eapply okeeps_eq]).
  all: apply okeeps_delete; [done| | |done].
  1, 3: rewrite (sd_invitations _ _ Hs); intros k i Hi Ho Hr Hp;
    assert (pending_invitations org role d !! k = Some i) as Hx by (apply map_lookup_filter_Some; by split_and!);
    rewrite (map_size_empty_inv (pending_invitations org role d)) in Hx by lia; done.
  all: unfold role_of; rewrite (sd_roles _ _ Hs); pose proof (wf_built_in _ W _ _ MEMBER Horg) as Hb;
    unfold role_of in Hb; destruct (org_roles (directory d) !! (org, MEMBER)); [by eauto|];
    cbn in Hb; by ospecialize (Hb _); [do 2 right; by left|].
Qed.

(** Creation. *)
Lemma built_in_roles_lookup org d org' role :
  role_of org' role (insert_built_in_roles org d) = role_of org' role d
  ∨ (org' = org ∧ ∃ name, role_of org' role (insert_built_in_roles org d) = Some (mk_role_row name true)).
Proof.
  unfold insert_built_in_roles, role_of. induction BUILT_IN_ROLES as [|[[r name] ps] l IH]; [by left|]. cbn [foldr].
  cbn. destruct (decide ((org, r) = (org', role))) as [[= <- <-]|].
  - right. split; [done|]. exists name. by rewrite lookup_insert_eq.
  - by rewrite lookup_insert_ne.
Qed.
Lemma built_in_roles_there org d role :
  role ∈ BUILT_IN_IDS → r_built_in <$> role_of org role (insert_built_in_roles org d) = Some true.
Proof.
  intros Hin. assert (∃ name ps, (role, name, ps) ∈ BUILT_IN_ROLES) as (name & ps & Hl).
  { unfold BUILT_IN_IDS, BUILT_IN_ROLES in *. set_solver. }
  unfold insert_built_in_roles, role_of. revert Hl. induction BUILT_IN_ROLES as [|[[r name'] ps'] l IH].
  { by intros ?%not_elem_of_nil. }
  intros Hl. cbn. destruct (decide ((org, r) = (org, role))) as [[= <-]|Hne]; [by rewrite lookup_insert_eq|].
  rewrite lookup_insert_ne by done. apply IH. apply elem_of_cons in Hl as [[= -> _ _]|?]; [by destruct Hne|done].
Qed.
Lemma built_in_grants_lookup org d org' role g :
  grants (insert_built_in_roles org d) !! (org', role) = Some g →
  grants d !! (org', role) = Some g
  ∨ (org' = org ∧ ∃ name ps, (role, name, ps) ∈ BUILT_IN_ROLES ∧ g = list_to_set ps).
Proof.
  unfold insert_built_in_roles, grants.
  assert (∀ l, granted_permissions (directory (foldr (λ '(role, name, permissions) d,
      set_granted_permissions <[(org, role) := list_to_set permissions]>
        (set_roles <[(org, role) := mk_role_row name true]> d)) d l)) !! (org', role) = Some g →
    granted_permissions (directory d) !! (org', role) = Some g
    ∨ (org' = org ∧ ∃ name ps, (role, name, ps) ∈ l ∧ g = list_to_set ps)) as Hl; [|apply Hl].
  induction l as [|[[r name] ps] l IH]; [by left|]. cbn.
  destruct (decide ((org, r) = (org', role))) as [[= <- <-]|].
  - rewrite lookup_insert_eq. intros [= <-]. right. split; [done|]. exists name, ps. split; [by left|done].
  - rewrite lookup_insert_ne by done. intros [?|(? & name' & ps' & ? & ?)]%IH; [by left|]. right. split; [done|].
    exists name', ps'. split; [by right|done].
Qed.
Lemma only_owners_transfer role name ps :
  (role, name, ps) ∈ BUILT_IN_ROLES → OWNERSHIP_TRANSFER ∈ ps → role = OWNER.
Proof.
  assert (forallb (λ rnp, bool_decide (OWNERSHIP_TRANSFER ∉ rnp.2) || bool_decide (rnp.1.1 = OWNER)) BUILT_IN_ROLES
    = true) as Hb by by vm_compute.
  intros Hin Hp. rewrite forallb_forall in Hb. apply list_elem_of_In in Hin. specialize (Hb _ Hin). cbn in Hb.
  bprop. by destruct Hb.
Qed.
Lemma okeeps_new_organization org o d d1 :
  o_owner_count o = 0 → insert_organization org o d = Some d1 → okeeps d (insert_built_in_roles org d1).
Proof.
  intros Hc (Hnone & _ & ->)%insert_organization_Some [A1 A2 A3 A4 A5 A6 A7].
  set (d1 := set_mail_outbox _ _). fold (orgs d) in Hnone.
  destruct (built_in_roles_others org d1) as (_ & _ & Ho & Hm & _).
  assert (Hmem : members (insert_built_in_roles org d1) = members d) by exact Hm.
  assert (Horgs : orgs (insert_built_in_roles org d1) = <[org := o]> (orgs d)) by exact Ho.
  assert (Hown : ∀ org', owners org' (insert_built_in_roles org d1) = owners org' d) by (intros; by apply owners_members).
  assert (Hgrow : ∀ org' role, is_Some (role_of org' role d) → is_Some (role_of org' role (insert_built_in_roles org d1))).
  { intros org' role Hx. destruct (built_in_roles_lookup org d1 org' role) as [->|(_ & n' & ->)]; [done|eauto]. }
  split; [|intros org' Hx; unfold has_owner; by rewrite Hown].
  split; rewrite ?Hmem, ?Horgs.
  - intros org' role Hx. destruct (built_in_roles_lookup org d1 org' role) as [E|(-> & _)].
    + rewrite E in Hx. apply A1 in Hx. destruct (decide (org = org')) as [<-|]; [rewrite lookup_insert_eq; eauto|by rewrite lookup_insert_ne].
    + rewrite lookup_insert_eq. eauto.
  - intros org' user m Hx. apply Hgrow. eauto.
  - assert (invitations (directory (insert_built_in_roles org d1)) = invitations (directory d)) as ->.
    { unfold insert_built_in_roles. induction BUILT_IN_ROLES as [|[[r n'] p'] l IH]; [done|exact IH]. }
    intros k i Hx. apply Hgrow. eauto.
  - intros org' o' role Hx Hin. destruct (decide (org = org')) as [<-|Hne]; [by apply built_in_roles_there|].
    rewrite lookup_insert_ne in Hx by done.
    destruct (built_in_roles_lookup org d1 org' role) as [->|(-> & _)]; [by eapply A4|done].
  - intros org' role g [Hg|(-> & name & ps & Hin & _)]%built_in_grants_lookup; [by apply Hgrow; eauto|].
    pose proof (built_in_roles_there org d1 role) as Hb. destruct (role_of org role _); [by eauto|].
    cbn in Hb. ospecialize (Hb _); [|done]. unfold BUILT_IN_IDS, BUILT_IN_ROLES in *. set_solver.
  - intros org' role g [Hg|(-> & name & ps & Hin & ->)]%built_in_grants_lookup; [by eapply A6|].
    rewrite elem_of_list_to_set. by eapply only_owners_transfer.
  - intros org' o' Hx. rewrite Hown. destruct (decide (org = org')) as [<-|Hne].
    + rewrite lookup_insert_eq in Hx. injection Hx as <-. rewrite Hc.
      assert (owners org d = ∅) as ->; [|by rewrite map_size_empty]. apply map_eq. intros [org' user]. rewrite lookup_empty.
      destruct (owners org d !! (org', user)) as [m|] eqn:Em; [|done]. apply owners_lookup in Em as (Em & Eo & _).
      cbn in Eo. subst org'. destruct (A1 org (m_role m)) as [? ?]; [by eapply A2|congruence].
    + rewrite lookup_insert_ne in Hx by done. eauto.
Qed.
Lemma create_okeeps a id o d d' : create_organization a id d = Some (o, d') → okeeps d d'.
Proof.
  unfold create_organization. intros E. open_stmt E; okeep. unfold create_new_organization in E. open_stmt E. okeep.
  match goal with Hi : insert_organization _ _ _ = Some ?x, Hm : insert_membership _ _ _ _ _ _ = Some _ |- _ =>
    rename Hi into Hi', Hm into Hm', x into d1 end.
  apply okeeps_assuming; intros W. etrans; [eapply okeeps_new_organization; [|exact Hi']; done|]. eapply okeeps_insert; [|exact Hm'].
  destruct (built_in_roles_others (co_organization a) d1) as (_ & _ & _ & Hmem & _).
  unfold members. rewrite Hmem. apply insert_organization_Some in Hi' as (Hn & _ & ->). cbn.
  destruct (memberships _ !! _) as [m|] eqn:Em; [|done].
  destruct (wf_role_org _ W (co_organization a) (m_role m)) as [? ?]; [by eapply wf_member_role|unfold orgs in *; congruence].
Qed.

(** ** Owners are kept *)

(** Not an acceptance of an owner's invitation by somebody who has a row. *)
Definition counts_once (stmt : OrgStatement) (d : Db) : Prop :=
  match stmt with
  | AcceptInvitation session hash _ _ _ _ =>
      ∀ k i s, invitation_of hash d = Some (k, i) → sessions d !! session = Some s → i_role i = OWNER →
        members d !! (i_organization i, s_user s) = None
  | _ => True
  end.
Lemma org_run_okeeps stmt d d' :
  allowed stmt → counts_once stmt d → org_run stmt d = Some d' → okeeps d d'.
Proof.
  destruct stmt; cbn; intros Ha Hc ([o d1] & E & ->)%fmap_Some;
    eauto using create_okeeps, select_okeeps, update_organization_okeeps, archive_okeeps, upsert_okeeps,
      delete_okeeps, assign_okeeps, remove_okeeps, leave_okeeps, transfer_okeeps, invite_okeeps,
      accept_okeeps, revoke_okeeps, resend_okeeps, disable_okeeps.
Qed.
End statements.

(** ** Every organization keeps an owner

    Every run of the management statements keeps an owner in every active
    organization.  Who may change an organization is the subject of
    [Authority], how ownership moves that of [Owners]. *)

Section ownership.
Context `{UuidText}.

(** ** Organizations appear with their owner *)

Definition odom (d d' : Db) : Prop := ∀ org, is_Some (orgs d' !! org) → is_Some (orgs d !! org).
#[export] Instance odom_refl : Reflexive odom.
Proof. by intros d org. Qed.
#[export] Instance odom_trans : Transitive odom.
Proof. intros d1 d2 d3 H12 H23 org Ho. auto. Qed.
Lemma odom_eq d d' : orgs d' = orgs d → odom d d'.
Proof. intros E org. by rewrite E. Qed.
Lemma odom_update org user old m now id d d' : update_membership org user old m now id d = Some d' → odom d d'.
Proof.
  intros (Hc & _)%update_membership_effect org' [o Ho].
  destruct (counted_lookup _ _ _ _ _ Hc _ _ Ho) as (o' & -> & _). eauto.
Qed.
Lemma odom_insert org user m now id d d' : insert_membership org user m now id d = Some d' → odom d d'.
Proof.
  intros (Hc & _)%insert_membership_effect org' [o Ho].
  destruct (counted_lookup _ _ _ _ _ Hc _ _ Ho) as (o' & -> & _). eauto.
Qed.
Lemma odom_adjust org before after d d' : adjust_owner_count org before after d = Some d' → odom d d'.
Proof.
  intros (Hc & _)%adjust_effect org' [o Ho].
  destruct (counted_lookup _ _ _ _ _ Hc _ _ Ho) as (o' & -> & _). eauto.
Qed.
Lemma odom_upsert org user role now id d d' : upsert_membership org user role now id d = Some d' → odom d d'.
Proof.
  unfold upsert_membership. intros E. destruct (memberships _ !! _).
  - apply bind_Some in E as (d1 & ?%odom_adjust & ?%odom_update). by etrans.
  - by eapply odom_insert.
Qed.
Lemma odom_updates f now ids rows d d' : update_memberships f now ids rows d = Some d' → odom d d'.
Proof.
  revert d. induction rows as [|km rows IH]; intros d; [by intros [= <-]|].
  intros (d1 & ?%odom_update & ?%IH)%bind_Some. by etrans.
Qed.
Lemma odom_organization org o o' d : orgs d !! org = Some o → odom d (set_organizations <[org := o']> d).
Proof.
  intros Ho org'. unfold orgs in *. cbn. destruct (decide (org = org')) as [<-|]; [eauto|by rewrite lookup_insert_ne].
Qed.
End ownership.

Ltac odom_last :=
  match goal with
  | |- odom ?d ?d => reflexivity
  | E : org_audit _ _ _ _ _ _ _ _ _ _ = Some ?d |- odom _ ?d => apply org_audit_Some in E as [? ->]
  | E : update_membership _ _ _ _ _ _ _ = Some ?d |- odom _ ?d => etrans; [|by eapply odom_update]; clear E
  | E : upsert_membership _ _ _ _ _ _ = Some ?d |- odom _ ?d => etrans; [|by eapply odom_upsert]; clear E
  | E : retarget _ _ _ = Some ?d |- odom _ ?d => etrans; [|by eapply odom_updates]; clear E
  | E : toggle_memberships _ _ _ _ _ = Some ?d |- odom _ ?d => etrans; [|by eapply odom_updates]; clear E
  | E : queue_invitation _ _ = Some ?d |- odom _ ?d =>
      apply queue_invitation_directory in E; etrans; [|apply odom_eq; unfold orgs; by rewrite E]; clear E
  | E : bump_revision _ _ = Some ?d |- odom _ ?d =>
      apply bump_revision_directory in E; etrans; [|apply odom_eq; unfold orgs; by rewrite E]; clear E
  | Ho : active_organization ?org ?d = Some _ |- odom _ (set_organizations <[?org := _]> ?d) =>
      eapply odom_organization, (active_organization_Some org), Ho
  | |- odom _ (_ ?d) => etrans; [|by apply (odom_eq d)]
  end.

Section claims.
Context `{UuidText}.

Lemma end_membership_odom session org user s m action now aid rid id o d d' :
  end_membership session org user s m action now aid rid id d = Some (o, d') → odom d d'.
Proof. unfold end_membership. intros E. open_stmt E; repeat odom_last. Qed.
Definition creates (stmt : OrgStatement) : bool := match stmt with CreateOrganization _ _ => true | _ => false end.
Lemma org_run_odom stmt d d' : creates stmt = false → org_run stmt d = Some d' → odom d d'.
Proof.
  destruct stmt; cbn; intros Hc ([o d1] & E & ->)%fmap_Some; try done; cbn [snd].
  - unfold select_organization in E. open_stmt E; repeat odom_last.
  - unfold update_organization in E. open_stmt E; open_lookups; repeat odom_last.
  - unfold archive_organization in E. open_stmt E; open_lookups; repeat odom_last.
    destruct (bump_revision _ _) eqn:Eb; cbn; repeat odom_last.
  - unfold upsert_role in E. open_stmt E; repeat odom_last.
  - unfold delete_role in E. open_stmt E; repeat odom_last.
  - unfold assign_membership_role in E. open_stmt E; repeat odom_last.
  - unfold remove_membership in E. open_stmt E; repeat odom_last. by eapply end_membership_odom.
  - unfold leave_organization in E. open_stmt E; repeat odom_last. by eapply end_membership_odom.
  - unfold transfer_ownership in E. open_stmt E; repeat odom_last. case_bool_decide; simplify_eq; repeat odom_last.
  - unfold create_invitation in E. open_stmt E; repeat odom_last.
  - unfold accept_invitation in E. open_stmt E; repeat odom_last.
  - unfold revoke_invitation in E. open_stmt E; repeat odom_last.
  - unfold resend_invitation in E. open_stmt E; repeat odom_last.
  - unfold set_user_disabled in E. open_stmt E; repeat odom_last.
Qed.

Lemma create_organization_owner a id o d d' org :
  create_organization a id d = Some (o, d') → is_Some (orgs d' !! org) → is_Some (orgs d !! org) ∨ has_owner org d'.
Proof.
  unfold create_organization. intros E Ho. open_stmt E; try by left.
  unfold create_new_organization in E. open_stmt E.
  match goal with Hi : insert_organization _ _ _ = Some ?x, Hm : insert_membership _ _ _ _ _ _ = Some ?y |- _ =>
    rename Hi into Hi', Hm into Hm', x into d1, y into d2 end.
  match goal with Ha : org_audit _ _ _ _ _ _ _ _ _ _ = Some _ |- _ => apply org_audit_Some in Ha as [r ->] end.
  destruct (built_in_roles_others (co_organization a) d1) as (_ & _ & Horg & _).
  destruct (decide (co_organization a = org)) as [<-|Hne].
  - right. apply insert_membership_effect in Hm' as (_ & Hm & _). intros He.
    assert (owners (co_organization a) d2 !! (co_organization a, s_user s) = Some (mk_member OWNER MActive (co_now a))) as Hl.
    { apply owners_lookup. rewrite Hm, lookup_insert_eq. split_and!; [done..|]. by vm_compute. }
    change (owners (co_organization a) d2 = ∅) in He. by rewrite He in Hl.
  - left. apply odom_insert in Hm'. assert (is_Some (orgs (insert_built_in_roles (co_organization a) d1) !! org)) as Hx.
    { apply Hm'. exact Ho. }
    unfold orgs in Hx. rewrite Horg in Hx. apply insert_organization_Some in Hi' as (_ & _ & ->).
    cbn in Hx. by rewrite lookup_insert_ne in Hx.
Qed.

(** ** Owners *)

(** The directory is well formed and every organization has an owner. *)
Record owned (d : Db) : Prop := {
  owned_wf : directory_wf d;
  owned_owner : ∀ org, is_Some (orgs d !! org) → has_owner org d;
}.
(** A statement that leaves the tables of the organizations alone. *)
Record untouched (d d' : Db) : Prop := {
  un_orgs : orgs d' = orgs d;
  un_members : members d' = members d;
  un_roles : org_roles (directory d') = org_roles (directory d);
  un_grants : grants d' = grants d;
  un_invitations : invitations (directory d') = invitations (directory d);
}.
Inductive managed (d d' : Db) : Prop :=
| m_other : untouched d d' → managed d d'
| m_statement stmt : allowed stmt → counts_once stmt d → org_run stmt d = Some d' → managed d d'.

Lemma untouched_owned d d' : untouched d d' → owned d → owned d'.
Proof.
  intros [Eo Em Er Eg Ei] [W K].
  destruct (okeeps_rows d d') as [W' K']; [done..| | |done|].
  - intros k i. rewrite Ei. by eapply wf_invitation_role.
  - intros org. by rewrite Eo.
  - split; [done|]. intros org. rewrite Eo. eauto.
Qed.
Lemma managed_owned d d' : managed d d' → owned d → owned d'.
Proof.
  intros [Hu|stmt Ha Hc Hrun] Hd; [by eapply untouched_owned|]. destruct Hd as [W K].
  destruct (org_run_okeeps stmt d d' Ha Hc Hrun W) as [W' K']. split; [done|]. intros org Ho.
  destruct (creates stmt) eqn:Ec; [|by apply K', K, (org_run_odom stmt d d' Ec Hrun org)].
  destruct stmt; try done. cbn in Hrun. apply fmap_Some in Hrun as ([o d1] & E & ->).
  destruct (create_organization_owner _ _ _ _ _ org E Ho); eauto.
Qed.

End claims.
