(* ===== verification/Authority.v ===== *)
(** * Authority: management is a member's privilege, in one tenant

    A management statement has an effect only for a live session with a
    second factor of an active member whose role has the permission, it
    touches no other organization, and it is recorded.  [within] is the
    effect of a statement before its record is written. *)

From S2P Require Export OrganizationProofs.
Open Scope Z_scope.

#[local] Arguments lit : simpl never.

(** ** Effects in one organization *)

(** Nothing of another organization changed, no account, and no session that
    did not select [org]. *)
Record local `{UuidText} (org : Uuid) (d d' : Db) : Prop := {
  lo_users : users d' = users d;
  lo_organizations : ∀ o, o ≠ org → orgs d' !! o = orgs d !! o;
  lo_roles : ∀ k, k.1 ≠ org → org_roles (directory d') !! k = org_roles (directory d) !! k;
  lo_members : ∀ k, k.1 ≠ org → members d' !! k = members d !! k;
  lo_grants : ∀ k, k.1 ≠ org → grants d' !! k = grants d !! k;
  lo_invitations : ∀ k i, i_organization i ≠ org →
    (invitations (directory d') !! k = Some i ↔ invitations (directory d) !! k = Some i);
  lo_sessions : ∀ k s, s_organization s ≠ Some org → sessions d !! k = Some s → sessions d' !! k = Some s;
  lo_revisions : ∀ t, t ≠ uuid_to_string org → revisions d' !! t = revisions d !! t;
  lo_administrators : administrators (directory d') = administrators (directory d);
}.
Definition within `{UuidText} (org : Uuid) (d d' : Db) : Prop := local org d d' ∧ audit d' = audit d.

Section effects.
Context `{UuidText}.
Implicit Types (org : Uuid) (d : Db).

#[export] Instance local_refl org : Reflexive (local org).
Proof. by intros d. Qed.
#[export] Instance local_trans org : Transitive (local org).
Proof.
  intros d1 d2 d3 [U1 O1 R1 M1 G1 I1 S1 V1 A1] [U2 O2 R2 M2 G2 I2 S2 V2 A2]. split; try congruence.
  - intros o Ho. by rewrite O2, O1.
  - intros k Hk. by rewrite R2, R1.
  - intros k Hk. by rewrite M2, M1.
  - intros k Hk. by rewrite G2, G1.
  - intros k i Hi. by rewrite I2, I1.
  - intros k s Hs ?. by apply S2, S1.
  - intros t Ht. by rewrite V2, V1.
Qed.
#[export] Instance within_refl org : Reflexive (within org).
Proof. by intros d. Qed.
#[export] Instance within_trans org : Transitive (within org).
Proof. intros d1 d2 d3 [L1 E1] [L2 E2]. split; [by etrans|congruence]. Qed.

Lemma within_organization org o d : within org d (set_organizations <[org := o]> d).
Proof. split; [|done]. split; try done. intros o' Ho. unfold orgs. cbn. by rewrite lookup_insert_ne. Qed.
Lemma within_role org role r d : within org d (set_roles <[(org, role) := r]> d).
Proof. split; [|done]. split; try done. intros k Hk. cbn. rewrite lookup_insert_ne; [done|]. by intros <-. Qed.
Lemma within_drop_role org role d : within org d (set_roles (delete (org, role)) d).
Proof. split; [|done]. split; try done. intros k Hk. cbn. rewrite lookup_delete_ne; [done|]. by intros <-. Qed.
Lemma within_grant org role g d : within org d (set_granted_permissions <[(org, role) := g]> d).
Proof. split; [|done]. split; try done. intros k Hk. unfold grants. cbn. by apply grant_others. Qed.
Lemma within_revoke org role d : within org d (set_granted_permissions (delete (org, role)) d).
Proof. split; [|done]. split; try done. intros k Hk. unfold grants. cbn. by apply revoke_others. Qed.
Lemma within_bump org d d' : bump_revision org d = Some d' → within org d d'.
Proof.
  unfold bump_revision. intros (r & _ & [= <-])%bind_Some. split; [|done]. split; try done.
  intros t Ht. unfold revisions. cbn. by rewrite lookup_insert_ne.
Qed.
Lemma within_tokens org f d : within org d (set_one_time_tokens f d).
Proof. done. Qed.
Lemma within_clear org p d :
  (∀ s, p s = true → s_organization s = Some org) → within org d (clear_sessions p d).
Proof.
  intros Hp. split; [|done]. split; try done. intros k s Hs Hk. cbn. rewrite lookup_update_rows, Hk. cbn.
  destruct (p s) eqn:Ep; [|done]. by apply Hp in Ep.
Qed.
Lemma within_invitation org k i d :
  (∀ i0, invitations (directory d) !! k = Some i0 → i_organization i0 = org) → i_organization i = org →
  within org d (set_invitations <[k := i]> d).
Proof.
  intros H0 Hi. split; [|done]. split; try done. intros k' i' Hne. cbn.
  destruct (decide (k = k')) as [<-|]; [|by rewrite lookup_insert_ne]. rewrite lookup_insert_eq.
  split; [intros [= ->]; done|]. intros ?%H0. done.
Qed.
Lemma within_mark org p f d :
  (∀ k i, p k i = true → i_organization i = org) → (∀ i, i_organization (f i) = i_organization i) →
  within org d (set_invitations (update_rows p f) d).
Proof.
  intros Hp Hf. split; [|done]. split; try done. intros k i Hne. cbn. rewrite lookup_update_rows, fmap_Some. split.
  - intros (i' & Hl & ->). destruct (p k i') eqn:Ep; [|done]. apply Hp in Ep. by rewrite Hf in Hne.
  - intros Hl. exists i. split; [done|]. destruct (p k i) eqn:Ep; [|done]. by apply Hp in Ep.
Qed.
Lemma within_queue org a d d' : queue_invitation a d = Some d' → within org d d'.
Proof.
  unfold queue_invitation. intros E. open_stmt E. split; [|done]. split; try done.
  intros t _. unfold revisions. cbn. by erewrite enqueue_mail_revision.
Qed.

(** Writes of memberships. *)
Lemma within_adjust org before after d d' : adjust_owner_count org before after d = Some d' → within org d d'.
Proof. unfold adjust_owner_count. intros E. open_stmt E; first [reflexivity|apply within_organization]. Qed.
Lemma within_put org user m d d' : put_membership org user m d = Some d' → within org d d'.
Proof.
  unfold put_membership. intros E. open_stmt E. split; [|done]. split; try done.
  intros k Hk. unfold members. cbn. rewrite lookup_insert_ne; [done|]. by intros <-.
Qed.
Lemma within_track org e id d d' :
  member_organization (tg_target e) = uuid_to_string org → track e id d = Some d' → within org d d'.
Proof.
  unfold track. intros Hm (t & Ht & [= <-])%bind_Some. split; [|done]. split; try done.
  intros t' Hne. unfold revisions. cbn. apply track_revisions in Ht as [->|(r & _ & ->)]; [done|].
  rewrite Hm. by rewrite lookup_insert_ne.
Qed.
Lemma within_update org user old m now id d d' : update_membership org user old m now id d = Some d' → within org d d'.
Proof.
  unfold update_membership. intros (d1 & ?%within_adjust & (d2 & ?%within_put & E)%bind_Some)%bind_Some.
  etrans; [done|]. etrans; [done|]. by eapply within_track, E.
Qed.
Lemma within_updates org f now ids rows d d' :
  (∀ km, km ∈ rows → km.1.1 = org) → update_memberships f now ids rows d = Some d' → within org d d'.
Proof.
  revert d. induction rows as [|km rows IH]; intros d Hr; [by intros [= <-]|].
  intros (d1 & E & ?%IH)%bind_Some; [|by intros; apply Hr; constructor]. etrans; [|done].
  rewrite (Hr km) in E by constructor. by eapply within_update.
Qed.
End effects.

Ltac within_last :=
  match goal with
  | |- within _ ?d ?d => reflexivity
  | E : update_membership _ _ _ _ _ _ _ = Some ?d |- within _ _ ?d => etrans; [|by eapply within_update]; clear E
  | E : queue_invitation _ _ = Some ?d |- within _ _ ?d => etrans; [|by eapply within_queue]; clear E
  | E : bump_revision _ _ = Some ?d |- within _ _ ?d => etrans; [|by eapply within_bump]; clear E
  | |- within _ _ (set_organizations _ _) => etrans; [|apply within_organization]
  | |- within _ _ (set_roles (delete _) _) => etrans; [|apply within_drop_role]
  | |- within _ _ (set_roles _ _) => etrans; [|apply within_role]
  | |- within _ _ (set_granted_permissions (delete _) _) => etrans; [|apply within_revoke]
  | |- within _ _ (set_granted_permissions _ _) => etrans; [|apply within_grant]
  | |- within _ _ (set_one_time_tokens _ _) => etrans; [|apply within_tokens]
  | |- within _ _ (consume_invitation_token _ _ _) => etrans; [|apply within_tokens]
  | |- within _ _ (clear_sessions _ _) => etrans; [|apply within_clear]
  | |- within _ _ (set_invitations (update_rows _ _) _) => etrans; [|apply within_mark; [|done]]
  | |- within _ _ (set_invitations <[_ := _]> _) => etrans; [|apply within_invitation]
  end.

Section authority.
Context `{UuidText}.

(** What a statement asks for: the session, the organization, the time and
    the permission. *)
Definition authority (stmt : OrgStatement) : option (Uuid * Uuid * Z * str) :=
  match stmt with
  | UpdateOrganization session org _ now _ _ => Some (session, org, now, lit "organization.update")
  | ArchiveOrganization session org now _ _ => Some (session, org, now, OWNERSHIP_TRANSFER)
  | UpsertRole session org _ _ _ now _ _ => Some (session, org, now, lit "role.manage")
  | DeleteRole session org _ now _ _ => Some (session, org, now, lit "role.manage")
  | AssignRole session org _ _ now _ _ _ => Some (session, org, now, lit "member.manage")
  | RemoveMember session org _ now _ _ _ => Some (session, org, now, lit "member.manage")
  | TransferOwnership session org _ now _ _ _ _ => Some (session, org, now, OWNERSHIP_TRANSFER)
  | CreateInvitation session org _ _ _ a => Some (session, org, in_now a, lit "member.invite")
  | RevokeInvitation session org _ now _ _ => Some (session, org, now, lit "member.invite")
  | ResendInvitation session org _ a => Some (session, org, in_now a, lit "member.invite")
  | _ => None
  end.

(** The record of a management statement. *)
Definition recorded (r : AuditRow) (org session : Uuid) (s : SessionRow) (now : Z) : Prop :=
  a_organization r = Some org ∧ a_actor r = Some (s_user s) ∧ a_session r = Some session
  ∧ a_succeeded r = true ∧ a_occurred_at_ms r = now.
(** The effect of a statement of an entitled actor. *)
Definition acted (session org : Uuid) (now : Z) (p : str) (d d' : Db) : Prop :=
  ∃ s m d1 r, privileged_actor p session org now d = Some (s, m) ∧ within org d d1
    ∧ d' = set_audit (λ l, l ++ [r]) d1 ∧ recorded r org session s now.

Lemma acted_audit session org now p s m d d1 d' aid action type resource rid :
  privileged_actor p session org now d = Some (s, m) →
  org_audit aid org session s action type resource rid now d1 = Some d' →
  within org d d1 → acted session org now p d d'.
Proof. unfold org_audit. intros Hp [_ ->]%insert_audit_Some Hw. eexists s, m, d1, _. by split_and!. Qed.

Lemma end_membership_acted session org user s m action now aid rid id o d d' p actor :
  privileged_actor p session org now d = Some (s, actor) →
  end_membership session org user s m action now aid rid id d = Some (o, d') → acted session org now p d d'.
Proof.
  unfold end_membership. intros Hp E. open_stmt E. eapply acted_audit; [done..|]. repeat within_last.
  intros s' [_ ?]%andb_true_iff. unfold selects in *. by bprop.
Qed.

Lemma pending_in_organization org i : pending_in org i = true → i_organization i = org.
Proof. unfold pending_in. intros [? _]%andb_true_iff. by bprop. Qed.
Lemma locked_invitation_acts session org k now d s i :
  locked_invitation session org k now d = Some (s, i) →
  invitations (directory d) !! k = Some i ∧ i_organization i = org
  ∧ ∃ m, privileged_actor (lit "member.invite") session org now d = Some (s, m).
Proof.
  unfold locked_invitation. intros ([s' m] & Hp & (i' & Hi & E)%bind_Some)%bind_Some. cbn in E.
  destruct (pending_in org i') eqn:Ep; [|done]. simplify_eq. eauto using pending_in_organization.
Qed.
Lemma bump_revision_None org d :
  (∀ o, is_Some (orgs d !! o) → is_Some (revisions d !! uuid_to_string o)) →
  is_Some (orgs d !! org) → ∀ d', mail_outbox d' = mail_outbox d → bump_revision org d' ≠ None.
Proof.
  intros Hr [r Hl]%Hr d' Hm. unfold bump_revision. unfold revisions in Hl. by rewrite Hm, Hl.
Qed.

Lemma selects_organization org s : selects org s = true → s_organization s = Some org.
Proof. unfold selects. intros ?. by bprop. Qed.
Lemma within_default_bump org d d0 : within org d0 d → within org d0 (default d (bump_revision org d)).
Proof. intros Hw. destruct (bump_revision org d) eqn:E; cbn; [etrans; [done|by eapply within_bump]|done]. Qed.

Lemma update_acted session org name now aid rid o d d' :
  update_organization session org name now aid rid d = Some (o, d') →
  d' = d ∨ acted session org now (lit "organization.update") d d'.
Proof.
  unfold update_organization. intros E. open_stmt E; [|by left]. open_lookups.
  right. eapply acted_audit; [done..|]. repeat within_last.
Qed.
Lemma archive_acted session org now aid rid o d d' :
  archive_organization session org now aid rid d = Some (o, d') →
  d' = d ∨ acted session org now OWNERSHIP_TRANSFER d d'.
Proof.
  unfold archive_organization. intros E. open_stmt E; [|by left]. open_lookups.
  right. eapply acted_audit; [done..|]. repeat within_last; eauto using selects_organization, pending_in_organization.
  apply within_default_bump. repeat within_last.
Qed.

(** The revision of an organization is a column of its row. *)
Definition revisions_there (d : Db) : Prop := ∀ o, is_Some (orgs d !! o) → is_Some (revisions d !! uuid_to_string o).
Lemma active_revision org d o d' :
  revisions_there d → active_organization org d = Some o →
  (∀ t, is_Some (revisions d !! t) → is_Some (revisions d' !! t)) → bump_revision org d' ≠ None.
Proof.
  intros Hr [Ho _]%active_organization_Some Hm. unfold bump_revision.
  destruct (Hm (uuid_to_string org)) as [r Hl]; [by apply Hr; exists o|]. unfold revisions in Hl. by rewrite Hl.
Qed.

Lemma upsert_acted session org role name permissions now aid rid o d d' :
  revisions_there d → upsert_role session org role name permissions now aid rid d = Some (o, d') →
  d' = d ∨ acted session org now (lit "role.manage") d d'.
Proof.
  unfold upsert_role. intros Hr E. open_stmt E; try by left; open_lookups.
  - right. open_lookups. eapply acted_audit; [done..|]. repeat within_last.
  - exfalso. open_lookups. eapply active_revision; [done..| |eassumption]. done.
Qed.
Lemma retarget_revisions now rows d d' t :
  retarget now rows d = Some d' → is_Some (revisions d !! t) → is_Some (revisions d' !! t).
Proof.
  unfold retarget. intros E. revert d E. induction rows as [|km rows IH]; intros d; [by intros [= <-]|].
  intros (d1 & E & E')%bind_Some Ht. eapply IH; [exact E'|]. clear -E Ht.
  unfold update_membership in E. apply bind_Some in E as (d2 & E1 & (d3 & E2 & E3)%bind_Some).
  unfold track in E3. apply bind_Some in E3 as (b & Hb & [= <-]).
  assert (revisions d3 = revisions d) as Hd.
  { unfold put_membership, adjust_owner_count in *. clear Hb. open_stmt E2; open_stmt E1; done. }
  unfold revisions in *. cbn. rewrite <- Hd in Ht. apply track_revisions in Hb as [->|(r & _ & ->)]; [done|].
  apply lookup_insert_is_Some. destruct (decide (uuid_to_string km.1.1 = t)); [by left|by right].
Qed.
Lemma delete_acted session org role now aid rid o d d' :
  revisions_there d → delete_role session org role now aid rid d = Some (o, d') →
  d' = d ∨ acted session org now (lit "role.manage") d d'.
Proof.
  unfold delete_role. intros Hr E. open_stmt E; try by left; open_lookups.
  - right. open_lookups. eapply acted_audit; [done..|]. repeat within_last.
    + eapply within_updates; [|done]. intros [k m'] Hk%elem_of_map_to_list.
      apply map_lookup_filter_Some in Hk as [_ [? _]]. done.
    + intros ? i [[? _]%andb_true_iff _]%andb_true_iff. by bprop.
  - exfalso. open_lookups. eapply active_revision; [done..| |eassumption]. intros t Ht. exact (retarget_revisions _ _ _ _ t ltac:(eassumption) Ht).
Qed.
Lemma assign_acted session org user role now aid rid id o d d' :
  assign_membership_role session org user role now aid rid id d = Some (o, d') →
  d' = d ∨ acted session org now (lit "member.manage") d d'.
Proof.
  unfold assign_membership_role. intros E. open_stmt E; try by left. open_lookups.
  right. eapply acted_audit; [done..|]. repeat within_last.
Qed.
Lemma remove_acted session org user now aid rid id o d d' :
  remove_membership session org user now aid rid id d = Some (o, d') →
  d' = d ∨ acted session org now (lit "member.manage") d d'.
Proof.
  unfold remove_membership. intros E. open_stmt E; try by left. open_lookups. right. by eapply end_membership_acted.
Qed.
Lemma transfer_acted session org target now aid rid id id' o d d' :
  transfer_ownership session org target now aid rid id id' d = Some (o, d') →
  d' = d ∨ acted session org now OWNERSHIP_TRANSFER d d'.
Proof.
  unfold transfer_ownership. intros E. open_stmt E; try by left. open_lookups.
  right. eapply acted_audit; [done..|]. case_bool_decide; simplify_eq; repeat within_last.
Qed.
Lemma invite_acted session org email role invitation a o d d' :
  create_invitation session org email role invitation a d = Some (o, d') →
  d' = d ∨ acted session org (in_now a) (lit "member.invite") d d'.
Proof.
  unfold create_invitation. intros E. open_stmt E; try by left. open_lookups.
  right. eapply acted_audit; [done..|]. repeat within_last; try done; [|congruence].
  intros ? i [? _]%andb_true_iff. by apply pending_in_organization.
Qed.
Lemma revoke_acted session org invitation now aid rid o d d' :
  revoke_invitation session org invitation now aid rid d = Some (o, d') →
  d' = d ∨ acted session org now (lit "member.invite") d d'.
Proof.
  unfold revoke_invitation. intros E. open_stmt E; [|by left].
  match goal with Hl : locked_invitation _ _ _ _ _ = Some _ |- _ => apply locked_invitation_acts in Hl as (Hi & Ho & m & Hp) end.
  right. eapply acted_audit; [done..|]. repeat within_last; [|done]. intros i0. by rewrite Hi; intros [= <-].
Qed.
Lemma resend_acted session org invitation a o d d' :
  resend_invitation session org invitation a d = Some (o, d') →
  d' = d ∨ acted session org (in_now a) (lit "member.invite") d d'.
Proof.
  unfold resend_invitation. intros E. open_stmt E; [|by left].
  match goal with Hl : locked_invitation _ _ _ _ _ = Some _ |- _ => apply locked_invitation_acts in Hl as (Hi & Ho & m & Hp) end.
  right. eapply acted_audit; [done..|]. repeat within_last; [|done]. intros i0. cbn. by rewrite Hi; intros [= <-].
Qed.

Lemma org_run_acted stmt session org now p d d' :
  authority stmt = Some (session, org, now, p) → revisions_there d → org_run stmt d = Some d' →
  d' = d ∨ acted session org now p d d'.
Proof.
  intros Ha Hrev. destruct stmt; try discriminate Ha; injection Ha as -> -> <- <-; cbn;
    intros ([o d1] & E & ->)%fmap_Some; cbn [snd];
    eauto using update_acted, archive_acted, upsert_acted, delete_acted, assign_acted, remove_acted, transfer_acted,
      invite_acted, revoke_acted, resend_acted.
Qed.

(** C20: Management is a privilege of a member, in one tenant, and is recorded.
    Renaming and archiving an organization, creating, changing and deleting
    roles, assigning roles, removing members, transferring ownership and
    creating, revoking and resending invitations either change nothing, or
    the session is live, belongs to an active account, has a second factor,
    its user is an active member of the organization, and the member's role
    grants the permission the statement asks for.  Then no account changes,
    nothing of another organization changes (its row, roles, members,
    permissions, invitations, revision), no session outside the organization
    changes, and exactly one record of the actor is appended to the audit
    log. *)
Theorem management_privileged (stmt : OrgStatement) (session org : Uuid) (now : Z) (p : str) (d d' : Db)
    (Hauthority : authority stmt = Some (session, org, now, p)) (Hrevisions : revisions_there d)
    (Hrun : org_run stmt d = Some d') (Hchange : d' ≠ d) :
  ∃ s u m r, sessions d !! session = Some s ∧ users d !! s_user s = Some u ∧ live_session now s u = true
    ∧ stepped_up s = true ∧ members d !! (org, s_user s) = Some m ∧ m_status m = MActive
    ∧ p ∈ default ∅ (grants d !! (org, m_role m))
    ∧ local org d d' ∧ audit d' = audit d ++ [r] ∧ recorded r org session s now.
Proof.
  destruct (org_run_acted _ _ _ _ _ _ _ Hauthority Hrevisions Hrun) as [|(s & m & d1 & r & Hp & [Hl Hq] & -> & Hr)]; [done|].
  apply privileged_actor_Some in Hp as [[[(Hs & u & Hu & Hlive)%account_actor_Some [Hm Hact]]%member_actor_Some Hh]%permitted_actor_Some Hup].
  exists s, u, m, r. unfold holds in Hh. bprop. split_and!; try done; [|cbn; by rewrite Hq].
  etrans; [exact Hl|]. done.
Qed.
End authority.
