(* ===== verification/Owners.v ===== *)
(** * Owners: how ownership of an organization is won and lost

    [moves G L d d']: whoever owns an organization after, and not before, has
    reason [G], and whoever owned it before, and not after, has reason [L].
    The statements of [Organizations] are shown to move ownership only for the
    reasons [won_by] and [lost_by]. *)

From S2P Require Export Authority.
Open Scope Z_scope.

#[local] Arguments lit : simpl never.

Definition owns (org user : Uuid) (d : Db) : Prop :=
  ∃ m, members d !! (org, user) = Some m ∧ m_role m = OWNER ∧ m_status m = MActive.
Lemma is_owner_true m : is_owner m = true ↔ m_role m = OWNER ∧ m_status m = MActive.
Proof. unfold is_owner. rewrite andb_true_iff, !bool_decide_eq_true. done. Qed.
Lemma is_owner_false m : is_owner m = false ↔ m_role m ≠ OWNER ∨ m_status m ≠ MActive.
Proof. unfold is_owner. rewrite andb_false_iff, !bool_decide_eq_false. done. Qed.
Lemma owns_iff org user d : owns org user d ↔ ∃ m, members d !! (org, user) = Some m ∧ is_owner m = true.
Proof. unfold owns. by setoid_rewrite is_owner_true. Qed.
Definition moves (G L : Uuid → Uuid → Prop) (d d' : Db) : Prop :=
  ∀ org user, (owns org user d' → owns org user d ∨ G org user) ∧ (owns org user d → owns org user d' ∨ L org user).

Section moves.
Context `{UuidText}.
Implicit Types (G L : Uuid → Uuid → Prop) (d : Db).

#[export] Instance moves_refl G L : Reflexive (moves G L).
Proof. intros d org user. auto. Qed.
#[export] Instance moves_trans G L : Transitive (moves G L).
Proof.
  intros d1 d2 d3 H12 H23 org user. destruct (H12 org user), (H23 org user). naive_solver.
Qed.
Lemma moves_eq G L d d' : members d' = members d → moves G L d d'.
Proof. intros E org user. unfold owns. rewrite E. auto. Qed.

Lemma moves_write G L org user old m d d' :
  members d !! (org, user) = old → members d' = <[(org, user) := m]> (members d) →
  (is_owner m = true → default false (is_owner <$> old) = false → G org user) →
  (is_owner m = false → default false (is_owner <$> old) = true → L org user) → moves G L d d'.
Proof.
  intros Hold E HG HL org' user'. rewrite !owns_iff, E.
  destruct (decide ((org, user) = (org', user'))) as [[= <- <-]|Hne]; [|rewrite lookup_insert_ne by done; auto].
  rewrite lookup_insert_eq, Hold. split.
  - intros (m' & [= <-] & Hm). destruct old as [m0|]; cbn in *; [|auto]. destruct (is_owner m0) eqn:E0; eauto.
  - intros (m0 & -> & Hm0). cbn in HL. destruct (is_owner m) eqn:Em; eauto.
Qed.
Lemma moves_update G L org user old m now id d d' :
  members d !! (org, user) = Some old →
  (is_owner m = true → is_owner old = false → G org user) →
  (is_owner m = false → is_owner old = true → L org user) →
  update_membership org user old m now id d = Some d' → moves G L d d'.
Proof. intros Hold HG HL (_ & E & _)%update_membership_effect. by eapply moves_write. Qed.
Lemma moves_upsert G L org user role now id d d' :
  (is_owner (mk_member role MActive now) = true → G org user) → L org user →
  upsert_membership org user role now id d = Some d' → moves G L d d'.
Proof.
  intros HG HL. unfold upsert_membership. intros E. destruct (memberships _ !! _) as [old|] eqn:Em.
  - apply bind_Some in E as (d1 & (_ & E1 & _)%adjust_effect & E).
    eapply (moves_trans _ _ _ d1); [by apply moves_eq|]. eapply moves_update, E; [by rewrite E1|auto..].
  - apply insert_membership_effect in E as (_ & E & _). by eapply moves_write; [exact Em|done|auto..].
Qed.
Lemma moves_updates G L f now ids rows d d' :
  NoDup rows.*1 → (∀ k m, (k, m) ∈ rows → members d !! k = Some m) →
  (∀ k m, (k, m) ∈ rows → is_owner (f m) = true → is_owner m = false → G k.1 k.2) →
  (∀ k m, (k, m) ∈ rows → is_owner (f m) = false → is_owner m = true → L k.1 k.2) →
  update_memberships f now ids rows d = Some d' → moves G L d d'.
Proof.
  intros Hnd Hin HG HL. revert d Hin. induction rows as [|[[org user] m] rows IH]; intros d Hin; [by intros [= <-]|].
  intros (d1 & E & Hrest)%bind_Some. cbn in E, Hnd. apply NoDup_cons in Hnd as [Hni Hnd].
  pose proof E as (_ & Hm & _)%update_membership_effect.
  etrans; [eapply moves_update, E|].
  - apply Hin. by left.
  - apply (HG (org, user) m). by left.
  - apply (HL (org, user) m). by left.
  - apply IH; [done|intros; eapply HG; [by right|done..]|intros; eapply HL; [by right|done..]| |done].
    intros k m' Hk. rewrite Hm, lookup_insert_ne; [apply Hin; by right|].
    intros <-. apply Hni, list_elem_of_fmap. by exists ((org, user), m').
Qed.
Lemma moves_filtered G L p (P : ∀ x, Decision (p x)) f now ids d d1 d' :
  members d1 = members d →
  (∀ k m, members d !! k = Some m → p (k, m) → is_owner (f m) = true → is_owner m = false → G k.1 k.2) →
  (∀ k m, members d !! k = Some m → p (k, m) → is_owner (f m) = false → is_owner m = true → L k.1 k.2) →
  update_memberships f now ids (map_to_list (filter p (memberships (directory d)))) d1 = Some d' → moves G L d1 d'.
Proof.
  intros Hd HG HL. apply moves_updates; [apply NoDup_fst_map_to_list|..].
  all: intros k m [Hk Hp]%elem_of_map_to_list%map_lookup_filter_Some; rewrite ?Hd; eauto.
Qed.
End moves.

Ltac moves_last :=
  match goal with
  | |- moves _ _ ?d ?d => reflexivity
  | E : org_audit _ _ _ _ _ _ _ _ _ _ = Some ?d |- moves _ _ _ ?d => apply org_audit_Some in E as [? ->]
  | E : queue_invitation _ _ = Some ?d |- moves _ _ _ ?d =>
      apply queue_invitation_directory in E; etrans; [|apply moves_eq; unfold members; by rewrite E]; clear E
  | E : bump_revision _ _ = Some ?d |- moves _ _ _ ?d =>
      apply bump_revision_directory in E; etrans; [|apply moves_eq; unfold members; by rewrite E]; clear E
  | |- moves _ _ _ (_ ?d) => etrans; [|by apply (moves_eq _ _ d)]
  end.

Section reasons.
Context `{UuidText}.

#[local] Hint Resolve account_acts stepped_up_second_factor administrator_administers : core.

(** A live session with a second factor of an owner. *)
Definition owner_acts (session org : Uuid) (now : Z) (d : Db) : Prop :=
  ∃ s, acts session now d s ∧ s_assurance s ≠ DbAal1 ∧ owns org (s_user s) d.

Inductive won_by (d : Db) (org user : Uuid) : OrgStatement → Prop :=
| won_creating a id s :
    co_organization a = org → orgs d !! org = None → acts (co_session a) (co_now a) d s → s_user s = user →
    won_by d org user (CreateOrganization a id)
| won_assigned session now aid rid id :
    owner_acts session org now d → won_by d org user (AssignRole session org user OWNER now aid rid id)
| won_transferred session now aid rid id id' :
    owner_acts session org now d → won_by d org user (TransferOwnership session org user now aid rid id id')
| won_accepting session hash now aid rid id s k i u :
    acts session now d s → s_user s = user → s_assurance s ≠ DbAal1 →
    invitations (directory d) !! k = Some i → i_token_hash i = hash → i_organization i = org → i_role i = OWNER →
    i_status i = IPending → now < i_expires_at_ms i →
    users d !! user = Some u → i_email i = u_normalized_email u →
    won_by d org user (AcceptInvitation session hash now aid rid id)
| won_restored session now aid rid ids m :
    administers session now d → members d !! (org, user) = Some m → m_role m = OWNER →
    m_status m = MBlocked → won_by d org user (SetUserDisabled session user false now aid rid ids).

(** An owner's loss: an owner took it, the user gave it up, or a system
    administrator disabled the account; somebody else remains an owner when
    it is taken or given up by leaving. *)
Inductive lost_by (d : Db) (org user : Uuid) : OrgStatement → Prop :=
| lost_assigned session role now aid rid id :
    owner_acts session org now d → role ≠ OWNER → more_owners org d = true →
    lost_by d org user (AssignRole session org user role now aid rid id)
| lost_removed session now aid rid id :
    owner_acts session org now d → more_owners org d = true →
    lost_by d org user (RemoveMember session org user now aid rid id)
| lost_left session now aid rid id s :
    acts session now d s → s_user s = user → more_owners org d = true →
    lost_by d org user (LeaveOrganization session org now aid rid id)
| lost_transferring session target now aid rid id id' s :
    acts session now d s → s_user s = user → s_assurance s ≠ DbAal1 → target ≠ user →
    lost_by d org user (TransferOwnership session org target now aid rid id id')
| lost_accepting session hash now aid rid id s :
    acts session now d s → s_user s = user →
    lost_by d org user (AcceptInvitation session hash now aid rid id)
| lost_disabled session now aid rid ids :
    administers session now d → more_owners org d = true →
    lost_by d org user (SetUserDisabled session user true now aid rid ids).

Definition moved (stmt : OrgStatement) (d d' : Db) : Prop :=
  moves (λ org user, won_by d org user stmt) (λ org user, lost_by d org user stmt) d d'.

Lemma holds_transfer org role d : directory_wf d → holds org role OWNERSHIP_TRANSFER d = true → role = OWNER.
Proof.
  intros W Hh. unfold holds in Hh. bprop. destruct (granted_permissions (directory d) !! (org, role)) eqn:E; cbn in Hh; [|set_solver].
  by eapply (wf_transfer d W).
Qed.
Lemma privileged_owner p session org now d s m :
  directory_wf d → privileged_actor p session org now d = Some (s, m) → can_transfer_ownership org m d = true →
  owner_acts session org now d.
Proof.
  intros W [[[Hs [Hm Hact]]%member_actor_Some Hh]%permitted_actor_Some Hup]%privileged_actor_Some Hc%holds_transfer; [|done].
  exists s. split_and!; [auto..|]. by exists m.
Qed.
Lemma privileged_transfer session org now d s m :
  privileged_actor OWNERSHIP_TRANSFER session org now d = Some (s, m) → can_transfer_ownership org m d = true.
Proof. by intros [[_ Hh]%permitted_actor_Some _]%privileged_actor_Some. Qed.

Lemma end_membership_moves (G L : Uuid → Uuid → Prop) session org user s m action now aid rid id o d d' :
  members d !! (org, user) = Some m → (is_owner m = true → L org user) →
  end_membership session org user s m action now aid rid id d = Some (o, d') → moves G L d d'.
Proof.
  intros Hm HL. unfold end_membership. intros E. open_stmt E. repeat moves_last.
  eapply moves_update; [done| |auto|done]. intros [_ ?]%is_owner_true. done.
Qed.
Lemma assignable_promotes org actor target d :
  assignable org actor target OWNER d = true → can_transfer_ownership org actor d = true.
Proof.
  unfold assignable. rewrite (bool_decide_true (OWNER = OWNER)) by done.
  destruct (can_transfer_ownership _ _ _); [done|]. by destruct (bool_decide _).
Qed.
Lemma assignable_demotes org actor target role d :
  assignable org actor target role d = true → m_role target = OWNER → role ≠ OWNER →
  can_transfer_ownership org actor d = true ∧ more_owners org d = true.
Proof.
  unfold assignable. intros Ha Ht Hr. rewrite (bool_decide_true (m_role target = OWNER)), (bool_decide_false (role = OWNER)) in Ha by done.
  cbn in Ha. by apply andb_true_iff in Ha.
Qed.
Lemma assign_moved session org user role now aid rid id o d d' :
  directory_wf d → assign_membership_role session org user role now aid rid id d = Some (o, d') →
  moved (AssignRole session org user role now aid rid id) d d'.
Proof.
  intros W. unfold assign_membership_role, moved. intros E. open_stmt E; repeat moves_last. open_lookups.
  match goal with Hm : active_membership _ _ _ = Some _ |- _ => apply active_membership_Some in Hm as [Hm Hact] end.
  match goal with Ha : negb _ = false |- _ => apply negb_false_iff in Ha; rename Ha into Hok end.
  eapply moves_update; [done| | |done].
  - intros [Er _]%is_owner_true _. cbn in Er. subst role. constructor. eauto using privileged_owner, assignable_promotes.
  - intros Ho [Er _]%is_owner_true. rewrite is_owner_false in Ho. cbn in Ho. assert (role ≠ OWNER) by naive_solver.
    destruct (assignable_demotes _ _ _ _ _ Hok Er) as [? ?]; [done|]. constructor; eauto using privileged_owner.
Qed.
Lemma remove_moved session org user now aid rid id o d d' :
  directory_wf d → remove_membership session org user now aid rid id d = Some (o, d') →
  moved (RemoveMember session org user now aid rid id) d d'.
Proof.
  intros W. unfold remove_membership, moved. intros E. open_stmt E; repeat moves_last. open_lookups.
  match goal with Hm : active_membership _ _ _ = Some _ |- _ => apply active_membership_Some in Hm as [Hm Hact] end.
  match goal with Ha : _ || _ = true |- _ => rename Ha into Hok end.
  eapply end_membership_moves, E; [done|]. intros [Er _]%is_owner_true. rewrite bool_decide_true in Hok by done.
  apply andb_true_iff in Hok as [? ?]. constructor; eauto using privileged_owner.
Qed.
Lemma leave_moved session org now aid rid id o d d' :
  leave_organization session org now aid rid id d = Some (o, d') →
  moved (LeaveOrganization session org now aid rid id) d d'.
Proof.
  unfold leave_organization, moved. intros E. open_stmt E; repeat moves_last. open_lookups.
  match goal with Hm : member_actor _ _ _ _ = Some _ |- _ => apply member_actor_Some in Hm as (Hs & Hm & _) end.
  match goal with Ha : _ || _ = true |- _ => rename Ha into Hok end.
  eapply end_membership_moves, E; [done|]. intros [Er _]%is_owner_true. rewrite bool_decide_true in Hok by done.
  econstructor; by eauto.
Qed.
Lemma transfer_moved session org target now aid rid id id' o d d' :
  directory_wf d → transfer_ownership session org target now aid rid id id' d = Some (o, d') →
  moved (TransferOwnership session org target now aid rid id id') d d'.
Proof.
  intros W. unfold transfer_ownership, moved. intros E. open_stmt E; repeat moves_last. open_lookups.
  match goal with Hm : active_membership _ _ _ = Some _ |- _ => apply active_membership_Some in Hm as [Hm Hact] end.
  match goal with Hp : privileged_actor _ _ _ _ _ = Some _ |- _ => rename Hp into Hpriv end.
  match goal with Hu : update_membership _ _ _ (with_role OWNER _) _ _ _ = Some _ |- _ => rename Hu into Hup end.
  pose proof Hpriv as [[[Hs [Hma _]]%member_actor_Some _]%permitted_actor_Some Hstep]%privileged_actor_Some.
  pose proof Hup as (_ & Em & _)%update_membership_effect. bprop.
  etrans; [eapply moves_update, Hup; [done| |]|].
  - intros _ _. constructor. eauto using privileged_owner, privileged_transfer.
  - intros Ho. rewrite is_owner_false in Ho. cbn in Ho. naive_solver.
  - case_bool_decide; simplify_eq; [|reflexivity]. eapply moves_update; [|..|done].
    + rewrite Em, lookup_insert_ne; [done|]. congruence.
    + intros [? _]%is_owner_true. done.
    + intros _ _. econstructor; by eauto.
Qed.
Lemma create_moved a id o d d' :
  create_organization a id d = Some (o, d') → moved (CreateOrganization a id) d d'.
Proof.
  unfold create_organization, moved. intros E. open_stmt E; repeat moves_last.
  unfold create_new_organization in E. open_stmt E. repeat moves_last.
  match goal with Hi : insert_organization _ _ _ = Some ?x, Hm : insert_membership _ _ _ _ _ _ = Some _ |- _ =>
    apply insert_organization_Some in Hi as (Hnew & _ & ->);
    apply insert_membership_effect in Hm as (_ & Hm & _); rename Hm into Em end.
  match type of Em with _ = <[_ := _]> (members (insert_built_in_roles ?org ?x)) =>
    destruct (built_in_roles_others org x) as (_ & _ & _ & Hb & _) end.
  unfold members at 2 in Em. rewrite Hb in Em. eapply moves_write; [done|exact Em| |].
  - intros _ _. econstructor; by eauto.
  - intros Ho. rewrite is_owner_false in Ho. cbn in Ho. naive_solver.
Qed.
Lemma accept_moved session hash now aid rid id o d d' :
  accept_invitation session hash now aid rid id d = Some (o, d') →
  moved (AcceptInvitation session hash now aid rid id) d d'.
Proof.
  unfold accept_invitation, moved. intros E. open_stmt E; repeat moves_last.
  match goal with Hg : _ = Some (_, (_, _), _) |- _ => apply accept_guard in Hg as (Hs & Hi & _ & Hok & u & Hu & He) end.
  apply invitation_of_Some in Hi as [Hi Hh]. unfold acceptable in Hok.
  apply andb_true_iff in Hok as [[Hst Hexp]%andb_true_iff Hup]. rewrite bool_decide_eq_true in Hst. rewrite Z.ltb_lt in Hexp.
  etrans; [|eapply moves_upsert; [| |done]]; [repeat moves_last| |econstructor; by eauto].
  intros [Er _]%is_owner_true. cbn in Er. rewrite bool_decide_true in Hup by done.
  eapply won_accepting; eauto.
Qed.
Lemma may_disable_owner user d org m :
  may_disable user d = true → members d !! (org, user) = Some m → is_owner m = true → more_owners org d = true.
Proof.
  unfold may_disable. intros Hf Hm Ho. rewrite forallb_spec in Hf. pose proof Ho as [_ Hact]%is_owner_true.
  specialize (Hf ((org, user), m)). cbn in Hf. rewrite Ho in Hf. apply Hf.
  apply elem_of_map_to_list, map_lookup_filter_Some. split; [done|]. split; [done|]. by left.
Qed.
Lemma disable_moved session user disabled now aid rid ids o d d' :
  set_user_disabled session user disabled now aid rid ids d = Some (o, d') →
  moved (SetUserDisabled session user disabled now aid rid ids) d d'.
Proof.
  unfold set_user_disabled, moved. intros E. open_stmt E; repeat moves_last. open_lookups.
  match goal with Hg : (if _ && _ then _ else _) = Some _ |- _ => destruct (_ && _) eqn:Eg in Hg; [|done]; simplify_eq end.
  apply andb_true_iff in Eg as [_ Hmay]. match goal with Ht : toggle_memberships _ _ _ _ _ = Some _ |- _ => rename Ht into Et end.
  etrans; [|eapply (moves_filtered _ _ _ _ _ _ _ d), Et; [done|..]]; [repeat moves_last|..].
  - intros [org user'] m Hm [[= ->] Hst] [Er Ea]%is_owner_true Ho. cbn in *. destruct disabled; [done|].
    rewrite is_owner_false in Ho. destruct Hst as [Hst|Hst]; [naive_solver|]. eapply won_restored; eauto.
  - intros [org user'] m Hm [[= ->] Hst] Ho Ho'. cbn in *. pose proof Ho' as [Er Ea]%is_owner_true. rewrite is_owner_false in Ho. destruct disabled.
    + econstructor; [by eauto|]. exact (may_disable_owner user d org m Hmay Hm Ho').
    + exfalso. cbn in Ho. naive_solver.
Qed.
Lemma delete_moved session org role now aid rid o d d' :
  delete_role session org role now aid rid d = Some (o, d') → moved (DeleteRole session org role now aid rid) d d'.
Proof.
  unfold delete_role, moved. intros E. open_stmt E; repeat moves_last.
  all: match goal with Ht : retarget _ _ _ = Some _ |- _ => eapply (moves_filtered _ _ _ _ _ _ _ d), Ht; [done|..] end.
  all: intros k m' Hm (_ & _ & Hst); rewrite is_owner_true, is_owner_false; cbn; bprop; naive_solver.
Qed.

Lemma org_run_moved stmt d d' : directory_wf d → org_run stmt d = Some d' → moved stmt d d'.
Proof.
  intros W. destruct stmt; cbn; intros ([o d1] & E & ->)%fmap_Some; cbn [snd];
    eauto using create_moved, delete_moved, assign_moved, remove_moved, leave_moved, transfer_moved, accept_moved, disable_moved; unfold moved.
  - unfold select_organization in E. open_stmt E; repeat moves_last.
  - unfold update_organization in E. open_stmt E; repeat moves_last.
  - unfold archive_organization in E. open_stmt E; repeat moves_last.
    destruct (bump_revision _ _) eqn:?; cbn; repeat moves_last.
  - unfold upsert_role in E. open_stmt E; repeat moves_last.
  - unfold create_invitation in E. open_stmt E; repeat moves_last.
  - unfold revoke_invitation in E. open_stmt E; repeat moves_last.
  - unfold resend_invitation in E. open_stmt E; repeat moves_last.
Qed.
End reasons.

(** ** Invitations to own *)

(** [k] invites [email] to own [org]. *)
Definition invited (k org : Uuid) (email : str) (d : Db) : Prop :=
  ∃ i, invitations (directory d) !! k = Some i ∧ i_organization i = org ∧ i_email i = email
    ∧ i_role i = OWNER ∧ i_status i = IPending.
Definition invites (G : Uuid → Uuid → str → Prop) (d d' : Db) : Prop :=
  ∀ k org email, invited k org email d' → invited k org email d ∨ G k org email.

Section invitations.
Context `{UuidText}.
Implicit Types (G : Uuid → Uuid → str → Prop) (d : Db).

#[export] Instance invites_refl G : Reflexive (invites G).
Proof. intros d k org email. auto. Qed.
#[export] Instance invites_trans G : Transitive (invites G).
Proof. intros d1 d2 d3 H12 H23 k org email Hi. destruct (H23 k org email Hi); auto. Qed.
Lemma invites_eq G d d' : invitations (directory d') = invitations (directory d) → invites G d d'.
Proof. intros E k org email. unfold invited. rewrite E. auto. Qed.
Lemma invites_same G d d' : same_directory d d' → invites G d d'.
Proof. intros [_ _ E _]. by apply invites_eq. Qed.
Lemma invites_rows G p f d :
  (∀ k i, p k i = true → i_role (f i) = OWNER → i_status (f i) = IPending → False) →
  invites G d (set_invitations (update_rows p f) d).
Proof.
  intros Hf k org email (i & Hi & Ho & He & Hr & Hs). cbn in Hi. rewrite lookup_update_rows, fmap_Some in Hi.
  destruct Hi as (i0 & Hi & ->). destruct (p k i0) eqn:Ep; [by destruct (Hf k i0)|]. left. by exists i0.
Qed.
Lemma invites_put G k i d :
  (i_role i = OWNER → i_status i = IPending → invited k (i_organization i) (i_email i) d ∨ G k (i_organization i) (i_email i)) →
  invites G d (set_invitations <[k := i]> d).
Proof.
  intros HG k' org email (i' & Hi & Ho & He & Hr & Hs). cbn in Hi. destruct (decide (k = k')) as [<-|].
  - rewrite lookup_insert_eq in Hi. simplify_eq. auto.
  - rewrite lookup_insert_ne in Hi by done. left. by exists i'.
Qed.
Lemma invites_updates G f now ids rows d d' : update_memberships f now ids rows d = Some d' → invites G d d'.
Proof.
  revert d. induction rows as [|km rows IH]; intros d; [by intros [= <-]|].
  intros (d1 & (_ & _ & E & _)%update_membership_effect & ?%IH)%bind_Some. etrans; [by apply invites_same|done].
Qed.
Lemma invites_upsert G org user role now id d d' : upsert_membership org user role now id d = Some d' → invites G d d'.
Proof.
  unfold upsert_membership. intros E. destruct (memberships _ !! _).
  - apply bind_Some in E as (d1 & (_ & _ & E1)%adjust_effect & (_ & _ & E & _)%update_membership_effect).
    apply invites_same. by etrans.
  - apply insert_membership_effect in E as (_ & _ & E & _). by apply invites_same.
Qed.
Lemma invites_insert G org user m now id d d' : insert_membership org user m now id d = Some d' → invites G d d'.
Proof. intros (_ & _ & E & _)%insert_membership_effect. by apply invites_same. Qed.
Lemma invites_update G org user old m now id d d' : update_membership org user old m now id d = Some d' → invites G d d'.
Proof. intros (_ & _ & E & _)%update_membership_effect. by apply invites_same. Qed.
End invitations.

Ltac invites_last :=
  match goal with
  | |- invites _ ?d ?d => reflexivity
  | E : org_audit _ _ _ _ _ _ _ _ _ _ = Some ?d |- invites _ _ ?d => apply org_audit_Some in E as [? ->]
  | E : update_membership _ _ _ _ _ _ _ = Some ?d |- invites _ _ ?d => etrans; [|by eapply invites_update]; clear E
  | E : insert_membership _ _ _ _ _ _ = Some ?d |- invites _ _ ?d => etrans; [|by eapply invites_insert]; clear E
  | E : upsert_membership _ _ _ _ _ _ = Some ?d |- invites _ _ ?d => etrans; [|by eapply invites_upsert]; clear E
  | E : retarget _ _ _ = Some ?d |- invites _ _ ?d => etrans; [|by eapply invites_updates]; clear E
  | E : toggle_memberships _ _ _ _ _ = Some ?d |- invites _ _ ?d => etrans; [|by eapply invites_updates]; clear E
  | E : queue_invitation _ _ = Some ?d |- invites _ _ ?d =>
      apply queue_invitation_directory in E; etrans; [|apply invites_eq; by rewrite E]; clear E
  | E : bump_revision _ _ = Some ?d |- invites _ _ ?d =>
      apply bump_revision_directory in E; etrans; [|apply invites_eq; by rewrite E]; clear E
  | |- invites _ _ (set_invitations (update_rows _ _) _) => etrans; [|apply invites_rows; by bprop; naive_solver]
  | |- invites _ _ (set_invitations _ _) => etrans; [|apply invites_put]
  | |- invites _ _ (_ ?d) => etrans; [|by apply (invites_eq _ d)]
  end.

Section claims.
Context `{UuidText}.

Definition invited_by (stmt : OrgStatement) (d : Db) (k org : Uuid) (email : str) : Prop :=
  ∃ session a, stmt = CreateInvitation session org email OWNER k a ∧ owner_acts session org (in_now a) d.

Lemma org_run_invites stmt d d' : directory_wf d → org_run stmt d = Some d' → invites (invited_by stmt d) d d'.
Proof.
  intros W. destruct stmt; cbn; intros ([o d1] & E & ->)%fmap_Some; cbn [snd].
  - unfold create_organization in E. open_stmt E; repeat invites_last.
    unfold create_new_organization in E. open_stmt E. repeat invites_last.
    match goal with Hi : insert_organization _ _ _ = Some _ |- _ => apply insert_organization_Some in Hi as (_ & _ & ->) end.
    repeat invites_last.
  - unfold select_organization in E. open_stmt E; repeat invites_last.
  - unfold update_organization in E. open_stmt E; repeat invites_last.
  - unfold archive_organization in E. open_stmt E; repeat invites_last.
    destruct (bump_revision _ _) eqn:?; cbn; repeat invites_last.
  - unfold upsert_role in E. open_stmt E; repeat invites_last.
  - unfold delete_role in E. open_stmt E; repeat invites_last.
  - unfold assign_membership_role in E. open_stmt E; repeat invites_last.
  - unfold remove_membership in E. open_stmt E; repeat invites_last. unfold end_membership in E. open_stmt E. repeat invites_last.
  - unfold leave_organization in E. open_stmt E; repeat invites_last. unfold end_membership in E. open_stmt E. repeat invites_last.
  - unfold transfer_ownership in E. open_stmt E; repeat invites_last. case_bool_decide; simplify_eq; repeat invites_last.
  - unfold create_invitation in E. open_stmt E; repeat invites_last. open_lookups. cbn. intros -> _. right. exists session, a. split; [done|].
    eapply privileged_owner; [done..|]. 
    match goal with Hb : _ && negb _ = false |- _ => by destruct (can_transfer_ownership _ _ _); rewrite bool_decide_true in Hb end.
  - unfold accept_invitation in E. open_stmt E; repeat invites_last; done.
  - unfold revoke_invitation in E. open_stmt E; repeat invites_last; done.
  - unfold resend_invitation in E. open_stmt E; repeat invites_last.
    match goal with Hl : locked_invitation _ _ _ _ _ = Some _ |- _ => apply locked_invitation_Some in Hl as (m & _ & Hi & _) end.
    cbn. intros Hr Hs. left. eexists. split_and!; [exact Hi|done..].
  - unfold set_user_disabled in E. open_stmt E; repeat invites_last.
Qed.

(** Rights to transfer ownership stay with the owner's role. *)
Lemma accept_grants session hash now aid rid id o d d' :
  accept_invitation session hash now aid rid id d = Some (o, d') → grants d' = grants d.
Proof.
  assert (∀ org user role now id d d', upsert_membership org user role now id d = Some d' → grants d' = grants d) as Hup.
  { intros *. unfold upsert_membership. intros E. destruct (memberships _ !! _).
    - apply bind_Some in E as (d1 & (_ & _ & E1)%adjust_effect & (_ & _ & E & _)%update_membership_effect).
      rewrite (sd_grants _ _ E). apply E1.
    - apply insert_membership_effect in E as (_ & _ & E & _). apply E. }
  unfold accept_invitation. intros E. open_stmt E; try done.
  match goal with Ha : org_audit _ _ _ _ _ _ _ _ _ _ = Some _ |- _ => apply org_audit_Some in Ha as [? ->] end.
  all: try match goal with Hb : bump_revision _ _ = Some _ |- _ => apply bump_revision_directory in Hb end.
  all: match goal with Hu : upsert_membership _ _ _ _ _ _ = Some _ |- _ => apply Hup in Hu end.
  all: unfold grants in *; cbn in *; congruence.
Qed.
Lemma org_run_transfer stmt d d' :
  allowed stmt → directory_wf d → org_run stmt d = Some d' →
  ∀ org role g, grants d' !! (org, role) = Some g → OWNERSHIP_TRANSFER ∈ g → role = OWNER.
Proof.
  intros Ha W Hrun. assert (counts_once stmt d ∨ grants d' = grants d) as [Hc|E].
  { destruct stmt; try (by left). right. cbn in Hrun. by apply fmap_Some in Hrun as ([o d1] & E%accept_grants & ->). }
  - destruct (org_run_okeeps stmt d d' Ha Hc Hrun W) as [W' _]. apply (wf_transfer _ W').
  - rewrite E. apply (wf_transfer _ W).
Qed.
Lemma managed_run_owned d0 d : owned d0 → rtc managed d0 d → owned d.
Proof. intros H0 Hsteps. induction Hsteps; eauto using managed_owned. Qed.


(** Owners are not pushed out by others.  Whoever owned an organization
    before a statement and does not after was demoted or removed by a live
    session with a second factor of an active owner while another owner
    remained, gave ownership up themselves (by leaving while another owner
    remained, by transferring it with a second factor to another member, or by
    accepting an invitation with a lesser role), or had the account disabled
    by a system administrator while another owner remained.  An administrator
    of the organization can do none of it. *)
Theorem ownership_lost (stmt : OrgStatement) (d d' : Db) (org user : Uuid) (Hwf : directory_wf d)
    (Hrun : org_run stmt d = Some d') (Hbefore : owns org user d) :
  owns org user d' ∨ lost_by d org user stmt.
Proof. destruct (org_run_moved _ _ _ Hwf Hrun org user) as [_ Hl]. auto. Qed.
End claims.
