(* ===== verification/KernelTheorems.v ===== *)
(** * KernelTheorems: refresh families, sessions and one-time tokens

    The properties of the relational kernel that hold for every run of
    [kstep]: a refresh family has one usable token, a token rotates once and
    its response is replayed unchanged inside the window, reuse kills the
    family and the session for good, a password change or reset expels every
    other session, and a one-time token opens at most one session. *)

From S2P Require Export KernelHistory.
Open Scope Z_scope.

#[local] Arguments lit : simpl never.

(** ** Refresh families *)

Definition unspent (r : RefreshRow) : Prop := rt_rotated_at_ms r = None ∧ rt_revoked_at_ms r = None.

(** What the table of refresh tokens looks like after any run. *)
Record family_wf (m : gmap (list Z) RefreshRow) : Prop := {
  fw_one_live : ∀ h1 h2 r1 r2, m !! h1 = Some r1 → m !! h2 = Some r2 →
    rt_family r1 = rt_family r2 → unspent r1 → unspent r2 → h1 = h2;
  fw_one_session : ∀ h1 h2 r1 r2, m !! h1 = Some r1 → m !! h2 = Some r2 →
    rt_family r1 = rt_family r2 → rt_session r1 = rt_session r2;
  fw_successor : ∀ h r, m !! h = Some r → rt_rotated_at_ms r ≠ None →
    ∃ h' r' v c t, rt_successor_hash r = Some h' ∧ rt_successor_key_version r = Some v
      ∧ rt_successor_ciphertext r = Some c ∧ rt_replay_until_ms r = Some t
      ∧ m !! h' = Some r' ∧ rt_family r' = rt_family r;
}.

Lemma family_wf_empty : family_wf ∅.
Proof. split; intros *; by rewrite lookup_empty. Qed.

Lemma family_wf_issue m hash session family expires :
  family_wf m → m !! hash = None → (∀ h r, m !! h = Some r → rt_family r ≠ family) →
  family_wf (<[hash := mk_refresh session family None None None None expires None None]> m).
Proof.
  intros [W1 W2 W3] Hh Hf.
  assert (Hne : ∀ h r, m !! h = Some r → h ≠ hash) by (intros h r ? ->; congruence).
  split.
  - intros h1 h2 r1 r2 [[<- <-]|[? E1]]%lookup_insert_Some [[<- <-]|[? E2]]%lookup_insert_Some Hfam;
      cbn in *; eauto; edestruct Hf; eauto.
  - intros h1 h2 r1 r2 [[<- <-]|[? E1]]%lookup_insert_Some [[<- <-]|[? E2]]%lookup_insert_Some Hfam;
      cbn in *; eauto; edestruct Hf; eauto.
  - intros h r [[<- <-]|[? E1]]%lookup_insert_Some Hr; [done|].
    destruct (W3 h r E1 Hr) as (h' & r' & v & c & t & ? & ? & ? & ? & E' & ?).
    exists h', r', v, c, t. split_and!; try done. rewrite lookup_insert_ne; [done|].
    intros <-. by eapply Hne.
Qed.

Lemma family_wf_revoke m p now : family_wf m → family_wf (update_rows p (revoke_refresh_row now) m).
Proof.
  intros [W1 W2 W3].
  assert (Hinv : ∀ h r, update_rows p (revoke_refresh_row now) m !! h = Some r → ∃ r0, m !! h = Some r0
    ∧ (r = r0 ∨ r = revoke_refresh_row now r0)).
  { intros h r. rewrite lookup_update_rows, fmap_Some. intros (r0 & ? & ->). exists r0. destruct (p h r0); auto. }
  split.
  - intros h1 h2 r1 r2 (a & Ha & [->| ->])%Hinv (b & Hb & [->| ->])%Hinv Hf U1 U2; try by destruct U1.
    + by eapply W1. + by destruct U2.
  - intros h1 h2 r1 r2 (a & Ha & Ea)%Hinv (b & Hb & Eb)%Hinv Hf.
    apply (W2 h1 h2 a b) in Ha as Hs; [|done|]; destruct Ea, Eb; subst; done.
  - intros h r (a & Ha & Ea)%Hinv Hr.
    destruct (W3 h a Ha) as (h' & r' & v & c & t & ? & ? & ? & ? & E' & ?); [by destruct Ea; subst|].
    eexists h', _, v, c, t. rewrite lookup_update_rows, E'. cbn.
    split_and!; try done; destruct Ea; subst; try done; by destruct (p h' r').
Qed.

Lemma family_wf_rotate m a r :
  family_wf m → m !! ro_current a = Some r → unspent r →
  <[ro_current a := rotate_row a r]> m !! ro_next a = None →
  family_wf (<[ro_next a := mk_refresh (rt_session r) (rt_family r) None None None None (ro_expires a) None None]>
    (<[ro_current a := rotate_row a r]> m)).
Proof.
  intros [W1 W2 W3] Hc Hu [Hn Hne]%lookup_insert_None. split.
  - intros h1 h2 r1 r2 [[<- <-]|[? [[<- <-]|[? E1]]%lookup_insert_Some]]%lookup_insert_Some
      [[<- <-]|[? [[<- <-]|[? E2]]%lookup_insert_Some]]%lookup_insert_Some Hf U1 U2;
      try done; try (by destruct U1); try (by destruct U2); cbn in *.
    + by destruct (W1 _ _ _ _ Hc E2 Hf Hu U2).
    + by destruct (W1 _ _ _ _ E1 Hc Hf U1 Hu).
    + by eapply W1.
  - intros h1 h2 r1 r2 [[<- <-]|[? [[<- <-]|[? E1]]%lookup_insert_Some]]%lookup_insert_Some
      [[<- <-]|[? [[<- <-]|[? E2]]%lookup_insert_Some]]%lookup_insert_Some Hf; cbn in *; eauto.
  - intros h r1 [[<- <-]|[? [[<- <-]|[? E1]]%lookup_insert_Some]]%lookup_insert_Some Hr; [done| |].
    + eexists (ro_next a), _, _, _, _. rewrite lookup_insert_eq. by split_and!.
    + destruct (W3 h r1 E1 Hr) as (h' & r' & v & c & t & ? & ? & ? & ? & E' & ?).
      destruct (decide (h' = ro_current a)) as [->|].
      * eexists (ro_current a), _, v, c, t. rewrite lookup_insert_ne, lookup_insert_eq by done.
        split_and!; try done. cbn. congruence.
      * exists h', r', v, c, t. rewrite !lookup_insert_ne by congruence. by split_and!.
Qed.

Section theorems.
Context `{UuidText}.

(** The statements that leave the table of refresh tokens alone. *)
Lemma open_session_refresh session user revision expires now aid action resource rid o d d' :
  open_session session user revision expires now aid action resource rid d = Some (o, d') →
  refresh_tokens d' = refresh_tokens d.
Proof. unfold open_session. intros E. by open_stmt E. Qed.
Lemma queue_token_refresh purpose actor action user a d d' :
  queue_token purpose actor action user a d = Some d' → refresh_tokens d' = refresh_tokens d.
Proof. unfold queue_token. intros E. by open_stmt E. Qed.
Lemma count_attempt_refresh key window renewal now b d d' :
  count_attempt key window renewal now d = Some (b, d') → refresh_tokens d' = refresh_tokens d.
Proof. unfold count_attempt. intros E. by open_stmt E. Qed.
Lemma insert_registration_refresh a d d' :
  insert_registration a d = Some d' → refresh_tokens d' = refresh_tokens d.
Proof. unfold insert_registration. intros E. by open_stmt E. Qed.
Lemma register_password_refresh a o d d' :
  register_password a d = Some (o, d') → refresh_tokens d' = refresh_tokens d.
Proof.
  unfold register_password. intros E. open_stmt E; try done. by eapply insert_registration_refresh.
Qed.
Lemma verify_email_refresh hash now session expires aid rid boot o d d' :
  verify_email hash now session expires aid rid boot d = Some (o, d') →
  refresh_tokens d' = refresh_tokens d.
Proof.
  unfold verify_email. intros E. open_stmt E; try done.
  rewrite (open_session_refresh _ _ _ _ _ _ _ _ _ _ _ _ E). by destruct (_ && _).
Qed.
Lemma resend_email_verification_refresh email bucket a o d d' :
  resend_email_verification email bucket a d = Some (o, d') → refresh_tokens d' = refresh_tokens d.
Proof.
  unfold resend_email_verification. intros E. open_stmt E;
    match goal with E' : count_attempt _ _ _ _ _ = Some _ |- _ => apply count_attempt_refresh in E'; rewrite <- E' end;
    try done.
  match goal with E' : queue_token _ _ _ _ _ _ = Some _ |- _ => by apply queue_token_refresh in E' end.
Qed.
Lemma start_password_reset_refresh email a o d d' :
  start_password_reset email a d = Some (o, d') → refresh_tokens d' = refresh_tokens d.
Proof.
  unfold start_password_reset. intros E. open_stmt E; try done. by eapply queue_token_refresh.
Qed.
Lemma issue_password_session_refresh user email hash session expires now aid rid o d d' :
  issue_password_session user email hash session expires now aid rid d = Some (o, d') →
  refresh_tokens d' = refresh_tokens d.
Proof.
  unfold issue_password_session. intros E. open_stmt E; try done. by apply open_session_refresh in E.
Qed.

Lemma rotate_refresh_token_wf a o d d' :
  rotate_refresh_token a d = Some (o, d') → family_wf (refresh_tokens d) → family_wf (refresh_tokens d').
Proof.
  unfold rotate_refresh_token. intros E W.
  destruct (current_token a d) as [[[r s] u]|] eqn:Ec; [|by injection E as <- <-].
  apply current_token_Some in Ec as (Hr & _). destruct rotatable eqn:Er.
  - apply rotatable_spec in Er as (? & ? & _). unfold rotate_token in E. open_stmt E. open_lookups.
    open_inserts. by apply family_wf_rotate.
  - destruct replayable as [[v c]|]; [by injection E as <- <-|]. destruct (_ && _); [|by injection E as <- <-].
    unfold detect_reuse in E. open_stmt E; by apply family_wf_revoke.
Qed.

Lemma kstep_family_wf d d' :
  kstep d d' → family_wf (refresh_tokens d) → family_wf (refresh_tokens d').
Proof.
  destruct 1 as [session hash family expires now aid rid o d d' Hf E|a o d d' E|
    target actor now aid rid o d d' E|a o d d' E|hash now session expires aid rid boot o d d' E|
    email bucket a o d d' E|key maximum window now o d d' E|email a o d d' E|
    user email hash session expires now aid rid o d d' E|user session old new now aid rid o d d' E|
    hash now password session expires aid rid o d d' E|d d' Hfo]; intros W.
  - unfold issue_token_pair in E. open_stmt E; try done. by apply family_wf_issue.
  - by eapply rotate_refresh_token_wf.
  - unfold revoke_session in E. open_stmt E; try done. by apply family_wf_revoke.
  - by rewrite (register_password_refresh _ _ _ _ E).
  - by rewrite (verify_email_refresh _ _ _ _ _ _ _ _ _ _ E).
  - by rewrite (resend_email_verification_refresh _ _ _ _ _ _ E).
  - unfold check_rate_limit in E. open_stmt E. by erewrite count_attempt_refresh.
  - by rewrite (start_password_reset_refresh _ _ _ _ _ E).
  - by rewrite (issue_password_session_refresh _ _ _ _ _ _ _ _ _ _ _ E).
  - unfold change_password in E. open_stmt E; try done. by apply family_wf_revoke.
  - unfold complete_password_reset in E. open_stmt E; try done.
    rewrite (open_session_refresh _ _ _ _ _ _ _ _ _ _ _ _ E). by apply family_wf_revoke.
  - by rewrite (fo_refresh _ _ Hfo).
Qed.

Lemma reachable_family_wf d : kernel_reachable d → family_wf (refresh_tokens d).
Proof.
  intros (d0 & H0 & Hr). assert (W : family_wf (refresh_tokens d0)) by (rewrite H0; apply family_wf_empty).
  clear H0. induction Hr; eauto using kstep_family_wf.
Qed.

(** C3: In every reachable state of the kernel, whatever statements ran in
    whatever order, a refresh family has at most one token that is neither
    rotated nor revoked; the tokens of a family belong to one session; and
    every rotated token carries the sealed response, the end of its replay
    window and the hash of a successor in the same family. *)
Theorem refresh_family_linear (d : Db) (Hd : kernel_reachable d) :
  family_wf (refresh_tokens d).
Proof. by apply reachable_family_wf. Qed.

(** ** Rotation and reuse *)

Lemma rotate_rotated a d d' :
  rotate_refresh_token a d = Some (Rotated, d') →
  ∃ r s u, current_token a d = Some (r, s, u) ∧ rotatable (ro_now a) r s u = true
    ∧ rotate_token a r s d = Some d'.
Proof.
  unfold rotate_refresh_token. destruct (current_token a d) as [[[r s] u]|] eqn:Ec; [|done].
  intros E. destruct rotatable eqn:Er.
  - open_stmt E. eauto 10.
  - destruct replayable as [[v c]|]; [done|]. destruct (_ && _); [|done].
    unfold detect_reuse in E. by open_stmt E.
Qed.
Lemma rotate_replayed a v c d d' :
  rotate_refresh_token a d = Some (Replayed v c, d') →
  ∃ r s u, current_token a d = Some (r, s, u) ∧ replayable (ro_now a) r s u = Some (v, c) ∧ d' = d.
Proof.
  unfold rotate_refresh_token. destruct (current_token a d) as [[[r s] u]|] eqn:Ec; [|done].
  intros E. destruct rotatable eqn:Er; [by open_stmt E|].
  destruct replayable as [[v' c']|] eqn:Ep; [injection E as <- <- <-; eauto 10|].
  destruct (_ && _); [|done]. unfold detect_reuse in E. by open_stmt E.
Qed.
Lemma rotate_reuse a d d' :
  rotate_refresh_token a d = Some (ReuseDetected, d') →
  ∃ r s u, current_token a d = Some (r, s, u) ∧ rt_rotated_at_ms r ≠ None ∧ rt_revoked_at_ms r = None
    ∧ s_revoked_at_ms s = None ∧ detect_reuse a r s d = Some (ReuseDetected, d').
Proof.
  unfold rotate_refresh_token. destruct (current_token a d) as [[[r s] u]|] eqn:Ec; [|done].
  intros E. destruct rotatable eqn:Er; [by open_stmt E|].
  destruct replayable as [[v' c']|] eqn:Ep; [done|].
  destruct (_ && _) eqn:Eg; [|done]. bprop. destruct Eg. exists r, s, u. split_and!; try done.
  unfold detect_reuse in E. by destruct (s_revoked_at_ms s).
Qed.
Lemma replayable_spec now r s u v c :
  replayable now r s u = Some (v, c) ↔
  rt_rotated_at_ms r ≠ None ∧ rt_revoked_at_ms r = None ∧ live_session now s u = true
  ∧ (∃ t, rt_replay_until_ms r = Some t ∧ now ≤ t)
  ∧ rt_successor_key_version r = Some v ∧ rt_successor_ciphertext r = Some c.
Proof.
  unfold replayable. split.
  - destruct (_ && _) eqn:E; [|done]. bprop. destruct E as [[[? ?] Ht] ?].
    intros (v' & ? & (c' & ? & [= -> ->])%bind_Some)%bind_Some.
    destruct (rt_replay_until_ms r) as [t|]; [|done]. bprop. naive_solver.
  - intros (? & ? & Hl & (t & Ht & Hn) & Hv & Hc). rewrite Ht, Hl, Hv, Hc.
    rewrite !bool_decide_true by done. by rewrite (proj2 (Z.leb_le _ _) Hn).
Qed.

(** A token that was revoked, or whose session was, is dead for good. *)
Lemma rotate_dead_token a d r :
  refresh_tokens d !! ro_current a = Some r → rt_revoked_at_ms r ≠ None →
  rotate_refresh_token a d = Some (InvalidRefresh, d).
Proof.
  intros Hr Hn. unfold rotate_refresh_token.
  destruct (current_token a d) as [[[r' s] u]|] eqn:Ec; [|done].
  apply current_token_Some in Ec as (? & _). assert (r' = r) as -> by congruence.
  unfold rotatable, replayable. rewrite (bool_decide_false (rt_revoked_at_ms r = None)) by done.
  by rewrite !andb_false_r.
Qed.
Lemma rotate_dead_session a d r s o d' :
  refresh_tokens d !! ro_current a = Some r → sessions d !! rt_session r = Some s →
  s_revoked_at_ms s ≠ None → rotate_refresh_token a d = Some (o, d') → o = InvalidRefresh.
Proof.
  intros Hr Hs Hn. unfold rotate_refresh_token.
  destruct (current_token a d) as [[[r' s'] u]|] eqn:Ec; [|naive_solver].
  apply current_token_Some in Ec as (? & Hs' & _). assert (r' = r) as -> by congruence.
  assert (s' = s) as -> by congruence.
  unfold rotatable, replayable, live_session. rewrite (bool_decide_false (s_revoked_at_ms s = None)) by done.
  rewrite !andb_false_l, !andb_false_r. unfold detect_reuse.
  destruct (s_revoked_at_ms s); [|done]. destruct (_ && _); naive_solver.
Qed.

(** Rows of the tables, followed along a run. *)
Lemma ksteps_session d d' k s :
  rtc kstep d d' → sessions d !! k = Some s →
  ∃ s', sessions d' !! k = Some s' ∧ session_evolves s s'.
Proof. intros Hr. apply (ev_sessions _ _ (ksteps_evolve _ _ Hr)). Qed.
Lemma ksteps_refresh d d' h r :
  rtc kstep d d' → refresh_tokens d !! h = Some r →
  ∃ r', refresh_tokens d' !! h = Some r' ∧ refresh_evolves r r'.
Proof. intros Hr. apply (ev_refresh _ _ (ksteps_evolve _ _ Hr)). Qed.
Lemma ksteps_token d d' h t :
  rtc kstep d d' → one_time_tokens d !! h = Some t →
  ∃ t', one_time_tokens d' !! h = Some t' ∧ token_evolves t t'.
Proof. intros Hr. apply (ev_tokens _ _ (ksteps_evolve _ _ Hr)). Qed.

(** The row a rotation leaves behind. *)
Lemma rotate_token_lookup a r s d d' :
  rotate_token a r s d = Some d' →
  refresh_tokens d' !! ro_current a = Some (rotate_row a r).
Proof.
  unfold rotate_token. intros E. open_stmt E. cbn in *.
  match goal with Hn : _ !! ro_next a = None |- _ => apply lookup_insert_None in Hn as [_ Hn] end.
  by rewrite lookup_insert_ne, lookup_insert_eq.
Qed.

(** A rotated token keeps what its rotation sealed. *)
Lemma rotated_row_kept a d d' d'' :
  rotate_refresh_token a d = Some (Rotated, d') → rtc kstep d' d'' →
  ∃ r, refresh_tokens d'' !! ro_current a = Some r ∧ rt_rotated_at_ms r = Some (ro_now a)
    ∧ rt_successor_key_version r = Some (ro_key_version a)
    ∧ rt_successor_ciphertext r = Some (ro_ciphertext a) ∧ rt_replay_until_ms r = Some (ro_replay_until a).
Proof.
  intros (r0 & s0 & u0 & _ & _ & E)%rotate_rotated Hsteps.
  apply rotate_token_lookup in E. destruct (ksteps_refresh _ _ _ _ Hsteps E) as (r & Hr & Hev).
  destruct Hev as (_ & _ & _ & (Hro & _ & Hv & Hci & Ht) & _); [done|]. by exists r.
Qed.
Lemma rotated_token_spent a r o d d' :
  refresh_tokens d !! ro_current a = Some r → rt_rotated_at_ms r ≠ None →
  rotate_refresh_token a d = Some (o, d') →
  o ≠ Rotated
  ∧ ∀ v c, o = Replayed v c →
      rt_successor_key_version r = Some v ∧ rt_successor_ciphertext r = Some c
      ∧ (∃ t, rt_replay_until_ms r = Some t ∧ ro_now a ≤ t) ∧ d' = d.
Proof.
  intros Hr Hn E. split.
  - intros ->. apply rotate_rotated in E as (r' & s & u & (? & _)%current_token_Some & (? & _)%rotatable_spec & _).
    congruence.
  - intros v c ->. apply rotate_replayed in E as (r' & s & u & (? & _)%current_token_Some & Hp & ->).
    apply replayable_spec in Hp as (_ & _ & _ & ? & ? & ?). assert (r' = r) as -> by congruence. done.
Qed.
Lemma live_rotated_outcome a r s u v c t o d d' :
  current_token a d = Some (r, s, u) → rt_rotated_at_ms r ≠ None → rt_revoked_at_ms r = None →
  live_session (ro_now a) s u = true → rt_successor_key_version r = Some v →
  rt_successor_ciphertext r = Some c → rt_replay_until_ms r = Some t →
  rotate_refresh_token a d = Some (o, d') →
  o = if ro_now a <=? t then Replayed v c else ReuseDetected.
Proof.
  intros Hc Hro Hrev Hlive Hv Hci Ht E. unfold rotate_refresh_token in E. rewrite Hc in E.
  assert (rotatable (ro_now a) r s u = false) as Hnr.
  { apply not_true_iff_false. rewrite rotatable_spec. intros (? & _). congruence. }
  rewrite Hnr in E. destruct (Z.leb_spec (ro_now a) t) as [Hle|Hgt].
  - assert (replayable (ro_now a) r s u = Some (v, c)) as Hp by (apply replayable_spec; eauto 10).
    rewrite Hp in E. by injection E as <- <-.
  - destruct (replayable _ _ _ _) as [[v' c']|] eqn:Hp.
    { apply replayable_spec in Hp as (_ & _ & _ & (t' & ? & ?) & _). rewrite Ht in *. simplify_eq. lia. }
    rewrite !bool_decide_true in E by done. cbn in E. unfold detect_reuse in E.
    apply live_session_spec in Hlive as (Hns & _). rewrite Hns in E. by open_stmt E.
Qed.

(** C18: A refresh token rotates once.  After a rotation, however many other
    statements run, presenting the same token again never rotates it: while
    the token is unrevoked and its session live it replays exactly the sealed
    response of that rotation up to the end of the replay window and is
    reported as reuse after it, and nothing else is ever replayed. *)
Theorem refresh_token_rotates_once (a a2 : RotateArgs) (o : RotateOutcome) (d d' d'' d3 : Db)
    (Hrot : rotate_refresh_token a d = Some (Rotated, d')) (Hsteps : rtc kstep d' d'')
    (Hsame : ro_current a2 = ro_current a) (Hagain : rotate_refresh_token a2 d'' = Some (o, d3)) :
  o ≠ Rotated
  ∧ (∀ v c, o = Replayed v c →
       v = ro_key_version a ∧ c = ro_ciphertext a ∧ ro_now a2 ≤ ro_replay_until a ∧ d3 = d'')
  ∧ (∀ r s u, current_token a2 d'' = Some (r, s, u) → rt_revoked_at_ms r = None →
       live_session (ro_now a2) s u = true →
       o = if ro_now a2 <=? ro_replay_until a
           then Replayed (ro_key_version a) (ro_ciphertext a) else ReuseDetected).
Proof.
  destruct (rotated_row_kept _ _ _ _ Hrot Hsteps) as (r & Hr & Hro & Hv & Hci & Ht).
  rewrite <- Hsame in Hr. destruct (rotated_token_spent a2 r o d'' d3) as [Hne Hrep]; [done|congruence|done|].
  split_and!; [done| |].
  - intros v c Ho. destruct (Hrep v c Ho) as (? & ? & (t & ? & ?) & ?). split_and!; congruence || (simplify_eq; lia).
  - intros r' s u Hc Hrev Hlive. apply current_token_Some in Hc as Hc'. destruct Hc' as (? & _).
    assert (r' = r) as -> by congruence. eapply live_rotated_outcome; try done. congruence.
Qed.

(** A session that was revoked acts for nobody, in any later state. *)
Lemma revoked_session_dead d d' k s now key_ok :
  rtc kstep d d' → sessions d !! k = Some s → s_revoked_at_ms s ≠ None →
  context_row k now key_ok d' = None.
Proof.
  intros Hr Hs Hn. destruct (ksteps_session _ _ _ _ Hr Hs) as (s' & Hs' & Hev).
  destruct Hev as (_ & _ & _ & _ & _ & Hrev & _).
  unfold context_row. rewrite Hs'. cbn. destruct (users d' !! s_user s'); [|done]. cbn.
  unfold live_session. rewrite bool_decide_false by auto. done.
Qed.
Lemma revoked_session_rotates_nothing d d' k s a r o d'' :
  rtc kstep d d' → sessions d !! k = Some s → s_revoked_at_ms s ≠ None →
  refresh_tokens d' !! ro_current a = Some r → rt_session r = k →
  rotate_refresh_token a d' = Some (o, d'') → o = InvalidRefresh.
Proof.
  intros Hr Hs Hn Ht <-. destruct (ksteps_session _ _ _ _ Hr Hs) as (s' & Hs' & Hev).
  destruct Hev as (_ & _ & _ & _ & _ & Hrev & _). eapply rotate_dead_session; eauto.
Qed.

Lemma detect_reuse_effect a r s d d' :
  detect_reuse a r s d = Some (ReuseDetected, d') →
  refresh_tokens d' = update_rows
    (λ _ r', bool_decide (rt_family r' = rt_family r) && bool_decide (rt_revoked_at_ms r' = None))
    (revoke_refresh_row (ro_now a)) (refresh_tokens d)
  ∧ sessions d' !! rt_session r = Some (revoke_session_row (ro_now a) s).
Proof.
  unfold detect_reuse. intros E. open_stmt E. split; [done|]. cbn. by rewrite lookup_insert_eq.
Qed.

(** C17: Reuse of a rotated refresh token is final.  Once it is detected, in
    every later state the session of the token loads no request context, no
    token of that session (of this family or of another) rotates or replays,
    and every token that was in the family is rejected without an effect. *)
Theorem reuse_revokes_family_for_good (a : RotateArgs) (d d' d'' : Db) (r0 : RefreshRow)
    (Htok : refresh_tokens d !! ro_current a = Some r0)
    (Hreuse : rotate_refresh_token a d = Some (ReuseDetected, d')) (Hsteps : rtc kstep d' d'') :
  (∀ now key, load_request_context (rt_session r0) now key d'' = None)
  ∧ (∀ a2 r o d3, refresh_tokens d'' !! ro_current a2 = Some r → rt_session r = rt_session r0 →
       rotate_refresh_token a2 d'' = Some (o, d3) → o = InvalidRefresh)
  ∧ (∀ a2 r, refresh_tokens d !! ro_current a2 = Some r → rt_family r = rt_family r0 →
       rotate_refresh_token a2 d'' = Some (InvalidRefresh, d'')).
Proof.
  apply rotate_reuse in Hreuse as (r & s & u & (Hr & Hs & _)%current_token_Some & _ & _ & _ & E).
  assert (r = r0) as -> by congruence. apply detect_reuse_effect in E as [Ht Hs']. split_and!.
  - intros now key. by eapply revoked_session_dead.
  - intros a2 r o d3 Hr2 Hses Hrot. by eapply (revoked_session_rotates_nothing d' d'' _ _ a2 r).
  - intros a2 r Hr2 Hfam.
    assert (∃ r', refresh_tokens d' !! ro_current a2 = Some r' ∧ rt_revoked_at_ms r' ≠ None) as (r' & Hr' & Hn).
    { rewrite Ht, lookup_update_rows, Hr2. cbn. eexists. split; [done|].
      rewrite bool_decide_true by done. cbn. case_bool_decide; done. }
    destruct (ksteps_refresh _ _ _ _ Hsteps Hr') as (r'' & Hr'' & Hev).
    eapply rotate_dead_token; [done|]. destruct Hev as (_ & _ & _ & _ & Hk). auto.
Qed.

(** ** Passwords *)

(** The effect of a password change: the password is replaced, the acting
    session stays live and every other session of the user is revoked. *)
Lemma change_password_effect user session old new now aid rid d d' :
  change_password user session old new now aid rid d = Some (true, d') →
  pw_hash <$> passwords d !! user = Some old
  ∧ pw_hash <$> passwords d' !! user = Some new
  ∧ (∃ s u, sessions d !! session = Some s ∧ users d !! user = Some u ∧ s_user s = user
       ∧ live_session now s u = true)
  ∧ (∃ s u, sessions d' !! session = Some s ∧ users d' !! user = Some u ∧ s_user s = user
       ∧ live_session now s u = true)
  ∧ (∀ k s, sessions d !! k = Some s → s_user s = user → k ≠ session →
       ∃ s', sessions d' !! k = Some s' ∧ s_revoked_at_ms s' ≠ None).
Proof.
  unfold change_password. intros E. open_stmt E. open_lookups.
  match goal with Hb : _ && _ && _ && _ = true |- _ => rename Hb into Hguard end.
  bprop. destruct Hguard as [[[<- Hlive] <-] _].
  pose proof Hlive as (Hn & He & Hsec & Hact)%live_session_spec. cbn. rewrite !lookup_insert_eq. split_and!.
  - by match goal with Hp : passwords d !! _ = Some _ |- _ => rewrite Hp end.
  - done.
  - do 2 eexists. by split_and!.
  - do 2 eexists. split_and!; try done. apply live_session_spec. by split_and!.
  - intros k s' Hk Hu Hne. rewrite lookup_insert_ne, lookup_update_rows, Hk by done. cbn. eexists. split; [done|].
    rewrite (bool_decide_true (s_user s' = _)), (bool_decide_false (k = session)) by done. cbn. by case_bool_decide.
Qed.

(** A password change expels every other session of the user: in every
    later state they load no request context and their refresh tokens are
    refused, while the session that changed the password stays live at that
    moment and only the new password hash is on record. *)
Theorem password_change_expels_others (user session : Uuid) (old new : str) (now : Z) (aid : Uuid)
    (rid : str) (d d' d'' : Db)
    (Hchange : change_password user session old new now aid rid d = Some (true, d'))
    (Hsteps : rtc kstep d' d'') :
  (∀ k s, sessions d !! k = Some s → s_user s = user → k ≠ session →
     (∀ t key, load_request_context k t key d'' = None)
     ∧ (∀ a r o d3, refresh_tokens d'' !! ro_current a = Some r → rt_session r = k →
          rotate_refresh_token a d'' = Some (o, d3) → o = InvalidRefresh))
  ∧ (∃ s u, sessions d' !! session = Some s ∧ s_user s = user ∧ users d' !! user = Some u
       ∧ live_session now s u = true)
  ∧ pw_hash <$> passwords d' !! user = Some new.
Proof.
  apply change_password_effect in Hchange as (_ & Hnew & _ & (s & u & ? & ? & ? & ?) & Hothers). split_and!.
  - intros k s' Hk Hu Hne. destruct (Hothers k s' Hk Hu Hne) as (s1 & Hs1 & Hr1). split.
    + intros t key. by eapply revoked_session_dead.
    + intros a r o d3 Hr Hk' Hrot. eapply revoked_session_rotates_nothing; [exact Hsteps|done..].
  - exists s, u. by split_and!.
  - done.
Qed.

(** ** One-time tokens *)

Lemma consumed_token_useless d d' h t purpose now t' :
  rtc kstep d d' → one_time_tokens d !! h = Some t → ot_consumed_at_ms t ≠ None →
  one_time_tokens d' !! h = Some t' → usable_token purpose now t' = false.
Proof.
  intros Hr Ht Hn Ht'. destruct (ksteps_token _ _ _ _ Hr Ht) as (t'' & ? & Hev).
  assert (t'' = t') as -> by congruence. destruct Hev as (_ & _ & _ & Hc).
  unfold usable_token. rewrite (bool_decide_false (ot_consumed_at_ms t' = None)) by auto.
  by rewrite andb_false_r.
Qed.
Lemma open_session_effect session user revision expires now aid action resource rid ns d d' :
  open_session session user revision expires now aid action resource rid d = Some (Some ns, d') →
  ns = mk_new_session session user expires ∧ sessions d !! session = None
  ∧ sessions d' = <[session := mk_session user None DbAal1 1 revision expires None now]> (sessions d)
  ∧ users d' = users d ∧ one_time_tokens d' = one_time_tokens d ∧ passwords d' = passwords d.
Proof. unfold open_session. intros E. open_stmt E. by split_and!. Qed.

(** The effects of the two statements that redeem a one-time token. *)
Lemma verify_email_effect hash now session expires aid rid boot ns d d' :
  verify_email hash now session expires aid rid boot d = Some (Some ns, d') →
  ∃ t user u, one_time_tokens d !! hash = Some t ∧ usable_token EmailVerificationToken now t = true
    ∧ ot_user t = Some user ∧ users d !! user = Some u ∧ (u_status u = UPending ∨ u_status u = UActive)
    ∧ ns = mk_new_session session user expires
    ∧ (∃ t', one_time_tokens d' !! hash = Some t' ∧ ot_consumed_at_ms t' ≠ None)
    ∧ (∃ s u', sessions d' !! session = Some s ∧ users d' !! user = Some u' ∧ s_user s = user
         ∧ u_status u' = UActive ∧ ∀ t, t < expires → live_session t s u' = true).
Proof.
  unfold verify_email. intros E. open_stmt E. open_lookups.
  match goal with Hl : negb _ = false |- _ => apply negb_false_iff in Hl end.
  match goal with Hb : _ || _ = true |- _ => rename Hb into Hst end. bprop.
  set (d1 := if _ && _ then _ else _) in E.
  apply open_session_effect in E as (-> & _ & Hs & Hus & Hot & _).
  assert (users d1 !! l = Some (set_user_status UActive u)
    ∧ one_time_tokens d1 = <[hash := consume_row now o]> (one_time_tokens d)) as [Hu1 Ht1].
  { unfold d1. destruct (_ && _); cbn; by rewrite lookup_insert_eq. }
  do 3 eexists. split_and!; try done.
  - rewrite Hot, Ht1, lookup_insert_eq. eexists. split; [done|]. done.
  - rewrite Hs, Hus, lookup_insert_eq. do 2 eexists. split_and!; try done.
    intros t Ht. apply live_session_spec. by split_and!.
Qed.
Lemma complete_password_reset_effect hash now password session expires aid rid ns d d' :
  complete_password_reset hash now password session expires aid rid d = Some (Some ns, d') →
  ∃ t user u, one_time_tokens d !! hash = Some t ∧ usable_token PasswordResetToken now t = true
    ∧ ot_user t = Some user ∧ users d !! user = Some u ∧ u_status u = UActive
    ∧ ns = mk_new_session session user expires
    ∧ (∃ t', one_time_tokens d' !! hash = Some t' ∧ ot_consumed_at_ms t' ≠ None)
    ∧ pw_hash <$> passwords d' !! user = Some password
    ∧ (∃ s u', sessions d' !! session = Some s ∧ users d' !! user = Some u' ∧ s_user s = user
         ∧ ∀ t, t < expires → live_session t s u' = true)
    ∧ (∀ k s, sessions d !! k = Some s → s_user s = user →
         ∃ s', sessions d' !! k = Some s' ∧ s_revoked_at_ms s' ≠ None).
Proof.
  unfold complete_password_reset. intros E. open_stmt E. open_lookups.
  match goal with Hl : negb _ = false |- _ => apply negb_false_iff in Hl end.
  apply open_session_effect in E as (-> & Hfresh & Hs & Hus & Hot & Hpw).
  cbn [ns_user sessions users passwords one_time_tokens set_users set_sessions set_refresh_tokens set_passwords
    set_one_time_tokens] in *.
  match goal with Hb : bool_decide (u_status _ = UActive) = true |- _ => bprop end.
  rewrite lookup_update_rows in Hfresh. apply fmap_None in Hfresh.
  exists o, l, u. rewrite Hs, Hus, Hot, Hpw, !lookup_insert_eq. split_and!; try done.
  - by eexists.
  - do 2 eexists. split_and!; try done. intros t Ht. apply live_session_spec. by split_and!.
  - intros k s Hk Hu. rewrite lookup_insert_ne by congruence. rewrite lookup_update_rows, Hk. cbn.
    eexists. split; [done|]. rewrite (bool_decide_true (s_user s = _)) by done. cbn. by case_bool_decide.
Qed.

(** A password reset link works once and expels everybody.  When a reset
    succeeds, the new session is live for its user at that moment if its
    lifetime is positive, every session the user had before loads no request
    context and refreshes nothing in any later state, and the same link never
    opens a session again. *)
Theorem password_reset_single_use (hash : list Z) (now : Z) (password : str) (session : Uuid)
    (expires : Z) (aid : Uuid) (rid : str) (ns : NewSession) (d d' d'' : Db)
    (Hreset : complete_password_reset hash now password session expires aid rid d = Some (Some ns, d'))
    (Hsteps : rtc kstep d' d'') :
  (now < expires → ∃ s u, sessions d' !! session = Some s ∧ users d' !! ns_user ns = Some u
     ∧ s_user s = ns_user ns ∧ live_session now s u = true)
  ∧ (∀ k s, sessions d !! k = Some s → s_user s = ns_user ns →
       (∀ t key, load_request_context k t key d'' = None)
       ∧ (∀ a r o d3, refresh_tokens d'' !! ro_current a = Some r → rt_session r = k →
            rotate_refresh_token a d'' = Some (o, d3) → o = InvalidRefresh))
  ∧ (∀ now' password' session' expires' aid' rid',
       complete_password_reset hash now' password' session' expires' aid' rid' d'' = Some (None, d'')).
Proof.
  apply complete_password_reset_effect in Hreset
    as (t & user & u & _ & _ & _ & _ & _ & -> & (t' & Ht' & Hc) & _ & (s & u' & ? & ? & ? & Hlive) & Hothers).
  cbn. split_and!.
  - intros He. exists s, u'. split_and!; auto.
  - intros k s0 Hk Hu. destruct (Hothers k s0 Hk Hu) as (s1 & Hs1 & Hr1).
    split; [by intros; eapply revoked_session_dead|].
    intros a r o' d3 Hr Hk' Hrot. eapply revoked_session_rotates_nothing; [exact Hsteps|done..].
  - intros now' password' session' expires' aid' rid'. unfold complete_password_reset.
    destruct (one_time_tokens d'' !! hash) as [t''|] eqn:Et; [|done].
    erewrite consumed_token_useless; [done|exact Hsteps|exact Ht'|exact Hc|exact Et].
Qed.

(** A reset presented for an account that is not active answers as an unknown
    token does, yet its statement has already consumed the token and replaced
    the password: the status is read only by the step after them. *)
Lemma reset_of_inactive_account hash now password session expires aid rid t user p u d :
  one_time_tokens d !! hash = Some t → usable_token PasswordResetToken now t = true → ot_user t = Some user →
  passwords d !! user = Some p → users d !! user = Some u → u_status u ≠ UActive →
  ∃ d', complete_password_reset hash now password session expires aid rid d = Some (None, d')
    ∧ pw_hash <$> passwords d' !! user = Some password
    ∧ (∃ t', one_time_tokens d' !! hash = Some t' ∧ ot_consumed_at_ms t' = Some now).
Proof.
  intros Ht Hok Hu Hp Huser Hst. unfold complete_password_reset. rewrite Ht, Hok. cbn. rewrite Hu. cbn.
  rewrite Hp. cbn. rewrite Huser, bool_decide_false by done. eexists. split; [done|].
  cbn. rewrite !lookup_insert_eq. split; [done|]. by eexists.
Qed.
End theorems.
