(* ===== verification/KernelWire.v ===== *)
(** * KernelWire: statements on the wire, and the transport

    [kernel_exec] executes a statement text of
    src/crates/wasi-auth/src/postgres on its parameters, in the order of the
    placeholders, and lays out the columns of its result.  [KernelWorld] is
    what the services see: a clock, a random source and a PostgreSQL
    transport.  Its laws say that a call executes its statement at one moment
    between the call and its return, that other statements may run before and
    after that moment, and that a failed call may or may not have executed. *)

From S2P Require Export KernelTheorems.
Open Scope Z_scope.

#[local] Arguments lit : simpl never.

Inductive KernelSql :=
| ISSUE_TOKEN_PAIR_SQL | LOAD_REFRESH_SESSION_SQL | ROTATE_REFRESH_TOKEN_SQL
| LOAD_REQUEST_CONTEXT_SQL | LOAD_REQUEST_FINGERPRINT_SQL
| REGISTER_PASSWORD_SQL | REGISTRATION_REPLAY_SQL
| RESEND_EMAIL_VERIFICATION_SQL | VERIFY_EMAIL_SQL
| LOAD_PASSWORD_LOGIN_SQL | LOAD_PASSWORD_BY_USER_SQL | ISSUE_PASSWORD_SESSION_SQL
| CHANGE_PASSWORD_SQL | START_PASSWORD_RESET_SQL | COMPLETE_PASSWORD_RESET_SQL
| LIST_SESSIONS_SQL | REVOKE_SESSION_SQL | CHECK_RATE_LIMIT_SQL.

Section wire.
Context `{UuidText}.

Definition kernel_outcome (outcome : string) : PgRow := PgRow_new [(lit "outcome", PgText (lit outcome))].
Definition pg_uuid (v : option Uuid) : PgValue := pg_text (uuid_to_string <$> v).

Definition rotate_columns (a : RotateArgs) (o : RotateOutcome) : PgRow :=
  let '(outcome, version, ciphertext) :=
    match o with
    | Rotated => ("rotated", Some (ro_key_version a), Some (ro_ciphertext a))
    | Replayed v c => ("replayed", Some v, Some c)
    | ReuseDetected => ("reuse_detected", None, None)
    | InvalidRefresh => ("invalid", None, None)
    end%string in
  PgRow_new [(lit "outcome", PgText (lit outcome)); (lit "response_key_version", pg_text version);
             (lit "response_ciphertext", pg_bytes ciphertext)].

Definition fingerprint_columns (c : ContextRow) : list (str * PgValue) :=
  [(lit "user_id", PgText (uuid_to_string (cr_user c)));
   (lit "session_id", PgText (uuid_to_string (cr_session c)));
   (lit "organization_id", pg_uuid (cr_organization c));
   (lit "assurance", PgText (assurance_text (cr_assurance c)));
   (lit "expires_at_ms", PgI64 (cr_expires_at_ms c));
   (lit "session_revision", PgI64 (cr_session_revision c));
   (lit "user_security_revision", PgI64 (cr_user_security_revision c));
   (lit "organization_authorization_revision", pg_i64 (cr_authorization_revision c));
   (lit "role_id", pg_text (cr_role c));
   (lit "policy_revision", pg_text (cr_policy_revision c));
   (lit "system_administrator", PgBool (cr_system_administrator c))].
Definition context_columns (c : ContextRow) : PgRow :=
  PgRow_new (fingerprint_columns c ++
    [(lit "primary_email", PgText (cr_primary_email c));
     (lit "created_at_ms", PgI64 (cr_created_at_ms c));
     (lit "permissions", PgJson (VArray (map VString (cr_permissions c))))]).

Definition session_columns (ns : NewSession) : PgRow :=
  PgRow_new [(lit "outcome", PgText (lit "created"));
             (lit "session_id", PgText (uuid_to_string (ns_session ns)));
             (lit "user_id", PgText (uuid_to_string (ns_user ns)));
             (lit "expires_at_ms", PgI64 (ns_expires_at_ms ns))].
Definition register_columns (o : RegisterOutcome) : PgRow :=
  let '(outcome, user) :=
    match o with
    | RegCreated u => ("created", Some u)
    | RegReplayed u => ("replayed", u)
    | RegIdempotencyConflict => ("idempotency_conflict", None)
    | RegEmailConflict => ("email_conflict", None)
    end%string in
  PgRow_new [(lit "outcome", PgText (lit outcome)); (lit "user_id", pg_text user)].
Definition listed_columns (ks : Uuid * SessionRow) : PgRow :=
  PgRow_new [(lit "session_id", PgText (uuid_to_string ks.1));
             (lit "organization_id", pg_uuid (s_organization ks.2));
             (lit "assurance", PgText (assurance_text (s_assurance ks.2)));
             (lit "created_at_ms", PgI64 (s_created_at_ms ks.2));
             (lit "expires_at_ms", PgI64 (s_expires_at_ms ks.2))].

(** A nullable [text] parameter cast to [uuid]. *)
Definition opt_uuid (v : PgValue) : option (option Uuid) :=
  match v with
  | PgNull => Some None
  | PgText s => Some <$> uuid_parse_str s
  | _ => None
  end.
Definition opt_rows {A} (f : A → PgRow) (o : option A) : list PgRow :=
  match o with Some a => [f a] | None => [] end.
Definition flag_rows (row : PgRow) (b : bool) : list PgRow := if b then [row] else [].

(** Executes a statement on its parameters; [None] is a database error. *)
Definition kernel_exec (sql : KernelSql) (ps : list PgValue) (d : Db) : option (list PgRow * Db) :=
  match sql, ps with
  | ISSUE_TOKEN_PAIR_SQL,
      [PgText session; PgBytes hash; PgText family; PgI64 expires; PgI64 now; PgText aid; PgText rid] =>
      session ← uuid_parse_str session; family ← uuid_parse_str family; aid ← uuid_parse_str aid;
      '(ok, d) ← issue_token_pair session hash family expires now aid rid d;
      Some (flag_rows (kernel_outcome "issued") ok, d)
  | LOAD_REFRESH_SESSION_SQL, [PgBytes hash] =>
      Some (opt_rows (λ s, PgRow_new [(lit "session_id", PgText (uuid_to_string s))])
              (load_refresh_session hash d), d)
  | ROTATE_REFRESH_TOKEN_SQL,
      [PgBytes current; bound; PgBytes next; PgText version; PgBytes ciphertext; PgI64 replay; PgI64 now;
       PgI64 expires; PgText rotation; PgText reuse; PgText rid; PgI64 session_expires] =>
      bound ← opt_uuid bound; rotation ← uuid_parse_str rotation; reuse ← uuid_parse_str reuse;
      let a := mk_rotate current bound next version ciphertext replay now expires rotation reuse rid session_expires in
      '(o, d) ← rotate_refresh_token a d;
      Some ([rotate_columns a o], d)
  | LOAD_REQUEST_CONTEXT_SQL, [PgText session; PgI64 now; PgText key] =>
      session ← uuid_parse_str session;
      Some (opt_rows context_columns (load_request_context session now key d), d)
  | LOAD_REQUEST_FINGERPRINT_SQL, [PgText session; PgI64 now; PgText key] =>
      session ← uuid_parse_str session;
      Some (opt_rows (λ c, PgRow_new (fingerprint_columns c)) (load_request_fingerprint session now key d), d)
  | REGISTER_PASSWORD_SQL,
      [PgText key; PgText actor; PgBytes request; PgText user; PgText normalized; PgText primary; PgText hash;
       PgBytes token; PgText redirect; PgI64 token_expires; PgText outbox; PgText dedup; PgText version;
       PgBytes ciphertext; PgText aid; PgText rid; PgJson metadata; PgI64 now; PgI64 expires] =>
      user ← uuid_parse_str user; outbox ← uuid_parse_str outbox; aid ← uuid_parse_str aid;
      '(o, d) ← register_password (mk_register key actor request user normalized primary hash token
                   token_expires outbox dedup version ciphertext aid rid now) d;
      Some ([register_columns o], d)
  | REGISTRATION_REPLAY_SQL, [PgText key; PgText actor; PgBytes request] =>
      Some (opt_rows register_columns (registration_replay key actor request d), d)
  | RESEND_EMAIL_VERIFICATION_SQL,
      [PgText email; PgBytes token; PgText redirect; PgI64 expires; PgText outbox; PgText dedup; PgText version;
       PgBytes ciphertext; PgText aid; PgText rid; PgI64 now; PgText bucket] =>
      outbox ← uuid_parse_str outbox; aid ← uuid_parse_str aid;
      '(ok, d) ← resend_email_verification email bucket
                   (mk_mail_args token expires outbox dedup version ciphertext aid rid now) d;
      Some (flag_rows (PgRow_new [(lit "queued", PgBool true)]) ok, d)
  | VERIFY_EMAIL_SQL,
      [PgBytes hash; PgI64 now; PgText session; PgI64 expires; PgText aid; PgText rid; PgJson (VArray admins)] =>
      session ← uuid_parse_str session; aid ← uuid_parse_str aid;
      '(ns, d) ← verify_email hash now session expires aid rid (omap as_str admins) d;
      Some (opt_rows session_columns ns, d)
  | LOAD_PASSWORD_LOGIN_SQL, [PgText email] =>
      Some (opt_rows (λ '(user, u, hash),
              PgRow_new [(lit "user_id", PgText (uuid_to_string user));
                         (lit "primary_email", PgText (u_primary_email u));
                         (lit "status", PgText (user_status_text (u_status u)));
                         (lit "security_revision", PgI64 (u_security_revision u));
                         (lit "password_hash", PgText hash)]) (load_password_login email d), d)
  | LOAD_PASSWORD_BY_USER_SQL, [PgText user] =>
      user ← uuid_parse_str user;
      Some (opt_rows (λ '(u, hash),
              PgRow_new [(lit "user_id", PgText (uuid_to_string user));
                         (lit "status", PgText (user_status_text (u_status u)));
                         (lit "password_hash", PgText hash)]) (load_password_by_user user d), d)
  | ISSUE_PASSWORD_SESSION_SQL,
      [PgText user; PgText email; PgText hash; PgText session; PgI64 expires; PgI64 now; PgText aid; PgText rid] =>
      user ← uuid_parse_str user; session ← uuid_parse_str session; aid ← uuid_parse_str aid;
      '(ns, d) ← issue_password_session user email hash session expires now aid rid d;
      Some (opt_rows session_columns ns, d)
  | CHANGE_PASSWORD_SQL,
      [PgText user; PgText session; PgText old; PgText new; PgI64 now; PgText aid; PgText rid] =>
      user ← uuid_parse_str user; session ← uuid_parse_str session; aid ← uuid_parse_str aid;
      '(ok, d) ← change_password user session old new now aid rid d;
      Some (flag_rows (kernel_outcome "changed") ok, d)
  | START_PASSWORD_RESET_SQL,
      [PgText email; PgBytes token; PgText redirect; PgI64 expires; PgText outbox; PgText dedup; PgText version;
       PgBytes ciphertext; PgText aid; PgText rid; PgI64 now] =>
      outbox ← uuid_parse_str outbox; aid ← uuid_parse_str aid;
      '(ok, d) ← start_password_reset email
                   (mk_mail_args token expires outbox dedup version ciphertext aid rid now) d;
      Some (flag_rows (PgRow_new [(lit "queued", PgBool true)]) ok, d)
  | COMPLETE_PASSWORD_RESET_SQL,
      [PgBytes hash; PgI64 now; PgText password; PgText session; PgI64 expires; PgText aid; PgText rid] =>
      session ← uuid_parse_str session; aid ← uuid_parse_str aid;
      '(ns, d) ← complete_password_reset hash now password session expires aid rid d;
      Some (opt_rows session_columns ns, d)
  | LIST_SESSIONS_SQL, [PgText user; PgI64 now] =>
      user ← uuid_parse_str user;
      Some (map listed_columns (list_sessions user now d), d)
  | REVOKE_SESSION_SQL, [PgText target; PgText actor; PgI64 now; PgText aid; PgText rid] =>
      target ← uuid_parse_str target; actor ← uuid_parse_str actor; aid ← uuid_parse_str aid;
      '(ok, d) ← revoke_session target actor now aid rid d;
      Some (flag_rows (kernel_outcome "revoked") ok, d)
  | CHECK_RATE_LIMIT_SQL, [PgText key; PgI64 maximum; PgI64 window; PgI64 now] =>
      '((allowed, retry), d) ← check_rate_limit key maximum window now d;
      Some ([PgRow_new [(lit "allowed", PgBool allowed); (lit "retry_after_ms", PgI64 retry)]], d)
  | _, _ => None
  end.
End wire.

(** ** The world *)

(** The clock, the random source and the transport of a service. *)
Class KernelWorld (W TE RE : Type) := {
  database : W → Db;
  clock_now : W → Z;
  random_bytes : nat → io W RE (list Z);
  pg_query : KernelSql → list PgValue → io W TE (list PgRow);
}.

Section calls.
Context {W TE RE : Type} `{KernelWorld W TE RE}.
(** [self.clock.now_unix_seconds()] *)
Definition io_now {E} : io W E Z := λ w, (Ok (clock_now w), w).
(** [uuid_v7(now_ms, &self.randomness)], with the error of the caller *)
Definition uuid_v7 {E} (unavailable : E) (now_ms : Z) : io W E Uuid :=
  do! random := io_call (λ _, unavailable) (random_bytes UUID_RANDOM_BYTES) in
  io_lift (Ok (uuid_v7_bytes now_ms random)).
End calls.

(** A family identifier that is drawn is new; the other statements draw none. *)
Definition draws_fresh `{UuidText} (sql : KernelSql) (ps : list PgValue) (d : Db) : Prop :=
  ∀ session hash text family rest, sql = ISSUE_TOKEN_PAIR_SQL →
    ps = session :: hash :: PgText text :: rest → uuid_parse_str text = Some family →
    fresh_family family d.

Class KernelWorldLaws `{UuidText} (W TE RE : Type) `{KernelWorld W TE RE} : Prop := {
  random_bytes_steps n w r w' : random_bytes n w = (r, w') → rtc kstep (database w) (database w');
  random_bytes_length n w bytes w' : random_bytes n w = (Ok bytes, w') → length bytes = n;
  pg_query_executes sql ps w r w' :
    pg_query sql ps w = (r, w') →
    ∃ d1, rtc kstep (database w) d1
    ∧ ((∃ out d2, kernel_exec sql ps d1 = Some (out, d2) ∧ draws_fresh sql ps d1
          ∧ rtc kstep d2 (database w') ∧ ∀ out', r = Ok out' → out' = out)
       ∨ (rtc kstep d1 (database w') ∧ ∀ out', r ≠ Ok out'));
}.

(** ** Runs of the services *)

(** An execution is a step of the kernel, or reads. *)
Lemma kernel_exec_steps `{UuidText} sql ps d out d' :
  kernel_exec sql ps d = Some (out, d') → draws_fresh sql ps d → rtc kstep d d'.
Proof.
  intros E Hf. unfold kernel_exec in E.
  repeat match type of E with
  | match ?x with _ => _ end = Some _ => destruct x; try discriminate E
  end;
  repeat match type of E with
  | (_ ≫= _) = Some _ => apply bind_Some in E as (? & ? & E)
  | (let '(_, _) := ?x in _) = Some _ => destruct x
  | (let _ := _ in _) = Some _ => cbv zeta in E
  end; try (injection E as <- <-); try reflexivity; apply rtc_once.
  all: try solve [econstructor; eassumption].
  eapply k_issue; [by eapply Hf|eassumption].
Qed.

Section runs.
Context {W TE RE : Type} `{KernelWorldLaws W TE RE}.
#[local] Set Default Proof Using "Type*".

Lemma pg_query_steps sql ps w r w' :
  pg_query sql ps w = (r, w') → rtc kstep (database w) (database w').
Proof.
  intros (d1 & Hd1 & [(out & d2 & Hex & Hf & Hd2 & _)|[Hd2 _]])%pg_query_executes.
  - etrans; [done|]. etrans; [by eapply kernel_exec_steps|done].
  - by etrans.
Qed.
Lemma pg_query_Ok sql ps w out w' :
  pg_query sql ps w = (Ok out, w') →
  ∃ d1 d2, rtc kstep (database w) d1 ∧ kernel_exec sql ps d1 = Some (out, d2)
    ∧ rtc kstep d2 (database w').
Proof.
  intros (d1 & Hd1 & [(out' & d2 & Hex & _ & Hd2 & Hr)|[_ Hr]])%pg_query_executes; [|by destruct (Hr out)].
  rewrite (Hr out) by done. eauto 10.
Qed.

(** A computation whose effects are steps of the kernel. *)
Definition ksafe {E A} (m : io W E A) : Prop :=
  ∀ w r w', m w = (r, w') → rtc kstep (database w) (database w').
Lemma ksafe_bind {E A B} (m : io W E A) (k : A → io W E B) :
  ksafe m → (∀ a, ksafe (k a)) → ksafe (io_bind m k).
Proof.
  intros Hm Hk w r w'. unfold io_bind. destruct (m w) as [[a|e] w1] eqn:Em.
  - intros Hr. etrans; [by eapply Hm|by eapply Hk].
  - intros [= <- <-]. by eapply Hm.
Qed.
Lemma ksafe_lift {E A} (r : result E A) : ksafe (io_lift r).
Proof. by intros w r' w' [= <- <-]. Qed.
Lemma ksafe_call {E F A} (f : F → E) (m : io W F A) : ksafe m → ksafe (io_call f m).
Proof.
  intros Hm w r w'. unfold io_call. destruct (m w) as [x w1] eqn:Em. intros [= <- <-]. by eapply Hm.
Qed.
Lemma ksafe_query sql ps : ksafe (pg_query sql ps).
Proof. intros w r w'. apply pg_query_steps. Qed.
Lemma ksafe_random n : ksafe (random_bytes n).
Proof. intros w r w'. apply random_bytes_steps. Qed.
Lemma ksafe_now {E} : ksafe (io_now (E := E)).
Proof. by intros w r w' [= <- <-]. Qed.
Lemma ksafe_uuid_v7 {E} (e : E) now_ms : ksafe (uuid_v7 e now_ms).
Proof. apply ksafe_bind; [apply ksafe_call, ksafe_random|intros; apply ksafe_lift]. Qed.
End runs.
#[export] Hint Resolve ksafe_lift ksafe_call ksafe_query ksafe_random ksafe_now ksafe_uuid_v7 : wauth.

(** Splits a successful run into its steps. *)
Ltac run_inv E :=
  repeat match type of E with
  | io_bind _ _ _ = (Ok _, _) => apply io_bind_Ok in E as (? & ? & ? & E)
  | io_call _ _ _ = (Ok _, _) => apply io_call_Ok in E
  | io_lift _ _ = (Ok _, _) => apply io_lift_Ok in E as [E ->]
  | (if _ then io_lift (Err _) else _) _ = (Ok _, _) => apply io_fail_Ok in E as [? E]
  end;
  repeat match goal with
  | E' : io_call _ _ _ = (Ok _, _) |- _ => apply io_call_Ok in E'
  | E' : io_lift _ _ = (Ok _, _) |- _ => apply io_lift_Ok in E' as [E' ->]
  | E' : ok_or _ _ = Ok _ |- _ => apply ok_or_Ok in E'
  | E' : map_err _ _ = Ok _ |- _ => apply map_err_Ok in E'
  end.

(** Decides the comparisons of text constants in a hypothesis. *)
Ltac lit_decide E :=
  cbv iota in E;
  repeat match type of E with
  | context [bool_decide (lit ?a = lit ?b)] =>
      let v := eval vm_compute in (bool_decide (lit a = lit b)) in
      change (bool_decide (lit a = lit b)) with v in E; cbv iota in E
  end.
