(* ===== verification/KernelExample.v ===== *)
(** * KernelExample: one machine, and runs of the kernel on it

    A concrete database with one member of one organization, executed alone:
    the laws of [KernelWorld] hold of it, and the theorems on refresh
    families, reuse, password changes and resets apply to its runs. *)

From S2P Require Import KernelWire.
Open Scope Z_scope.

(** A printed identifier: one letter for each byte. *)
Definition letter (b : Z) : Z := 0x4e00 + if 0 <=? b then 2 * b else -2 * b - 1.
Definition unletter (c : Z) : Z := let n := c - 0x4e00 in if Z.even n then n / 2 else - ((n + 1) / 2).
Definition print_letters (u : Uuid) : str := map letter u.
Definition parse_letters (s : str) : option Uuid := Some (map unletter s).
Lemma unletter_letter b : unletter (letter b) = b.
Proof.
  unfold unletter, letter. cbv zeta. rewrite Z.add_comm, Z.add_simpl_r. destruct (Z.leb_spec 0 b).
  - rewrite Z.even_mul. cbn. rewrite Z.mul_comm. apply Z.div_mul. lia.
  - rewrite Z.even_sub, Z.even_mul. cbn. rewrite Z.sub_simpl_r.
    replace (-2 * b) with (- b * 2) by lia. rewrite Z.div_mul; lia.
Qed.
Lemma parse_print_letters u : parse_letters (print_letters u) = Some u.
Proof.
  unfold parse_letters, print_letters. rewrite map_map. f_equal. rewrite <- (map_id u) at 2.
  apply map_ext. apply unletter_letter.
Qed.
#[export] Instance letters_uuid : UuidText :=
  {| uuid_to_string := print_letters; uuid_parse_str := parse_letters;
     uuid_parse_to_string := parse_print_letters |}.

(** ** The database *)

Definition alice : Uuid := [1].
Definition laptop : Uuid := [7].
Definition phone : Uuid := [8].
Definition acme : Uuid := [9].
Definition start : Db :=
  mk_db {[ alice := mk_user (lit "alice@example.com") (lit "Alice@example.com") UActive 1 0 ]}
    {[ alice := mk_password (lit "hash-1") None None ]}
    {[ laptop := mk_session alice (Some acme) DbAal1 1 1 9000000 None 0;
       phone := mk_session alice None DbAal1 1 1 9000000 None 1000 ]}
    ∅ ∅ ∅ ∅
    (mk_directory {[ acme := mk_org_row (lit "Acme") (Some (lit "acme")) true 0 0 ]} ∅
       {[ (acme, alice) := mk_member (lit "editor") MActive 0 ]}
       {[ (acme, lit "editor") := {[ lit "doc.read"; lit "doc.write" ]} ]} ∅ ∅
       {[ lit "key-1" := KeyActive ]} (Some (lit "policy-1")))
    [] (mk_outbox {[ uuid_to_string acme := 3 ]} []).

(** ** The machine *)

Record Machine := mk_machine { mc_db : Db; mc_clock : Z; mc_draws : Z }.

Definition family_unused (text : str) (d : Db) : bool :=
  match uuid_parse_str text with
  | Some family => forallb (λ hr, negb (bool_decide (rt_family hr.2 = family))) (map_to_list (refresh_tokens d))
  | None => true
  end.
(** The statement is refused when it would reuse a family. *)
Definition draws_unused (sql : KernelSql) (ps : list PgValue) (d : Db) : bool :=
  match sql, ps with
  | ISSUE_TOKEN_PAIR_SQL, _ :: _ :: PgText text :: _ => family_unused text d
  | _, _ => true
  end.
#[export] Instance machine : KernelWorld Machine unit unit := {|
  database := mc_db;
  clock_now := mc_clock;
  random_bytes := λ n m,
    (Ok (replicate n (mc_draws m)), mk_machine (mc_db m) (mc_clock m) (mc_draws m + 1));
  pg_query := λ sql ps m,
    if draws_unused sql ps (mc_db m) then
      match kernel_exec sql ps (mc_db m) with
      | Some (out, d) => (Ok out, mk_machine d (mc_clock m) (mc_draws m))
      | None => (Err tt, m)
      end
    else (Err tt, m);
|}.

Lemma draws_unused_fresh sql ps d : draws_unused sql ps d = true → draws_fresh sql ps d.
Proof.
  unfold draws_fresh. intros E session hash text family rest -> -> Hp h r Hr.
  cbn [draws_unused] in E. unfold family_unused in E. rewrite Hp in E.
  rewrite forallb_forall in E. specialize (E (h, r)). rewrite <- list_elem_of_In, elem_of_map_to_list in E.
  specialize (E Hr). by bprop.
Qed.

#[export] Instance machine_laws : KernelWorldLaws Machine unit unit.
Proof.
  split; cbn.
  - by intros n w r w' [= <- <-].
  - intros n w bytes w' [= <- <-]. apply length_replicate.
  - intros sql ps w r w' E. exists (mc_db w). split; [done|].
    destruct (draws_unused sql ps (mc_db w)) eqn:Ed; [|injection E as <- <-; by right].
    destruct (kernel_exec sql ps (mc_db w)) as [[out d]|] eqn:Ex; injection E as <- <-; [left|by right].
    exists out, d. split_and!; [done|by apply draws_unused_fresh|done|]. by intros out' [= <-].
Qed.

(** ** Runs of the kernel *)

(** A sign-in, a refresh at 20 s, the replay window is 30 s. *)
Definition signed_in : Db :=
  match issue_token_pair laptop [101] [50] 8000000 10000 [201] (lit "r1") start with
  | Some (_, d) => d | None => start
  end.
Definition rotation (current next : list Z) (now : Z) (audit_id : Z) : RotateArgs :=
  mk_rotate current None next (lit "v1") (next ++ [0]) (now + 30000) now 8000000 [audit_id] [audit_id + 1]
    (lit "r2") 9500000.
Definition refreshed : Db :=
  match rotate_refresh_token (rotation [101] [102] 20000 202) signed_in with
  | Some (_, d) => d | None => start
  end.
Definition stolen : Db :=
  match rotate_refresh_token (rotation [101] [103] 60000 204) refreshed with
  | Some (_, d) => d | None => start
  end.

Lemma signed_in_step : kstep start signed_in.
Proof.
  eapply (k_issue laptop [101] [50] 8000000 10000 [201] (lit "r1") true); [|vm_compute; reflexivity].
  intros h r Hr. change (refresh_tokens start) with (∅ : gmap (list Z) RefreshRow) in Hr.
  by rewrite lookup_empty in Hr.
Qed.
Lemma refreshed_run :
  rotate_refresh_token (rotation [101] [102] 20000 202) signed_in = Some (Rotated, refreshed).
Proof. vm_compute. reflexivity. Qed.
Lemma stolen_run :
  rotate_refresh_token (rotation [101] [103] 60000 204) refreshed = Some (ReuseDetected, stolen).
Proof. vm_compute. reflexivity. Qed.

Lemma refresh_family_linear_witness :
  kernel_reachable refreshed ∧ family_wf (refresh_tokens refreshed).
Proof.
  assert (kernel_reachable refreshed) as Hr.
  { exists start. split; [reflexivity|]. eapply rtc_l; [exact signed_in_step|].
    eapply rtc_once. eapply k_rotate. exact refreshed_run. }
  split; [exact Hr|]. apply (refresh_family_linear refreshed Hr).
Defined.

(** The token comes back at 40 s: the sealed response is replayed. *)
Lemma refresh_token_rotates_once_witness :
  rotate_refresh_token (rotation [101] [103] 40000 204) refreshed = Some (Replayed (lit "v1") [102; 0], refreshed)
  ∧ lit "v1" = ro_key_version (rotation [101] [102] 20000 202).
Proof.
  assert (rotate_refresh_token (rotation [101] [103] 40000 204) refreshed
          = Some (Replayed (lit "v1") [102; 0], refreshed)) as Hagain by (vm_compute; reflexivity).
  split; [exact Hagain|].
  destruct (refresh_token_rotates_once (rotation [101] [102] 20000 202) (rotation [101] [103] 40000 204)
    (Replayed (lit "v1") [102; 0]) signed_in refreshed refreshed refreshed
    refreshed_run (rtc_refl _ _) eq_refl Hagain) as (_ & Hrep & _).
  apply (Hrep _ _ eq_refl).
Defined.

(** It comes back at 60 s: reuse, and the laptop is signed out for good. *)
Lemma reuse_revokes_family_for_good_witness :
  load_request_context laptop 61000 [] refreshed ≠ None ∧ load_request_context laptop 61000 [] stolen = None.
Proof.
  split; [by vm_compute|].
  assert (∃ r, refresh_tokens refreshed !! [101] = Some r ∧ rt_session r = laptop) as (r0 & Hr0 & Hs)
    by (eexists; split; [vm_compute; reflexivity|reflexivity]).
  destruct (reuse_revokes_family_for_good (rotation [101] [103] 60000 204) refreshed stolen stolen r0
    Hr0 stolen_run (rtc_refl _ _)) as (Hdead & _ & _).
  rewrite <- Hs. apply Hdead.
Defined.

(** The password changes on the laptop: the phone is signed out. *)
Definition changed : Db :=
  match change_password alice laptop (lit "hash-1") (lit "hash-2") 70000 [210] (lit "r3") start with
  | Some (_, d) => d | None => start
  end.
Lemma changed_run :
  change_password alice laptop (lit "hash-1") (lit "hash-2") 70000 [210] (lit "r3") start = Some (true, changed).
Proof. vm_compute. reflexivity. Qed.
Lemma password_change_expels_others_witness :
  load_request_context phone 71000 [] start ≠ None
  ∧ load_request_context laptop 71000 [] changed ≠ None
  ∧ load_request_context phone 71000 [] changed = None.
Proof.
  split_and!; [by vm_compute|by vm_compute|].
  destruct (password_change_expels_others alice laptop (lit "hash-1") (lit "hash-2") 70000 [210] (lit "r3")
    start changed changed changed_run (rtc_refl _ _)) as (Hothers & _ & _).
  eapply (Hothers phone); [vm_compute; reflexivity|reflexivity|discriminate].
Defined.

(** A reset link is mailed and followed. *)
Definition reset_mailed : Db :=
  match start_password_reset (lit "alice@example.com")
          (mk_mail_args [104] 900000 [60] (lit "reset:1") (lit "v1") [5] [211] (lit "r4") 80000) start with
  | Some (_, d) => d | None => start
  end.
Definition reset_done : Db :=
  match complete_password_reset [104] 90000 (lit "hash-3") [10] 9900000 [212] (lit "r5") reset_mailed with
  | Some (_, d) => d | None => start
  end.
Lemma reset_run :
  complete_password_reset [104] 90000 (lit "hash-3") [10] 9900000 [212] (lit "r5") reset_mailed
  = Some (Some (mk_new_session [10] alice 9900000), reset_done).
Proof. vm_compute. reflexivity. Qed.
Lemma password_reset_single_use_witness :
  load_request_context [10] 91000 [] reset_done ≠ None
  ∧ load_request_context laptop 91000 [] reset_done = None
  ∧ complete_password_reset [104] 92000 (lit "hash-4") [11] 9900000 [213] (lit "r6") reset_done
    = Some (None, reset_done).
Proof.
  split; [by vm_compute|].
  destruct (password_reset_single_use [104] 90000 (lit "hash-3") [10] 9900000 [212] (lit "r5")
    (mk_new_session [10] alice 9900000) reset_mailed reset_done reset_done
    reset_run (rtc_refl _ _)) as (_ & Hothers & Hagain).
  split; [|apply Hagain]. eapply (Hothers laptop); [vm_compute; reflexivity|reflexivity].
Defined.
