(* ===== verification/Store.v ===== *)
(** * Store: the relational authentication store

    Models the code of src/crates/wasi-auth/src/postgres.rs around the
    statements: the validated registration command and its outcome, the load
    of a session with its authorization facts, and the decoding of their rows,
    which fails closed. *)

From S2P Require Export KernelWire.
Open Scope Z_scope.

#[local] Arguments lit : simpl never.

(** ** Errors *)

Inductive KernelValidationError := InvalidValue.
Inductive ContextLoadError :=
| LoadRow (e : RowDecodeError) | LoadContext (e : ContextError) | InvalidAssurance | InvalidTimestamp
| InvalidPermissions | InvalidEmail | InvalidRevision.
Inductive PostgresStoreError (E : Type) :=
| StoreTransport (e : E) | StoreValidation (e : KernelValidationError) | StoreRow (e : RowDecodeError)
| StoreContext | EmailAlreadyExists | IdempotencyConflict | Unauthenticated | UnexpectedOutcome.
Arguments StoreTransport {E} e.
Arguments StoreValidation {E} e.
Arguments StoreRow {E} e.
Arguments StoreContext {E}.
Arguments EmailAlreadyExists {E}.
Arguments IdempotencyConflict {E}.
Arguments Unauthenticated {E}.
Arguments UnexpectedOutcome {E}.

(** [From<ContextLoadError>] *)
Definition store_error_of_load {E} (e : ContextLoadError) : PostgresStoreError E :=
  match e with
  | LoadRow e => StoreRow e
  | LoadContext _ | InvalidAssurance | InvalidTimestamp | InvalidPermissions | InvalidEmail
  | InvalidRevision => StoreContext
  end.

(** ** Validation *)

Definition bounded_token (value : str) (maximum : Z) : bool :=
  negb (is_empty value) && (str_len value <=? maximum) && negb (existsb is_control value).
Definition valid_signing_key_id (value : str) : bool :=
  negb (is_empty value) && (str_len value <=? 128) && negb (existsb is_control value).
Definition valid_email_pair (normalized primary : str) : bool :=
  bool_decide (normalized = trim normalized) && bool_decide (normalized = to_ascii_lowercase normalized)
  && (str_len normalized <=? 320) && (str_len primary <=? 320)
  && match split_once 64 normalized with
     | Some (local, domain) => negb (is_empty local) && negb (is_empty domain) && contains_char 46 domain
     | None => false
     end.
Definition safe_redirect (value : str) : bool :=
  starts_with (lit "/") value && negb (starts_with (lit "//") value) && negb (existsb is_control value).

Record SealedPayload := mk_sealed { sp_key_version : str; sp_ciphertext : list Z }.
Definition SealedPayload_new (key_version : str) (ciphertext : list Z) :
    result KernelValidationError SealedPayload :=
  fail? is_empty key_version || (128 <? str_len key_version) || is_empty ciphertext with InvalidValue ;;
  Ok (mk_sealed key_version ciphertext).

Record CommandContext := mk_command_context {
  cc_idempotency_key : str;
  cc_actor_key : str;
  cc_request_hash : list Z;
  cc_request_id : str;
  cc_now_ms : Z;
  cc_idempotency_expires_at_ms : Z;
}.
Definition CommandContext_new (idempotency_key actor_key : str) (request_hash : list Z) (request_id : str)
    (now_ms idempotency_expires_at_ms : Z) : result KernelValidationError CommandContext :=
  fail? negb (bounded_token idempotency_key 256) || negb (bounded_token actor_key 256)
        || (idempotency_expires_at_ms <=? now_ms) with InvalidValue ;;
  Ok (mk_command_context idempotency_key actor_key request_hash request_id now_ms idempotency_expires_at_ms).

Record RegisterPasswordCommand := mk_register_command {
  rc_context : CommandContext;
  rc_user_id : Uuid;
  rc_normalized_email : str;
  rc_primary_email : str;
  rc_password_hash : str;
  rc_verification_token_hash : list Z;
  rc_redirect_uri : str;
  rc_verification_expires_at_ms : Z;
  rc_outbox_id : Uuid;
  rc_outbox_deduplication_key : str;
  rc_outbox_payload : SealedPayload;
  rc_audit_id : Uuid;
  rc_audit_metadata : Value;
}.
Definition validate_command (c : RegisterPasswordCommand) : result KernelValidationError unit :=
  fail? negb (valid_email_pair (rc_normalized_email c) (rc_primary_email c))
        || is_empty (rc_password_hash c) || (2048 <? str_len (rc_password_hash c))
        || negb (safe_redirect (rc_redirect_uri c))
        || (rc_verification_expires_at_ms c <=? cc_now_ms (rc_context c))
        || negb (bounded_token (rc_outbox_deduplication_key c) 256)
        || negb (is_object (rc_audit_metadata c)) with InvalidValue ;;
  Ok tt.
Definition command_parameters `{UuidText} (c : RegisterPasswordCommand) : list PgValue :=
  [PgText (cc_idempotency_key (rc_context c)); PgText (cc_actor_key (rc_context c));
   PgBytes (cc_request_hash (rc_context c)); PgText (uuid_to_string (rc_user_id c));
   PgText (rc_normalized_email c); PgText (rc_primary_email c); PgText (rc_password_hash c);
   PgBytes (rc_verification_token_hash c); PgText (rc_redirect_uri c);
   PgI64 (u64_to_i64 (rc_verification_expires_at_ms c)); PgText (uuid_to_string (rc_outbox_id c));
   PgText (rc_outbox_deduplication_key c); PgText (sp_key_version (rc_outbox_payload c));
   PgBytes (sp_ciphertext (rc_outbox_payload c)); PgText (uuid_to_string (rc_audit_id c));
   PgText (cc_request_id (rc_context c)); PgJson (rc_audit_metadata c);
   PgI64 (u64_to_i64 (cc_now_ms (rc_context c)));
   PgI64 (u64_to_i64 (cc_idempotency_expires_at_ms (rc_context c)))].

Record RegistrationReceipt := mk_receipt { receipt_user_id : str; receipt_replayed : bool }.
Inductive RegistrationOutcome :=
| OutcomeReceipt (receipt : RegistrationReceipt) | OutcomeEmailConflict | OutcomeIdempotencyConflict.

Definition receipt_from_row {E} (row : PgRow) (replayed : bool) :
    result (PostgresStoreError E) RegistrationReceipt :=
  let? user := map_err StoreRow (required_text row (lit "user_id")) in
  let? user := map_err (λ _, StoreContext) (identifier_new user) in
  Ok (mk_receipt user replayed).
Definition registration_outcome {E} (rows : list PgRow) : result (PostgresStoreError E) RegistrationOutcome :=
  let? row := ok_or (head rows) UnexpectedOutcome in
  let? outcome := map_err StoreRow (required_text row (lit "outcome")) in
  if bool_decide (outcome = lit "created") then rmap OutcomeReceipt (receipt_from_row row false)
  else if bool_decide (outcome = lit "replayed") then rmap OutcomeReceipt (receipt_from_row row true)
  else if bool_decide (outcome = lit "email_conflict") then Ok OutcomeEmailConflict
  else if bool_decide (outcome = lit "idempotency_conflict") then Ok OutcomeIdempotencyConflict
  else Err UnexpectedOutcome.

(** ** Sessions *)

Record AuthorizationFingerprint := mk_fingerprint {
  fp_user_id : str;
  fp_session_id : str;
  fp_organization_id : option str;
  fp_assurance : str;
  fp_expires_at_ms : Z;
  fp_session_revision : Z;
  fp_user_security_revision : Z;
  fp_organization_authorization_revision : option Z;
  fp_role_id : option str;
  fp_policy_revision : option str;
  fp_system_administrator : bool;
}.
#[export] Instance AuthorizationFingerprint_eq_dec : EqDecision AuthorizationFingerprint.
Proof. solve_decision. Defined.

Record VerifiedSession := mk_verified_session {
  vs_context : VerifiedRequestContext;
  vs_primary_email : str;
  vs_authorization_fingerprint : AuthorizationFingerprint;
}.

Definition load_text (row : PgRow) (column : string) : result ContextLoadError str :=
  map_err LoadRow (required_text row (lit column)).
Definition load_i64 (row : PgRow) (column : string) : result ContextLoadError Z :=
  map_err LoadRow (required_i64 row (lit column)).
Definition load_identifier (row : PgRow) (column : string) : result ContextLoadError str :=
  let? text := load_text row column in map_err LoadContext (identifier_new text).
(** [row.text(column)?.map(Id::new).transpose()?] *)
Definition load_optional (row : PgRow) (column : string) : result ContextLoadError (option str) :=
  let? text := map_err LoadRow (row_text row (lit column)) in
  map_err LoadContext (transpose_map identifier_new text).
Definition load_flag (row : PgRow) (column : string) : result ContextLoadError bool :=
  rmap (default false) (map_err LoadRow (row_bool row (lit column))).

Definition authorization_fingerprint (row : PgRow) : result ContextLoadError AuthorizationFingerprint :=
  let? user_id := load_identifier row "user_id" in
  let? session_id := load_identifier row "session_id" in
  let? organization_id := load_optional row "organization_id" in
  let? assurance := load_text row "assurance" in
  let? assurance :=
    if bool_decide (assurance = lit "aal1") then Ok (lit "aal1")
    else if bool_decide (assurance = lit "aal2") || bool_decide (assurance = lit "aal3") then Ok (lit "aal2")
    else Err InvalidAssurance in
  let? expires_at_ms := load_i64 row "expires_at_ms" in
  let? session_revision := load_i64 row "session_revision" in
  let? user_security_revision := load_i64 row "user_security_revision" in
  let? authorization_revision := map_err LoadRow (row_i64 row (lit "organization_authorization_revision")) in
  let? role_id := load_optional row "role_id" in
  let? policy_revision := load_optional row "policy_revision" in
  fail? (expires_at_ms <=? 0) || (session_revision <=? 0) || (user_security_revision <=? 0)
        || match authorization_revision with Some revision => revision <=? 0 | None => false end
        || negb (Bool.eqb (bool_decide (is_Some organization_id))
             (bool_decide (is_Some authorization_revision) && bool_decide (is_Some role_id)))
    with InvalidRevision ;;
  let? system_administrator := load_flag row "system_administrator" in
  Ok (mk_fingerprint user_id session_id organization_id assurance expires_at_ms session_revision
        user_security_revision authorization_revision role_id policy_revision system_administrator).

Definition verified_session (row : PgRow) (request_id : str) : result ContextLoadError VerifiedSession :=
  let? fingerprint := authorization_fingerprint row in
  let? user_id := load_identifier row "user_id" in
  let? primary_email := load_text row "primary_email" in
  fail? (320 <? str_len primary_email) || existsb is_control primary_email with InvalidEmail ;;
  let? organization_id := load_optional row "organization_id" in
  let? session_id := load_identifier row "session_id" in
  let? assurance := load_text row "assurance" in
  let? assurance :=
    if bool_decide (assurance = lit "aal1") then Ok Aal1
    else if bool_decide (assurance = lit "aal2") || bool_decide (assurance = lit "aal3") then Ok Aal2
    else Err InvalidAssurance in
  let? expires_at_ms := load_i64 row "expires_at_ms" in
  let? created_at_ms := load_i64 row "created_at_ms" in
  fail? (expires_at_ms <=? 0) || (created_at_ms <? 0) || (expires_at_ms <=? created_at_ms)
    with InvalidTimestamp ;;
  let? policy_revision := load_optional row "policy_revision" in
  let? role_id := load_optional row "role_id" in
  let? permissions := map_err LoadRow (row_json row (lit "permissions")) in
  let? permissions := collect_map (λ v, ok_or (as_str v) InvalidPermissions)
                        (default [] (permissions ≫= as_array)) in
  let? administrator := load_flag row "system_administrator" in
  let? principal := map_err LoadContext (Principal_new user_id (lit "wasi-auth") administrator) in
  let? auth := map_err LoadContext (from_validated (mk_auth_context principal organization_id session_id
     request_id assurance (created_at_ms / 1000) (expires_at_ms / 1000) None policy_revision)) in
  let? authorization := map_err LoadContext
     (AuthorizationSnapshot_new permissions (option_list role_id) policy_revision None) in
  Ok (mk_verified_session (mk_request_context auth authorization) primary_email fingerprint).

Section store.
Context {W TE RE : Type} `{UuidText} `{KernelWorld W TE RE}.

Definition store_registration_replay (idempotency_key actor_key : str) (request_hash : list Z) :
    io W (PostgresStoreError TE) (option RegistrationReceipt) :=
  do! rows := io_call StoreTransport (pg_query REGISTRATION_REPLAY_SQL
    [PgText idempotency_key; PgText actor_key; PgBytes request_hash]) in
  io_lift
    match rows with
    | [] => Ok None
    | row :: _ =>
        let? outcome := map_err StoreRow (required_text row (lit "outcome")) in
        if bool_decide (outcome = lit "replayed") then rmap Some (receipt_from_row row true)
        else if bool_decide (outcome = lit "idempotency_conflict") then Err IdempotencyConflict
        else Err UnexpectedOutcome
    end.

Definition store_register_password (command : RegisterPasswordCommand) :
    io W (PostgresStoreError TE) RegistrationReceipt :=
  do! _ := io_lift (map_err StoreValidation (validate_command command)) in
  do! rows := io_call StoreTransport (pg_query REGISTER_PASSWORD_SQL (command_parameters command)) in
  do! outcome := io_lift (registration_outcome rows) in
  match outcome with
  | OutcomeReceipt receipt => io_lift (Ok receipt)
  | OutcomeEmailConflict =>
      do! replay := store_registration_replay (cc_idempotency_key (rc_context command))
        (cc_actor_key (rc_context command)) (cc_request_hash (rc_context command)) in
      io_lift (ok_or replay EmailAlreadyExists)
  | OutcomeIdempotencyConflict => io_lift (Err IdempotencyConflict)
  end.

Definition load_verified_session_with_signing_key (session_id request_id : str) (now_unix_seconds : Z)
    (signing_key_id : str) : io W (PostgresStoreError TE) VerifiedSession :=
  let now_ms := u64_saturating_mul now_unix_seconds 1000 in
  do! rows := io_call StoreTransport (pg_query LOAD_REQUEST_CONTEXT_SQL
    [PgText session_id; PgI64 (u64_to_i64 now_ms); PgText signing_key_id]) in
  do! row := io_lift (ok_or (head rows) Unauthenticated) in
  io_lift (map_err store_error_of_load (verified_session row request_id)).
Definition load_verified_session (session_id request_id : str) (now_unix_seconds : Z) :
    io W (PostgresStoreError TE) VerifiedSession :=
  load_verified_session_with_signing_key session_id request_id now_unix_seconds [].
Definition store_load_request_context (session_id request_id : str) (now_unix_seconds : Z) :
    io W (PostgresStoreError TE) VerifiedRequestContext :=
  do! session := load_verified_session session_id request_id now_unix_seconds in
  io_lift (Ok (vs_context session)).
Definition load_verified_session_for_token (session_id request_id : str) (now_unix_seconds : Z)
    (signing_key_id : str) : io W (PostgresStoreError TE) VerifiedSession :=
  fail! negb (valid_signing_key_id signing_key_id) with Unauthenticated ;;
  load_verified_session_with_signing_key session_id request_id now_unix_seconds signing_key_id.
Definition load_authorization_fingerprint_for_token (session_id : str) (now_unix_seconds : Z)
    (signing_key_id : str) : io W (PostgresStoreError TE) AuthorizationFingerprint :=
  fail! negb (valid_signing_key_id signing_key_id) with Unauthenticated ;;
  do! rows := io_call StoreTransport (pg_query LOAD_REQUEST_FINGERPRINT_SQL
    [PgText session_id; PgI64 (u64_to_i64 (u64_saturating_mul now_unix_seconds 1000));
     PgText signing_key_id]) in
  do! row := io_lift (ok_or (head rows) Unauthenticated) in
  io_lift (map_err store_error_of_load (authorization_fingerprint row)).
End store.

(** ** Decoding is exact *)

Section decoding.
Context `{UuidText}.

Definition assurance_level (a : DbAssurance) : AuthenticationAssurance :=
  match a with DbAal1 => Aal1 | DbAal2 | DbAal3 => Aal2 end.
Definition assurance_label (a : AuthenticationAssurance) : str :=
  lit match a with Aal1 => "aal1" | Aal2 => "aal2" end.
(** The revision tuple of a row. *)
Definition fingerprint_of (c : ContextRow) : AuthorizationFingerprint :=
  mk_fingerprint (uuid_to_string (cr_user c)) (uuid_to_string (cr_session c))
    (uuid_to_string <$> cr_organization c) (assurance_label (assurance_level (cr_assurance c)))
    (cr_expires_at_ms c) (cr_session_revision c) (cr_user_security_revision c)
    (cr_authorization_revision c) (cr_role c) (cr_policy_revision c) (cr_system_administrator c).

Lemma pg_text_row row column v :
  bmap_get column row = Some (pg_text v) → row_text row column = Ok v.
Proof. unfold row_text. intros ->. by destruct v. Qed.
Lemma pg_i64_row row column v :
  bmap_get column row = Some (pg_i64 v) → row_i64 row column = Ok v.
Proof. unfold row_i64. intros ->. by destruct v. Qed.
Lemma load_text_row row column v :
  bmap_get (lit column) row = Some (PgText v) → load_text row column = Ok v.
Proof. unfold load_text, required_text, row_text. by intros ->. Qed.
Lemma load_i64_row row column v :
  bmap_get (lit column) row = Some (PgI64 v) → load_i64 row column = Ok v.
Proof. unfold load_i64, required_i64, row_i64. by intros ->. Qed.
Lemma load_identifier_row row column v x :
  bmap_get (lit column) row = Some (PgText v) → load_identifier row column = Ok x → x = v.
Proof.
  unfold load_identifier. intros Hv. rewrite (load_text_row _ _ _ Hv). cbn.
  rewrite map_err_Ok, identifier_new_Ok. by intros [-> _].
Qed.
Lemma load_optional_row row column v x :
  bmap_get (lit column) row = Some (pg_text v) → load_optional row column = Ok x → x = v.
Proof.
  unfold load_optional. intros Hv. rewrite (pg_text_row _ _ _ Hv). cbn. rewrite map_err_Ok.
  destruct v as [v|]; cbn; [|by intros [= <-]].
  rewrite rmap_Ok. intros (y & [-> _]%identifier_new_Ok & ->). done.
Qed.
Lemma load_flag_row row column v :
  bmap_get (lit column) row = Some (PgBool v) → load_flag row column = Ok v.
Proof. unfold load_flag, row_bool. by intros ->. Qed.

(** The row has the columns of the fingerprint. *)
Definition has_fingerprint (row : PgRow) (c : ContextRow) : Prop :=
  ∀ k v, (k, v) ∈ fingerprint_columns c → bmap_get k row = Some v.
Lemma context_columns_fingerprint c : has_fingerprint (context_columns c) c.
Proof.
  intros k v Hkv. unfold fingerprint_columns in Hkv.
  repeat (apply elem_of_cons in Hkv as [[= -> ->]|Hkv]; [reflexivity|]). by apply elem_of_nil in Hkv.
Qed.
Lemma fingerprint_columns_fingerprint c : has_fingerprint (PgRow_new (fingerprint_columns c)) c.
Proof.
  intros k v Hkv. unfold fingerprint_columns in Hkv.
  repeat (apply elem_of_cons in Hkv as [[= -> ->]|Hkv]; [reflexivity|]). by apply elem_of_nil in Hkv.
Qed.
End decoding.

(** Reads the columns of a row whose cells [cell] finds. *)
Ltac read_columns cell :=
  repeat (let C := fresh "C" in match goal with
  | E : load_identifier ?row ?col = Ok _ |- _ =>
      eassert (bmap_get (lit col) row = Some (PgText _)) as C by cell ();
      apply (load_identifier_row _ _ _ _ C) in E; clear C; subst
  | E : load_optional ?row ?col = Ok _ |- _ =>
      eassert (bmap_get (lit col) row = Some (pg_text _)) as C by cell ();
      apply (load_optional_row _ _ _ _ C) in E; clear C; subst
  | E : load_text ?row ?col = Ok _ |- _ =>
      eassert (bmap_get (lit col) row = Some (PgText _)) as C by cell ();
      rewrite (load_text_row _ _ _ C) in E; clear C; injection E as <-
  | E : load_i64 ?row ?col = Ok _ |- _ =>
      eassert (bmap_get (lit col) row = Some (PgI64 _)) as C by cell ();
      rewrite (load_i64_row _ _ _ C) in E; clear C; injection E as <-
  | E : load_flag ?row ?col = Ok _ |- _ =>
      eassert (bmap_get (lit col) row = Some (PgBool _)) as C by cell ();
      rewrite (load_flag_row _ _ _ C) in E; clear C; injection E as <-
  | E : map_err LoadRow (row_i64 ?row ?col) = Ok _ |- _ =>
      eassert (bmap_get col row = Some (pg_i64 _)) as C by cell ();
      rewrite (pg_i64_row _ _ _ C) in E; clear C; injection E as <-
  end).
(** A cell of the fingerprint. *)
Ltac fingerprint_cell _ :=
  match goal with Hc : has_fingerprint ?row ?c |- bmap_get _ ?row = _ =>
    apply Hc; unfold fingerprint_columns, pg_uuid;
    with_strategy opaque [lit] (repeat first [apply list_elem_of_here | apply list_elem_of_further])
  end.

Section exactness.
Context `{UuidText}.

Lemma fingerprint_assurance a x :
  (if bool_decide (assurance_text a = lit "aal1") then Ok (lit "aal1")
   else if bool_decide (assurance_text a = lit "aal2") || bool_decide (assurance_text a = lit "aal3")
   then Ok (lit "aal2") else Err InvalidAssurance) = Ok x →
  x = assurance_label (assurance_level a).
Proof. destruct a; vm_compute; congruence. Qed.
Lemma session_assurance a x :
  (if bool_decide (assurance_text a = lit "aal1") then Ok Aal1
   else if bool_decide (assurance_text a = lit "aal2") || bool_decide (assurance_text a = lit "aal3")
   then Ok Aal2 else Err InvalidAssurance) = Ok x →
  x = assurance_level a.
Proof. destruct a; vm_compute; congruence. Qed.

Lemma authorization_fingerprint_exact row c fp :
  has_fingerprint row c → authorization_fingerprint row = Ok fp →
  fp = fingerprint_of c
  ∧ (is_Some (cr_organization c) ↔ is_Some (cr_authorization_revision c) ∧ is_Some (cr_role c)).
Proof.
  intros Hc E. unfold authorization_fingerprint in E.
  repeat (apply rbind_Ok in E as (? & ? & E)). apply fail_Ok in E as [Eg E].
  repeat (apply rbind_Ok in E as (? & ? & E)). injection E as <-. read_columns fingerprint_cell.
  match goal with Ea : _ = Ok _ |- _ => apply fingerprint_assurance in Ea; subst end.
  split; [done|]. apply orb_false_iff in Eg as [_ Eg]. apply negb_false_iff, eqb_prop in Eg.
  destruct (cr_organization c), (cr_authorization_revision c), (cr_role c); cbn in Eg; by split; intros; destruct_and?.
Qed.

Lemma strings_collected l l' :
  collect_map (λ v, ok_or (as_str v) InvalidPermissions) (map VString l) = Ok l' → l' = l.
Proof.
  rewrite (collect_map_pure _ (λ v, default [] (as_str v))).
  - intros [= <-]. rewrite map_map. apply map_id.
  - intros v (x & -> & _)%list_elem_of_fmap. done.
Qed.

(** What a verified session says is what the row of the database says. *)
Lemma verified_session_exact c request_id vs :
  verified_session (context_columns c) request_id = Ok vs →
  let auth := rc_auth (vs_context vs) in
  let authorization := rc_authorization (vs_context vs) in
  vs_authorization_fingerprint vs = fingerprint_of c
  ∧ principal auth = mk_principal (uuid_to_string (cr_user c)) (lit "wasi-auth") (cr_system_administrator c)
  ∧ ctx_organization_id auth = uuid_to_string <$> cr_organization c
  ∧ ctx_session_id auth = uuid_to_string (cr_session c) ∧ ctx_request_id auth = request_id
  ∧ assurance auth = assurance_level (cr_assurance c)
  ∧ issued_at_unix_seconds auth = cr_created_at_ms c / 1000
  ∧ ctx_expires_at auth = cr_expires_at_ms c / 1000
  ∧ (∀ p, has_permission authorization p = true ↔ p ∈ cr_permissions c)
  ∧ snap_permissions authorization = bset_of_list (cr_permissions c)
  ∧ snap_role_ids authorization = option_list (cr_role c)
  ∧ snap_policy_revision authorization = cr_policy_revision c
  ∧ vs_primary_email vs = cr_primary_email c
  ∧ (is_Some (cr_organization c) ↔ is_Some (cr_authorization_revision c) ∧ is_Some (cr_role c)).
Proof.
  intros E auth authorization. pose proof (context_columns_fingerprint c) as Hc.
  unfold verified_session in E. apply rbind_Ok in E as (fp & Efp & E).
  apply (authorization_fingerprint_exact _ c) in Efp as [-> Horg]; [|done].
  repeat (apply rbind_Ok in E as (? & ? & E)). apply fail_Ok in E as [_ E].
  repeat (apply rbind_Ok in E as (? & ? & E)). apply fail_Ok in E as [_ E].
  repeat (apply rbind_Ok in E as (? & ? & E)). injection E as <-.
  subst auth authorization. cbn [rc_auth rc_authorization vs_context vs_authorization_fingerprint vs_primary_email].
  assert (map_err (A := option Value) LoadRow (row_json (context_columns c) (lit "permissions"))
          = Ok (Some (VArray (map VString (cr_permissions c))))) as Ep by reflexivity.
  match goal with Ej : map_err LoadRow (row_json _ _) = _ |- _ => rewrite Ep in Ej; injection Ej as <- end.
  cbn in H11. apply strings_collected in H11 as ->.
  read_columns ltac:(fun _ => first [solve [fingerprint_cell ()] | reflexivity]).
  apply session_assurance in H5 as ->.
  apply map_err_Ok in H13, H14, H15. apply AuthorizationSnapshot_new_Ok in H15 as Hs.
  apply AuthorizationSnapshot_new_inv in H15 as [-> _]. apply fail_Ok in H13 as [_ [= <-]].
  apply fail_Ok in H14 as [_ [= <-]]. destruct Hs as [Hperm _]. cbn. split_and!; try done.
  all: try done. by destruct (cr_role c).
Qed.
End exactness.
