(* ===== verification/Jwt.v ===== *)
(** * Jwt: workflow errors, claims and token checks

    Models src/crates/wasi-auth/src/authentication/error.rs and the checks of
    src/crates/wasi-auth/src/authentication/jwt.rs.  The [jsonwebtoken] crate
    (signing, signature verification and the standard claim checks) is the
    class [JwtLibrary]; [JwtLaws] states the part of its documentation that
    the theorems use, and the development instantiates it in the witnesses. *)

From S2P Require Export Context Collections.
Open Scope Z_scope.

#[local] Arguments lit : simpl never.

(** ** error.rs *)

Inductive WorkflowError :=
| Validation (message : str) | AlreadyRegistered | UserDisabled | UserNotRegistered | InvalidProvider
| InvalidToken | SessionExpired | SessionRevoked | PermissionDenied.
Inductive AuthErrorClass :=
| ClassInvalidArgument | ClassAlreadyExists | ClassNotFound | ClassUnauthenticated | ClassPermissionDenied.
#[export] Instance WorkflowError_eq_dec : EqDecision WorkflowError.
Proof. solve_decision. Defined.
#[export] Instance AuthErrorClass_eq_dec : EqDecision AuthErrorClass.
Proof. solve_decision. Defined.

Record AuthTransportMapping := mk_mapping {
  http_status : Z;
  grpc_code : str;
  server_fn_code : str;
}.

Definition workflow_public_code (e : WorkflowError) : str :=
  lit match e with
      | Validation _ => "validation"
      | AlreadyRegistered => "already_registered"
      | UserDisabled => "user_disabled"
      | UserNotRegistered => "user_not_registered"
      | InvalidProvider => "invalid_provider"
      | InvalidToken => "invalid_token"
      | SessionExpired => "session_expired"
      | SessionRevoked => "session_revoked"
      | PermissionDenied => "permission_denied"
      end.
Definition public_message (e : WorkflowError) : str :=
  match e with
  | Validation message => message
  | AlreadyRegistered => lit "user is already registered"
  | UserDisabled => lit "user is disabled"
  | UserNotRegistered => lit "user is not registered"
  | InvalidProvider => lit "auth provider is invalid"
  | InvalidToken => lit "token is invalid"
  | SessionExpired => lit "session is expired"
  | SessionRevoked => lit "session is revoked"
  | PermissionDenied => lit "permission denied"
  end.
Definition error_class (e : WorkflowError) : AuthErrorClass :=
  match e with
  | Validation _ | InvalidProvider => ClassInvalidArgument
  | AlreadyRegistered => ClassAlreadyExists
  | UserNotRegistered => ClassNotFound
  | InvalidToken | SessionExpired | SessionRevoked => ClassUnauthenticated
  | UserDisabled | PermissionDenied => ClassPermissionDenied
  end.
Definition class_transport_mapping (c : AuthErrorClass) : AuthTransportMapping :=
  match c with
  | ClassInvalidArgument => mk_mapping 400 (lit "InvalidArgument") (lit "validation")
  | ClassAlreadyExists => mk_mapping 409 (lit "AlreadyExists") (lit "conflict")
  | ClassNotFound => mk_mapping 404 (lit "NotFound") (lit "not_found")
  | ClassUnauthenticated => mk_mapping 401 (lit "Unauthenticated") (lit "auth_required")
  | ClassPermissionDenied => mk_mapping 403 (lit "PermissionDenied") (lit "forbidden")
  end.
Definition transport_mapping (e : WorkflowError) : AuthTransportMapping :=
  class_transport_mapping (error_class e).

(** ** Claims *)

Record AccessTokenClaims := mk_claims {
  cl_iss : str;
  cl_sub : str;
  cl_aud : list str;
  cl_exp : Z;
  cl_iat : Z;
  cl_jti : str;
  cl_tenant_id : option str;
  cl_session_id : option str;
  cl_roles : list str;
  cl_scope : list str;
  cl_auth_time : option Z;
  cl_extra : bmap str;
}.
Definition for_user (issuer subject : str) (audience : list str) (expires_at issued_at : Z) (token_id : str) :
    AccessTokenClaims :=
  mk_claims issuer subject audience expires_at issued_at token_id None None [] [] None [].

Record IdTokenClaims := mk_id_claims {
  idc_iss : str;
  idc_sub : str;
  idc_aud : list str;
  idc_exp : Z;
  idc_iat : option Z;
  idc_nonce : option str;
  idc_email : option str;
  idc_email_verified : option bool;
  idc_name : option str;
  idc_picture : option str;
}.
Inductive AudienceClaim := AudOne (value : str) | AudMany (values : list str).
Record RawIdTokenClaims := mk_raw_id_claims {
  raw_iss : str;
  raw_sub : str;
  raw_aud : AudienceClaim;
  raw_exp : Z;
  raw_iat : option Z;
  raw_nonce : option str;
  raw_email : option str;
  raw_email_verified : option bool;
  raw_name : option str;
  raw_picture : option str;
}.
Definition audience_list (a : AudienceClaim) : list str :=
  match a with AudOne value => [value] | AudMany values => values end.
Definition id_claims_of_raw (v : RawIdTokenClaims) : IdTokenClaims :=
  mk_id_claims (raw_iss v) (raw_sub v) (audience_list (raw_aud v)) (raw_exp v) (raw_iat v) (raw_nonce v)
    (raw_email v) (raw_email_verified v) (raw_name v) (raw_picture v).

Record JwksKey := mk_jwk {
  jwk_kid : str;
  jwk_kty : str;
  jwk_alg : str;
  jwk_use : str;
  jwk_public_parameters : bmap str;
}.
Definition default_jwks_key_use : str := lit "sig".

(** The derived [Deserialize] of [JwksKey]: defaults for the named members,
    every other member a string of the flattened map. *)
Definition jwk_member (m : bmap Value) (name : string) (absent : str) : option str :=
  match bmap_get (lit name) m with None => Some absent | Some v => as_str v end.
Definition jwk_named : list str := [lit "kid"; lit "kty"; lit "alg"; lit "use"].
Definition jwk_from_value (v : Value) : option JwksKey :=
  match v with
  | VObject m =>
      kid ← jwk_member m "kid" [];
      kty ← jwk_member m "kty" [];
      alg ← jwk_member m "alg" [];
      use ← jwk_member m "use" default_jwks_key_use;
      others ← mapM (λ kv, s ← as_str kv.2; Some (kv.1, s))
                 (List.filter (λ kv, negb (bool_decide (kv.1 ∈ jwk_named))) m);
      Some (mk_jwk kid kty alg use (bmap_of_list others))
  | _ => None
  end.

Definition jwks_key_by_id (keys : list JwksKey) (key_id : str) : result WorkflowError JwksKey :=
  ok_or (find (λ k, bool_decide (jwk_kid k = key_id)) keys) InvalidToken.

Definition reject_revoked_session (claims : AccessTokenClaims) (revoked : list str) :
    result WorkflowError unit :=
  match cl_session_id claims with
  | None => Ok tt
  | Some session_id =>
      if existsb (λ r, bool_decide (session_id = r)) revoked then Err SessionRevoked else Ok tt
  end.

(** ** jsonwebtoken *)

Inductive Algorithm :=
| HS256 | HS384 | HS512 | ES256 | ES384 | RS256 | RS384 | RS512 | PS256 | PS384 | PS512 | EdDSA.
#[export] Instance Algorithm_eq_dec : EqDecision Algorithm.
Proof. solve_decision. Defined.
Inductive JwtErrorKind := ExpiredSignature | InvalidAlgorithm | OtherJwtError.

(** [Validation]: the accepted algorithms, issuers and audiences; the other
    checks are the defaults of the crate. *)
Record JwtValidation := mk_validation {
  va_algorithms : list Algorithm;
  va_issuers : list str;
  va_audiences : list str;
}.

Class JwtLibrary := {
  EncodingKey : Type;
  DecodingKey : Type;
  (** Whether [install_default] leaves the process with the safe provider. *)
  provider_installed : bool;
  jwt_encode : Algorithm → option str → AccessTokenClaims → EncodingKey → option str;
  jwt_header_kid : str → option (option str);
  jwt_decode : str → DecodingKey → JwtValidation → result JwtErrorKind AccessTokenClaims;
  jwt_decode_id : str → DecodingKey → JwtValidation → result JwtErrorKind RawIdTokenClaims;
  encoding_from_secret : list Z → EncodingKey;
  decoding_from_secret : list Z → DecodingKey;
  encoding_from_ec_der : list Z → EncodingKey;
  decoding_from_ec_components : str → str → option DecodingKey;
  jwk_value_of_encoding : EncodingKey → option Value;
}.

(** What the theorems use of the crate: the header names the key it was
    given, a token decodes under the matching key to the claims it was made
    from while they are unexpired, and the issuer and the audience of decoded
    claims were asked for. *)
Class JwtLaws `{JwtLibrary} := {
  key_pair : EncodingKey → DecodingKey → Prop;
  unexpired : AccessTokenClaims → Prop;
  jwt_encode_kid alg kid claims ek token :
    jwt_encode alg kid claims ek = Some token → jwt_header_kid token = Some kid;
  jwt_decode_encode alg kid claims ek dk v token :
    jwt_encode alg kid claims ek = Some token → key_pair ek dk → unexpired claims →
    alg ∈ va_algorithms v → cl_iss claims ∈ va_issuers v →
    (∃ aud, aud ∈ cl_aud claims ∧ aud ∈ va_audiences v) → jwt_decode token dk v = Ok claims;
  jwt_decode_checks token dk v claims :
    jwt_decode token dk v = Ok claims →
    cl_iss claims ∈ va_issuers v ∧ (∃ aud, aud ∈ cl_aud claims ∧ aud ∈ va_audiences v);
}.

(** [safe_signer_factory]: RSA private-key signing is refused before the
    default provider is asked. *)
Definition safe_signer_factory {K S} (default_factory : Algorithm → K → result JwtErrorKind S)
    (algorithm : Algorithm) (key : K) : result JwtErrorKind S :=
  fail? bool_decide (algorithm ∈ [RS256; RS384; RS512; PS256; PS384; PS512]) with InvalidAlgorithm ;;
  default_factory algorithm key.
Definition reject_rsa_private_key_extraction (key : list Z) : result JwtErrorKind (list Z * list Z) :=
  Err InvalidAlgorithm.

Section checks.
Context `{JwtLibrary}.

Definition jwt_error_to_auth_error (e : JwtErrorKind) : WorkflowError :=
  match e with ExpiredSignature => SessionExpired | _ => InvalidToken end.

Definition jwt_key_id (token : str) : result WorkflowError str :=
  ok_or match jwt_header_kid token with
        | Some (Some kid) => if is_empty (trim kid) then None else Some kid
        | _ => None
        end InvalidToken.
Definition access_token_key_id (token : str) : result WorkflowError str := jwt_key_id token.

Definition encode_access_token (claims : AccessTokenClaims) (key : EncodingKey) (algorithm : Algorithm)
    (key_id : option str) : result WorkflowError str :=
  fail? negb provider_installed with InvalidToken ;;
  ok_or (jwt_encode algorithm key_id claims key) InvalidToken.

Definition jwt_validation (issuer audience : str) (algorithms : list Algorithm) : JwtValidation :=
  mk_validation algorithms [issuer] [audience].
Definition NO_ALGORITHM : WorkflowError := Validation (lit "at least one JWT algorithm is required").

Definition decode_access_token (token : str) (key : DecodingKey) (issuer audience : str)
    (algorithms : list Algorithm) : result WorkflowError AccessTokenClaims :=
  fail? negb provider_installed with InvalidToken ;;
  match algorithms with
  | [] => Err NO_ALGORITHM
  | _ => map_err jwt_error_to_auth_error (jwt_decode token key (jwt_validation issuer audience algorithms))
  end.

Definition decode_id_token (token : str) (key : DecodingKey) (issuer audience : str)
    (algorithms : list Algorithm) (expected_nonce : option str) : result WorkflowError IdTokenClaims :=
  fail? negb provider_installed with InvalidToken ;;
  match algorithms with
  | [] => Err NO_ALGORITHM
  | _ =>
      let? raw := map_err jwt_error_to_auth_error
                    (jwt_decode_id token key (jwt_validation issuer audience algorithms)) in
      let claims := id_claims_of_raw raw in
      fail? is_empty (trim (idc_sub claims)) with InvalidToken ;;
      fail? match expected_nonce with
            | Some expected => negb (bool_decide (default [] (idc_nonce claims) = expected))
            | None => false
            end with InvalidToken ;;
      Ok claims
  end.
End checks.

(** ** Lemmas *)

Lemma jwt_key_id_Ok `{JwtLibrary} token kid :
  jwt_key_id token = Ok kid ↔ jwt_header_kid token = Some (Some kid) ∧ trim kid ≠ [].
Proof.
  unfold jwt_key_id. destruct (jwt_header_kid token) as [[k|]|]; cbn; [|by split; [|intros [? _]]..].
  destruct (trim k) eqn:E; cbn; split.
  - done.
  - intros [[= <-] Hn]. congruence.
  - intros [= <-]. by rewrite E.
  - by intros [[= <-] _].
Qed.

(** A nonce that was asked for is the nonce of the token: with a non-empty
    nonce, a token without one is rejected. *)
Lemma decode_id_token_nonce `{JwtLibrary} token key issuer audience algorithms expected claims :
  decode_id_token token key issuer audience algorithms (Some expected) = Ok claims →
  expected ≠ [] → idc_nonce claims = Some expected.
Proof.
  unfold decode_id_token. rewrite fail_Ok. intros [_ E] Hne. destruct algorithms; [done|].
  apply rbind_Ok in E as (raw & _ & E). cbv zeta in E. rewrite !fail_Ok in E.
  destruct E as (_ & En & [= <-]). bprop. destruct (idc_nonce _); cbn in *; congruence.
Qed.
