(* ===== verification/Tokens.v ===== *)
(** * Tokens: access tokens and refresh families

    Models src/crates/wasi-auth/src/postgres/tokens.rs: the bounded lifetime
    policy, the sealing of replayable refresh responses, the key ring, and the
    services that issue, refresh and verify tokens against the store.  SHA-256,
    AES-GCM, Base64 and the JSON text codecs are parameters. *)

From S2P Require Export Store Jwt.
Open Scope Z_scope.

#[local] Arguments lit : simpl never.

Definition REFRESH_AAD : list Z := str_bytes (lit "wasi-auth:refresh-response:v1").
Definition TOKEN_BYTES : nat := 32.
Definition NONCE_BYTES : nat := 12.
Definition REPLAY_WINDOW_MS : Z := 30000.

(** The libraries the token service calls. *)
Class TokenCrypto := {
  sha256 : list Z → list Z;
  (** [Aes256Gcm] under a key, with nonce, associated data and message. *)
  aead_encrypt : list Z → list Z → list Z → list Z → option (list Z);
  aead_decrypt : list Z → list Z → list Z → list Z → option (list Z);
  base64_url_encode : list Z → str;
  base64_url_decode : str → option (list Z);
  base64_standard_decode : str → option (list Z);
  json_from_str : str → option Value;
}.

Inductive TokenConfigurationError := InvalidTokenConfiguration.

Definition valid_issuer_and_audience (issuer audience : str) : bool :=
  negb (is_empty issuer) && (str_len issuer <=? 2048) && negb (existsb is_control issuer)
  && negb (is_empty audience) && (str_len audience <=? 256) && negb (existsb is_control audience).
Definition valid_kid (value : str) : bool :=
  negb (is_empty value) && (str_len value <=? 128)
  && forallb (λ b, is_ascii_alphanumeric b || one_of [46; 95; 45] b) (str_bytes value).

Record TokenServiceConfig := mk_token_config {
  tc_issuer : str;
  tc_audience : str;
  tc_access_ttl_seconds : Z;
  tc_refresh_ttl_seconds : Z;
  tc_session_ttl_seconds : Z;
}.
Definition TokenServiceConfig_new (issuer audience : str) (access refresh session : Z) :
    result TokenConfigurationError TokenServiceConfig :=
  fail? negb (valid_issuer_and_audience issuer audience)
        || negb (in_range 60 3600 access)
        || negb (in_range 300 (90 * 24 * 60 * 60) refresh)
        || negb (in_range 300 (24 * 60 * 60) session) with InvalidTokenConfiguration ;;
  Ok (mk_token_config issuer audience access refresh session).

(** ** Sealing *)

Record RefreshSealingKey := mk_sealing_key { sk_version : str; sk_key : list Z }.
Definition RefreshSealingKey_new (version : str) (key : list Z) :
    result TokenConfigurationError RefreshSealingKey :=
  fail? is_empty version || (128 <? str_len version) || existsb is_control version
    with InvalidTokenConfiguration ;;
  Ok (mk_sealing_key version key).

Section sealing.
Context `{TokenCrypto}.

Definition seal (k : RefreshSealingKey) (nonce plaintext : list Z) : option (list Z) :=
  ciphertext ← aead_encrypt (sk_key k) nonce REFRESH_AAD plaintext;
  Some (nonce ++ ciphertext).
Definition open_sealed (k : RefreshSealingKey) (version : str) (sealed : list Z) : option (list Z) :=
  if negb (bool_decide (version = sk_version k)) || bool_decide (length sealed ≤ NONCE_BYTES)%nat then None
  else aead_decrypt (sk_key k) (take NONCE_BYTES sealed) REFRESH_AAD (drop NONCE_BYTES sealed).
End sealing.

(** ** Key ring *)

Inductive KeyStatus := Active | Next | Retired | Revoked.
#[export] Instance KeyStatus_eq_dec : EqDecision KeyStatus.
Proof. solve_decision. Defined.
Definition key_status_name (s : KeyStatus) : str :=
  lit match s with Active => "active" | Next => "next" | Retired => "retired" | Revoked => "revoked" end.
Definition parse_key_status (value : str) : result TokenConfigurationError KeyStatus :=
  if bool_decide (value = lit "active") then Ok Active
  else if bool_decide (value = lit "next") then Ok Next
  else if bool_decide (value = lit "retired") then Ok Retired
  else if bool_decide (value = lit "revoked") then Ok Revoked
  else Err InvalidTokenConfiguration.
Definition algorithm_name (a : Algorithm) : str :=
  lit match a with ES256 => "ES256" | HS256 => "HS256" | _ => "unsupported" end.

Record JwtKeyDescriptor := mk_descriptor {
  de_kid : str;
  de_algorithm : str;
  de_status : str;
  de_public_jwk : Value;
  de_has_private_material : bool;
}.

Section ring.
Context `{JwtLibrary} `{TokenCrypto}.

Record JwtKey := mk_jwt_key {
  key_kid : str;
  key_status : KeyStatus;
  key_algorithm : Algorithm;
  key_encoding : option EncodingKey;
  key_decoding : DecodingKey;
  key_public_jwk : option JwksKey;
}.
Record JwtKeyRing := mk_ring { ring_keys : list JwtKey; ring_active_index : nat }.

(** [Option::is_some] *)
Definition has_encoding (e : option EncodingKey) : bool := match e with Some _ => true | None => false end.

Definition development_hs256 (kid : str) (secret : list Z) : result TokenConfigurationError JwtKeyRing :=
  fail? negb (valid_kid kid) || bool_decide (length secret < 32)%nat with InvalidTokenConfiguration ;;
  Ok (mk_ring [mk_jwt_key kid Active HS256 (Some (encoding_from_secret secret)) (decoding_from_secret secret) None] 0).

Definition required_json_text (value : Value) (name : string) : result TokenConfigurationError str :=
  ok_or
    (s ← value_get (lit name) value ≫= as_str;
     let s := trim s in
     if negb (is_empty s) && negb (existsb is_control s) then Some s else None)
    InvalidTokenConfiguration.
(** [split_whitespace().collect::<String>()] drops every blank. *)
Definition decode_base64 (value : str) : result TokenConfigurationError (list Z) :=
  let compact := List.filter (λ c, negb (is_whitespace c)) value in
  ok_or match base64_standard_decode compact with
        | Some bytes => Some bytes
        | None => base64_url_decode compact
        end InvalidTokenConfiguration.
Definition parse_jwk (text : str) : result TokenConfigurationError JwksKey :=
  let? value := ok_or (json_from_str text) InvalidTokenConfiguration in
  match value_get (lit "keys") value ≫= as_array with
  | Some [key] => ok_or (jwk_from_value key) InvalidTokenConfiguration
  | Some _ => Err InvalidTokenConfiguration
  | None => ok_or (jwk_from_value value) InvalidTokenConfiguration
  end.
Definition decoding_key (key : JwksKey) : result TokenConfigurationError DecodingKey :=
  fail? negb (bool_decide (jwk_kty key = lit "EC"))
        || (negb (is_empty (jwk_alg key)) && negb (bool_decide (jwk_alg key = lit "ES256")))
    with InvalidTokenConfiguration ;;
  let? x := ok_or (bmap_get (lit "x") (jwk_public_parameters key)) InvalidTokenConfiguration in
  let? y := ok_or (bmap_get (lit "y") (jwk_public_parameters key)) InvalidTokenConfiguration in
  ok_or (decoding_from_ec_components x y) InvalidTokenConfiguration.

(** [get("public_jwks_json").or_else(|| get("public_jwk_json"))] *)
Definition configured_jwk (value : Value) : option str :=
  (match value_get (lit "public_jwks_json") value with
   | Some v => Some v
   | None => value_get (lit "public_jwk_json") value
   end) ≫= as_str.
Definition derived_jwk (encoding : option EncodingKey) : result TokenConfigurationError JwksKey :=
  let? encoding := ok_or encoding InvalidTokenConfiguration in
  let? value := ok_or (jwk_value_of_encoding encoding) InvalidTokenConfiguration in
  ok_or (jwk_from_value value) InvalidTokenConfiguration.

Definition parse_key (value : Value) (kid : str) (status : KeyStatus) (algorithm : Algorithm) :
    result TokenConfigurationError JwtKey :=
  match algorithm with
  | HS256 =>
      let? secret := required_json_text value "secret" in
      let secret := str_bytes secret in
      fail? bool_decide (length secret < 32)%nat with InvalidTokenConfiguration ;;
      Ok (mk_jwt_key kid status algorithm (Some (encoding_from_secret secret)) (decoding_from_secret secret) None)
  | ES256 =>
      let? private_der := transpose_map decode_base64
                            (value_get (lit "private_key_der_base64") value ≫= as_str) in
      let encoding := encoding_from_ec_der <$> private_der in
      let? public_jwk := transpose_map parse_jwk (configured_jwk value) in
      let? public_jwk := match public_jwk with Some jwk => Ok jwk | None => derived_jwk encoding end in
      let public_jwk := mk_jwk kid (jwk_kty public_jwk) (lit "ES256") (lit "sig") (jwk_public_parameters public_jwk) in
      let? decoding := decoding_key public_jwk in
      fail? bool_decide (status = Active) && negb (has_encoding encoding) with InvalidTokenConfiguration ;;
      Ok (mk_jwt_key kid status algorithm encoding decoding (Some public_jwk))
  | _ => Err InvalidTokenConfiguration
  end.

(** [json!({"kid": .., "kty": "oct", "alg": "HS256", "use": "sig"})] and the
    derived [Serialize] of [JwksKey]. *)
Definition symmetric_marker (kid : str) : Value :=
  VObject (bmap_of_list [(lit "kid", VString kid); (lit "kty", VString (lit "oct"));
                         (lit "alg", VString (lit "HS256")); (lit "use", VString (lit "sig"))]).
Definition jwk_to_value (k : JwksKey) : Value :=
  VObject (bmap_of_list
    ([(lit "kid", VString (jwk_kid k)); (lit "kty", VString (jwk_kty k)); (lit "alg", VString (jwk_alg k));
      (lit "use", VString (jwk_use k))]
     ++ map (λ kv, (kv.1, VString kv.2)) (jwk_public_parameters k))).

(** The body of the loop over the configured entries. *)
Definition parse_entry (production : bool) (keys : list JwtKey) (entry : Value) :
    result TokenConfigurationError (list JwtKey) :=
  let? kid := required_json_text entry "kid" in
  fail? negb (valid_kid kid) || existsb (λ k, bool_decide (key_kid k = kid)) keys
    with InvalidTokenConfiguration ;;
  let? status := parse_key_status (default (lit "next") (value_get (lit "status") entry ≫= as_str)) in
  let alg := default (lit "ES256") (value_get (lit "alg") entry ≫= as_str) in
  let? algorithm :=
    if bool_decide (alg = lit "ES256") then Ok ES256
    else if bool_decide (alg = lit "HS256") && negb production then Ok HS256
    else Err InvalidTokenConfiguration in
  let? key := parse_key entry kid status algorithm in
  Ok (keys ++ [key]).

(** The positions of the keys that can sign. *)
Definition signs (k : JwtKey) : bool := bool_decide (key_status k = Active) && has_encoding (key_encoding k).
Definition active_positions (keys : list JwtKey) : list nat :=
  map fst (List.filter (λ ik, signs ik.2) (imap pair keys)).
Definition select_active (keys : list JwtKey) : option nat :=
  match active_positions keys with [i] => Some i | _ => None end.

Definition JwtKeyRing_from_json (text : str) (production : bool) : result TokenConfigurationError JwtKeyRing :=
  let? parsed := ok_or (json_from_str text) InvalidTokenConfiguration in
  let? entries := ok_or match as_array parsed with
                        | Some entries => Some entries
                        | None => value_get (lit "keys") parsed ≫= as_array
                        end InvalidTokenConfiguration in
  fail? bool_decide (entries = []) || bool_decide (32 < length entries)%nat with InvalidTokenConfiguration ;;
  let? keys := try_fold (parse_entry production) [] entries in
  fail? production && existsb (λ k, negb (bool_decide (key_status k = Revoked))
                                    && negb (bool_decide (key_algorithm k = ES256))) keys
    with InvalidTokenConfiguration ;;
  let? active := ok_or (select_active keys) InvalidTokenConfiguration in
  Ok (mk_ring keys active).

Definition jwk_le (a b : JwksKey) : Prop := str_le (jwk_kid a) (jwk_kid b).
#[export] Instance jwk_le_dec : RelDecision jwk_le.
Proof. intros a b. unfold jwk_le. apply _. Defined.
Definition descriptor_le (a b : JwtKeyDescriptor) : Prop := str_le (de_kid a) (de_kid b).
#[export] Instance descriptor_le_dec : RelDecision descriptor_le.
Proof. intros a b. unfold descriptor_le. apply _. Defined.

Definition jwks (ring : JwtKeyRing) : list JwksKey :=
  merge_sort jwk_le
    (omap key_public_jwk (List.filter (λ k, negb (bool_decide (key_status k = Revoked))) (ring_keys ring))).
Definition descriptor (k : JwtKey) : JwtKeyDescriptor :=
  mk_descriptor (key_kid k) (algorithm_name (key_algorithm k)) (key_status_name (key_status k))
    match key_public_jwk k with Some jwk => jwk_to_value jwk | None => symmetric_marker (key_kid k) end
    (has_encoding (key_encoding k)).
Definition descriptors (ring : JwtKeyRing) : list JwtKeyDescriptor :=
  merge_sort descriptor_le (map descriptor (ring_keys ring)).

(** [iter_mut().find(..)]: the first key with the identifier *)
Fixpoint set_status (kid : str) (status : KeyStatus) (keys : list JwtKey) : list JwtKey :=
  match keys with
  | [] => []
  | k :: keys =>
      if bool_decide (key_kid k = kid)
      then mk_jwt_key (key_kid k) status (key_algorithm k) (key_encoding k) (key_decoding k) (key_public_jwk k) :: keys
      else k :: set_status kid status keys
  end.
(** The loop of [apply_statuses]; a failure keeps the statuses set before it. *)
Fixpoint apply_status_list (statuses : list (str * str)) (keys : list JwtKey) :
    result TokenConfigurationError unit * list JwtKey :=
  match statuses with
  | [] => (Ok tt, keys)
  | (kid, status) :: statuses =>
      if existsb (λ k, bool_decide (key_kid k = kid)) keys then
        match parse_key_status status with
        | Ok status => apply_status_list statuses (set_status kid status keys)
        | Err e => (Err e, keys)
        end
      else apply_status_list statuses keys
  end.
Definition apply_statuses (statuses : list (str * str)) (ring : JwtKeyRing) :
    result TokenConfigurationError unit * JwtKeyRing :=
  match apply_status_list statuses (ring_keys ring) with
  | (Err e, keys) => (Err e, mk_ring keys (ring_active_index ring))
  | (Ok _, keys) =>
      match select_active keys with
      | Some i => (Ok tt, mk_ring keys i)
      | None => (Err InvalidTokenConfiguration, mk_ring keys (ring_active_index ring))
      end
  end.

(** [&self.keys[self.active_index]]; an index out of range would panic. *)
Definition active (ring : JwtKeyRing) : option JwtKey := ring_keys ring !! ring_active_index ring.
Definition verification (ring : JwtKeyRing) (kid : str) : option JwtKey :=
  find (λ k, bool_decide (key_kid k = kid) && negb (bool_decide (key_status k = Revoked))) (ring_keys ring).
End ring.

(** ** The key ring has exactly one signer *)

Section ring_lemmas.
Context `{JwtLibrary} `{TokenCrypto}.

Lemma elem_of_active_positions keys i :
  i ∈ active_positions keys ↔ ∃ k, keys !! i = Some k ∧ signs k = true.
Proof.
  unfold active_positions. rewrite list_elem_of_fmap. split.
  - intros ([j k] & -> & [Hin ?]%elem_of_filterb).
    apply elem_of_lookup_imap in Hin as (j' & k' & [= -> ->] & ?). eauto.
  - intros (k & Hk & ?). exists (i, k). split; [done|]. apply elem_of_filterb. split; [|done].
    apply elem_of_lookup_imap. eauto.
Qed.
Lemma select_active_Some keys i :
  select_active keys = Some i →
  (∃ k, keys !! i = Some k ∧ signs k = true)
  ∧ ∀ j k, keys !! j = Some k → signs k = true → j = i.
Proof.
  unfold select_active. destruct (active_positions keys) as [|i' [|? ?]] eqn:E; try done.
  intros [= ->]. split.
  - apply elem_of_active_positions. rewrite E. by apply list_elem_of_singleton.
  - intros j k Hj Hk. apply list_elem_of_singleton. rewrite <- E. apply elem_of_active_positions. eauto.
Qed.

Record ring_wf (ring : JwtKeyRing) : Prop := {
  rw_kids : NoDup (map key_kid (ring_keys ring));
  rw_signer : ∃ k, active ring = Some k ∧ signs k = true;
  rw_only : ∀ j k, ring_keys ring !! j = Some k → signs k = true → j = ring_active_index ring;
}.

(** A symmetric key publishes nothing; an ES256 key publishes itself under
    its own identifier. *)
Definition key_publishes (k : JwtKey) : Prop :=
  match key_public_jwk k with
  | Some jwk => key_algorithm k = ES256 ∧ jwk_kid jwk = key_kid k ∧ jwk_alg jwk = lit "ES256" ∧ jwk_use jwk = lit "sig"
  | None => key_algorithm k = HS256
  end.

Lemma parse_key_Ok value kid status algorithm k :
  parse_key value kid status algorithm = Ok k →
  key_kid k = kid ∧ key_status k = status ∧ key_algorithm k = algorithm ∧ key_publishes k.
Proof.
  unfold parse_key. destruct algorithm; try done.
  - rewrite rbind_Ok. intros (s & _ & E). cbv zeta in E. by apply fail_Ok in E as [_ [= <-]].
  - rewrite rbind_Ok. intros (der & _ & E). cbv zeta in E.
    repeat (apply rbind_Ok in E as (? & ? & E)). by apply fail_Ok in E as [_ [= <-]].
Qed.
Lemma parse_entry_Ok production keys entry keys' :
  parse_entry production keys entry = Ok keys' →
  ∃ k, keys' = keys ++ [k] ∧ (key_kid k ∉ map key_kid keys) ∧ key_publishes k.
Proof.
  unfold parse_entry. rewrite rbind_Ok. intros (kid & _ & E). apply fail_Ok in E as [Eg E].
  apply rbind_Ok in E as (st & _ & E). cbv zeta in E. apply rbind_Ok in E as (alg & _ & E).
  apply rbind_Ok in E as (k & (<- & _ & _ & ?)%parse_key_Ok & [= <-]).
  exists k. split_and!; [done| |done]. apply orb_false_iff in Eg as [_ Eg].
  rewrite existsb_false_spec in Eg. intros (k' & Heq & Hk')%list_elem_of_fmap.
  specialize (Eg k' Hk'). by rewrite bool_decide_true in Eg.
Qed.
Lemma parse_entries_Ok production entries keys keys' :
  try_fold (parse_entry production) keys entries = Ok keys' →
  NoDup (map key_kid keys) → Forall key_publishes keys →
  NoDup (map key_kid keys') ∧ Forall key_publishes keys'.
Proof.
  revert keys. induction entries as [|e entries IH]; cbn; intros keys E Hn Hp; [by simplify_eq|].
  apply rbind_Ok in E as (keys1 & (k & -> & Hk & Hkp)%parse_entry_Ok & E). apply (IH _ E).
  - rewrite map_app. cbn. apply NoDup_app. split_and!; [done| |apply NoDup_singleton].
    intros x Hx ->%list_elem_of_singleton. done.
  - apply Forall_app. split; [done|]. by apply Forall_singleton.
Qed.

Lemma from_json_ring text production ring :
  JwtKeyRing_from_json text production = Ok ring →
  ring_wf ring ∧ Forall key_publishes (ring_keys ring)
  ∧ (production = true → ∀ k, k ∈ ring_keys ring → key_status k ≠ Revoked → key_algorithm k = ES256).
Proof.
  unfold JwtKeyRing_from_json. rewrite rbind_Ok. intros (v & _ & E). apply rbind_Ok in E as (entries & _ & E).
  apply fail_Ok in E as [_ E]. apply rbind_Ok in E as (keys & Ekeys & E). apply fail_Ok in E as [Eprod E].
  apply rbind_Ok in E as (i & Ei & [= <-]). unfold ok_or in Ei.
  destruct (select_active keys) eqn:Es; [|done]. injection Ei as ->.
  apply select_active_Some in Es as [Ha Hu].
  apply parse_entries_Ok in Ekeys as [Hn Hp]; [|constructor|constructor]. split_and!; [by split|done|].
  intros -> k Hk Hr. cbn in *. rewrite existsb_false_spec in Eprod. specialize (Eprod k Hk).
  rewrite (bool_decide_false (key_status k = Revoked)) in Eprod by done.
  by apply negb_false_iff, bool_decide_eq_true in Eprod.
Qed.

Lemma set_status_inv kid st keys :
  map key_kid (set_status kid st keys) = map key_kid keys
  ∧ map key_public_jwk (set_status kid st keys) = map key_public_jwk keys
  ∧ map key_algorithm (set_status kid st keys) = map key_algorithm keys.
Proof.
  induction keys as [|k keys IH]; cbn; [done|]. destruct IH as (?&?&?).
  case_bool_decide; cbn; split_and!; congruence.
Qed.
Lemma apply_status_list_inv statuses keys r keys' :
  apply_status_list statuses keys = (r, keys') →
  map key_kid keys' = map key_kid keys ∧ map key_public_jwk keys' = map key_public_jwk keys
  ∧ map key_algorithm keys' = map key_algorithm keys.
Proof.
  revert keys. induction statuses as [|[kid st] statuses IH]; cbn; intros keys E; [by simplify_eq|].
  destruct existsb; [|by apply IH]. destruct (parse_key_status st) as [st'|]; [|by simplify_eq].
  destruct (IH _ E) as (?&?&?), (set_status_inv kid st' keys) as (?&?&?). split_and!; congruence.
Qed.

(** A key ring has exactly one signer.  A ring that was read from its
    configuration has distinct key identifiers, its active key is active and
    holds private material, no other key is both, keys that are not revoked
    are ES256 in production, and only ES256 keys publish a JWK, each under its
    own identifier.  Applying the statuses of the database keeps all of the
    keys and, when it succeeds, re-establishes the one signer. *)
Theorem key_ring_one_signer (text : str) (production : bool) (ring : JwtKeyRing)
    (statuses : list (str * str)) (r : result TokenConfigurationError unit) (ring' : JwtKeyRing)
    (Hring : JwtKeyRing_from_json text production = Ok ring)
    (Happly : apply_statuses statuses ring = (r, ring')) :
  ring_wf ring ∧ Forall key_publishes (ring_keys ring)
  ∧ (production = true → ∀ k, k ∈ ring_keys ring → key_status k ≠ Revoked → key_algorithm k = ES256)
  ∧ map key_kid (ring_keys ring') = map key_kid (ring_keys ring)
  ∧ (r = Ok tt → ring_wf ring').
Proof.
  apply from_json_ring in Hring as (Hwf & Hp & Hprod). split_and!; [done..| |]; unfold apply_statuses in Happly;
    destruct (apply_status_list _ _) as [[[]|e] keys] eqn:E; apply apply_status_list_inv in E as (Hk & _);
    try (destruct (select_active keys) eqn:Es); simplify_eq; try done.
  intros _. apply select_active_Some in Es as [Ha Hu]. split; cbn; [|done|done].
  rewrite Hk. by destruct Hwf.
Qed.

Lemma verification_Some ring kid k :
  verification ring kid = Some k →
  k ∈ ring_keys ring ∧ key_kid k = kid ∧ key_status k ≠ Revoked.
Proof.
  unfold verification. intros [Hin Hp]%find_some. bprop. destruct Hp. rewrite <- list_elem_of_In in Hin. done.
Qed.
Lemma verification_active ring k :
  ring_wf ring → active ring = Some k → verification ring (key_kid k) = Some k.
Proof.
  intros [Hn [k' [Ha Hs]] _] Hk. assert (k' = k) as -> by congruence. unfold active in Hk.
  assert (key_status k ≠ Revoked) as Hr. { unfold signs in Hs. bprop. destruct Hs as [-> _]. done. }
  unfold verification. clear Ha. revert Hk. generalize (ring_active_index ring).
  induction (ring_keys ring) as [|k1 keys IH]; intros i Hk; [done|].
  cbn in *. apply NoDup_cons in Hn as [Hk1 Hn]. destruct i as [|i]; cbn in Hk.
  - injection Hk as ->. by rewrite bool_decide_true, bool_decide_false by done.
  - rewrite (bool_decide_false (key_kid k1 = key_kid k)); [by apply (IH Hn i)|].
    intros Heq. apply Hk1. rewrite Heq. apply list_elem_of_fmap. exists k. split; [done|].
    by eapply list_elem_of_lookup_2.
Qed.

(** What is published: the unrevoked ES256 keys, and nothing of the others. *)
Lemma elem_of_jwks ring jwk :
  jwk ∈ jwks ring ↔ ∃ k, k ∈ ring_keys ring ∧ key_status k ≠ Revoked ∧ key_public_jwk k = Some jwk.
Proof.
  unfold jwks. rewrite (merge_sort_Permutation _ _), list_elem_of_omap. split.
  - intros (k & [Hin Hr]%elem_of_filterb & ?). bprop. eauto.
  - intros (k & ? & ? & ?). exists k. split; [|done]. apply elem_of_filterb. by bprop.
Qed.
End ring_lemmas.
