(* ===== verification/TokenService.v ===== *)
(** * TokenService: issuing, refreshing and verifying tokens

    The services of src/crates/wasi-auth/src/postgres/tokens.rs over the
    store, run in a [KernelWorld]: [issue], [refresh] with its replay window,
    and [verify] with its two caches. *)

From S2P Require Export Tokens.
Open Scope Z_scope.

#[local] Arguments lit : simpl never.

Inductive TokenServiceError (E : Type) :=
| TsInvalidSession | TsInvalidToken | TsExpiredToken | TsReuseDetected | TsRandomnessUnavailable
| TsCrypto | TsTransport (e : E) | TsRow (e : RowDecodeError).
Arguments TsInvalidSession {E}.
Arguments TsInvalidToken {E}.
Arguments TsExpiredToken {E}.
Arguments TsReuseDetected {E}.
Arguments TsRandomnessUnavailable {E}.
Arguments TsCrypto {E}.
Arguments TsTransport {E} e.
Arguments TsRow {E} e.

Definition map_access_token_decode_error {E} (e : WorkflowError) : TokenServiceError E :=
  match e with SessionExpired => TsExpiredToken | _ => TsInvalidToken end.
Definition map_verification_store_error {E} (e : PostgresStoreError E) : TokenServiceError E :=
  match e with
  | StoreTransport e => TsTransport e
  | StoreRow e => TsRow e
  | StoreValidation _ | StoreContext | EmailAlreadyExists | IdempotencyConflict | Unauthenticated
  | UnexpectedOutcome => TsInvalidToken
  end.

(** [TokenPair]; [RefreshResponse] has the same fields. *)
Record TokenPair := mk_pair {
  tp_access_token : str;
  tp_refresh_token : str;
  tp_expires_in_seconds : Z;
}.
(** The JSON text of a [RefreshResponse]. *)
Class ResponseCodec := {
  response_to_vec : TokenPair → option (list Z);
  response_from_slice : list Z → option TokenPair;
}.

Record VerifiedAccessToken := mk_verified_token {
  vt_user_id : str;
  vt_organization_id : option str;
  vt_session_id : str;
  vt_permissions : list str;
  vt_role_ids : list str;
  vt_policy_revision : option str;
  vt_assurance : str;
  vt_system_administrator : bool;
  vt_issued_at_seconds : Z;
  vt_expires_at_seconds : Z;
  vt_authorization_fingerprint : AuthorizationFingerprint;
}.
Record DecodedAccessToken := mk_decoded {
  dt_claims : AccessTokenClaims;
  dt_session_id : str;
  dt_kid : str;
}.

(** [cached] with the lifetime of the presented token. *)
Definition with_lifetime (cached : VerifiedAccessToken) (claims : AccessTokenClaims) : VerifiedAccessToken :=
  mk_verified_token (vt_user_id cached) (vt_organization_id cached) (vt_session_id cached)
    (vt_permissions cached) (vt_role_ids cached) (vt_policy_revision cached) (vt_assurance cached)
    (vt_system_administrator cached) (cl_iat claims) (cl_exp claims) (vt_authorization_fingerprint cached).

Definition matches_claims (cached : VerifiedAccessToken) (decoded : DecodedAccessToken) : bool :=
  bool_decide (vt_user_id cached = cl_sub (dt_claims decoded))
  && bool_decide (vt_session_id cached = dt_session_id decoded)
  && bool_decide (vt_organization_id cached = cl_tenant_id (dt_claims decoded)).

Definition verified_access_token {E} (claims : AccessTokenClaims) (session_id : str) (session : VerifiedSession) :
    result (TokenServiceError E) VerifiedAccessToken :=
  let auth := rc_auth (vs_context session) in
  let authorization := rc_authorization (vs_context session) in
  fail? negb (bool_decide (cl_sub claims = p_user_id (principal auth)))
        || negb (bool_decide (cl_tenant_id claims = ctx_organization_id auth)) with TsInvalidToken ;;
  Ok (mk_verified_token (cl_sub claims) (ctx_organization_id auth) session_id
        (snap_permissions authorization) (snap_role_ids authorization) (snap_policy_revision authorization)
        (assurance_label (assurance auth)) (system_administrator (principal auth))
        (cl_iat claims) (cl_exp claims) (vs_authorization_fingerprint session)).

Section service.
Context {W TE RE : Type} `{UuidText} `{KernelWorld W TE RE} `{JwtLibrary} `{TokenCrypto} `{ResponseCodec}.

Record TokenService := mk_token_service {
  svc_keys : JwtKeyRing;
  svc_sealing_key : RefreshSealingKey;
  svc_config : TokenServiceConfig;
}.
Record AccessTokenVerifier := mk_verifier {
  ver_keys : JwtKeyRing;
  ver_issuer : str;
  ver_audience : str;
}.
Definition AccessTokenVerifier_new (keys : JwtKeyRing) (issuer audience : str) :
    result TokenConfigurationError AccessTokenVerifier :=
  fail? negb (valid_issuer_and_audience issuer audience) with InvalidTokenConfiguration ;;
  Ok (mk_verifier keys issuer audience).

(** [TokenService::uuid] and [TokenService::opaque_token] *)
Definition service_uuid (now_ms : Z) : io W (TokenServiceError TE) Uuid :=
  uuid_v7 TsRandomnessUnavailable now_ms.
Definition opaque_token : io W (TokenServiceError TE) str :=
  do! bytes := io_call (λ _, TsRandomnessUnavailable) (random_bytes TOKEN_BYTES) in
  io_lift (Ok (base64_url_encode bytes)).

(** The claims of an access token for a verified session. *)
Definition session_claims (c : TokenServiceConfig) (session : VerifiedSession) (expires_at now : Z) (jti : str) :
    AccessTokenClaims :=
  let auth := rc_auth (vs_context session) in
  let authorization := rc_authorization (vs_context session) in
  let base := for_user (tc_issuer c) (p_user_id (principal auth)) [tc_audience c] expires_at now jti in
  mk_claims (cl_iss base) (cl_sub base) (cl_aud base) (cl_exp base) (cl_iat base) (cl_jti base)
    (ctx_organization_id auth) (Some (ctx_session_id auth)) (snap_role_ids authorization)
    (snap_permissions authorization) (Some (issued_at_unix_seconds auth)) (cl_extra base).

Definition token_pair (svc : TokenService) (session : VerifiedSession) (refresh_token : str) (now : Z) :
    io W (TokenServiceError TE) TokenPair :=
  let auth := rc_auth (vs_context session) in
  let expires_at := Z.min (u64_saturating_add now (tc_access_ttl_seconds (svc_config svc))) (ctx_expires_at auth) in
  fail! expires_at <=? now with TsInvalidSession ;;
  do! jti := service_uuid (u64_saturating_mul now 1000) in
  let claims := session_claims (svc_config svc) session expires_at now (uuid_to_string jti) in
  do! key := io_lift (ok_or (active (svc_keys svc)) TsCrypto) in
  do! encoding := io_lift (ok_or (key_encoding key) TsCrypto) in
  do! access := io_lift (map_err (λ _, TsCrypto)
    (encode_access_token claims encoding (key_algorithm key) (Some (key_kid key)))) in
  io_lift (Ok (mk_pair access refresh_token (u64_saturating_sub expires_at now))).

Definition issue (svc : TokenService) (session_id request_id : str) : io W (TokenServiceError TE) TokenPair :=
  do! now := io_now in
  do! session := io_call (λ _, TsInvalidSession) (load_verified_session session_id request_id now) in
  do! refresh := opaque_token in
  do! tokens := token_pair svc session refresh now in
  let refresh_hash := sha256 (str_bytes (tp_refresh_token tokens)) in
  do! family_id := service_uuid (u64_saturating_mul now 1000) in
  do! audit_id := service_uuid (u64_saturating_mul now 1000) in
  do! rows := io_call TsTransport (pg_query ISSUE_TOKEN_PAIR_SQL
    [PgText session_id; PgBytes refresh_hash; PgText (uuid_to_string family_id);
     PgI64 (u64_to_i64 (u64_saturating_mul
       (u64_saturating_add now (tc_refresh_ttl_seconds (svc_config svc))) 1000));
     PgI64 (u64_to_i64 (u64_saturating_mul now 1000)); PgText (uuid_to_string audit_id); PgText request_id]) in
  if bool_decide ((head rows ≫= λ row, ok (required_text row (lit "outcome"))) = Some (lit "issued"))
  then io_lift (Ok tokens) else io_lift (Err TsInvalidSession).

Definition decode_replay (svc : TokenService) (row : PgRow) : result (TokenServiceError TE) TokenPair :=
  let? version := map_err TsRow (required_text row (lit "response_key_version")) in
  let? ciphertext := map_err TsRow (required_bytes row (lit "response_ciphertext")) in
  let? plaintext := ok_or (open_sealed (svc_sealing_key svc) version ciphertext) TsCrypto in
  ok_or (response_from_slice plaintext) TsCrypto.

(** The parameters of the rotation. *)
Definition rotate_parameters (svc : TokenService) (current : list Z) (bound : option str) (tokens : TokenPair)
    (sealed : list Z) (now : Z) (rotation_audit reuse_audit : Uuid) (request_id : str) : list PgValue :=
  let now_ms := u64_saturating_mul now 1000 in
  [PgBytes current; pg_text bound; PgBytes (sha256 (str_bytes (tp_refresh_token tokens)));
   PgText (sk_version (svc_sealing_key svc)); PgBytes sealed;
   PgI64 (u64_to_i64 (u64_saturating_add now_ms REPLAY_WINDOW_MS)); PgI64 (u64_to_i64 now_ms);
   PgI64 (u64_to_i64 (u64_saturating_mul
     (u64_saturating_add now (tc_refresh_ttl_seconds (svc_config svc))) 1000));
   PgText (uuid_to_string rotation_audit); PgText (uuid_to_string reuse_audit); PgText request_id;
   PgI64 (u64_to_i64 (u64_saturating_mul
     (u64_saturating_add now (tc_session_ttl_seconds (svc_config svc))) 1000))].

Definition refresh (svc : TokenService) (bound_session_id : option str) (refresh_token request_id : str) :
    io W (TokenServiceError TE) TokenPair :=
  fail! (str_len refresh_token <? 32) || (512 <? str_len refresh_token) || existsb is_control refresh_token
    with TsInvalidToken ;;
  let current_hash := sha256 (str_bytes refresh_token) in
  do! session_rows := io_call TsTransport (pg_query LOAD_REFRESH_SESSION_SQL [PgBytes current_hash]) in
  do! row := io_lift (ok_or (head session_rows) TsInvalidToken) in
  do! text := io_lift (map_err TsRow (required_text row (lit "session_id"))) in
  do! session_id := io_lift (map_err (λ _, TsInvalidToken) (identifier_new text)) in
  fail! match bound_session_id with
        | Some bound => negb (bool_decide (bound = session_id))
        | None => false
        end with TsInvalidToken ;;
  do! now := io_now in
  do! session := io_call (λ _, TsInvalidToken) (load_verified_session session_id request_id now) in
  do! next_refresh := opaque_token in
  do! tokens := token_pair svc session next_refresh now in
  do! serialized := io_lift (ok_or (response_to_vec tokens) TsCrypto) in
  do! nonce := io_call (λ _, TsRandomnessUnavailable) (random_bytes NONCE_BYTES) in
  do! sealed := io_lift (ok_or (seal (svc_sealing_key svc) nonce serialized) TsCrypto) in
  do! rotation_audit := service_uuid (u64_saturating_mul now 1000) in
  do! reuse_audit := service_uuid (u64_saturating_mul now 1000) in
  do! rows := io_call TsTransport (pg_query ROTATE_REFRESH_TOKEN_SQL
    (rotate_parameters svc current_hash bound_session_id tokens sealed now rotation_audit reuse_audit request_id)) in
  do! row := io_lift (ok_or (head rows) TsInvalidToken) in
  do! outcome := io_lift (map_err TsRow (required_text row (lit "outcome"))) in
  io_lift (if bool_decide (outcome = lit "rotated") then Ok tokens
           else if bool_decide (outcome = lit "replayed") then decode_replay svc row
           else if bool_decide (outcome = lit "reuse_detected") then Err TsReuseDetected
           else Err TsInvalidToken).

(** ** Verification *)

Definition decode_verified_access_token (token : str) (keys : JwtKeyRing) (issuer audience : str) :
    result WorkflowError DecodedAccessToken :=
  let? kid := access_token_key_id token in
  let? key := ok_or (verification keys kid) InvalidToken in
  let? claims := decode_access_token token (key_decoding key) issuer audience [key_algorithm key] in
  let? session_id := ok_or (cl_session_id claims ≫= λ s, ok (identifier_new s)) InvalidToken in
  Ok (mk_decoded claims session_id kid).

Definition verify_access_token (keys : JwtKeyRing) (issuer audience token request_id : str) :
    io W (TokenServiceError TE) VerifiedAccessToken :=
  do! decoded := io_lift (map_err map_access_token_decode_error
                   (decode_verified_access_token token keys issuer audience)) in
  do! now := io_now in
  do! session := io_call map_verification_store_error
    (load_verified_session_for_token (dt_session_id decoded) request_id now (dt_kid decoded)) in
  io_lift (verified_access_token (dt_claims decoded) (dt_session_id decoded) session).
Definition service_verify (svc : TokenService) (token request_id : str) :
    io W (TokenServiceError TE) VerifiedAccessToken :=
  verify_access_token (svc_keys svc) (tc_issuer (svc_config svc)) (tc_audience (svc_config svc)) token request_id.
Definition verifier_verify (v : AccessTokenVerifier) (token request_id : str) :
    io W (TokenServiceError TE) VerifiedAccessToken :=
  verify_access_token (ver_keys v) (ver_issuer v) (ver_audience v) token request_id.

(** The tail of [verify_cached]: the complete snapshot. *)
Definition reload_verified (decoded : DecodedAccessToken) (request_id : str) :
    io W (TokenServiceError TE) VerifiedAccessToken :=
  do! now := io_now in
  do! session := io_call map_verification_store_error
    (load_verified_session_for_token (dt_session_id decoded) request_id now (dt_kid decoded)) in
  io_lift (verified_access_token (dt_claims decoded) (dt_session_id decoded) session).
Definition verify_cached (v : AccessTokenVerifier) (token request_id : str) (cached : option VerifiedAccessToken) :
    io W (TokenServiceError TE) VerifiedAccessToken :=
  do! decoded := io_lift (map_err map_access_token_decode_error
                   (decode_verified_access_token token (ver_keys v) (ver_issuer v) (ver_audience v))) in
  match cached with
  | Some cached =>
      if matches_claims cached decoded then
        do! now := io_now in
        do! fingerprint := io_call map_verification_store_error
          (load_authorization_fingerprint_for_token (dt_session_id decoded) now (dt_kid decoded)) in
        if bool_decide (vt_authorization_fingerprint cached = fingerprint)
        then io_lift (Ok (with_lifetime cached (dt_claims decoded)))
        else reload_verified decoded request_id
      else reload_verified decoded request_id
  | None => reload_verified decoded request_id
  end.

(** [verify_invalidation_cached] with the comparison of the epochs; it reads
    the clock and asks nothing of the database. *)
Definition verify_invalidation_cached (v : AccessTokenVerifier) (token : str) (cached : VerifiedAccessToken)
    (epochs_equal : bool) (now : Z) : result (TokenServiceError TE) (option VerifiedAccessToken) :=
  if negb epochs_equal then Ok None else
  let? decoded := map_err map_access_token_decode_error
                    (decode_verified_access_token token (ver_keys v) (ver_issuer v) (ver_audience v)) in
  fail? cl_exp (dt_claims decoded) <=? now with TsExpiredToken ;;
  if negb (matches_claims cached decoded) then Ok None
  else Ok (Some (with_lifetime cached (dt_claims decoded))).
End service.
