(* ===== verification/RateLimits.v ===== *)
(** * RateLimits: bounded attempts

    Models src/crates/wasi-auth/src/postgres/rate_limits.rs: the service that
    consumes an attempt from a bucket under a hashed subject.  The theorems
    bound the attempts a bucket allows over any run of the kernel, whatever
    else the kernel does in between. *)

From S2P Require Export Tokens.
Open Scope Z_scope.

#[local] Arguments lit : simpl never.

Definition MAX_SCOPE_BYTES : Z := 64.
Definition MAX_SUBJECT_BYTES : Z := 1024.

Record RateLimitDecision := mk_decision { rl_allowed : bool; rl_retry_after_seconds : Z }.
Inductive RateLimitError (E : Type) :=
| RlInvalidRequest | RlTransport (e : E) | RlRow (e : RowDecodeError) | RlInvalidRow.
Arguments RlInvalidRequest {E}.
Arguments RlTransport {E} e.
Arguments RlRow {E} e.
Arguments RlInvalidRow {E}.

(** ["{byte:02x}"] *)
Definition lower_hex (n : Z) : Z := if n <? 10 then 48 + n else 87 + n.
Definition hex_byte (b : Z) : str := [lower_hex (b / 16); lower_hex (b mod 16)].

Section limiter.
Context {W TE RE : Type} `{KernelWorld W TE RE} `{TokenCrypto}.

(** A field of a digest, framed by its length. *)
Definition framed (bytes : list Z) : list Z := to_be_bytes (Z.of_nat (length bytes)) ++ bytes.
Definition bucket_key (scope subject : str) : str :=
  scope ++ [58] ++ concat (map hex_byte (sha256 (framed (str_bytes scope) ++ framed (str_bytes subject)))).

Definition rate_limit_check (scope subject : str) (maximum_attempts window_seconds : Z) :
    io W (RateLimitError TE) RateLimitDecision :=
  fail! is_empty scope || (MAX_SCOPE_BYTES <? str_len scope) || existsb is_control scope
        || is_empty subject || (MAX_SUBJECT_BYTES <? str_len subject)
        || negb (in_range 1 10000 maximum_attempts) || negb (in_range 1 86400 window_seconds)
    with RlInvalidRequest ;;
  do! now := io_now in
  let now_ms := u64_saturating_mul now 1000 in
  do! rows := io_call RlTransport (pg_query CHECK_RATE_LIMIT_SQL
    [PgText (bucket_key scope subject); PgI64 (u64_to_i64 maximum_attempts);
     PgI64 (u64_to_i64 (u64_saturating_mul window_seconds 1000)); PgI64 (u64_to_i64 now_ms)]) in
  do! row := io_lift (ok_or (head rows) RlInvalidRow) in
  do! retry_after_ms := io_lift (map_err RlRow (required_i64 row (lit "retry_after_ms"))) in
  do! allowed := io_lift (map_err RlRow (row_bool row (lit "allowed"))) in
  do! allowed := io_lift (ok_or allowed RlInvalidRow) in
  do! retry_after_ms := io_lift (ok_or (u64_try_from retry_after_ms) RlInvalidRow) in
  io_lift (Ok (mk_decision allowed (u64_saturating_add retry_after_ms 999 / 1000))).
End limiter.

(** ** Runs of one bucket *)

Section bucket.
Context `{UuidText}.
Variables (key : str) (maximum window : Z).

(** The attempts on the bucket in a run of the kernel, with their answers.  The
    other statements of such a run are any that do not write this bucket:
    those on other tables, and those that count under another key. *)
Inductive checked : list (Z * bool) → Db → Db → Prop :=
| checked_done d : checked [] d d
| checked_attempt now ok retry l d d1 d2 :
    check_rate_limit key maximum window now d = Some ((ok, retry), d1) →
    checked l d1 d2 → checked ((now, ok) :: l) d d2
| checked_other l d d1 d2 :
    kstep d d1 → buckets d1 !! key = buckets d !! key → checked l d1 d2 → checked l d d2.

Definition allowed_count (l : list (Z * bool)) : Z := Z.of_nat (length (List.filter snd l)).

Lemma allowed_cons now ok l : allowed_count ((now, ok) :: l) = Z.b2z ok + allowed_count l.
Proof. unfold allowed_count. destruct ok; cbn [List.filter snd length Z.b2z]; lia. Qed.

(** What an attempt does to the bucket. *)
Lemma check_rate_limit_bucket now ok retry d d1 :
  check_rate_limit key maximum window now d = Some ((ok, retry), d1) →
  ∃ b, buckets d1 !! key = Some b ∧ ok = (b_attempts b <=? maximum)
    ∧ retry = Z.max (b_window_expires_at_ms b - now) 0
    ∧ b = match buckets d !! key with
          | Some b0 => if b_window_expires_at_ms b0 <=? now then mk_bucket 1 (now + window)
                       else mk_bucket (b_attempts b0 + 1) (b_window_expires_at_ms b0)
          | None => mk_bucket 1 (now + window)
          end.
Proof.
  unfold check_rate_limit, count_attempt. destruct (_ <? _); [done|]. cbn.
  intros [= <- <- <-]. eexists. cbn. rewrite lookup_insert_eq. split_and!; done.
Qed.

(** Inside a running window every attempt counts one more. *)
Lemma checked_running l d d' b :
  checked l d d' → buckets d !! key = Some b →
  Forall (λ e, e.1 < b_window_expires_at_ms b) l →
  map snd l = map (λ i, b_attempts b + 1 + Z.of_nat i <=? maximum) (seq 0 (length l)).
Proof.
  intros Hrun. revert b. induction Hrun as [d|now ok retry l d d1 d2 E Hrun IH|l d d1 d2 _ Heq Hrun IH];
    intros b Hb Hl; [done| |by apply IH; [rewrite Heq|]].
  apply Forall_cons in Hl as [Hnow Hl]. cbn in Hnow.
  apply check_rate_limit_bucket in E as (b1 & Hb1 & -> & _ & Heq). rewrite Hb in Heq.
  destruct (Z.leb_spec (b_window_expires_at_ms b) now); [lia|]. subst b1.
  cbn [map snd length seq]. f_equal; [cbn; f_equal; lia|].
  rewrite (IH _ Hb1) by done. rewrite <- seq_shift, map_map. apply map_ext. intros i. cbn. f_equal. lia.
Qed.
Lemma allowed_running l d d' b :
  checked l d d' → buckets d !! key = Some b →
  Forall (λ e, e.1 < b_window_expires_at_ms b) l →
  allowed_count l ≤ Z.max 0 (maximum - b_attempts b).
Proof.
  intros Hrun. revert b. induction Hrun as [d|now ok retry l d d1 d2 E Hrun IH|l d d1 d2 _ Heq Hrun IH];
    intros b Hb Hl; [unfold allowed_count; cbn; lia| |by apply IH; [rewrite Heq|]].
  apply Forall_cons in Hl as [Hnow Hl]. cbn in Hnow.
  apply check_rate_limit_bucket in E as (b1 & Hb1 & -> & _ & Heq). rewrite Hb in Heq.
  destruct (Z.leb_spec (b_window_expires_at_ms b) now); [lia|]. subst b1.
  rewrite allowed_cons. specialize (IH _ Hb1 Hl). cbn in *.
  destruct (Z.leb_spec (b_attempts b + 1) maximum); cbn; lia.
Qed.

(** No window is running at [t]. *)
Definition no_window (t : Z) (d : Db) : Prop :=
  ∀ b, buckets d !! key = Some b → b_window_expires_at_ms b ≤ t.

(** The first attempt then opens one. *)
Lemma checked_fresh l d d' t :
  checked l d d' → no_window t d → Forall (λ e, t ≤ e.1 < t + window) l →
  map snd l = map (λ i, 1 + Z.of_nat i <=? maximum) (seq 0 (length l)).
Proof.
  intros Hrun. induction Hrun as [d|now ok retry l d d1 d2 E Hrun IH|l d d1 d2 _ Heq Hrun IH];
    intros Hno Hl; [done| |by apply IH; [unfold no_window; rewrite Heq|]].
  apply Forall_cons in Hl as [Hnow Hl]. cbn in Hnow.
  apply check_rate_limit_bucket in E as (b1 & Hb1 & -> & _ & Heq).
  assert (b1 = mk_bucket 1 (now + window)) as ->.
  { destruct (buckets d !! key) as [b0|] eqn:E0; [|done]. specialize (Hno b0 E0).
    destruct (Z.leb_spec (b_window_expires_at_ms b0) now); [done|lia]. }
  cbn [map snd length seq]. f_equal.
  rewrite (checked_running _ _ _ _ Hrun Hb1).
  - rewrite <- seq_shift, map_map. apply map_ext. intros i. cbn. f_equal. lia.
  - eapply Forall_impl; [exact Hl|]. cbn. lia.
Qed.
Lemma count_true_prefix n f :
  (∀ i, (i < n)%nat → f i = (1 + Z.of_nat i <=? maximum)) →
  Z.of_nat (length (List.filter id (map f (seq 0 n)))) ≤ Z.max 0 maximum.
Proof.
  intros Hf. rewrite (map_ext_in f (λ i, 1 + Z.of_nat i <=? maximum)) by (intros i Hi%in_seq; apply Hf; lia).
  clear Hf. assert (Hgen : ∀ m k, Z.of_nat (length (List.filter id (map (λ i, 1 + Z.of_nat i <=? maximum) (seq k m))))
    ≤ Z.max 0 (maximum - Z.of_nat k)).
  { induction m as [|m IH]; intros k; cbn; [lia|]. specialize (IH (S k)).
    destruct (Z.leb_spec (1 + Z.of_nat k) maximum); cbn [id length]; lia. }
  specialize (Hgen n 0%nat). lia.
Qed.
Lemma allowed_count_map l : allowed_count l = Z.of_nat (length (List.filter id (map snd l))).
Proof.
  unfold allowed_count. f_equal. induction l as [|[t ok] l IH]; cbn; [done|]. destruct ok; cbn; congruence.
Qed.

(** Whatever the bucket holds, at most one more window opens in the span. *)
Lemma allowed_span l d d' t :
  checked l d d' → (∀ b, buckets d !! key = Some b → 0 ≤ b_attempts b) →
  Forall (λ e, t ≤ e.1 < t + window) l → allowed_count l ≤ 2 * Z.max 0 maximum.
Proof.
  intros Hrun Hatt Hl.
  assert (Hgen : ∀ b, buckets d !! key = Some b →
    allowed_count l ≤ Z.max 0 (maximum - b_attempts b) + Z.max 0 maximum).
  { clear Hatt. induction Hrun as [d|now ok retry l d d1 d2 E Hrun IH|l d d1 d2 _ Heq Hrun IH];
      intros b Hb; [unfold allowed_count; cbn; lia| |by apply IH; [|rewrite Heq]].
    apply Forall_cons in Hl as [Hnow Hl]. cbn in Hnow.
    apply check_rate_limit_bucket in E as (b1 & Hb1 & -> & _ & Heq). rewrite Hb in Heq.
    rewrite allowed_cons. destruct (Z.leb_spec (b_window_expires_at_ms b) now); subst b1.
    - eapply allowed_running in Hrun; [|exact Hb1|eapply Forall_impl; [exact Hl|cbn; lia]]. cbn in *.
      destruct (Z.leb_spec 1 maximum); cbn; lia.
    - specialize (IH Hl _ Hb1). cbn in *. destruct (Z.leb_spec (b_attempts b + 1) maximum); cbn; lia. }
  destruct (buckets d !! key) as [b|] eqn:Eb; [specialize (Hgen b eq_refl); specialize (Hatt b eq_refl); lia|].
  rewrite allowed_count_map, (checked_fresh _ _ _ t Hrun); [|by intros b; rewrite Eb|done].
  pose proof (count_true_prefix (length l) (λ i, 1 + Z.of_nat i <=? maximum) (λ i _, eq_refl)). lia.
Qed.

(** C34: A rate limit bounds the attempts.  Over any run of the kernel in which
    only the checks themselves write the bucket, among the attempts on it that
    fall into a span as long as its window, at most twice the maximum are
    allowed; and when no window was running at the start of the span, exactly
    the first [maximum] attempts are allowed and every later one is refused. *)
Theorem rate_limit_bounded (l : list (Z * bool)) (d d' : Db) (t : Z) (Hmax : 0 ≤ maximum)
    (Hcheck : ∀ b, buckets d !! key = Some b → 0 ≤ b_attempts b)
    (Hrun : checked l d d') (Hspan : Forall (λ e, t ≤ e.1 < t + window) l) :
  allowed_count l ≤ 2 * maximum
  ∧ (no_window t d → map snd l = map (λ i, bool_decide (Z.of_nat i < maximum)) (seq 0 (length l))).
Proof.
  split.
  - pose proof (allowed_span _ _ _ _ Hrun Hcheck Hspan). lia.
  - intros Hno. rewrite (checked_fresh _ _ _ _ Hrun Hno Hspan). apply map_ext. intros i.
    apply Bool.eq_true_iff_eq. rewrite Z.leb_le, bool_decide_eq_true. lia.
Qed.
End bucket.

(** ** The service *)

Section service_limit.
Context {W TE RE : Type} `{KernelWorldLaws W TE RE} `{TokenCrypto}.
#[local] Set Default Proof Using "Type*".

Lemma exec_check_rate_limit key maximum window now d out d' :
  kernel_exec CHECK_RATE_LIMIT_SQL [PgText key; PgI64 maximum; PgI64 window; PgI64 now] d = Some (out, d') →
  ∃ ok retry, check_rate_limit key maximum window now d = Some ((ok, retry), d')
    ∧ out = [PgRow_new [(lit "allowed", PgBool ok); (lit "retry_after_ms", PgI64 retry)]].
Proof. cbn. intros ([[ok retry] d1] & E & [= <- <-])%bind_Some. eauto. Qed.

(** The answer of the service is the answer of one execution of the
    statement; the delay is the rest of the window in seconds, rounded up. *)
Lemma rate_limit_check_exact scope subject maximum window w decision w' :
  rate_limit_check scope subject maximum window w = (Ok decision, w') →
  ∃ d1 d2 retry, rtc kstep (database w) d1 ∧ rtc kstep d2 (database w')
    ∧ check_rate_limit (bucket_key scope subject) maximum (window * 1000)
        (u64_to_i64 (u64_saturating_mul (clock_now w) 1000)) d1 = Some ((rl_allowed decision, retry), d2)
    ∧ 1000 * (rl_retry_after_seconds decision - 1) < retry
    ∧ (retry ≤ u64_max - 999 → retry ≤ 1000 * rl_retry_after_seconds decision)
    ∧ 1 ≤ maximum ≤ 10000 ∧ 1 ≤ window ≤ 86400.
Proof.
  unfold rate_limit_check. rewrite io_fail_Ok. intros [Hg E].
  rewrite !orb_false_iff, !negb_false_iff in Hg. destruct Hg as [[_ Hm] Hw]. unfold in_range in Hm, Hw. bprop.
  apply io_bind_Ok in E as (now & w1 & [= <- <-] & E). cbv zeta in E. run_inv E.
  match goal with Q : pg_query _ _ _ = _ |- _ => apply pg_query_Ok in Q as (d1 & d2 & Hd1 & Hex & Hd2) end.
  apply exec_check_rate_limit in Hex as (ok & retry & Hc & ->). simplify_eq/=.
  repeat match goal with E' : required_i64 _ _ = Ok _ |- _ => vm_compute in E'
                    | E' : row_bool _ _ = Ok _ |- _ => vm_compute in E' end. simplify_eq/=.
  match goal with E' : u64_try_from _ = Some _ |- _ => apply u64_try_from_Some in E' as [-> ?] end.
  assert (u64_to_i64 maximum = maximum) as Em by (apply u64_to_i64_id; unfold i64_max; lia).
  assert (u64_to_i64 (u64_saturating_mul window 1000) = window * 1000) as Ew
    by (unfold u64_saturating_mul; rewrite u64_to_i64_id; unfold u64_max, i64_max; lia).
  rewrite Em, Ew in Hc. eexists d1, d2, _. cbn. unfold u64_saturating_add.
  split_and!; try done; try lia; Z.to_euclidean_division_equations; unfold u64_max in *; lia.
Qed.
End service_limit.

(** ** The limit of resent verification mails *)

(** Once the first window of a bucket has expired, it never limits again: an
    attempt on an expired window sets the end of the window to the moment of
    the attempt, so that every later attempt finds it expired. *)
Lemma resend_window_lapses bucket now d b :
  buckets d !! bucket = Some b → b_window_expires_at_ms b ≤ now → now + 3600000 ≤ i64_max →
  ∃ d', count_attempt bucket 3600000 0 now d = Some (mk_bucket 1 now, d')
    ∧ buckets d' !! bucket = Some (mk_bucket 1 now).
Proof.
  intros Hb Hw Hm. unfold count_attempt. destruct (Z.ltb_spec i64_max (now + 3600000)); [lia|].
  rewrite Hb. destruct (Z.leb_spec (b_window_expires_at_ms b) now); [|lia].
  rewrite Z.add_0_r. eexists. split; [done|]. cbn. by rewrite lookup_insert_eq.
Qed.
(** A run of attempts on that bucket, at the given times. *)
Fixpoint resend_attempts (bucket : str) (times : list Z) (d : Db) : option (list Z) :=
  match times with
  | [] => Some []
  | now :: times =>
      '(b, d) ← count_attempt bucket 3600000 0 now d;
      counts ← resend_attempts bucket times d;
      Some (b_attempts b :: counts)
  end.
(** The hourly limit on resent verification mails lapses.  Once the first
    window of the bucket has expired, any number of further requests, at any
    later times, are each counted as the first attempt of a window, so that
    none of them is ever refused by the limit of five. *)
Theorem resend_limit_lapses (bucket : str) (times : list Z) (d : Db) (b : BucketRow)
    (Hb : buckets d !! bucket = Some b)
    (Htimes : Sorted.StronglySorted Z.le (b_window_expires_at_ms b :: times))
    (Hrange : Forall (λ t, t + 3600000 ≤ i64_max) times) :
  resend_attempts bucket times d = Some (replicate (length times) 1).
Proof.
  revert d b Hb Htimes. induction Hrange as [|now times Hnow _ IH]; intros d b Hb Htimes; [done|].
  apply Sorted.StronglySorted_inv in Htimes as [Hs Hall]. apply Forall_cons in Hall as [Hle _].
  destruct (resend_window_lapses bucket now d b Hb Hle Hnow) as (d' & E & Hb').
  cbn [resend_attempts]. rewrite E. cbn. by rewrite (IH d' _ Hb') by done.
Qed.
