(* ===== verification/Sessions.v ===== *)
(** * Sessions: listing and revoking the sessions of an account

    Models src/crates/wasi-auth/src/postgres/sessions.rs.  A listing shows live
    sessions of the account and nothing else, newest first; a revocation needs
    a live session of the same account and ends the target for good. *)

From S2P Require Export Store.
Open Scope Z_scope.

#[local] Arguments lit : simpl never.

Record AccountSessionRecord := mk_account_session {
  as_session_id : str;
  as_organization_id : option str;
  as_assurance : str;
  as_created_at_ms : Z;
  as_expires_at_ms : Z;
}.
Inductive SessionServiceError (E : Type) :=
| SsNotAuthorized | SsRandomnessUnavailable | SsTransport (e : E) | SsRow (e : RowDecodeError) | SsInvalidRow.
Arguments SsNotAuthorized {E}.
Arguments SsRandomnessUnavailable {E}.
Arguments SsTransport {E} e.
Arguments SsRow {E} e.
Arguments SsInvalidRow {E}.

Definition decode_session {E} (row : PgRow) : result (SessionServiceError E) AccountSessionRecord :=
  let? assurance := map_err SsRow (required_text row (lit "assurance")) in
  fail? negb (bool_decide (assurance ∈ [lit "aal1"; lit "aal2"; lit "aal3"])) with SsInvalidRow ;;
  let? session := map_err SsRow (required_text row (lit "session_id")) in
  let? session := map_err (λ _, SsInvalidRow) (identifier_new session) in
  let? organization := map_err SsRow (row_text row (lit "organization_id")) in
  let? created := map_err SsRow (required_i64 row (lit "created_at_ms")) in
  let? created := ok_or (u64_try_from created) SsInvalidRow in
  let? expires := map_err SsRow (required_i64 row (lit "expires_at_ms")) in
  let? expires := ok_or (u64_try_from expires) SsInvalidRow in
  Ok (mk_account_session session organization assurance created expires).

Section service.
Context {W TE RE : Type} `{UuidText} `{KernelWorld W TE RE}.

(** [SessionService::list] and [SessionService::revoke] *)
Definition session_list (user_id : str) : io W (SessionServiceError TE) (list AccountSessionRecord) :=
  do! now := io_now in
  let now_ms := u64_saturating_mul now 1000 in
  do! rows := io_call SsTransport (pg_query LIST_SESSIONS_SQL [PgText user_id; PgI64 (u64_to_i64 now_ms)]) in
  io_lift (collect_map decode_session rows).
Definition session_revoke (target_session_id actor_session_id request_id : str) :
    io W (SessionServiceError TE) unit :=
  do! now := io_now in
  let now_ms := u64_saturating_mul now 1000 in
  do! audit_id := uuid_v7 SsRandomnessUnavailable now_ms in
  do! rows := io_call SsTransport (pg_query REVOKE_SESSION_SQL
    [PgText target_session_id; PgText actor_session_id; PgI64 (u64_to_i64 now_ms);
     PgText (uuid_to_string audit_id); PgText request_id]) in
  if bool_decide ((head rows ≫= λ row, ok (required_text row (lit "outcome"))) = Some (lit "revoked"))
  then io_lift (Ok tt) else io_lift (Err SsNotAuthorized).
End service.

(** ** Listing *)

#[export] Instance session_order_total : Total session_order.
Proof.
  intros [a x] [b y]. unfold session_order. cbn.
  destruct (Z.lt_total (s_created_at_ms x) (s_created_at_ms y)) as [|[|]]; [by right; left| |by left; left].
  destruct (total str_le a b); [left|right]; right; split; done || lia.
Qed.
#[export] Instance session_order_trans : Transitive session_order.
Proof.
  intros [a x] [b y] [c z]. unfold session_order. cbn.
  intros [|[? ?]] [|[? ?]]; [left; lia..|]. right. split; [lia|by etrans].
Qed.

Lemma elem_of_list_sessions `{UuidText} user now d ks :
  ks ∈ list_sessions user now d →
  sessions d !! ks.1 = Some ks.2 ∧ s_user ks.2 = user ∧ s_revoked_at_ms ks.2 = None
  ∧ now < s_expires_at_ms ks.2.
Proof.
  unfold list_sessions. intros Hin%elem_of_take. destruct Hin as (i & Hin & _).
  apply list_elem_of_lookup_2 in Hin. rewrite (merge_sort_Permutation _ _) in Hin.
  apply elem_of_filterb in Hin as [Hin Hp]. bprop. destruct ks as [k s]. apply elem_of_map_to_list in Hin.
  by destruct Hp as [[-> ->] ?].
Qed.
(** Every live session is listed when there are at most a hundred. *)
Lemma list_sessions_complete `{UuidText} user now d k s :
  sessions d !! k = Some s → s_user s = user → s_revoked_at_ms s = None → now < s_expires_at_ms s →
  (length (list_sessions user now d) < 100)%nat → (k, s) ∈ list_sessions user now d.
Proof.
  intros Hk Hu Hr He. unfold list_sessions. rewrite length_take. intros Hlen.
  rewrite take_ge by lia. rewrite (merge_sort_Permutation _ _). apply elem_of_filterb.
  split; [by apply elem_of_map_to_list|]. by bprop.
Qed.
Lemma list_sessions_sorted `{UuidText} user now d : StronglySorted session_order (list_sessions user now d).
Proof.
  unfold list_sessions. set (l := merge_sort session_order _).
  apply (StronglySorted_app_1_l _ (take 100 l) (drop 100 l)). rewrite take_drop.
  apply (StronglySorted_merge_sort session_order).
Qed.

(** The record a listed row decodes to. *)
Definition listed_record `{UuidText} (ks : Uuid * SessionRow) : AccountSessionRecord :=
  mk_account_session (uuid_to_string ks.1) (uuid_to_string <$> s_organization ks.2)
    (assurance_text (s_assurance ks.2)) (s_created_at_ms ks.2) (s_expires_at_ms ks.2).
Lemma decode_session_columns `{UuidText} {E} ks r :
  decode_session (E := E) (listed_columns ks) = Ok r → r = listed_record ks.
Proof.
  unfold decode_session. intros E0.
  repeat match type of E0 with
  | (let? _ := _ in _) = Ok _ => apply rbind_Ok in E0 as (? & ?Hc & E0)
  | (if _ then Err _ else _) = Ok _ => apply fail_Ok in E0 as [_ E0]
  end. injection E0 as <-.
  repeat match goal with
  | Hc : map_err _ (identifier_new _) = Ok _ |- _ => apply map_err_Ok, identifier_new_Ok in Hc as [-> _]
  | Hc : map_err SsRow _ = Ok _ |- _ => apply map_err_Ok in Hc
  | Hc : ok_or (u64_try_from _) _ = Ok _ |- _ => apply ok_or_Ok, u64_try_from_Some in Hc as [-> _]
  end.
  assert (row_text (listed_columns ks) (lit "organization_id") = Ok (uuid_to_string <$> s_organization ks.2)) as Ho.
  { apply pg_text_row. reflexivity. }
  rewrite Ho in *. destruct ks as [k s]. repeat match goal with
  | Hc : required_text ?r ?c = Ok _ |- _ => with_strategy opaque [lit] (cbn in Hc); injection Hc as <-
  | Hc : required_i64 ?r ?c = Ok _ |- _ => with_strategy opaque [lit] (cbn in Hc); injection Hc as <-
  | Hc : Ok _ = Ok _ |- _ => injection Hc as <-
  end. done.
Qed.
Lemma collect_map_mapped {E A B C} (f : B → result E C) (g : A → B) (h : A → C) l l' :
  (∀ a r, f (g a) = Ok r → r = h a) → collect_map f (map g l) = Ok l' → l' = map h l.
Proof.
  intros Hf. revert l'. induction l as [|a l IH]; intros l'; cbn.
  - by intros [= <-].
  - rewrite rbind_Ok. intros (r & Hr%Hf & E0). apply rbind_Ok in E0 as (rs & Hrs%IH & [= <-]). by subst.
Qed.

Section proofs.
Context {W TE RE : Type} `{KernelWorldLaws W TE RE}.
#[local] Set Default Proof Using "Type*".

(** The account page shows exactly the live sessions of the account.  A
    listing that succeeds is the listing of one moment of the call: every
    record is a session of the user that is neither revoked nor expired, they
    come newest first, and when fewer than a hundred are shown none is
    missing. *)
Theorem session_list_exact (user_id : str) (user : Uuid) (w w' : W) (records : list AccountSessionRecord)
    (Huser : uuid_parse_str user_id = Some user)
    (Hrun : session_list user_id w = (Ok records, w')) :
  ∃ d listed, let now := u64_to_i64 (u64_saturating_mul (clock_now w) 1000) in
    rtc kstep (database w) d ∧ rtc kstep d (database w')
    ∧ records = map listed_record listed
    ∧ StronglySorted session_order listed
    ∧ (∀ k s, (k, s) ∈ listed → sessions d !! k = Some s ∧ s_user s = user
         ∧ s_revoked_at_ms s = None ∧ now < s_expires_at_ms s)
    ∧ ((length records < 100)%nat → ∀ k s, sessions d !! k = Some s → s_user s = user →
         s_revoked_at_ms s = None → now < s_expires_at_ms s → listed_record (k, s) ∈ records).
Proof.
  unfold session_list in Hrun. apply io_bind_Ok in Hrun as (now & w1 & [= <- <-] & E). cbv zeta in E. run_inv E.
  match goal with Q : pg_query _ _ _ = _ |- _ => apply pg_query_Ok in Q as (d1 & d2 & Hd1 & Hex & Hd2) end.
  cbn [kernel_exec] in Hex. rewrite Huser in Hex. cbn [mbind option_bind] in Hex. injection Hex as <- <-.
  apply (collect_map_mapped _ _ listed_record) in E as ->; [|apply decode_session_columns].
  eexists d1, _. cbv zeta. split_and!; [done|done|done|apply list_sessions_sorted| |].
  - intros k s Hin. by apply (elem_of_list_sessions _ _ _ (k, s)).
  - rewrite length_map. intros Hlen k s Hk Hu Hr He. apply list_elem_of_fmap.
    exists (k, s). split; [done|]. by apply list_sessions_complete.
Qed.

(** ** Revoking *)

Lemma revoke_session_effect target actor now aid rid d d' :
  revoke_session target actor now aid rid d = Some (true, d') →
  ∃ sa u st, sessions d !! actor = Some sa ∧ users d !! s_user sa = Some u ∧ live_session now sa u = true
    ∧ sessions d !! target = Some st ∧ s_user st = s_user sa
    ∧ sessions d' !! target = Some (revoke_session_row now st).
Proof.
  unfold revoke_session. intros E. open_stmt E.
  match goal with Hl : negb _ = false |- _ => apply negb_false_iff in Hl end. bprop. destruct_and?.
  do 3 eexists. split_and!; try done. cbn. by rewrite lookup_insert_eq.
Qed.

(** Revoking a session is authorized and final.  When a revocation
    succeeds, at one moment of the call the acting session was live, the
    target existed and belonged to the same user, and from then on the target
    loads no request context and refreshes nothing. *)
Theorem session_revoke_final (target_id actor_id request_id : str) (w w' : W)
    (Hrun : session_revoke target_id actor_id request_id w = (Ok tt, w')) (d : Db)
    (Hlater : rtc kstep (database w') d) :
  ∃ d1 target actor sa u st, rtc kstep (database w) d1
    ∧ uuid_parse_str target_id = Some target ∧ uuid_parse_str actor_id = Some actor
    ∧ sessions d1 !! actor = Some sa ∧ users d1 !! s_user sa = Some u
    ∧ live_session (u64_to_i64 (u64_saturating_mul (clock_now w) 1000)) sa u = true
    ∧ sessions d1 !! target = Some st ∧ s_user st = s_user sa
    ∧ (∀ now key, load_request_context target now key d = None)
    ∧ (∀ a r o d', refresh_tokens d !! ro_current a = Some r → rt_session r = target →
         rotate_refresh_token a d = Some (o, d') → o = InvalidRefresh).
Proof.
  unfold session_revoke in Hrun. apply io_bind_Ok in Hrun as (now & w1 & [= <- <-] & E). cbv zeta in E.
  apply io_bind_Ok in E as (aid & w1 & Haid & E). apply io_bind_Ok in E as (rows & w2 & Q & E).
  apply io_call_Ok, pg_query_Ok in Q as (d1 & d2 & Hd1 & Hex & Hd2).
  cbn [kernel_exec] in Hex. apply bind_Some in Hex as (target & Ht & Hex). apply bind_Some in Hex as (actor & Ha & Hex).
  rewrite uuid_parse_to_string in Hex. cbn [mbind option_bind] in Hex.
  apply bind_Some in Hex as ([ok d2'] & Hrev & [= <- <-]).
  destruct ok; cbn [flag_rows head] in E; [|by case_bool_decide].
  case_bool_decide; [|done]. injection E as <-.
  apply revoke_session_effect in Hrev as (sa & u & st & Hsa & Hu & Hl & Hst & Heq & Hst').
  assert (rtc kstep d2' d) as Hrest by (by etrans).
  exists d1, target, actor, sa, u, st. split_and!; try done.
  - etrans; [by eapply ksafe_uuid_v7|done].
  - intros now key. by eapply revoked_session_dead.
  - intros a r o d' Hr Hs Hrot. by eapply (revoked_session_rotates_nothing d2' d target _ a r).
Qed.
End proofs.
