(* ===== verification/Passwords.v ===== *)
(** * Passwords: Argon2id hashes and their text form

    Models the password hashing of src/crates/wasi-auth/src/postgres/workflows.rs:
    the bounded policy, the stored form [argon2id$m=..,t=..,p=..$salt$hash], its
    parser and the verification.  Argon2id is a parameter; [None] is the
    [PasswordCryptoError] of the source. *)

From S2P Require Export Tokens.
Open Scope Z_scope.

#[local] Arguments lit : simpl never.

Definition PASSWORD_HASH_BYTES : nat := 32.
Definition PASSWORD_SALT_BYTES : nat := 16.
Definition DUMMY_PASSWORD_HASH : str :=
  lit "argon2id$m=19456,t=2,p=1$AAAAAAAAAAAAAAAAAAAAAA$AAAAAAAAAAAAAAAAAAAAAAAAAAAAAAAAAAAAAAAAAAA".

(** The [argon2] crate: whether [Params::new] accepts memory, iterations and
    lanes for an output of 32 bytes, and [hash_password_into] under them. *)
Class PasswordCrypto := {
  argon2_params : Z → Z → Z → bool;
  argon2id : Z → Z → Z → list Z → list Z → option (list Z);
}.

(** ** Decimal numbers *)

Definition u32_max : Z := 4294967295.
(** [format!("{}", value)] of a [u32]: ten digits are enough. *)
Definition decimal (n : Z) : str := decimal_digits 10 n.
(** [str::parse::<u32>]: an optional plus sign and at least one digit. *)
Definition parse_u32 (text : str) : option Z :=
  let digits := match text with
                | c :: (_ :: _) as r => if c =? 43 then r else text
                | _ => text
                end in
  if is_empty digits || negb (forallb is_ascii_digit digits) then None
  else if digits_value digits <=? u32_max then Some (digits_value digits) else None.

(** ** Policy *)

Record Argon2Policy := mk_argon2 { memory_kib : Z; iterations : Z; parallelism : Z }.
Definition Argon2Policy_default : Argon2Policy := mk_argon2 19456 2 1.

Section hashing.
Context `{TokenCrypto} `{PasswordCrypto}.

(** [Argon2Policy::new]; [None] is [InvalidConfiguration]. *)
Definition Argon2Policy_new (memory_kib iterations parallelism : Z) : option Argon2Policy :=
  if negb (in_range 19456 1048576 memory_kib) || negb (in_range 2 10 iterations)
     || negb (in_range 1 16 parallelism) then None
  else if argon2_params memory_kib iterations parallelism
  then Some (mk_argon2 memory_kib iterations parallelism) else None.
Definition params (p : Argon2Policy) : bool := argon2_params (memory_kib p) (iterations p) (parallelism p).
Definition argon2_hash (p : Argon2Policy) (password : str) (salt : list Z) : option (list Z) :=
  if params p then argon2id (memory_kib p) (iterations p) (parallelism p) (str_bytes password) salt else None.

(** The loop of [parse_argon2_policy] over the comma-separated parts. *)
Record PolicyParts := mk_parts { pp_memory : option Z; pp_iterations : option Z; pp_parallelism : option Z }.
Definition policy_part (parts : PolicyParts) (part : str) : option PolicyParts :=
  '(name, value) ← split_once 61 part;
  value ← parse_u32 value;
  if bool_decide (name = lit "m") then Some (mk_parts (Some value) (pp_iterations parts) (pp_parallelism parts))
  else if bool_decide (name = lit "t") then Some (mk_parts (pp_memory parts) (Some value) (pp_parallelism parts))
  else if bool_decide (name = lit "p") then Some (mk_parts (pp_memory parts) (pp_iterations parts) (Some value))
  else None.
Fixpoint policy_parts (parts : PolicyParts) (l : list str) : option PolicyParts :=
  match l with
  | [] => Some parts
  | part :: l => parts ← policy_part parts part; policy_parts parts l
  end.
Definition parse_argon2_policy (value : str) : option Argon2Policy :=
  parts ← policy_parts (mk_parts None None None) (split_char 44 value);
  memory ← pp_memory parts;
  iterations ← pp_iterations parts;
  parallelism ← pp_parallelism parts;
  let policy := mk_argon2 memory iterations parallelism in
  if params policy then Some policy else None.

(** ** Hashing and verification *)

Definition policy_text (p : Argon2Policy) : str :=
  lit "m=" ++ decimal (memory_kib p) ++ lit ",t=" ++ decimal (iterations p) ++ lit ",p=" ++ decimal (parallelism p).
Definition hash_password (password : str) (salt : list Z) (policy : Argon2Policy) : option str :=
  output ← argon2_hash policy password salt;
  Some (lit "argon2id$" ++ policy_text policy ++ lit "$" ++ base64_url_encode salt
        ++ lit "$" ++ base64_url_encode output).

(** The comparison that looks at every byte. *)
Definition difference (left right : list Z) : Z :=
  foldl (λ difference lr, Z.lor difference (Z.lxor lr.1 lr.2)) 0 (zip left right).
(** [verify_password]; the policy in force is only compared for a rehash that
    never happens. *)
Definition verify_password (password stored_hash : str) (current_policy : Argon2Policy) : option bool :=
  match split_char 36 stored_hash with
  | [scheme; policy; salt; expected] =>
      if negb (bool_decide (scheme = lit "argon2id")) then None else
      policy ← parse_argon2_policy policy;
      salt ← base64_url_decode salt;
      expected ← base64_url_decode expected;
      if negb (bool_decide (length expected = PASSWORD_HASH_BYTES)) then None else
      candidate ← argon2_hash policy password salt;
      Some (difference candidate expected =? 0)
  | _ => None
  end.
End hashing.

(** What the round trip uses of the libraries. *)
Class PasswordCryptoLaws `{TokenCrypto} `{PasswordCrypto} : Prop := {
  argon2id_length m t p password salt out :
    argon2id m t p password salt = Some out → length out = PASSWORD_HASH_BYTES;
  base64_url_decode_encode bytes : base64_url_decode (base64_url_encode bytes) = Some bytes;
  (** The alphabet has no dollar sign. *)
  base64_url_alphabet bytes : 36 ∉ base64_url_encode bytes;
}.

(** ** Lemmas *)

Definition is_u32 (n : Z) : Prop := 0 ≤ n ≤ u32_max.

Lemma decimal_spec n : is_u32 n →
  digits_value (decimal n) = n ∧ forallb is_ascii_digit (decimal n) = true ∧ decimal n ≠ [].
Proof. intros [? ?]. apply decimal_digits_spec; [unfold u32_max in *; cbn; lia|lia]. Qed.

Lemma digit_not c s : forallb is_ascii_digit s = true → is_ascii_digit c = false → c ∉ s.
Proof. rewrite forallb_forall. intros Hs Hc Hin%list_elem_of_In. apply Hs in Hin. congruence. Qed.
Lemma parse_u32_decimal n : is_u32 n → parse_u32 (decimal n) = Some n.
Proof.
  intros Hn. destruct (decimal_spec n Hn) as (Hv & Hd & Hne). unfold parse_u32.
  assert ((match decimal n with c :: (_ :: _) as r => if c =? 43 then r else decimal n | _ => decimal n end)
          = decimal n) as ->.
  { destruct (decimal n) as [|c [|c' r]] eqn:E; try done.
    destruct (Z.eqb_spec c 43) as [->|]; [|done]. by cbn in Hd. }
  rewrite Hd, Hv. destruct (decimal n); [done|]. cbn. by rewrite (proj2 (Z.leb_le _ _)) by apply Hn.
Qed.

Lemma split_once_app d a b : d ∉ a → split_once d (a ++ d :: b) = Some (a, b).
Proof.
  induction a as [|c a IH]; cbn; [by rewrite Z.eqb_refl|]. intros [Hc Ha]%not_elem_of_cons.
  rewrite (proj2 (Z.eqb_neq c d)) by congruence. by rewrite IH.
Qed.
Lemma split_char_nosep d a : d ∉ a → split_char d a = [a].
Proof.
  unfold split_char. induction a as [|c a IH]; cbn; [done|]. intros [Hc Ha]%not_elem_of_cons.
  rewrite (proj2 (Z.eqb_neq c d)) by congruence. by rewrite IH.
Qed.
Lemma split_char_app d a b : d ∉ a → split_char d (a ++ d :: b) = a :: split_char d b.
Proof.
  unfold split_char. induction a as [|c a IH]; cbn; [by rewrite Z.eqb_refl|]. intros [Hc Ha]%not_elem_of_cons.
  rewrite (proj2 (Z.eqb_neq c d)) by congruence. by rewrite IH.
Qed.

Lemma difference_from l1 l2 acc :
  length l1 = length l2 → 
  foldl (λ difference lr, Z.lor difference (Z.lxor lr.1 lr.2)) acc (zip l1 l2) = 0 ↔ acc = 0 ∧ l1 = l2.
Proof.
  revert l2 acc. induction l1 as [|x l1 IH]; intros [|y l2] acc Hl; try done; cbn; [naive_solver|].
  rewrite IH by (cbn in Hl; lia). rewrite Z.lor_eq_0_iff, Z.lxor_eq_0_iff. cbn. naive_solver.
Qed.
Lemma difference_spec l1 l2 : length l1 = length l2 → (difference l1 l2 =? 0) = bool_decide (l1 = l2).
Proof.
  intros Hl. apply Bool.eq_true_iff_eq. rewrite Z.eqb_eq, bool_decide_eq_true. unfold difference.
  rewrite difference_from by done. naive_solver.
Qed.

Definition policy_u32 (p : Argon2Policy) : Prop :=
  is_u32 (memory_kib p) ∧ is_u32 (iterations p) ∧ is_u32 (parallelism p).

Section roundtrip.
Context `{PasswordCryptoLaws}.
#[local] Set Default Proof Using "Type*".


Lemma parse_policy_text p : policy_u32 p → params p = true → parse_argon2_policy (policy_text p) = Some p.
Proof.
  intros (Hm & Ht & Hp) Hok. unfold parse_argon2_policy, policy_text.
  assert (Hsep : ∀ k n, is_u32 n → 44 ∉ (lit k ++ decimal n) ↔ 44 ∉ lit k).
  { intros k n Hn. rewrite not_elem_of_app. split; [by intros []|]. intros ?. split; [done|].
    by apply (digit_not _ _ (proj1 (proj2 (decimal_spec n Hn)))). }
  change (lit ",t=") with (44 :: lit "t="). change (lit ",p=") with (44 :: lit "p=").
  rewrite app_assoc, <- app_comm_cons, split_char_app by (apply Hsep; [done|]; by apply (bool_decide_unpack _)).
  rewrite app_assoc, <- app_comm_cons, split_char_app by (apply Hsep; [done|]; by apply (bool_decide_unpack _)).
  rewrite split_char_nosep by (apply Hsep; [done|]; by apply (bool_decide_unpack _)).
  cbn [policy_parts]. unfold policy_part.
  change (lit "m=") with (lit "m" ++ [61]). change (lit "t=") with (lit "t" ++ [61]).
  change (lit "p=") with (lit "p" ++ [61]). rewrite <- !app_assoc. cbn [app].
  rewrite !split_once_app by (by apply (bool_decide_unpack _)). cbn [mbind option_bind].
  rewrite !parse_u32_decimal by done. cbn [mbind option_bind].
  repeat (match goal with |- context [bool_decide (lit ?a = lit ?b)] =>
    let v := eval vm_compute in (bool_decide (lit a = lit b)) in
    change (bool_decide (lit a = lit b)) with v end; cbn -[lit params]).
  destruct p as [m t l]. cbn -[params] in *. by rewrite Hok.
Qed.

Lemma policy_text_nodollar p : policy_u32 p → 36 ∉ policy_text p.
Proof.
  intros (Hm & Ht & Hp). unfold policy_text.
  assert (Hd : ∀ n, is_u32 n → 36 ∉ decimal n).
  { intros n Hn. by apply (digit_not _ _ (proj1 (proj2 (decimal_spec n Hn)))). }
  rewrite !not_elem_of_app. split_and!; auto; by apply (bool_decide_unpack _).
Qed.

(** Reading the stored text back. *)
Lemma verify_stored password salt policy current stored :
  policy_u32 policy → hash_password password salt policy = Some stored →
  ∃ expected, argon2_hash policy password salt = Some expected
    ∧ ∀ other out, argon2_hash policy other salt = Some out →
        verify_password other stored current = Some (bool_decide (out = expected)).
Proof.
  intros Hpolicy (expected & Hexp & <-%(inj Some))%bind_Some. exists expected. split; [done|].
  intros other out Hout. unfold verify_password.
  change (lit "argon2id$") with (lit "argon2id" ++ [36]). change (lit "$") with [36]. rewrite <- app_assoc. cbn [app].
  rewrite split_char_app by (by apply (bool_decide_unpack _)).
  rewrite split_char_app by (by apply policy_text_nodollar).
  rewrite split_char_app by apply base64_url_alphabet. rewrite split_char_nosep by apply base64_url_alphabet.
  rewrite bool_decide_true by done. cbn [negb].
  assert (params policy = true) as Hok by (unfold argon2_hash in Hexp; by destruct (params policy)).
  rewrite parse_policy_text by done. cbn [mbind option_bind]. rewrite !base64_url_decode_encode.
  cbn [mbind option_bind]. unfold argon2_hash in Hexp, Hout. rewrite Hok in Hexp, Hout.
  rewrite bool_decide_true by (by eapply argon2id_length). cbn [negb].
  unfold argon2_hash. rewrite Hok, Hout. cbn [mbind option_bind]. rewrite difference_spec; [done|].
  apply argon2id_length in Hexp, Hout. congruence.
Qed.
Lemma hash_password_verifies password salt policy current stored :
  policy_u32 policy → hash_password password salt policy = Some stored →
  verify_password password stored current = Some true.
Proof.
  intros Hp Hh. destruct (verify_stored _ _ _ current _ Hp Hh) as (expected & Hexp & Hv).
  rewrite (Hv _ _ Hexp). by rewrite bool_decide_true.
Qed.

(** A stored password hash verifies exactly.  Hashing under a policy and
    reading the stored text back recovers the policy and the salt: a password
    verifies against it exactly when Argon2id derives the same output from it
    under the same policy and salt, so the password itself always does. *)
Theorem hash_verify_roundtrip (password : str) (salt : list Z) (policy current : Argon2Policy) (stored : str)
    (Hpolicy : policy_u32 policy) (Hhash : hash_password password salt policy = Some stored) :
  verify_password password stored current = Some true
  ∧ ∀ other out, argon2_hash policy other salt = Some out →
      verify_password other stored current
      = Some (bool_decide (argon2_hash policy other salt = argon2_hash policy password salt)).
Proof.
  split; [by eapply hash_password_verifies|].
  destruct (verify_stored _ _ _ current _ Hpolicy Hhash) as (expected & Hexp & Hv).
  intros other out Hout. rewrite (Hv _ _ Hout), Hout, Hexp. f_equal. apply bool_decide_ext. naive_solver.
Qed.
End roundtrip.
