(* ===== verification/Workflows.v ===== *)
(** * Workflows: registration, login, verification and reset

    Models the services of src/crates/wasi-auth/src/postgres/workflows.rs over
    the statements of the kernel: password registration and resent
    verification mail, login, password change, email verification and password
    reset, with their request validators and the sealing of queued mail. *)

From S2P Require Export Passwords MailMessage.
Open Scope Z_scope.

#[local] Arguments lit : simpl never.

Definition VERIFICATION_TOKEN_BYTES : nat := 32.
Definition OUTBOX_NONCE_BYTES : nat := 12.
Definition EMAIL_VERIFICATION_TTL_MS : Z := 24 * 60 * 60 * 1000.
Definition IDEMPOTENCY_TTL_MS : Z := 24 * 60 * 60 * 1000.
Definition DEFAULT_SESSION_TTL_MS : Z := 60 * 60 * 1000.
Definition PASSWORD_RESET_TTL_MS : Z := 15 * 60 * 1000.
Definition MAIL_OUTBOX_AAD_V1 : list Z := str_bytes (lit "wasi-auth:email-verification:v1").

(** ** Errors *)

Inductive PasswordRegistrationError (E : Type) :=
| PrInvalidRequest | PrInvalidConfiguration | PrRandomnessUnavailable | PrCrypto | PrStore (e : PostgresStoreError E).
Arguments PrInvalidRequest {E}.
Arguments PrInvalidConfiguration {E}.
Arguments PrRandomnessUnavailable {E}.
Arguments PrCrypto {E}.
Arguments PrStore {E} e.
Inductive PasswordLoginError (E : Type) :=
| PlInvalidRequest | PlInvalidConfiguration | PlInvalidCredentials | PlRandomnessUnavailable | PlCrypto
| PlTransport (e : E) | PlRow (e : RowDecodeError) | PlContext.
Arguments PlInvalidRequest {E}.
Arguments PlInvalidConfiguration {E}.
Arguments PlInvalidCredentials {E}.
Arguments PlRandomnessUnavailable {E}.
Arguments PlCrypto {E}.
Arguments PlTransport {E} e.
Arguments PlRow {E} e.
Arguments PlContext {E}.
Inductive EmailVerificationError (E : Type) :=
| EvInvalidRequest | EvInvalidConfiguration | EvInvalidToken | EvRandomnessUnavailable
| EvTransport (e : E) | EvRow (e : RowDecodeError) | EvContext.
Arguments EvInvalidRequest {E}.
Arguments EvInvalidConfiguration {E}.
Arguments EvInvalidToken {E}.
Arguments EvRandomnessUnavailable {E}.
Arguments EvTransport {E} e.
Arguments EvRow {E} e.
Arguments EvContext {E}.
Inductive PasswordResetError (E : Type) :=
| RsInvalidRequest | RsInvalidConfiguration | RsInvalidToken | RsRandomnessUnavailable | RsCrypto
| RsTransport (e : E) | RsRow (e : RowDecodeError) | RsContext.
Arguments RsInvalidRequest {E}.
Arguments RsInvalidConfiguration {E}.
Arguments RsInvalidToken {E}.
Arguments RsRandomnessUnavailable {E}.
Arguments RsCrypto {E}.
Arguments RsTransport {E} e.
Arguments RsRow {E} e.
Arguments RsContext {E}.

(** ** Requests and their validation *)

Record PasswordRegistrationRequest := mk_registration_request {
  rr_idempotency_key : str;
  rr_actor_key : str;
  rr_request_id : str;
  rr_email : str;
  rr_password : str;
  rr_redirect_uri : str;
}.
Record EmailVerificationResendRequest := mk_resend_request {
  rs_email : str;
  rs_request_id : str;
  rs_redirect_uri : str;
}.
Record PasswordLoginRequest := mk_login_request {
  lr_email : str;
  lr_password : str;
  lr_request_id : str;
  lr_redirect_uri : str;
}.
Record PasswordChangeRequest := mk_change_request {
  cq_user_id : str;
  cq_session_id : str;
  cq_current_password : str;
  cq_new_password : str;
  cq_request_id : str;
}.
Record EmailVerificationRequest := mk_verification_request {
  vr_token : str;
  vr_request_id : str;
  vr_redirect_uri : str;
}.
Record PasswordResetStartRequest := mk_reset_start {
  sr_email : str;
  sr_redirect_uri : str;
  sr_request_id : str;
}.
Record PasswordResetCompleteRequest := mk_reset_complete {
  cr_token : str;
  cr_new_password : str;
  cr_request_id : str;
  cr_redirect_uri : str;
}.

(** The redirect conditions every validator repeats. *)
Definition bad_redirect (uri : str) : bool :=
  is_empty uri || negb (starts_with (lit "/") uri) || starts_with (lit "//") uri || existsb is_control uri.
(** [email.split_once('@').is_some_and(..)]: a local part and a dotted domain *)
Definition email_shape (email : str) : bool :=
  match split_once 64 email with
  | Some (local, domain) => negb (is_empty local) && negb (is_empty domain) && contains_char 46 domain
  | None => false
  end.
(** [!(15..=128).contains(&password.chars().count())] *)
Definition bad_new_password (password : str) : bool := negb (in_range 15 128 (Z.of_nat (length password))).
Definition bad_token (token : str) : bool :=
  (str_len (trim token) <? 32) || (512 <? str_len token) || existsb is_control token.
Definition normalized (email : str) : str := to_ascii_lowercase (trim email).

Definition validate_request {E} (r : PasswordRegistrationRequest) : result (PasswordRegistrationError E) unit :=
  let email := trim (rr_email r) in
  let valid_email := (str_len email <=? 320) && negb (existsb is_control email) && email_shape email in
  fail? negb valid_email || bad_new_password (rr_password r) || bad_redirect (rr_redirect_uri r)
    with PrInvalidRequest ;;
  Ok tt.
Definition validate_login_request {E} (r : PasswordLoginRequest) : result (PasswordLoginError E) unit :=
  let email := trim (lr_email r) in
  fail? (320 <? str_len email) || negb (bool_decide (is_Some (split_once 64 email)))
        || is_empty (lr_password r) || (128 <? Z.of_nat (length (lr_password r)))
        || bad_redirect (lr_redirect_uri r) with PlInvalidRequest ;;
  Ok tt.
Definition validate_resend_request {E} (r : EmailVerificationResendRequest) :
    result (PasswordRegistrationError E) unit :=
  let email := trim (rs_email r) in
  fail? (320 <? str_len email) || negb (email_shape email) || bad_redirect (rs_redirect_uri r)
    with PrInvalidRequest ;;
  Ok tt.
Definition validate_verification_request {E} (r : EmailVerificationRequest) :
    result (EmailVerificationError E) unit :=
  fail? bad_token (vr_token r) || bad_redirect (vr_redirect_uri r) with EvInvalidRequest ;; Ok tt.
Definition validate_reset_start {E} (r : PasswordResetStartRequest) : result (PasswordResetError E) unit :=
  let email := trim (sr_email r) in
  fail? (320 <? str_len email) || negb (email_shape email) || bad_redirect (sr_redirect_uri r)
    with RsInvalidRequest ;;
  Ok tt.
Definition validate_reset_complete {E} (r : PasswordResetCompleteRequest) : result (PasswordResetError E) unit :=
  fail? bad_token (cr_token r) || bad_new_password (cr_new_password r) || bad_redirect (cr_redirect_uri r)
    with RsInvalidRequest ;;
  Ok tt.

Definition valid_bootstrap_email (email : str) : bool :=
  if is_empty email || (320 <? str_len email) || existsb is_whitespace email then false else
  match split_once 64 email with
  | None => false
  | Some (local, domain) =>
      negb (is_empty local) && (str_len local <=? 64) && negb (is_empty domain) && contains_char 46 domain
      && negb (starts_with (lit ".") domain) && negb (ends_with (lit ".") domain)
      && negb (contains_str (lit "..") domain) && negb (contains_char 64 domain)
  end.

(** ** Receipts *)

(** [PasswordLoginReceipt], [EmailVerificationReceipt] and
    [PasswordResetReceipt] have the same fields. *)
Record SessionReceipt := mk_session_receipt {
  sn_session_id : str;
  sn_user_id : str;
  sn_expires_at_ms : Z;
  sn_redirect_uri : str;
}.
Record PasswordResetStartReceipt := mk_start_receipt { st_accepted : bool; st_expires_in_seconds : Z }.
Record PasswordLoginRecord := mk_login_record {
  lg_user_id : str;
  lg_status : str;
  lg_password_hash : str;
}.

(** The tail of the three services that open a session: the row of the
    statement, with the errors of the service. *)
Definition session_receipt {E} (missing context : E) (row_error : RowDecodeError → E) (rows : list PgRow)
    (redirect_uri : str) : result E SessionReceipt :=
  let? row := ok_or (head rows) missing in
  let? outcome := map_err row_error (required_text row (lit "outcome")) in
  fail? negb (bool_decide (outcome = lit "created")) with missing ;;
  let? session := map_err row_error (required_text row (lit "session_id")) in
  let? session := map_err (λ _, context) (identifier_new session) in
  let? user := map_err row_error (required_text row (lit "user_id")) in
  let? user := map_err (λ _, context) (identifier_new user) in
  let? expires := map_err row_error (required_i64 row (lit "expires_at_ms")) in
  let? expires := ok_or (u64_try_from expires) (row_error (WrongType (lit "timestamp"))) in
  Ok (mk_session_receipt session user expires redirect_uri).

(** ** Sealed mail *)

Record OutboxSealingKey := mk_outbox_key { ok_key_version : str; ok_key : list Z }.
(** [OutboxSealingKey::new]; [None] is [InvalidConfiguration]. *)
Definition OutboxSealingKey_new (key_version : str) (key : list Z) : option OutboxSealingKey :=
  if is_empty key_version || (128 <? str_len key_version) || existsb is_control key_version then None
  else Some (mk_outbox_key key_version key).

Record DurableMailPayloadV2 := mk_durable_mail {
  dm_version : Z;
  dm_kind : str;
  dm_recipient : str;
  dm_subject : str;
  dm_text_body : str;
  dm_html_body : str;
  dm_action_url : str;
}.
(** [serde_json::to_vec] of a mail payload and of a [json!] value. *)
Class MailCodec := {
  durable_mail_to_vec : DurableMailPayloadV2 → option (list Z);
  json_to_vec : Value → option (list Z);
}.
Definition mail_kind_name (kind : EmailKind) : str :=
  lit match kind with
      | Verification => "email_verification"
      | PasswordReset => "password_reset"
      | InvitationMail => "invitation"
      | SecurityNotification => "security_notification"
      end.

Section sealing.
Context `{TokenCrypto} `{MailCodec}.

Definition seal_with_aad (k : OutboxSealingKey) (nonce plaintext aad : list Z) : option SealedPayload :=
  ciphertext ← aead_encrypt (ok_key k) nonce aad plaintext;
  ok (SealedPayload_new (ok_key_version k) (nonce ++ ciphertext)).
Definition open_with_aad (k : OutboxSealingKey) (key_version : str) (sealed aad : list Z) : option (list Z) :=
  if negb (bool_decide (key_version = ok_key_version k)) || bool_decide (length sealed ≤ OUTBOX_NONCE_BYTES)%nat
  then None
  else aead_decrypt (ok_key k) (take OUTBOX_NONCE_BYTES sealed) aad (drop OUTBOX_NONCE_BYTES sealed).
Definition outbox_seal (k : OutboxSealingKey) (nonce plaintext : list Z) : option SealedPayload :=
  seal_with_aad k nonce plaintext MAIL_OUTBOX_AAD_V1.
Definition outbox_open (k : OutboxSealingKey) (key_version : str) (sealed : list Z) : option (list Z) :=
  open_with_aad k key_version sealed MAIL_OUTBOX_AAD_V1.

Definition durable_transactional_mail_payload (config : TransactionalMailConfig) (kind : EmailKind)
    (recipient token : str) : option (list Z) :=
  '(action_url, rendered) ← ok (render config kind token);
  durable_mail_to_vec (mk_durable_mail 2 (mail_kind_name kind) recipient (rendered_subject rendered)
    (rendered_text rendered) (rendered_html rendered) action_url).
(** The payload a service queues: rendered when mail is configured, and the
    first version otherwise. *)
Definition queued_mail {E} (invalid_configuration crypto : E) (config : option TransactionalMailConfig)
    (kind : EmailKind) (recipient token redirect_uri : str) : result E (list Z) :=
  match config with
  | Some config => ok_or (durable_transactional_mail_payload config kind recipient token) invalid_configuration
  | None =>
      ok_or (json_to_vec (VObject (bmap_of_list
        [(lit "version", VNumber (lit "1")); (lit "kind", VString (mail_kind_name kind));
         (lit "recipient", VString recipient); (lit "token", VString token);
         (lit "redirect_uri", VString redirect_uri)]))) crypto
  end.

Definition update_bounded_hash (value : list Z) : list Z := to_be_bytes (Z.of_nat (length value)) ++ value.
Definition registration_request_hash (email password redirect_uri : str) : list Z :=
  sha256 (str_bytes (lit "wasi-auth:register-password:v1") ++ [0]
          ++ update_bounded_hash (str_bytes email) ++ update_bounded_hash (str_bytes password)
          ++ update_bounded_hash (str_bytes redirect_uri)).
End sealing.

(** ** Services *)

Record PasswordRegistrationService := mk_registration_service {
  reg_argon2 : Argon2Policy;
  reg_outbox_key : OutboxSealingKey;
  reg_mail_config : option TransactionalMailConfig;
}.
Record PasswordLoginService := mk_login_service {
  login_argon2 : Argon2Policy;
  login_session_ttl_ms : Z;
}.
Record EmailVerificationService := mk_verification_service {
  ev_session_ttl_ms : Z;
  ev_bootstrap_emails : list str;
}.
Record PasswordResetService := mk_reset_service {
  rst_argon2 : Argon2Policy;
  rst_outbox_key : OutboxSealingKey;
  rst_mail_config : option TransactionalMailConfig;
  rst_session_ttl_ms : Z;
}.

(** [with_session_ttl_seconds] of the three services that open sessions. *)
Definition session_ttl_ms {E} (invalid : E) (seconds : Z) : result E Z :=
  fail? negb (in_range (5 * 60) (24 * 60 * 60) seconds) with invalid ;;
  Ok (u64_saturating_mul seconds 1000).
Definition login_with_session_ttl_seconds {E} (svc : PasswordLoginService) (seconds : Z) :
    result (PasswordLoginError E) PasswordLoginService :=
  rmap (mk_login_service (login_argon2 svc)) (session_ttl_ms PlInvalidConfiguration seconds).
Definition verification_with_session_ttl_seconds {E} (svc : EmailVerificationService) (seconds : Z) :
    result (EmailVerificationError E) EmailVerificationService :=
  rmap (λ ttl, mk_verification_service ttl (ev_bootstrap_emails svc)) (session_ttl_ms EvInvalidConfiguration seconds).
Definition reset_with_session_ttl_seconds {E} (svc : PasswordResetService) (seconds : Z) :
    result (PasswordResetError E) PasswordResetService :=
  rmap (mk_reset_service (rst_argon2 svc) (rst_outbox_key svc) (rst_mail_config svc))
    (session_ttl_ms RsInvalidConfiguration seconds).

(** The loop of [with_bootstrap_system_administrator_emails]. *)
Definition bootstrap_email {E} (accepted : list str) (email : str) : result (EmailVerificationError E) (list str) :=
  let email := to_ascii_lowercase (trim email) in
  fail? negb (valid_bootstrap_email email) with EvInvalidConfiguration ;;
  if bool_decide (email ∈ accepted) then Ok accepted
  else if bool_decide (length accepted = 100%nat) then Err EvInvalidConfiguration
  else Ok (accepted ++ [email]).
Definition with_bootstrap_system_administrator_emails {E} (svc : EmailVerificationService) (emails : list str) :
    result (EmailVerificationError E) EmailVerificationService :=
  rmap (mk_verification_service (ev_session_ttl_ms svc)) (try_fold bootstrap_email [] emails).

Section services.
Context {W TE RE : Type} `{UuidText} `{KernelWorld W TE RE} `{TokenCrypto} `{PasswordCrypto} `{MailCodec}.

(** [fill(&self.randomness, &mut bytes)] with the error of the service *)
Definition fill {E} (unavailable : E) (n : nat) : io W E (list Z) :=
  io_call (λ _, unavailable) (random_bytes n).

(** [PasswordRegistrationService::register] *)
Definition register (svc : PasswordRegistrationService) (request : PasswordRegistrationRequest) :
    io W (PasswordRegistrationError TE) RegistrationReceipt :=
  do! _ := io_lift (validate_request request) in
  do! now := io_now in
  let now_ms := u64_saturating_mul now 1000 in
  let normalized_email := normalized (rr_email request) in
  do! password_salt := fill PrRandomnessUnavailable PASSWORD_SALT_BYTES in
  do! verification_token := fill PrRandomnessUnavailable VERIFICATION_TOKEN_BYTES in
  do! outbox_nonce := fill PrRandomnessUnavailable OUTBOX_NONCE_BYTES in
  do! password_hash := io_lift (ok_or (hash_password (rr_password request) password_salt (reg_argon2 svc)) PrCrypto) in
  let token_text := base64_url_encode verification_token in
  do! mail_payload := io_lift (queued_mail PrInvalidConfiguration PrCrypto (reg_mail_config svc) Verification
                                 normalized_email token_text (rr_redirect_uri request)) in
  do! outbox_payload := io_lift (ok_or (outbox_seal (reg_outbox_key svc) outbox_nonce mail_payload) PrCrypto) in
  do! user_id := uuid_v7 PrRandomnessUnavailable now_ms in
  do! outbox_id := uuid_v7 PrRandomnessUnavailable now_ms in
  do! audit_id := uuid_v7 PrRandomnessUnavailable now_ms in
  let request_hash := registration_request_hash normalized_email (rr_password request) (rr_redirect_uri request) in
  do! context := io_lift (map_err (λ _, PrInvalidRequest)
    (CommandContext_new (rr_idempotency_key request) (rr_actor_key request) request_hash (rr_request_id request)
       now_ms (u64_saturating_add now_ms IDEMPOTENCY_TTL_MS))) in
  let command := mk_register_command context user_id normalized_email (trim (rr_email request)) password_hash
    (sha256 (str_bytes token_text)) (rr_redirect_uri request)
    (u64_saturating_add now_ms EMAIL_VERIFICATION_TTL_MS) outbox_id
    (lit "email-verification:" ++ uuid_to_string user_id ++ lit ":v1") outbox_payload audit_id
    (VObject [(lit "channel", VString (lit "password"))]) in
  io_call PrStore (store_register_password command).

(** [PasswordRegistrationService::resend_verification] *)
Definition resend_verification (svc : PasswordRegistrationService) (request : EmailVerificationResendRequest) :
    io W (PasswordRegistrationError TE) unit :=
  do! _ := io_lift (validate_resend_request request) in
  do! now := io_now in
  let now_ms := u64_saturating_mul now 1000 in
  let normalized_email := normalized (rs_email request) in
  do! token := fill PrRandomnessUnavailable VERIFICATION_TOKEN_BYTES in
  do! nonce := fill PrRandomnessUnavailable OUTBOX_NONCE_BYTES in
  let token_text := base64_url_encode token in
  do! mail_payload := io_lift (queued_mail PrInvalidConfiguration PrCrypto (reg_mail_config svc) Verification
                                 normalized_email token_text (rs_redirect_uri request)) in
  do! sealed := io_lift (ok_or (outbox_seal (reg_outbox_key svc) nonce mail_payload) PrCrypto) in
  do! outbox_id := uuid_v7 PrRandomnessUnavailable now_ms in
  do! audit_id := uuid_v7 PrRandomnessUnavailable now_ms in
  let email_hash := base64_url_encode (sha256 (str_bytes normalized_email)) in
  do! _ := io_call (λ e, PrStore (StoreTransport e)) (pg_query RESEND_EMAIL_VERIFICATION_SQL
    [PgText normalized_email; PgBytes (sha256 (str_bytes token_text)); PgText (rs_redirect_uri request);
     PgI64 (u64_to_i64 (u64_saturating_add now_ms EMAIL_VERIFICATION_TTL_MS));
     PgText (uuid_to_string outbox_id);
     PgText (lit "email-verification-resend:" ++ uuid_to_string outbox_id);
     PgText (sp_key_version sealed); PgBytes (sp_ciphertext sealed); PgText (uuid_to_string audit_id);
     PgText (rs_request_id request); PgI64 (u64_to_i64 now_ms); PgText (lit "verification-resend:" ++ email_hash)]) in
  io_lift (Ok tt).

(** [rows.first().map(..).transpose()] of [load_record] and [load_record_by_user] *)
Definition login_record (rows : list PgRow) : result (PasswordLoginError TE) (option PasswordLoginRecord) :=
  match rows with
  | [] => Ok None
  | row :: _ =>
      let? user := map_err PlRow (required_text row (lit "user_id")) in
      let? user := map_err (λ _, PlContext) (identifier_new user) in
      let? status := map_err PlRow (required_text row (lit "status")) in
      let? hash := map_err PlRow (required_text row (lit "password_hash")) in
      Ok (Some (mk_login_record user status hash))
  end.
Definition load_record (normalized_email : str) : io W (PasswordLoginError TE) (option PasswordLoginRecord) :=
  do! rows := io_call PlTransport (pg_query LOAD_PASSWORD_LOGIN_SQL [PgText normalized_email]) in
  io_lift (login_record rows).
Definition load_record_by_user (user_id : str) : io W (PasswordLoginError TE) (option PasswordLoginRecord) :=
  do! rows := io_call PlTransport (pg_query LOAD_PASSWORD_BY_USER_SQL [PgText user_id]) in
  io_lift (login_record rows).
(** The credential check of [login] and [change_password]: the dummy hash is
    verified when there is no account, and every refusal is the same. *)
Definition check_credentials (policy : Argon2Policy) (password : str) (record : option PasswordLoginRecord) :
    result (PasswordLoginError TE) PasswordLoginRecord :=
  let candidate_hash := match record with Some r => lg_password_hash r | None => DUMMY_PASSWORD_HASH end in
  let? verified := ok_or (verify_password password candidate_hash policy) PlCrypto in
  let? record := ok_or record PlInvalidCredentials in
  fail? negb verified || negb (bool_decide (lg_status record = lit "active")) with PlInvalidCredentials ;;
  Ok record.

(** [PasswordLoginService::login] *)
Definition login (svc : PasswordLoginService) (request : PasswordLoginRequest) :
    io W (PasswordLoginError TE) SessionReceipt :=
  do! _ := io_lift (validate_login_request request) in
  let normalized_email := normalized (lr_email request) in
  do! record := load_record normalized_email in
  do! record := io_lift (check_credentials (login_argon2 svc) (lr_password request) record) in
  do! now := io_now in
  let now_ms := u64_saturating_mul now 1000 in
  do! session_id := uuid_v7 PlRandomnessUnavailable now_ms in
  do! audit_id := uuid_v7 PlRandomnessUnavailable now_ms in
  let expires_at_ms := u64_saturating_add now_ms (login_session_ttl_ms svc) in
  do! rows := io_call PlTransport (pg_query ISSUE_PASSWORD_SESSION_SQL
    [PgText (lg_user_id record); PgText normalized_email; PgText (lg_password_hash record);
     PgText (uuid_to_string session_id); PgI64 (u64_to_i64 expires_at_ms); PgI64 (u64_to_i64 now_ms);
     PgText (uuid_to_string audit_id); PgText (lr_request_id request)]) in
  io_lift (session_receipt PlInvalidCredentials PlContext PlRow rows (lr_redirect_uri request)).

(** [PasswordLoginService::change_password] *)
Definition service_change_password (svc : PasswordLoginService) (request : PasswordChangeRequest) :
    io W (PasswordLoginError TE) unit :=
  fail! is_empty (cq_current_password request) || bad_new_password (cq_new_password request)
        || bool_decide (cq_current_password request = cq_new_password request) with PlInvalidRequest ;;
  do! record := load_record_by_user (cq_user_id request) in
  do! record := io_lift (check_credentials (login_argon2 svc) (cq_current_password request) record) in
  do! now := io_now in
  let now_ms := u64_saturating_mul now 1000 in
  do! salt := fill PlRandomnessUnavailable PASSWORD_SALT_BYTES in
  do! new_hash := io_lift (ok_or (hash_password (cq_new_password request) salt (login_argon2 svc)) PlCrypto) in
  do! audit_id := uuid_v7 PlRandomnessUnavailable now_ms in
  do! rows := io_call PlTransport (pg_query CHANGE_PASSWORD_SQL
    [PgText (cq_user_id request); PgText (cq_session_id request); PgText (lg_password_hash record);
     PgText new_hash; PgI64 (u64_to_i64 now_ms); PgText (uuid_to_string audit_id);
     PgText (cq_request_id request)]) in
  if bool_decide ((head rows ≫= λ row, ok (required_text row (lit "outcome"))) = Some (lit "changed"))
  then io_lift (Ok tt) else io_lift (Err PlInvalidCredentials).

(** [EmailVerificationService::verify] *)
Definition verify_email_token (svc : EmailVerificationService) (request : EmailVerificationRequest) :
    io W (EmailVerificationError TE) SessionReceipt :=
  do! _ := io_lift (validate_verification_request request) in
  do! now := io_now in
  let now_ms := u64_saturating_mul now 1000 in
  let expires_at_ms := u64_saturating_add now_ms (ev_session_ttl_ms svc) in
  do! session_id := uuid_v7 EvRandomnessUnavailable now_ms in
  do! audit_id := uuid_v7 EvRandomnessUnavailable now_ms in
  let token_hash := sha256 (str_bytes (trim (vr_token request))) in
  do! rows := io_call EvTransport (pg_query VERIFY_EMAIL_SQL
    [PgBytes token_hash; PgI64 (u64_to_i64 now_ms); PgText (uuid_to_string session_id);
     PgI64 (u64_to_i64 expires_at_ms); PgText (uuid_to_string audit_id); PgText (vr_request_id request);
     PgJson (VArray (map VString (ev_bootstrap_emails svc)))]) in
  io_lift (session_receipt EvInvalidToken EvContext EvRow rows (vr_redirect_uri request)).

(** [PasswordResetService::start] and [PasswordResetService::complete] *)
Definition reset_start (svc : PasswordResetService) (request : PasswordResetStartRequest) :
    io W (PasswordResetError TE) PasswordResetStartReceipt :=
  do! _ := io_lift (validate_reset_start request) in
  let normalized_email := normalized (sr_email request) in
  do! now := io_now in
  let now_ms := u64_saturating_mul now 1000 in
  do! raw_token := fill RsRandomnessUnavailable VERIFICATION_TOKEN_BYTES in
  do! outbox_nonce := fill RsRandomnessUnavailable OUTBOX_NONCE_BYTES in
  let token := base64_url_encode raw_token in
  do! outbox_id := uuid_v7 RsRandomnessUnavailable now_ms in
  do! audit_id := uuid_v7 RsRandomnessUnavailable now_ms in
  do! payload := io_lift (queued_mail RsInvalidConfiguration RsCrypto (rst_mail_config svc) PasswordReset
                            normalized_email token (sr_redirect_uri request)) in
  do! sealed := io_lift (ok_or (outbox_seal (rst_outbox_key svc) outbox_nonce payload) RsCrypto) in
  do! _ := io_call RsTransport (pg_query START_PASSWORD_RESET_SQL
    [PgText normalized_email; PgBytes (sha256 (str_bytes token)); PgText (sr_redirect_uri request);
     PgI64 (u64_to_i64 (u64_saturating_add now_ms PASSWORD_RESET_TTL_MS)); PgText (uuid_to_string outbox_id);
     PgText (lit "password-reset:" ++ uuid_to_string outbox_id); PgText (sp_key_version sealed);
     PgBytes (sp_ciphertext sealed); PgText (uuid_to_string audit_id); PgText (sr_request_id request);
     PgI64 (u64_to_i64 now_ms)]) in
  io_lift (Ok (mk_start_receipt true (PASSWORD_RESET_TTL_MS / 1000))).
Definition reset_complete (svc : PasswordResetService) (request : PasswordResetCompleteRequest) :
    io W (PasswordResetError TE) SessionReceipt :=
  do! _ := io_lift (validate_reset_complete request) in
  do! now := io_now in
  let now_ms := u64_saturating_mul now 1000 in
  do! salt := fill RsRandomnessUnavailable PASSWORD_SALT_BYTES in
  do! password_hash := io_lift (ok_or (hash_password (cr_new_password request) salt (rst_argon2 svc)) RsCrypto) in
  do! session_id := uuid_v7 RsRandomnessUnavailable now_ms in
  do! audit_id := uuid_v7 RsRandomnessUnavailable now_ms in
  do! rows := io_call RsTransport (pg_query COMPLETE_PASSWORD_RESET_SQL
    [PgBytes (sha256 (str_bytes (trim (cr_token request)))); PgI64 (u64_to_i64 now_ms); PgText password_hash;
     PgText (uuid_to_string session_id); PgI64 (u64_to_i64 (u64_saturating_add now_ms (rst_session_ttl_ms svc)));
     PgText (uuid_to_string audit_id); PgText (cr_request_id request)]) in
  io_lift (session_receipt RsInvalidToken RsContext RsRow rows (cr_redirect_uri request)).
End services.
