(* ===== verification/TokenProofs.v ===== *)
(** * TokenProofs: what issuing, refreshing and verifying guarantee

    A refresh that succeeds was allowed by a live session and a token of the
    right family, and every success for one refresh token returns the same
    pair; an access token lives at most its configured time and never longer
    than its session; a verified token states exactly the facts of the
    database at some moment of the call, also when they come from a cache. *)

From S2P Require Export TokenService.
Open Scope Z_scope.

#[local] Arguments lit : simpl never.

(** What the service relies on of its libraries. *)
Class TokenCryptoLaws `{TokenCrypto} `{ResponseCodec} : Prop := {
  aead_decrypt_encrypt key nonce aad m c :
    aead_encrypt key nonce aad m = Some c → aead_decrypt key nonce aad c = Some m;
  (** The authentication tag. *)
  aead_tag key nonce aad m c : aead_encrypt key nonce aad m = Some c → c ≠ [];
  response_round_trip tokens bytes :
    response_to_vec tokens = Some bytes → response_from_slice bytes = Some tokens;
}.

Lemma open_seal `{TokenCryptoLaws} k nonce m sealed :
  length nonce = NONCE_BYTES → seal k nonce m = Some sealed →
  open_sealed k (sk_version k) sealed = Some m.
Proof.
  intros Hn (c & Hc & [= <-])%bind_Some. unfold open_sealed.
  rewrite bool_decide_true by done. rewrite bool_decide_false.
  - cbn [negb orb]. rewrite <- Hn, take_app_length, drop_app_length. by eapply aead_decrypt_encrypt.
  - rewrite length_app, Hn. apply aead_tag in Hc. destruct c; [done|]. unfold NONCE_BYTES in *. cbn [length] in *. lia.
Qed.

Lemma uuid_to_string_inj `{UuidText} u1 u2 : uuid_to_string u1 = uuid_to_string u2 → u1 = u2.
Proof.
  intros Heq. pose proof (uuid_parse_to_string u1) as E1. rewrite Heq, uuid_parse_to_string in E1. by injection E1.
Qed.

Section proofs.
Context {W TE RE : Type} `{KernelWorldLaws W TE RE} `{JwtLibrary} `{TokenCrypto} `{ResponseCodec}.
#[local] Set Default Proof Using "Type*".

(** ** Loading a session *)

Lemma exec_load_context session now key d out d' :
  kernel_exec LOAD_REQUEST_CONTEXT_SQL [PgText session; PgI64 now; PgText key] d = Some (out, d') →
  d' = d ∧ ∃ id, uuid_parse_str session = Some id
    ∧ out = opt_rows context_columns (load_request_context id now key d).
Proof. cbn. intros (id & ? & [= <- <-])%bind_Some. eauto. Qed.
Lemma exec_load_fingerprint session now key d out d' :
  kernel_exec LOAD_REQUEST_FINGERPRINT_SQL [PgText session; PgI64 now; PgText key] d = Some (out, d') →
  d' = d ∧ ∃ id, uuid_parse_str session = Some id
    ∧ out = opt_rows (λ c, PgRow_new (fingerprint_columns c)) (load_request_fingerprint id now key d).
Proof. cbn. intros (id & ? & [= <- <-])%bind_Some. eauto. Qed.
Lemma opt_rows_head {A} (f : A → PgRow) o row : head (opt_rows f o) = Some row → ∃ a, o = Some a ∧ row = f a.
Proof. destruct o; cbn; naive_solver. Qed.

Lemma load_with_key_Ok session request_id now key w vs w' :
  load_verified_session_with_signing_key session request_id now key w = (Ok vs, w') →
  ∃ d id c, rtc kstep (database w) d ∧ rtc kstep d (database w') ∧ uuid_parse_str session = Some id
    ∧ load_request_context id (u64_to_i64 (u64_saturating_mul now 1000)) key d = Some c
    ∧ verified_session (context_columns c) request_id = Ok vs.
Proof.
  unfold load_verified_session_with_signing_key. cbv zeta. intros E. run_inv E.
  match goal with Q : pg_query _ _ _ = _ |- _ => apply pg_query_Ok in Q as (d1 & d2 & Hd1 & Hex & Hd2) end.
  apply exec_load_context in Hex as (-> & id & Hid & ->).
  match goal with Hh : head _ = Some _ |- _ => apply opt_rows_head in Hh as (c & Hc & ->) end. eauto 10.
Qed.
Lemma ksafe_load session request_id now : ksafe (load_verified_session session request_id now).
Proof.
  unfold load_verified_session, load_verified_session_with_signing_key. cbv zeta.
  apply ksafe_bind; [eauto with wauth|intros]. apply ksafe_bind; eauto with wauth.
Qed.
Lemma ksafe_uuid now : ksafe (service_uuid now).
Proof. apply ksafe_uuid_v7. Qed.
Lemma ksafe_opaque : ksafe opaque_token.
Proof. unfold opaque_token. apply ksafe_bind; eauto with wauth. Qed.
Lemma ksafe_token_pair svc session refresh now : ksafe (token_pair svc session refresh now).
Proof.
  unfold token_pair. cbv zeta. destruct (_ <=? _); [apply ksafe_lift|].
  apply ksafe_bind; [apply ksafe_uuid|intros]. repeat (apply ksafe_bind; [apply ksafe_lift|intros]). apply ksafe_lift.
Qed.

(** ** Access tokens *)

Lemma token_pair_Ok svc session refresh now w tokens w' :
  token_pair svc session refresh now w = (Ok tokens, w') →
  ∃ key ek jti expires_at,
    let claims := session_claims (svc_config svc) session expires_at now jti in
    active (svc_keys svc) = Some key ∧ key_encoding key = Some ek
    ∧ encode_access_token claims ek (key_algorithm key) (Some (key_kid key)) = Ok (tp_access_token tokens)
    ∧ expires_at = Z.min (u64_saturating_add now (tc_access_ttl_seconds (svc_config svc)))
                     (ctx_expires_at (rc_auth (vs_context session)))
    ∧ now < expires_at
    ∧ tokens = mk_pair (tp_access_token tokens) refresh (u64_saturating_sub expires_at now).
Proof.
  unfold token_pair. cbv zeta. intros E. run_inv E. injection E as <-.
  eexists _, _, _, _. cbn. split_and!; [done|done|done|done| |done]. by apply Z.leb_gt.
Qed.

(** An access token lives at most as long as the policy and its session
    allow.  Under a validated policy, every pair that is made at [now] carries
    an access token signed by the active key whose claims name the session,
    its user, organization, roles and permissions, whose lifetime is the
    [expires_in] of the pair, between one second and the configured time (at
    most one hour), and whose expiry is not after the expiry of the session. *)
Theorem access_token_lifetime_bounded (svc : TokenService) (session : VerifiedSession) (refresh_token : str)
    (now : Z) (w w' : W) (tokens : TokenPair) (issuer audience : str) (access refresh_ttl session_ttl : Z)
    (Hconfig : TokenServiceConfig_new issuer audience access refresh_ttl session_ttl = Ok (svc_config svc))
    (Hpair : token_pair svc session refresh_token now w = (Ok tokens, w')) :
  ∃ key ek claims,
    active (svc_keys svc) = Some key ∧ key_encoding key = Some ek
    ∧ encode_access_token claims ek (key_algorithm key) (Some (key_kid key)) = Ok (tp_access_token tokens)
    ∧ cl_iat claims = now ∧ cl_exp claims = now + tp_expires_in_seconds tokens
    ∧ 1 ≤ tp_expires_in_seconds tokens ≤ access ∧ access ≤ 3600
    ∧ cl_exp claims ≤ ctx_expires_at (rc_auth (vs_context session))
    ∧ cl_iss claims = issuer ∧ cl_aud claims = [audience]
    ∧ cl_sub claims = p_user_id (principal (rc_auth (vs_context session)))
    ∧ cl_session_id claims = Some (ctx_session_id (rc_auth (vs_context session)))
    ∧ cl_tenant_id claims = ctx_organization_id (rc_auth (vs_context session))
    ∧ cl_roles claims = snap_role_ids (rc_authorization (vs_context session))
    ∧ cl_scope claims = snap_permissions (rc_authorization (vs_context session))
    ∧ tp_refresh_token tokens = refresh_token.
Proof.
  apply fail_Ok in Hconfig as [Hc [= Hcfg]]. bprop. destruct Hc as [[[_ Ha] _] _]. unfold in_range in Ha.
  apply andb_true_iff in Ha as [_ Ha%Z.leb_le].
  apply token_pair_Ok in Hpair as (key & ek & jti & ex & Hk & Hek & Henc & Hex & Hlt & ->).
  exists key, ek, (session_claims (svc_config svc) session ex now jti). rewrite <- Hcfg in *. cbn in *.
  unfold u64_saturating_sub, u64_saturating_add in *. split_and!; try done; lia.
Qed.

(** ** Refreshing *)

Lemma exec_refresh_session hash d out d' :
  kernel_exec LOAD_REFRESH_SESSION_SQL [PgBytes hash] d = Some (out, d') →
  d' = d ∧ out = opt_rows (λ s, PgRow_new [(lit "session_id", PgText (uuid_to_string s))])
                   (load_refresh_session hash d).
Proof. cbn. intros [= <- <-]. done. Qed.

Definition bound_uuid (bound : option str) (b : option Uuid) : Prop :=
  match bound with None => b = None | Some s => ∃ u, uuid_parse_str s = Some u ∧ b = Some u end.

(** The arguments of the rotation the service asks for. *)
Definition rotate_args (svc : TokenService) (current : list Z) (b : option Uuid) (tokens : TokenPair)
    (sealed : list Z) (now : Z) (rotation_audit reuse_audit : Uuid) (request_id : str) : RotateArgs :=
  let now_ms := u64_saturating_mul now 1000 in
  mk_rotate current b (sha256 (str_bytes (tp_refresh_token tokens))) (sk_version (svc_sealing_key svc)) sealed
    (u64_to_i64 (u64_saturating_add now_ms REPLAY_WINDOW_MS)) (u64_to_i64 now_ms)
    (u64_to_i64 (u64_saturating_mul (u64_saturating_add now (tc_refresh_ttl_seconds (svc_config svc))) 1000))
    rotation_audit reuse_audit request_id
    (u64_to_i64 (u64_saturating_mul (u64_saturating_add now (tc_session_ttl_seconds (svc_config svc))) 1000)).

Lemma exec_rotate svc current bound tokens sealed now a1 a2 rid d out d' :
  kernel_exec ROTATE_REFRESH_TOKEN_SQL (rotate_parameters svc current bound tokens sealed now a1 a2 rid) d
    = Some (out, d') →
  ∃ b o, bound_uuid bound b
    ∧ rotate_refresh_token (rotate_args svc current b tokens sealed now a1 a2 rid) d = Some (o, d')
    ∧ out = [rotate_columns (rotate_args svc current b tokens sealed now a1 a2 rid) o].
Proof.
  unfold rotate_parameters. cbv zeta. cbn [kernel_exec].
  intros (b & Hb & E)%bind_Some. rewrite !uuid_parse_to_string in E. cbn [mbind option_bind] in E.
  cbv zeta in E. apply bind_Some in E as ([o d2] & Ho & [= <- <-]).
  exists b, o. split_and!; [|done|done].
  destruct bound as [s|]; cbn in Hb; [|by simplify_eq].
  destruct (uuid_parse_str s) as [u|] eqn:Eu; cbn in Hb; simplify_eq. by exists u.
Qed.

Lemma rotate_columns_outcome a o :
  required_text (rotate_columns a o) (lit "outcome")
  = Ok (lit match o with
            | Rotated => "rotated" | Replayed _ _ => "replayed" | ReuseDetected => "reuse_detected"
            | InvalidRefresh => "invalid"
            end).
Proof. by destruct o. Qed.
Lemma decode_replay_columns svc a v c :
  decode_replay (TE := TE) svc (rotate_columns a (Replayed v c))
  = (let? plaintext := ok_or (open_sealed (svc_sealing_key svc) v c) TsCrypto in
     ok_or (response_from_slice plaintext) TsCrypto).
Proof. reflexivity. Qed.

(** How a refresh succeeds. *)
Lemma refresh_Ok svc bound refresh_token request_id w tokens w' :
  refresh svc bound refresh_token request_id w = (Ok tokens, w') →
  ∃ d1 d2 b fresh nonce bytes sealed now a1 a2 o,
    let a := rotate_args svc (sha256 (str_bytes refresh_token)) b fresh sealed now a1 a2 request_id in
    rtc kstep (database w) d1 ∧ rtc kstep d2 (database w') ∧ bound_uuid bound b
    ∧ length nonce = NONCE_BYTES ∧ response_to_vec fresh = Some bytes
    ∧ seal (svc_sealing_key svc) nonce bytes = Some sealed
    ∧ rotate_refresh_token a d1 = Some (o, d2)
    ∧ ((o = Rotated ∧ tokens = fresh)
       ∨ ∃ v c plaintext, o = Replayed v c ∧ open_sealed (svc_sealing_key svc) v c = Some plaintext
           ∧ response_from_slice plaintext = Some tokens).
Proof.
  unfold refresh. cbv zeta. intros E. run_inv E.
  match goal with Q : pg_query ROTATE_REFRESH_TOKEN_SQL _ _ = (Ok ?out, _), Hh : head ?out = Some ?row,
      Ho : required_text ?row _ = Ok _ |- _ =>
    apply pg_query_Ok in Q as (d1 & d2 & Hd1 & Hex & Hd2);
    apply exec_rotate in Hex as (b & o & Hb & Hrot & ->); injection Hh as <-;
    rewrite rotate_columns_outcome in Ho; injection Ho as <- end.
  eexists d1, d2, b, _, _, _, _, _, _, _, o. cbv zeta. split_and!; [|done|done| |done|done|done|].
  - etrans; [by eapply pg_query_steps|]. etrans; [by eapply ksafe_now|]. etrans; [by eapply ksafe_load|].
    etrans; [by eapply ksafe_opaque|]. etrans; [by eapply ksafe_token_pair|].
    etrans; [by eapply random_bytes_steps|]. etrans; [by eapply ksafe_uuid|]. by etrans; [eapply ksafe_uuid|].
  - by eapply random_bytes_length.
  - destruct o; lit_decide E; try discriminate E.
    + left. by simplify_eq.
    + right. rewrite decode_replay_columns in E. apply rbind_Ok in E as (p & Hp%ok_or_Ok & Hq%ok_or_Ok). eauto 10.
Qed.

(** A refresh that succeeds was allowed.  Whatever other statements run
    during the call, there is one moment at which the presented token was in
    the table and unrevoked, its session (the bound one, when the caller is
    bound to a session) was live for an active user at the clock of the call,
    and either the token was unspent and unexpired and was rotated into the
    returned pair, sealed with it for replay, or it had been rotated at most
    thirty seconds before and the pair is the one its row has sealed. *)
Theorem refresh_was_allowed (svc : TokenService) (bound : option str) (refresh_token request_id : str)
    (w w' : W) (tokens : TokenPair)
    (Hrun : refresh svc bound refresh_token request_id w = (Ok tokens, w')) :
  ∃ d1 d2 now r s u,
    let hash := sha256 (str_bytes refresh_token) in
    let now_ms := u64_to_i64 (u64_saturating_mul now 1000) in
    rtc kstep (database w) d1 ∧ rtc kstep d2 (database w')
    ∧ refresh_tokens d1 !! hash = Some r ∧ sessions d1 !! rt_session r = Some s
    ∧ users d1 !! s_user s = Some u
    ∧ rt_revoked_at_ms r = None ∧ live_session now_ms s u = true
    ∧ (∀ b, bound = Some b → uuid_parse_str b = Some (rt_session r))
    ∧ ((rt_rotated_at_ms r = None ∧ now_ms < rt_expires_at_ms r
        ∧ ∃ nonce bytes sealed r', refresh_tokens d2 !! hash = Some r'
            ∧ rt_rotated_at_ms r' = Some now_ms ∧ rt_successor_ciphertext r' = Some sealed
            ∧ rt_successor_hash r' = Some (sha256 (str_bytes (tp_refresh_token tokens)))
            ∧ response_to_vec tokens = Some bytes ∧ seal (svc_sealing_key svc) nonce bytes = Some sealed)
       ∨ (d2 = d1 ∧ rt_rotated_at_ms r ≠ None ∧ ∃ v c t plaintext,
            rt_successor_key_version r = Some v ∧ rt_successor_ciphertext r = Some c
            ∧ rt_replay_until_ms r = Some t ∧ now_ms ≤ t
            ∧ open_sealed (svc_sealing_key svc) v c = Some plaintext
            ∧ response_from_slice plaintext = Some tokens)).
Proof.
  apply refresh_Ok in Hrun as (d1 & d2 & b & fresh & nonce & bytes & sealed & now & a1 & a2 & o & Hrun).
  cbv zeta in Hrun. destruct Hrun as (Hd1 & Hd2 & Hb & Hn & Hv & Hs & Hrot & Hcase).
  set (a := rotate_args _ _ _ _ _ _ _ _ _) in *.
  assert (Hbound : ∀ r s u, current_token a d1 = Some (r, s, u) →
    ∀ b', bound = Some b' → uuid_parse_str b' = Some (rt_session r)).
  { intros r s u (_ & _ & _ & Hbr)%current_token_Some b' ->. destruct Hb as (u' & Hu & ->).
    rewrite Hu. by rewrite <- (Hbr u'). }
  destruct Hcase as [[-> ->]|(v & c & p & -> & Hop & Hpt)].
  - apply rotate_rotated in Hrot as (r & s & u & Hc & Hr & Ht). pose proof (Hbound _ _ _ Hc) as Hbd.
    apply current_token_Some in Hc as (Htok & Hses & Hu & _). apply rotatable_spec in Hr as (? & ? & ? & ?).
    apply rotate_token_lookup in Ht. exists d1, d2, now, r, s, u. cbv zeta. split_and!; try done.
    left. split_and!; try done. by exists nonce, bytes, sealed, (rotate_row a r).
  - apply rotate_replayed in Hrot as (r & s & u & Hc & Hr & ->). pose proof (Hbound _ _ _ Hc) as Hbd.
    apply current_token_Some in Hc as (Htok & Hses & Hu & _).
    apply replayable_spec in Hr as (? & ? & ? & (t & ? & ?) & ? & ?).
    exists d1, d1, now, r, s, u. cbv zeta. split_and!; try done. right. split_and!; try done. by exists v, c, t, p.
Qed.
End proofs.

Section agreement.
Context {W TE RE : Type} `{KernelWorldLaws W TE RE} `{JwtLibrary} `{TokenCryptoLaws}.
#[local] Set Default Proof Using "Type*".

(** Every success for one refresh token returns the same pair.  However
    the calls and the other statements of the kernel interleave, and whatever
    sessions the callers are bound to, two refreshes of the same token that
    both succeed, the second starting after the first returned, yield the same
    access token, refresh token and lifetime: a token is exchanged once. *)
Theorem refreshes_agree (svc : TokenService) (b1 b2 : option str) (refresh_token r1 r2 : str)
    (w1 w1' w2 w2' : W) (t1 t2 : TokenPair)
    (Hfirst : refresh svc b1 refresh_token r1 w1 = (Ok t1, w1'))
    (Hsteps : rtc kstep (database w1') (database w2))
    (Hsecond : refresh svc b2 refresh_token r2 w2 = (Ok t2, w2')) :
  t2 = t1.
Proof.
  apply refresh_Ok in Hfirst as (d1 & d2 & b & fresh & nonce & bytes & sealed & now & a1 & a2 & o & Hf).
  apply refresh_Ok in Hsecond as (e1 & e2 & b' & fresh' & nonce' & bytes' & sealed' & now' & a1' & a2' & o' & Hg).
  cbv zeta in Hf, Hg. destruct Hf as (_ & Hd2 & _ & Hn & Hv & Hs & Hrot & Hcase).
  destruct Hg as (He1 & _ & _ & _ & _ & _ & Hrot' & Hcase').
  assert (Hde : rtc kstep d2 e1) by (etrans; [done|]; by etrans).
  destruct Hcase as [[-> ->]|(v & c & p & -> & Hop & Hpt)].
  - destruct (rotated_row_kept _ _ _ _ Hrot Hde) as (r & Hr & Hro & Hkv & Hct & _).
    eapply rotated_token_spent in Hrot' as [Hne Hrep]; [|exact Hr|congruence].
    destruct Hcase' as [[-> _]|(v & c & p & -> & Hop & Hpt)]; [done|].
    destruct (Hrep v c eq_refl) as (Hv2 & Hc2 & _). assert (v = sk_version (svc_sealing_key svc)) as -> by (cbn in *; congruence).
    assert (c = sealed) as -> by (cbn in *; congruence). rewrite (open_seal _ _ _ _ Hn Hs) in Hop. injection Hop as <-.
    rewrite (response_round_trip _ _ Hv) in Hpt. by injection Hpt.
  - apply rotate_replayed in Hrot as (r & s & u & (Ht & _)%current_token_Some & Hr & ->).
    apply replayable_spec in Hr as (Hro & _ & _ & _ & Hkv & Hct).
    destruct (ksteps_refresh _ _ _ _ Hde Ht) as (r' & Ht' & Hev).
    destruct Hev as (_ & _ & _ & Hsame & _). destruct (Hsame Hro) as (Hro' & _ & Hkv' & Hct' & _).
    eapply rotated_token_spent in Hrot' as [Hne Hrep]; [|exact Ht'|congruence].
    destruct Hcase' as [[-> _]|(v' & c' & p' & -> & Hop' & Hpt')]; [done|].
    destruct (Hrep v' c' eq_refl) as (? & ? & _). congruence.
Qed.
End agreement.

(** ** Verification *)

Section verification.
Context {W TE RE : Type} `{KernelWorldLaws W TE RE} `{JwtLibrary} `{TokenCrypto}.
#[local] Set Default Proof Using "Type*".

(** The verified token that a row of the database justifies. *)
Definition token_of_row (claims : AccessTokenClaims) (session_id : str) (c : ContextRow) : VerifiedAccessToken :=
  mk_verified_token (uuid_to_string (cr_user c)) (uuid_to_string <$> cr_organization c) session_id
    (bset_of_list (cr_permissions c)) (option_list (cr_role c)) (cr_policy_revision c)
    (assurance_label (assurance_level (cr_assurance c))) (cr_system_administrator c)
    (cl_iat claims) (cl_exp claims) (fingerprint_of c).

(** What the rows say of the selected organization of [s]: none, and then no
    role and no permission; or an active one in which the user of the session
    is an active member, with its role and the permissions of that role. *)
Definition role_granted (d : Db) (s : SessionRow) (roles permissions : list str) : Prop :=
  match s_organization s with
  | None => roles = [] ∧ permissions = []
  | Some org =>
      ∃ o m, organizations (directory d) !! org = Some o ∧ o_active o = true
        ∧ memberships (directory d) !! (org, s_user s) = Some m ∧ m_status m = MActive
        ∧ roles = [m_role m]
        ∧ ∀ p, p ∈ permissions ↔
            ∃ granted, granted_permissions (directory d) !! (org, m_role m) = Some granted ∧ p ∈ granted
  end.
(** The rows at [now_ms] that justify [vt] for the token [decoded]. *)
Definition token_true (decoded : DecodedAccessToken) (now_ms : Z) (d : Db) (vt : VerifiedAccessToken) : Prop :=
  ∃ id s u key, uuid_parse_str (dt_session_id decoded) = Some id
    ∧ sessions d !! id = Some s ∧ users d !! s_user s = Some u
    ∧ (s_revoked_at_ms s = None ∧ now_ms < s_expires_at_ms s
       ∧ s_user_security_revision s = u_security_revision u ∧ u_status u = UActive)
    ∧ (signing_keys (directory d) !! dt_kid decoded = Some key ∧ (key = KeyActive ∨ key = KeyRetired))
    ∧ (cl_sub (dt_claims decoded) = uuid_to_string (s_user s)
       ∧ cl_tenant_id (dt_claims decoded) = uuid_to_string <$> s_organization s)
    ∧ (vt_user_id vt = uuid_to_string (s_user s)
       ∧ vt_organization_id vt = uuid_to_string <$> s_organization s
       ∧ vt_session_id vt = dt_session_id decoded
       ∧ vt_assurance vt = match s_assurance s with DbAal1 => lit "aal1" | _ => lit "aal2" end
       ∧ vt_policy_revision vt = active_policy (directory d)
       ∧ vt_system_administrator vt = default false (administrators (directory d) !! s_user s)
       ∧ vt_issued_at_seconds vt = cl_iat (dt_claims decoded)
       ∧ vt_expires_at_seconds vt = cl_exp (dt_claims decoded))
    ∧ role_granted d s (vt_role_ids vt) (vt_permissions vt).

(** The token is a token of the ring: signed under a key that is not revoked
    there, for the issuer and the audience, with a session. *)
Definition token_signed (keys : JwtKeyRing) (issuer audience token : str) (decoded : DecodedAccessToken) : Prop :=
  ∃ key, key ∈ ring_keys keys ∧ key_kid key = dt_kid decoded ∧ key_status key ≠ Revoked
    ∧ jwt_header_kid token = Some (Some (dt_kid decoded))
    ∧ jwt_decode token (key_decoding key) (mk_validation [key_algorithm key] [issuer] [audience])
      = Ok (dt_claims decoded)
    ∧ cl_session_id (dt_claims decoded) = Some (dt_session_id decoded).
(** The row that justifies it at [now]: session, user, organization and role
    are the current ones, and the key is active or retired. *)
Definition token_current (decoded : DecodedAccessToken) (now : Z) (d : Db) (c : ContextRow) : Prop :=
  ∃ id, uuid_parse_str (dt_session_id decoded) = Some id
    ∧ load_request_context id (u64_to_i64 (u64_saturating_mul now 1000)) (dt_kid decoded) d = Some c
    ∧ signing_key_accepted (dt_kid decoded) d = true
    ∧ cl_sub (dt_claims decoded) = uuid_to_string (cr_user c)
    ∧ cl_tenant_id (dt_claims decoded) = uuid_to_string <$> cr_organization c
    ∧ (is_Some (cr_organization c) ↔ is_Some (cr_authorization_revision c) ∧ is_Some (cr_role c)).

Lemma decode_verified_Ok token keys issuer audience decoded :
  decode_verified_access_token token keys issuer audience = Ok decoded →
  token_signed keys issuer audience token decoded.
Proof.
  unfold decode_verified_access_token. intros (kid & [Hkid _]%jwt_key_id_Ok & E)%rbind_Ok.
  apply rbind_Ok in E as (key & Hkey%ok_or_Ok & E). apply verification_Some in Hkey as (? & <- & ?).
  apply rbind_Ok in E as (claims & Hcl & E). apply rbind_Ok in E as (sid & Hsid%ok_or_Ok & [= <-]).
  apply fail_Ok in Hcl as [_ Hcl%map_err_Ok]. exists key. split_and!; try done. cbn.
  apply bind_Some in Hsid as (s & -> & Hs). destruct (identifier_new s) eqn:Ei; [|done].
  apply identifier_new_Ok in Ei as [-> _]. cbn in Hs. congruence.
Qed.

Lemma load_request_context_key id now key d c :
  valid_signing_key_id key = true → load_request_context id now key d = Some c →
  signing_key_accepted key d = true.
Proof.
  intros Hv. unfold load_request_context, context_row. intros (s & _ & (u & _ & E)%bind_Some)%bind_Some.
  destruct (_ && _) eqn:Eg; [|done]. apply andb_true_iff in Eg as [[_ Ek]%andb_true_iff _].
  unfold valid_signing_key_id in Hv. destruct key; [done|]. done.
Qed.
Lemma fingerprint_is_context id now key d :
  valid_signing_key_id key = true →
  load_request_fingerprint id now key d = load_request_context id now key d.
Proof.
  intros Hv. unfold load_request_fingerprint, load_request_context.
  destruct key; [by unfold valid_signing_key_id in Hv|done].
Qed.

Lemma verified_token_of_row claims session_id c request_id vs vt :
  verified_session (context_columns c) request_id = Ok vs →
  verified_access_token (E := TE) claims session_id vs = Ok vt →
  vt = token_of_row claims session_id c ∧ cl_sub claims = uuid_to_string (cr_user c)
  ∧ cl_tenant_id claims = uuid_to_string <$> cr_organization c
  ∧ (is_Some (cr_organization c) ↔ is_Some (cr_authorization_revision c) ∧ is_Some (cr_role c)).
Proof.
  intros Hvs E. apply verified_session_exact in Hvs. cbv zeta in Hvs.
  destruct Hvs as (Hfp & Hp & Horg & _ & _ & Has & _ & _ & _ & Hperm & Hrole & Hpol & _ & Hrow).
  unfold verified_access_token in E. cbv zeta in E. apply fail_Ok in E as [Eg [= <-]].
  rewrite Hp, Horg in Eg. apply orb_false_iff in Eg as [Es Et].
  apply negb_false_iff, bool_decide_eq_true in Es, Et. cbn in Es.
  split_and!; [|done|done|done]. unfold token_of_row. rewrite Hfp, Hp, Horg, Has, Hperm, Hrole, Hpol, Es. done.
Qed.

Lemma reload_verified_Ok decoded request_id w vt w' :
  reload_verified decoded request_id w = (Ok vt, w') →
  ∃ d c, rtc kstep (database w) d ∧ rtc kstep d (database w') ∧ token_current decoded (clock_now w) d c
    ∧ vt = token_of_row (dt_claims decoded) (dt_session_id decoded) c.
Proof.
  unfold reload_verified, load_verified_session_for_token. intros E. run_inv E.
  match goal with Hl : (if negb _ then _ else _) _ = (Ok _, _) |- _ => apply io_fail_Ok in Hl as [Hv%negb_false_iff Hl];
    apply load_with_key_Ok in Hl as (d & id & c & Hd & Hd' & Hid & Hc & Hvs) end.
  match goal with Hn : io_now _ = _ |- _ => injection Hn as <- <- end.
  destruct (verified_token_of_row _ _ _ _ _ _ Hvs E) as (-> & Hs & Ht & Hrow).
  eexists d, c. split_and!; [done|done| |done]. exists id. split_and!; try done.
  by eapply load_request_context_key.
Qed.

(** The rows behind a row of the request context. *)
Lemma context_row_Some id now key_ok d c :
  context_row id now key_ok d = Some c →
  ∃ s u, sessions d !! id = Some s ∧ users d !! s_user s = Some u ∧ live_session now s u = true
    ∧ cr_user c = s_user s ∧ cr_organization c = s_organization s ∧ cr_assurance c = s_assurance s
    ∧ cr_policy_revision c = active_policy (directory d)
    ∧ cr_system_administrator c = is_administrator (s_user s) d
    ∧ role_granted d s (option_list (cr_role c)) (bset_of_list (cr_permissions c)).
Proof.
  unfold context_row. intros (s & Hs & (u & Hu & E)%bind_Some)%bind_Some.
  destruct (_ && _) eqn:G in E; [|done]. injection E as <-.
  apply andb_true_iff in G as [[Hlive _]%andb_true_iff Hsel]. exists s, u. split_and!; try done.
  unfold role_granted, organization_selected in *. cbn [cr_role cr_permissions].
  destruct (s_organization s) as [org|] eqn:Eo; [|by unfold selected_membership; rewrite Eo].
  apply andb_true_iff in Hsel as [Hact [[org' m] Hm]%bool_decide_eq_true].
  rewrite Hm. unfold selected_membership in Hm. rewrite Eo in Hm.
  apply bind_Some in Hm as (? & [= <-] & (m' & Em & Hm)%bind_Some).
  case_bool_decide as Hst; [|done]. injection Hm as <- ->.
  destruct (organizations (directory d) !! org) as [o|] eqn:Eorg; [|done].
  exists o, m. split_and!; try done. intros p. cbn. unfold permissions_of.
  rewrite elem_of_bset_of_list, elem_of_sort_unstable, elem_of_elements.
  destruct (granted_permissions (directory d) !! (org, m_role m)) as [g|]; cbn; set_solver.
Qed.

Lemma token_current_true decoded now d c :
  token_current decoded now d c →
  token_true decoded (u64_to_i64 (u64_saturating_mul now 1000)) d
    (token_of_row (dt_claims decoded) (dt_session_id decoded) c).
Proof.
  intros (id & Hid & Hc & Hkey & Hsub & Hten & _).
  apply context_row_Some in Hc as (s & u & Hs & Hu & Hlive%live_session_spec & Eu & Eo & Ea & Ep & Eadm & Hr).
  unfold signing_key_accepted in Hkey.
  destruct (signing_keys (directory d) !! dt_kid decoded) as [key|] eqn:Ek; [|done].
  rewrite Eu in Hsub. rewrite Eo in Hten. exists id, s, u, key. unfold token_of_row. cbn.
  rewrite Eu, Eo, Ea, Ep, Eadm. split_and!; try done; try apply Hlive.
  - destruct key; naive_solver.
  - by destruct (s_assurance s).
Qed.

(** C4: A verified access token is true.  When verification succeeds, the
    token was signed for the issuer and audience by a key of the ring that is
    not revoked there, and at one moment [d] of the call the database held the
    session the token names, unrevoked and unexpired at the clock of the call
    and of the current security revision of an active user, and an active or
    retired signing key of the token's key identifier.  The subject and tenant
    of the token are those of the session; and what is returned is what the
    rows say at that moment, whatever the token says: the user, the selected
    organization, its assurance, the policy revision, the administrator flag,
    and, of an active organization in which the user is an active member, the
    role and exactly the permissions granted to it (none without one). *)
Theorem verified_token_is_current (keys : JwtKeyRing) (issuer audience token request_id : str) (w w' : W)
    (vt : VerifiedAccessToken)
    (Hrun : verify_access_token keys issuer audience token request_id w = (Ok vt, w')) :
  ∃ decoded d, token_signed keys issuer audience token decoded
    ∧ rtc kstep (database w) d ∧ rtc kstep d (database w')
    ∧ token_true decoded (u64_to_i64 (u64_saturating_mul (clock_now w) 1000)) d vt.
Proof.
  unfold verify_access_token in Hrun. apply io_bind_Ok in Hrun as (decoded & w1 & Hdec & Hrun).
  apply io_lift_Ok in Hdec as [Hdec%map_err_Ok%decode_verified_Ok ->].
  apply reload_verified_Ok in Hrun as (d & c & Hd & Hd' & Hcur%token_current_true & ->). eauto 10.
Qed.

(** Two rows with one fingerprint, the second later, grant the same. *)
Lemma same_fingerprint_same_token id0 now0 key0 d0 c0 id1 now1 key1 d1 c1 :
  rtc kstep d0 d1 → load_request_context id0 now0 key0 d0 = Some c0 →
  load_request_context id1 now1 key1 d1 = Some c1 → fingerprint_of c0 = fingerprint_of c1 →
  (is_Some (cr_organization c0) → is_Some (cr_authorization_revision c0)) →
  cr_permissions c1 = cr_permissions c0.
Proof.
  intros Hsteps H0' H1' Hfp Hrev. unfold load_request_context, context_row in *.
  apply bind_Some in H0' as (s0 & Es0 & (u0 & Eu0 & E0)%bind_Some).
  apply bind_Some in H1' as (s1 & Es1 & (u1 & Eu1 & E1)%bind_Some).
  destruct (_ && _) eqn:G0 in E0; [|done]. destruct (_ && _) eqn:G1 in E1; [|done].
  injection E0 as <-. injection E1 as <-. unfold fingerprint_of in Hfp. cbn in *.
  injection Hfp as _ _ Horg _ _ _ _ Hr Hrole _ _.
  assert (s_organization s1 = s_organization s0) as Ho.
  { destruct (s_organization s0), (s_organization s1); cbn in Horg; simplify_eq; try done.
    f_equal. apply uuid_to_string_inj. congruence. }
  assert (Hsel : ∀ s d om, selected_membership s d = Some om → s_organization s = Some om.1).
  { intros s d om (org & ? & (m & ? & Em)%bind_Some)%bind_Some. destruct (bool_decide _); by simplify_eq. }
  destruct (selected_membership s0 d0) as [[o0 m0]|] eqn:M0, (selected_membership s1 d1) as [[o1 m1]|] eqn:M1;
    try done. cbn in Hrole. injection Hrole as Hrole.
  apply Hsel in M0, M1. cbn in *. rewrite Ho, M0 in M1. injection M1 as <-.
  rewrite Ho, M0 in Hr. rewrite M0 in Hrev. cbn in Hr, Hrev.
  destruct Hrev as [rev Hrv]; [done|]. pose proof (ksteps_evolve _ _ Hsteps) as Hev.
  destruct (ev_directory _ _ Hev o0 rev Hrv) as (rev' & Hrv' & _ & Hsame).
  unfold permissions_of. specialize (Hsame ltac:(congruence) (m_role m0)).
  unfold roles_of in Hsame. by rewrite <- Hrole, Hsame.
Qed.

(** The cached snapshot was loaded by a verification that ended at [d0]. *)
Definition justified (cached : VerifiedAccessToken) (d0 : Db) : Prop :=
  ∃ decoded now c, token_current decoded now d0 c
    ∧ cached = token_of_row (dt_claims decoded) (dt_session_id decoded) c.

Lemma fingerprint_load_Ok session now key w fp w' :
  load_authorization_fingerprint_for_token session now key w = (Ok fp, w') →
  ∃ d id c, rtc kstep (database w) d ∧ rtc kstep d (database w') ∧ uuid_parse_str session = Some id
    ∧ load_request_context id (u64_to_i64 (u64_saturating_mul now 1000)) key d = Some c
    ∧ signing_key_accepted key d = true ∧ fp = fingerprint_of c
    ∧ (is_Some (cr_organization c) ↔ is_Some (cr_authorization_revision c) ∧ is_Some (cr_role c)).
Proof.
  unfold load_authorization_fingerprint_for_token. intros [Hv%negb_false_iff E]%io_fail_Ok. run_inv E.
  match goal with Q : pg_query _ _ _ = _ |- _ => apply pg_query_Ok in Q as (d1 & d2 & Hd1 & Hex & Hd2) end.
  apply exec_load_fingerprint in Hex as (-> & id & Hid & ->).
  match goal with Hh : head _ = Some _ |- _ => apply opt_rows_head in Hh as (c & Hc & ->) end.
  rewrite fingerprint_is_context in Hc by done.
  apply (authorization_fingerprint_exact _ c) in E as [-> Hrow]; [|apply fingerprint_columns_fingerprint].
  exists d1, id, c. split_and!; try done. by eapply load_request_context_key.
Qed.

(** A cache hit is the token of the current row. *)
Lemma cache_hit_current cached decoded d0 d1 id now c :
  justified cached d0 → rtc kstep d0 d1 → matches_claims cached decoded = true →
  uuid_parse_str (dt_session_id decoded) = Some id →
  load_request_context id (u64_to_i64 (u64_saturating_mul now 1000)) (dt_kid decoded) d1 = Some c →
  signing_key_accepted (dt_kid decoded) d1 = true →
  (is_Some (cr_organization c) ↔ is_Some (cr_authorization_revision c) ∧ is_Some (cr_role c)) →
  vt_authorization_fingerprint cached = fingerprint_of c →
  token_current decoded now d1 c
  ∧ with_lifetime cached (dt_claims decoded) = token_of_row (dt_claims decoded) (dt_session_id decoded) c.
Proof.
  intros (decoded0 & now0 & c0 & Hcur & ->) Hsteps Hm Hid Hc Hkey Hrow Hfp.
  destruct Hcur as (id0 & _ & Hc0 & _ & _ & _ & Hrow0). cbn in Hfp.
  assert (cr_permissions c = cr_permissions c0) as Hperm.
  { eapply same_fingerprint_same_token; [done|done|done|done|]. intros ?. by apply Hrow0. }
  unfold matches_claims in Hm. bprop. destruct Hm as [[Hu Hs] Ho]. cbn in *.
  unfold fingerprint_of in Hfp. pose proof Hfp as Hfp'. injection Hfp as Fu _ Fo Fa _ _ _ _ Fr Fp Fadm. split.
  - exists id. split_and!; try done; congruence.
  - unfold with_lifetime, token_of_row, fingerprint_of. cbn. rewrite Hfp', Hperm, Fr, Fp, Fadm, Fa, Fu, Fo, Hs. done.
Qed.

End verification.

Section round_trip.
Context {W TE RE : Type} `{KernelWorldLaws W TE RE} `{JwtLaws} `{TokenCrypto}.
#[local] Set Default Proof Using "Type*".

(** An access token that was just issued verifies.  With a well-formed
    ring whose active key pair matches, the token of a new pair decodes, under
    the issuer and audience of the policy, to the claims it was made from, the
    session and the identifier of the active key. *)
Theorem issued_token_decodes (svc : TokenService) (session : VerifiedSession) (refresh_token : str)
    (now : Z) (w w' : W) (tokens : TokenPair)
    (Hwf : ring_wf (svc_keys svc)) (Hkid : ∀ k, k ∈ ring_keys (svc_keys svc) → trim (key_kid k) ≠ [])
    (Hpairs : ∀ k ek, k ∈ ring_keys (svc_keys svc) → key_encoding k = Some ek → key_pair ek (key_decoding k))
    (Hexp : ∀ claims, now < cl_exp claims → unexpired claims)
    (Hsid : validate_identifier (ctx_session_id (rc_auth (vs_context session))) = Ok tt)
    (Hpair : token_pair svc session refresh_token now w = (Ok tokens, w')) :
  ∃ claims key, active (svc_keys svc) = Some key
    ∧ decode_verified_access_token (tp_access_token tokens) (svc_keys svc) (tc_issuer (svc_config svc))
        (tc_audience (svc_config svc))
      = Ok (mk_decoded claims (ctx_session_id (rc_auth (vs_context session))) (key_kid key))
    ∧ cl_sub claims = p_user_id (principal (rc_auth (vs_context session)))
    ∧ cl_tenant_id claims = ctx_organization_id (rc_auth (vs_context session))
    ∧ cl_iat claims = now ∧ cl_exp claims = now + tp_expires_in_seconds tokens.
Proof.
  apply token_pair_Ok in Hpair as (key & ek & jti & ex & Hk & Hek & Henc & Hex & Hlt & ->).
  exists (session_claims (svc_config svc) session ex now jti), key. cbn [tp_access_token tp_expires_in_seconds].
  split_and!; try done.
  2:{ cbn. unfold u64_saturating_sub. lia. }
  unfold encode_access_token in Henc. destruct provider_installed eqn:Ep; [|done]. cbn in Henc.
  apply ok_or_Ok in Henc. set (claims := session_claims _ _ _ _ _) in *.
  assert (Hin : key ∈ ring_keys (svc_keys svc)) by (by eapply list_elem_of_lookup_2).
  assert (jwt_key_id (tp_access_token tokens) = Ok (key_kid key)) as Hid.
  { apply jwt_key_id_Ok. split; [by eapply jwt_encode_kid|by apply Hkid]. }
  unfold decode_verified_access_token, access_token_key_id. rewrite Hid. cbn [rbind].
  rewrite verification_active by done. cbn [rbind ok_or]. unfold decode_access_token. rewrite Ep. cbn [negb].
  erewrite (jwt_decode_encode _ _ claims ek); [| | | | | |]; cbn [va_algorithms va_issuers va_audiences jwt_validation].
  - cbn [rbind map_err ok_or mbind option_bind]. cbn. unfold identifier_new. rewrite Hsid. done.
  - done.
  - by apply Hpairs.
  - by apply Hexp.
  - by apply list_elem_of_singleton.
  - by apply list_elem_of_singleton.
  - exists (tc_audience (svc_config svc)). split; by apply list_elem_of_singleton.
Qed.
End round_trip.
