(* ===== verification/Credentials.v ===== *)
(** * Credentials: factors, passkeys, external identities and flows

    The tables that migrations 0001, 0006 and 0014 keep beside the ones of
    [KernelState] (auth_totp_factors, auth_recovery_codes, auth_flows,
    auth_passkeys, auth_external_identities, auth_provider_configs,
    auth_application_redirects) and the SQL of
    src/crates/wasi-auth/src/postgres that mfa.rs, flows.rs, passkeys.rs and
    oauth.rs execute on them.

    A statement is one atomic step.  Its data-modifying expressions read the
    state before it, a violated constraint is [None], and the timestamps that
    no statement reads are left out. *)

From S2P Require Export Organizations.
Open Scope Z_scope.

#[local] Arguments lit : simpl never.

(** ** Tables *)

(** [auth_totp_factors] *)
Record FactorRow := mk_factor {
  fa_key_version : str;
  fa_ciphertext : list Z;
  fa_enabled_at_ms : option Z;
  fa_last_consumed_step : option Z;
}.
(** [auth_flows] *)
Inductive FlowKind := OAuthFlow | WebauthnRegistration | WebauthnAuthentication.
#[export] Instance FlowKind_eq_dec : EqDecision FlowKind.
Proof. solve_decision. Defined.
Definition flow_kind_text (k : FlowKind) : str :=
  lit match k with
      | OAuthFlow => "oauth" | WebauthnRegistration => "webauthn_registration"
      | WebauthnAuthentication => "webauthn_authentication"
      end.
Definition flow_kind_of (s : str) : option FlowKind :=
  List.find (λ k, bool_decide (flow_kind_text k = s)) [OAuthFlow; WebauthnRegistration; WebauthnAuthentication].
Record FlowRow := mk_flow {
  fl_kind : FlowKind;
  fl_user : option Uuid;
  fl_verifier_hash : list Z;
  fl_key_version : str;
  fl_payload_ciphertext : list Z;
  fl_expires_at_ms : Z;
  fl_consumed_at_ms : option Z;
}.
(** [auth_passkeys] *)
Record PasskeyRow := mk_passkey {
  pk_user : Uuid;
  pk_public_key_cose : list Z;
  pk_sign_count : Z;
  pk_transports : Value;
  pk_display_name : str;
  pk_created_at_ms : Z;
  pk_last_used_at_ms : option Z;
}.
(** [auth_external_identities] *)
Record IdentityRow := mk_identity { ei_user : Uuid; ei_email : option str; ei_profile : Value }.
(** [auth_provider_configs] *)
Record ProviderRow := mk_provider {
  pc_display_name : str;
  pc_enabled : bool;
  pc_scopes : Value;
  pc_claim_mapping : Value;
}.

(** The whole database: recovery codes are keyed by user and hash and hold
    their [used_at_ms], external identities by provider and subject. *)
Record AuthDb := mk_auth_db {
  kernel : Db;
  factors : gmap Uuid FactorRow;
  recovery_codes : gmap (Uuid * list Z) (option Z);
  flows : gmap Uuid FlowRow;
  passkeys : gmap (list Z) PasskeyRow;
  identities : gmap (str * str) IdentityRow;
  providers : gmap str ProviderRow;
  redirects : gset str;
}.
Definition set_kernel (k : Db) (d : AuthDb) : AuthDb :=
  mk_auth_db k (factors d) (recovery_codes d) (flows d) (passkeys d) (identities d) (providers d) (redirects d).
Definition set_factors (f : gmap Uuid FactorRow → gmap Uuid FactorRow) (d : AuthDb) : AuthDb :=
  mk_auth_db (kernel d) (f (factors d)) (recovery_codes d) (flows d) (passkeys d) (identities d) (providers d) (redirects d).
Definition set_recovery_codes (m : gmap (Uuid * list Z) (option Z)) (d : AuthDb) : AuthDb :=
  mk_auth_db (kernel d) (factors d) m (flows d) (passkeys d) (identities d) (providers d) (redirects d).
Definition set_flows (f : gmap Uuid FlowRow → gmap Uuid FlowRow) (d : AuthDb) : AuthDb :=
  mk_auth_db (kernel d) (factors d) (recovery_codes d) (f (flows d)) (passkeys d) (identities d) (providers d) (redirects d).
Definition set_passkeys (f : gmap (list Z) PasskeyRow → gmap (list Z) PasskeyRow) (d : AuthDb) : AuthDb :=
  mk_auth_db (kernel d) (factors d) (recovery_codes d) (flows d) (f (passkeys d)) (identities d) (providers d) (redirects d).
Definition set_identities (f : gmap (str * str) IdentityRow → gmap (str * str) IdentityRow) (d : AuthDb) : AuthDb :=
  mk_auth_db (kernel d) (factors d) (recovery_codes d) (flows d) (passkeys d) (f (identities d)) (providers d) (redirects d).
Definition set_providers (f : gmap str ProviderRow → gmap str ProviderRow) (d : AuthDb) : AuthDb :=
  mk_auth_db (kernel d) (factors d) (recovery_codes d) (flows d) (passkeys d) (identities d) (f (providers d)) (redirects d).
Definition set_redirects (r : gset str) (d : AuthDb) : AuthDb :=
  mk_auth_db (kernel d) (factors d) (recovery_codes d) (flows d) (passkeys d) (identities d) (providers d) r.

(** [SET assurance = 'aal2', session_revision = session_revision + 1] *)
Definition elevate_row (s : SessionRow) : SessionRow :=
  mk_session (s_user s) (s_organization s) DbAal2 (s_revision s + 1) (s_user_security_revision s)
    (s_expires_at_ms s) (s_revoked_at_ms s) (s_created_at_ms s).

Section mfa.
Context `{UuidText}.

(** The acting session is elevated and the success is audited. *)
Definition elevate (session : Uuid) (s : SessionRow) (action : str) (resource : str * str) (aid : Uuid)
    (rid : str) (now : Z) (d : AuthDb) : option AuthDb :=
  k ← insert_audit (mk_audit aid (Some (s_user s)) (Some session) action resource true rid now)
        (set_sessions <[session := elevate_row s]> (kernel d));
  Some (set_kernel k d).

(** ** TOTP and recovery codes *)

(** mfa_status.sql *)
Record StatusOut := mk_status_out { st_enrolled : bool; st_assurance : DbAssurance; st_remaining : Z }.
Definition totp_enabled (user : Uuid) (d : AuthDb) : bool :=
  match factors d !! user with Some f => bool_decide (is_Some (fa_enabled_at_ms f)) | None => false end.
Definition unused_codes (user : Uuid) (d : AuthDb) : list (Uuid * list Z * option Z) :=
  List.filter (λ kv, bool_decide (kv.1.1 = user) && bool_decide (kv.2 = None)) (map_to_list (recovery_codes d)).
Definition mfa_status (session : Uuid) (now : Z) (d : AuthDb) : option StatusOut :=
  s ← account_actor session now (kernel d);
  Some (mk_status_out (totp_enabled (s_user s) d) (s_assurance s) (Z.of_nat (length (unused_codes (s_user s) d)))).

(** start_totp_enrollment.sql *)
Definition start_totp_enrollment (session : Uuid) (version : str) (ciphertext : list Z) (now : Z) (aid : Uuid)
    (rid : str) (d : AuthDb) : option (bool * AuthDb) :=
  match account_actor session now (kernel d) with
  | None => Some (false, d)
  | Some s =>
      if totp_enabled (s_user s) d then Some (false, d) else
      let saved := mk_factor version ciphertext None (factors d !! s_user s ≫= fa_last_consumed_step) in
      k ← insert_audit (mk_audit aid (Some (s_user s)) (Some session) (lit "auth.mfa.totp.start")
            (lit "user", uuid_to_string (s_user s)) true rid now) (kernel d);
      Some (true, set_kernel k (set_factors <[s_user s := saved]> d))
  end.

(** load_totp_factor.sql *)
Definition load_totp_factor (session : Uuid) (now : Z) (d : AuthDb) : option (Uuid * FactorRow) :=
  s ← account_actor session now (kernel d);
  f ← factors d !! s_user s;
  Some (s_user s, f).

(** confirm_totp_enrollment.sql: [enabled_factor], [deleted_recovery] and
    [new_recovery] find a row only when the factor is the pending one;
    [elevated_session] joins a count, which always has a row. *)
Fixpoint insert_codes (user : Uuid) (codes : list (list Z)) (m : gmap (Uuid * list Z) (option Z)) :
    option (gmap (Uuid * list Z) (option Z)) :=
  match codes with
  | [] => Some m
  | c :: codes =>
      match m !! (user, c) with
      | Some _ => None
      | None => insert_codes user codes (<[(user, c) := None]> m)
      end
  end.
Definition pending_factor (ciphertext : list Z) (f : FactorRow) : bool :=
  bool_decide (fa_ciphertext f = ciphertext) && bool_decide (fa_enabled_at_ms f = None).
Definition enable_factor (user : Uuid) (f : FactorRow) (now step : Z) (codes : list (list Z)) (d : AuthDb) :
    option AuthDb :=
  m ← insert_codes user codes (filter (λ kv, kv.1.1 ≠ user) (recovery_codes d));
  Some (set_recovery_codes m
    (set_factors <[user := mk_factor (fa_key_version f) (fa_ciphertext f) (Some now) (Some step)]> d)).
Definition enable_pending (user : Uuid) (ciphertext : list Z) (now step : Z) (codes : list (list Z))
    (d : AuthDb) : option AuthDb :=
  match factors d !! user with
  | Some f => if pending_factor ciphertext f then enable_factor user f now step codes d else Some d
  | None => Some d
  end.
Definition confirm_totp_enrollment (session : Uuid) (ciphertext : list Z) (now : Z) (codes : list (list Z))
    (aid : Uuid) (rid : str) (step : Z) (d : AuthDb) : option (bool * AuthDb) :=
  match account_actor session now (kernel d) with
  | None => Some (false, d)
  | Some s =>
      d ← enable_pending (s_user s) ciphertext now step codes d;
      d ← elevate session s (lit "auth.mfa.totp.confirm") (lit "user", uuid_to_string (s_user s)) aid rid now d;
      Some (true, d)
  end.

(** verify_totp_step_up.sql *)
Definition consumable (step : Z) (f : FactorRow) : bool :=
  match fa_last_consumed_step f with Some last => last <? step | None => true end.
Definition enabled_factor (ciphertext : list Z) (f : FactorRow) : bool :=
  bool_decide (is_Some (fa_enabled_at_ms f)) && bool_decide (fa_ciphertext f = ciphertext).
Definition consume_step (step : Z) (f : FactorRow) : FactorRow :=
  mk_factor (fa_key_version f) (fa_ciphertext f) (fa_enabled_at_ms f) (Some step).
Definition verify_totp_step_up (session : Uuid) (ciphertext : list Z) (now : Z) (aid : Uuid) (rid : str)
    (step : Z) (d : AuthDb) : option (bool * AuthDb) :=
  match load_totp_factor session now d, account_actor session now (kernel d) with
  | Some (user, f), Some s =>
      if enabled_factor ciphertext f && consumable step f then
        d ← elevate session s (lit "auth.mfa.totp.verify") (lit "session", uuid_to_string session) aid rid now
              (set_factors <[user := consume_step step f]> d);
        Some (true, d)
      else Some (false, d)
  | _, _ => Some (false, d)
  end.

(** use_recovery_code.sql *)
Definition use_recovery_code (session : Uuid) (hash : list Z) (now : Z) (aid : Uuid) (rid : str) (d : AuthDb) :
    option (bool * AuthDb) :=
  match account_actor session now (kernel d) with
  | None => Some (false, d)
  | Some s =>
      match recovery_codes d !! (s_user s, hash) with
      | Some None =>
          d ← elevate session s (lit "auth.mfa.recovery.verify") (lit "session", uuid_to_string session) aid rid now
                (set_recovery_codes (<[(s_user s, hash) := Some now]> (recovery_codes d)) d);
          Some (true, d)
      | _ => Some (false, d)
      end
  end.
End mfa.

(** ** Encrypted flows *)

(** create_auth_flow.sql: its keys are new and its user exists. *)
Definition flow_hash_used (hash : list Z) (d : AuthDb) : bool :=
  existsb (λ kf, bool_decide (fl_verifier_hash kf.2 = hash)) (map_to_list (flows d)).
Definition create_auth_flow (id : Uuid) (f : FlowRow) (d : AuthDb) : option (bool * AuthDb) :=
  if bool_decide (is_Some (flows d !! id)) || flow_hash_used (fl_verifier_hash f) d
     || match fl_user f with Some u => bool_decide (users (kernel d) !! u = None) | None => false end
  then None else Some (true, set_flows <[id := f]> d).
(** [consumed_at_ms IS NULL AND expires_at_ms >= now] *)
Definition open_flow (kind : FlowKind) (hash : list Z) (now : Z) (f : FlowRow) : bool :=
  bool_decide (fl_verifier_hash f = hash) && bool_decide (fl_kind f = kind)
  && bool_decide (fl_consumed_at_ms f = None) && (now <=? fl_expires_at_ms f).
(** load_auth_flow.sql *)
Definition load_auth_flow (hash : list Z) (kind : FlowKind) (now : Z) (d : AuthDb) : option (Uuid * FlowRow) :=
  List.find (λ kf, open_flow kind hash now kf.2) (map_to_list (flows d)).
Definition consume_flow_row (now : Z) (f : FlowRow) : FlowRow :=
  mk_flow (fl_kind f) (fl_user f) (fl_verifier_hash f) (fl_key_version f) (fl_payload_ciphertext f)
    (fl_expires_at_ms f) (Some now).
(** The expressions [consumed_flow]: [None] when there is no such flow. *)
Definition consume_flow (id : Uuid) (hash : list Z) (kind : FlowKind) (owner : FlowRow → bool) (now : Z)
    (d : AuthDb) : option AuthDb :=
  f ← flows d !! id;
  if open_flow kind hash now f && owner f then Some (set_flows <[id := consume_flow_row now f]> d) else None.
Definition owned_by (user : Uuid) (f : FlowRow) : bool := bool_decide (fl_user f = Some user).

(** ** Passkeys *)

(** The row of a completed ceremony. *)
Record CompletionOut := mk_completion_out {
  cp_session : Uuid;
  cp_user : Uuid;
  cp_primary_email : str;
  cp_expires_at_ms : Z;
}.
(** [ORDER BY passkeys.created_at_ms, passkeys.credential_id] *)
Definition passkey_order (a b : list Z * PasskeyRow) : Prop :=
  pk_created_at_ms a.2 < pk_created_at_ms b.2 ∨ (pk_created_at_ms a.2 = pk_created_at_ms b.2 ∧ str_le a.1 b.1).
#[export] Instance passkey_order_dec : RelDecision passkey_order.
Proof. intros a b. unfold passkey_order. apply _. Defined.
Definition passkeys_of (user : Uuid) (d : AuthDb) : list (list Z * PasskeyRow) :=
  merge_sort passkey_order
    (List.filter (λ kp, bool_decide (pk_user kp.2 = user)) (map_to_list (passkeys d))).
(** load_passkeys_for_user.sql, with a [LEFT JOIN]: the user and the
    credentials, of which there may be none *)
Definition load_passkeys_for_user (user : Uuid) (d : AuthDb) : option (UserRow * list (list Z * PasskeyRow)) :=
  u ← users (kernel d) !! user;
  if bool_decide (u_status u = UActive) then Some (u, passkeys_of user d) else None.
(** load_passkeys_for_email.sql *)
Definition load_passkeys_for_email (email : str) (d : AuthDb) : list (Uuid * UserRow * (list Z * PasskeyRow)) :=
  match user_by_email email (kernel d) with
  | Some (user, u) =>
      if bool_decide (u_status u = UActive) then map (λ kp, (user, u, kp)) (passkeys_of user d) else []
  | None => []
  end.
(** load_passkey_credential.sql *)
Definition load_passkey_credential (user : Uuid) (credential : list Z) (d : AuthDb) :
    option (UserRow * PasskeyRow) :=
  p ← passkeys d !! credential;
  u ← users (kernel d) !! user;
  if bool_decide (pk_user p = user) && bool_decide (u_status u = UActive) then Some (u, p) else None.

(** [encode(.., 'base64')]: the standard alphabet, with a line feed after
    every 76 characters that more text follows. *)
Definition BASE64_ALPHABET : str :=
  lit "ABCDEFGHIJKLMNOPQRSTUVWXYZabcdefghijklmnopqrstuvwxyz0123456789+/".
Definition base64_char (n : Z) : char := default 61 (BASE64_ALPHABET !! Z.to_nat n).
Fixpoint base64_groups (bytes : list Z) : str :=
  match bytes with
  | a :: b :: c :: rest =>
      base64_char (a / 4) :: base64_char (a mod 4 * 16 + b / 16) :: base64_char (b mod 16 * 4 + c / 64)
      :: base64_char (c mod 64) :: base64_groups rest
  | [a; b] => [base64_char (a / 4); base64_char (a mod 4 * 16 + b / 16); base64_char (b mod 16 * 4); 61]
  | [a] => [base64_char (a / 4); base64_char (a mod 4 * 16); 61; 61]
  | [] => []
  end.
Fixpoint break_lines (column : nat) (s : str) : str :=
  match s with
  | [] => []
  | c :: s =>
      match column with
      | O => 10 :: c :: break_lines 75 s
      | S column => c :: break_lines column s
      end
  end.
Definition pg_base64 (bytes : list Z) : str := break_lines 76 (base64_groups bytes).

(** complete_passkey_registration.sql *)
Record PasskeyRegistration := mk_passkey_registration {
  pr_verifier_hash : list Z;
  pr_flow : Uuid;
  pr_session : Uuid;
  pr_credential : list Z;
  pr_public_key_cose : list Z;
  pr_sign_count : Z;
  pr_transports : Value;
  pr_now : Z;
  pr_display_name : str;
  pr_audit : Uuid;
  pr_request : str;
}.
Inductive RegistrationOutcome := PasskeyRegistered (c : CompletionOut) | CredentialConflict.

Section ceremonies.
Context `{UuidText}.

(** [None] is no row: the session is not live or the flow is not open. *)
Definition complete_passkey_registration (a : PasskeyRegistration) (d : AuthDb) :
    option (option RegistrationOutcome * AuthDb) :=
  match account_actor (pr_session a) (pr_now a) (kernel d) with
  | None => Some (None, d)
  | Some s =>
      match consume_flow (pr_flow a) (pr_verifier_hash a) WebauthnRegistration (owned_by (s_user s)) (pr_now a) d with
      | None => Some (None, d)
      | Some d =>
          if pr_sign_count a <? 0 then None else
          if bool_decide (is_Some (passkeys d !! pr_credential a)) then Some (Some CredentialConflict, d) else
          u ← users (kernel d) !! s_user s;
          d ← elevate (pr_session a) s (lit "auth.passkey.register") (lit "passkey", pg_base64 (pr_credential a))
                (pr_audit a) (pr_request a) (pr_now a)
                (set_passkeys <[pr_credential a := mk_passkey (s_user s) (pr_public_key_cose a) (pr_sign_count a)
                   (pr_transports a) (pr_display_name a) (pr_now a) None]> d);
          Some (Some (PasskeyRegistered
            (mk_completion_out (pr_session a) (s_user s) (u_primary_email u) (s_expires_at_ms s))), d)
      end
  end.

(** complete_passkey_authentication.sql *)
Record PasskeyAssertion := mk_passkey_assertion {
  pa_verifier_hash : list Z;
  pa_flow : Uuid;
  pa_user : Uuid;
  pa_credential : list Z;
  pa_public_key_cose : list Z;
  pa_stored_count : Z;
  pa_sign_count : Z;
  pa_transports : Value;
  pa_session : Uuid;
  pa_expires_at_ms : Z;
  pa_audit : Uuid;
  pa_now : Z;
  pa_request : str;
}.
Inductive AssertionOutcome := PasskeyAuthenticated (c : CompletionOut) | CounterConflict.
Definition current_credential (a : PasskeyAssertion) (d : AuthDb) : option PasskeyRow :=
  p ← passkeys d !! pa_credential a;
  if bool_decide (pk_user p = pa_user a) && (pk_sign_count p =? pa_stored_count a) then Some p else None.
(** [None] is no row: the flow is not open, or its user may not log in. *)
Definition complete_passkey_authentication (a : PasskeyAssertion) (d : AuthDb) :
    option (option AssertionOutcome * AuthDb) :=
  match consume_flow (pa_flow a) (pa_verifier_hash a) WebauthnAuthentication (owned_by (pa_user a)) (pa_now a) d with
  | None => Some (None, d)
  | Some d =>
      match current_credential a d with
      | None => Some (Some CounterConflict, d)
      | Some p =>
          if pa_sign_count a <? 0 then None else
          let d := set_passkeys <[pa_credential a := mk_passkey (pk_user p) (pa_public_key_cose a) (pa_sign_count a)
                     (pa_transports a) (pk_display_name p) (pk_created_at_ms p) (Some (pa_now a))]> d in
          match users (kernel d) !! pa_user a with
          | Some u =>
              if bool_decide (u_status u = UActive) then
                k ← insert_session (pa_session a) (mk_session (pa_user a) None DbAal2 1 (u_security_revision u)
                      (pa_expires_at_ms a) None (pa_now a)) (kernel d);
                k ← insert_audit (mk_audit (pa_audit a) (Some (pa_user a)) (Some (pa_session a))
                      (lit "auth.passkey.login") (lit "session", uuid_to_string (pa_session a)) true
                      (pa_request a) (pa_now a)) k;
                Some (Some (PasskeyAuthenticated
                  (mk_completion_out (pa_session a) (pa_user a) (u_primary_email u) (pa_expires_at_ms a))), set_kernel k d)
              else Some (None, d)
          | None => Some (None, d)
          end
      end
  end.

(** ** OAuth identities *)

(** complete_oauth_identity.sql *)
Record OAuthArgs := mk_oauth_args {
  oa_verifier_hash : list Z;
  oa_flow : Uuid;
  oa_provider : str;
  oa_subject : str;
  oa_normalized_email : option str;
  oa_primary_email : option str;
  oa_profile : Value;
  oa_new_user : Uuid;
  oa_session : Uuid;
  oa_expires_at_ms : Z;
  oa_now : Z;
  oa_audit : Uuid;
  oa_request : str;
}.
Inductive OAuthOutcome := OAuthCompleted (c : CompletionOut) | OAuthAccountUnavailable.
Definition oa_key (a : OAuthArgs) : str * str := (oa_provider a, oa_subject a).
Definition existing_identity (a : OAuthArgs) (d : AuthDb) : option (Uuid * UserRow) :=
  i ← identities d !! oa_key a;
  u ← users (kernel d) !! ei_user i;
  Some (ei_user i, u).
(** [resolved_user]: a new account, or the one that has the email. *)
Definition resolved_user (a : OAuthArgs) (d : AuthDb) : option (option (Uuid * UserRow) * AuthDb) :=
  match oa_normalized_email a, oa_primary_email a with
  | Some email, Some primary =>
      match user_by_email email (kernel d) with
      | Some found => Some (Some found, d)
      | None =>
          if bool_decide (is_Some (users (kernel d) !! oa_new_user a)) then None else
          let u := mk_user email primary UActive 1 (oa_now a) in
          Some (Some (oa_new_user a, u), set_kernel (set_users <[oa_new_user a := u]> (kernel d)) d)
      end
  | _, _ => Some (None, d)
  end.
Definition selected_user (a : OAuthArgs) (d : AuthDb) : option (option (Uuid * UserRow) * AuthDb) :=
  match existing_identity a d with
  | Some found => Some (Some found, d)
  | None => resolved_user a d
  end.
(** [linked_identity]: an identity of another user is left alone. *)
Definition linked_identity (a : OAuthArgs) (user : Uuid) (d : AuthDb) : option AuthDb :=
  match identities d !! oa_key a with
  | Some i =>
      if bool_decide (ei_user i = user)
      then Some (set_identities <[oa_key a := mk_identity user (oa_primary_email a) (oa_profile a)]> d) else None
  | None => Some (set_identities <[oa_key a := mk_identity user (oa_primary_email a) (oa_profile a)]> d)
  end.
Definition oauth_session (a : OAuthArgs) (user : Uuid) (u : UserRow) (d : AuthDb) :
    option (option OAuthOutcome * AuthDb) :=
  k ← insert_session (oa_session a)
        (mk_session user None DbAal1 1 (u_security_revision u) (oa_expires_at_ms a) None (oa_now a)) (kernel d);
  k ← insert_audit (mk_audit (oa_audit a) (Some user) (Some (oa_session a)) (lit "auth.oauth.login")
        (lit "session", uuid_to_string (oa_session a)) true (oa_request a) (oa_now a)) k;
  Some (Some (OAuthCompleted (mk_completion_out (oa_session a) user (u_primary_email u) (oa_expires_at_ms a))),
        set_kernel k d).
Definition complete_oauth_identity (a : OAuthArgs) (d : AuthDb) : option (option OAuthOutcome * AuthDb) :=
  match consume_flow (oa_flow a) (oa_verifier_hash a) OAuthFlow (λ _, true) (oa_now a) d with
  | None => Some (None, d)
  | Some d =>
      '(selected, d) ← selected_user a d;
      match selected with
      | None => Some (Some OAuthAccountUnavailable, d)
      | Some (user, u) =>
          match linked_identity a user d with
          | None => Some (Some OAuthAccountUnavailable, d)
          | Some d =>
              if bool_decide (u_status u = UActive) then oauth_session a user u d
              else Some (Some OAuthAccountUnavailable, d)
          end
      end
  end.

(** ** Providers and redirects *)

(** list_oauth_providers.sql: [ORDER BY provider_id] *)
Definition provider_order (a b : str * ProviderRow) : Prop := str_le a.1 b.1.
#[export] Instance provider_order_dec : RelDecision provider_order.
Proof. intros a b. unfold provider_order. apply _. Defined.
Definition list_oauth_providers (d : AuthDb) : list (str * ProviderRow) :=
  merge_sort provider_order (map_to_list (providers d)).
(** get_oauth_provider.sql *)
Definition get_oauth_provider (provider : str) (d : AuthDb) : option (str * ProviderRow) :=
  p ← providers d !! provider; Some (provider, p).
(** save_oauth_provider.sql *)
Definition save_oauth_provider (session : Uuid) (provider name : str) (enabled : bool) (now : Z) (aid : Uuid)
    (rid : str) (d : AuthDb) : option (option (str * ProviderRow) * AuthDb) :=
  match administrator_actor session now (kernel d) with
  | None => Some (None, d)
  | Some s =>
      let saved := match providers d !! provider with
                   | Some p => mk_provider name enabled (pc_scopes p) (pc_claim_mapping p)
                   | None => mk_provider name enabled (VArray []) (VObject [])
                   end in
      k ← insert_audit (mk_audit aid (Some (s_user s)) (Some session) (lit "auth.provider.update")
            (lit "oauth_provider", provider) true rid now) (kernel d);
      Some (Some (provider, saved), set_kernel k (set_providers <[provider := saved]> d))
  end.
(** validate_application_redirect.sql *)
Definition validate_application_redirect (path : str) (d : AuthDb) : bool := bool_decide (path ∈ redirects d).
(** The [CHECK] of auth_application_redirects. *)
Definition redirect_allowed (path : str) : bool :=
  starts_with (lit "/") path && negb (starts_with (lit "//") path) && bool_decide (length path ≤ 2048)%nat.
(** replace_application_redirects.sql: the rows, [ORDER BY redirect_path] *)
Definition replace_application_redirects (session : Uuid) (paths : list str) (now : Z) (aid : Uuid) (rid : str)
    (d : AuthDb) : option (list str * AuthDb) :=
  match administrator_actor session now (kernel d) with
  | None => Some ([], d)
  | Some s =>
      let desired := list_to_set paths : gset str in
      if negb (forallb redirect_allowed paths) then None else
      k ← insert_audit (mk_audit aid (Some (s_user s)) (Some session) (lit "auth.redirect-allowlist.replace")
            (lit "redirect_allowlist", lit "application") true rid now) (kernel d);
      Some (sort_unstable (elements desired), set_kernel k (set_redirects desired d))
  end.
End ceremonies.

(** ** Statements that write *)

Inductive AuthStatement :=
| StartTotp (session : Uuid) (version : str) (ciphertext : list Z) (now : Z) (aid : Uuid) (rid : str)
| ConfirmTotp (session : Uuid) (ciphertext : list Z) (now : Z) (codes : list (list Z)) (aid : Uuid) (rid : str) (step : Z)
| VerifyTotp (session : Uuid) (ciphertext : list Z) (now : Z) (aid : Uuid) (rid : str) (step : Z)
| UseRecoveryCode (session : Uuid) (hash : list Z) (now : Z) (aid : Uuid) (rid : str)
| CreateFlow (id : Uuid) (f : FlowRow)
| RegisterPasskey (a : PasskeyRegistration)
| AssertPasskey (a : PasskeyAssertion)
| CompleteOAuth (a : OAuthArgs)
| SaveProvider (session : Uuid) (provider name : str) (enabled : bool) (now : Z) (aid : Uuid) (rid : str)
| ReplaceRedirects (session : Uuid) (paths : list str) (now : Z) (aid : Uuid) (rid : str).
Definition auth_run `{UuidText} (stmt : AuthStatement) (d : AuthDb) : option AuthDb :=
  match stmt with
  | StartTotp session version ciphertext now aid rid =>
      snd <$> start_totp_enrollment session version ciphertext now aid rid d
  | ConfirmTotp session ciphertext now codes aid rid step =>
      snd <$> confirm_totp_enrollment session ciphertext now codes aid rid step d
  | VerifyTotp session ciphertext now aid rid step => snd <$> verify_totp_step_up session ciphertext now aid rid step d
  | UseRecoveryCode session hash now aid rid => snd <$> use_recovery_code session hash now aid rid d
  | CreateFlow id f => snd <$> create_auth_flow id f d
  | RegisterPasskey a => snd <$> complete_passkey_registration a d
  | AssertPasskey a => snd <$> complete_passkey_authentication a d
  | CompleteOAuth a => snd <$> complete_oauth_identity a d
  | SaveProvider session provider name enabled now aid rid =>
      snd <$> save_oauth_provider session provider name enabled now aid rid d
  | ReplaceRedirects session paths now aid rid => snd <$> replace_application_redirects session paths now aid rid d
  end.
