(* ===== verification/CredentialHistory.v ===== *)
(** * CredentialHistory: what no ceremony can undo

    [astep] is the step relation of the whole database: a step of the kernel
    or a statement of [Credentials].  Every statement of [Credentials] is a
    [foreign] step of the kernel, so the theorems on sessions, tokens and
    organizations hold with multi-factor, passkey and OAuth logins
    interleaved.  [keeps] is the history relation of the credential tables:
    an enabled factor keeps its secret and its consumed step grows, a used
    recovery code stays used, a consumed flow stays consumed, a passkey and an
    external identity never change their user. *)

From S2P Require Export OrganizationHistory Credentials.
Open Scope Z_scope.

#[local] Arguments lit : simpl never.

(** ** Steps *)

Section steps.
Context `{UuidText}.

Inductive astep : AuthDb → AuthDb → Prop :=
| a_kernel d k : kstep (kernel d) k → astep d (set_kernel k d)
| a_run stmt d d' : auth_run stmt d = Some d' → astep d d'.
End steps.

(** ** History *)

Definition step_le (o o' : option Z) : Prop :=
  match o with None => True | Some n => ∃ m, o' = Some m ∧ n ≤ m end.
Definition factor_keeps (f f' : FactorRow) : Prop :=
  step_le (fa_last_consumed_step f) (fa_last_consumed_step f')
  ∧ (fa_enabled_at_ms f ≠ None →
     fa_enabled_at_ms f' = fa_enabled_at_ms f ∧ fa_key_version f' = fa_key_version f
     ∧ fa_ciphertext f' = fa_ciphertext f).
Definition code_keeps (used used' : option Z) : Prop := used ≠ None → used' = used.
Definition flow_keeps (f f' : FlowRow) : Prop :=
  (fl_consumed_at_ms f' = fl_consumed_at_ms f ∨ fl_consumed_at_ms f = None)
  ∧ f' = mk_flow (fl_kind f) (fl_user f) (fl_verifier_hash f) (fl_key_version f) (fl_payload_ciphertext f)
           (fl_expires_at_ms f) (fl_consumed_at_ms f').
Definition passkey_keeps (p p' : PasskeyRow) : Prop :=
  pk_user p' = pk_user p ∧ pk_created_at_ms p' = pk_created_at_ms p ∧ pk_display_name p' = pk_display_name p.
Definition identity_keeps (i i' : IdentityRow) : Prop := ei_user i' = ei_user i.

Record keeps (d d' : AuthDb) : Prop := {
  kp_factors : tbl factor_keeps (factors d) (factors d');
  kp_codes : tbl code_keeps (recovery_codes d) (recovery_codes d');
  kp_flows : tbl flow_keeps (flows d) (flows d');
  kp_passkeys : tbl passkey_keeps (passkeys d) (passkeys d');
  kp_identities : tbl identity_keeps (identities d) (identities d');
}.

(** ** Invariant *)

Record credentials_wf (d : AuthDb) : Prop := {
  cw_codes user hash used : recovery_codes d !! (user, hash) = Some used → totp_enabled user d = true;
  cw_step user f : factors d !! user = Some f → fa_enabled_at_ms f = None → fa_last_consumed_step f = None;
  cw_hashes i j f g : flows d !! i = Some f → flows d !! j = Some g →
    fl_verifier_hash f = fl_verifier_hash g → i = j;
}.

#[export] Instance step_le_refl : Reflexive step_le.
Proof. intros [n|]; cbn; [|done]. exists n. split; [done|lia]. Qed.
#[export] Instance step_le_trans : Transitive step_le.
Proof. intros [n|] y z; [|done]. intros (m & -> & ?) (l & -> & ?). exists l. split; [done|lia]. Qed.
#[export] Instance factor_keeps_refl : Reflexive factor_keeps.
Proof. intros f. split; [reflexivity|done]. Qed.
#[export] Instance factor_keeps_trans : Transitive factor_keeps.
Proof.
  intros f1 f2 f3 [S1 E1] [S2 E2]. split; [by etrans|]. intros He. destruct (E1 He) as (? & ? & ?).
  destruct E2 as (? & ? & ?); [congruence|]. split_and!; congruence.
Qed.
#[export] Instance code_keeps_refl : Reflexive code_keeps.
Proof. by intros u. Qed.
#[export] Instance code_keeps_trans : Transitive code_keeps.
Proof. intros a b c H1 H2 Ha. pose proof (H1 Ha) as ->. auto. Qed.
#[export] Instance flow_keeps_refl : Reflexive flow_keeps.
Proof. intros []. split; [by left|done]. Qed.
#[export] Instance flow_keeps_trans : Transitive flow_keeps.
Proof.
  intros f1 f2 f3 [C1 E1] [C2 E2]. rewrite E1 in E2. cbn in E2. split; [|done].
  destruct C1 as [C1|C1]; [|by right]. destruct C2 as [C2|C2]; [left; congruence|right; congruence].
Qed.
#[export] Instance passkey_keeps_refl : Reflexive passkey_keeps.
Proof. by intros p. Qed.
#[export] Instance passkey_keeps_trans : Transitive passkey_keeps.
Proof. intros p1 p2 p3 (?&?&?) (?&?&?). unfold passkey_keeps. split_and!; congruence. Qed.
#[export] Instance identity_keeps_refl : Reflexive identity_keeps.
Proof. by intros i. Qed.
#[export] Instance identity_keeps_trans : Transitive identity_keeps.
Proof. unfold identity_keeps. intros i1 i2 i3 ??. congruence. Qed.
#[export] Instance keeps_refl : Reflexive keeps.
Proof. intros d. by split. Qed.
#[export] Instance keeps_trans : Transitive keeps.
Proof. intros d1 d2 d3 [] []. split; by etrans. Qed.

(** One table changed. *)
Lemma keeps_kernel k d : keeps d (set_kernel k d).
Proof. by split. Qed.
Lemma keeps_factors f d : tbl factor_keeps (factors d) (f (factors d)) → keeps d (set_factors f d).
Proof. by split. Qed.
Lemma keeps_codes m d : tbl code_keeps (recovery_codes d) m → keeps d (set_recovery_codes m d).
Proof. by split. Qed.
Lemma keeps_flows f d : tbl flow_keeps (flows d) (f (flows d)) → keeps d (set_flows f d).
Proof. by split. Qed.
Lemma keeps_passkeys f d : tbl passkey_keeps (passkeys d) (f (passkeys d)) → keeps d (set_passkeys f d).
Proof. by split. Qed.
Lemma keeps_identities f d : tbl identity_keeps (identities d) (f (identities d)) → keeps d (set_identities f d).
Proof. by split. Qed.
Lemma keeps_providers f d : keeps d (set_providers f d).
Proof. by split. Qed.
Lemma keeps_redirects r d : keeps d (set_redirects r d).
Proof. by split. Qed.

(** ** Every statement respects both *)

Definition sound `{UuidText} (d d' : AuthDb) : Prop :=
  foreign (kernel d) (kernel d') ∧ (credentials_wf d → credentials_wf d' ∧ keeps d d').

Section statements.
Context `{UuidText}.

#[export] Instance sound_refl : Reflexive sound.
Proof. intros d. by split. Qed.
Lemma sound_trans d1 d2 d3 : sound d1 d2 → sound d2 d3 → sound d1 d3.
Proof.
  intros [F1 K1] [F2 K2]. split; [by etrans|]. intros [W2 ?]%K1. destruct (K2 W2). split; [done|]. by etrans.
Qed.
Lemma sound_kernel k d : foreign (kernel d) k → sound d (set_kernel k d).
Proof. intros Hf. split; [done|]. intros []. split; [by split|apply keeps_kernel]. Qed.

Lemma administrator_actor_Some session now d s :
  administrator_actor session now d = Some s →
  account_actor session now d = Some s ∧ is_administrator (s_user s) d = true ∧ stepped_up s = true.
Proof. unfold administrator_actor. intros E. open_stmt E. by bprop. Qed.

Lemma elevate_row_evolves s : session_evolves s (elevate_row s).
Proof. unfold session_evolves; cbn. split_and!; done || lia. Qed.
Lemma elevate_Some session s action resource aid rid now d d' :
  elevate session s action resource aid rid now d = Some d' →
  ∃ r, d' = set_kernel (set_audit (λ l, l ++ [r]) (set_sessions <[session := elevate_row s]> (kernel d))) d
    ∧ a_action r = action ∧ a_session r = Some session ∧ a_actor r = Some (s_user s) ∧ a_succeeded r = true.
Proof. unfold elevate. intros E. open_stmt E. eexists. split_and!; done. Qed.
Lemma elevate_sound session s action resource aid rid now d d' :
  sessions (kernel d) !! session = Some s →
  elevate session s action resource aid rid now d = Some d' → sound d d'.
Proof.
  intros Hs (r & -> & _)%elevate_Some. apply sound_kernel. etrans; [|apply foreign_audit].
  apply foreign_sessions. eapply tbl_insert_old; [apply _|done|]. apply elevate_row_evolves.
Qed.

(** *** Factors and recovery codes *)

Lemma totp_enabled_spec user d :
  totp_enabled user d = true ↔ ∃ f, factors d !! user = Some f ∧ fa_enabled_at_ms f ≠ None.
Proof.
  unfold totp_enabled. destruct (factors d !! user) as [f|]; [|naive_solver].
  rewrite bool_decide_eq_true, <- not_eq_None_Some. naive_solver.
Qed.
(** A factor is replaced by one that keeps it. *)
Lemma set_factor_sound user f d :
  (∀ f0, factors d !! user = Some f0 → credentials_wf d → factor_keeps f0 f) →
  (credentials_wf d → fa_enabled_at_ms f = None → fa_last_consumed_step f = None) →
  sound d (set_factors <[user := f]> d).
Proof.
  intros Hf Hs. split; [done|]. intros W. split; [split|].
  - intros u h used Hc%(cw_codes _ W). apply totp_enabled_spec. apply totp_enabled_spec in Hc as (g & Hg & He).
    cbn. destruct (decide (user = u)) as [<-|]; [|rewrite lookup_insert_ne by done; eauto].
    exists f. rewrite lookup_insert_eq. split; [done|]. destruct (Hf g Hg W) as [_ Hk].
    by destruct (Hk He) as (-> & _).
  - intros u g. cbn. destruct (decide (user = u)) as [<-|].
    + rewrite lookup_insert_eq. intros [= <-]. by apply Hs.
    + rewrite lookup_insert_ne by done. apply (cw_step _ W).
  - apply (cw_hashes _ W).
  - apply keeps_factors. destruct (factors d !! user) as [f0|] eqn:E.
    + eapply tbl_insert_old; [apply _|done|]. by apply Hf.
    + by apply tbl_insert_new; [apply _|].
Qed.
(** Recovery codes replaced while the factor is enabled. *)
Lemma set_codes_sound m d :
  tbl code_keeps (recovery_codes d) m →
  (∀ user h used, m !! (user, h) = Some used →
     is_Some (recovery_codes d !! (user, h)) ∨ totp_enabled user d = true) →
  sound d (set_recovery_codes m d).
Proof.
  intros Hm Hn. split; [done|]. intros W. split; [split|by apply keeps_codes].
  - intros u h used Hc. cbn in Hc. destruct (Hn u h used Hc) as [[v Hv]|]; [|done]. by eapply (cw_codes _ W).
  - apply (cw_step _ W).
  - apply (cw_hashes _ W).
Qed.
Lemma insert_codes_Some user codes m m' :
  insert_codes user codes m = Some m' →
  (∀ k v, m !! k = Some v → m' !! k = Some v)
  ∧ (∀ u h v, m' !! (u, h) = Some v → m !! (u, h) = Some v ∨ (u = user ∧ h ∈ codes ∧ v = None))
  ∧ (∀ h, h ∈ codes → m !! (user, h) = None ∧ m' !! (user, h) = Some None) ∧ NoDup codes.
Proof.
  revert m. induction codes as [|c codes IH]; cbn; intros m E.
  { injection E as <-. split_and!; [done|by left| |constructor]. by intros h ?%not_elem_of_nil. }
  destruct (m !! (user, c)) eqn:Ec; [done|]. apply IH in E as (K & B & F & ND). split_and!.
  - intros k v Hv. apply K. rewrite lookup_insert_ne; [done|]. intros <-. congruence.
  - intros u h v [Hv|(-> & ? & ->)]%B; [|right; split_and!; [done|by right|done]].
    destruct (decide ((u, h) = (user, c))) as [[= -> ->]|Hne].
    + rewrite lookup_insert_eq in Hv. injection Hv as <-. right. split_and!; [done|by left|done].
    + rewrite lookup_insert_ne in Hv by congruence. by left.
  - intros h [->|Hh]%elem_of_cons.
    + split; [done|]. apply K. by rewrite lookup_insert_eq.
    + destruct (F h Hh) as [Hn Hs]. split; [|done]. rewrite lookup_insert_ne in Hn; [done|].
      intros [= <-]. by rewrite lookup_insert_eq in Hn.
  - constructor; [|done]. intros [Hn _]%F. by rewrite lookup_insert_eq in Hn.
Qed.

(** The pending factor is enabled: the codes of its user, of which there are
    none yet, are replaced. *)
Lemma enable_factor_sound user f now step codes d d' :
  factors d !! user = Some f → fa_enabled_at_ms f = None →
  enable_factor user f now step codes d = Some d' → sound d d'.
Proof.
  unfold enable_factor. intros Hf Hn E. open_stmt E.
  match goal with Hi : insert_codes _ _ _ = Some ?m |- _ =>
    rename m into codes'; apply insert_codes_Some in Hi as (K & B & _) end.
  split; [done|]. intros W.
  set (g := mk_factor _ _ _ _).
  assert (∀ h, recovery_codes d !! (user, h) = None) as Hnone.
  { intros h. destruct (recovery_codes d !! (user, h)) eqn:Ec; [|done].
    apply (cw_codes _ W), totp_enabled_spec in Ec as (f' & Hf' & He). congruence. }
  destruct (set_factor_sound user g d) as [_ Hs].
  { intros f0 Hf0 _. rewrite Hf0 in Hf. injection Hf as ->. split; [|done]. by rewrite (cw_step _ W user f). }
  { done. }
  destruct (Hs W) as [W' K']. destruct (set_codes_sound codes' (set_factors <[user := g]> d)) as [_ Hc].
  - intros [u h] v Hv. exists v. split; [|done]. apply K. apply map_lookup_filter_Some. split; [done|]. cbn.
    intros ->. cbn in Hv. congruence.
  - intros u h used [Hu|(-> & _ & _)]%B; [left|right].
    + apply map_lookup_filter_Some in Hu as [Hu _]. eauto.
    + apply totp_enabled_spec. exists g. cbn. by rewrite lookup_insert_eq.
  - destruct (Hc W') as [W'' K'']. split; [done|]. by etrans.
Qed.
Lemma enable_pending_Some user ciphertext now step codes d d' :
  enable_pending user ciphertext now step codes d = Some d' →
  (d' = d ∧ ∀ f, factors d !! user = Some f → pending_factor ciphertext f = false)
  ∨ ∃ f, factors d !! user = Some f ∧ fa_ciphertext f = ciphertext ∧ fa_enabled_at_ms f = None
      ∧ enable_factor user f now step codes d = Some d'.
Proof.
  unfold enable_pending, pending_factor. destruct (factors d !! user) as [f|] eqn:Ef.
  - destruct (_ && _) eqn:Ep; intros E.
    + right. exists f. apply andb_true_iff in Ep as [?%bool_decide_eq_true ?%bool_decide_eq_true]. by split_and!.
    + injection E as <-. left. split; [done|]. by intros ? [= <-].
  - intros [= <-]. by left.
Qed.
Lemma enable_pending_sound user ciphertext now step codes d d' :
  enable_pending user ciphertext now step codes d = Some d' → sound d d' ∧ kernel d' = kernel d.
Proof.
  intros [[-> _]|(f & Hf & _ & Hn & E)]%enable_pending_Some; [done|]. split; [by eapply enable_factor_sound|].
  unfold enable_factor in E. by open_stmt E.
Qed.

Lemma start_totp_sound session version ciphertext now aid rid d o d' :
  start_totp_enrollment session version ciphertext now aid rid d = Some (o, d') → sound d d'.
Proof.
  unfold start_totp_enrollment. intros E. open_stmt E; try reflexivity.
  match goal with Ht : totp_enabled _ _ = false |- _ => rename Ht into Hn end.
  rewrite <- not_true_iff_false, totp_enabled_spec in Hn.
  eapply sound_trans; [apply set_factor_sound|apply sound_kernel; cbn; apply foreign_audit]; cbn.
  - intros f0 Hf0 W. split; cbn; [by rewrite Hf0|]. intros He. destruct Hn. eauto.
  - intros W _. destruct (factors d !! _) as [f|] eqn:Ef; [|done]. cbn. eapply (cw_step _ W); [done|].
    destruct (fa_enabled_at_ms f) eqn:Ee; [|done]. destruct Hn. exists f. by rewrite Ee.
Qed.
Lemma confirm_totp_sound session ciphertext now codes aid rid step d o d' :
  confirm_totp_enrollment session ciphertext now codes aid rid step d = Some (o, d') → sound d d'.
Proof.
  unfold confirm_totp_enrollment. intros E. open_stmt E; [|reflexivity].
  match goal with Ha : account_actor _ _ _ = Some _ |- _ => apply account_actor_Some in Ha as [Hs _] end.
  match goal with Hp : enable_pending _ _ _ _ _ _ = Some _ |- _ => apply enable_pending_sound in Hp as [? Hk] end.
  eapply sound_trans; [done|]. eapply elevate_sound; [|eassumption]. by rewrite Hk.
Qed.
Lemma load_totp_factor_Some session now d user f :
  load_totp_factor session now d = Some (user, f) ↔
  ∃ s, account_actor session now (kernel d) = Some s ∧ s_user s = user ∧ factors d !! user = Some f.
Proof.
  unfold load_totp_factor. rewrite bind_Some. setoid_rewrite bind_Some. naive_solver.
Qed.
(** A step-up that succeeds. *)
Lemma verify_totp_cases session ciphertext now aid rid step d o d' :
  verify_totp_step_up session ciphertext now aid rid step d = Some (o, d') →
  (o = false ∧ d' = d)
  ∨ ∃ s f, o = true ∧ account_actor session now (kernel d) = Some s ∧ factors d !! s_user s = Some f
      ∧ enabled_factor ciphertext f = true ∧ consumable step f = true
      ∧ elevate session s (lit "auth.mfa.totp.verify") (lit "session", uuid_to_string session) aid rid now
          (set_factors <[s_user s := consume_step step f]> d) = Some d'.
Proof.
  unfold verify_totp_step_up. destruct (load_totp_factor session now d) as [[user f]|] eqn:El; [|intros [= <- <-]; by left].
  apply load_totp_factor_Some in El as (s & Ha & <- & Hf). rewrite Ha.
  destruct (_ && _) eqn:Ec; [|intros [= <- <-]; by left]. apply andb_true_iff in Ec as [Hen Hc].
  intros (d1 & E & [= <- <-])%bind_Some. right. exists s, f. split_and!; done.
Qed.
Lemma consumable_step_le step f : consumable step f = true → step_le (fa_last_consumed_step f) (Some step).
Proof.
  unfold consumable, step_le. destruct (fa_last_consumed_step f) as [n|]; [|done]. intros ?%Z.ltb_lt.
  exists step. split; [done|lia].
Qed.
Lemma verify_totp_sound session ciphertext now aid rid step d o d' :
  verify_totp_step_up session ciphertext now aid rid step d = Some (o, d') → sound d d'.
Proof.
  intros [[_ ->]|(s & f & _ & Ha & Hf & He & Hc & E)]%verify_totp_cases; [reflexivity|].
  apply account_actor_Some in Ha as [Hs _]. eapply sound_trans; [|eapply elevate_sound; [|exact E]; exact Hs].
  apply andb_true_iff in He as [He _]. bprop. apply set_factor_sound.
  - intros f0 Hf0 _. rewrite Hf0 in Hf. injection Hf as ->. split; [by apply consumable_step_le|done].
  - cbn. intros _ Hn. destruct He. congruence.
Qed.
Lemma use_recovery_cases session hash now aid rid d o d' :
  use_recovery_code session hash now aid rid d = Some (o, d') →
  (o = false ∧ d' = d)
  ∨ ∃ s, o = true ∧ account_actor session now (kernel d) = Some s
      ∧ recovery_codes d !! (s_user s, hash) = Some None
      ∧ elevate session s (lit "auth.mfa.recovery.verify") (lit "session", uuid_to_string session) aid rid now
          (set_recovery_codes (<[(s_user s, hash) := Some now]> (recovery_codes d)) d) = Some d'.
Proof.
  unfold use_recovery_code. destruct (account_actor session now (kernel d)) as [s|] eqn:Ha; [|intros [= <- <-]; by left].
  destruct (recovery_codes d !! _) as [[used|]|] eqn:Ec; [intros [= <- <-]; by left| |intros [= <- <-]; by left].
  intros (d1 & E & [= <- <-])%bind_Some. right. exists s. by split_and!.
Qed.
Lemma use_recovery_sound session hash now aid rid d o d' :
  use_recovery_code session hash now aid rid d = Some (o, d') → sound d d'.
Proof.
  intros [[_ ->]|(s & _ & Ha & Hc & E)]%use_recovery_cases; [reflexivity|].
  apply account_actor_Some in Ha as [Hs _]. eapply sound_trans; [|eapply elevate_sound; [|exact E]; exact Hs]. apply set_codes_sound.
  - eapply tbl_insert_old; [apply _|exact Hc|]. by intros [].
  - intros u h used. destruct (decide ((s_user s, hash) = (u, h))) as [[= <- <-]|Hne]; [eauto|].
    rewrite lookup_insert_ne by done. eauto.
Qed.

(** *** Flows *)

Lemma open_flow_spec kind hash now f :
  open_flow kind hash now f = true ↔
  fl_verifier_hash f = hash ∧ fl_kind f = kind ∧ fl_consumed_at_ms f = None ∧ now ≤ fl_expires_at_ms f.
Proof. unfold open_flow. rewrite !andb_true_iff, !bool_decide_eq_true, Z.leb_le. naive_solver. Qed.
Lemma set_flow_sound id f d :
  (∀ f0, flows d !! id = Some f0 → flow_keeps f0 f) →
  (∀ j g, flows d !! j = Some g → fl_verifier_hash g = fl_verifier_hash f → j = id) →
  sound d (set_flows <[id := f]> d).
Proof.
  intros Hf Hu. split; [done|]. intros W. split; [split|].
  - apply (cw_codes _ W).
  - apply (cw_step _ W).
  - intros i j g g'. cbn. destruct (decide (id = i)) as [<-|], (decide (id = j)) as [<-|];
      rewrite ?lookup_insert_eq, ?lookup_insert_ne by done; try done.
    + intros [= <-] Hj Hh. symmetry. by eapply Hu.
    + intros Hi [= <-] Hh. by eapply Hu.
    + apply (cw_hashes _ W).
  - apply keeps_flows. destruct (flows d !! id) as [f0|] eqn:E.
    + eapply tbl_insert_old; [apply _|done|]. by apply Hf.
    + by apply tbl_insert_new; [apply _|].
Qed.
Lemma flow_hash_used_spec hash d :
  flow_hash_used hash d = true ↔ ∃ j g, flows d !! j = Some g ∧ fl_verifier_hash g = hash.
Proof.
  unfold flow_hash_used. rewrite existsb_exists. setoid_rewrite <- list_elem_of_In. split.
  - intros ([j g] & Hin%elem_of_map_to_list & Hh). bprop. eauto.
  - intros (j & g & Hin%elem_of_map_to_list & Hh). exists (j, g). split; [done|]. by bprop.
Qed.
Lemma create_flow_Some id f d o d' :
  create_auth_flow id f d = Some (o, d') →
  o = true ∧ d' = set_flows <[id := f]> d ∧ flows d !! id = None
  ∧ ∀ j g, flows d !! j = Some g → fl_verifier_hash g ≠ fl_verifier_hash f.
Proof.
  unfold create_auth_flow. destruct (_ || _) eqn:E; [done|]. intros [= <- <-].
  apply orb_false_iff in E as [[Hi Hh]%orb_false_iff _].
  split_and!; [done|done| |].
  - apply bool_decide_eq_false in Hi. by apply eq_None_not_Some.
  - intros j g Hj Heq. rewrite <- not_true_iff_false in Hh. apply Hh, flow_hash_used_spec. eauto.
Qed.
Lemma create_flow_sound id f d o d' : create_auth_flow id f d = Some (o, d') → sound d d'.
Proof.
  intros (_ & -> & Hi & Hh)%create_flow_Some. apply set_flow_sound; [naive_solver|].
  intros j g Hj Heq. by destruct (Hh j g).
Qed.
Lemma consume_flow_Some id hash kind owner now d d' :
  consume_flow id hash kind owner now d = Some d' →
  ∃ f, flows d !! id = Some f ∧ open_flow kind hash now f = true ∧ owner f = true
    ∧ d' = set_flows <[id := consume_flow_row now f]> d.
Proof.
  unfold consume_flow. intros (f & Hf & E)%bind_Some. destruct (_ && _) eqn:Ec; [|done]. injection E as <-.
  apply andb_true_iff in Ec as [? ?]. eauto.
Qed.
Lemma consume_flow_sound id hash kind owner now d d' :
  consume_flow id hash kind owner now d = Some d' → sound d d' ∧ kernel d' = kernel d.
Proof.
  intros (f & Hf & Ho & _ & ->)%consume_flow_Some. split; [|done].
  apply open_flow_spec in Ho as (Hh & _ & Hc & _).
  split; [done|]. intros W. eapply set_flow_sound; [| |done].
  - intros f0 Hf0. rewrite Hf0 in Hf. injection Hf as ->. split; [by right|done].
  - intros j g Hj Heq. by eapply (cw_hashes _ W).
Qed.

(** *** Passkeys *)

Lemma set_passkey_sound id p d :
  (∀ p0, passkeys d !! id = Some p0 → passkey_keeps p0 p) → sound d (set_passkeys <[id := p]> d).
Proof.
  intros Hp. split; [done|]. intros []. split; [by split|]. apply keeps_passkeys.
  destruct (passkeys d !! id) as [p0|] eqn:E.
  - eapply tbl_insert_old; [apply _|done|]. by apply Hp.
  - by apply tbl_insert_new; [apply _|].
Qed.
Lemma register_passkey_sound a d o d' : complete_passkey_registration a d = Some (o, d') → sound d d'.
Proof.
  unfold complete_passkey_registration. intros E.
  destruct (account_actor _ _ _) as [s|] eqn:Ha; [|by injection E as <- <-].
  destruct (consume_flow _ _ _ _ _ _) as [d1|] eqn:Hc; [|by injection E as <- <-].
  apply account_actor_Some in Ha as [Hs _]. apply consume_flow_sound in Hc as [Hc Hk].
  eapply sound_trans; [exact Hc|]. open_stmt E; [reflexivity|].
  match goal with He : elevate _ _ _ _ _ _ _ _ = Some _ |- _ =>
    eapply sound_trans; [|eapply elevate_sound; [|exact He]; cbn; by rewrite Hk] end.
  apply set_passkey_sound. intros p0 Hp0.
  match goal with Hb : bool_decide _ = false |- _ => apply bool_decide_eq_false in Hb; destruct Hb; eauto end.
Qed.
Lemma foreign_new_session id s d : sessions d !! id = None → foreign d (set_sessions <[id := s]> d).
Proof. intros Hs. apply foreign_sessions. by apply tbl_insert_new; [apply _|]. Qed.
Lemma assert_passkey_sound a d o d' : complete_passkey_authentication a d = Some (o, d') → sound d d'.
Proof.
  unfold complete_passkey_authentication. intros E.
  destruct (consume_flow _ _ _ _ _ _) as [d1|] eqn:Hc; [|by injection E as <- <-].
  apply consume_flow_sound in Hc as [Hc Hk]. eapply sound_trans; [exact Hc|].
  destruct (current_credential a d1) as [p|] eqn:Hp; [|by injection E as <- <-].
  destruct (pa_sign_count a <? 0); [done|]. cbv zeta in E.
  match type of E with context [set_passkeys ?f d1] => assert (sound d1 (set_passkeys f d1)) as Hset end.
  { apply set_passkey_sound. unfold current_credential in Hp. open_stmt Hp. intros p0 Hp0. by simplify_eq. }
  eapply sound_trans; [exact Hset|]. open_stmt E; try reflexivity.
  apply sound_kernel. cbn. etrans; [by apply foreign_new_session|apply foreign_audit].
Qed.

(** *** OAuth identities *)

Lemma set_identity_sound k i d :
  (∀ i0, identities d !! k = Some i0 → identity_keeps i0 i) → sound d (set_identities <[k := i]> d).
Proof.
  intros Hi. split; [done|]. intros []. split; [by split|]. apply keeps_identities.
  destruct (identities d !! k) as [i0|] eqn:E.
  - eapply tbl_insert_old; [apply _|done|]. by apply Hi.
  - by apply tbl_insert_new; [apply _|].
Qed.
Lemma selected_user_sound a d o d' : selected_user a d = Some (o, d') → sound d d'.
Proof.
  unfold selected_user, resolved_user. intros E. open_stmt E; try reflexivity.
  apply sound_kernel, foreign_users, tbl_insert_new; [apply _|].
  match goal with Hb : bool_decide _ = false |- _ => apply bool_decide_eq_false in Hb end. by apply eq_None_not_Some.
Qed.
Lemma linked_identity_sound a user d d' : linked_identity a user d = Some d' → sound d d'.
Proof.
  unfold linked_identity. intros E. open_stmt E; apply set_identity_sound; intros i0 Hi0; bprop; unfold identity_keeps; cbn; congruence.
Qed.
Lemma oauth_session_sound a user u d o d' : oauth_session a user u d = Some (o, d') → sound d d'.
Proof.
  unfold oauth_session. intros E. open_stmt E. apply sound_kernel.
  etrans; [by apply foreign_new_session|apply foreign_audit].
Qed.
Lemma complete_oauth_sound a d o d' : complete_oauth_identity a d = Some (o, d') → sound d d'.
Proof.
  unfold complete_oauth_identity. intros E.
  destruct (consume_flow _ _ _ _ _ _) as [d1|] eqn:Hc; [|by injection E as <- <-].
  apply consume_flow_sound in Hc as [Hc _]. eapply sound_trans; [exact Hc|].
  apply bind_Some in E as ([sel d2] & Hs%selected_user_sound & E). eapply sound_trans; [exact Hs|].
  destruct sel as [[user u]|]; [|by injection E as <- <-].
  destruct (linked_identity a user d2) as [d3|] eqn:Hl; [|by injection E as <- <-].
  eapply sound_trans; [by eapply linked_identity_sound|].
  destruct (bool_decide _); [by eapply oauth_session_sound|by injection E as <- <-].
Qed.

(** *** Administration *)

Lemma sound_providers f d : sound d (set_providers f d).
Proof. split; [done|]. intros []. split; [by split|apply keeps_providers]. Qed.
Lemma sound_redirects r d : sound d (set_redirects r d).
Proof. split; [done|]. intros []. split; [by split|apply keeps_redirects]. Qed.
Lemma save_provider_sound session provider name enabled now aid rid d o d' :
  save_oauth_provider session provider name enabled now aid rid d = Some (o, d') → sound d d'.
Proof.
  unfold save_oauth_provider. intros E. open_stmt E; [|reflexivity].
  eapply sound_trans; [apply sound_providers|apply sound_kernel, foreign_audit].
Qed.
Lemma replace_redirects_sound session paths now aid rid d o d' :
  replace_application_redirects session paths now aid rid d = Some (o, d') → sound d d'.
Proof.
  unfold replace_application_redirects. intros E. open_stmt E; [|reflexivity].
  eapply sound_trans; [apply sound_redirects|apply sound_kernel, foreign_audit].
Qed.

(** ** Runs *)

Lemma auth_run_sound stmt d d' : auth_run stmt d = Some d' → sound d d'.
Proof.
  destruct stmt; cbn; intros ([o d1] & E & ->)%fmap_Some;
    eauto using start_totp_sound, confirm_totp_sound, verify_totp_sound, use_recovery_sound, create_flow_sound,
      register_passkey_sound, assert_passkey_sound, complete_oauth_sound, save_provider_sound, replace_redirects_sound.
Qed.
Lemma astep_kstep d d' : astep d d' → kstep (kernel d) (kernel d').
Proof. intros [d0 k Hk|stmt d0 d0' [Hf _]%auth_run_sound]; [done|by apply k_foreign]. Qed.
Lemma asteps_ksteps d d' : rtc astep d d' → rtc kstep (kernel d) (kernel d').
Proof. induction 1 as [|d1 d2 d3 Hs _ IH]; [done|]. eapply rtc_l; [by apply astep_kstep|done]. Qed.
Lemma astep_keeps d d' : astep d d' → credentials_wf d → credentials_wf d' ∧ keeps d d'.
Proof.
  intros [d0 k Hk|stmt d0 d0' [_ Hs]%auth_run_sound]; [|done].
  intros []. split; [by split|apply keeps_kernel].
Qed.
Lemma asteps_keep d d' : rtc astep d d' → credentials_wf d → credentials_wf d' ∧ keeps d d'.
Proof.
  induction 1 as [|d1 d2 d3 Hs _ IH]; [done|]. intros W. destruct (astep_keeps _ _ Hs W) as [W2 K2].
  destruct (IH W2) as [W3 K3]. split; [done|]. by etrans.
Qed.
(** Steps of the kernel are steps of the database. *)
Lemma ksteps_asteps d k : rtc kstep (kernel d) k → rtc astep d (set_kernel k d).
Proof.
  intros Hr. remember (kernel d) as k0 eqn:Hk. revert d Hk. induction Hr as [k|k1 k2 k3 Hs Hr IH]; intros d ->.
  - by destruct d.
  - eapply rtc_l; [by apply a_kernel|]. exact (IH (set_kernel k2 d) eq_refl).
Qed.
End statements.
