(* ===== verification/CredentialWire.v ===== *)
(** * CredentialWire: the credential statements on the wire

    [auth_exec] executes a statement text that mfa.rs, flows.rs, passkeys.rs
    and oauth.rs of src/crates/wasi-auth/src/postgres send, on its parameters
    in the order of the placeholders, and lays out the columns of its result.
    [AuthWorld] is the transport of these services.  Its database has the one
    of [KernelWorld] as its kernel; a call executes its statement at one moment
    between the call and its return, and any statement of the library may run
    before and after that moment. *)

From S2P Require Export Workflows CredentialHistory.
Open Scope Z_scope.

#[local] Arguments lit : simpl never.

Inductive AuthSql :=
| MFA_STATUS_SQL | START_TOTP_ENROLLMENT_SQL | LOAD_TOTP_FACTOR_SQL | CONFIRM_TOTP_ENROLLMENT_SQL
| VERIFY_TOTP_STEP_UP_SQL | USE_RECOVERY_CODE_SQL
| CREATE_AUTH_FLOW_SQL | LOAD_AUTH_FLOW_SQL
| LOAD_PASSKEYS_FOR_USER_SQL | LOAD_PASSKEYS_FOR_EMAIL_SQL | LOAD_PASSKEY_CREDENTIAL_SQL
| COMPLETE_PASSKEY_REGISTRATION_SQL | COMPLETE_PASSKEY_AUTHENTICATION_SQL
| COMPLETE_OAUTH_IDENTITY_SQL | VALIDATE_APPLICATION_REDIRECT_SQL | LIST_OAUTH_PROVIDERS_SQL
| GET_OAUTH_PROVIDER_SQL | SAVE_OAUTH_PROVIDER_SQL | REPLACE_APPLICATION_REDIRECTS_SQL.

(** [decode(.., 'hex')]: pairs of digits, between which white space is
    skipped; anything else is an error. *)
Definition hex_digit_value (c : Z) : option Z :=
  if in_range 48 57 c then Some (c - 48)
  else if in_range 97 102 c then Some (c - 87)
  else if in_range 65 70 c then Some (c - 55)
  else None.
Fixpoint pg_decode_hex (s : str) : option (list Z) :=
  match s with
  | [] => Some []
  | h :: s =>
      if one_of [32; 10; 9; 13] h then pg_decode_hex s else
      match s with
      | l :: s =>
          high ← hex_digit_value h; low ← hex_digit_value l; bytes ← pg_decode_hex s;
          Some (high * 16 + low :: bytes)
      | [] => None
      end
  end.
(** [jsonb_array_elements_text] on an array of strings *)
Definition json_texts (v : Value) : option (list str) := l ← as_array v; mapM as_str l.

Section wire.
Context `{UuidText}.

(** ** Columns *)

Definition status_columns (o : StatusOut) : PgRow :=
  PgRow_new [(lit "totp_enrolled", PgBool (st_enrolled o)); (lit "assurance", PgText (assurance_text (st_assurance o)));
             (lit "recovery_codes_remaining", PgI64 (st_remaining o))].
Definition factor_columns (uf : Uuid * FactorRow) : PgRow :=
  PgRow_new [(lit "user_id", PgText (uuid_to_string uf.1)); (lit "key_version", PgText (fa_key_version uf.2));
             (lit "secret_ciphertext", PgBytes (fa_ciphertext uf.2)); (lit "enabled_at_ms", pg_i64 (fa_enabled_at_ms uf.2))].
Definition flow_columns (kf : Uuid * FlowRow) : PgRow :=
  PgRow_new [(lit "flow_id", PgText (uuid_to_string kf.1)); (lit "user_id", pg_uuid (fl_user kf.2));
             (lit "key_version", PgText (fl_key_version kf.2)); (lit "payload_ciphertext", PgBytes (fl_payload_ciphertext kf.2))].
Definition passkey_columns (user : Uuid) (u : UserRow) (kp : option (list Z * PasskeyRow)) : PgRow :=
  PgRow_new [(lit "user_id", PgText (uuid_to_string user)); (lit "primary_email", PgText (u_primary_email u));
             (lit "credential_id", pg_bytes (fst <$> kp)); (lit "public_key_cose", pg_bytes (pk_public_key_cose <$> (snd <$> kp)))].
Definition credential_columns (user : Uuid) (up : UserRow * PasskeyRow) : PgRow :=
  PgRow_new [(lit "user_id", PgText (uuid_to_string user)); (lit "primary_email", PgText (u_primary_email up.1));
             (lit "public_key_cose", PgBytes (pk_public_key_cose up.2)); (lit "sign_count", PgI64 (pk_sign_count up.2))].
Definition completion_columns (outcome : string) (c : CompletionOut) : PgRow :=
  PgRow_new [(lit "outcome", PgText (lit outcome)); (lit "session_id", PgText (uuid_to_string (cp_session c)));
             (lit "user_id", PgText (uuid_to_string (cp_user c))); (lit "primary_email", PgText (cp_primary_email c));
             (lit "expires_at_ms", PgI64 (cp_expires_at_ms c))].
(** The other branch of the [UNION ALL], with nulls. *)
Definition refusal_columns (outcome : string) : PgRow :=
  PgRow_new [(lit "outcome", PgText (lit outcome)); (lit "session_id", PgNull); (lit "user_id", PgNull);
             (lit "primary_email", PgNull); (lit "expires_at_ms", PgNull)].
Definition registration_columns (o : RegistrationOutcome) : PgRow :=
  match o with
  | PasskeyRegistered c => completion_columns "registered" c
  | CredentialConflict => refusal_columns "credential_conflict"
  end.
Definition assertion_columns (o : AssertionOutcome) : PgRow :=
  match o with
  | PasskeyAuthenticated c => completion_columns "authenticated" c
  | CounterConflict => refusal_columns "counter_conflict"
  end.
Definition oauth_columns (o : OAuthOutcome) : PgRow :=
  match o with
  | OAuthCompleted c => completion_columns "completed" c
  | OAuthAccountUnavailable => refusal_columns "account_unavailable"
  end.
Definition provider_columns (kp : str * ProviderRow) : PgRow :=
  PgRow_new [(lit "provider_id", PgText kp.1); (lit "display_name", PgText (pc_display_name kp.2));
             (lit "enabled", PgBool (pc_enabled kp.2)); (lit "scopes", PgJson (pc_scopes kp.2));
             (lit "claim_mapping", PgJson (pc_claim_mapping kp.2))].
Definition redirect_columns (path : str) : PgRow := PgRow_new [(lit "redirect_path", PgText path)].

(** A text parameter that may be null. *)
Definition opt_text (v : PgValue) : option (option str) :=
  match v with PgNull => Some None | PgText t => Some (Some t) | _ => None end.

(** ** Execution *)

Definition auth_exec (sql : AuthSql) (ps : list PgValue) (d : AuthDb) : option (list PgRow * AuthDb) :=
  match sql, ps with
  | MFA_STATUS_SQL, [PgText session; PgI64 now] =>
      session ← uuid_parse_str session; Some (opt_rows status_columns (mfa_status session now d), d)
  | START_TOTP_ENROLLMENT_SQL, [PgText session; PgText version; PgBytes ciphertext; PgI64 now; PgText aid; PgText rid] =>
      session ← uuid_parse_str session; aid ← uuid_parse_str aid;
      '(ok, d) ← start_totp_enrollment session version ciphertext now aid rid d;
      Some (flag_rows (kernel_outcome "started") ok, d)
  | LOAD_TOTP_FACTOR_SQL, [PgText session; PgI64 now] =>
      session ← uuid_parse_str session; Some (opt_rows factor_columns (load_totp_factor session now d), d)
  | CONFIRM_TOTP_ENROLLMENT_SQL,
      [PgText session; PgBytes ciphertext; PgI64 now; PgJson codes; PgText aid; PgText rid; PgI64 step] =>
      session ← uuid_parse_str session; aid ← uuid_parse_str aid;
      texts ← json_texts codes; codes ← mapM pg_decode_hex texts;
      '(ok, d) ← confirm_totp_enrollment session ciphertext now codes aid rid step d;
      Some (flag_rows (kernel_outcome "confirmed") ok, d)
  | VERIFY_TOTP_STEP_UP_SQL, [PgText session; PgBytes ciphertext; PgI64 now; PgText aid; PgText rid; PgI64 step] =>
      session ← uuid_parse_str session; aid ← uuid_parse_str aid;
      '(ok, d) ← verify_totp_step_up session ciphertext now aid rid step d;
      Some (flag_rows (kernel_outcome "elevated") ok, d)
  | USE_RECOVERY_CODE_SQL, [PgText session; PgBytes hash; PgI64 now; PgText aid; PgText rid] =>
      session ← uuid_parse_str session; aid ← uuid_parse_str aid;
      '(ok, d) ← use_recovery_code session hash now aid rid d;
      Some (flag_rows (kernel_outcome "elevated") ok, d)
  | CREATE_AUTH_FLOW_SQL,
      [PgText id; PgText kind; user; PgBytes hash; PgText version; PgBytes payload; PgI64 expires; PgI64 now] =>
      id ← uuid_parse_str id; kind ← flow_kind_of kind; user ← opt_uuid user;
      '(ok, d) ← create_auth_flow id (mk_flow kind user hash version payload expires None) d;
      Some (flag_rows (kernel_outcome "created") ok, d)
  | LOAD_AUTH_FLOW_SQL, [PgBytes hash; PgText kind; PgI64 now] =>
      kind ← flow_kind_of kind; Some (opt_rows flow_columns (load_auth_flow hash kind now d), d)
  | LOAD_PASSKEYS_FOR_USER_SQL, [PgText user] =>
      user ← uuid_parse_str user;
      Some (match load_passkeys_for_user user d with
            | None => []
            | Some (u, []) => [passkey_columns user u None]
            | Some (u, l) => map (λ kp, passkey_columns user u (Some kp)) l
            end, d)
  | LOAD_PASSKEYS_FOR_EMAIL_SQL, [PgText email] =>
      Some (map (λ r, passkey_columns r.1.1 r.1.2 (Some r.2)) (load_passkeys_for_email email d), d)
  | LOAD_PASSKEY_CREDENTIAL_SQL, [PgText user; PgBytes credential] =>
      user ← uuid_parse_str user;
      Some (opt_rows (credential_columns user) (load_passkey_credential user credential d), d)
  | COMPLETE_PASSKEY_REGISTRATION_SQL,
      [PgBytes hash; PgText flow; PgText session; PgBytes credential; PgBytes cose; PgI64 count; PgJson transports;
       PgI64 now; PgText name; PgText aid; PgText rid] =>
      flow ← uuid_parse_str flow; session ← uuid_parse_str session; aid ← uuid_parse_str aid;
      '(o, d) ← complete_passkey_registration
        (mk_passkey_registration hash flow session credential cose count transports now name aid rid) d;
      Some (opt_rows registration_columns o, d)
  | COMPLETE_PASSKEY_AUTHENTICATION_SQL,
      [PgBytes hash; PgText flow; PgText user; PgBytes credential; PgBytes cose; PgI64 stored; PgI64 count;
       PgJson transports; PgText session; PgI64 expires; PgText aid; PgI64 now; PgText rid] =>
      flow ← uuid_parse_str flow; user ← uuid_parse_str user; session ← uuid_parse_str session;
      aid ← uuid_parse_str aid;
      '(o, d) ← complete_passkey_authentication
        (mk_passkey_assertion hash flow user credential cose stored count transports session expires aid now rid) d;
      Some (opt_rows assertion_columns o, d)
  | COMPLETE_OAUTH_IDENTITY_SQL,
      [PgBytes hash; PgText flow; PgText provider; PgText subject; email; primary; PgJson profile; PgText new_user;
       PgText session; PgI64 expires; PgI64 now; PgText aid; PgText rid] =>
      flow ← uuid_parse_str flow; email ← opt_text email; primary ← opt_text primary; new_user ← uuid_parse_str new_user;
      session ← uuid_parse_str session; aid ← uuid_parse_str aid;
      '(o, d) ← complete_oauth_identity
        (mk_oauth_args hash flow provider subject email primary profile new_user session expires now aid rid) d;
      Some (opt_rows oauth_columns o, d)
  | VALIDATE_APPLICATION_REDIRECT_SQL, [PgText path] =>
      Some (flag_rows (redirect_columns path) (validate_application_redirect path d), d)
  | LIST_OAUTH_PROVIDERS_SQL, [] => Some (map provider_columns (list_oauth_providers d), d)
  | GET_OAUTH_PROVIDER_SQL, [PgText provider] => Some (opt_rows provider_columns (get_oauth_provider provider d), d)
  | SAVE_OAUTH_PROVIDER_SQL,
      [PgText session; PgText provider; PgText name; PgBool enabled; PgI64 now; PgText aid; PgText rid] =>
      session ← uuid_parse_str session; aid ← uuid_parse_str aid;
      '(o, d) ← save_oauth_provider session provider name enabled now aid rid d;
      Some (opt_rows provider_columns o, d)
  | REPLACE_APPLICATION_REDIRECTS_SQL, [PgText session; PgJson paths; PgI64 now; PgText aid; PgText rid] =>
      session ← uuid_parse_str session; aid ← uuid_parse_str aid; paths ← json_texts paths;
      '(l, d) ← replace_application_redirects session paths now aid rid d;
      Some (map redirect_columns l, d)
  | _, _ => None
  end.
End wire.

(** ** The world *)

Class AuthWorld (W TE RE : Type) `{KernelWorld W TE RE} := {
  auth_database : W → AuthDb;
  au_query : AuthSql → list PgValue → io W TE (list PgRow);
}.
Class AuthWorldLaws (W TE RE : Type) {U : UuidText} {K : KernelWorld W TE RE}
    {L : KernelWorldLaws W TE RE} {A : AuthWorld W TE RE} : Prop := {
  auth_kernel w : kernel (auth_database w) = database w;
  auth_clock w : is_u64 (clock_now w);
  auth_random n w r w' : random_bytes n w = (r, w') → rtc astep (auth_database w) (auth_database w');
  auth_query sql ps w r w' : pg_query sql ps w = (r, w') → rtc astep (auth_database w) (auth_database w');
  au_query_executes sql ps w r w' :
    au_query sql ps w = (r, w') →
    ∃ d1, rtc astep (auth_database w) d1
    ∧ ((∃ out d2, auth_exec sql ps d1 = Some (out, d2)
          ∧ rtc astep d2 (auth_database w') ∧ ∀ out', r = Ok out' → out' = out)
       ∨ (rtc astep d1 (auth_database w') ∧ ∀ out', r ≠ Ok out'));
}.

(** An execution is a query or one of the statements that write. *)
Lemma auth_exec_run `{UuidText} sql ps d out d' :
  auth_exec sql ps d = Some (out, d') → d' = d ∨ ∃ stmt, auth_run stmt d = Some d'.
Proof.
  intros E. unfold auth_exec in E.
  repeat match type of E with match ?x with _ => _ end = Some _ => destruct x; try discriminate E end;
  repeat match type of E with
  | (_ ≫= _) = Some _ => apply bind_Some in E as (? & ? & E)
  | (let '(_, _) := ?x in _) = Some _ => destruct x
  end; injection E as <- <-; try (by left); right.
  all: match goal with Hs : ?f = Some (_, ?d') |- ∃ _, auth_run _ ?d = Some ?d' =>
    assert (snd <$> f = Some d') as Hr by (by rewrite Hs) end.
  1: eexists (StartTotp _ _ _ _ _ _); exact Hr.
  1: eexists (ConfirmTotp _ _ _ _ _ _ _); exact Hr.
  1: eexists (VerifyTotp _ _ _ _ _ _); exact Hr.
  1: eexists (UseRecoveryCode _ _ _ _ _); exact Hr.
  1: eexists (CreateFlow _ _); exact Hr.
  1: eexists (RegisterPasskey _); exact Hr.
  1: eexists (AssertPasskey _); exact Hr.
  1: eexists (CompleteOAuth _); exact Hr.
  1: eexists (SaveProvider _ _ _ _ _ _ _); exact Hr.
  1: eexists (ReplaceRedirects _ _ _ _ _); exact Hr.
Qed.
Lemma auth_exec_steps `{UuidText} sql ps d out d' : auth_exec sql ps d = Some (out, d') → rtc astep d d'.
Proof. intros [->|[stmt Hr]]%auth_exec_run; [done|]. apply rtc_once. by eapply a_run. Qed.

(** ** Runs of the services *)

Section runs.
Context {W TE RE : Type} `{AuthWorldLaws W TE RE}.
#[local] Set Default Proof Using "Type*".

Lemma au_query_Ok sql ps (w : W) out w' :
  au_query sql ps w = (Ok out, w') →
  ∃ d1 d2, rtc astep (auth_database w) d1 ∧ auth_exec sql ps d1 = Some (out, d2)
    ∧ rtc astep d2 (auth_database w').
Proof.
  intros (d1 & Hd1 & [(out' & d2 & Hex & Hd2 & Ho)|[_ Hn]])%au_query_executes; [|by destruct (Hn out)].
  rewrite (Ho out eq_refl). eauto 10.
Qed.
(** A computation whose effects are steps of the database. *)
Definition asafe {E B} (m : io W E B) : Prop :=
  ∀ w r w', m w = (r, w') → rtc astep (auth_database w) (auth_database w').
Lemma asafe_au_query sql ps : asafe (au_query sql ps).
Proof.
  intros w r w' (d1 & Hd1 & [(out' & d2 & Hex & Hd2 & _)|[Hd2 _]])%au_query_executes.
  - etrans; [done|]. etrans; [by eapply auth_exec_steps|done].
  - by etrans.
Qed.
Lemma asafe_bind {E B C} (m : io W E B) (k : B → io W E C) : asafe m → (∀ b, asafe (k b)) → asafe (io_bind m k).
Proof.
  intros Hm Hk w r w'. unfold io_bind. destruct (m w) as [[a|e] w1] eqn:Em.
  - intros Hr. etrans; [by eapply Hm|by eapply Hk].
  - intros [= <- <-]. by eapply Hm.
Qed.
Lemma asafe_lift {E B} (r : result E B) : asafe (io_lift r).
Proof. by intros w r' w' [= <- <-]. Qed.
Lemma asafe_call {E F B} (f : F → E) (m : io W F B) : asafe m → asafe (io_call f m).
Proof.
  intros Hm w r w'. unfold io_call. destruct (m w) as [x w1] eqn:Em. intros [= <- <-]. by eapply Hm.
Qed.
Lemma asafe_query sql ps : asafe (pg_query sql ps).
Proof. intros w r w'. apply auth_query. Qed.
Lemma asafe_random n : asafe (random_bytes n).
Proof. intros w r w'. apply auth_random. Qed.
Lemma asafe_now {E} : asafe (io_now (E := E)).
Proof. by intros w r w' [= <- <-]. Qed.
Lemma asafe_uuid_v7 {E} (e : E) now_ms : asafe (uuid_v7 e now_ms).
Proof. apply asafe_bind; [apply asafe_call, asafe_random|intros; apply asafe_lift]. Qed.
Lemma asafe_load session_id request_id now : asafe (load_verified_session session_id request_id now).
Proof.
  unfold load_verified_session, load_verified_session_with_signing_key. cbv zeta.
  apply asafe_bind; [apply asafe_call, asafe_query|intros].
  apply asafe_bind; [apply asafe_lift|intros; apply asafe_lift].
Qed.
Lemma asafe_fail {E B} (c : bool) (e : E) (k : io W E B) : asafe k → asafe (if c then io_lift (Err e) else k).
Proof. destruct c; [intros _; apply asafe_lift|done]. Qed.
End runs.
#[export] Hint Resolve asafe_lift asafe_call asafe_query asafe_au_query asafe_random asafe_now asafe_uuid_v7 : wauth.

(** Walks a service: every call is a step of the database. *)
Ltac asafe_walk :=
  repeat (progress cbv zeta || lazymatch goal with
    | |- asafe (io_bind _ _) => apply asafe_bind; [|intros]
    | |- asafe (io_lift _) => apply asafe_lift
    | |- asafe (io_call _ _) => apply asafe_call
    | |- asafe (au_query _ _) => apply asafe_au_query
    | |- asafe (pg_query _ _) => apply asafe_query
    | |- asafe (random_bytes _) => apply asafe_random
    | |- asafe io_now => apply asafe_now
    | |- asafe (uuid_v7 _ _) => apply asafe_uuid_v7
    | |- asafe (load_verified_session _ _ _) => apply asafe_load
    | |- asafe (if _ then io_lift (Err _) else _) => apply asafe_fail
    | |- asafe (match ?x with _ => _ end) => destruct x
    end).
