(* ===== verification/MfaService.v ===== *)
(** * MfaService: TOTP enrollment, step-up and recovery codes

    Models src/crates/wasi-auth/src/postgres/mfa.rs: the key material and the
    sealing of a TOTP secret, and every method of MfaService over the
    statements of [Credentials].  The keyed hashes of TOTP and of recovery
    codes are parameters: HMAC-SHA1 has digests of 20 bytes, and the digests of
    HMAC-SHA256 are bytes. *)

From S2P Require Export CredentialWire.
From S2P Require Import Mfa RateLimits.
Open Scope Z_scope.

#[local] Arguments lit : simpl never.

Definition MFA_AAD_PREFIX : list Z := str_bytes (lit "wasi-auth:totp:v1:").
Definition TOTP_SECRET_BYTES : nat := 20.
Definition RECOVERY_CODE_COUNT : nat := 10.

(** [Hmac::<Sha1>] and [Hmac::<Sha256>] *)
Class MfaCrypto := {
  hmac_sha1 : list Z → list Z → list Z;
  hmac_sha256 : list Z → list Z → list Z;
  hmac_sha1_length : ∀ key message, length (hmac_sha1 key message) = 20%nat;
  hmac_sha256_bytes : ∀ key message, Forall (λ b, 0 ≤ b < 256) (hmac_sha256 key message);
}.

Inductive MfaConfigurationError := InvalidMfaConfiguration.
Inductive MfaServiceError (E : Type) :=
| MfInvalidSession | MfAlreadyEnrolled | MfInvalidFactor | MfInvalidCode | MfRandomnessUnavailable | MfCrypto
| MfTransport (e : E) | MfRow (e : RowDecodeError) | MfInvalidRow.
Arguments MfInvalidSession {E}.
Arguments MfAlreadyEnrolled {E}.
Arguments MfInvalidFactor {E}.
Arguments MfInvalidCode {E}.
Arguments MfRandomnessUnavailable {E}.
Arguments MfCrypto {E}.
Arguments MfTransport {E} e.
Arguments MfRow {E} e.
Arguments MfInvalidRow {E}.

(** ** Key material *)

Record MfaKeyMaterial := mk_mfa_keys { mk_version : str; mk_encryption_key : list Z; mk_recovery_pepper : list Z }.
Definition MfaKeyMaterial_new (version : str) (key pepper : list Z) : result MfaConfigurationError MfaKeyMaterial :=
  fail? is_empty version || (128 <? str_len version) || existsb is_control version
        || bool_decide (length pepper < 16)%nat || (1024 <? Z.of_nat (length pepper)) with InvalidMfaConfiguration ;;
  Ok (mk_mfa_keys version key pepper).

Record TotpFactor := mk_totp_factor {
  tf_user_id : str;
  tf_key_version : str;
  tf_ciphertext : list Z;
  tf_enabled : bool;
}.
Record MfaStatus := mk_mfa_status {
  ms_totp_enrolled : bool;
  ms_recovery_codes_remaining : Z;
  ms_assurance : str;
}.
Record TotpEnrollment := mk_enrollment { te_provisioning_uri : str; te_secret_base32 : str }.
Record TotpConfirmation := mk_confirmation { tc_recovery_codes : list str }.
Record MfaService := mk_mfa_service { mfa_keys : MfaKeyMaterial; mfa_config : TotpConfig; mfa_issuer : str }.
Definition MfaService_new (keys : MfaKeyMaterial) (config : TotpConfig) (issuer : str) :
    result MfaConfigurationError MfaService :=
  fail? is_empty (trim issuer) || (128 <? str_len issuer) || existsb is_control issuer with InvalidMfaConfiguration ;;
  Ok (mk_mfa_service keys config issuer).

Definition factor_aad (user_id : str) : list Z := MFA_AAD_PREFIX ++ str_bytes user_id.
(** ["{byte:02x}"] of every byte *)
Definition hex (value : list Z) : str := concat (map hex_byte value).

Section keys.
Context `{TokenCrypto}.

Definition encrypt (keys : MfaKeyMaterial) (user_id : str) (nonce secret : list Z) : option (list Z) :=
  ciphertext ← aead_encrypt (mk_encryption_key keys) nonce (factor_aad user_id) secret;
  Some (nonce ++ ciphertext).
Definition decrypt (keys : MfaKeyMaterial) (factor : TotpFactor) : option (list Z) :=
  if negb (bool_decide (tf_key_version factor = mk_version keys))
     || bool_decide (length (tf_ciphertext factor) ≤ NONCE_BYTES)%nat then None
  else aead_decrypt (mk_encryption_key keys) (take NONCE_BYTES (tf_ciphertext factor))
         (factor_aad (tf_user_id factor)) (drop NONCE_BYTES (tf_ciphertext factor)).
End keys.

(** ** The service *)

Section service.
Context {W TE RE : Type} `{UuidText} `{KernelWorld W TE RE} `{!AuthWorld W TE RE}.
Context `{TokenCrypto} `{MfaCrypto}.
Context (service : MfaService).

Definition mfa_query (sql : AuthSql) (values : list PgValue) : io W (MfaServiceError TE) (list PgRow) :=
  io_call MfTransport (au_query sql values).
(** [i64_value(self.clock.now_unix_seconds().saturating_mul(1_000))] *)
Definition mfa_now : io W (MfaServiceError TE) Z :=
  do! now := io_now in io_lift (Ok (u64_saturating_mul now 1000)).
Definition mfa_uuid (now_ms : Z) : io W (MfaServiceError TE) Uuid := uuid_v7 MfRandomnessUnavailable now_ms.
Definition mfa_fill (n : nat) : io W (MfaServiceError TE) (list Z) :=
  io_call (λ _, MfRandomnessUnavailable) (random_bytes n).
(** The first row has the outcome. *)
Definition mfa_has_outcome (rows : list PgRow) (expected : string) : bool :=
  bool_decide ((head rows ≫= λ row, ok (required_text row (lit "outcome"))) = Some (lit expected)).
(** [outcome] *)
Definition mfa_outcome (rows : list PgRow) (expected : string) : result (MfaServiceError TE) unit :=
  if mfa_has_outcome rows expected then Ok tt else Err MfInvalidCode.

Definition status_of_row (row : PgRow) : result (MfaServiceError TE) MfaStatus :=
  let? enrolled := map_err MfRow (row_bool row (lit "totp_enrolled")) in
  let? enrolled := ok_or enrolled MfInvalidRow in
  let? remaining := map_err MfRow (required_i64 row (lit "recovery_codes_remaining")) in
  let? remaining := if in_range 0 (2 ^ 32 - 1) remaining then Ok remaining else Err MfInvalidRow in
  let? assurance := map_err MfRow (required_text row (lit "assurance")) in
  Ok (mk_mfa_status enrolled remaining assurance).
Definition mfa_service_status (session_id : str) : io W (MfaServiceError TE) MfaStatus :=
  do! now_ms := mfa_now in
  do! rows := mfa_query MFA_STATUS_SQL [PgText session_id; PgI64 (u64_to_i64 now_ms)] in
  do! row := io_lift (ok_or (head rows) MfInvalidSession) in
  io_lift (status_of_row row).

(** [start]: the secret is 20 random bytes, which is not empty. *)
Definition mfa_start (session_id request_id : str) : io W (MfaServiceError TE) TotpEnrollment :=
  do! now_seconds := io_now in
  do! session := io_call (λ _, MfInvalidSession) (load_verified_session session_id request_id now_seconds) in
  do! secret := mfa_fill TOTP_SECRET_BYTES in
  do! nonce := mfa_fill NONCE_BYTES in
  let user_id := p_user_id (principal (rc_auth (vs_context session))) in
  do! ciphertext := io_lift (ok_or (encrypt (mfa_keys service) user_id nonce secret) MfCrypto) in
  let now_ms := u64_saturating_mul now_seconds 1000 in
  do! audit_id := mfa_uuid now_ms in
  do! rows := mfa_query START_TOTP_ENROLLMENT_SQL
    [PgText session_id; PgText (mk_version (mfa_keys service)); PgBytes ciphertext; PgI64 (u64_to_i64 now_ms);
     PgText (uuid_to_string audit_id); PgText request_id] in
  fail! negb (mfa_has_outcome rows "started") with MfAlreadyEnrolled ;;
  do! uri := io_lift (map_err (λ _, MfCrypto)
    (provisioning_uri (mfa_issuer service) (vs_primary_email session) secret (mfa_config service))) in
  io_lift (Ok (mk_enrollment uri (encode_base32 secret))).

Definition factor_of_row (row : PgRow) : result (MfaServiceError TE) TotpFactor :=
  let? user := map_err MfRow (required_text row (lit "user_id")) in
  let? version := map_err MfRow (required_text row (lit "key_version")) in
  let? ciphertext := map_err MfRow (required_bytes row (lit "secret_ciphertext")) in
  let? enabled := map_err MfRow (row_i64 row (lit "enabled_at_ms")) in
  Ok (mk_totp_factor user version ciphertext (bool_decide (is_Some enabled))).
Definition load_factor (session_id : str) : io W (MfaServiceError TE) TotpFactor :=
  do! now_ms := mfa_now in
  do! rows := mfa_query LOAD_TOTP_FACTOR_SQL [PgText session_id; PgI64 (u64_to_i64 now_ms)] in
  do! row := io_lift (ok_or (head rows) MfInvalidFactor) in
  io_lift (factor_of_row row).
(** [matched_totp_step]; [verify_totp] has no panic on a digest of 20 bytes. *)
Definition matched_totp_step (factor : TotpFactor) (code : str) (now : Z) : result (MfaServiceError TE) (option Z) :=
  let? secret := ok_or (decrypt (mfa_keys service) factor) MfCrypto in
  let? verdict := ok_or (verify_totp hmac_sha1 secret code now (mfa_config service)) MfCrypto in
  map_err (λ _, MfInvalidCode) verdict.
Definition consumed_step (factor : TotpFactor) (code : str) : io W (MfaServiceError TE) Z :=
  do! now := io_now in
  do! matched := io_lift (matched_totp_step factor code now) in
  io_lift (ok_or matched MfInvalidCode).

(** A generated code and the hex text of its hash. *)
Definition new_recovery_code : io W (MfaServiceError TE) (str * str) :=
  do! bytes := mfa_fill RECOVERY_CODE_BYTES in
  do! code := io_lift (RecoveryCode_generate (λ _, Ok bytes)) in
  do! hash := io_lift (map_err (λ _, MfCrypto)
    (hash_recovery_code hmac_sha256 (mk_recovery_pepper (mfa_keys service)) code)) in
  io_lift (Ok (code, hex hash)).
Definition new_recovery_codes : io W (MfaServiceError TE) (list (str * str)) :=
  io_fold (λ codes _, do! code := new_recovery_code in io_lift (Ok (codes ++ [code]))) []
    (replicate RECOVERY_CODE_COUNT tt).
Definition confirm (session_id code request_id : str) : io W (MfaServiceError TE) TotpConfirmation :=
  do! factor := load_factor session_id in
  fail! tf_enabled factor with MfAlreadyEnrolled ;;
  do! step := consumed_step factor code in
  do! codes := new_recovery_codes in
  do! now_ms := mfa_now in
  do! audit_id := mfa_uuid now_ms in
  do! rows := mfa_query CONFIRM_TOTP_ENROLLMENT_SQL
    [PgText session_id; PgBytes (tf_ciphertext factor); PgI64 (u64_to_i64 now_ms);
     PgJson (VArray (map VString (map snd codes))); PgText (uuid_to_string audit_id); PgText request_id;
     PgI64 (u64_to_i64 step)] in
  if mfa_has_outcome rows "confirmed" then io_lift (Ok (mk_confirmation (map fst codes)))
  else io_lift (Err MfInvalidFactor).

Definition verify_step_up (session_id code request_id : str) : io W (MfaServiceError TE) unit :=
  do! factor := load_factor session_id in
  fail! negb (tf_enabled factor) with MfInvalidFactor ;;
  do! step := consumed_step factor code in
  do! now_ms := mfa_now in
  do! audit_id := mfa_uuid now_ms in
  do! rows := mfa_query VERIFY_TOTP_STEP_UP_SQL
    [PgText session_id; PgBytes (tf_ciphertext factor); PgI64 (u64_to_i64 now_ms);
     PgText (uuid_to_string audit_id); PgText request_id; PgI64 (u64_to_i64 step)] in
  io_lift (mfa_outcome rows "elevated").

Definition mfa_use_recovery_code (session_id code request_id : str) : io W (MfaServiceError TE) unit :=
  do! hash := io_lift (map_err (λ _, MfInvalidCode)
    (hash_recovery_code hmac_sha256 (mk_recovery_pepper (mfa_keys service)) code)) in
  do! now_ms := mfa_now in
  do! audit_id := mfa_uuid now_ms in
  do! rows := mfa_query USE_RECOVERY_CODE_SQL
    [PgText session_id; PgBytes hash; PgI64 (u64_to_i64 now_ms); PgText (uuid_to_string audit_id); PgText request_id] in
  io_lift (mfa_outcome rows "elevated").
End service.
