(* ===== verification/MfaProofs.v ===== *)
(** * MfaProofs: what the multi-factor service guarantees

    A step-up matched a code of an enabled factor within the clock window, at
    a step later than every one consumed before it; a recovery code works
    once; an enrollment stores the secret it shows; a confirmation enables the
    pending factor with exactly the codes it returns. *)

From S2P Require Export MfaService TokenProofs.
From S2P Require Import Mfa RateLimits KernelTheorems.
Open Scope Z_scope.

#[local] Arguments lit : simpl never.

(** ** Decoding *)

Definition totp_factor (user : Uuid) `{UuidText} (f : FactorRow) : TotpFactor :=
  mk_totp_factor (uuid_to_string user) (fa_key_version f) (fa_ciphertext f) (bool_decide (is_Some (fa_enabled_at_ms f))).
Lemma factor_of_columns {TE} `{UuidText} user f :
  factor_of_row (TE := TE) (factor_columns (user, f)) = Ok (totp_factor user f).
Proof. unfold factor_of_row, factor_columns, totp_factor. cbn. by destruct (fa_enabled_at_ms f). Qed.

Lemma hex_digit_round n : 0 ≤ n < 16 → hex_digit_value (lower_hex n) = Some n ∧ one_of [32; 10; 9; 13] (lower_hex n) = false.
Proof.
  intros Hn. assert (Forall (λ n, hex_digit_value (lower_hex n) = Some n
    ∧ one_of [32; 10; 9; 13] (lower_hex n) = false) (seqZ 0 16)) as Hall by (repeat constructor).
  rewrite Forall_forall in Hall. apply Hall, elem_of_seqZ. lia.
Qed.
Lemma pg_decode_hex_hex bytes : Forall (λ b, 0 ≤ b < 256) bytes → pg_decode_hex (hex bytes) = Some bytes.
Proof.
  unfold hex. induction 1 as [|b bytes Hb _ IH]; [done|]. cbn [map concat app hex_byte pg_decode_hex].
  destruct (hex_digit_round (b / 16)) as [-> ->].
  { split; [apply Z.div_pos; lia|]. apply Z.div_lt_upper_bound; lia. }
  destruct (hex_digit_round (b mod 16)) as [-> _]; [apply Z.mod_pos_bound; lia|].
  cbn [mbind option_bind]. rewrite IH. cbn. do 2 f_equal. pose proof (Z.div_mod b 16). lia.
Qed.

(** ** The clock window *)

(** The step that is matched: the greatest of the window that the code hits. *)
Definition matched_step `{MfaCrypto} (secret : list Z) (code : str) (config : TotpConfig) (now step : Z) : Prop :=
  in_window config now step ∧ hits hmac_sha1 secret (str_bytes code) (digits config) step
  ∧ ∀ s, in_window config now s → hits hmac_sha1 secret (str_bytes code) (digits config) s → s ≤ step.

Lemma verify_totp_hit `{MfaCrypto} secret code now config m :
  is_u64 now → 1 ≤ period_seconds config →
  verify_totp hmac_sha1 secret code now config = Some (Ok (Some m)) → matched_step secret code config now m.
Proof.
  intros Hnow Hp. unfold verify_totp. intros E. destruct (bool_decide _); [done|]. destruct (_ || _); [done|].
  apply fmap_Some in E as (o & E & [= <-]).
  destruct (try_window_spec hmac_sha1 secret (str_bytes code) (digits config) now config hmac_sha1_length Hnow Hp)
    as (m' & Hm' & Hbest).
  rewrite E in Hm'. injection Hm' as <-. exact Hbest.
Qed.

Section proofs.
Context {W TE RE : Type} `{AuthWorldLaws W TE RE} `{TokenCrypto} `{MfaCrypto}.
Context (service : MfaService).
#[local] Set Default Proof Using "Type*".

Definition stmt_now (w : W) : Z := u64_to_i64 (u64_saturating_mul (clock_now w) 1000).

Lemma mfa_now_Ok (w : W) n w' : mfa_now (TE := TE) w = (Ok n, w') → n = u64_saturating_mul (clock_now w) 1000 ∧ w' = w.
Proof. intros (now & w1 & [= <- <-] & E)%io_bind_Ok. run_inv E. by simplify_eq. Qed.
Lemma asafe_mfa_query sql ps : asafe (mfa_query (TE := TE) (W := W) sql ps).
Proof. unfold mfa_query. eauto with wauth. Qed.
Lemma asafe_mfa_now : asafe (W := W) (mfa_now (TE := TE)).
Proof. unfold mfa_now. apply asafe_bind; eauto with wauth. Qed.

(** A factor that was loaded is the one of the session's user at one moment. *)
Lemma load_factor_Ok session_id (w : W) factor w' :
  load_factor (TE := TE) session_id w = (Ok factor, w') →
  ∃ d session s f, rtc astep (auth_database w) d ∧ rtc astep d (auth_database w')
    ∧ uuid_parse_str session_id = Some session ∧ account_actor session (stmt_now w) (kernel d) = Some s
    ∧ factors d !! s_user s = Some f ∧ factor = totp_factor (s_user s) f.
Proof.
  intros (n & w1 & [-> ->]%mfa_now_Ok & E)%io_bind_Ok.
  apply io_bind_Ok in E as (rows & w2 & Q & E). apply io_call_Ok, au_query_Ok in Q as (d1 & d2 & Hd1 & Hex & Hd2).
  cbn [auth_exec] in Hex. apply bind_Some in Hex as (session & Hs & [= <- <-]).
  run_inv E. match goal with Hh : head _ = Some _ |- _ => apply opt_rows_head in Hh as ([user f] & Hl & ->) end.
  rewrite factor_of_columns in E. injection E as <-.
  apply load_totp_factor_Some in Hl as (s & Ha & <- & Hf). exists d1, session, s, f. split_and!; done.
Qed.
Lemma consumed_step_Ok factor code (w : W) step w' :
  consumed_step (TE := TE) service factor code w = (Ok step, w') →
  w' = w ∧ ∃ secret, decrypt (mfa_keys service) factor = Some secret
    ∧ verify_totp hmac_sha1 secret code (clock_now w) (mfa_config service) = Some (Ok (Some step)).
Proof.
  intros (now & w1 & [= <- <-] & E)%io_bind_Ok. run_inv E. subst.
  match goal with Hm : matched_totp_step _ _ _ _ = Ok _ |- _ =>
    apply rbind_Ok in Hm as (secret & Hd%ok_or_Ok & Hm); apply rbind_Ok in Hm as (v & Hv%ok_or_Ok & Hm%map_err_Ok) end.
  subst v. eauto 10.
Qed.
Lemma has_outcome_flag outcome ok : mfa_has_outcome (flag_rows (kernel_outcome outcome) ok) outcome = ok.
Proof.
  destruct ok; unfold mfa_has_outcome; cbn [flag_rows head mbind option_bind]; [|done].
  by apply bool_decide_eq_true.
Qed.
(** A step-up: what was loaded, matched and consumed. *)
Lemma verify_step_up_Ok session_id code request_id (w w' : W) :
  verify_step_up (TE := TE) service session_id code request_id w = (Ok tt, w') →
  ∃ factor w1 secret step session d1 d2 s f,
    load_factor (TE := TE) session_id w = (Ok factor, w1) ∧ tf_enabled factor = true
    ∧ decrypt (mfa_keys service) factor = Some secret
    ∧ verify_totp hmac_sha1 secret code (clock_now w1) (mfa_config service) = Some (Ok (Some step))
    ∧ uuid_parse_str session_id = Some session
    ∧ rtc astep (auth_database w1) d1
    ∧ account_actor session (stmt_now w1) (kernel d1) = Some s ∧ factors d1 !! s_user s = Some f
    ∧ enabled_factor (tf_ciphertext factor) f = true ∧ consumable (u64_to_i64 step) f = true
    ∧ sessions (kernel d2) !! session = Some (elevate_row s)
    ∧ factors d2 = <[s_user s := consume_step (u64_to_i64 step) f]> (factors d1)
    ∧ rtc astep d1 d2 ∧ rtc astep d2 (auth_database w').
Proof.
  intros (factor & w1 & Hload & E)%io_bind_Ok. apply io_fail_Ok in E as [Hen E].
  apply io_bind_Ok in E as (step & w2 & Hstep & E). apply consumed_step_Ok in Hstep as (-> & secret & Hdec & Hver).
  apply io_bind_Ok in E as (n & w3 & [-> ->]%mfa_now_Ok & E). apply io_bind_Ok in E as (aid & w3 & Haid & E).
  apply io_bind_Ok in E as (rows & w4 & Q & E). apply io_call_Ok, au_query_Ok in Q as (d1 & d2 & Hd1 & Hex & Hd2).
  pose proof (auth_exec_steps _ _ _ _ _ Hex) as Hstep.
  cbn [auth_exec] in Hex. apply bind_Some in Hex as (session & Hs & Hex). rewrite uuid_parse_to_string in Hex.
  cbn [mbind option_bind] in Hex. apply bind_Some in Hex as ([ok d2'] & Hv & [= <- <-]).
  run_inv E. unfold mfa_outcome in E. rewrite has_outcome_flag in E. destruct ok; [|done].
  apply verify_totp_cases in Hv as [[? _]|(s & f & _ & Ha & Hf & He & Hc & (r & -> & _)%elevate_Some)]; [done|].
  eexists factor, w1, secret, step, session, d1, _, s, f. split_and!; try eassumption; try done.
  - by apply negb_false_iff.
  - etrans; [by eapply asafe_uuid_v7|done].
  - cbn. by rewrite lookup_insert_eq.
Qed.

(** A step-up is earned with a fresh code of the user's own factor.  When
    [verify_step_up] succeeds, the session was live, its user had an enabled
    factor, the code is the TOTP value of the decrypted secret at a step within
    the skew of the clock, that step is later than any one consumed before, and
    the session now has assurance aal2 under a new revision. *)
Theorem step_up_exact (session_id code request_id : str) (w w' : W)
    (Hperiod : 1 ≤ period_seconds (mfa_config service))
    (Hrun : verify_step_up (TE := TE) service session_id code request_id w = (Ok tt, w')) :
  ∃ factor w1 secret step session d1 d2 s f,
    load_factor (TE := TE) session_id w = (Ok factor, w1)
    ∧ decrypt (mfa_keys service) factor = Some secret
    ∧ matched_step secret code (mfa_config service) (clock_now w1) step
    ∧ uuid_parse_str session_id = Some session
    ∧ rtc astep (auth_database w) d1 ∧ account_actor session (stmt_now w1) (kernel d1) = Some s
    ∧ factors d1 !! s_user s = Some f ∧ fa_enabled_at_ms f ≠ None ∧ fa_ciphertext f = tf_ciphertext factor
    ∧ (∀ last, fa_last_consumed_step f = Some last → last < u64_to_i64 step)
    ∧ sessions (kernel d2) !! session = Some (elevate_row s)
    ∧ (fa_last_consumed_step <$> factors d2 !! s_user s) = Some (Some (u64_to_i64 step))
    ∧ rtc astep d1 d2 ∧ rtc astep d2 (auth_database w').
Proof.
  destruct (verify_step_up_Ok _ _ _ _ _ Hrun) as
    (factor & w1 & secret & step & session & d1 & d2 & s & f & Hl & _ & Hd & Hv & Hp & Hw1 & Ha & Hf & He & Hc & Hs & Hf2 & H12 & Hw2).
  destruct (load_factor_Ok _ _ _ _ Hl) as (d & _ & _ & _ & Hwd & Hdw & _).
  apply verify_totp_hit in Hv as Hhit; [|apply auth_clock|done].
  apply andb_true_iff in He as [He%bool_decide_eq_true Hcipher%bool_decide_eq_true].
  exists factor, w1, secret, step, session, d1, d2, s, f. split_and!; try done.
  - by transitivity (auth_database w1); [transitivity d|].
  - by apply not_eq_None_Some.
  - intros last Hlast. unfold consumable in Hc. rewrite Hlast in Hc. by apply Z.ltb_lt.
  - by rewrite Hf2, lookup_insert_eq.
Qed.

(** *** Steps are consumed in order *)

Lemma session_user_stable d d' session s s' :
  rtc astep d d' → sessions (kernel d) !! session = Some s → sessions (kernel d') !! session = Some s' →
  s_user s' = s_user s.
Proof.
  intros Hr%asteps_ksteps%ksteps_evolve Hs Hs'. destruct (ev_sessions _ _ Hr session s Hs) as (s2 & Hs2 & Hu & _).
  congruence.
Qed.
(** The loaded factor of an enabled row is the row of every later moment. *)
Lemma enabled_factor_stable d d' user f f' :
  credentials_wf d → rtc astep d d' → factors d !! user = Some f → fa_enabled_at_ms f ≠ None →
  factors d' !! user = Some f' →
  totp_factor user f' = totp_factor user f ∧ step_le (fa_last_consumed_step f) (fa_last_consumed_step f').
Proof.
  intros Hwf Hr Hf He Hf'. destruct (asteps_keep _ _ Hr Hwf) as [_ Hk].
  destruct (kp_factors _ _ Hk user f Hf) as (f2 & Hf2 & Hle & Hsame). simplify_eq.
  destruct (Hsame He) as (Ee & Ev & Ec). unfold totp_factor. by rewrite Ee, Ev, Ec.
Qed.
(** A step-up as its user sees it: the factor in force, the step before it and
    the step it leaves. *)
Lemma step_up_summary session_id code request_id (w w' : W) :
  credentials_wf (auth_database w) → 1 ≤ period_seconds (mfa_config service) →
  verify_step_up (TE := TE) service session_id code request_id w = (Ok tt, w') →
  ∃ secret step session d1 d2 s f factor w1, uuid_parse_str session_id = Some session
    ∧ load_factor (TE := TE) session_id w = (Ok factor, w1)
    ∧ rtc astep (auth_database w) d1 ∧ rtc astep d1 d2 ∧ rtc astep d2 (auth_database w')
    ∧ sessions (kernel d1) !! session = Some s
    ∧ factors d1 !! s_user s = Some f ∧ fa_enabled_at_ms f ≠ None
    ∧ decrypt (mfa_keys service) (totp_factor (s_user s) f) = Some secret ∧ decrypt (mfa_keys service) factor = Some secret
    ∧ matched_step secret code (mfa_config service) (clock_now w1) step
    ∧ (∀ last, fa_last_consumed_step f = Some last → last < u64_to_i64 step)
    ∧ factors d2 !! s_user s = Some (consume_step (u64_to_i64 step) f).
Proof.
  intros Hwf Hperiod Hrun. destruct (verify_step_up_Ok _ _ _ _ _ Hrun) as
    (factor & w1 & secret & step & session & d1 & d2 & s & f & Hl & Hen & Hd & Hv & Hp & Hw1 & Ha & Hf & He & Hc & Hs & Hf2 & H12 & Hw2).
  destruct (load_factor_Ok _ _ _ _ Hl) as (d & session0 & s0 & f0 & Hwd & Hdw & Hp0 & Ha0 & Hf0 & Hfac).
  apply account_actor_Some in Ha as [Hses _]. apply account_actor_Some in Ha0 as [Hses0 _].
  apply verify_totp_hit in Hv as Hhit; [|apply auth_clock|done].
  apply andb_true_iff in He as [He%bool_decide_eq_true _].
  assert (session0 = session) as -> by congruence.
  assert (rtc astep d d1) as Hdd1 by (by transitivity (auth_database w1)).
  assert (s_user s = s_user s0) as Hu by (by eapply (session_user_stable d d1)).
  assert (fa_enabled_at_ms f0 ≠ None) as He0.
  { rewrite Hfac in Hen. cbn in Hen. apply bool_decide_eq_true in Hen. by apply not_eq_None_Some. }
  destruct (asteps_keep _ _ Hwd Hwf) as [Hwfd _].
  rewrite <- Hu in Hf0, Hfac. destruct (enabled_factor_stable d d1 _ f0 f Hwfd Hdd1 Hf0 He0 Hf) as [Htf _].
  exists secret, step, session, d1, d2, s, f, factor, w1. split_and!; try done.
  - by transitivity d.
  - by apply not_eq_None_Some.
  - by rewrite Htf, <- Hfac.
  - intros last Hlast. unfold consumable in Hc. rewrite Hlast in Hc. by apply Z.ltb_lt.
  - by rewrite Hf2, lookup_insert_eq.
Qed.

(** C6: A TOTP code cannot be replayed.  Whatever statements run in between
    and whichever of a user's sessions are used, two step-ups of one user match
    codes of the same decrypted secret: each one the greatest [u64] time step,
    within the skew of the step of the clock that was read, whose code was
    presented; and the step of the second is strictly later than that of the
    first. *)
Theorem totp_steps_increase (id1 id2 code1 code2 rid1 rid2 : str) (w w1 w2 w3 : W) (session1 session2 : Uuid)
    (s1 s2 : SessionRow)
    (Hwf : credentials_wf (auth_database w)) (Hperiod : 1 ≤ period_seconds (mfa_config service))
    (Hfirst : verify_step_up (TE := TE) service id1 code1 rid1 w = (Ok tt, w1))
    (Hbetween : rtc astep (auth_database w1) (auth_database w2))
    (Hsecond : verify_step_up (TE := TE) service id2 code2 rid2 w2 = (Ok tt, w3))
    (Hid1 : uuid_parse_str id1 = Some session1) (Hid2 : uuid_parse_str id2 = Some session2)
    (Hs1 : sessions (database w3) !! session1 = Some s1) (Hs2 : sessions (database w3) !! session2 = Some s2)
    (Huser : s_user s1 = s_user s2) :
  ∃ secret step1 step2 factor1 factor2 v1 v2,
    load_factor (TE := TE) id1 w = (Ok factor1, v1) ∧ decrypt (mfa_keys service) factor1 = Some secret
    ∧ load_factor (TE := TE) id2 w2 = (Ok factor2, v2) ∧ decrypt (mfa_keys service) factor2 = Some secret
    ∧ matched_step secret code1 (mfa_config service) (clock_now v1) step1
    ∧ matched_step secret code2 (mfa_config service) (clock_now v2) step2
    ∧ step1 < step2.
Proof.
  destruct (step_up_summary _ _ _ _ _ Hwf Hperiod Hfirst) as
    (secret1 & step1 & t1 & d1 & e1 & r1 & f1 & fac1 & v1 & Ht1 & Hl1 & Hwd1 & Hde1 & Hew1 & Hr1 & Hf1 & Hen1
     & Hdec1 & Hfd1 & Hhit1 & _ & Hnew).
  assert (credentials_wf (auth_database w2)) as Hwf2.
  { eapply (asteps_keep (auth_database w)); [|done]. etrans; [exact Hwd1|]. etrans; [exact Hde1|]. by etrans. }
  destruct (step_up_summary _ _ _ _ _ Hwf2 Hperiod Hsecond) as
    (secret2 & step2 & t2 & d2 & e2 & r2 & f2 & fac2 & v2 & Ht2 & Hl2 & Hwd2 & Hde2 & Hew2 & Hr2 & Hf2 & _
     & Hdec2 & Hfd2 & Hhit2 & Hlt & _).
  simplify_eq. rewrite <- (auth_kernel w3) in Hs1, Hs2.
  assert (rtc astep e1 d2) as Hmid by (etrans; [exact Hew1|]; by etrans).
  assert (rtc astep d2 (auth_database w3)) as Hend by (by etrans).
  assert (s_user r1 = s_user r2) as Hu.
  { rewrite <- (session_user_stable d1 (auth_database w3) session1 r1 s1); [|etrans; [exact Hde1|by etrans]|done..].
    rewrite <- (session_user_stable d2 (auth_database w3) session2 r2 s2); [|done..]. done. }
  destruct (asteps_keep _ _ Hwd1 Hwf) as [Hwfd1 _]. destruct (asteps_keep _ _ Hde1 Hwfd1) as [Hwfe1 _].
  rewrite <- Hu in Hf2, Hdec2.
  destruct (enabled_factor_stable e1 d2 _ _ f2 Hwfe1 Hmid Hnew Hen1 Hf2) as [Htf (m & Hm & Hle)].
  specialize (Hlt m Hm). assert (secret1 = secret2) as -> by (rewrite Htf in Hdec2; unfold totp_factor in *; cbn in *; congruence).
  exists secret2, step1, step2, fac1, fac2, v1, v2. split_and!; [done..|]. unfold u64_to_i64 in *. repeat case_match; bprop; lia.
Qed.

(** ** Recovery codes *)

Lemma use_recovery_code_Ok session_id code request_id (w w' : W) :
  mfa_use_recovery_code (TE := TE) service session_id code request_id w = (Ok tt, w') →
  ∃ hash session d1 d2 s,
    hash_recovery_code hmac_sha256 (mk_recovery_pepper (mfa_keys service)) code = Ok hash
    ∧ uuid_parse_str session_id = Some session
    ∧ rtc astep (auth_database w) d1 ∧ rtc astep d1 d2 ∧ rtc astep d2 (auth_database w')
    ∧ account_actor session (stmt_now w) (kernel d1) = Some s
    ∧ recovery_codes d1 !! (s_user s, hash) = Some None
    ∧ recovery_codes d2 !! (s_user s, hash) = Some (Some (stmt_now w))
    ∧ sessions (kernel d2) !! session = Some (elevate_row s).
Proof.
  unfold mfa_use_recovery_code. intros E. apply io_bind_Ok in E as (hash & w1 & Hh & E). run_inv E.
  match goal with Hn : mfa_now _ = _ |- _ => apply mfa_now_Ok in Hn as [-> ->] end.
  match goal with Q : mfa_query _ _ _ = _ |- _ => apply io_call_Ok, au_query_Ok in Q as (d1 & d2 & Hd1 & Hex & Hd2) end.
  pose proof (auth_exec_steps _ _ _ _ _ Hex) as Hsteps.
  cbn [auth_exec] in Hex. apply bind_Some in Hex as (session & Hs & Hex). rewrite uuid_parse_to_string in Hex.
  cbn [mbind option_bind] in Hex. apply bind_Some in Hex as ([ok d2'] & Hu & [= <- <-]).
  unfold mfa_outcome in E. rewrite has_outcome_flag in E. destruct ok; [|done].
  apply use_recovery_cases in Hu as [[? _]|(s & _ & Ha & Hc & (r & -> & _)%elevate_Some)]; [done|].
  eexists hash, session, d1, _, s. split_and!; try eassumption; try done.
  - etrans; [by eapply asafe_uuid_v7|done].
  - cbn. by rewrite lookup_insert_eq.
  - cbn. by rewrite lookup_insert_eq.
Qed.

(** C32: A recovery code works once.  Whatever statements run in between, two
    recovery codes that one user's sessions redeem have different hashes, so
    they differ in more than case, dashes and white space; in particular a
    redeemed code is refused for good. *)
Theorem recovery_code_single_use (id1 id2 code1 code2 rid1 rid2 : str) (w w1 w2 w3 : W) (session1 session2 : Uuid)
    (s1 s2 : SessionRow)
    (Hwf : credentials_wf (auth_database w))
    (Hfirst : mfa_use_recovery_code (TE := TE) service id1 code1 rid1 w = (Ok tt, w1))
    (Hbetween : rtc astep (auth_database w1) (auth_database w2))
    (Hsecond : mfa_use_recovery_code (TE := TE) service id2 code2 rid2 w2 = (Ok tt, w3))
    (Hid1 : uuid_parse_str id1 = Some session1) (Hid2 : uuid_parse_str id2 = Some session2)
    (Hs1 : sessions (database w3) !! session1 = Some s1) (Hs2 : sessions (database w3) !! session2 = Some s2)
    (Huser : s_user s1 = s_user s2) :
  normalize_recovery_code code1 ≠ normalize_recovery_code code2.
Proof.
  destruct (use_recovery_code_Ok _ _ _ _ _ Hfirst) as
    (h1 & t1 & d1 & e1 & r1 & Hh1 & Ht1 & Hwd1 & Hde1 & Hew1 & Ha1 & _ & Hused & _).
  destruct (use_recovery_code_Ok _ _ _ _ _ Hsecond) as
    (h2 & t2 & d2 & e2 & r2 & Hh2 & Ht2 & Hwd2 & Hde2 & Hew2 & Ha2 & Hfree & _ & _).
  simplify_eq. rewrite <- (auth_kernel w3) in Hs1, Hs2.
  apply account_actor_Some in Ha1 as [Hr1 _]. apply account_actor_Some in Ha2 as [Hr2 _].
  assert (rtc astep e1 d2) as Hmid by (etrans; [exact Hew1|]; by etrans).
  assert (rtc astep d2 (auth_database w3)) as Hend by (by etrans).
  assert (s_user r1 = s_user r2) as Hu.
  { rewrite <- (session_user_stable d1 (auth_database w3) session1 r1 s1); [|etrans; [exact Hde1|by etrans]|done..].
    rewrite <- (session_user_stable d2 (auth_database w3) session2 r2 s2); [|done..]. done. }
  assert (credentials_wf e1) as Hwfe1.
  { eapply (asteps_keep (auth_database w)); [|done]. by etrans. }
  destruct (asteps_keep _ _ Hmid Hwfe1) as [_ Hk].
  destruct (kp_codes _ _ Hk _ _ Hused) as (v & Hv & Hkeep). rewrite Hkeep in Hv by done.
  intros Hnorm. assert (h1 = h2) as ->; [|rewrite Hu in Hv; congruence].
  unfold hash_recovery_code in Hh1, Hh2. rewrite Hnorm in Hh1. congruence.
Qed.

(** ** Enrollment *)

(** The verified session names its user at every later moment. *)
Lemma verified_session_user session_id request_id now (w : W) vs w' d session s :
  load_verified_session session_id request_id now w = (Ok vs, w') →
  uuid_parse_str session_id = Some session →
  rtc astep (auth_database w') d → sessions (kernel d) !! session = Some s →
  p_user_id (principal (rc_auth (vs_context vs))) = uuid_to_string (s_user s).
Proof.
  intros (k & id & c & _ & Hk & Hid & Hc & Hv)%load_with_key_Ok Hp Hr Hs. simplify_eq.
  apply verified_session_exact in Hv as (_ & -> & _). cbn. f_equal.
  unfold load_request_context, context_row in Hc. open_stmt Hc. cbn.
  assert (rtc kstep k (kernel d)) as Hkd.
  { etrans; [exact Hk|]. rewrite <- auth_kernel. by apply asteps_ksteps. }
  apply ksteps_evolve in Hkd. match goal with Hx : sessions k !! _ = Some _ |- _ => destruct (ev_sessions _ _ Hkd _ _ Hx) as (s2 & Hs2 & Hu & _) end.
  congruence.
Qed.
Lemma decrypt_encrypt `{!ResponseCodec} `{!TokenCryptoLaws} keys user nonce secret sealed enabled :
  length nonce = NONCE_BYTES → encrypt keys user nonce secret = Some sealed →
  decrypt keys (mk_totp_factor user (mk_version keys) sealed enabled) = Some secret.
Proof.
  intros Hn (c & Hc & [= <-])%bind_Some. unfold decrypt. cbn [tf_key_version tf_ciphertext tf_user_id].
  rewrite bool_decide_true by done. rewrite bool_decide_false.
  - cbn [negb orb]. rewrite <- Hn, take_app_length, drop_app_length. by eapply aead_decrypt_encrypt.
  - rewrite length_app, Hn. apply aead_tag in Hc. destruct c; [done|]. unfold NONCE_BYTES in *. cbn [length] in *. lia.
Qed.
Lemma start_totp_cases session version ciphertext now aid rid d o d' :
  start_totp_enrollment session version ciphertext now aid rid d = Some (o, d') →
  (o = false ∧ d' = d)
  ∨ ∃ s, o = true ∧ account_actor session now (kernel d) = Some s ∧ totp_enabled (s_user s) d = false
      ∧ ∃ last, factors d' !! s_user s = Some (mk_factor version ciphertext None last).
Proof.
  unfold start_totp_enrollment. intros E. open_stmt E; try (by left). right.
  eexists. split_and!; [done..|]. eexists. cbn. by rewrite lookup_insert_eq.
Qed.

(** An enrollment shows the secret it stores.  When [start] succeeds, the
    user of the live session had no enabled factor, the provisioning URI and
    the Base32 text are those of one fresh secret of twenty bytes, and the
    pending factor of that user, as any later call loads it, decrypts to that
    very secret. *)
Theorem enrollment_roundtrip `{!ResponseCodec} `{!TokenCryptoLaws} (session_id request_id : str) (w w' : W)
    (enrollment : TotpEnrollment)
    (Hrun : mfa_start (TE := TE) service session_id request_id w = (Ok enrollment, w')) :
  ∃ secret account session s f d1 d2, length secret = TOTP_SECRET_BYTES
    ∧ te_secret_base32 enrollment = encode_base32 secret
    ∧ provisioning_uri (mfa_issuer service) account secret (mfa_config service) = Ok (te_provisioning_uri enrollment)
    ∧ uuid_parse_str session_id = Some session
    ∧ rtc astep (auth_database w) d1 ∧ account_actor session (stmt_now w) (kernel d1) = Some s
    ∧ totp_enabled (s_user s) d1 = false
    ∧ factors d2 !! s_user s = Some f ∧ fa_enabled_at_ms f = None
    ∧ decrypt (mfa_keys service) (totp_factor (s_user s) f) = Some secret
    ∧ rtc astep d1 d2 ∧ rtc astep d2 (auth_database w').
Proof.
  unfold mfa_start in Hrun. apply io_bind_Ok in Hrun as (now & w0 & [= <- <-] & E).
  apply io_bind_Ok in E as (vs & w1 & Hvs%io_call_Ok & E). apply io_bind_Ok in E as (secret & w2 & Hsec%io_call_Ok & E).
  apply io_bind_Ok in E as (nonce & w3 & Hnonce%io_call_Ok & E). cbv zeta in E.
  apply io_bind_Ok in E as (sealed & w4 & [Hseal%ok_or_Ok ->]%io_lift_Ok & E).
  apply io_bind_Ok in E as (aid & w5 & Haid & E). apply io_bind_Ok in E as (rows & w6 & Q & E).
  apply io_call_Ok, au_query_Ok in Q as (d1 & d2 & Hd1 & Hex & Hd2). pose proof (auth_exec_steps _ _ _ _ _ Hex) as Hsteps.
  cbn [auth_exec] in Hex. apply bind_Some in Hex as (session & Hs & Hex). rewrite uuid_parse_to_string in Hex.
  cbn [mbind option_bind] in Hex. apply bind_Some in Hex as ([ok d2'] & Hst & [= <- <-]).
  apply io_fail_Ok in E as [Ho%negb_false_iff E]. rewrite has_outcome_flag in Ho. subst ok.
  apply start_totp_cases in Hst as [[? _]|(s & _ & Ha & Hno & last & Hf)]; [done|].
  run_inv E. injection E as <-. cbn [te_secret_base32 te_provisioning_uri].
  assert (rtc astep (auth_database w1) d1) as Hw1d1.
  { etrans; [by eapply asafe_random|]. etrans; [by eapply asafe_random|]. etrans; [by eapply asafe_uuid_v7|]. done. }
  apply account_actor_Some in Ha as Hs1. destruct Hs1 as [Hs1 _].
  rewrite (verified_session_user _ _ _ _ _ _ _ _ _ Hvs Hs Hw1d1 Hs1) in Hseal.
  eexists secret, _, session, s, _, d1, d2'. split_and!; try eassumption; try done.
  - by eapply random_bytes_length.
  - etrans; [by eapply asafe_load|done].
  - unfold totp_factor. cbn. eapply decrypt_encrypt; [|done]. by eapply random_bytes_length.
Qed.

(** ** Confirmation *)

Lemma io_fold_snoc_Ok {F B} (m : io W F B) (P : B → Prop) n acc (w : W) l w' :
  (∀ w b w', m w = (Ok b, w') → P b) →
  io_fold (λ acc (_ : unit), do! b := m in io_lift (Ok (acc ++ [b]))) acc (replicate n tt) w = (Ok l, w') →
  ∃ new, l = acc ++ new ∧ length new = n ∧ Forall P new.
Proof.
  intros Hm. revert acc w. induction n as [|n IH]; cbn; intros acc w E.
  - injection E as <- <-. exists []. by rewrite app_nil_r.
  - apply io_bind_Ok in E as (acc' & w1 & E1 & E). apply io_bind_Ok in E1 as (b & w2 & Hb & E1).
    run_inv E1. injection E1 as <-. apply IH in E as (new & -> & <- & HP).
    exists (b :: new). rewrite <- app_assoc. split_and!; [done..|]. constructor; [by eapply Hm|done].
Qed.
Lemma asafe_io_fold {E B C} (f : B → C → io W E B) acc l :
  (∀ b c, asafe (f b c)) → asafe (io_fold f acc l).
Proof.
  intros Hf. revert acc. induction l as [|c l IH]; intros acc; cbn; [apply asafe_lift|].
  apply asafe_bind; [apply Hf|intros b; apply IH].
Qed.
Definition hashes_to (code_hex : str * str) : Prop :=
  ∃ hash, hash_recovery_code hmac_sha256 (mk_recovery_pepper (mfa_keys service)) code_hex.1 = Ok hash
    ∧ code_hex.2 = hex hash.
Lemma new_recovery_code_Ok (w : W) code w' :
  new_recovery_code (TE := TE) service w = (Ok code, w') → hashes_to code.
Proof.
  unfold new_recovery_code. intros E. run_inv E. injection E as <-. eexists. split; [|done]. cbn. eassumption.
Qed.
Lemma asafe_new_recovery_codes : asafe (W := W) (new_recovery_codes (TE := TE) service).
Proof.
  apply asafe_io_fold. intros codes _. unfold new_recovery_code, mfa_fill.
  repeat (apply asafe_bind; [|intros]); eauto with wauth.
Qed.
Lemma hashes_decode codes :
  Forall hashes_to codes →
  ∃ hashes, mapM pg_decode_hex (map snd codes) = Some hashes
    ∧ Forall2 (λ code hash, hash_recovery_code hmac_sha256 (mk_recovery_pepper (mfa_keys service)) code = Ok hash)
        (map fst codes) hashes.
Proof.
  induction 1 as [|[c h] codes (hash & Hh & Hx) _ (hashes & Hm & HF)]; cbn in *; [|subst h].
  - exists []. split; [done|constructor].
  - exists (hash :: hashes). rewrite pg_decode_hex_hex.
    + cbn. rewrite Hm. cbn. split; [done|]. by constructor.
    + unfold hash_recovery_code in Hh. apply fail_Ok in Hh as [_ Hh].
      apply rbind_Ok in Hh as (n & _ & [= <-]). apply hmac_sha256_bytes.
Qed.
Lemma json_texts_strings l : json_texts (VArray (map VString l)) = Some l.
Proof. unfold json_texts. cbn. induction l as [|x l IH]; cbn; [done|]. by rewrite IH. Qed.
Lemma enable_factor_codes user f now step codes d d' :
  enable_factor user f now step codes d = Some d' →
  kernel d' = kernel d
  ∧ factors d' = <[user := mk_factor (fa_key_version f) (fa_ciphertext f) (Some now) (Some step)]> (factors d)
  ∧ NoDup codes ∧ ∀ h v, recovery_codes d' !! (user, h) = Some v ↔ h ∈ codes ∧ v = None.
Proof.
  unfold enable_factor. intros E. open_stmt E.
  match goal with Hi : insert_codes _ _ _ = Some _ |- _ => apply insert_codes_Some in Hi as (_ & B & F & ND) end.
  split_and!; [done..|]. intros h v. cbn. split.
  - intros [Hv|(_ & ? & ->)]%B; [|done]. apply map_lookup_filter_Some in Hv as [_ Hne]. cbn in Hne. done.
  - intros [[_ Hh]%F ->]. done.
Qed.

(** What a confirmation does.  When [confirm] succeeds, the code matched
    the pending factor that was loaded, ten recovery codes are returned and the
    live session is elevated.  If that factor is still the pending one when the
    statement runs, it is enabled with the matched step consumed and the
    user's recovery codes are exactly the hashes of the returned ones, all
    unused; if it was replaced or enabled in the meantime, neither the factors
    nor the recovery codes change, although the session is elevated all the
    same. *)
Theorem confirmation_outcomes (session_id code request_id : str) (w w' : W) (confirmation : TotpConfirmation)
    (Hperiod : 1 ≤ period_seconds (mfa_config service))
    (Hrun : confirm (TE := TE) service session_id code request_id w = (Ok confirmation, w')) :
  ∃ factor w1 secret step hashes session s d1 d2 now,
    load_factor (TE := TE) session_id w = (Ok factor, w1) ∧ tf_enabled factor = false
    ∧ decrypt (mfa_keys service) factor = Some secret
    ∧ matched_step secret code (mfa_config service) (clock_now w1) step
    ∧ length (tc_recovery_codes confirmation) = RECOVERY_CODE_COUNT
    ∧ Forall2 (λ code hash, hash_recovery_code hmac_sha256 (mk_recovery_pepper (mfa_keys service)) code = Ok hash)
        (tc_recovery_codes confirmation) hashes
    ∧ uuid_parse_str session_id = Some session
    ∧ rtc astep (auth_database w1) d1 ∧ rtc astep d1 d2 ∧ rtc astep d2 (auth_database w')
    ∧ account_actor session now (kernel d1) = Some s ∧ sessions (kernel d2) !! session = Some (elevate_row s)
    ∧ ((∃ f, factors d1 !! s_user s = Some f ∧ pending_factor (tf_ciphertext factor) f = true
          ∧ factors d2 = <[s_user s := mk_factor (fa_key_version f) (fa_ciphertext f) (Some now)
                            (Some (u64_to_i64 step))]> (factors d1)
          ∧ NoDup hashes ∧ ∀ h v, recovery_codes d2 !! (s_user s, h) = Some v ↔ h ∈ hashes ∧ v = None)
       ∨ ((∀ f, factors d1 !! s_user s = Some f → pending_factor (tf_ciphertext factor) f = false)
          ∧ factors d2 = factors d1 ∧ recovery_codes d2 = recovery_codes d1)).
Proof.
  unfold confirm in Hrun. apply io_bind_Ok in Hrun as (factor & w1 & Hload & E). apply io_fail_Ok in E as [Hen E].
  apply io_bind_Ok in E as (step & w2 & Hstep & E). apply consumed_step_Ok in Hstep as (-> & secret & Hdec & Hver).
  apply verify_totp_hit in Hver as Hhit; [|apply auth_clock|done]. apply io_bind_Ok in E as (codes & w3 & Hcodes & E).
  pose proof (asafe_new_recovery_codes _ _ _ Hcodes) as Hw13.
  apply (io_fold_snoc_Ok _ hashes_to) in Hcodes as (new & -> & Hlen & Hnew); [|apply new_recovery_code_Ok].
  cbn [app] in *. destruct (hashes_decode _ Hnew) as (hashes & Hm & HF).
  apply io_bind_Ok in E as (n & w4 & [-> ->]%mfa_now_Ok & E). apply io_bind_Ok in E as (aid & w4 & Haid & E).
  apply io_bind_Ok in E as (rows & w5 & Q & E). apply io_call_Ok, au_query_Ok in Q as (d1 & d2 & Hd1 & Hex & Hd2).
  pose proof (auth_exec_steps _ _ _ _ _ Hex) as Hsteps.
  cbn [auth_exec] in Hex. apply bind_Some in Hex as (session & Hs & Hex). rewrite uuid_parse_to_string in Hex.
  cbn [mbind option_bind] in Hex. rewrite json_texts_strings in Hex. cbn [mbind option_bind] in Hex.
  rewrite Hm in Hex. cbn [mbind option_bind] in Hex. apply bind_Some in Hex as ([ok d2'] & Hc & [= <- <-]).
  rewrite has_outcome_flag in E. destruct ok; [|done]. injection E as <- <-.
  unfold confirm_totp_enrollment in Hc. destruct (account_actor _ _ _) as [s|] eqn:Ha; [|done].
  apply bind_Some in Hc as (d3 & Hp & Hc). apply bind_Some in Hc as (d4 & (r & -> & _)%elevate_Some & [= <-]).
  eexists factor, w1, secret, step, hashes, session, s, d1, _, _.
  split_and!; try eassumption; try done.
  - cbn [tc_recovery_codes]. by rewrite length_map.
  - etrans; [exact Hw13|]. etrans; [by eapply asafe_uuid_v7|done].
  - cbn. by rewrite lookup_insert_eq.
  - apply enable_pending_Some in Hp as [[-> Hno]|(f & Hf & Hci & Hno & He)]; [by right|left].
    apply enable_factor_codes in He as (Hk & Hfs & HND & Hcs). exists f. split_and!; try done.
    unfold pending_factor. by rewrite !bool_decide_true by done.
Qed.

(** ** The service only takes steps of the database *)

Lemma asafe_load_factor session_id : asafe (W := W) (load_factor (TE := TE) session_id).
Proof. unfold load_factor, mfa_now, mfa_query. asafe_walk. Qed.
Lemma asafe_mfa_start session_id request_id : asafe (W := W) (mfa_start (TE := TE) service session_id request_id).
Proof. unfold mfa_start, mfa_fill, mfa_uuid, mfa_query. asafe_walk. Qed.
Lemma asafe_confirm session_id code request_id : asafe (W := W) (confirm (TE := TE) service session_id code request_id).
Proof.
  unfold confirm, consumed_step, mfa_now, mfa_uuid, mfa_query. apply asafe_bind; [apply asafe_load_factor|intros].
  apply asafe_fail, asafe_bind; [asafe_walk|intros]. apply asafe_bind; [apply asafe_new_recovery_codes|intros]. asafe_walk.
Qed.
Lemma asafe_verify_step_up session_id code request_id :
  asafe (W := W) (verify_step_up (TE := TE) service session_id code request_id).
Proof.
  unfold verify_step_up, consumed_step, mfa_now, mfa_uuid, mfa_query. apply asafe_bind; [apply asafe_load_factor|intros].
  asafe_walk.
Qed.
End proofs.
