(* ===== verification/Flows.v ===== *)
(** * Flows: encrypted one-time state of OAuth and WebAuthn ceremonies

    Models src/crates/wasi-auth/src/postgres/flows.rs: the sealing key, and the
    store that creates a flow under a fresh verifier and loads it back. *)

From S2P Require Export CredentialWire TokenProofs.
Open Scope Z_scope.

#[local] Arguments lit : simpl never.

Definition FLOW_AAD_PREFIX : list Z := str_bytes (lit "wasi-auth:flow:v1:").
Definition VERIFIER_BYTES : nat := 32.
Definition MAX_PAYLOAD_BYTES : Z := 64 * 1024.

Inductive FlowConfigurationError := InvalidFlowConfiguration.
Inductive FlowStoreError (E : Type) :=
| FsInvalidInput | FsInvalidFlow | FsRandomnessUnavailable | FsCrypto | FsTransport (e : E)
| FsRow (e : RowDecodeError) | FsInvalidRow.
Arguments FsInvalidInput {E}.
Arguments FsInvalidFlow {E}.
Arguments FsRandomnessUnavailable {E}.
Arguments FsCrypto {E}.
Arguments FsTransport {E} e.
Arguments FsRow {E} e.
Arguments FsInvalidRow {E}.

Record FlowSealingKey := mk_flow_key { fk_version : str; fk_key : list Z }.
Definition FlowSealingKey_new (version : str) (key : list Z) : result FlowConfigurationError FlowSealingKey :=
  fail? is_empty version || (128 <? str_len version) || existsb is_control version with InvalidFlowConfiguration ;;
  Ok (mk_flow_key version key).
Record PendingFlow := mk_pending_flow {
  pf_flow_id : Uuid;
  pf_user_id : option str;
  pf_verifier_hash : list Z;
  pf_payload : list Z;
}.

Section flows.
Context `{UuidText} `{TokenCrypto}.

Definition flow_aad (kind : FlowKind) (flow_id : Uuid) : list Z :=
  FLOW_AAD_PREFIX ++ str_bytes (flow_kind_text kind) ++ [58] ++ str_bytes (uuid_to_string flow_id).
Definition flow_seal (k : FlowSealingKey) (kind : FlowKind) (flow_id : Uuid) (nonce plaintext : list Z) :
    option (list Z) :=
  ciphertext ← aead_encrypt (fk_key k) nonce (flow_aad kind flow_id) plaintext;
  Some (nonce ++ ciphertext).
Definition flow_open (k : FlowSealingKey) (kind : FlowKind) (flow_id : Uuid) (version : str) (sealed : list Z) :
    option (list Z) :=
  if negb (bool_decide (version = fk_version k)) || bool_decide (length sealed ≤ NONCE_BYTES)%nat then None
  else aead_decrypt (fk_key k) (take NONCE_BYTES sealed) (flow_aad kind flow_id) (drop NONCE_BYTES sealed).
End flows.

(** ** The store *)

Section store.
Context {W TE RE : Type} `{UuidText} `{KernelWorld W TE RE} `{!AuthWorld W TE RE} `{TokenCrypto}.
Context (key : FlowSealingKey).

Definition flow_fill (n : nat) : io W (FlowStoreError TE) (list Z) :=
  io_call (λ _, FsRandomnessUnavailable) (random_bytes n).
Definition flow_query (sql : AuthSql) (values : list PgValue) : io W (FlowStoreError TE) (list PgRow) :=
  io_call FsTransport (au_query sql values).
Definition flow_has_outcome (rows : list PgRow) (expected : string) : bool :=
  bool_decide ((head rows ≫= λ row, ok (required_text row (lit "outcome"))) = Some (lit expected)).

Definition flow_create (kind : FlowKind) (user_id : option str) (payload : list Z) (ttl_seconds : Z) :
    io W (FlowStoreError TE) str :=
  fail! bool_decide (payload = []) || (MAX_PAYLOAD_BYTES <? Z.of_nat (length payload))
        || negb (in_range 60 (15 * 60) ttl_seconds) with FsInvalidInput ;;
  do! now := io_now in
  let now_ms := u64_saturating_mul now 1000 in
  do! flow_id := uuid_v7 FsRandomnessUnavailable now_ms in
  do! verifier := flow_fill VERIFIER_BYTES in
  do! nonce := flow_fill NONCE_BYTES in
  do! sealed := io_lift (ok_or (flow_seal key kind flow_id nonce payload) FsCrypto) in
  let verifier_text := base64_url_encode verifier in
  let verifier_hash := sha256 (str_bytes verifier_text) in
  do! rows := flow_query CREATE_AUTH_FLOW_SQL
    [PgText (uuid_to_string flow_id); PgText (flow_kind_text kind); pg_text user_id; PgBytes verifier_hash;
     PgText (fk_version key); PgBytes sealed;
     PgI64 (u64_to_i64 (u64_saturating_add now_ms (u64_saturating_mul ttl_seconds 1000))); PgI64 (u64_to_i64 now_ms)] in
  if flow_has_outcome rows "created" then io_lift (Ok verifier_text) else io_lift (Err FsInvalidRow).

Definition pending_of_row (kind : FlowKind) (verifier_hash : list Z) (row : PgRow) :
    result (FlowStoreError TE) PendingFlow :=
  let? text := map_err FsRow (required_text row (lit "flow_id")) in
  let? flow_id := ok_or (uuid_parse_str text) FsInvalidRow in
  let? version := map_err FsRow (required_text row (lit "key_version")) in
  let? sealed := map_err FsRow (required_bytes row (lit "payload_ciphertext")) in
  let? payload := ok_or (flow_open key kind flow_id version sealed) FsCrypto in
  let? user := map_err FsRow (row_text row (lit "user_id")) in
  Ok (mk_pending_flow flow_id user verifier_hash payload).
Definition flow_load (kind : FlowKind) (verifier : str) : io W (FlowStoreError TE) PendingFlow :=
  fail! (str_len verifier <? 32) || (512 <? str_len verifier) || existsb is_control verifier with FsInvalidFlow ;;
  let verifier_hash := sha256 (str_bytes verifier) in
  do! now := io_now in
  do! rows := flow_query LOAD_AUTH_FLOW_SQL
    [PgBytes verifier_hash; PgText (flow_kind_text kind); PgI64 (u64_to_i64 (u64_saturating_mul now 1000))] in
  do! row := io_lift (ok_or (head rows) FsInvalidFlow) in
  io_lift (pending_of_row kind verifier_hash row).
End store.

(** ** Lemmas *)

Lemma flow_kind_of_text k : flow_kind_of (flow_kind_text k) = Some k.
Proof. by destruct k. Qed.
Lemma flow_kind_text_inj k1 k2 : flow_kind_text k1 = flow_kind_text k2 → k1 = k2.
Proof. intros E%(f_equal flow_kind_of). rewrite !flow_kind_of_text in E. congruence. Qed.
Lemma load_auth_flow_Some hash kind now d id f :
  load_auth_flow hash kind now d = Some (id, f) → flows d !! id = Some f ∧ open_flow kind hash now f = true.
Proof.
  unfold load_auth_flow. intros [Hin Ho]%find_some. apply list_elem_of_In, elem_of_map_to_list in Hin. done.
Qed.
Lemma flow_open_seal `{UuidText} `{TokenCryptoLaws} k kind id nonce m sealed :
  length nonce = NONCE_BYTES → flow_seal k kind id nonce m = Some sealed →
  flow_open k kind id (fk_version k) sealed = Some m.
Proof.
  intros Hn (c & Hc & [= <-])%bind_Some. unfold flow_open. rewrite bool_decide_true by done. rewrite bool_decide_false.
  - cbn [negb orb]. rewrite <- Hn, take_app_length, drop_app_length. by eapply aead_decrypt_encrypt.
  - rewrite length_app, Hn. apply aead_tag in Hc. destruct c; [done|]. unfold NONCE_BYTES in *. cbn [length] in *. lia.
Qed.
(** A consumed flow stays consumed. *)
Lemma consumed_row_dead id f now d d' hash kind owner now' d2 :
  flows d !! id = Some (consume_flow_row now f) → keeps d d' →
  consume_flow id hash kind owner now' d' = Some d2 → False.
Proof.
  intros Hf Hk (f' & Hf' & Ho & _)%consume_flow_Some.
  destruct (kp_flows _ _ Hk id _ Hf) as (f2 & Hf2 & Hcons & _). simplify_eq.
  apply open_flow_spec in Ho as (_ & _ & Hn & _). cbn in Hcons. destruct Hcons as [Hcons|Hcons]; congruence.
Qed.

Section proofs.
Context {W TE RE : Type} `{AuthWorldLaws W TE RE} `{TokenCrypto}.
Context (key : FlowSealingKey).
#[local] Set Default Proof Using "Type*".

Lemma flow_outcome_flag outcome ok : flow_has_outcome (flag_rows (kernel_outcome outcome) ok) outcome = ok.
Proof.
  destruct ok; unfold flow_has_outcome; cbn [flag_rows head mbind option_bind]; [|done].
  by apply bool_decide_eq_true.
Qed.
Lemma flow_create_Ok kind user payload ttl (w : W) verifier w' :
  flow_create (TE := TE) key kind user payload ttl w = (Ok verifier, w') →
  ∃ id owner nonce sealed expires d1 d2, flow_seal key kind id nonce payload = Some sealed
    ∧ length nonce = NONCE_BYTES ∧ opt_uuid (pg_text user) = Some owner
    ∧ rtc astep (auth_database w) d1 ∧ rtc astep d1 d2 ∧ rtc astep d2 (auth_database w')
    ∧ flows d2 !! id = Some (mk_flow kind owner (sha256 (str_bytes verifier)) (fk_version key) sealed expires None).
Proof.
  unfold flow_create. intros E. apply io_fail_Ok in E as [_ E]. apply io_bind_Ok in E as (now & w0 & [= <- <-] & E).
  cbv zeta in E. run_inv E.
  match goal with Q : flow_query _ _ _ = _ |- _ => apply io_call_Ok, au_query_Ok in Q as (d1 & d2 & Hd1 & Hex & Hd2) end.
  pose proof (auth_exec_steps _ _ _ _ _ Hex) as Hsteps. cbn [auth_exec] in Hex.
  rewrite uuid_parse_to_string, flow_kind_of_text in Hex. cbn [mbind option_bind] in Hex.
  apply bind_Some in Hex as (owner & Hu & Hex). apply bind_Some in Hex as ([o d2'] & Hc & [= <- <-]).
  rewrite flow_outcome_flag in E. apply create_flow_Some in Hc as (-> & -> & _ & _). injection E as <- <-.
  match goal with Hs : flow_seal _ _ ?i ?n _ = Some ?s |- _ => rename Hs into Hseal end.
  eexists _, owner, _, _, _, d1, _. split_and!; try eassumption.
  - by eapply random_bytes_length, io_call_Ok.
  - etrans; [by eapply asafe_uuid_v7|]. do 2 (etrans; [by eapply asafe_random, io_call_Ok|]). done.
  - cbn. by rewrite lookup_insert_eq.
Qed.
Lemma flow_load_Ok kind verifier (w : W) pending w' :
  flow_load (TE := TE) key kind verifier w = (Ok pending, w') →
  ∃ d f, rtc astep (auth_database w) d ∧ rtc astep d (auth_database w')
    ∧ flows d !! pf_flow_id pending = Some f
    ∧ open_flow kind (sha256 (str_bytes verifier)) (u64_to_i64 (u64_saturating_mul (clock_now w) 1000)) f = true
    ∧ pf_verifier_hash pending = sha256 (str_bytes verifier)
    ∧ pf_user_id pending = uuid_to_string <$> fl_user f
    ∧ flow_open key kind (pf_flow_id pending) (fl_key_version f) (fl_payload_ciphertext f) = Some (pf_payload pending).
Proof.
  unfold flow_load. intros E. apply io_fail_Ok in E as [_ E]. cbv zeta in E.
  apply io_bind_Ok in E as (now & w0 & [= <- <-] & E). run_inv E.
  match goal with Q : flow_query _ _ _ = _ |- _ => apply io_call_Ok, au_query_Ok in Q as (d1 & d2 & Hd1 & Hex & Hd2) end.
  cbn [auth_exec] in Hex. rewrite flow_kind_of_text in Hex. cbn [mbind option_bind] in Hex. injection Hex as <- <-.
  match goal with Hh : head _ = Some _ |- _ => apply opt_rows_head in Hh as ([id f] & [Hf Ho]%load_auth_flow_Some & ->) end.
  unfold pending_of_row in E. cbn [flow_columns fst snd] in E.
  change (required_text _ (lit "flow_id")) with (Ok (E := RowDecodeError) (uuid_to_string id)) in E.
  cbn [map_err rbind] in E. rewrite uuid_parse_to_string in E. cbn [ok_or rbind] in E.
  change (required_text _ (lit "key_version")) with (Ok (E := RowDecodeError) (fl_key_version f)) in E.
  change (required_bytes _ (lit "payload_ciphertext")) with (Ok (E := RowDecodeError) (fl_payload_ciphertext f)) in E.
  cbn [map_err rbind] in E. apply rbind_Ok in E as (payload & Hp%ok_or_Ok & E).
  apply rbind_Ok in E as (user & Hu%map_err_Ok & [= <-]).
  assert (row_text (flow_columns (id, f)) (lit "user_id") = Ok (uuid_to_string <$> fl_user f)) as Hrow by (by apply pg_text_row).
  pose proof (eq_trans (eq_sym Hu) Hrow) as [= ->]. exists d1, f. split_and!; done.
Qed.

(** A flow is read back as it was sealed.  Whatever statements run in
    between, a load of the verifier that [create] returned succeeds only for
    the kind it was created for, and returns exactly the payload and the
    canonical user it was created with. *)
Theorem flow_roundtrip `{!ResponseCodec} `{!TokenCryptoLaws} (kind kind' : FlowKind) (user : option str)
    (payload : list Z) (ttl : Z) (verifier : str) (pending : PendingFlow) (w w1 w2 w3 : W)
    (Hwf : credentials_wf (auth_database w))
    (Hcreate : flow_create (TE := TE) key kind user payload ttl w = (Ok verifier, w1))
    (Hbetween : rtc astep (auth_database w1) (auth_database w2))
    (Hload : flow_load (TE := TE) key kind' verifier w2 = (Ok pending, w3)) :
  kind' = kind ∧ pf_payload pending = payload ∧ pf_verifier_hash pending = sha256 (str_bytes verifier)
  ∧ ∃ owner, opt_uuid (pg_text user) = Some owner ∧ pf_user_id pending = uuid_to_string <$> owner.
Proof.
  destruct (flow_create_Ok _ _ _ _ _ _ _ Hcreate) as
    (id & owner & nonce & sealed & expires & d1 & d2 & Hseal & Hn & Hu & Hwd & Hd12 & Hdw & Hf).
  destruct (flow_load_Ok _ _ _ _ _ Hload) as (d3 & f & Hw2 & _ & Hf3 & Ho & Hh & Hpu & Hopen).
  assert (credentials_wf d2) as Hwf2 by (eapply (asteps_keep (auth_database w)); [by etrans|done]).
  assert (rtc astep d2 d3) as H23 by (etrans; [exact Hdw|]; by etrans).
  destruct (asteps_keep _ _ H23 Hwf2) as [Hwf3 Hk]. destruct (kp_flows _ _ Hk id _ Hf) as (f' & Hf' & _ & Hsame).
  apply open_flow_spec in Ho as (Hhash & Hkind & _ & _).
  assert (pf_flow_id pending = id) as Hid.
  { eapply (cw_hashes _ Hwf3); [exact Hf3|exact Hf'|]. by rewrite Hsame, Hhash. }
  rewrite Hid in *. simplify_eq. rewrite Hsame in Hpu, Hopen. cbn in Hpu, Hopen.
  assert (fl_kind f = kind) as Hk' by (by rewrite Hsame). rewrite Hk' in *.
  rewrite (flow_open_seal _ _ _ _ _ _ Hn Hseal) in Hopen. split_and!; [done|congruence|done|eauto].
Qed.
End proofs.
