(* ===== verification/OAuth.v ===== *)
(** * OAuth: callback state, identity linking and provider administration

    Models src/crates/wasi-auth/src/postgres/oauth.rs: OAuthFlowService (start,
    load_callback, complete) over the encrypted flows, and OAuthProviderService
    (list, get, save, replace_redirects).  The JSON text of the stored payload
    and of a profile is a parameter. *)

From S2P Require Export Flows.
Open Scope Z_scope.

#[local] Arguments lit : simpl never.

Definition RANDOM_SECRET_BYTES : nat := 32.
Definition MAX_PROFILE_BYTES : Z := 16 * 1024.

(** ** Records *)

Inductive OAuthConfigurationError := InvalidOAuthConfiguration.
Record OAuthServiceConfig := mk_oauth_config { oc_flow_ttl_seconds : Z; oc_session_ttl_seconds : Z }.
Definition OAuthServiceConfig_new (flow_ttl session_ttl : Z) : result OAuthConfigurationError OAuthServiceConfig :=
  fail? negb (in_range 60 (15 * 60) flow_ttl) || negb (in_range (5 * 60) (24 * 60 * 60) session_ttl)
    with InvalidOAuthConfiguration ;;
  Ok (mk_oauth_config flow_ttl session_ttl).
Record OAuthStart := mk_oauth_start { os_state : str; os_nonce : str; os_pkce_challenge : str }.
Record StoredOAuthPayload := mk_oauth_payload {
  op_provider_id : str;
  op_redirect_path : str;
  op_nonce : str;
  op_pkce_verifier : str;
}.
Record PendingOAuthFlow := mk_pending_oauth { po_flow : PendingFlow; po_payload : StoredOAuthPayload }.
Record VerifiedOAuthIdentity := mk_oauth_identity {
  vi_provider_id : str;
  vi_provider_subject : str;
  vi_email : option str;
  vi_email_verified : bool;
  vi_profile : Value;
}.
Record OAuthCompletion := mk_oauth_completion {
  oc_session_id : str;
  oc_user_id : str;
  oc_primary_email : str;
  oc_expires_at_ms : Z;
  oc_redirect_path : str;
}.
Record OAuthProviderRecord := mk_provider_record {
  pv_provider_id : str;
  pv_display_name : str;
  pv_enabled : bool;
  pv_scopes : list str;
  pv_claim_mapping : Value;
}.

(** [serde_json] on the payload and on a profile. *)
Class OAuthCodec := {
  oauth_payload_to_vec : StoredOAuthPayload → option (list Z);
  oauth_payload_from_slice : list Z → option StoredOAuthPayload;
  profile_to_vec : Value → option (list Z);
}.
Class OAuthCodecLaws `{OAuthCodec} : Prop := {
  oauth_payload_round_trip p bytes : oauth_payload_to_vec p = Some bytes → oauth_payload_from_slice bytes = Some p;
}.

Inductive OAuthServiceError (E : Type) :=
| OsInvalidInput | OsInvalidFlow | OsInvalidIdentity | OsAccountUnavailable | OsRandomnessUnavailable | OsSerialization
| OsFlow (e : FlowStoreError E) | OsTransport (e : E) | OsRow (e : RowDecodeError) | OsInvalidRow.
Arguments OsInvalidInput {E}.
Arguments OsInvalidFlow {E}.
Arguments OsInvalidIdentity {E}.
Arguments OsAccountUnavailable {E}.
Arguments OsRandomnessUnavailable {E}.
Arguments OsSerialization {E}.
Arguments OsFlow {E} e.
Arguments OsTransport {E} e.
Arguments OsRow {E} e.
Arguments OsInvalidRow {E}.
Inductive OAuthProviderServiceError (E : Type) :=
| OpInvalidInput | OpInvalidAdminSession | OpRandomnessUnavailable | OpTransport (e : E) | OpRow (e : RowDecodeError)
| OpInvalidRow.
Arguments OpInvalidInput {E}.
Arguments OpInvalidAdminSession {E}.
Arguments OpRandomnessUnavailable {E}.
Arguments OpTransport {E} e.
Arguments OpRow {E} e.
Arguments OpInvalidRow {E}.

(** ** Validation *)

Definition valid_provider_id (value : str) : bool :=
  negb (is_empty value) && (str_len value <=? 64)
  && forallb (λ b, in_range 97 122 b || in_range 48 57 b || one_of [45; 95] b) (str_bytes value).
Definition safe_redirect_path (value : str) : bool :=
  starts_with (lit "/") value && negb (starts_with (lit "//") value) && (str_len value <=? 2048)
  && negb (existsb is_control value).
Definition bounded_subject (value : str) : bool :=
  negb (is_empty (trim value)) && (str_len value <=? 1024) && negb (existsb is_control value).
(** [matches('@').count()] *)
Definition count_at (value : str) : Z := Z.of_nat (length (List.filter (λ c, c =? 64) value)).
Definition oauth_normalize_email (value : str) : option str :=
  let normalized := to_ascii_lowercase (trim value) in
  if (320 <? str_len normalized) || bool_decide (head normalized = Some 64) || bool_decide (last normalized = Some 64)
     || negb (count_at normalized =? 1) || existsb is_control normalized then None
  else Some normalized.

(** ** Flows *)

Section service.
Context {W TE RE : Type} `{UuidText} `{KernelWorld W TE RE} `{!AuthWorld W TE RE} `{TokenCrypto} `{OAuthCodec}.
Context (key : FlowSealingKey) (config : OAuthServiceConfig).

Definition random_secret : io W (OAuthServiceError TE) str :=
  do! bytes := io_call (λ _, OsRandomnessUnavailable) (random_bytes RANDOM_SECRET_BYTES) in
  io_lift (Ok (base64_url_encode bytes)).
Definition oauth_query (sql : AuthSql) (values : list PgValue) : io W (OAuthServiceError TE) (list PgRow) :=
  io_call OsTransport (au_query sql values).

Definition oauth_start (provider_id redirect_path : str) : io W (OAuthServiceError TE) OAuthStart :=
  fail! negb (valid_provider_id provider_id) || negb (safe_redirect_path redirect_path) with OsInvalidInput ;;
  do! allowed := oauth_query VALIDATE_APPLICATION_REDIRECT_SQL [PgText redirect_path] in
  fail! bool_decide (allowed = []) with OsInvalidInput ;;
  do! nonce := random_secret in
  do! pkce_verifier := random_secret in
  let pkce_challenge := base64_url_encode (sha256 (str_bytes pkce_verifier)) in
  do! payload := io_lift (ok_or
    (oauth_payload_to_vec (mk_oauth_payload provider_id redirect_path nonce pkce_verifier)) OsSerialization) in
  do! state := io_call OsFlow (flow_create key OAuthFlow None payload (oc_flow_ttl_seconds config)) in
  io_lift (Ok (mk_oauth_start state nonce pkce_challenge)).

Definition load_callback (provider_id state : str) : io W (OAuthServiceError TE) PendingOAuthFlow :=
  fail! negb (valid_provider_id provider_id) with OsInvalidInput ;;
  do! flow := io_call OsFlow (flow_load key OAuthFlow state) in
  do! payload := io_lift (ok_or (oauth_payload_from_slice (pf_payload flow)) OsSerialization) in
  fail! negb (bool_decide (op_provider_id payload = provider_id)) || negb (safe_redirect_path (op_redirect_path payload))
    with OsInvalidFlow ;;
  (** [flow.payload.zeroize()] *)
  io_lift (Ok (mk_pending_oauth (mk_pending_flow (pf_flow_id flow) (pf_user_id flow) (pf_verifier_hash flow) []) payload)).

Definition completion_of_row (row : PgRow) (redirect_path : str) : result (OAuthServiceError TE) OAuthCompletion :=
  let? session := map_err OsRow (required_text row (lit "session_id")) in
  let? session := map_err (λ _, OsInvalidRow) (identifier_new session) in
  let? user := map_err OsRow (required_text row (lit "user_id")) in
  let? email := map_err OsRow (required_text row (lit "primary_email")) in
  let? expires := map_err OsRow (required_i64 row (lit "expires_at_ms")) in
  let? expires := ok_or (u64_try_from expires) OsInvalidRow in
  Ok (mk_oauth_completion session user email expires redirect_path).
(** The email that links an account: only one the provider verified. *)
Definition linking_email (identity : VerifiedOAuthIdentity) : result (OAuthServiceError TE) (option str) :=
  match vi_email identity with
  | Some email =>
      if vi_email_verified identity then rmap Some (ok_or (oauth_normalize_email email) OsInvalidIdentity) else Ok None
  | None => Ok None
  end.
Definition oauth_complete (pending : PendingOAuthFlow) (identity : VerifiedOAuthIdentity) (request_id : str) :
    io W (OAuthServiceError TE) OAuthCompletion :=
  fail! negb (bool_decide (vi_provider_id identity = op_provider_id (po_payload pending)))
        || negb (bounded_subject (vi_provider_subject identity)) with OsInvalidIdentity ;;
  do! email := io_lift (linking_email identity) in
  do! profile := io_lift (ok_or (profile_to_vec (vi_profile identity)) OsSerialization) in
  fail! MAX_PROFILE_BYTES <? Z.of_nat (length profile) with OsInvalidIdentity ;;
  do! now := io_now in
  let now_ms := u64_saturating_mul now 1000 in
  do! new_user := uuid_v7 OsRandomnessUnavailable now_ms in
  do! session := uuid_v7 OsRandomnessUnavailable now_ms in
  do! audit_id := uuid_v7 OsRandomnessUnavailable now_ms in
  do! rows := oauth_query COMPLETE_OAUTH_IDENTITY_SQL
    [PgBytes (pf_verifier_hash (po_flow pending)); PgText (uuid_to_string (pf_flow_id (po_flow pending)));
     PgText (vi_provider_id identity); PgText (vi_provider_subject identity); pg_text email; pg_text email;
     PgJson (vi_profile identity); PgText (uuid_to_string new_user); PgText (uuid_to_string session);
     PgI64 (u64_to_i64 (u64_saturating_add now_ms (u64_saturating_mul (oc_session_ttl_seconds config) 1000)));
     PgI64 (u64_to_i64 now_ms); PgText (uuid_to_string audit_id); PgText request_id] in
  do! row := io_lift (ok_or (head rows) OsInvalidFlow) in
  do! outcome := io_lift (map_err OsRow (required_text row (lit "outcome"))) in
  io_lift (if bool_decide (outcome = lit "completed") then completion_of_row row (op_redirect_path (po_payload pending))
           else if bool_decide (outcome = lit "account_unavailable") then Err OsAccountUnavailable
           else Err OsInvalidRow).

(** ** Providers *)

Definition scope_of (v : Value) : result (OAuthProviderServiceError TE) str :=
  match as_str v with
  | Some scope => if (str_len scope <=? 256) && negb (existsb is_control scope) then Ok scope else Err OpInvalidRow
  | None => Err OpInvalidRow
  end.
Definition provider_from_row (row : PgRow) : result (OAuthProviderServiceError TE) OAuthProviderRecord :=
  let? document := map_err OpRow (row_json row (lit "scopes")) in
  let? items := ok_or (document ≫= as_array) OpInvalidRow in
  let? scopes := collect_map scope_of items in
  let? id := map_err OpRow (required_text row (lit "provider_id")) in
  let? name := map_err OpRow (required_text row (lit "display_name")) in
  let? enabled := map_err OpRow (row_bool row (lit "enabled")) in
  let? enabled := ok_or enabled OpInvalidRow in
  let? mapping := map_err OpRow (row_json row (lit "claim_mapping")) in
  let? mapping := ok_or mapping OpInvalidRow in
  Ok (mk_provider_record id name enabled scopes mapping).
Definition provider_query (sql : AuthSql) (values : list PgValue) : io W (OAuthProviderServiceError TE) (list PgRow) :=
  io_call OpTransport (au_query sql values).
Definition provider_list : io W (OAuthProviderServiceError TE) (list OAuthProviderRecord) :=
  do! rows := provider_query LIST_OAUTH_PROVIDERS_SQL [] in
  io_lift (collect_map provider_from_row rows).
Definition provider_get (provider_id : str) : io W (OAuthProviderServiceError TE) (option OAuthProviderRecord) :=
  fail! negb (valid_provider_id provider_id) with OpInvalidInput ;;
  do! rows := provider_query GET_OAUTH_PROVIDER_SQL [PgText provider_id] in
  io_lift match head rows with
          | Some row => rmap Some (provider_from_row row)
          | None => Ok None
          end.
Definition provider_save (session_id provider_id display_name : str) (enabled : bool) (request_id : str) :
    io W (OAuthProviderServiceError TE) OAuthProviderRecord :=
  fail! negb (valid_provider_id provider_id) || is_empty (trim display_name) || (128 <? str_len display_name)
        || existsb is_control display_name with OpInvalidInput ;;
  do! now := io_now in
  let now_ms := u64_saturating_mul now 1000 in
  do! audit_id := uuid_v7 OpRandomnessUnavailable now_ms in
  do! rows := provider_query SAVE_OAUTH_PROVIDER_SQL
    [PgText session_id; PgText provider_id; PgText (trim display_name); PgBool enabled; PgI64 (u64_to_i64 now_ms);
     PgText (uuid_to_string audit_id); PgText request_id] in
  do! row := io_lift (ok_or (head rows) OpInvalidAdminSession) in
  io_lift (provider_from_row row).
Definition replace_redirects (session_id : str) (paths : list str) (request_id : str) :
    io W (OAuthProviderServiceError TE) (list str) :=
  fail! bool_decide (paths = []) || (100 <? Z.of_nat (length paths)) || existsb (λ p, negb (safe_redirect_path p)) paths
    with OpInvalidInput ;;
  let normalized := sort_dedup paths in
  do! now := io_now in
  let now_ms := u64_saturating_mul now 1000 in
  do! audit_id := uuid_v7 OpRandomnessUnavailable now_ms in
  do! rows := provider_query REPLACE_APPLICATION_REDIRECTS_SQL
    [PgText session_id; PgJson (VArray (map VString normalized)); PgI64 (u64_to_i64 now_ms);
     PgText (uuid_to_string audit_id); PgText request_id] in
  fail! negb (bool_decide (length rows = length normalized)) with OpInvalidAdminSession ;;
  io_lift (collect_map (λ row, map_err OpRow (required_text row (lit "redirect_path"))) rows).
End service.
