(* ===== verification/OAuthProofs.v ===== *)
(** * OAuthProofs: what an OAuth login guarantees

    A completed login consumed an open callback state and belongs to the user
    the identity is linked to, or to the one with the email that the provider
    verified; an identity never moves to another user, and a callback state is
    used up by its first completion. *)

From S2P Require Export OAuth.
From S2P Require Import KernelTheorems.
Open Scope Z_scope.

#[local] Arguments lit : simpl never.

(** ** The statement *)

Section statement.
Context `{UuidText}.

(** The account that an identity resolves to. *)
Definition resolves (a : OAuthArgs) (d : AuthDb) (user : Uuid) (u : UserRow) : Prop :=
  (∃ i, identities d !! oa_key a = Some i ∧ ei_user i = user ∧ users (kernel d) !! user = Some u)
  ∨ (existing_identity a d = None
     ∧ ∃ email, oa_normalized_email a = Some email ∧ u_normalized_email u = email
       ∧ (users (kernel d) !! user = Some u
          ∨ (user = oa_new_user a ∧ users (kernel d) !! user = None ∧ u_status u = UActive))).

Lemma user_by_email_Some email d user u :
  user_by_email email d = Some (user, u) → users d !! user = Some u ∧ u_normalized_email u = email.
Proof.
  unfold user_by_email. intros Hh. apply head_Some_elem_of in Hh. rewrite elem_of_filterb in Hh.
  destruct Hh as [Hin He]. apply elem_of_map_to_list in Hin. cbn in He. by bprop.
Qed.
Lemma selected_user_Some a d user u d' :
  selected_user a d = Some (Some (user, u), d') → resolves a d user u ∧ identities d' = identities d ∧ flows d' = flows d.
Proof.
  unfold selected_user. destruct (existing_identity a d) as [[user0 u0]|] eqn:Ee.
  - intros [= -> -> <-]. split; [|done]. left. unfold existing_identity in Ee.
    apply bind_Some in Ee as (i & Hi & Ee). apply bind_Some in Ee as (u1 & Hu & [= <- <-]). eauto.
  - unfold resolved_user. destruct (oa_normalized_email a) as [email|] eqn:Em; [|done].
    destruct (oa_primary_email a) as [primary|]; [|done].
    destruct (user_by_email email (kernel d)) as [[user0 u0]|] eqn:Eu.
    + intros [= -> -> <-]. split; [|done]. right. split; [done|]. exists email.
      apply user_by_email_Some in Eu as [Hu He]. split_and!; [done..|by left].
    + destruct (bool_decide _) eqn:Eb; [done|]. intros [= <- <- <-]. split; [|done]. right. split; [done|].
      exists email. split_and!; [done..|right]. split_and!; [done| |done].
      apply bool_decide_eq_false in Eb. by apply eq_None_not_Some.
Qed.
Lemma linked_identity_Some a user d d' :
  linked_identity a user d = Some d' →
  (∀ i, identities d !! oa_key a = Some i → ei_user i = user)
  ∧ d' = set_identities <[oa_key a := mk_identity user (oa_primary_email a) (oa_profile a)]> d.
Proof.
  unfold linked_identity. destruct (identities d !! oa_key a) as [i|] eqn:Ei.
  - destruct (bool_decide _) eqn:Eb; [|done]. intros [= <-]. split; [|done]. intros ? [= <-]. by bprop.
  - intros [= <-]. done.
Qed.
(** Any row of the statement means that the flow was consumed. *)
Lemma complete_oauth_consumes a d o d' :
  complete_oauth_identity a d = Some (Some o, d') →
  ∃ d1, consume_flow (oa_flow a) (oa_verifier_hash a) OAuthFlow (λ _, true) (oa_now a) d = Some d1
    ∧ rtc astep d d' ∧ flows d' = flows d1.
Proof.
  intros E. assert (rtc astep d d') as Hr by (apply rtc_once, (a_run (CompleteOAuth a)); cbn; by rewrite E).
  unfold complete_oauth_identity in E. destruct (consume_flow _ _ _ _ _ _) as [d1|] eqn:Hc; [|done].
  exists d1. split_and!; [done..|]. apply bind_Some in E as ([sel d2] & Hs & E).
  assert (flows d2 = flows d1) as Hf2.
  { unfold selected_user, resolved_user in Hs. open_stmt Hs; done. }
  destruct sel as [[user u]|]; [|by injection E as <- <-].
  destruct (linked_identity a user d2) as [d3|] eqn:Hl; [|by injection E as <- <-].
  apply linked_identity_Some in Hl as [_ ->].
  destruct (bool_decide _); [|by injection E as <- <-]. unfold oauth_session in E. open_stmt E. done.
Qed.
Lemma complete_oauth_completed a d c d' :
  complete_oauth_identity a d = Some (Some (OAuthCompleted c), d') →
  ∃ user u, resolves a d user u ∧ u_status u = UActive
    ∧ (∀ i, identities d !! oa_key a = Some i → ei_user i = user)
    ∧ (ei_user <$> identities d' !! oa_key a) = Some user
    ∧ c = mk_completion_out (oa_session a) user (u_primary_email u) (oa_expires_at_ms a)
    ∧ sessions (kernel d') !! oa_session a
      = Some (mk_session user None DbAal1 1 (u_security_revision u) (oa_expires_at_ms a) None (oa_now a)).
Proof.
  unfold complete_oauth_identity. destruct (consume_flow _ _ _ _ _ _) as [d1|] eqn:Hc; [|done]. intros E.
  apply consume_flow_Some in Hc as (f & _ & _ & _ & ->).
  apply bind_Some in E as ([sel d2] & Hs & E). destruct sel as [[user u]|]; [|done].
  apply selected_user_Some in Hs as (Hr & Hi & _).
  destruct (linked_identity a user d2) as [d3|] eqn:Hl; [|done].
  apply linked_identity_Some in Hl as [Hown ->]. rewrite Hi in Hown.
  destruct (bool_decide (u_status u = UActive)) eqn:Ha; [|done]. apply bool_decide_eq_true in Ha.
  unfold oauth_session in E. open_stmt E. exists user, u. split_and!; try done.
  - cbn. by rewrite lookup_insert_eq.
  - cbn. by rewrite lookup_insert_eq.
Qed.
End statement.

(** ** The service *)

(** Every result of a sequence. *)
Lemma io_bind_inv {W E A B} (m : io W E A) (k : A → io W E B) w r w' :
  io_bind m k w = (r, w') →
  (∃ e, m w = (Err e, w') ∧ r = Err e) ∨ ∃ a w1, m w = (Ok a, w1) ∧ k a w1 = (r, w').
Proof. unfold io_bind. destruct (m w) as [[a|e] w1]; [eauto|]. intros [= <- <-]. eauto. Qed.
Lemma io_call_Err {W E F A} (f : F → E) (m : io W F A) w e w' :
  io_call f m w = (Err e, w') → ∃ x, m w = (Err x, w') ∧ e = f x.
Proof. unfold io_call. destruct (m w) as [[a|x] w1]; cbn; [done|]. intros [= <- <-]. eauto. Qed.

Section proofs.
Context {W TE RE : Type} `{AuthWorldLaws W TE RE} `{TokenCrypto} `{OAuthCodec}.
Context (key : FlowSealingKey) (config : OAuthServiceConfig).
#[local] Set Default Proof Using "Type*".

(** The results that come from a row of the statement. *)
Definition oauth_decided (r : result (OAuthServiceError TE) OAuthCompletion) : bool :=
  match r with Ok _ | Err OsAccountUnavailable => true | _ => false end.
Definition oauth_args (pending : PendingOAuthFlow) (identity : VerifiedOAuthIdentity) (email : option str)
    (new_user session aid : Uuid) (rid : str) (now_ms : Z) : OAuthArgs :=
  mk_oauth_args (pf_verifier_hash (po_flow pending)) (pf_flow_id (po_flow pending)) (vi_provider_id identity)
    (vi_provider_subject identity) email email (vi_profile identity) new_user session
    (u64_to_i64 (u64_saturating_add now_ms (u64_saturating_mul (oc_session_ttl_seconds config) 1000)))
    (u64_to_i64 now_ms) aid rid.
Lemma opt_text_pg v : opt_text (pg_text v) = Some v.
Proof. by destruct v. Qed.
Lemma uuid_v7_not_decided now_ms (w : W) e w' :
  uuid_v7 (E := OAuthServiceError TE) OsRandomnessUnavailable now_ms w = (Err e, w') → e = OsRandomnessUnavailable.
Proof.
  unfold uuid_v7. intros [(x & Hx & [= <-])|(a & w1 & _ & E)]%io_bind_inv; [|done].
  by apply io_call_Err in Hx as (y & _ & ->).
Qed.
Lemma asafe_oauth_uuid now_ms : asafe (W := W) (uuid_v7 (E := OAuthServiceError TE) OsRandomnessUnavailable now_ms).
Proof. apply asafe_uuid_v7. Qed.
Lemma linking_email_Err identity e : linking_email (TE := TE) identity = Err e → e = OsInvalidIdentity.
Proof.
  unfold linking_email. destruct (vi_email identity); [|done]. destruct (vi_email_verified identity); [|done].
  unfold rmap. destruct (oauth_normalize_email _); cbn; [done|]. by intros [= <-].
Qed.
Lemma linking_email_Some identity email :
  linking_email (TE := TE) identity = Ok (Some email) →
  vi_email_verified identity = true ∧ ∃ raw, vi_email identity = Some raw ∧ oauth_normalize_email raw = Some email.
Proof.
  unfold linking_email. destruct (vi_email identity) as [raw|]; [|done]. destruct (vi_email_verified identity); [|done].
  unfold rmap. destruct (oauth_normalize_email raw) eqn:En; cbn; [|done]. intros [= <-]. eauto.
Qed.
Lemma completion_of_columns out path c :
  completion_of_row (TE := TE) (completion_columns "completed" out) path = Ok c →
  c = mk_oauth_completion (uuid_to_string (cp_session out)) (uuid_to_string (cp_user out)) (cp_primary_email out)
        (cp_expires_at_ms out) path.
Proof.
  unfold completion_of_row, completion_columns. intros E.
  change (required_text _ (lit "session_id")) with (Ok (E := RowDecodeError) (uuid_to_string (cp_session out))) in E.
  change (required_text _ (lit "user_id")) with (Ok (E := RowDecodeError) (uuid_to_string (cp_user out))) in E.
  change (required_text _ (lit "primary_email")) with (Ok (E := RowDecodeError) (cp_primary_email out)) in E.
  change (required_i64 _ (lit "expires_at_ms")) with (Ok (E := RowDecodeError) (cp_expires_at_ms out)) in E.
  cbn [map_err rbind] in E. apply rbind_Ok in E as (sid & Hs%map_err_Ok & E). apply identifier_new_Ok in Hs as [-> _].
  apply rbind_Ok in E as (expires & He%ok_or_Ok & [= <-]). unfold u64_try_from in He.
  destruct (_ <=? _); [|done]. by injection He as ->.
Qed.
Lemma oauth_complete_decided pending identity request_id (w : W) r w' :
  oauth_complete (TE := TE) config pending identity request_id w = (r, w') → oauth_decided r = true →
  ∃ email new_user session aid o d1 d2,
    let a := oauth_args pending identity email new_user session aid request_id (u64_saturating_mul (clock_now w) 1000) in
    linking_email (TE := TE) identity = Ok email ∧ vi_provider_id identity = op_provider_id (po_payload pending)
    ∧ rtc astep (auth_database w) d1 ∧ complete_oauth_identity a d1 = Some (Some o, d2)
    ∧ rtc astep d2 (auth_database w')
    ∧ (∀ c, r = Ok c → ∃ out, o = OAuthCompleted out
         ∧ c = mk_oauth_completion (uuid_to_string (cp_session out)) (uuid_to_string (cp_user out)) (cp_primary_email out)
                 (cp_expires_at_ms out) (op_redirect_path (po_payload pending))).
Proof.
  unfold oauth_complete. intros E Hr.
  destruct (_ || _) eqn:Eg in E; [by injection E as <- <-|]. apply orb_false_iff in Eg as [Hprov%negb_false_iff _].
  apply bool_decide_eq_true in Hprov.
  apply io_bind_inv in E as [(e & [= He <-] & ->)|(email & w0 & [= He <-] & E)].
  { apply linking_email_Err in He as ->. done. }
  apply io_bind_inv in E as [(e & [= Hp <-] & ->)|(profile & w0 & [= _ <-] & E)].
  { destruct (profile_to_vec _); cbn in Hp; [done|]. by injection Hp as <-. }
  destruct (_ <? _) in E; [by injection E as <- <-|].
  apply io_bind_inv in E as [(e & [=] & _)|(now & w0 & [= <- <-] & E)]. cbv zeta in E.
  apply io_bind_inv in E as [(e & Hu%uuid_v7_not_decided & ->)|(new_user & w1 & Hu1 & E)]; [by subst|].
  apply io_bind_inv in E as [(e & Hu%uuid_v7_not_decided & ->)|(session & w2 & Hu2 & E)]; [by subst|].
  apply io_bind_inv in E as [(e & Hu%uuid_v7_not_decided & ->)|(aid & w3 & Hu3 & E)]; [by subst|].
  apply io_bind_inv in E as [(e & (x & _ & ->)%io_call_Err & ->)|(rows & w4 & Q%io_call_Ok & E)]; [done|].
  apply au_query_Ok in Q as (d1 & d2 & Hd1 & Hex & Hd2). cbn [auth_exec] in Hex.
  rewrite !uuid_parse_to_string, opt_text_pg in Hex. cbn [mbind option_bind] in Hex.
  apply bind_Some in Hex as ([o d2'] & Hc & [= <- <-]).
  exists email, new_user, session, aid. destruct o as [o|].
  2:{ apply io_bind_inv in E as [(e & [= <- <-] & ->)|(row & w5 & [=] & E)]. done. }
  cbn [opt_rows head ok_or] in E. apply io_bind_inv in E as [(e & [=] & _)|(row & w5 & [= <- <-] & E)].
  apply io_bind_inv in E as [(e & E & ->)|(outcome & w5 & [= Ho <-] & E)]; [by destruct o|].
  injection E as E <-. exists o, d1, d2'. cbv zeta. split_and!; try done.
  - do 3 (etrans; [by eapply asafe_oauth_uuid|]). done.
  - intros c ->. destruct o as [out|]; cbn [oauth_columns] in Ho.
    + change (map_err _ (required_text _ (lit "outcome"))) with (Ok (E := OAuthServiceError TE) (lit "completed")) in Ho.
      injection Ho as <-. rewrite bool_decide_true in E by done. apply completion_of_columns in E as ->. eauto.
    + change (map_err _ (required_text _ (lit "outcome"))) with (Ok (E := OAuthServiceError TE) (lit "account_unavailable")) in Ho.
      injection Ho as <-. lit_decide E. done.
Qed.


(** An external identity stays with its user.  Whatever statements run in
    between, two completed logins with the same provider and subject are
    logins of the same user, also when the provider reports another email. *)
Theorem oauth_identity_stable (pending1 pending2 : PendingOAuthFlow) (identity1 identity2 : VerifiedOAuthIdentity)
    (rid1 rid2 : str) (w w1 w2 w3 : W) (c1 c2 : OAuthCompletion)
    (Hwf : credentials_wf (auth_database w))
    (Hfirst : oauth_complete (TE := TE) config pending1 identity1 rid1 w = (Ok c1, w1))
    (Hbetween : rtc astep (auth_database w1) (auth_database w2))
    (Hsecond : oauth_complete (TE := TE) config pending2 identity2 rid2 w2 = (Ok c2, w3))
    (Hprovider : vi_provider_id identity1 = vi_provider_id identity2)
    (Hsubject : vi_provider_subject identity1 = vi_provider_subject identity2) :
  oc_user_id c1 = oc_user_id c2.
Proof.
  destruct (oauth_complete_decided _ _ _ _ _ _ Hfirst eq_refl) as
    (email1 & nu1 & session1 & aid1 & o1 & d1 & e1 & _ & _ & Hd1 & Hc1 & He1 & Hok1).
  destruct (oauth_complete_decided _ _ _ _ _ _ Hsecond eq_refl) as
    (email2 & nu2 & session2 & aid2 & o2 & d2 & e2 & _ & _ & Hd2 & Hc2 & He2 & Hok2).
  destruct (Hok1 c1 eq_refl) as (out1 & -> & ->). destruct (Hok2 c2 eq_refl) as (out2 & -> & ->).
  destruct (complete_oauth_consumes _ _ _ _ Hc1) as (_ & _ & Hde1 & _).
  destruct (complete_oauth_completed _ _ _ _ Hc1) as (user1 & u1 & _ & _ & _ & Hid & -> & _).
  destruct (complete_oauth_completed _ _ _ _ Hc2) as (user2 & u2 & _ & _ & Hown & _ & -> & _).
  assert (credentials_wf e1) as Hwf1 by (eapply (asteps_keep (auth_database w)); [by etrans|done]).
  destruct (asteps_keep e1 d2) as [_ Hk]; [|done|]. { etrans; [exact He1|]. by etrans. }
  apply fmap_Some in Hid as (i & Hi & ->). destruct (kp_identities _ _ Hk _ _ Hi) as (i2 & Hi2 & Hsame).
  cbn. f_equal. rewrite <- Hsame. apply Hown. unfold oa_key in *. cbn in *. by rewrite <- Hprovider, <- Hsubject.
Qed.

(** A callback state is used once.  After one completion of a callback
    reached the statement, whether it logged in or was refused because of the
    account, no later completion of the same flow logs in or learns about the
    account, whatever statements run in between. *)
Theorem oauth_callback_single_use (pending1 pending2 : PendingOAuthFlow) (identity1 identity2 : VerifiedOAuthIdentity)
    (rid1 rid2 : str) (w w1 w2 w3 : W) (r1 r2 : result (OAuthServiceError TE) OAuthCompletion)
    (Hwf : credentials_wf (auth_database w))
    (Hfirst : oauth_complete (TE := TE) config pending1 identity1 rid1 w = (r1, w1))
    (Hdecided : oauth_decided r1 = true)
    (Hbetween : rtc astep (auth_database w1) (auth_database w2))
    (Hsecond : oauth_complete (TE := TE) config pending2 identity2 rid2 w2 = (r2, w3))
    (Hflow : pf_flow_id (po_flow pending2) = pf_flow_id (po_flow pending1)) :
  oauth_decided r2 = false.
Proof.
  destruct (oauth_decided r2) eqn:Hr2; [exfalso|done].
  destruct (oauth_complete_decided _ _ _ _ _ _ Hfirst Hdecided) as
    (email1 & nu1 & session1 & aid1 & o1 & d1 & e1 & _ & _ & Hd1 & Hc1 & He1 & _).
  destruct (oauth_complete_decided _ _ _ _ _ _ Hsecond Hr2) as
    (email2 & nu2 & session2 & aid2 & o2 & d2 & e2 & _ & _ & Hd2 & Hc2 & He2 & _).
  destruct (complete_oauth_consumes _ _ _ _ Hc1) as (k1 & Hk1 & Hde1 & Hfl).
  destruct (complete_oauth_consumes _ _ _ _ Hc2) as (k2 & Hk2 & _ & _). cbn in Hk1, Hk2. rewrite Hflow in Hk2.
  assert (credentials_wf d1) as Hwf1 by (by eapply (asteps_keep (auth_database w))).
  assert (rtc astep e1 d2) as H12 by (etrans; [exact He1|]; by etrans).
  apply consume_flow_Some in Hk1 as (f & Hf & Ho & _ & ->). cbn in Hfl.
  assert (credentials_wf e1) as Hwfe by (by eapply (asteps_keep d1)).
  destruct (asteps_keep _ _ H12 Hwfe) as [_ Hk].
  eapply consumed_row_dead in Hk2; [done| |exact Hk]. rewrite Hfl. by rewrite lookup_insert_eq.
Qed.
End proofs.
