(* ===== verification/Passkeys.v ===== *)
(** * Passkeys: WebAuthn registration and authentication

    Models src/crates/wasi-auth/src/postgres/passkeys.rs: the relying-party
    policy, the decoding of stored credentials, and every method of
    PasskeyService over the encrypted flows and the statements of
    [Credentials].  The WebAuthn library, the challenges it draws and the JSON
    texts are parameters. *)

From S2P Require Export OAuth.
Open Scope Z_scope.

#[local] Arguments lit : simpl never.

Definition MAX_CREDENTIAL_RESPONSE_BYTES : Z := 64 * 1024.
Definition MAX_CREDENTIAL_BYTES : Z := 128 * 1024.

(** ** The WebAuthn library *)

Class WebauthnLibrary := {
  Webauthn : Type;
  Attachment : Type;
  RegistrationState : Type;
  AuthenticationState : Type;
  RegistrationResponse : Type;
  AuthenticationResponse : Type;
  PasskeyCredential : Type;
  (** [Webauthn::new(rp_id, rp_name, origin)] with its builder methods *)
  webauthn_new : str → str → str → Attachment → bool → bool → Webauthn;
  passkey_id : PasskeyCredential → list Z;
  passkey_counter : PasskeyCredential → Z;
  passkey_transports : PasskeyCredential → list str;
  (** [credential.counter = n] *)
  with_counter : PasskeyCredential → Z → PasskeyCredential;
  response_id : AuthenticationResponse → str;
  credential_id_from_b64url : str → option (list Z);
  registration_response_from_str : str → option RegistrationResponse;
  authentication_response_from_str : str → option AuthenticationResponse;
  verify_registration : Webauthn → RegistrationState → RegistrationResponse → option PasskeyCredential;
  (** The new counter of a verified assertion. *)
  verify_authentication : Webauthn → AuthenticationState → AuthenticationResponse → PasskeyCredential → option Z;
  credential_to_vec : PasskeyCredential → option (list Z);
  credential_from_slice : list Z → option PasskeyCredential;
}.

(** ** Policy *)

Inductive PasskeyConfigurationError := InvalidPasskeyConfiguration.

Definition valid_label (label : str) : bool :=
  negb (is_empty label) && (str_len label <=? 63) && negb (starts_with (lit "-") label) && negb (ends_with (lit "-") label)
  && forallb (λ b, is_ascii_alphanumeric b || (b =? 45)) (str_bytes label).
Definition valid_rp_id (value : str) : bool :=
  negb (is_empty value) && (str_len value <=? 253) && negb (contains_str (lit "://") value)
  && negb (existsb (one_of [47; 58; 64]) value) && forallb valid_label (split_char 46 value).
Definition origin_authority (origin : str) (production : bool) : option str :=
  match strip_prefix (lit "https://") origin with
  | Some value => Some value
  | None => if production then None else strip_prefix (lit "http://") origin
  end.
Definition valid_origin_for_rp (origin rp_id : str) (production : bool) : bool :=
  match origin_authority origin production with
  | None => false
  | Some authority =>
      if is_empty authority || existsb (one_of [47; 63; 35; 64]) authority || existsb is_control authority then false
      else
        let host := default [] (head (split_char 58 authority)) in
        (bool_decide (host = rp_id) || ends_with ([46] ++ rp_id) host)
        && (negb production || negb (bool_decide (to_ascii_lowercase host = lit "localhost")))
  end.

Section types.
Context `{WebauthnLibrary}.

Record PasskeyServiceConfig := mk_passkey_config {
  kc_webauthn : Webauthn;
  kc_flow_ttl_seconds : Z;
  kc_session_ttl_seconds : Z;
}.
Definition PasskeyServiceConfig_new (rp_id rp_name origin : str) (production : bool) (attachment : Attachment)
    (user_verification user_handle : bool) (flow_ttl session_ttl : Z) :
    result PasskeyConfigurationError PasskeyServiceConfig :=
  fail? negb (valid_rp_id rp_id) || is_empty (trim rp_name) || (128 <? str_len rp_name) || existsb is_control rp_name
        || negb (valid_origin_for_rp origin rp_id production) || negb (in_range 60 (15 * 60) flow_ttl)
        || negb (in_range (5 * 60) (24 * 60 * 60) session_ttl) with InvalidPasskeyConfiguration ;;
  Ok (mk_passkey_config (webauthn_new rp_id rp_name origin attachment user_verification user_handle) flow_ttl session_ttl).

(** The state of a ceremony, with user, email and redirect path. *)
Inductive StoredPasskeyFlow :=
| StoredRegistration (state : RegistrationState) (user_id primary_email redirect_path : str)
| StoredAuthentication (state : AuthenticationState) (user_id primary_email redirect_path : str).
End types.

(** [serde_json] on the stored flow *)
Class PasskeyCodec `{WebauthnLibrary} := {
  passkey_flow_to_vec : StoredPasskeyFlow → option (list Z);
  passkey_flow_from_slice : list Z → option StoredPasskeyFlow;
}.
(** What the service relies on. *)
Class PasskeyLaws `{PasskeyCodec} : Prop := {
  with_counter_id c n : passkey_id (with_counter c n) = passkey_id c;
  with_counter_counter c n : passkey_counter (with_counter c n) = n;
  passkey_flow_round_trip p bytes : passkey_flow_to_vec p = Some bytes → passkey_flow_from_slice bytes = Some p;
  credential_round_trip c bytes : credential_to_vec c = Some bytes → credential_from_slice bytes = Some c;
}.
(** The ceremonies that the library starts, with a challenge of its own; the
    options are their JSON text, or nothing when that fails. *)
Class PasskeyWorld (W : Type) `{WebauthnLibrary} := {
  start_registration_options :
    Webauthn → list Z → str → str → list (list Z) → W → (option str * RegistrationState) * W;
  start_authentication_options :
    Webauthn → list Z → list PasskeyCredential → W → (option str * AuthenticationState) * W;
}.

Record PasskeyStart := mk_passkey_start { ks_challenge_id : str; ks_options_json : str; ks_redirect_path : str }.
Record PasskeyCompletion := mk_passkey_completion {
  kp_session_id : str;
  kp_user_id : str;
  kp_primary_email : str;
  kp_expires_at_ms : Z;
  kp_redirect_path : str;
}.

Inductive PasskeyServiceError (E : Type) :=
| PkInvalidInput | PkInvalidResponse | PkInvalidFlow | PkInvalidSession | PkInvalidCredentials | PkCredentialConflict
| PkCounterConflict | PkRandomnessUnavailable | PkSerialization | PkFlow (e : FlowStoreError E) | PkTransport (e : E)
| PkRow (e : RowDecodeError) | PkInvalidRow.
Arguments PkInvalidInput {E}.
Arguments PkInvalidResponse {E}.
Arguments PkInvalidFlow {E}.
Arguments PkInvalidSession {E}.
Arguments PkInvalidCredentials {E}.
Arguments PkCredentialConflict {E}.
Arguments PkCounterConflict {E}.
Arguments PkRandomnessUnavailable {E}.
Arguments PkSerialization {E}.
Arguments PkFlow {E} e.
Arguments PkTransport {E} e.
Arguments PkRow {E} e.
Arguments PkInvalidRow {E}.

(** ** The service *)

Section service.
Context {W TE RE : Type} `{UuidText} `{KernelWorld W TE RE} `{!AuthWorld W TE RE} `{TokenCrypto}.
Context `{WebauthnLibrary} `{!PasskeyCodec} `{!PasskeyWorld W}.
Context (key : FlowSealingKey) (config : PasskeyServiceConfig).

Definition validate_response (value : str) : result (PasskeyServiceError TE) unit :=
  fail? is_empty value || (MAX_CREDENTIAL_RESPONSE_BYTES <? str_len value) with PkInvalidResponse ;; Ok tt.
Definition passkey_normalize_email (value : str) : result (PasskeyServiceError TE) str :=
  let normalized := to_ascii_lowercase (trim value) in
  fail? (320 <? str_len normalized) || starts_with (lit "@") normalized || ends_with (lit "@") normalized
        || negb (count_at normalized =? 1) || existsb is_control normalized with PkInvalidInput ;;
  Ok normalized.
Definition passkey_query (sql : AuthSql) (values : list PgValue) : io W (PasskeyServiceError TE) (list PgRow) :=
  io_call PkTransport (au_query sql values).
Definition passkey_uuid (now_ms : Z) : io W (PasskeyServiceError TE) Uuid := uuid_v7 PkRandomnessUnavailable now_ms.
(** The user of a verified session. *)
Definition session_user_id (session : VerifiedSession) : str := p_user_id (principal (rc_auth (vs_context session))).

Definition decode_credential (row : PgRow) : result (PasskeyServiceError TE) PasskeyCredential :=
  let? bytes := map_err PkRow (required_bytes row (lit "public_key_cose")) in
  let? credential := ok_or (credential_from_slice bytes) PkInvalidRow in
  let? id := map_err PkRow (row_bytes row (lit "credential_id")) in
  fail? match id with Some id => negb (bool_decide (id = passkey_id credential)) | None => false end with PkInvalidRow ;;
  Ok credential.
Definition has_public_key (row : PgRow) : bool :=
  match row_bytes row (lit "public_key_cose") with Ok (Some _) => true | _ => false end.
Definition credentials_from_rows (rows : list PgRow) :
    result (PasskeyServiceError TE) (str * str * list PasskeyCredential) :=
  let? first := ok_or (head rows) PkInvalidCredentials in
  let? user := map_err PkRow (required_text first (lit "user_id")) in
  let? email := map_err PkRow (required_text first (lit "primary_email")) in
  let? credentials := collect_map decode_credential (List.filter has_public_key rows) in
  Ok (user, email, credentials).
Definition passkey_completion_of (row : PgRow) (redirect_path : str) : result (PasskeyServiceError TE) PasskeyCompletion :=
  let? session := map_err PkRow (required_text row (lit "session_id")) in
  let? session := map_err (λ _, PkInvalidRow) (identifier_new session) in
  let? user := map_err PkRow (required_text row (lit "user_id")) in
  let? email := map_err PkRow (required_text row (lit "primary_email")) in
  let? expires := map_err PkRow (required_i64 row (lit "expires_at_ms")) in
  let? expires := ok_or (u64_try_from expires) PkInvalidRow in
  Ok (mk_passkey_completion session user email expires redirect_path).
Definition completion_from_rows (rows : list PgRow) (expected : string) (redirect_path : str) :
    result (PasskeyServiceError TE) PasskeyCompletion :=
  let? row := ok_or (head rows) PkInvalidFlow in
  let? outcome := map_err PkRow (required_text row (lit "outcome")) in
  if bool_decide (outcome = lit expected) then passkey_completion_of row redirect_path
  else if bool_decide (outcome = lit "credential_conflict") then Err PkCredentialConflict
  else if bool_decide (outcome = lit "counter_conflict") then Err PkCounterConflict
  else Err PkInvalidRow.

Definition load_credentials_for_user (user_id : str) : io W (PasskeyServiceError TE) (list PasskeyCredential) :=
  do! rows := passkey_query LOAD_PASSKEYS_FOR_USER_SQL [PgText user_id] in
  do! loaded := io_lift (credentials_from_rows rows) in
  io_lift (Ok loaded.2).
Definition load_credential (user_id : str) (id : list Z) : io W (PasskeyServiceError TE) (PasskeyCredential * Z) :=
  do! rows := passkey_query LOAD_PASSKEY_CREDENTIAL_SQL [PgText user_id; PgBytes id] in
  do! row := io_lift (ok_or (head rows) PkInvalidCredentials) in
  do! credential := io_lift (decode_credential row) in
  do! count := io_lift (map_err PkRow (required_i64 row (lit "sign_count"))) in
  fail! negb (in_range 0 (2 ^ 32 - 1) count) with PkInvalidRow ;;
  fail! negb (passkey_counter credential =? count) with PkInvalidRow ;;
  io_lift (Ok (credential, count)).
Definition passkey_load_flow (kind : FlowKind) (challenge_id : str) :
    io W (PasskeyServiceError TE) (PendingFlow * StoredPasskeyFlow) :=
  do! flow := io_call PkFlow (flow_load key kind challenge_id) in
  do! payload := io_lift (ok_or (passkey_flow_from_slice (pf_payload flow)) PkSerialization) in
  io_lift (Ok (flow, payload)).
Definition passkey_session (session_id request_id : str) : io W (PasskeyServiceError TE) VerifiedSession :=
  do! now := io_now in
  io_call (λ _, PkInvalidSession) (load_verified_session session_id request_id now).

Definition start_registration (session_id request_id redirect_path : str) : io W (PasskeyServiceError TE) PasskeyStart :=
  fail! negb (safe_redirect_path redirect_path) with PkInvalidInput ;;
  do! session := passkey_session session_id request_id in
  let user_id := session_user_id session in
  do! credentials := load_credentials_for_user user_id in
  do! loaded := (λ w, let (r, w) := start_registration_options (kc_webauthn config) (str_bytes user_id)
    (vs_primary_email session) (vs_primary_email session) (map passkey_id credentials) w in (Ok r, w)) in
  let '(options, state) := loaded in
  do! options := io_lift (ok_or options PkSerialization) in
  do! payload := io_lift (ok_or (passkey_flow_to_vec
    (StoredRegistration state user_id (vs_primary_email session) redirect_path)) PkSerialization) in
  do! challenge_id := io_call PkFlow
    (flow_create key WebauthnRegistration (Some user_id) payload (kc_flow_ttl_seconds config)) in
  io_lift (Ok (mk_passkey_start challenge_id options redirect_path)).

Definition start_authentication (email redirect_path : str) : io W (PasskeyServiceError TE) PasskeyStart :=
  fail! negb (safe_redirect_path redirect_path) with PkInvalidInput ;;
  do! normalized := io_lift (passkey_normalize_email email) in
  do! rows := passkey_query LOAD_PASSKEYS_FOR_EMAIL_SQL [PgText normalized] in
  do! loaded := io_lift (credentials_from_rows rows) in
  let '(user_id, primary_email, credentials) := loaded in
  fail! match credentials with [] => true | _ => false end with PkInvalidCredentials ;;
  do! loaded := (λ w, let (r, w) := start_authentication_options (kc_webauthn config) (str_bytes user_id)
    credentials w in (Ok r, w)) in
  let '(options, state) := loaded in
  do! options := io_lift (ok_or options PkSerialization) in
  do! payload := io_lift (ok_or (passkey_flow_to_vec
    (StoredAuthentication state user_id primary_email redirect_path)) PkSerialization) in
  do! challenge_id := io_call PkFlow
    (flow_create key WebauthnAuthentication (Some user_id) payload (kc_flow_ttl_seconds config)) in
  io_lift (Ok (mk_passkey_start challenge_id options redirect_path)).

(** A credential as the table keeps it. *)
Definition encoded_credential (credential : PasskeyCredential) : result (PasskeyServiceError TE) (list Z) :=
  let? encoded := ok_or (credential_to_vec credential) PkSerialization in
  fail? MAX_CREDENTIAL_BYTES <? Z.of_nat (length encoded) with PkInvalidResponse ;;
  Ok encoded.
Definition transports_json (credential : PasskeyCredential) : PgValue :=
  PgJson (VArray (map VString (passkey_transports credential))).

Definition finish_registration (session_id challenge_id credential_json request_id display_name : str) :
    io W (PasskeyServiceError TE) PasskeyCompletion :=
  do! _ := io_lift (validate_response credential_json) in
  fail! is_empty (trim display_name) || (128 <? str_len display_name) || existsb is_control display_name
    with PkInvalidInput ;;
  do! session := passkey_session session_id request_id in
  do! loaded := passkey_load_flow WebauthnRegistration challenge_id in
  let '(flow, payload) := loaded in
  match payload with
  | StoredAuthentication _ _ _ _ => io_lift (Err PkInvalidFlow)
  | StoredRegistration state user_id primary_email redirect_path =>
      fail! negb (bool_decide (pf_user_id flow = Some user_id)) || negb (bool_decide (session_user_id session = user_id))
            || negb (bool_decide (vs_primary_email session = primary_email)) with PkInvalidSession ;;
      do! response := io_lift (ok_or (registration_response_from_str credential_json) PkInvalidResponse) in
      do! credential := io_lift (ok_or (verify_registration (kc_webauthn config) state response) PkInvalidResponse) in
      do! encoded := io_lift (encoded_credential credential) in
      do! now := io_now in
      let now_ms := u64_saturating_mul now 1000 in
      do! audit_id := passkey_uuid now_ms in
      do! rows := passkey_query COMPLETE_PASSKEY_REGISTRATION_SQL
        [PgBytes (pf_verifier_hash flow); PgText (uuid_to_string (pf_flow_id flow)); PgText session_id;
         PgBytes (passkey_id credential); PgBytes encoded; PgI64 (passkey_counter credential);
         transports_json credential; PgI64 (u64_to_i64 now_ms); PgText (trim display_name);
         PgText (uuid_to_string audit_id); PgText request_id] in
      io_lift (completion_from_rows rows "registered" redirect_path)
  end.

Definition finish_authentication (challenge_id credential_json request_id : str) :
    io W (PasskeyServiceError TE) PasskeyCompletion :=
  do! _ := io_lift (validate_response credential_json) in
  do! loaded := passkey_load_flow WebauthnAuthentication challenge_id in
  let '(flow, payload) := loaded in
  match payload with
  | StoredRegistration _ _ _ _ => io_lift (Err PkInvalidFlow)
  | StoredAuthentication state user_id primary_email redirect_path =>
      fail! negb (bool_decide (pf_user_id flow = Some user_id)) with PkInvalidFlow ;;
      do! response := io_lift (ok_or (authentication_response_from_str credential_json) PkInvalidResponse) in
      do! id := io_lift (ok_or (credential_id_from_b64url (response_id response)) PkInvalidResponse) in
      do! loaded := load_credential user_id id in
      let '(credential, stored_counter) := loaded in
      do! new_counter := io_lift (ok_or (verify_authentication (kc_webauthn config) state response credential)
        PkInvalidResponse) in
      let credential := with_counter credential new_counter in
      do! encoded := io_lift (encoded_credential credential) in
      do! now := io_now in
      let now_ms := u64_saturating_mul now 1000 in
      do! session := passkey_uuid now_ms in
      do! audit_id := passkey_uuid now_ms in
      do! rows := passkey_query COMPLETE_PASSKEY_AUTHENTICATION_SQL
        [PgBytes (pf_verifier_hash flow); PgText (uuid_to_string (pf_flow_id flow)); PgText user_id;
         PgBytes (passkey_id credential); PgBytes encoded; PgI64 stored_counter; PgI64 (passkey_counter credential);
         transports_json credential; PgText (uuid_to_string session);
         PgI64 (u64_to_i64 (u64_saturating_add now_ms (u64_saturating_mul (kc_session_ttl_seconds config) 1000)));
         PgText (uuid_to_string audit_id); PgI64 (u64_to_i64 now_ms); PgText request_id] in
      do! completion := io_lift (completion_from_rows rows "authenticated" redirect_path) in
      fail! negb (bool_decide (kp_primary_email completion = primary_email)) with PkInvalidCredentials ;;
      io_lift (Ok completion)
  end.
End service.
