(* ===== verification/PasskeyProofs.v ===== *)
(** * PasskeyProofs: what a passkey ceremony guarantees

    A passkey login verified the assertion against a stored credential of the
    user the challenge was issued for, whose counter had not moved, and used
    the challenge up; a registration adds a new credential of the session's
    user and never touches an existing one. *)

From S2P Require Export Passkeys OAuthProofs.
Open Scope Z_scope.

#[local] Arguments lit : simpl never.

(** ** The statements *)

Section statements.
Context `{UuidText}.

Lemma assert_passkey_consumes a d o d' :
  complete_passkey_authentication a d = Some (Some o, d') →
  ∃ f, flows d !! pa_flow a = Some f ∧ open_flow WebauthnAuthentication (pa_verifier_hash a) (pa_now a) f = true
    ∧ fl_user f = Some (pa_user a) ∧ flows d' = <[pa_flow a := consume_flow_row (pa_now a) f]> (flows d).
Proof.
  unfold complete_passkey_authentication. destruct (consume_flow _ _ _ _ _ _) as [d1|] eqn:Hc; [|done]. intros E.
  apply consume_flow_Some in Hc as (f & Hf & Ho & Hown & ->). exists f.
  apply bool_decide_eq_true in Hown. split_and!; [done..|].
  destruct (current_credential _ _); [|by injection E as <- <-]. destruct (pa_sign_count a <? 0); [done|].
  cbv zeta in E. open_stmt E; done.
Qed.
Lemma assert_passkey_authenticated a d c d' :
  complete_passkey_authentication a d = Some (Some (PasskeyAuthenticated c), d') →
  ∃ p u, passkeys d !! pa_credential a = Some p ∧ pk_user p = pa_user a ∧ pk_sign_count p = pa_stored_count a
    ∧ users (kernel d) !! pa_user a = Some u ∧ u_status u = UActive
    ∧ c = mk_completion_out (pa_session a) (pa_user a) (u_primary_email u) (pa_expires_at_ms a)
    ∧ (pk_sign_count <$> passkeys d' !! pa_credential a) = Some (pa_sign_count a)
    ∧ sessions (kernel d') !! pa_session a
      = Some (mk_session (pa_user a) None DbAal2 1 (u_security_revision u) (pa_expires_at_ms a) None (pa_now a)).
Proof.
  unfold complete_passkey_authentication. destruct (consume_flow _ _ _ _ _ _) as [d1|] eqn:Hc; [|done]. intros E.
  apply consume_flow_Some in Hc as (f & _ & _ & _ & ->).
  destruct (current_credential _ _) as [p|] eqn:Hp; [|done]. unfold current_credential in Hp.
  apply bind_Some in Hp as (p0 & Hp0 & Hp). destruct (_ && _) eqn:Eb; [|done]. injection Hp as ->.
  apply andb_true_iff in Eb as [Hu%bool_decide_eq_true Hn%Z.eqb_eq]. destruct (pa_sign_count a <? 0); [done|].
  cbv zeta in E. cbn [kernel set_passkeys set_flows] in E. destruct (users (kernel d) !! pa_user a) as [u|] eqn:Huser; [|done].
  destruct (bool_decide (u_status u = UActive)) eqn:Ha; [|done]. apply bool_decide_eq_true in Ha.
  open_stmt E. exists p, u. split_and!; try done; cbn; by rewrite lookup_insert_eq.
Qed.
Lemma register_passkey_registered a d c d' :
  complete_passkey_registration a d = Some (Some (PasskeyRegistered c), d') →
  ∃ s u f, account_actor (pr_session a) (pr_now a) (kernel d) = Some s ∧ users (kernel d) !! s_user s = Some u
    ∧ flows d !! pr_flow a = Some f ∧ open_flow WebauthnRegistration (pr_verifier_hash a) (pr_now a) f = true
    ∧ fl_user f = Some (s_user s) ∧ passkeys d !! pr_credential a = None
    ∧ flows d' = <[pr_flow a := consume_flow_row (pr_now a) f]> (flows d)
    ∧ passkeys d' = <[pr_credential a := mk_passkey (s_user s) (pr_public_key_cose a) (pr_sign_count a)
                       (pr_transports a) (pr_display_name a) (pr_now a) None]> (passkeys d)
    ∧ sessions (kernel d') !! pr_session a = Some (elevate_row s)
    ∧ c = mk_completion_out (pr_session a) (s_user s) (u_primary_email u) (s_expires_at_ms s).
Proof.
  unfold complete_passkey_registration. destruct (account_actor _ _ _) as [s|] eqn:Ha; [|done].
  destruct (consume_flow _ _ _ _ _ _) as [d1|] eqn:Hc; [|done]. intros E.
  apply consume_flow_Some in Hc as (f & Hf & Ho & Hown & ->). apply bool_decide_eq_true in Hown.
  destruct (pr_sign_count a <? 0); [done|]. cbn [passkeys set_flows kernel] in E.
  destruct (bool_decide _) eqn:Eb; [done|]. apply bool_decide_eq_false in Eb.
  apply bind_Some in E as (u & Hu & E). apply bind_Some in E as (d2 & (r & -> & _)%elevate_Some & [= <- <-]).
  exists s, u, f. split_and!; try done.
  - by apply eq_None_not_Some.
  - cbn. by rewrite lookup_insert_eq.
Qed.
End statements.

(** ** The service *)

Section proofs.
Context {W TE RE : Type} `{AuthWorldLaws W TE RE} `{TokenCrypto}.
Context `{WebauthnLibrary} `{!PasskeyCodec} `{!PasskeyWorld W}.
Context (key : FlowSealingKey) (config : PasskeyServiceConfig).
#[local] Set Default Proof Using "Type*".

Lemma passkey_completion_columns outcome out path c :
  passkey_completion_of (TE := TE) (completion_columns outcome out) path = Ok c →
  c = mk_passkey_completion (uuid_to_string (cp_session out)) (uuid_to_string (cp_user out)) (cp_primary_email out)
        (cp_expires_at_ms out) path.
Proof.
  unfold passkey_completion_of, completion_columns. intros E.
  change (required_text _ (lit "session_id")) with (Ok (E := RowDecodeError) (uuid_to_string (cp_session out))) in E.
  change (required_text _ (lit "user_id")) with (Ok (E := RowDecodeError) (uuid_to_string (cp_user out))) in E.
  change (required_text _ (lit "primary_email")) with (Ok (E := RowDecodeError) (cp_primary_email out)) in E.
  change (required_i64 _ (lit "expires_at_ms")) with (Ok (E := RowDecodeError) (cp_expires_at_ms out)) in E.
  cbn [map_err rbind] in E. apply rbind_Ok in E as (sid & Hs%map_err_Ok & E). apply identifier_new_Ok in Hs as [-> _].
  by apply rbind_Ok in E as (expires & [-> _]%ok_or_Ok%u64_try_from_Some & [= <-]).
Qed.
Lemma outcome_of_completion outcome out :
  required_text (completion_columns outcome out) (lit "outcome") = Ok (lit outcome).
Proof. reflexivity. Qed.
Lemma outcome_of_refusal outcome : required_text (refusal_columns outcome) (lit "outcome") = Ok (lit outcome).
Proof. reflexivity. Qed.
Lemma authentication_of_rows o path c :
  completion_from_rows (TE := TE) (opt_rows assertion_columns o) "authenticated" path = Ok c →
  ∃ out, o = Some (PasskeyAuthenticated out)
    ∧ c = mk_passkey_completion (uuid_to_string (cp_session out)) (uuid_to_string (cp_user out)) (cp_primary_email out)
            (cp_expires_at_ms out) path.
Proof.
  unfold completion_from_rows. destruct o as [[out|]|]; cbn [opt_rows head assertion_columns ok_or rbind]; [| |done].
  - rewrite outcome_of_completion. cbn [map_err rbind]. rewrite bool_decide_true by done.
    intros ->%passkey_completion_columns. eauto.
  - rewrite outcome_of_refusal. cbn [map_err rbind]. intros E. lit_decide E. done.
Qed.
Lemma registration_of_rows o path c :
  completion_from_rows (TE := TE) (opt_rows registration_columns o) "registered" path = Ok c →
  ∃ out, o = Some (PasskeyRegistered out)
    ∧ c = mk_passkey_completion (uuid_to_string (cp_session out)) (uuid_to_string (cp_user out)) (cp_primary_email out)
            (cp_expires_at_ms out) path.
Proof.
  unfold completion_from_rows. destruct o as [[out|]|]; cbn [opt_rows head registration_columns ok_or rbind]; [| |done].
  - rewrite outcome_of_completion. cbn [map_err rbind]. rewrite bool_decide_true by done.
    intros ->%passkey_completion_columns. eauto.
  - rewrite outcome_of_refusal. cbn [map_err rbind]. intros E. lit_decide E. done.
Qed.
Lemma load_credential_Ok user_id id (w : W) credential count w' :
  load_credential (TE := TE) user_id id w = (Ok (credential, count), w') →
  ∃ d user p, rtc astep (auth_database w) d ∧ rtc astep d (auth_database w')
    ∧ uuid_parse_str user_id = Some user ∧ passkeys d !! id = Some p ∧ pk_user p = user
    ∧ credential_from_slice (pk_public_key_cose p) = Some credential
    ∧ passkey_counter credential = count ∧ pk_sign_count p = count.
Proof.
  unfold load_credential. intros E. run_inv E.
  match goal with Q : passkey_query _ _ _ = _ |- _ => apply io_call_Ok, au_query_Ok in Q as (d1 & d2 & Hd1 & Hex & Hd2) end.
  cbn [auth_exec] in Hex. apply bind_Some in Hex as (user & Hu & [= <- <-]).
  match goal with Hh : head _ = Some _ |- _ => apply opt_rows_head in Hh as ([u p] & Hl & ->) end.
  unfold load_passkey_credential in Hl. apply bind_Some in Hl as (p0 & Hp & Hl). apply bind_Some in Hl as (u0 & _ & Hl).
  destruct (_ && _) eqn:Eb in Hl; [|done]. injection Hl as -> ->. apply andb_true_iff in Eb as [Hpu%bool_decide_eq_true _].
  match goal with Hd : decode_credential _ = Ok _ |- _ =>
    unfold decode_credential in Hd; apply rbind_Ok in Hd as (bytes & Hb%map_err_Ok & Hd);
    change (required_bytes _ (lit "public_key_cose")) with (Ok (E := RowDecodeError) (pk_public_key_cose p)) in Hb;
    injection Hb as <-; apply rbind_Ok in Hd as (c & Hc%ok_or_Ok & Hd); apply rbind_Ok in Hd as (? & _ & Hd);
    apply fail_Ok in Hd as [_ [= <-]] end.
  match goal with Hi : required_i64 _ _ = Ok _ |- _ =>
    change (required_i64 _ (lit "sign_count")) with (Ok (E := RowDecodeError) (pk_sign_count p)) in Hi; injection Hi as <- end.
  injection E as <- <-. match goal with Hn : negb (_ =? _) = false |- _ => apply negb_false_iff, Z.eqb_eq in Hn end.
  exists d1, user, p. split_and!; done.
Qed.

Lemma passkey_load_flow_Ok kind challenge (w : W) flow payload w' :
  passkey_load_flow (TE := TE) key kind challenge w = (Ok (flow, payload), w') →
  flow_load (TE := TE) key kind challenge w = (Ok flow, w') ∧ passkey_flow_from_slice (pf_payload flow) = Some payload.
Proof. unfold passkey_load_flow. intros E. run_inv E. by simplify_eq. Qed.
Lemma asafe_passkey_uuid now_ms : asafe (W := W) (passkey_uuid (TE := TE) now_ms).
Proof. apply asafe_uuid_v7. Qed.

(** A login that succeeds: what was loaded, verified and executed. *)
Lemma finish_authentication_Ok challenge json request_id (w : W) c w' :
  finish_authentication (TE := TE) key config challenge json request_id w = (Ok c, w') →
  ∃ flow state user_id email path response id credential count counter w1 w2 encoded session aid user out d1 d2,
    flow_load (TE := TE) key WebauthnAuthentication challenge w = (Ok flow, w1)
    ∧ passkey_flow_from_slice (pf_payload flow) = Some (StoredAuthentication state user_id email path)
    ∧ pf_user_id flow = Some user_id
    ∧ authentication_response_from_str json = Some response
    ∧ credential_id_from_b64url (response_id response) = Some id
    ∧ load_credential (TE := TE) user_id id w1 = (Ok (credential, count), w2)
    ∧ verify_authentication (kc_webauthn config) state response credential = Some counter
    ∧ credential_to_vec (with_counter credential counter) = Some encoded
    ∧ uuid_parse_str user_id = Some user
    ∧ rtc astep (auth_database w2) d1 ∧ rtc astep d1 d2 ∧ rtc astep d2 (auth_database w')
    ∧ complete_passkey_authentication
        (mk_passkey_assertion (pf_verifier_hash flow) (pf_flow_id flow) user
           (passkey_id (with_counter credential counter)) encoded count
           (passkey_counter (with_counter credential counter))
           (VArray (map VString (passkey_transports (with_counter credential counter)))) session
           (u64_to_i64 (u64_saturating_add (u64_saturating_mul (clock_now w2) 1000)
              (u64_saturating_mul (kc_session_ttl_seconds config) 1000)))
           aid (u64_to_i64 (u64_saturating_mul (clock_now w2) 1000)) request_id) d1
      = Some (Some (PasskeyAuthenticated out), d2)
    ∧ c = mk_passkey_completion (uuid_to_string (cp_session out)) (uuid_to_string (cp_user out)) (cp_primary_email out)
            (cp_expires_at_ms out) path
    ∧ kp_primary_email c = email.
Proof.
  unfold finish_authentication. intros E. apply io_bind_Ok in E as (? & w0 & [_ ->]%io_lift_Ok & E).
  apply io_bind_Ok in E as ([flow payload] & w1 & [Hl Hp]%passkey_load_flow_Ok & E).
  destruct payload as [|state user_id email path]; [done|]. apply io_fail_Ok in E as [Hu%negb_false_iff E].
  apply bool_decide_eq_true in Hu.
  apply io_bind_Ok in E as (response & w0 & [Hr%ok_or_Ok ->]%io_lift_Ok & E).
  apply io_bind_Ok in E as (id & w0 & [Hi%ok_or_Ok ->]%io_lift_Ok & E).
  apply io_bind_Ok in E as ([credential count] & w2 & Hlc & E). cbv zeta in E.
  apply io_bind_Ok in E as (counter & w0 & [Hv%ok_or_Ok ->]%io_lift_Ok & E).
  apply io_bind_Ok in E as (encoded & w0 & [He ->]%io_lift_Ok & E).
  apply rbind_Ok in He as (enc & Henc%ok_or_Ok & [_ [= ->]]%fail_Ok).
  apply io_bind_Ok in E as (now & w0 & [= <- <-] & E).
  apply io_bind_Ok in E as (session & w3 & Hs%asafe_passkey_uuid & E).
  apply io_bind_Ok in E as (aid & w4 & Ha%asafe_passkey_uuid & E).
  apply io_bind_Ok in E as (rows & w5 & Q & E). apply io_call_Ok, au_query_Ok in Q as (d1 & d2 & Hd1 & Hex & Hd2).
  pose proof (auth_exec_steps _ _ _ _ _ Hex) as Hsteps.
  cbn [auth_exec transports_json] in Hex. rewrite !uuid_parse_to_string in Hex. cbn [mbind option_bind] in Hex.
  apply bind_Some in Hex as (user & Huser & Hex). apply bind_Some in Hex as ([o d2'] & Hc & [= <- <-]).
  apply io_bind_Ok in E as (completion & w6 & [Hcomp ->]%io_lift_Ok & E).
  apply authentication_of_rows in Hcomp as (out & -> & ->).
  apply io_fail_Ok in E as [Hem%negb_false_iff [= <- <-]]. apply bool_decide_eq_true in Hem.
  eexists flow, state, user_id, email, path, response, id, credential, count, counter, w1, w2, encoded, session, aid, user,
    out, d1, d2'. split_and!; try eassumption; try done.
  etrans; [exact Hs|]. by etrans.
Qed.

(** C7: A passkey login is earned.  When [finish_authentication] succeeds, the
    challenge was open and issued for this user and is consumed; the WebAuthn
    library verified the response against the state of the challenge and a
    credential that is stored for this user; the counter of that credential was
    still the one it was verified with, and is now the one of the response;
    the user is active, and the new session is theirs, with assurance aal2. *)
Theorem passkey_login_exact `{!PasskeyLaws} (challenge json request_id : str) (w w' : W) (c : PasskeyCompletion)
    (Hrun : finish_authentication (TE := TE) key config challenge json request_id w = (Ok c, w')) :
  ∃ flow f state user email path response credential counter p p1 u session d0 d1 d2 now,
    rtc astep (auth_database w) d0 ∧ rtc astep d0 d1 ∧ rtc astep d1 d2 ∧ rtc astep d2 (auth_database w')
    ∧ pf_verifier_hash flow = sha256 (str_bytes challenge)
    ∧ passkey_flow_from_slice (pf_payload flow) = Some (StoredAuthentication state (uuid_to_string user) email path)
    ∧ flows d1 !! pf_flow_id flow = Some f ∧ fl_user f = Some user
    ∧ open_flow WebauthnAuthentication (sha256 (str_bytes challenge)) now f = true
    ∧ flows d2 !! pf_flow_id flow = Some (consume_flow_row now f)
    ∧ authentication_response_from_str json = Some response
    ∧ (∃ id, credential_id_from_b64url (response_id response) = Some id ∧ passkeys d0 !! id = Some p)
    ∧ pk_user p = user ∧ credential_from_slice (pk_public_key_cose p) = Some credential
    ∧ verify_authentication (kc_webauthn config) state response credential = Some counter
    ∧ passkeys d1 !! passkey_id credential = Some p1 ∧ pk_user p1 = user
    ∧ pk_sign_count p1 = passkey_counter credential
    ∧ (pk_sign_count <$> passkeys d2 !! passkey_id credential) = Some counter
    ∧ users (kernel d1) !! user = Some u ∧ u_status u = UActive
    ∧ kp_user_id c = uuid_to_string user ∧ kp_session_id c = uuid_to_string session ∧ kp_redirect_path c = path
    ∧ sessions (kernel d2) !! session
      = Some (mk_session user None DbAal2 1 (u_security_revision u) (kp_expires_at_ms c) None now).
Proof.
  destruct (finish_authentication_Ok _ _ _ _ _ _ Hrun) as (flow & state & user_id & email & path & response & id & credential
    & count & counter & w1 & w2 & encoded & session & aid & user & out & d1 & d2 & Hload & Hpay & Hpu & Hresp & Hid & Hlc
    & Hver & Henc & Huser & Hw2 & H12 & Hw' & Hc & -> & _).
  destruct (flow_load_Ok _ _ _ _ _ _ Hload) as (dl & fl & Hwl & Hlw & _ & _ & Hhash & Hfu & _).
  destruct (load_credential_Ok _ _ _ _ _ _ Hlc) as (d0 & user0 & p & Hw1 & Hd0 & Hu0 & Hp & Hpuser & Hslice & Hcnt & Hsc).
  assert (user0 = user) as -> by congruence.
  assert (user_id = uuid_to_string user) as ->.
  { rewrite Hpu in Hfu. destruct (fl_user fl) as [u0|]; [|done]. cbn in Hfu. injection Hfu as ->.
    rewrite uuid_parse_to_string in Huser. congruence. }
  destruct (assert_passkey_consumes _ _ _ _ Hc) as (f & Hf & Ho & Hfown & Hfl). cbn in Hf, Ho, Hfown, Hfl.
  destruct (assert_passkey_authenticated _ _ _ _ Hc) as (p1 & u & Hp1 & Hp1u & Hp1c & Hu & Hact & -> & Hp2 & Hses).
  cbn [pa_credential pa_user pa_stored_count pa_session pa_expires_at_ms pa_sign_count pa_now] in *.
  rewrite with_counter_id in *. rewrite with_counter_counter in *.
  eexists flow, f, state, user, email, path, response, credential, counter, p, p1, u, session, d0, d1, d2, _.
  cbn [kp_user_id kp_session_id kp_redirect_path kp_expires_at_ms cp_user cp_session cp_expires_at_ms].
  split_and!; try eassumption; try done.
  - etrans; [exact Hwl|]. by etrans.
  - by etrans.
  - by rewrite <- Hhash.
  - rewrite Hfl. by rewrite lookup_insert_eq.
  - eauto.
  - by rewrite Hcnt.
Qed.

(** A passkey challenge is answered once.  Whatever statements run in
    between, and whatever the second response is, a challenge that one login
    has used cannot be used by another. *)
Theorem passkey_challenge_single_use (challenge json1 json2 rid1 rid2 : str) (w w1 w2 w3 : W)
    (c1 c2 : PasskeyCompletion)
    (Hwf : credentials_wf (auth_database w))
    (Hfirst : finish_authentication (TE := TE) key config challenge json1 rid1 w = (Ok c1, w1))
    (Hbetween : rtc astep (auth_database w1) (auth_database w2)) :
  finish_authentication (TE := TE) key config challenge json2 rid2 w2 ≠ (Ok c2, w3).
Proof.
  intros Hsecond.
  destruct (finish_authentication_Ok _ _ _ _ _ _ Hfirst) as (flow & state & user_id & email & path & response & id & credential
    & count & counter & x1 & x2 & encoded & session & aid & user & out & d1 & d2 & Hload & Hpay & Hpu & Hresp & Hid & Hlc
    & Hver & Henc & Huser & Hx2 & H12 & Hw1 & Hc & _).
  destruct (finish_authentication_Ok _ _ _ _ _ _ Hsecond) as (flow' & state' & user_id' & email' & path' & response' & id'
    & credential' & count' & counter' & y1 & y2 & encoded' & session' & aid' & user' & out' & e1 & e2 & Hload' & _).
  destruct (flow_load_Ok _ _ _ _ _ _ Hload) as (dl & fl & Hwl & Hlw & _).
  destruct (flow_load_Ok _ _ _ _ _ _ Hload') as (el & f2 & Hel & _ & Hf2 & Ho2 & _).
  destruct (load_credential_Ok _ _ _ _ _ _ Hlc) as (d0 & _ & _ & Hx1 & Hd0 & _).
  destruct (assert_passkey_consumes _ _ _ _ Hc) as (f & Hf & Ho & _ & Hfl). cbn in Hf, Ho, Hfl.
  assert (rtc astep (auth_database w) d1) as Hd1.
  { etrans; [exact Hwl|]. etrans; [exact Hlw|]. etrans; [exact Hx1|]. by etrans. }
  assert (credentials_wf d2) as Hwf2 by (eapply (asteps_keep (auth_database w)); [by etrans|done]).
  assert (rtc astep d2 el) as H2l by (etrans; [exact Hw1|]; by etrans).
  destruct (asteps_keep _ _ H2l Hwf2) as [Hwfl Hk].
  edestruct (kp_flows _ _ Hk (pf_flow_id flow)) as (f' & Hf' & Hcons & Hsame);
    [rewrite Hfl; by rewrite lookup_insert_eq|].
  apply open_flow_spec in Ho as (Hh & _). apply open_flow_spec in Ho2 as (Hh2 & _ & Hopen & _).
  assert (pf_flow_id flow' = pf_flow_id flow) as Heq.
  { eapply (cw_hashes _ Hwfl); [exact Hf2|exact Hf'|]. rewrite Hsame. cbn. rewrite Hh, Hh2.
    by destruct (flow_load_Ok _ _ _ _ _ _ Hload) as (? & ? & _ & _ & _ & _ & -> & _). }
  rewrite Heq, Hf' in Hf2. injection Hf2 as <-. cbn in Hcons. destruct Hcons as [Hcons|Hcons]; congruence.
Qed.

(** A registration adds one credential of the session's user.  When
    [finish_registration] succeeds, the session is live and its user is the one
    the challenge was issued for; the credential that the WebAuthn library
    verified is stored for that user under its own identifier, which no
    credential had; every other credential is as before, the challenge is
    consumed and the session is elevated. *)
Theorem passkey_registration_exact (session_id challenge json request_id name : str) (w w' : W) (c : PasskeyCompletion)
    (Hwf : credentials_wf (auth_database w))
    (Hrun : finish_registration (TE := TE) key config session_id challenge json request_id name w = (Ok c, w')) :
  ∃ flow f state user email path response credential encoded s session d1 d2 now row,
    rtc astep (auth_database w) d1 ∧ rtc astep d1 d2 ∧ rtc astep d2 (auth_database w')
    ∧ uuid_parse_str session_id = Some session ∧ account_actor session now (kernel d1) = Some s ∧ s_user s = user
    ∧ pf_verifier_hash flow = sha256 (str_bytes challenge)
    ∧ passkey_flow_from_slice (pf_payload flow) = Some (StoredRegistration state (uuid_to_string user) email path)
    ∧ flows d1 !! pf_flow_id flow = Some f ∧ fl_user f = Some user
    ∧ open_flow WebauthnRegistration (sha256 (str_bytes challenge)) now f = true
    ∧ flows d2 !! pf_flow_id flow = Some (consume_flow_row now f)
    ∧ registration_response_from_str json = Some response
    ∧ verify_registration (kc_webauthn config) state response = Some credential
    ∧ credential_to_vec credential = Some encoded
    ∧ passkeys d1 !! passkey_id credential = None
    ∧ passkeys d2 = <[passkey_id credential := row]> (passkeys d1)
    ∧ pk_user row = user ∧ pk_public_key_cose row = encoded ∧ pk_sign_count row = passkey_counter credential
    ∧ pk_display_name row = trim name
    ∧ sessions (kernel d2) !! session = Some (elevate_row s)
    ∧ kp_user_id c = uuid_to_string user ∧ kp_session_id c = uuid_to_string session ∧ kp_redirect_path c = path.
Proof.
  unfold finish_registration in Hrun. apply io_bind_Ok in Hrun as (? & w0 & [_ ->]%io_lift_Ok & E).
  apply io_fail_Ok in E as [_ E]. apply io_bind_Ok in E as (vs & w1 & Hvs & E).
  apply io_bind_Ok in Hvs as (t & w0 & [= <- <-] & Hvs%io_call_Ok).
  apply io_bind_Ok in E as ([flow payload] & w2 & [Hl Hp]%passkey_load_flow_Ok & E).
  destruct payload as [state user_id email path|]; [|done]. apply io_fail_Ok in E as [Hg E].
  apply orb_false_iff in Hg as [[Hpu%negb_false_iff _]%orb_false_iff _]. apply bool_decide_eq_true in Hpu.
  apply io_bind_Ok in E as (response & w0 & [Hr%ok_or_Ok ->]%io_lift_Ok & E).
  apply io_bind_Ok in E as (credential & w0 & [Hv%ok_or_Ok ->]%io_lift_Ok & E).
  apply io_bind_Ok in E as (encoded & w0 & [He ->]%io_lift_Ok & E).
  apply rbind_Ok in He as (enc & Henc%ok_or_Ok & [_ [= ->]]%fail_Ok).
  apply io_bind_Ok in E as (now & w0 & [= <- <-] & E). cbv zeta in E.
  apply io_bind_Ok in E as (aid & w4 & Ha%asafe_passkey_uuid & E).
  apply io_bind_Ok in E as (rows & w5 & Q & E). apply io_call_Ok, au_query_Ok in Q as (d1 & d2 & Hd1 & Hex & Hd2).
  pose proof (auth_exec_steps _ _ _ _ _ Hex) as Hsteps.
  cbn [auth_exec transports_json] in Hex. rewrite !uuid_parse_to_string in Hex. cbn [mbind option_bind] in Hex.
  apply bind_Some in Hex as (session & Hs & Hex). apply bind_Some in Hex as ([o d2'] & Hc & [= <- <-]).
  apply io_lift_Ok in E as [Hcomp ->]. apply registration_of_rows in Hcomp as (out & -> & ->).
  destruct (flow_load_Ok _ _ _ _ _ _ Hl) as (dl & fl & Hwl & Hlw & Hfl & _ & Hhash & Hfu & _).
  destruct (register_passkey_registered _ _ _ _ Hc)
    as (s & u & f & Hact & Hu & Hf & Ho & Hown & Hnew & Hfl2 & Hpk & Hses & ->).
  cbn [pr_session pr_now pr_flow pr_verifier_hash pr_credential pr_display_name pr_transports pr_sign_count
       pr_public_key_cose cp_user cp_session cp_primary_email cp_expires_at_ms] in *.
  assert (rtc astep (auth_database w2) d1) as Hw2d1 by (by etrans).
  assert (user_id = uuid_to_string (s_user s)) as ->.
  { rewrite Hpu in Hfu. destruct (fl_user fl) as [u0|] eqn:Hfu0; [|done]. cbn in Hfu. injection Hfu as ->. f_equal.
    assert (rtc astep dl d1) as Hld by (by etrans).
    assert (credentials_wf dl) as Hwfl.
    { eapply (asteps_keep (auth_database w)); [|done]. etrans; [by eapply asafe_load|done]. }
    destruct (asteps_keep _ _ Hld Hwfl) as [_ Hk]. destruct (kp_flows _ _ Hk _ _ Hfl) as (f2 & Hf2 & _ & Hsame).
    rewrite Hf in Hf2. injection Hf2 as <-.
    rewrite Hsame in Hown. cbn in Hown. congruence. }
  eexists flow, f, state, (s_user s), email, path, response, credential, encoded, s, session, d1, d2', _, _.
  split_and!; try eassumption; try done.
  - etrans; [by eapply asafe_load|]. etrans; [exact Hwl|]. by etrans.
  - by rewrite <- Hhash.
  - rewrite Hfl2. by rewrite lookup_insert_eq.
Qed.
End proofs.
