(* ===== verification/ManagementWire.v ===== *)
(** * ManagementWire: the management statements on the wire

    [management_exec] executes a statement text that
    src/crates/wasi-auth/src/postgres/management.rs and organizations.rs send,
    on its parameters in the order of the placeholders, and lays out the
    columns of its result.  [ManagementWorld] is the transport of these
    services: it executes the statement at one moment between the call and its
    return, draws the identifiers that triggers insert, and says which errors
    are violations of the constraint that every organization has an owner. *)

From S2P Require Export Workflows OrganizationHistory.
Open Scope Z_scope.

#[local] Arguments lit : simpl never.

Inductive ManagementSql :=
| CREATE_ORGANIZATION_SQL | LIST_ORGANIZATIONS_SQL | SELECT_ORGANIZATION_SQL
| GET_ORGANIZATION_SQL | UPDATE_ORGANIZATION_SQL | ARCHIVE_ORGANIZATION_SQL
| LIST_MEMBERSHIPS_SQL | ASSIGN_MEMBERSHIP_ROLE_SQL | REMOVE_MEMBERSHIP_SQL | LEAVE_ORGANIZATION_SQL
| TRANSFER_OWNERSHIP_SQL
| LIST_ROLES_SQL | UPSERT_ROLE_SQL | DELETE_ROLE_SQL
| LIST_INVITATIONS_SQL | CREATE_INVITATION_SQL | ACCEPT_INVITATION_SQL | REVOKE_INVITATION_SQL
| RESEND_INVITATION_SQL
| LIST_ADMIN_USERS_SQL | SET_USER_DISABLED_SQL | LIST_AUDIT_EVENTS_SQL.

(** What [gen_random_uuid()] returns in the triggers of a statement. *)
Record Draws := mk_draws { draw_first : Uuid; draw_second : Uuid; draw_for : Uuid → Uuid }.

Section wire.
Context `{UuidText}.

(** ** Columns *)

Definition org_status_text (active : bool) : str := if active then lit "active" else lit "archived".
Definition org_columns (o : OrgOut) : list (str * PgValue) :=
  [(lit "organization_id", PgText (uuid_to_string (oo_organization o)));
   (lit "name", PgText (o_name (oo_row o)));
   (lit "slug", pg_text (o_slug (oo_row o)));
   (lit "status", PgText (org_status_text (o_active (oo_row o))));
   (lit "created_at_ms", PgI64 (o_created_at_ms (oo_row o)));
   (lit "role_id", PgText (oo_role o));
   (lit "permissions", PgJson (VArray (map VString (oo_permissions o))))].
Definition creation_columns (o : CreateOrgOutcome) : PgRow :=
  match o with
  | OrgCreated out => PgRow_new ((lit "outcome", PgText (lit "created")) :: org_columns out)
  | OrgReplayed out => PgRow_new ((lit "outcome", PgText (lit "replayed")) :: org_columns out)
  | OrgIdempotencyConflict => kernel_outcome "idempotency_conflict"
  | OrgSlugConflict => kernel_outcome "slug_conflict"
  | OrgUnauthorized => kernel_outcome "unauthorized"
  end.
Definition member_columns (m : MemberOut) : PgRow :=
  PgRow_new [(lit "organization_id", PgText (uuid_to_string (mo_organization m)));
             (lit "user_id", PgText (uuid_to_string (mo_user m)));
             (lit "primary_email", PgText (mo_primary_email m));
             (lit "role_id", PgText (m_role (mo_row m)));
             (lit "status", PgText (member_status_text (m_status (mo_row m))));
             (lit "joined_at_ms", PgI64 (m_joined_at_ms (mo_row m)))].
Definition role_columns (r : RoleOut) : PgRow :=
  PgRow_new [(lit "organization_id", PgText (uuid_to_string (ro_organization r)));
             (lit "role_id", PgText (ro_role r));
             (lit "name", PgText (ro_name r));
             (lit "built_in", PgBool (ro_built_in r));
             (lit "permissions", PgJson (VArray (map VString (ro_permissions r))))].
Definition deletion_columns (o : DeleteRoleOutcome) : PgRow :=
  let '(outcome, members, pending) :=
    match o with RoleDeleted => ("deleted"%string, 0, 0) | RoleUsed m i => ("in_use"%string, m, i) end in
  PgRow_new [(lit "outcome", PgText (lit outcome)); (lit "member_count", PgI64 members);
             (lit "invitation_count", PgI64 pending)].
Definition invitation_columns (ki : Uuid * InvitationRow) : list (str * PgValue) :=
  [(lit "invitation_id", PgText (uuid_to_string ki.1));
   (lit "organization_id", PgText (uuid_to_string (i_organization ki.2)));
   (lit "normalized_email", PgText (i_email ki.2));
   (lit "role_id", PgText (i_role ki.2));
   (lit "status", PgText (invitation_status_text (i_status ki.2)));
   (lit "expires_at_ms", PgI64 (i_expires_at_ms ki.2))].
Definition user_columns (ku : Uuid * UserRow) : PgRow :=
  PgRow_new [(lit "user_id", PgText (uuid_to_string ku.1));
             (lit "primary_email", PgText (u_primary_email ku.2));
             (lit "status", PgText (user_status_text (u_status ku.2)));
             (lit "created_at_ms", PgI64 (u_created_at_ms ku.2))].
Definition audit_columns (sa : Z * AuditRow) : list (str * PgValue) :=
  [(lit "sequence", PgI64 sa.1);
   (lit "organization_id", pg_uuid (a_organization sa.2));
   (lit "actor_user_id", PgText (default (lit "system") (uuid_to_string <$> a_actor sa.2)));
   (lit "action", PgText (a_action sa.2));
   (lit "resource_type", PgText (a_resource sa.2).1);
   (lit "resource_id", PgText (a_resource sa.2).2);
   (lit "outcome", PgText (lit (if a_succeeded sa.2 then "succeeded" else "failed")));
   (lit "occurred_at_ms", PgI64 (a_occurred_at_ms sa.2))].

(** [SELECT TRUE AS authorized, .. FROM authorized LEFT JOIN ..]: no row for an
    actor without the right, a row of nulls when there is nothing to list. *)
Definition authorized_row (columns : list (str * PgValue)) : PgRow :=
  PgRow_new ((lit "authorized", PgBool true) :: columns).
Definition left_join {A} (columns : A → list (str * PgValue)) (o : option (list A)) : list PgRow :=
  match o with
  | None => []
  | Some [] => [authorized_row []]
  | Some l => map (λ a, authorized_row (columns a)) l
  end.

(** ** Execution *)

Definition management_exec (sql : ManagementSql) (ps : list PgValue) (dr : Draws) (d : Db) :
    option (list PgRow * Db) :=
  match sql, ps with
  | CREATE_ORGANIZATION_SQL,
      [PgText key; PgText actor; PgBytes hash; PgText org; PgText name; PgText session; PgText aid; PgText rid;
       PgI64 now; PgI64 expires; PgText slug] =>
      org ← uuid_parse_str org; session ← uuid_parse_str session; aid ← uuid_parse_str aid;
      '(o, d) ← create_organization (mk_create_org key actor hash org name session aid rid now slug)
                  (draw_first dr) d;
      Some ([creation_columns o], d)
  | LIST_ORGANIZATIONS_SQL, [PgText user] =>
      user ← uuid_parse_str user;
      Some (map (λ o, PgRow_new (org_columns o)) (list_organizations user d), d)
  | SELECT_ORGANIZATION_SQL, [PgText session; PgText org; PgI64 now; PgText aid; PgText rid] =>
      session ← uuid_parse_str session; org ← uuid_parse_str org; aid ← uuid_parse_str aid;
      '(ok, d) ← select_organization session org now aid rid d;
      Some (flag_rows (kernel_outcome "selected") ok, d)
  | GET_ORGANIZATION_SQL, [PgText session; PgText org; PgI64 now] =>
      session ← uuid_parse_str session; org ← uuid_parse_str org;
      Some (opt_rows (λ o, PgRow_new (org_columns o)) (get_organization session org now d), d)
  | UPDATE_ORGANIZATION_SQL, [PgText session; PgText org; PgText name; PgI64 now; PgText aid; PgText rid] =>
      session ← uuid_parse_str session; org ← uuid_parse_str org; aid ← uuid_parse_str aid;
      '(o, d) ← update_organization session org name now aid rid d;
      Some (opt_rows (λ o, PgRow_new (org_columns o)) o, d)
  | ARCHIVE_ORGANIZATION_SQL, [PgText session; PgText org; PgI64 now; PgText aid; PgText rid] =>
      session ← uuid_parse_str session; org ← uuid_parse_str org; aid ← uuid_parse_str aid;
      '(o, d) ← archive_organization session org now aid rid d;
      Some (opt_rows (λ o, PgRow_new (org_columns o)) o, d)
  | LIST_MEMBERSHIPS_SQL, [PgText session; PgText org; PgI64 now] =>
      session ← uuid_parse_str session; org ← uuid_parse_str org;
      Some (map member_columns (list_memberships session org now d), d)
  | ASSIGN_MEMBERSHIP_ROLE_SQL,
      [PgText session; PgText org; PgText user; PgText role; PgI64 now; PgText aid; PgText rid] =>
      session ← uuid_parse_str session; org ← uuid_parse_str org; user ← uuid_parse_str user;
      aid ← uuid_parse_str aid;
      '(o, d) ← assign_membership_role session org user role now aid rid (draw_first dr) d;
      Some (opt_rows member_columns o, d)
  | REMOVE_MEMBERSHIP_SQL, [PgText session; PgText org; PgText user; PgI64 now; PgText aid; PgText rid] =>
      session ← uuid_parse_str session; org ← uuid_parse_str org; user ← uuid_parse_str user;
      aid ← uuid_parse_str aid;
      '(ok, d) ← remove_membership session org user now aid rid (draw_first dr) d;
      Some (flag_rows (kernel_outcome "removed") ok, d)
  | LEAVE_ORGANIZATION_SQL, [PgText session; PgText org; PgI64 now; PgText aid; PgText rid] =>
      session ← uuid_parse_str session; org ← uuid_parse_str org; aid ← uuid_parse_str aid;
      '(ok, d) ← leave_organization session org now aid rid (draw_first dr) d;
      Some (flag_rows (kernel_outcome "left") ok, d)
  | TRANSFER_OWNERSHIP_SQL, [PgText session; PgText org; PgText user; PgI64 now; PgText aid; PgText rid] =>
      session ← uuid_parse_str session; org ← uuid_parse_str org; user ← uuid_parse_str user;
      aid ← uuid_parse_str aid;
      '(o, d) ← transfer_ownership session org user now aid rid (draw_first dr) (draw_second dr) d;
      Some (opt_rows member_columns o, d)
  | LIST_ROLES_SQL, [PgText session; PgText org; PgI64 now] =>
      session ← uuid_parse_str session; org ← uuid_parse_str org;
      Some (map role_columns (list_roles session org now d), d)
  | UPSERT_ROLE_SQL,
      [PgText session; PgText org; PgText role; PgText name; PgJson (VArray permissions); PgI64 now; PgText aid;
       PgText rid] =>
      session ← uuid_parse_str session; org ← uuid_parse_str org; aid ← uuid_parse_str aid;
      '(o, d) ← upsert_role session org role name (omap as_str permissions) now aid rid d;
      Some (opt_rows role_columns o, d)
  | DELETE_ROLE_SQL, [PgText session; PgText org; PgText role; PgI64 now; PgText aid; PgText rid] =>
      session ← uuid_parse_str session; org ← uuid_parse_str org; aid ← uuid_parse_str aid;
      '(o, d) ← delete_role session org role now aid rid d;
      Some (opt_rows deletion_columns o, d)
  | LIST_INVITATIONS_SQL, [PgText session; PgText org; PgI64 now] =>
      session ← uuid_parse_str session; org ← uuid_parse_str org;
      Some (left_join invitation_columns (list_invitations session org now d), d)
  | CREATE_INVITATION_SQL,
      [PgText session; PgText org; PgText email; PgText role; PgText invitation; PgBytes hash; PgI64 expires;
       PgText outbox; PgText dedup; PgText version; PgBytes ciphertext; PgText aid; PgText rid; PgI64 now] =>
      session ← uuid_parse_str session; org ← uuid_parse_str org; invitation ← uuid_parse_str invitation;
      outbox ← uuid_parse_str outbox; aid ← uuid_parse_str aid;
      '(o, d) ← create_invitation session org email role invitation
                  (mk_invite hash expires outbox dedup version ciphertext aid rid now) d;
      Some (opt_rows (λ i, PgRow_new (invitation_columns i)) o, d)
  | ACCEPT_INVITATION_SQL, [PgText session; PgBytes hash; PgI64 now; PgText aid; PgText rid] =>
      session ← uuid_parse_str session; aid ← uuid_parse_str aid;
      '(o, d) ← accept_invitation session hash now aid rid (draw_first dr) d;
      Some (opt_rows (λ o, PgRow_new (org_columns o)) o, d)
  | REVOKE_INVITATION_SQL,
      [PgText session; PgText org; PgText invitation; PgI64 now; PgText aid; PgText rid] =>
      session ← uuid_parse_str session; org ← uuid_parse_str org; invitation ← uuid_parse_str invitation;
      aid ← uuid_parse_str aid;
      '(o, d) ← revoke_invitation session org invitation now aid rid d;
      Some (opt_rows (λ i, PgRow_new (invitation_columns i)) o, d)
  | RESEND_INVITATION_SQL,
      [PgText session; PgText org; PgText invitation; PgBytes hash; PgI64 expires; PgText outbox; PgText dedup;
       PgText version; PgBytes ciphertext; PgText aid; PgText rid; PgI64 now] =>
      session ← uuid_parse_str session; org ← uuid_parse_str org; invitation ← uuid_parse_str invitation;
      outbox ← uuid_parse_str outbox; aid ← uuid_parse_str aid;
      '(o, d) ← resend_invitation session org invitation
                  (mk_invite hash expires outbox dedup version ciphertext aid rid now) d;
      Some (opt_rows (λ i, PgRow_new (invitation_columns i)) o, d)
  | LIST_ADMIN_USERS_SQL, [PgText session; PgI64 now] =>
      session ← uuid_parse_str session;
      Some (map user_columns (list_admin_users session now d), d)
  | SET_USER_DISABLED_SQL,
      [PgText session; PgText user; PgBool disabled; PgI64 now; PgText aid; PgText rid] =>
      session ← uuid_parse_str session; user ← uuid_parse_str user; aid ← uuid_parse_str aid;
      '(o, d) ← set_user_disabled session user disabled now aid rid (draw_for dr) d;
      Some (opt_rows user_columns o, d)
  | LIST_AUDIT_EVENTS_SQL, [PgText session; org; PgI64 after; PgI64 limit; PgI64 now] =>
      session ← uuid_parse_str session; org ← opt_uuid org;
      Some (left_join audit_columns (list_audit_events session org after limit now d), d)
  | _, _ => None
  end.
End wire.

(** ** The world *)

Class ManagementWorld (W TE RE : Type) `{KernelWorld W TE RE} := {
  mg_query : ManagementSql → list PgValue → io W TE (list PgRow);
  (** [T::violates_constraint(&error, "auth_organization_requires_owner")] *)
  violates_owner : TE → bool;
}.
Class ManagementWorldLaws (W TE RE : Type) {U : UuidText} {K : KernelWorld W TE RE}
    {L : KernelWorldLaws W TE RE} {M : ManagementWorld W TE RE} : Prop := {
  mg_query_executes sql ps w r w' :
    mg_query sql ps w = (r, w') →
    ∃ d1, rtc kstep (database w) d1
    ∧ ((∃ dr out d2, management_exec sql ps dr d1 = Some (out, d2)
          ∧ rtc kstep d2 (database w') ∧ ∀ out', r = Ok out' → out' = out)
       ∨ (rtc kstep d1 (database w') ∧ ∀ out', r ≠ Ok out'));
}.

(** A statement of the services that executed: one that writes, or a query. *)
Lemma management_exec_run `{UuidText} sql ps dr d out d' :
  management_exec sql ps dr d = Some (out, d') → d' = d ∨ ∃ stmt, org_run stmt d = Some d'.
Proof.
  intros E. unfold management_exec in E.
  repeat match type of E with match ?x with _ => _ end = Some _ => destruct x; try discriminate E end;
  repeat match type of E with
  | (_ ≫= _) = Some _ => apply bind_Some in E as (? & ? & E)
  | (let '(_, _) := ?x in _) = Some _ => destruct x
  end; injection E as <- <-; try (by left); right.
  all: match goal with Hs : ?f = Some (_, ?d') |- ∃ _, org_run _ ?d = Some ?d' =>
    assert (snd <$> f = Some d') as Hr by (by rewrite Hs) end.
  1: eexists (CreateOrganization _ _); exact Hr.
  1: eexists (SelectOrganization _ _ _ _ _); exact Hr.
  1: eexists (UpdateOrganization _ _ _ _ _ _); exact Hr.
  1: eexists (ArchiveOrganization _ _ _ _ _); exact Hr.
  1: eexists (AssignRole _ _ _ _ _ _ _ _); exact Hr.
  1: eexists (RemoveMember _ _ _ _ _ _ _); exact Hr.
  1: eexists (LeaveOrganization _ _ _ _ _ _); exact Hr.
  1: eexists (TransferOwnership _ _ _ _ _ _ _ _); exact Hr.
  1: eexists (UpsertRole _ _ _ _ _ _ _ _); exact Hr.
  1: eexists (DeleteRole _ _ _ _ _ _); exact Hr.
  1: eexists (CreateInvitation _ _ _ _ _ _); exact Hr.
  1: eexists (AcceptInvitation _ _ _ _ _ _); exact Hr.
  1: eexists (RevokeInvitation _ _ _ _ _ _); exact Hr.
  1: eexists (ResendInvitation _ _ _ _); exact Hr.
  1: eexists (SetUserDisabled _ _ _ _ _ _ _); exact Hr.
Qed.
(** So it is a step of the kernel. *)
Lemma management_exec_steps `{UuidText} sql ps dr d out d' :
  management_exec sql ps dr d = Some (out, d') → rtc kstep d d'.
Proof.
  intros [->|[stmt Hr]]%management_exec_run; [done|]. apply rtc_once, k_foreign. by eapply org_run_foreign.
Qed.

Section runs.
Context {W TE RE : Type} `{ManagementWorldLaws W TE RE}.
#[local] Set Default Proof Using "Type*".

Lemma mg_query_Ok sql ps (w : W) out w' :
  mg_query sql ps w = (Ok out, w') →
  ∃ dr d1 d2, rtc kstep (database w) d1 ∧ management_exec sql ps dr d1 = Some (out, d2)
    ∧ rtc kstep d2 (database w').
Proof.
  intros Q. destruct (mg_query_executes _ _ _ _ _ Q) as (d1 & Hd1 & [(dr & out' & d2 & Hex & Hd2 & Ho)|[_ Hn]]).
  - rewrite (Ho out eq_refl). eauto 10.
  - by destruct (Hn out).
Qed.
Lemma mg_query_steps sql ps (w : W) r w' : mg_query sql ps w = (r, w') → rtc kstep (database w) (database w').
Proof.
  intros Q. destruct (mg_query_executes _ _ _ _ _ Q) as (d1 & Hd1 & [(dr & out' & d2 & Hex & Hd2 & _)|[Hd2 _]]).
  - etrans; [done|]. etrans; [by eapply management_exec_steps|done].
  - by etrans.
Qed.
End runs.
