(* ===== verification/Management.v ===== *)
(** * Management: the organization and invitation services

    Models src/crates/wasi-auth/src/postgres/management.rs and
    organizations.rs: the validation of a request, the parameters of the
    statement, the decoding of its rows and the mapping of its errors, for
    every method of OrganizationService, OrganizationManagementService and
    InvitationService. *)

From S2P Require Export ManagementWire.
From S2P Require Import AccessModel.
Open Scope Z_scope.

#[local] Arguments lit : simpl never.

Definition TOKEN_BYTES : nat := 32.
Definition INVITATION_TTL_MS : Z := 7 * 24 * 60 * 60 * 1000.

(** ** Records *)

Record OrganizationRecord := mk_organization_record {
  or_organization_id : str;
  or_name : str;
  or_slug : str;
  or_status : str;
  or_role_id : str;
  or_permissions : list str;
  or_created_at_ms : Z;
}.
Record MembershipRecord := mk_membership_record {
  mr_organization_id : str;
  mr_user_id : str;
  mr_primary_email : str;
  mr_role_id : str;
  mr_status : str;
  mr_joined_at_ms : Z;
}.
Record RoleRecord := mk_role_record {
  rr_organization_id : str;
  rr_role_id : str;
  rr_name : str;
  rr_built_in : bool;
  rr_permissions : list str;
}.
Record InvitationRecord := mk_invitation_record {
  ir_invitation_id : str;
  ir_organization_id : str;
  ir_email : str;
  ir_role_id : str;
  ir_status : str;
  ir_expires_at_ms : Z;
}.
Record AdminUserRecord := mk_admin_user_record {
  au_user_id : str;
  au_primary_email : str;
  au_status : str;
  au_created_at_ms : Z;
}.
Record AuditEventRecord := mk_audit_event {
  ae_sequence : Z;
  ae_organization_id : option str;
  ae_actor_user_id : str;
  ae_action : str;
  ae_resource_type : str;
  ae_resource_id : str;
  ae_outcome : str;
  ae_occurred_at_ms : Z;
}.
Record AuditPage := mk_audit_page { ap_events : list AuditEventRecord; ap_next_cursor : Z }.
Record UpsertRoleRequest := mk_upsert_role_request {
  ur_session_id : str;
  ur_organization_id : str;
  ur_role_id : str;
  ur_name : str;
  ur_permissions : list str;
  ur_request_id : str;
}.
Record CreateOrganizationRequest := mk_create_organization_request {
  cor_idempotency_key : str;
  cor_session_id : str;
  cor_name : str;
  cor_slug : str;
  cor_request_id : str;
}.

Inductive ManagementError (E : Type) :=
| MgInvalidRequest | MgNotAuthorized | MgProtectedInvariant | MgRoleInUse (member_count invitation_count : Z)
| MgRestrictedPermission | MgInvalidToken | MgRandomnessUnavailable | MgCrypto | MgTransport (e : E)
| MgRow (e : RowDecodeError) | MgInvalidRow.
Arguments MgInvalidRequest {E}.
Arguments MgNotAuthorized {E}.
Arguments MgProtectedInvariant {E}.
Arguments MgRoleInUse {E} member_count invitation_count.
Arguments MgRestrictedPermission {E}.
Arguments MgInvalidToken {E}.
Arguments MgRandomnessUnavailable {E}.
Arguments MgCrypto {E}.
Arguments MgTransport {E} e.
Arguments MgRow {E} e.
Arguments MgInvalidRow {E}.

Inductive OrganizationError (E : Type) :=
| OgInvalidRequest | OgUnauthenticated | OgIdempotencyConflict | OgSlugConflict | OgRandomnessUnavailable
| OgTransport (e : E) | OgRow (e : RowDecodeError) | OgInvalidRow | OgUnexpectedOutcome.
Arguments OgInvalidRequest {E}.
Arguments OgUnauthenticated {E}.
Arguments OgIdempotencyConflict {E}.
Arguments OgSlugConflict {E}.
Arguments OgRandomnessUnavailable {E}.
Arguments OgTransport {E} e.
Arguments OgRow {E} e.
Arguments OgInvalidRow {E}.
Arguments OgUnexpectedOutcome {E}.

(** ** Validation *)

Section validation.
Context {E : Type} `{UuidText}.

(** [parse_uuid]: the canonical text *)
Definition parse_uuid (value : str) : result (ManagementError E) str :=
  rmap uuid_to_string (ok_or (uuid_parse_str value) MgInvalidRequest).
Definition bounded_name (value : str) (max : Z) : result (ManagementError E) str :=
  let value := trim value in
  fail? is_empty value || (max <? str_len value) || existsb is_control value with MgInvalidRequest ;;
  Ok value.
Definition is_built_in (value : str) : bool :=
  bool_decide (value ∈ [lit "owner"; lit "admin"; lit "member"; lit "viewer"]).
Definition role_byte (b : Z) : bool := is_ascii_alphanumeric b || (b =? 46) || (b =? 95) || (b =? 45).
Definition validate_role_id (value : str) (allow_built_in : bool) : result (ManagementError E) unit :=
  fail? is_empty value || (128 <? str_len value) || (negb allow_built_in && is_built_in value)
        || negb (forallb role_byte (str_bytes value)) with MgInvalidRequest ;;
  Ok tt.
Definition normalize_email (value : str) : result (ManagementError E) str :=
  let value := to_ascii_lowercase (trim value) in
  fail? (320 <? str_len value)
        || match split_once 64 value with
           | None => true
           | Some (local, domain) => is_empty local || is_empty domain || negb (contains_char 46 domain)
           end with MgInvalidRequest ;;
  Ok value.
Definition to_u64 (value : Z) : result (ManagementError E) Z := ok_or (u64_try_from value) MgInvalidRow.
Definition map_access_model_error (e : AccessModelError) : ManagementError E :=
  match e with
  | UnknownPermission | RestrictedPermission => MgRestrictedPermission
  | IncompleteDependencies => MgInvalidRequest
  end.

(** ** Decoding *)

Definition text_column (row : PgRow) (column : string) : result (ManagementError E) str :=
  map_err MgRow (required_text row (lit column)).
Definition u64_column (row : PgRow) (column : string) : result (ManagementError E) Z :=
  let? v := map_err MgRow (required_i64 row (lit column)) in to_u64 v.

Definition decode_permissions (row : PgRow) : result (ManagementError E) (list str) :=
  let? document := map_err MgRow (row_json row (lit "permissions")) in
  let? items := ok_or (document ≫= as_array) MgInvalidRow in
  collect_map (λ v, ok_or (as_str v) MgInvalidRow) items.
Definition decode_organization (row : PgRow) : result (ManagementError E) OrganizationRecord :=
  let? id := text_column row "organization_id" in
  let? name := text_column row "name" in
  let? slug := map_err MgRow (row_text row (lit "slug")) in
  let? status := text_column row "status" in
  let? role := text_column row "role_id" in
  let? permissions := decode_permissions row in
  let? created := u64_column row "created_at_ms" in
  Ok (mk_organization_record id name (default [] slug) status role permissions created).
Definition decode_membership (row : PgRow) : result (ManagementError E) MembershipRecord :=
  let? id := text_column row "organization_id" in
  let? user := text_column row "user_id" in
  let? email := text_column row "primary_email" in
  let? role := text_column row "role_id" in
  let? status := text_column row "status" in
  let? joined := u64_column row "joined_at_ms" in
  Ok (mk_membership_record id user email role status joined).
Definition decode_role (row : PgRow) : result (ManagementError E) RoleRecord :=
  let? id := text_column row "organization_id" in
  let? role := text_column row "role_id" in
  let? name := text_column row "name" in
  let? built_in := map_err MgRow (row_bool row (lit "built_in")) in
  let? built_in := ok_or built_in MgInvalidRow in
  let? permissions := decode_permissions row in
  Ok (mk_role_record id role name built_in permissions).
Definition decode_invitation (row : PgRow) : result (ManagementError E) InvitationRecord :=
  let? id := text_column row "invitation_id" in
  let? organization := text_column row "organization_id" in
  let? email := text_column row "normalized_email" in
  let? role := text_column row "role_id" in
  let? status := text_column row "status" in
  let? expires := u64_column row "expires_at_ms" in
  Ok (mk_invitation_record id organization email role status expires).
Definition decode_admin_user (row : PgRow) : result (ManagementError E) AdminUserRecord :=
  let? user := text_column row "user_id" in
  let? email := text_column row "primary_email" in
  let? status := text_column row "status" in
  let? created := u64_column row "created_at_ms" in
  Ok (mk_admin_user_record user email status created).
Definition decode_audit (row : PgRow) : result (ManagementError E) AuditEventRecord :=
  let? sequence := u64_column row "sequence" in
  let? organization := map_err MgRow (row_text row (lit "organization_id")) in
  let? actor := text_column row "actor_user_id" in
  let? action := text_column row "action" in
  let? type := text_column row "resource_type" in
  let? resource := text_column row "resource_id" in
  let? outcome := text_column row "outcome" in
  let? occurred := u64_column row "occurred_at_ms" in
  Ok (mk_audit_event sequence organization actor action type resource outcome occurred).

(** [rows.first().map(decode).transpose()?.ok_or(missing)] *)
Definition first_row {A} (decode : PgRow → result (ManagementError E) A) (missing : ManagementError E)
    (rows : list PgRow) : result (ManagementError E) A :=
  match head rows with Some row => decode row | None => Err missing end.
(** [if rows.is_empty() { return Err(NotAuthorized) } rows.iter().map(decode).collect()] *)
Definition all_rows {A} (decode : PgRow → result (ManagementError E) A) (rows : list PgRow) :
    result (ManagementError E) (list A) :=
  match rows with [] => Err MgNotAuthorized | _ => collect_map decode rows end.
(** [rows.first().and_then(|row| row.bool("authorized").ok()).flatten() != Some(true)] *)
Definition not_authorized (rows : list PgRow) : bool :=
  negb (bool_decide ((row ← head rows; b ← ok (row_bool row (lit "authorized")); b) = Some true)).
(** [rows.first().and_then(|row| row.required_text("outcome").ok()) == Some(outcome)] *)
Definition has_outcome (outcome : string) (rows : list PgRow) : bool :=
  bool_decide ((row ← head rows; ok (required_text row (lit "outcome"))) = Some (lit outcome)).
(** [row.text(column).ok().flatten().is_some()] *)
Definition text_present (column : str) (row : PgRow) : bool :=
  match ok (row_text row column) with Some (Some _) => true | _ => false end.
Definition i64_present (column : str) (row : PgRow) : bool :=
  match ok (row_i64 row column) with Some (Some _) => true | _ => false end.
End validation.

(** ** Organizations *)

Definition decode_membership_organization {E} (row : PgRow) : result (OrganizationError E) OrganizationRecord :=
  let text column := map_err OgRow (required_text row (lit column)) in
  let? document := map_err OgRow (row_json row (lit "permissions")) in
  let? items := ok_or (document ≫= as_array) OgInvalidRow in
  let? permissions := collect_map (λ v, ok_or (as_str v) OgInvalidRow) items in
  let? id := text "organization_id"%string in
  let? name := text "name"%string in
  let? slug := text "slug"%string in
  let? status := text "status"%string in
  let? role := text "role_id"%string in
  let? created := map_err OgRow (required_i64 row (lit "created_at_ms")) in
  let? created := ok_or (u64_try_from created) OgInvalidRow in
  Ok (mk_organization_record id name slug status role permissions created).

(** The conditions of [OrganizationService::create]: on the slug, and all. *)
Definition slug_char (c : Z) : bool := is_ascii_lowercase c || is_ascii_digit c || (c =? 45).
Definition service_slug (slug : str) : bool :=
  (2 <=? str_len slug) && (str_len slug <=? 48)
  && match head slug with Some c => is_ascii_lowercase c | None => false end
  && forallb slug_char slug
  && negb (starts_with (lit "-") slug) && negb (ends_with (lit "-") slug) && negb (contains_str (lit "--") slug).
Definition valid_creation (name slug key : str) : bool :=
  negb (is_empty name) && (str_len name <=? 120) && negb (existsb is_control name)
  && service_slug slug && negb (is_empty key) && (str_len key <=? 256).

Section services.
Context {W TE RE : Type} `{UuidText} `{ManagementWorld W TE RE} `{TokenCrypto} `{MailCodec}.

Definition now_ms : io W (ManagementError TE) Z :=
  do! now := io_now in
  io_lift (Ok (u64_saturating_mul now 1000)).
Definition i64_value (value : Z) : PgValue := PgI64 (u64_to_i64 value).
Definition map_transport_error (e : TE) : ManagementError TE :=
  if violates_owner e then MgProtectedInvariant else MgTransport e.
Definition query (sql : ManagementSql) (ps : list PgValue) : io W (ManagementError TE) (list PgRow) :=
  io_call map_transport_error (mg_query sql ps).
Definition uuid (now_ms : Z) : io W (ManagementError TE) Uuid := uuid_v7 MgRandomnessUnavailable now_ms.

Definition create_request_hash (session_id name slug : str) : list Z :=
  sha256 (str_bytes (lit "wasi-auth:create-organization:v2") ++ [0]
          ++ update_bounded_hash (str_bytes session_id) ++ update_bounded_hash (str_bytes name)
          ++ update_bounded_hash (str_bytes slug)).
(** [OrganizationService::create], [list] and [select] *)
Definition organization_create (request : CreateOrganizationRequest) : io W (OrganizationError TE) OrganizationRecord :=
  let name := trim (cor_name request) in
  let slug := to_ascii_lowercase (trim (cor_slug request)) in
  if negb (valid_creation name slug (cor_idempotency_key request)) then io_lift (Err OgInvalidRequest) else
  do! now := io_now in
  let now_ms := u64_saturating_mul now 1000 in
  do! organization_id := uuid_v7 OgRandomnessUnavailable now_ms in
  do! audit_id := uuid_v7 OgRandomnessUnavailable now_ms in
  let session := cor_session_id request in
  do! rows := io_call OgTransport (mg_query CREATE_ORGANIZATION_SQL
    [PgText (cor_idempotency_key request); PgText session; PgBytes (create_request_hash session name slug);
     PgText (uuid_to_string organization_id); PgText name; PgText session; PgText (uuid_to_string audit_id);
     PgText (cor_request_id request); PgI64 (u64_to_i64 now_ms);
     PgI64 (u64_to_i64 (u64_saturating_add now_ms IDEMPOTENCY_TTL_MS)); PgText slug]) in
  io_lift (
    let? row := ok_or (head rows) OgUnexpectedOutcome in
    let? outcome := map_err OgRow (required_text row (lit "outcome")) in
    if bool_decide (outcome = lit "created") || bool_decide (outcome = lit "replayed")
    then decode_membership_organization row
    else if bool_decide (outcome = lit "idempotency_conflict") then Err OgIdempotencyConflict
    else if bool_decide (outcome = lit "slug_conflict") then Err OgSlugConflict
    else if bool_decide (outcome = lit "unauthorized") then Err OgUnauthenticated
    else Err OgUnexpectedOutcome).
Definition organization_list (user_id : str) : io W (OrganizationError TE) (list OrganizationRecord) :=
  do! rows := io_call OgTransport (mg_query LIST_ORGANIZATIONS_SQL [PgText user_id]) in
  io_lift (collect_map decode_membership_organization rows).
Definition organization_select (session_id organization_id request_id : str) : io W (OrganizationError TE) unit :=
  do! organization := io_lift (ok_or (uuid_parse_str organization_id) OgInvalidRequest) in
  do! now := io_now in
  let now_ms := u64_saturating_mul now 1000 in
  do! audit_id := uuid_v7 OgRandomnessUnavailable now_ms in
  do! rows := io_call OgTransport (mg_query SELECT_ORGANIZATION_SQL
    [PgText session_id; PgText (uuid_to_string organization); PgI64 (u64_to_i64 now_ms);
     PgText (uuid_to_string audit_id); PgText request_id]) in
  if has_outcome "selected" rows then io_lift (Ok tt) else io_lift (Err OgUnauthenticated).

(** ** OrganizationManagementService *)

Definition mg_organization (session_id organization_id : str) : io W (ManagementError TE) OrganizationRecord :=
  do! organization_id := io_lift (parse_uuid organization_id) in
  do! now := now_ms in
  do! rows := query GET_ORGANIZATION_SQL [PgText session_id; PgText organization_id; i64_value now] in
  io_lift (first_row decode_organization MgNotAuthorized rows).
Definition mg_update_organization (session_id organization_id name request_id : str) :
    io W (ManagementError TE) OrganizationRecord :=
  do! organization_id := io_lift (parse_uuid organization_id) in
  do! name := io_lift (bounded_name name 120) in
  do! now := now_ms in
  do! audit_id := uuid now in
  do! rows := query UPDATE_ORGANIZATION_SQL
    [PgText session_id; PgText organization_id; PgText name; i64_value now; PgText (uuid_to_string audit_id);
     PgText request_id] in
  io_lift (first_row decode_organization MgNotAuthorized rows).
Definition mg_list_memberships (session_id organization_id : str) : io W (ManagementError TE) (list MembershipRecord) :=
  do! organization_id := io_lift (parse_uuid organization_id) in
  do! now := now_ms in
  do! rows := query LIST_MEMBERSHIPS_SQL [PgText session_id; PgText organization_id; i64_value now] in
  io_lift (all_rows decode_membership rows).
Definition mg_list_roles (session_id organization_id : str) : io W (ManagementError TE) (list RoleRecord) :=
  do! organization_id := io_lift (parse_uuid organization_id) in
  do! now := now_ms in
  do! rows := query LIST_ROLES_SQL [PgText session_id; PgText organization_id; i64_value now] in
  io_lift (all_rows decode_role rows).

(** The permissions of [upsert_role]: sorted, expanded and checked.  The
    expansion never runs out of its fuel. *)
Definition custom_permissions (requested : list str) : result (ManagementError TE) (list str) :=
  fail? (100 <? Z.of_nat (length requested)) with MgInvalidRequest ;;
  let? permissions :=
    map_err map_access_model_error
      (default (Err IncompleteDependencies) (expand_with_dependencies PRODUCT_DEFINITIONS (sort_dedup requested))) in
  let? _ := map_err map_access_model_error (validate_custom_role_permissions PRODUCT_DEFINITIONS permissions) in
  Ok permissions.
Definition mg_upsert_role (request : UpsertRoleRequest) : io W (ManagementError TE) RoleRecord :=
  do! organization_id := io_lift (parse_uuid (ur_organization_id request)) in
  do! _ := io_lift (validate_role_id (ur_role_id request) false) in
  do! name := io_lift (bounded_name (ur_name request) 80) in
  do! permissions := io_lift (custom_permissions (ur_permissions request)) in
  do! now := now_ms in
  do! audit_id := uuid now in
  do! rows := query UPSERT_ROLE_SQL
    [PgText (ur_session_id request); PgText organization_id; PgText (ur_role_id request); PgText name;
     PgJson (VArray (map VString permissions)); i64_value now; PgText (uuid_to_string audit_id);
     PgText (ur_request_id request)] in
  io_lift (first_row decode_role MgNotAuthorized rows).
(** The outcome of delete_role.sql. *)
Definition decode_deletion (row : PgRow) : result (ManagementError TE) unit :=
  let? outcome := text_column row "outcome" in
  if bool_decide (outcome = lit "deleted") then Ok tt
  else if bool_decide (outcome = lit "in_use") then
    let? members := u64_column row "member_count" in
    let? invitations := u64_column row "invitation_count" in
    Err (MgRoleInUse members invitations)
  else Err MgInvalidRow.
Definition mg_delete_role (session_id organization_id role_id request_id : str) : io W (ManagementError TE) unit :=
  do! organization_id := io_lift (parse_uuid organization_id) in
  do! _ := io_lift (validate_role_id role_id false) in
  do! now := now_ms in
  do! audit_id := uuid now in
  do! rows := query DELETE_ROLE_SQL
    [PgText session_id; PgText organization_id; PgText role_id; i64_value now; PgText (uuid_to_string audit_id);
     PgText request_id] in
  io_lift (first_row decode_deletion MgNotAuthorized rows).
Definition mg_assign_role (session_id organization_id user_id role_id request_id : str) :
    io W (ManagementError TE) MembershipRecord :=
  do! organization_id := io_lift (parse_uuid organization_id) in
  do! user_id := io_lift (parse_uuid user_id) in
  do! _ := io_lift (validate_role_id role_id true) in
  do! now := now_ms in
  do! audit_id := uuid now in
  do! rows := query ASSIGN_MEMBERSHIP_ROLE_SQL
    [PgText session_id; PgText organization_id; PgText user_id; PgText role_id; i64_value now;
     PgText (uuid_to_string audit_id); PgText request_id] in
  io_lift (first_row decode_membership MgProtectedInvariant rows).
Definition mg_remove_member (session_id organization_id user_id request_id : str) : io W (ManagementError TE) unit :=
  do! organization_id := io_lift (parse_uuid organization_id) in
  do! user_id := io_lift (parse_uuid user_id) in
  do! now := now_ms in
  do! audit_id := uuid now in
  do! rows := query REMOVE_MEMBERSHIP_SQL
    [PgText session_id; PgText organization_id; PgText user_id; i64_value now; PgText (uuid_to_string audit_id);
     PgText request_id] in
  if has_outcome "removed" rows then io_lift (Ok tt) else io_lift (Err MgProtectedInvariant).
Definition mg_transfer_ownership (session_id organization_id target_user_id request_id : str) :
    io W (ManagementError TE) MembershipRecord :=
  do! organization_id := io_lift (parse_uuid organization_id) in
  do! target_user_id := io_lift (parse_uuid target_user_id) in
  do! now := now_ms in
  do! audit_id := uuid now in
  do! rows := query TRANSFER_OWNERSHIP_SQL
    [PgText session_id; PgText organization_id; PgText target_user_id; i64_value now;
     PgText (uuid_to_string audit_id); PgText request_id] in
  io_lift (first_row decode_membership MgProtectedInvariant rows).
Definition mg_leave_organization (session_id organization_id request_id : str) : io W (ManagementError TE) unit :=
  do! organization_id := io_lift (parse_uuid organization_id) in
  do! now := now_ms in
  do! audit_id := uuid now in
  do! rows := query LEAVE_ORGANIZATION_SQL
    [PgText session_id; PgText organization_id; i64_value now; PgText (uuid_to_string audit_id);
     PgText request_id] in
  if has_outcome "left" rows then io_lift (Ok tt) else io_lift (Err MgProtectedInvariant).
Definition mg_archive_organization (session_id organization_id request_id : str) :
    io W (ManagementError TE) OrganizationRecord :=
  do! organization_id := io_lift (parse_uuid organization_id) in
  do! now := now_ms in
  do! audit_id := uuid now in
  do! rows := query ARCHIVE_ORGANIZATION_SQL
    [PgText session_id; PgText organization_id; i64_value now; PgText (uuid_to_string audit_id);
     PgText request_id] in
  io_lift (first_row decode_organization MgNotAuthorized rows).
Definition mg_list_invitations (session_id organization_id : str) : io W (ManagementError TE) (list InvitationRecord) :=
  do! organization_id := io_lift (parse_uuid organization_id) in
  do! now := now_ms in
  do! rows := query LIST_INVITATIONS_SQL [PgText session_id; PgText organization_id; i64_value now] in
  if not_authorized rows then io_lift (Err MgNotAuthorized) else
  io_lift (collect_map decode_invitation (List.filter (text_present (lit "invitation_id")) rows)).
Definition mg_list_admin_users (session_id : str) : io W (ManagementError TE) (list AdminUserRecord) :=
  do! now := now_ms in
  do! rows := query LIST_ADMIN_USERS_SQL [PgText session_id; i64_value now] in
  io_lift (all_rows decode_admin_user rows).
Definition mg_set_user_disabled (session_id user_id : str) (disabled : bool) (request_id : str) :
    io W (ManagementError TE) AdminUserRecord :=
  do! user_id := io_lift (parse_uuid user_id) in
  do! now := now_ms in
  do! audit_id := uuid now in
  do! rows := query SET_USER_DISABLED_SQL
    [PgText session_id; PgText user_id; PgBool disabled; i64_value now; PgText (uuid_to_string audit_id);
     PgText request_id] in
  io_lift (first_row decode_admin_user MgProtectedInvariant rows).
Definition mg_list_audit_events (session_id : str) (organization_id : option str) (after_cursor limit : Z) :
    io W (ManagementError TE) AuditPage :=
  if (limit =? 0) || (100 <? limit) then io_lift (Err MgInvalidRequest) else
  do! organization := io_lift (match organization_id with
                               | Some o => rmap Some (parse_uuid o) | None => Ok None end) in
  do! now := now_ms in
  do! rows := query LIST_AUDIT_EVENTS_SQL
    [PgText session_id; pg_text organization; i64_value after_cursor; PgI64 (u64_to_i64 limit); i64_value now] in
  if not_authorized rows then io_lift (Err MgNotAuthorized) else
  do! events := io_lift (collect_map decode_audit (List.filter (i64_present (lit "sequence")) rows)) in
  let next_cursor := match last events with Some event => ae_sequence event | None => after_cursor end in
  io_lift (Ok (mk_audit_page events next_cursor)).

(** ** InvitationService *)

Record InvitationService := mk_invitation_service {
  is_outbox_key : OutboxSealingKey;
  is_mail_config : option TransactionalMailConfig;
}.
(** A fresh token and the sealed mail that carries it. *)
Definition invitation_mail (svc : InvitationService) (email : str) :
    io W (ManagementError TE) (list Z * SealedPayload) :=
  do! raw := fill MgRandomnessUnavailable TOKEN_BYTES in
  do! nonce := fill MgRandomnessUnavailable OUTBOX_NONCE_BYTES in
  let token := base64_url_encode raw in
  do! payload := io_lift (queued_mail MgInvalidRequest MgCrypto (is_mail_config svc) InvitationMail email token
                            (lit "/organizations")) in
  do! sealed := io_lift (ok_or (outbox_seal (is_outbox_key svc) nonce payload) MgCrypto) in
  io_lift (Ok (sha256 (str_bytes token), sealed)).

Definition invitation_create (svc : InvitationService) (session_id organization_id email role_id request_id : str) :
    io W (ManagementError TE) InvitationRecord :=
  do! organization_id := io_lift (parse_uuid organization_id) in
  do! email := io_lift (normalize_email email) in
  do! _ := io_lift (validate_role_id role_id true) in
  do! now := now_ms in
  do! invitation_id := uuid now in
  do! outbox_id := uuid now in
  do! audit_id := uuid now in
  do! mail := invitation_mail svc email in
  let '(token_hash, sealed) := mail in
  do! rows := query CREATE_INVITATION_SQL
    [PgText session_id; PgText organization_id; PgText email; PgText role_id; PgText (uuid_to_string invitation_id);
     PgBytes token_hash; i64_value (u64_saturating_add now INVITATION_TTL_MS); PgText (uuid_to_string outbox_id);
     PgText (lit "invitation:" ++ uuid_to_string invitation_id); PgText (sp_key_version sealed);
     PgBytes (sp_ciphertext sealed); PgText (uuid_to_string audit_id); PgText request_id; i64_value now] in
  io_lift (first_row decode_invitation MgNotAuthorized rows).
Definition invitation_accept (session_id token request_id : str) : io W (ManagementError TE) OrganizationRecord :=
  if (str_len token <? 32) || (512 <? str_len token) || existsb is_control token
  then io_lift (Err MgInvalidRequest) else
  do! now := now_ms in
  do! audit_id := uuid now in
  do! rows := query ACCEPT_INVITATION_SQL
    [PgText session_id; PgBytes (sha256 (str_bytes token)); i64_value now; PgText (uuid_to_string audit_id);
     PgText request_id] in
  io_lift (first_row decode_organization MgInvalidToken rows).
Definition invitation_revoke (session_id organization_id invitation_id request_id : str) :
    io W (ManagementError TE) InvitationRecord :=
  do! organization_id := io_lift (parse_uuid organization_id) in
  do! invitation_id := io_lift (parse_uuid invitation_id) in
  do! now := now_ms in
  do! audit_id := uuid now in
  do! rows := query REVOKE_INVITATION_SQL
    [PgText session_id; PgText organization_id; PgText invitation_id; i64_value now; PgText (uuid_to_string audit_id);
     PgText request_id] in
  io_lift (first_row decode_invitation MgNotAuthorized rows).
Definition pending_invitation_email (session_id organization_id invitation_id : str) : io W (ManagementError TE) str :=
  do! now := now_ms in
  do! rows := query LIST_INVITATIONS_SQL [PgText session_id; PgText organization_id; i64_value now] in
  if not_authorized rows then io_lift (Err MgNotAuthorized) else
  io_lift (ok_or
    (ir_email <$> List.find (λ r, bool_decide (ir_invitation_id r = invitation_id)
                                  && bool_decide (ir_organization_id r = organization_id)
                                  && bool_decide (ir_status r = lit "pending"))
                   (omap (λ row, ok (decode_invitation (E := TE) row)) rows))
    MgNotAuthorized).
Definition invitation_resend (svc : InvitationService) (session_id organization_id invitation_id request_id : str) :
    io W (ManagementError TE) InvitationRecord :=
  do! organization_id := io_lift (parse_uuid organization_id) in
  do! invitation_id := io_lift (parse_uuid invitation_id) in
  do! email := pending_invitation_email session_id organization_id invitation_id in
  do! now := now_ms in
  do! outbox_id := uuid now in
  do! audit_id := uuid now in
  do! mail := invitation_mail svc email in
  let '(token_hash, sealed) := mail in
  do! rows := query RESEND_INVITATION_SQL
    [PgText session_id; PgText organization_id; PgText invitation_id; PgBytes token_hash;
     i64_value (u64_saturating_add now INVITATION_TTL_MS); PgText (uuid_to_string outbox_id);
     PgText (lit "invitation-resend:" ++ uuid_to_string outbox_id); PgText (sp_key_version sealed);
     PgBytes (sp_ciphertext sealed); PgText (uuid_to_string audit_id); PgText request_id; i64_value now] in
  io_lift (first_row decode_invitation MgNotAuthorized rows).
End services.
