(* ===== verification/ManagementProofs.v ===== *)
(** * ManagementProofs: what the management services return

    A successful call executed its statement at one moment, with the
    parameters it validated, and returns what that statement saw. *)

From S2P Require Export Management Owners.
From S2P Require Import Sessions AccessModel.
Open Scope Z_scope.

#[local] Arguments lit : simpl never.

(** ** Rows that decode to their values *)

Lemma collect_map_strings {E} (e : E) l : collect_map (λ v, ok_or (as_str v) e) (map VString l) = Ok l.
Proof. induction l as [|a l IH]; cbn; [done|]. by rewrite IH. Qed.
Lemma omap_as_str l : omap as_str (map VString l) = l.
Proof. induction l as [|a l IH]; cbn; [done|]. by rewrite IH. Qed.

Section decoding.
Context {E : Type} `{UuidText}.

Definition role_record (r : RoleOut) : RoleRecord :=
  mk_role_record (uuid_to_string (ro_organization r)) (ro_role r) (ro_name r) (ro_built_in r) (ro_permissions r).
Lemma decode_role_columns r : decode_role (E := E) (role_columns r) = Ok (role_record r).
Proof.
  unfold decode_role, role_columns, decode_permissions, text_column.
  replace (row_json _ (lit "permissions")) with (Ok (E := RowDecodeError) (Some (VArray (map VString (ro_permissions r))))) by reflexivity.
  cbn [map_err rbind mbind option_bind as_array ok_or]. rewrite collect_map_strings. reflexivity.
Qed.
End decoding.

(** ** Custom roles *)

(** What passes as the permissions of a custom role: the smallest set with the
    requested ones that is closed under dependencies, all of them eligible. *)
Record custom_set (requested permissions : list str) : Prop := {
  cs_sorted : ssorted permissions;
  cs_requested p : p ∈ requested → p ∈ permissions;
  cs_closed : closed PRODUCT_DEFINITIONS (λ p, p ∈ permissions);
  cs_least S : closed PRODUCT_DEFINITIONS S → (∀ p, p ∈ requested → S p) → ∀ p, p ∈ permissions → S p;
  cs_eligible p : p ∈ permissions → is_allowed_for_custom_role PRODUCT_DEFINITIONS p = true;
}.
Lemma custom_permissions_Ok {TE} requested permissions :
  custom_permissions (TE := TE) requested = Ok permissions →
  custom_set requested permissions ∧ (length requested ≤ 100)%nat.
Proof.
  unfold custom_permissions. intros [Hlen E]%fail_Ok. apply rbind_Ok in E as (ps & He%map_err_Ok & E).
  apply rbind_Ok in E as ([] & Hv%map_err_Ok & [= <-]).
  destruct (expansion_cases PRODUCT_DEFINITIONS (sort_dedup requested)) as
    [(Hx & _)|[(Hx & _)|(out & Hx & _ & [Hs _ _ Hr Hd Hl])]]; rewrite Hx in He; try done.
  injection He as ->. apply Z.ltb_ge in Hlen. split; [|lia]. split; cbn in *; try done.
  - intros p Hp. apply Hr. by apply elem_of_sort_dedup.
  - intros p q Hp. apply (Hd p q Hp). set_solver.
  - intros S HS Hreq p Hp. apply (Hl S); [done| |done]. intros q Hq. rewrite elem_of_sort_dedup in Hq. auto.
  - rewrite validate_custom_Ok in Hv. intros p (d & Hdef & Hel)%Hv. unfold is_allowed_for_custom_role. by rewrite Hdef.
Qed.
Lemma custom_set_transfer requested permissions :
  custom_set requested permissions → OWNERSHIP_TRANSFER ∉ permissions.
Proof. intros C Hin. apply (cs_eligible _ _ C) in Hin. vm_compute in Hin. discriminate Hin. Qed.

Lemma validate_role_id_Ok {E} role b : validate_role_id (E := E) role b = Ok tt → b = false → is_built_in role = false.
Proof.
  unfold validate_role_id. intros [Hc _]%fail_Ok ->. cbn [negb andb] in Hc.
  apply orb_false_iff in Hc as [[_ Hc]%orb_false_iff _]. done.
Qed.
Lemma bounded_name_Ok {E} value max v : bounded_name (E := E) value max = Ok v → v = trim value.
Proof. unfold bounded_name. by intros [_ [= <-]]%fail_Ok. Qed.
Lemma parse_uuid_Ok `{UuidText} {E} value t :
  parse_uuid (E := E) value = Ok t → ∃ u, uuid_parse_str value = Some u ∧ t = uuid_to_string u.
Proof.
  unfold parse_uuid, rmap. destruct (uuid_parse_str value) as [u|]; cbn; [|done]. intros [= <-]. by exists u.
Qed.

Lemma upsert_role_effect `{UuidText} session org role name permissions now aid rid out d d' :
  upsert_role session org role name permissions now aid rid d = Some (Some out, d') →
  ∃ s m, privileged_actor (lit "role.manage") session org now d = Some (s, m)
    ∧ is_Some (active_organization org d) ∧ built_in_role org role d = false
    ∧ out = mk_role_out org role name false permissions
    ∧ role_of org role d' = Some (mk_role_row name false)
    ∧ grants d' !! (org, role) = Some (list_to_set permissions).
Proof.
  unfold upsert_role. intros E. open_stmt E. open_lookups.
  match goal with Ha : org_audit _ _ _ _ _ _ _ _ _ _ = Some _ |- _ => apply org_audit_Some in Ha as [r ->] end.
  match goal with Hb : bump_revision _ _ = Some _ |- _ => apply bump_revision_directory in Hb end.
  eexists _, _. split_and!; [done|by eauto|done|done| |].
  - unfold role_of. cbn. match goal with Hb : directory _ = _ |- _ => rewrite Hb end. cbn. by rewrite lookup_insert_eq.
  - unfold grants. cbn. match goal with Hb : directory _ = _ |- _ => rewrite Hb end. cbn. by rewrite lookup_insert_eq.
Qed.

(** ** The audit log *)

(** The records after a cursor, of an organization or of all. *)
Definition matching (org : option Uuid) (after : Z) (l : list AuditRow) : list (Z * AuditRow) :=
  List.filter (λ sa, (after <? sa.1)
    && match org with Some o => bool_decide (a_organization sa.2 = Some o) | None => true end) (sequenced l).
Definition by_sequence (a b : Z * AuditRow) : Prop := a.1 < b.1.

Lemma filterb_filterb {A} (p q : A → bool) l : List.filter p (List.filter q l) = List.filter (λ x, q x && p x) l.
Proof. induction l as [|a l IH]; cbn; [done|]. destruct (q a); cbn; [destruct (p a)|]; by rewrite IH. Qed.
Lemma filterb_all {A} (p : A → bool) l : Forall (λ x, p x = true) l → List.filter p l = l.
Proof. induction 1 as [|a l Ha _ IH]; cbn; [done|]. by rewrite Ha, IH. Qed.
Lemma filterb_none {A} (p : A → bool) l : Forall (λ x, p x = false) l → List.filter p l = [].
Proof. induction 1 as [|a l Ha _ IH]; cbn; [done|]. by rewrite Ha, IH. Qed.
Lemma sorted_filterb {A} (R : A → A → Prop) p l : StronglySorted R l → StronglySorted R (List.filter p l).
Proof.
  induction 1 as [|a l Hl IH Ha]; cbn; [constructor|]. destruct (p a); [|done]. constructor; [done|].
  apply Forall_forall. intros x Hx. rewrite elem_of_filterb in Hx. destruct Hx as [Hx _].
  rewrite Forall_forall in Ha. auto.
Qed.
Lemma sequenced_sorted l : StronglySorted by_sequence (sequenced l).
Proof.
  unfold sequenced. generalize 1%nat. induction l as [|a l IH]; intros n; cbn; [constructor|].
  constructor; [apply IH|]. apply Forall_forall. intros [k x] Hk. unfold by_sequence; cbn.
  apply elem_of_zip_l in Hk. apply list_elem_of_fmap in Hk as (i & -> & Hi%elem_of_seq). lia.
Qed.
Lemma after_sorted M n c :
  StronglySorted by_sequence M → last (take n M) = Some c → List.filter (λ sa, c.1 <? sa.1) M = drop n M.
Proof.
  intros HM Hc. rewrite <- (take_drop n M) at 1. rewrite List.filter_app.
  rewrite <- (take_drop n M) in HM. apply last_Some in Hc as [l' Hl]. rewrite Hl in HM |- *.
  apply StronglySorted_app in HM as (Hl' & Hr & Hd).
  rewrite filterb_none, filterb_all; [done|..]; apply Forall_forall.
  - intros x Hx. apply Z.ltb_lt. apply Hl'; [apply elem_of_app; right; by left|done].
  - intros x Hx. apply Z.ltb_ge. apply elem_of_app in Hx as [Hx|Hx]; [|apply list_elem_of_singleton in Hx; by subst].
    apply StronglySorted_app in Hr as (Hb & _). specialize (Hb x c Hx ltac:(by left)). unfold by_sequence in Hb. lia.
Qed.
(** Reading on from the last record of a page gives the rest. *)
Lemma matching_continues org after l n :
  matching org (match last (take n (matching org after l)) with Some sa => sa.1 | None => after end) l
  = drop n (matching org after l).
Proof.
  set (M := matching org after l). assert (StronglySorted by_sequence M) as HM by apply sorted_filterb, sequenced_sorted.
  destruct (last (take n M)) as [c|] eqn:Hc.
  - rewrite <- (after_sorted M n c HM Hc). unfold M at 1, matching. rewrite filterb_filterb. apply List.filter_ext.
    intros sa. assert (after < c.1).
    { apply last_Some in Hc as [l' Hl]. assert (c ∈ M) as Hin.
      { rewrite <- (take_drop n M), Hl. apply elem_of_app. left. apply elem_of_app. right. by left. }
      unfold M, matching in Hin. rewrite elem_of_filterb in Hin. destruct Hin as [_ Hin]. apply andb_true_iff in Hin as [?%Z.ltb_lt _]. done. }
    destruct (Z.ltb_spec c.1 sa.1), (Z.ltb_spec after sa.1); cbn; rewrite ?andb_true_r, ?andb_false_r; try done. lia.
  - apply last_None in Hc. destruct n; [by rewrite drop_0|]. destruct M eqn:EM; [|done]. unfold M in EM. by rewrite EM.
Qed.

Section services.
Context {W TE RE : Type} `{ManagementWorldLaws W TE RE}.
#[local] Set Default Proof Using "Type*".

(** The time a service passes to its statement. *)
Definition service_now (w : W) : Z := u64_to_i64 (u64_saturating_mul (clock_now w) 1000).

Lemma now_ms_Ok (w w' : W) n : now_ms w = (Ok n, w') → n = u64_saturating_mul (clock_now w) 1000 ∧ w' = w.
Proof. unfold now_ms. intros E. run_inv E. unfold io_now in *. by simplify_eq. Qed.

Lemma query_Ok sql ps (w : W) out w' :
  query sql ps w = (Ok out, w') →
  ∃ dr d1 d2, rtc kstep (database w) d1 ∧ management_exec sql ps dr d1 = Some (out, d2)
    ∧ rtc kstep d2 (database w').
Proof. unfold query. intros E%io_call_Ok. by apply mg_query_Ok. Qed.
Lemma uuid_steps n (w : W) u w' : uuid n w = (Ok u, w') → rtc kstep (database w) (database w').
Proof. unfold uuid. apply ksafe_uuid_v7. Qed.

(** Splits a successful call into its validated values and the moment its
    statement executed. *)
Ltac service_inv E :=
  run_inv E;
  repeat match goal with
  | Hn : now_ms _ = (Ok _, _) |- _ => apply now_ms_Ok in Hn as [-> ->]
  | Hu : uuid _ _ = (Ok _, _) |- _ => apply uuid_steps in Hu
  | Hp : parse_uuid _ = Ok _ |- _ => apply parse_uuid_Ok in Hp as (? & ? & ->)
  | Hq : query _ _ _ = (Ok _, _) |- _ => apply query_Ok in Hq as (? & ? & ? & ? & Hq & ?)
  | Hx : management_exec _ _ _ _ = Some _ |- _ => progress cbn [management_exec i64_value] in Hx; rewrite ?omap_as_str in Hx
  | Hx : context [uuid_parse_str (uuid_to_string _)] |- _ => rewrite uuid_parse_to_string in Hx; cbn [mbind option_bind] in Hx
  | Hx : (_ ≫= _) = Some (_, _) |- _ => apply bind_Some in Hx as (? & ? & Hx)
  | Hx : (let '(_, _) := ?x in _) = Some (_, _) |- _ => destruct x
  | Hx : Some (_, _) = Some (_, _) |- _ => injection Hx as <- <-
  | Ha : rtc kstep ?a ?b, Hb : rtc kstep ?b _ |- _ =>
      lazymatch b with a => fail | _ => pose proof (transitivity Ha Hb); clear Ha Hb end
  end.

(** A custom role gets exactly the permissions it may have.  When an
    upsert succeeds, at one moment of the call a live session with a second
    factor of an active member whose role manages roles executed it, on an
    active organization and an id that is no built-in role; the role then
    grants exactly the permissions reported: the smallest set that contains
    the requested ones and the permissions they depend on, sorted, all
    eligible for custom roles, never the transfer of ownership. *)
Theorem upsert_role_exact (request : UpsertRoleRequest) (w w' : W) (record : RoleRecord)
    (Hrun : mg_upsert_role request w = (Ok record, w')) :
  ∃ d1 d2 session org s m permissions, rtc kstep (database w) d1 ∧ rtc kstep d2 (database w')
    ∧ uuid_parse_str (ur_session_id request) = Some session
    ∧ uuid_parse_str (ur_organization_id request) = Some org
    ∧ privileged_actor (lit "role.manage") session org (service_now w) d1 = Some (s, m)
    ∧ is_Some (active_organization org d1) ∧ is_built_in (ur_role_id request) = false
    ∧ record = mk_role_record (uuid_to_string org) (ur_role_id request) (trim (ur_name request)) false permissions
    ∧ custom_set (ur_permissions request) permissions ∧ (OWNERSHIP_TRANSFER ∉ permissions)
    ∧ role_of org (ur_role_id request) d2 = Some (mk_role_row (trim (ur_name request)) false)
    ∧ grants d2 !! (org, ur_role_id request) = Some (list_to_set permissions).
Proof.
  unfold mg_upsert_role in Hrun. service_inv Hrun.
  match goal with o : option RoleOut |- _ => destruct o as [out|]; [|done] end.
  match goal with Hu : upsert_role _ _ _ _ _ _ _ _ _ = _ |- _ =>
    apply upsert_role_effect in Hu as (s & m & Hp & Ho & _ & -> & Hr & Hg) end.
  cbn [opt_rows first_row head] in Hrun. unfold first_row in Hrun. cbn [head] in Hrun. rewrite decode_role_columns in Hrun.
  match goal with Hc : custom_permissions _ = Ok _, Hn : bounded_name _ _ = Ok _, Hv : validate_role_id _ _ = Ok ?u |- _ =>
    destruct u; apply custom_permissions_Ok in Hc as [Hc _]; apply bounded_name_Ok in Hn as ->; apply validate_role_id_Ok in Hv; [|done] end.
  injection Hrun as <-. do 7 eexists. split_and!; try eassumption; [done|by eapply custom_set_transfer].
Qed.

(** ** Deleting a role *)

Definition deletion_out (o : DeleteRoleOutcome) : result (ManagementError TE) unit :=
  match o with RoleDeleted => Ok tt | RoleUsed m i => Err (MgRoleInUse m i) end.
Lemma delete_role_used session org role now aid rid m i d d' :
  delete_role session org role now aid rid d = Some (Some (RoleUsed m i), d') →
  d' = d ∧ m = Z.of_nat (size (role_members org role true d))
  ∧ i = Z.of_nat (size (pending_invitations org role d)) ∧ 0 < m + i.
Proof.
  unfold delete_role. intros E. open_stmt E. split_and!; try done.
  match goal with Hb : _ || _ = true |- _ => apply orb_true_iff in Hb as [?%Z.ltb_lt|?%Z.ltb_lt] end; lia.
Qed.
Lemma delete_role_deleted session org role now aid rid d d' :
  delete_role session org role now aid rid d = Some (Some RoleDeleted, d') →
  ∃ s m, privileged_actor (lit "role.manage") session org now d = Some (s, m)
    ∧ built_in_role org role d = false
    ∧ role_members org role true d = ∅ ∧ pending_invitations org role d = ∅
    ∧ role_of org role d' = None ∧ grants d' !! (org, role) = None.
Proof.
  unfold delete_role. intros E. open_stmt E. open_lookups.
  match goal with Hb : _ || _ = false |- _ => apply orb_false_iff in Hb as [Hm%Z.ltb_ge Hi%Z.ltb_ge] end.
  match goal with Ha : org_audit _ _ _ _ _ _ _ _ _ _ = Some _ |- _ => apply org_audit_Some in Ha as [rec ->] end.
  match goal with Hb : bump_revision _ _ = Some _ |- _ => apply bump_revision_directory in Hb; rename Hb into Hdir end.
  eexists s, m. split_and!; [done| |apply map_size_empty_inv; lia..| |].
  - unfold built_in_role. by match goal with Hr : org_roles _ !! _ = Some _ |- _ => rewrite Hr end.
  - unfold role_of. cbn. rewrite Hdir. cbn. apply lookup_delete_eq.
  - unfold grants. cbn. rewrite Hdir. cbn. apply lookup_delete_eq.
Qed.

(** Errors that do not speak of a role in use. *)
Definition silent {A} (m : io W (ManagementError TE) A) : Prop :=
  ∀ w e w', m w = (Err e, w') → ∀ a b, e ≠ MgRoleInUse a b.
Lemma silent_lift {A} (r : result (ManagementError TE) A) : (∀ a b, r ≠ Err (MgRoleInUse a b)) → silent (io_lift r).
Proof. intros Hr w e w' [= -> <-] a b ->. by destruct (Hr a b). Qed.
Lemma silent_parse value : silent (io_lift (parse_uuid value)).
Proof. apply silent_lift. intros a b. unfold parse_uuid, rmap. by destruct (uuid_parse_str value). Qed.
Lemma silent_role value b : silent (io_lift (validate_role_id value b)).
Proof. apply silent_lift. intros ? ?. unfold validate_role_id. by case_match. Qed.
Lemma silent_now : silent now_ms.
Proof. by intros w e w'. Qed.
Lemma silent_uuid n : silent (uuid n).
Proof.
  intros w e w'. unfold uuid, uuid_v7, io_bind, io_call. destruct (random_bytes _ w) as [[x|x] w1]; [done|].
  by intros [= <- <-].
Qed.
Lemma silent_query sql ps : silent (query sql ps).
Proof.
  intros w e w'. unfold query, io_call. destruct (mg_query sql ps w) as [[x|x] w1]; [done|].
  intros [= <- <-] a b. unfold map_transport_error. by destruct (violates_owner x).
Qed.
Lemma silent_bind {A B} (m : io W (ManagementError TE) A) (k : A → io W (ManagementError TE) B) w r w' :
  silent m → io_bind m k w = (r, w') →
  (∃ x w1, m w = (Ok x, w1) ∧ k x w1 = (r, w')) ∨ (∃ e, r = Err e ∧ ∀ a b, e ≠ MgRoleInUse a b).
Proof.
  intros Hm. unfold io_bind. destruct (m w) as [[x|e] w1] eqn:E; [by eauto 10|].
  intros [= <- <-]. right. exists e. split; [done|]. by eapply Hm.
Qed.
Lemma decode_deletion_columns o :
  decode_deletion (TE := TE) (deletion_columns o) =
  match o with
  | RoleDeleted => Ok tt
  | RoleUsed m i => if (0 <=? m) && (0 <=? i) then Err (MgRoleInUse m i) else Err MgInvalidRow
  end.
Proof.
  destruct o as [|m i]; [reflexivity|]. unfold decode_deletion.
  change (text_column _ "outcome") with (Ok (E := ManagementError TE) (lit "in_use")).
  change (u64_column _ "member_count") with (to_u64 (E := TE) m).
  change (u64_column _ "invitation_count") with (to_u64 (E := TE) i).
  change (bool_decide (lit "in_use" = lit "deleted")) with false.
  change (bool_decide (lit "in_use" = lit "in_use")) with true.
  unfold to_u64, u64_try_from. by destruct (0 <=? m), (0 <=? i).
Qed.

(** Deleting a role never strands anybody, and says who stands in the way.
    When a deletion succeeds, at one moment of the call it was executed by a
    live session with a second factor of an active member who manages roles;
    the role was no built-in, no active member had it and no pending
    invitation granted it, and the role and its permissions are gone.  When
    it is refused because the role is in use, nothing was changed, at least
    one member or invitation uses the role, and the counts reported are the
    numbers of active members and of pending invitations with it. *)
Theorem delete_role_exact (session_id organization_id role_id request_id : str) (w w' : W)
    (r : result (ManagementError TE) unit)
    (Hrun : mg_delete_role session_id organization_id role_id request_id w = (r, w')) :
  match r with
  | Ok _ =>
      ∃ d1 d2 session org s m, rtc kstep (database w) d1 ∧ rtc kstep d2 (database w')
        ∧ uuid_parse_str session_id = Some session ∧ uuid_parse_str organization_id = Some org
        ∧ privileged_actor (lit "role.manage") session org (service_now w) d1 = Some (s, m)
        ∧ built_in_role org role_id d1 = false ∧ role_members org role_id true d1 = ∅
        ∧ pending_invitations org role_id d1 = ∅
        ∧ role_of org role_id d2 = None ∧ grants d2 !! (org, role_id) = None
  | Err (MgRoleInUse members invitations) =>
      ∃ d org, rtc kstep (database w) d ∧ rtc kstep d (database w')
        ∧ uuid_parse_str organization_id = Some org
        ∧ members = Z.of_nat (size (role_members org role_id true d))
        ∧ invitations = Z.of_nat (size (pending_invitations org role_id d)) ∧ 0 < members + invitations
  | Err _ => True
  end.
Proof.
  unfold mg_delete_role in Hrun.
  do 5 (apply silent_bind in Hrun as [(? & ? & ? & Hrun)|(e & -> & Hn)];
    [|by destruct e; try done; destruct (Hn _ _ eq_refl)
     |first [apply silent_parse|apply silent_role|apply silent_now|apply silent_uuid|apply silent_query]]).
  injection Hrun as <- <-.
  repeat match goal with
  | Hn : now_ms _ = (Ok _, _) |- _ => apply now_ms_Ok in Hn as [-> ->]
  | Hx : io_lift _ _ = (Ok _, _) |- _ => apply io_lift_Ok in Hx as [Hx ->]
  end.
  match goal with Hq : query _ _ _ = (Ok _, _) |- _ => service_inv Hq end.
  match goal with o : option DeleteRoleOutcome, Hd : delete_role _ _ _ _ _ _ _ = _ |- _ =>
    destruct o as [o|]; [|done]; rename Hd into Hdel end.
  unfold first_row, opt_rows. cbn [head]. rewrite decode_deletion_columns. destruct o as [|m i].
  - apply delete_role_deleted in Hdel as (s & m & Hp & Hb & Hm & Hi & Hr & Hg). do 6 eexists. by split_and!; try eassumption.
  - apply delete_role_used in Hdel as (-> & -> & -> & Hpos).
    rewrite !(proj2 (Z.leb_le 0 _)) by lia. do 2 eexists. by split_and!; try eassumption.
Qed.
(** ** Reading the audit log *)

Definition event_record (sa : Z * AuditRow) : AuditEventRecord :=
  mk_audit_event sa.1 (uuid_to_string <$> a_organization sa.2)
    (default (lit "system") (uuid_to_string <$> a_actor sa.2)) (a_action sa.2) (a_resource sa.2).1 (a_resource sa.2).2
    (lit (if a_succeeded sa.2 then "succeeded" else "failed")) (a_occurred_at_ms sa.2).
Lemma decode_audit_columns sa r :
  decode_audit (E := TE) (authorized_row (audit_columns sa)) = Ok r → r = event_record sa.
Proof.
  unfold decode_audit. intros E. change (u64_column _ "sequence") with (to_u64 (E := TE) sa.1) in E.
  change (u64_column _ "occurred_at_ms") with (to_u64 (E := TE) (a_occurred_at_ms sa.2)) in E.
  unfold to_u64, u64_try_from in E. destruct (0 <=? sa.1); [|done]. cbn [ok_or rbind] in E.
  replace (row_text _ (lit "organization_id"))
    with (Ok (E := RowDecodeError) (uuid_to_string <$> a_organization sa.2)) in E
    by (symmetry; apply pg_text_row; reflexivity).
  destruct (0 <=? a_occurred_at_ms sa.2); [|discriminate E]. injection E as <-. reflexivity.
Qed.
Lemma audit_row_present sa : i64_present (lit "sequence") (authorized_row (audit_columns sa)) = true.
Proof. reflexivity. Qed.
Lemma filter_left_join l : 
  List.filter (i64_present (lit "sequence")) (left_join audit_columns (Some l)) = map (λ a, authorized_row (audit_columns a)) l.
Proof.
  destruct l as [|a l]; [reflexivity|]. apply filterb_all, Forall_forall.
  intros row (sa & -> & _)%list_elem_of_fmap. apply audit_row_present.
Qed.

(** The audit log is read by those who may, completely and in order.  A
    page has at most a hundred records; at one moment of the call the session
    was live and either a system administrator's with a second factor or, for
    one organization, an active member's whose role views the audit log; the
    page holds exactly the first [limit] records after the cursor, of that
    organization or of all, in the order they were written; and reading on
    from the cursor it returns gives exactly the records that follow. *)
Theorem audit_page_exact (session_id : str) (organization_id : option str) (after_cursor limit : Z) (w w' : W)
    (page : AuditPage) (Hlimit : 0 ≤ limit) (Hafter : after_cursor ≤ i64_max)
    (Hrun : mg_list_audit_events session_id organization_id after_cursor limit w = (Ok page, w')) :
  ∃ d session org, let all := matching org after_cursor (audit d) in
    0 < limit ≤ 100 ∧ rtc kstep (database w) d ∧ rtc kstep d (database w')
    ∧ uuid_parse_str session_id = Some session ∧ (∀ o, organization_id = Some o → org = uuid_parse_str o)
    ∧ (organization_id = None → org = None)
    ∧ audit_authorized session org (service_now w) d = true
    ∧ ap_events page = map event_record (take (Z.to_nat limit) all)
    ∧ matching org (ap_next_cursor page) (audit d) = drop (Z.to_nat limit) all.
Proof.
  unfold mg_list_audit_events in Hrun. apply io_fail_Ok in Hrun as [Hl Hrun].
  apply orb_false_iff in Hl as [Hl0%Z.eqb_neq Hl1%Z.ltb_ge]. apply io_bind_Ok in Hrun as (o & w1 & Ho & Hrun).
  apply io_lift_Ok in Ho as [Ho ->].
  assert (∃ org, opt_uuid (pg_text o) = Some org ∧ (∀ t, organization_id = Some t → org = uuid_parse_str t)
          ∧ (organization_id = None → org = None)) as (org & Horg & Ho1 & Ho2).
  { destruct organization_id as [t|]; [|injection Ho as <-; by exists None].
    unfold rmap in Ho. destruct (parse_uuid t) as [u|] eqn:Eu; [|done]. injection Ho as <-.
    apply parse_uuid_Ok in Eu as (v & Hv & ->). exists (Some v). cbn. rewrite uuid_parse_to_string. split_and!; try done. congruence. }
  apply io_bind_Ok in Hrun as (n & w1 & [-> ->]%now_ms_Ok & Hrun). apply io_bind_Ok in Hrun as (rows & w1 & Q & Hrun).
  apply query_Ok in Q as (dr & d1 & d2 & Hd1 & Hex & Hd2). cbn [management_exec i64_value] in Hex.
  apply bind_Some in Hex as (session & Hs & Hex). rewrite Horg in Hex. cbn [mbind option_bind] in Hex. injection Hex as <- <-.
  unfold list_audit_events in Hrun. destruct (audit_authorized _ _ _ _) eqn:Ea; [|done].
  rewrite !u64_to_i64_id in Hrun by (unfold i64_max in *; lia).
  fold (matching org after_cursor (audit d1)) in Hrun.
  apply io_fail_Ok in Hrun as [_ Hrun]. apply io_bind_Ok in Hrun as (events & w2 & He & Hrun).
  apply io_lift_Ok in He as [He ->]. apply io_lift_Ok in Hrun as [[= <-] ->].
  rewrite filter_left_join in He. apply (collect_map_mapped _ _ event_record) in He as ->; [|apply decode_audit_columns].
  exists d1, session, org. cbv zeta. split_and!; try done; try lia; cbn [ap_events ap_next_cursor].
  rewrite <- (matching_continues org after_cursor (audit d1)). f_equal.
  rewrite (fmap_last event_record). by destruct (last (take _ _)).
Qed.
End services.

(** ** Slugs *)

(** Dashes only between other characters. *)
Record dashed (b : bool) (s : str) : Prop := {
  ds_chars c : c ∈ s → slug_char c = true;
  ds_double a r : s ≠ a ++ [45; 45] ++ r;
  ds_last a : s ≠ a ++ [45];
  ds_first : b = true → s ≠ [] ∧ ∀ r, s ≠ 45 :: r;
}.
Lemma alnum_not_dash c : is_ascii_lowercase c || is_ascii_digit c = true → c ≠ 45.
Proof. unfold is_ascii_lowercase, is_ascii_digit, in_range. lia. Qed.
Lemma dashed_alnum b c s : is_ascii_lowercase c || is_ascii_digit c = true → dashed b (c :: s) ↔ dashed false s.
Proof.
  intros Hc. pose proof (alnum_not_dash c Hc) as Hne. split.
  - intros [C D L F]. split; [|intros a r ->|intros a ->|done].
    + intros x Hx. apply C. by right.
    + by apply (D (c :: a) r).
    + by apply (L (c :: a)).
  - intros [C D L F]. split.
    + intros x [->|Hx]%elem_of_cons; [|auto]. unfold slug_char. by rewrite Hc.
    + intros [|x a] r [= -> E]; [done|]. by apply (D a r).
    + intros [|x a] [= -> E]; [done|]. by apply (L a).
    + intros _. split; [done|]. intros r [= ->]. done.
Qed.
Lemma dashed_dash b s : dashed b (45 :: s) ↔ b = false ∧ dashed true s.
Proof.
  split.
  - intros [C D L F]. assert (b = false) as -> by (destruct b; [|done]; destruct (F eq_refl) as [_ F']; by destruct (F' s)).
    split; [done|]. split; [|intros a r ->|intros a ->|intros _].
    + intros x Hx. apply C. by right.
    + by apply (D (45 :: a) r).
    + by apply (L (45 :: a)).
    + split; [intros ->; by apply (L [])|]. intros r ->. by apply (D [] r).
  - intros [-> [C D L F]]. destruct (F eq_refl) as [Hn Hd]. split; [|..|done].
    + intros x [->|Hx]%elem_of_cons; [done|auto].
    + intros [|x a] r [= E]; [by eapply Hd|subst; by apply (D a r)].
    + intros [|x a] [= E]; [done|subst; by apply (L a)].
Qed.
Lemma slug_tail_spec b s : slug_tail b s = true ↔ dashed b s.
Proof.
  revert b. induction s as [|c s IH]; intros b; cbn [slug_tail].
  - rewrite negb_true_iff. split.
    + intros ->. split; [by intros c ?%elem_of_nil|by intros [|? ?]..|done].
    + intros [_ _ _ F]. destruct b; [|done]. by destruct (F eq_refl).
  - destruct (is_ascii_lowercase c || is_ascii_digit c) eqn:Hc; [by rewrite IH, dashed_alnum|].
    destruct (Z.eqb_spec c 45) as [->|Hne]; cbn [andb].
    + by rewrite dashed_dash, andb_true_iff, negb_true_iff, IH.
    + split; [done|]. intros [C _ _ _]. specialize (C c ltac:(left)). unfold slug_char in C. rewrite Hc in C.
      by apply Z.eqb_eq in C.
Qed.

Lemma ends_with_dash s : ends_with (lit "-") s = true ↔ ∃ a, s = a ++ [45].
Proof.
  unfold ends_with. rewrite starts_with_spec. split.
  - intros [r E]. exists (reverse r). apply (f_equal reverse) in E. rewrite reverse_involutive in E. rewrite E.
    change (lit "-") with [45]. by rewrite reverse_app.
  - intros [a ->]. exists (reverse a). by rewrite reverse_app.
Qed.
Lemma slug_char_ascii c : slug_char c = true → c < 128.
Proof. unfold slug_char, is_ascii_lowercase, is_ascii_digit, in_range. lia. Qed.

(** The service and the database agree on slugs.  The conditions that the
    organization service checks (two to 48 bytes, a lowercase letter first,
    lowercase letters, digits and dashes, no dash at an end and no two in a
    row) hold of exactly the slugs that the table's constraint accepts, so a
    creation the service lets through is never refused for its slug. *)
Theorem slug_rules_agree (slug : str) : service_slug slug = slug_format slug.
Proof.
  apply eq_iff_eq_true. unfold service_slug, slug_format.
  destruct slug as [|c s]; [by vm_compute|]. cbn [head].
  assert (∀ l, forallb slug_char l = true → str_len l = Z.of_nat (length l)) as Hlen.
  { intros l Hl. unfold str_len. f_equal. f_equal. apply str_bytes_ascii. rewrite forallb_spec in Hl.
    apply Forall_forall. intros x Hx. by apply slug_char_ascii, Hl. }
  assert (is_ascii_lowercase c = true → (slug_tail false s = true ↔ forallb slug_char (c :: s) = true
     ∧ negb (starts_with (lit "-") (c :: s)) && negb (ends_with (lit "-") (c :: s)) && negb (contains_str (lit "--") (c :: s)) = true)) as Hs.
  { intros Hc. rewrite slug_tail_spec, <- (dashed_alnum true c) by (by rewrite Hc). split.
    - intros [C D L F]. split; [by apply forallb_spec|]. rewrite !andb_true_iff, !negb_true_iff. split_and!; apply not_true_iff_false.
      + rewrite starts_with_spec. intros [r E]. by apply (proj2 (F eq_refl) r).
      + rewrite ends_with_dash. intros [a E]. by apply (L a).
      + rewrite contains_str_spec. intros (a & r & E). by apply (D a r).
    - rewrite !andb_true_iff, !negb_true_iff. intros (C & (S & L) & D). rewrite forallb_spec in C. split.
      + done.
      + intros a r E. apply not_true_iff_false in D. apply D, contains_str_spec. by exists a, r.
      + intros a E. apply not_true_iff_false in L. apply L, ends_with_dash. by exists a.
      + intros _. split; [done|]. intros r [= -> E]. done. }
  rewrite !andb_true_iff. destruct (is_ascii_lowercase c) eqn:Hc; [|naive_solver].
  specialize (Hs eq_refl). rewrite !andb_true_iff in Hs. rewrite Hs.
  rewrite !Z.leb_le, !Nat.leb_le. split.
  - intros ((((((H2 & H48) & _) & C) & S) & L) & D). rewrite (Hlen _ C) in H2, H48. split_and!; done || lia.
  - intros ((H2 & H48) & _ & C & (S & L) & D). rewrite (Hlen _ C). split_and!; done || lia.
Qed.
