(* ===== verification/OrganizationExample.v ===== *)
(** * OrganizationExample: an organization, its owners and an invitation

    Runs of the management statements on a concrete database: Alice founds an
    organization, invites Bob to own it, Bob accepts and is demoted again.
    The theorems on owners and privileges apply to them.  The last run shows
    the exception they make: an owner who accepts an invitation to own is
    counted twice, and can then leave the organization without an owner. *)

From S2P Require Import KernelExample Owners ManagementProofs.
Open Scope Z_scope.

#[local] Arguments lit : simpl never.

Definition bob : Uuid := [2].
Definition desk : Uuid := [17].
Definition tablet : Uuid := [18].
Definition globex : Uuid := [19].
Definition before : Db :=
  mk_db {[ alice := mk_user (lit "alice@example.com") (lit "Alice@example.com") UActive 1 0;
           bob := mk_user (lit "bob@example.com") (lit "Bob@example.com") UActive 1 0 ]} ∅
    {[ desk := mk_session alice None DbAal2 1 1 9000000 None 0;
       tablet := mk_session bob None DbAal2 1 1 9000000 None 0 ]}
    ∅ ∅ ∅ ∅ (mk_directory ∅ ∅ ∅ ∅ ∅ ∅ ∅ None) [] (mk_outbox ∅ []).

Definition founding : OrgStatement :=
  CreateOrganization (mk_create_org (lit "key-1") (uuid_to_string desk) [1] globex (lit "Globex") desk [201] (lit "r1")
    1000 (lit "globex")) [101].
Definition inviting (email role : string) (invitation hash n : Z) : OrgStatement :=
  CreateInvitation desk globex (lit email) (lit role) [invitation]
    (mk_invite [hash] 8000000 [300 + n] (lit email ++ lit role) (lit "v1") [] [200 + n] (lit "r") (1000 + n)).
Definition accepting (session : Uuid) (hash n : Z) : OrgStatement :=
  AcceptInvitation session [hash] (1000 + n) [200 + n] (lit "r") [100 + n].
Definition demoting : OrgStatement := AssignRole desk globex bob MEMBER 1006 [206] (lit "r") [106].

(** The state after a statement, when it runs. *)
Definition after (stmt : OrgStatement) (d : Db) : Db := default d (org_run stmt d).
Definition runs (stmt : OrgStatement) (d : Db) : bool := match org_run stmt d with Some _ => true | None => false end.
Lemma runs_after stmt d : runs stmt d = true → org_run stmt d = Some (after stmt d).
Proof. unfold runs, after. by destruct (org_run stmt d). Qed.

Definition founded : Db := after founding before.
Definition asked : Db := after (inviting "bob@example.com" "owner" 31 41 2) founded.
Definition shared : Db := after (accepting tablet 41 3) asked.
Definition alone : Db := after demoting shared.

Lemma before_owned : owned before.
Proof.
  split; [split|]; unfold role_of, orgs, members, grants; cbn; intros *.
  all: rewrite ?lookup_empty; try done; try (by intros []).
Qed.
Lemma founded_run : org_run founding before = Some founded.
Proof. apply runs_after. vm_compute. reflexivity. Qed.
Lemma asked_run : org_run (inviting "bob@example.com" "owner" 31 41 2) founded = Some asked.
Proof. apply runs_after. vm_compute. reflexivity. Qed.
Lemma shared_run : org_run (accepting tablet 41 3) asked = Some shared.
Proof. apply runs_after. vm_compute. reflexivity. Qed.
Lemma alone_run : org_run demoting shared = Some alone.
Proof. apply runs_after. vm_compute. reflexivity. Qed.

(** ** Executable checks *)

Definition owns_check (org user : Uuid) (d : Db) : bool :=
  match members d !! (org, user) with Some m => is_owner m | None => false end.
Lemma owns_check_spec org user d : owns_check org user d = true ↔ owns org user d.
Proof. rewrite owns_iff. unfold owns_check. destruct (members d !! (org, user)); naive_solver. Qed.
Definition newcomer (session : Uuid) (hash : list Z) (d : Db) : bool :=
  match invitation_of hash d, sessions d !! session with
  | Some (_, i), Some s => match members d !! (i_organization i, s_user s) with None => true | Some _ => false end
  | _, _ => false
  end.
Lemma newcomer_counts_once session hash now aid rid id d :
  newcomer session hash d = true → counts_once (AcceptInvitation session hash now aid rid id) d.
Proof.
  unfold newcomer, counts_once. intros Hn k i s Hi Hs _. rewrite Hi, Hs in Hn. by destruct (members d !! _).
Qed.
Definition revisions_check (d : Db) : bool :=
  forallb (λ ko, match revisions d !! uuid_to_string ko.1 with Some _ => true | None => false end) (map_to_list (orgs d)).
Lemma revisions_check_spec d : revisions_check d = true → revisions_there d.
Proof.
  unfold revisions_check. rewrite forallb_spec. intros Hc o [r Ho]. specialize (Hc (o, r)). cbn in Hc.
  rewrite elem_of_map_to_list in Hc. specialize (Hc Ho). by destruct (revisions d !! _).
Qed.

(** ** The theorems at work *)

Lemma founded_owned : owned founded.
Proof. eapply managed_owned, before_owned. by eapply (m_statement _ _ founding), founded_run. Qed.
Lemma asked_owned : owned asked.
Proof. eapply managed_owned, founded_owned. by eapply m_statement, asked_run. Qed.
Lemma asked_newcomer : newcomer tablet [41] asked = true.
Proof. vm_compute. reflexivity. Qed.
Lemma shared_owned : owned shared.
Proof. eapply managed_owned, asked_owned. eapply m_statement, shared_run; [done|]. by apply newcomer_counts_once, asked_newcomer. Qed.


Lemma bob_owns : owns globex bob shared.
Proof. apply owns_check_spec. vm_compute. reflexivity. Qed.
Lemma bob_demoted : ¬ owns globex bob alone.
Proof. rewrite <- owns_check_spec. vm_compute. discriminate. Qed.

Lemma management_privileged_witness :
  ∃ s u m r, sessions shared !! desk = Some s ∧ users shared !! s_user s = Some u ∧ live_session 1006 s u = true
    ∧ stepped_up s = true ∧ members shared !! (globex, s_user s) = Some m ∧ m_status m = MActive
    ∧ lit "member.manage" ∈ default ∅ (grants shared !! (globex, m_role m))
    ∧ local globex shared alone ∧ audit alone = audit shared ++ [r] ∧ recorded r globex desk s 1006.
Proof.
  apply (management_privileged demoting desk globex 1006 (lit "member.manage") shared alone).
  - reflexivity.
  - apply revisions_check_spec. vm_compute. reflexivity.
  - exact alone_run.
  - intros E. apply bob_demoted. rewrite E. exact bob_owns.
Defined.


Lemma ownership_lost_witness : lost_by shared globex bob demoting ∧ org_run demoting shared = Some alone.
Proof.
  split; [|exact alone_run].
  destruct (ownership_lost demoting shared alone globex bob (owned_wf shared shared_owned) alone_run bob_owns) as [Ho|Hl].
  - by destruct (bob_demoted Ho).
  - exact Hl.
Defined.

(** ** The exception *)

Definition self_invitation : list OrgStatement :=
  [founding; inviting "alice@example.com" "owner" 32 42 2; accepting desk 42 3;
   inviting "alice@example.com" "member" 33 43 4; accepting desk 43 5].
Fixpoint run_all (l : list OrgStatement) (d : Db) : option Db :=
  match l with [] => Some d | stmt :: l => d ← org_run stmt d; run_all l d end.
(** The number of owners and the owner count. *)
Definition owner_numbers (org : Uuid) (d : Db) : option (nat * Z) :=
  o ← active_organization org d;
  Some (size (owners org d), o_owner_count o).

(** An owner who accepts an invitation to own leaves the count wrong.
    From a database in order, the only owner of an organization invites
    herself to own it and accepts: the insert trigger counts her before the
    conflict turns the insert into an update, so the count is two.  Then she
    invites herself as a member and accepts: the guard lets her role go, and
    the active organization has no owner at all and a count of one. *)
Theorem self_invitation_orphans :
  owned before ∧ (d ← run_all (take 3 self_invitation) before; owner_numbers globex d) = Some (1%nat, 2)
  ∧ (d ← run_all self_invitation before; owner_numbers globex d) = Some (0%nat, 1).
Proof. split; [exact before_owned|]. vm_compute. split; reflexivity. Qed.

(** ** Runs of the management services

    The machine of [KernelExample] with the transport of the management
    services, started with the organization that Alice founded: she creates a
    role, deletes it, is refused the deletion of a role in use, and reads the
    audit log. *)

Definition machine_draws (m : Machine) : Draws :=
  mk_draws [1000; mc_draws m] [1001; mc_draws m] (λ org, 1002 :: mc_draws m :: org).
#[export] Instance managing : ManagementWorld Machine unit unit := {|
  mg_query := λ sql ps m,
    match management_exec sql ps (machine_draws m) (mc_db m) with
    | Some (out, d) => (Ok out, mk_machine d (mc_clock m) (mc_draws m))
    | None => (Err tt, m)
    end;
  violates_owner := λ _, false;
|}.
#[export] Instance managing_laws : ManagementWorldLaws Machine unit unit.
Proof.
  split. cbn. intros sql ps w r w' E. exists (mc_db w). split; [done|].
  destruct (management_exec sql ps (machine_draws w) (mc_db w)) as [[out d]|] eqn:Ex; injection E as <- <-; [left|by right].
  exists (machine_draws w), out, d. split_and!; [done|done|]. by intros out' [= <-].
Qed.

(** A run that succeeds. *)
Definition succeeds {E A} (m : io Machine E A) (w : Machine) : bool := match m w with (Ok _, _) => true | (Err _, _) => false end.
Lemma succeeds_Ok {E A} (m : io Machine E A) w : succeeds m w = true → ∃ a w', m w = (Ok a, w').
Proof. unfold succeeds. destruct (m w) as [[a|e] w']; eauto; done. Qed.

Definition office : Machine := mk_machine founded 5 0.
Definition desk_text : str := uuid_to_string desk.
Definition globex_text : str := uuid_to_string globex.
Definition editors : UpsertRoleRequest :=
  mk_upsert_role_request desk_text globex_text (lit "editor") (lit " Editors ")
    [lit "query.execute_mutation"; lit "dashboard.manage"] (lit "r9").

Lemma upsert_role_exact_witness :
  ∃ record w', mg_upsert_role editors office = (Ok record, w')
    ∧ ∃ permissions, rr_permissions record = permissions ∧ custom_set (ur_permissions editors) permissions
      ∧ (OWNERSHIP_TRANSFER ∉ permissions).
Proof.
  destruct (succeeds_Ok (mg_upsert_role editors) office) as (record & w' & Hrun); [vm_compute; reflexivity|].
  exists record, w'. split; [exact Hrun|].
  destruct (upsert_role_exact editors office w' record Hrun)
    as (d1 & d2 & session & org & s & m & permissions & _ & _ & _ & _ & _ & _ & _ & -> & Hc & Ht & _).
  exists permissions. split_and!; [reflexivity|exact Hc|exact Ht].
Defined.

(** After the role was made, it is deleted; the owner role is in use. *)
Definition staffed : Machine := (mg_upsert_role editors office).2.
Lemma delete_role_exact_witness :
  ∃ w' d1 d2 org s m, mg_delete_role desk_text globex_text (lit "editor") (lit "r10") staffed = (Ok tt, w')
    ∧ privileged_actor (lit "role.manage") desk org (service_now staffed) d1 = Some (s, m)
    ∧ role_of org (lit "editor") d2 = None.
Proof.
  destruct (succeeds_Ok (mg_delete_role desk_text globex_text (lit "editor") (lit "r10")) staffed) as ([] & w' & Hrun);
    [vm_compute; reflexivity|].
  destruct (delete_role_exact desk_text globex_text (lit "editor") (lit "r10") staffed w' (Ok tt) Hrun)
    as (d1 & d2 & session & org & s & m & _ & _ & Hs & _ & Hp & _ & _ & _ & Hr & _).
  unfold desk_text in Hs. rewrite uuid_parse_to_string in Hs. injection Hs as <-.
  exists w', d1, d2, org, s, m. split_and!; [exact Hrun|exact Hp|exact Hr].
Defined.

Lemma audit_page_exact_witness :
  ∃ page w' d, mg_list_audit_events desk_text (Some globex_text) 0 10 office = (Ok page, w')
    ∧ ap_events page = map event_record (take 10 (matching (Some globex) 0 (audit d))).
Proof.
  destruct (succeeds_Ok (mg_list_audit_events desk_text (Some globex_text) 0 10) office) as (page & w' & Hrun);
    [vm_compute; reflexivity|].
  destruct (audit_page_exact desk_text (Some globex_text) 0 10 office w' page ltac:(lia) ltac:(vm_compute; discriminate) Hrun)
    as (d & session & org & _ & _ & _ & _ & Ho & _ & _ & He & _).
  specialize (Ho _ eq_refl). unfold globex_text in Ho. rewrite uuid_parse_to_string in Ho. subst org.
  exists page, w', d. split; [exact Hrun|exact He].
Defined.
