(* ===== verification/TokenExample.v ===== *)
(** * TokenExample: a signing library, and runs of the token service

    Concrete libraries for which the laws of [JwtLaws] and [TokenCryptoLaws]
    hold, and the token service run on the machine of [KernelExample]: a pair
    is issued, refreshed twice and verified with and without a cache. *)

From S2P Require Import KernelExample TokenProofs.
Open Scope Z_scope.

(** ** A serial form *)

(** Values as lists of numbers that can be read back off the front. *)
Class Serial (A : Type) := {
  put : A → list Z;
  get : list Z → option (A * list Z);
  get_put : ∀ a rest, get (put a ++ rest) = Some (a, rest);
}.
#[export] Instance serial_Z : Serial Z :=
  {| put := λ z, [z]; get := λ l, match l with z :: l => Some (z, l) | [] => None end;
     get_put := λ a rest, eq_refl |}.
#[export] Instance serial_prod `{Serial A} `{Serial B} : Serial (A * B).
Proof.
  refine {| put := λ p, put p.1 ++ put p.2;
            get := λ l, '(a, l) ← get l; '(b, l) ← get l; Some ((a, b), l) |}.
  intros [a b] rest. cbn. rewrite <- app_assoc, get_put. cbn. by rewrite get_put.
Defined.
#[export] Instance serial_option `{Serial A} : Serial (option A).
Proof.
  refine {| put := λ o, match o with Some a => 1 :: put a | None => [0] end;
            get := λ l, match l with
                        | 1 :: l => '(a, l) ← get l; Some (Some a, l)
                        | 0 :: l => Some (None, l)
                        | _ => None
                        end |}.
  intros [a|] rest; cbn; [|done]. by rewrite get_put.
Defined.
Fixpoint get_many `{Serial A} (n : nat) (l : list Z) : option (list A * list Z) :=
  match n with
  | O => Some ([], l)
  | S n => '(a, l) ← get l; '(rest, l) ← get_many n l; Some (a :: rest, l)
  end.
Lemma get_many_put `{Serial A} (l : list A) rest :
  get_many (length l) (concat (map put l) ++ rest) = Some (l, rest).
Proof.
  induction l as [|a l IH]; cbn; [done|]. rewrite <- app_assoc, get_put. cbn. by rewrite IH.
Qed.
#[export] Instance serial_list `{Serial A} : Serial (list A).
Proof.
  refine {| put := λ l, Z.of_nat (length l) :: concat (map put l);
            get := λ l, match l with n :: l => get_many (Z.to_nat n) l | [] => None end |}.
  intros l rest. cbn. by rewrite Nat2Z.id, get_many_put.
Defined.
Definition read_back `{Serial A} (l : list Z) : option A :=
  match get l with Some (a, []) => Some a | _ => None end.
Lemma read_back_put `{Serial A} (a : A) : read_back (put a) = Some a.
Proof. unfold read_back. by rewrite <- (app_nil_r (put a)), get_put. Qed.

(** ** Libraries *)

(** Tokens without extra claims; a token carries everything it was made from. *)
Definition ClaimsTuple : Type :=
  (str * str * list str * Z * Z * str) * (option str * option str * list str * list str * option Z).
Definition claims_tuple (c : AccessTokenClaims) : ClaimsTuple :=
  ((cl_iss c, cl_sub c, cl_aud c, cl_exp c, cl_iat c, cl_jti c),
   (cl_tenant_id c, cl_session_id c, cl_roles c, cl_scope c, cl_auth_time c)).
Definition tuple_claims (t : ClaimsTuple) : AccessTokenClaims :=
  let '((iss, sub, aud, exp, iat, jti), (tenant, session, roles, scope, auth_time)) := t in
  mk_claims iss sub aud exp iat jti tenant session roles scope auth_time [].
Definition TokenTuple : Type := str * option str * list Z * ClaimsTuple.
Definition read_token (token : str) : option TokenTuple := read_back token.

Definition HOST_CLOCK : Z := 1000.
#[export] Instance example_jwt : JwtLibrary := {|
  EncodingKey := list Z;
  DecodingKey := list Z;
  provider_installed := true;
  jwt_encode := λ alg kid c key,
    match cl_extra c with
    | [] => Some (put ((algorithm_name alg, kid, key, claims_tuple c) : TokenTuple))
    | _ => None
    end;
  jwt_header_kid := λ token, (λ t, t.1.1.2) <$> read_token token;
  jwt_decode := λ token key v,
    match read_token token with
    | Some (alg, kid, key', t) =>
        let c := tuple_claims t in
        fail? negb (bool_decide (key' = key))
              || negb (existsb (λ a, bool_decide (algorithm_name a = alg)) (va_algorithms v))
              || negb (bool_decide (cl_iss c ∈ va_issuers v))
              || negb (existsb (λ a, bool_decide (a ∈ va_audiences v)) (cl_aud c)) with OtherJwtError ;;
        fail? cl_exp c <=? HOST_CLOCK with ExpiredSignature ;;
        Ok c
    | None => Err OtherJwtError
    end;
  jwt_decode_id := λ _ _ _, Err OtherJwtError;
  encoding_from_secret := λ s, s;
  decoding_from_secret := λ s, s;
  encoding_from_ec_der := λ s, s;
  decoding_from_ec_components := λ x y, None;
  jwk_value_of_encoding := λ _, None;
|}.

Lemma tuple_claims_inv c : cl_extra c = [] → tuple_claims (claims_tuple c) = c.
Proof. destruct c; cbn. by intros ->. Qed.
Lemma jwt_encode_read alg kid c (key : list Z) token :
  jwt_encode alg kid c key = Some token →
  cl_extra c = [] ∧ read_token token = Some (algorithm_name alg, kid, key, claims_tuple c).
Proof.
  cbn [jwt_encode example_jwt]. destruct (cl_extra c); [|done]. intros <-%(inj Some). split; [done|]. apply read_back_put.
Qed.

#[export] Instance example_jwt_laws : JwtLaws.
Proof.
  refine (Build_JwtLaws example_jwt (λ ek dk : list Z, ek = dk) (λ c, HOST_CLOCK < cl_exp c) _ _ _).
  - intros alg kid c key token [_ Hr]%jwt_encode_read. cbn [jwt_header_kid example_jwt]. by rewrite Hr.
  - intros alg kid c ek dk v token [Hx Hr]%jwt_encode_read <- Hexp Ha Hi (aud & Ha1 & Ha2).
    cbn [jwt_decode example_jwt]. rewrite Hr. cbv zeta. rewrite tuple_claims_inv by done.
    apply fail_Ok. split; [|apply fail_Ok; split; [by apply Z.leb_gt|done]].
    rewrite !orb_false_iff, !negb_false_iff. split_and!.
    + by apply bool_decide_true.
    + apply existsb_exists. exists alg. rewrite <- list_elem_of_In. by rewrite bool_decide_true.
    + by apply bool_decide_true.
    + apply existsb_exists. exists aud. rewrite <- list_elem_of_In. by rewrite bool_decide_true.
  - intros token dk v claims. cbn [jwt_decode example_jwt].
    destruct (read_token token) as [[[[alg kid] key] t]|]; [|done]. cbv zeta.
    intros [E [_ [= <-]]%fail_Ok]%fail_Ok. rewrite !orb_false_iff, !negb_false_iff in E.
    destruct E as [[_ Hi] Ha]. bprop. split; [done|]. apply existsb_exists in Ha as (a & Ha1 & Ha2).
    rewrite <- list_elem_of_In in Ha1. bprop. eauto.
Defined.

Definition ring_json : Value :=
  VArray [VObject (bmap_of_list [(lit "kid", VString (lit "key-1")); (lit "status", VString (lit "active"));
    (lit "alg", VString (lit "HS256")); (lit "secret", VString (replicate 32 97))])].
(** A tag of the key, the nonce and the associated data, then the message. *)
#[export] Instance example_crypto : TokenCrypto := {|
  sha256 := λ bytes, 7 :: bytes;
  aead_encrypt := λ key nonce aad m, Some (put (key, nonce, aad, m));
  aead_decrypt := λ key nonce aad c,
    '(key', nonce', aad', m) ← read_back c;
    if bool_decide ((key', nonce', aad') = (key, nonce, aad)) then Some m else None;
  base64_url_encode := print_letters;
  base64_url_decode := parse_letters;
  base64_standard_decode := λ _, None;
  json_from_str := λ s, if bool_decide (s = lit "keys") then Some ring_json else None;
|}.
#[export] Instance example_codec : ResponseCodec := {|
  response_to_vec := λ t, Some (put (tp_access_token t, tp_refresh_token t, tp_expires_in_seconds t));
  response_from_slice := λ b, (λ '(a, r, e), mk_pair a r e) <$> read_back b;
|}.
#[export] Instance example_crypto_laws : TokenCryptoLaws.
Proof.
  split; cbn [aead_encrypt aead_decrypt response_to_vec response_from_slice example_crypto example_codec].
  - intros key nonce aad m c <-%(inj Some). rewrite read_back_put. cbn. by rewrite bool_decide_true.
  - intros key nonce aad m c <-%(inj Some). by cbn.
  - intros [a r e] bytes <-%(inj Some). by rewrite read_back_put.
Qed.

(** ** Runs *)

Definition succeeds {E A} (m : io Machine E A) (w : Machine) : bool :=
  match (m w).1 with Ok _ => true | Err _ => false end.
Definition run_of {E A} (m : io Machine E A) (w : Machine) (fallback : A) : A * Machine :=
  (match (m w).1 with Ok a => a | Err _ => fallback end, (m w).2).
Lemma run_of_Ok {E A} (m : io Machine E A) w fallback :
  succeeds m w = true → m w = (Ok (run_of m w fallback).1, (run_of m w fallback).2).
Proof. unfold succeeds, run_of. by destruct (m w) as [[a|e] w']. Qed.
Definition no_pair : TokenPair := mk_pair [] [] 0.

Definition ring : JwtKeyRing := match JwtKeyRing_from_json (lit "keys") false with Ok r => r | Err _ => mk_ring [] 0 end.
Definition policy : TokenServiceConfig :=
  match TokenServiceConfig_new (lit "https://auth.example.com") (lit "api") 600 3600 7200 with
  | Ok c => c | Err _ => mk_token_config [] [] 0 0 0
  end.
Definition service : TokenService := mk_token_service ring (mk_sealing_key (lit "v1") (replicate 32 5)) policy.
Definition verifier : AccessTokenVerifier := mk_verifier ring (lit "https://auth.example.com") (lit "api").
Definition laptop_id : str := uuid_to_string laptop.

(** A pair for the laptop at 1000 s, and two refreshes of it. *)
Definition before : Machine := mk_machine start 1000 1.
Definition issuing := issue service laptop_id (lit "r1").
Strategy expand [issuing].
Definition issued : TokenPair * Machine := run_of issuing before no_pair.
Definition refreshing := refresh service (Some laptop_id) (tp_refresh_token issued.1) (lit "r2").
Strategy expand [refreshing].
Definition first : TokenPair * Machine := run_of refreshing issued.2 no_pair.
Definition refreshing_again := refresh service None (tp_refresh_token issued.1) (lit "r3").
Strategy expand [refreshing_again].
Definition second : TokenPair * Machine := run_of refreshing_again first.2 no_pair.

Lemma issued_run : issue service laptop_id (lit "r1") before = (Ok issued.1, issued.2).
Proof.
  pose proof (run_of_Ok issuing before no_pair ltac:(vm_compute; reflexivity)) as E.
  unfold issuing at 1 in E. exact E.
Qed.
Lemma first_run : refresh service (Some laptop_id) (tp_refresh_token issued.1) (lit "r2") issued.2 = (Ok first.1, first.2).
Proof.
  pose proof (run_of_Ok refreshing issued.2 no_pair ltac:(vm_compute; reflexivity)) as E.
  unfold refreshing at 1 in E. exact E.
Qed.
Lemma second_run : refresh service None (tp_refresh_token issued.1) (lit "r3") first.2 = (Ok second.1, second.2).
Proof.
  pose proof (run_of_Ok refreshing_again first.2 no_pair ltac:(vm_compute; reflexivity)) as E.
  unfold refreshing_again at 1 in E. exact E.
Qed.

(** Both refreshes succeed, the first rotates and the second replays. *)
Lemma refreshes_agree_witness : second.1 = first.1 ∧ tp_refresh_token first.1 ≠ tp_refresh_token issued.1.
Proof.
  split; [|by vm_compute].
  exact (refreshes_agree service (Some laptop_id) None (tp_refresh_token issued.1) (lit "r2") (lit "r3")
    issued.2 first.2 first.2 second.2 first.1 second.1 first_run (rtc_refl _ _) second_run).
Defined.
Lemma refresh_was_allowed_witness :
  ∃ d r, rtc kstep (database issued.2) d
    ∧ refresh_tokens d !! sha256 (str_bytes (tp_refresh_token issued.1)) = Some r ∧ rt_revoked_at_ms r = None.
Proof.
  destruct (refresh_was_allowed service (Some laptop_id) (tp_refresh_token issued.1) (lit "r2")
    issued.2 first.2 first.1 first_run) as (d1 & d2 & now & r & s & u & Hd & _ & Hr & _ & _ & Hrev & _).
  exists d1, r. exact (conj Hd (conj Hr Hrev)).
Defined.

(** The pair made for a loaded session. *)
Definition no_session : VerifiedSession :=
  mk_verified_session (mk_request_context (mk_auth_context (mk_principal [] [] false) None [] [] Aal1 0 0 None None)
    (mk_snapshot [] [] None None)) [] (mk_fingerprint [] [] None [] 0 0 0 None None None false).
Definition loading : io Machine (PostgresStoreError unit) VerifiedSession :=
  load_verified_session laptop_id (lit "r1") 1000.
Definition loaded : VerifiedSession := (run_of loading before no_session).1.
Definition pairing := token_pair service loaded (lit "refresh") 1000.
Strategy expand [pairing].
Definition paired : TokenPair * Machine := run_of pairing before no_pair.
Lemma paired_run : token_pair service loaded (lit "refresh") 1000 before = (Ok paired.1, paired.2).
Proof.
  pose proof (run_of_Ok pairing before no_pair ltac:(vm_compute; reflexivity)) as E.
  unfold pairing at 1 in E. exact E.
Qed.

Lemma access_token_lifetime_bounded_witness :
  tp_expires_in_seconds paired.1 = 600 ∧ 1 ≤ tp_expires_in_seconds paired.1 ≤ 600.
Proof.
  split; [vm_compute; reflexivity|].
  destruct (access_token_lifetime_bounded service loaded (lit "refresh") 1000 before paired.2 paired.1
    (lit "https://auth.example.com") (lit "api") 600 3600 7200 eq_refl paired_run)
    as (key & ek & claims & _ & _ & _ & _ & _ & Hb & _).
  exact Hb.
Defined.

(** The access token of the pair verifies, with and without a cache. *)
Definition no_token : VerifiedAccessToken :=
  mk_verified_token [] None [] [] [] None [] false 0 0 (mk_fingerprint [] [] None [] 0 0 0 None None None false).
Definition verifying := verify_access_token ring (lit "https://auth.example.com") (lit "api")
  (tp_access_token issued.1) (lit "r4").
Strategy expand [verifying].
Definition verified : VerifiedAccessToken * Machine := run_of verifying issued.2 no_token.
Lemma verified_run : verify_access_token ring (lit "https://auth.example.com") (lit "api")
  (tp_access_token issued.1) (lit "r4") issued.2 = (Ok verified.1, verified.2).
Proof.
  pose proof (run_of_Ok verifying issued.2 no_token ltac:(vm_compute; reflexivity)) as E.
  unfold verifying at 1 in E. exact E.
Qed.
Lemma verified_token_is_current_witness :
  vt_permissions verified.1 = [lit "doc.read"; lit "doc.write"]
  ∧ ∃ decoded d, rtc kstep (database issued.2) d
      ∧ token_true decoded (u64_to_i64 (u64_saturating_mul (clock_now issued.2) 1000)) d verified.1.
Proof.
  split; [vm_compute; reflexivity|].
  destruct (verified_token_is_current ring (lit "https://auth.example.com") (lit "api")
    (tp_access_token issued.1) (lit "r4") issued.2 verified.2 verified.1 verified_run)
    as (decoded & d & _ & Hd & _ & Hv).
  exists decoded, d. exact (conj Hd Hv).
Defined.

Definition verifying_cached := verify_cached verifier (tp_access_token issued.1) (lit "r5") (Some verified.1).
Strategy expand [verifying_cached].
Definition verified_again : VerifiedAccessToken * Machine := run_of verifying_cached verified.2 no_token.
Lemma verified_again_run : verify_cached verifier (tp_access_token issued.1) (lit "r5") (Some verified.1) verified.2 = (Ok verified_again.1, verified_again.2).
Proof.
  pose proof (run_of_Ok verifying_cached verified.2 no_token ltac:(vm_compute; reflexivity)) as E.
  unfold verifying_cached at 1 in E. exact E.
Qed.
Definition decoded : DecodedAccessToken :=
  match decode_verified_access_token (tp_access_token issued.1) ring (lit "https://auth.example.com") (lit "api") with
  | Ok t => t | Err _ => mk_decoded (for_user [] [] [] 0 0 []) [] []
  end.
Definition loaded_row : option ContextRow :=
  load_request_context laptop (u64_to_i64 (u64_saturating_mul 1000 1000)) (dt_kid decoded) (database verified.2).
Lemma verified_justified : justified verified.1 (database verified.2).
Proof.
  assert (is_Some loaded_row) as [c Hc] by (vm_compute; eauto).
  exists decoded, 1000, c. split; [exists laptop; split_and!|].
  - vm_compute. reflexivity.
  - exact Hc.
  - vm_compute. reflexivity.
  - vm_compute in Hc. injection Hc as <-. vm_compute. reflexivity.
  - vm_compute in Hc. injection Hc as <-. vm_compute. reflexivity.
  - vm_compute in Hc. injection Hc as <-. cbn. split; intros; destruct_and?; eauto.
  - vm_compute in Hc. injection Hc as <-. vm_compute. reflexivity.
Qed.

Lemma ring_run : JwtKeyRing_from_json (lit "keys") false = Ok ring.
Proof. vm_compute. reflexivity. Qed.
Lemma ring_is_wf : ring_wf ring.
Proof. by apply (from_json_ring (lit "keys") false). Qed.
Lemma issued_token_decodes_witness :
  ∃ claims key, active ring = Some key
    ∧ decode_verified_access_token (tp_access_token paired.1) ring (lit "https://auth.example.com") (lit "api")
      = Ok (mk_decoded claims laptop_id (key_kid key)).
Proof.
  assert (validate_identifier (ctx_session_id (rc_auth (vs_context loaded))) = Ok tt) as Hsid
    by (vm_compute; reflexivity).
  assert (∀ k, k ∈ ring_keys ring → trim (key_kid k) ≠ []) as Hkid.
  { intros k Hk. apply list_elem_of_singleton in Hk as ->. by vm_compute. }
  assert (∀ k ek, k ∈ ring_keys ring → key_encoding k = Some ek → key_pair ek (key_decoding k)) as Hpairs.
  { intros k ek Hk. apply list_elem_of_singleton in Hk as ->. vm_compute. congruence. }
  destruct (issued_token_decodes service loaded (lit "refresh") 1000 before paired.2 paired.1 ring_is_wf Hkid
    Hpairs (λ c Hc, Hc) Hsid paired_run) as (claims & key & Ha & Hd & _).
  assert (ctx_session_id (rc_auth (vs_context loaded)) = laptop_id) as Hid by (vm_compute; reflexivity).
  exists claims, key. split; [exact Ha|]. rewrite <- Hid. exact Hd.
Defined.
Lemma key_ring_one_signer_witness :
  ring_wf ring ∧ map key_kid (ring_keys (apply_statuses [(lit "key-1", lit "retired")] ring).2) = [lit "key-1"].
Proof.
  destruct (key_ring_one_signer (lit "keys") false ring [(lit "key-1", lit "retired")]
    (apply_statuses [(lit "key-1", lit "retired")] ring).1 (apply_statuses [(lit "key-1", lit "retired")] ring).2
    ring_run (surjective_pairing _)) as (Hwf & _ & _ & Hk & _).
  split; [exact Hwf|]. rewrite Hk. reflexivity.
Defined.
