(* ===== verification/CredentialExample.v ===== *)
(** * CredentialExample: runs of the credential services

    A machine that executes the statements on the whole database, libraries
    for which the laws hold, and runs on it: Alice enrolls TOTP, confirms it,
    steps up twice and redeems recovery codes; she registers a passkey and logs
    in with it; and she logs in twice with an identity of a provider. *)

From S2P Require Import KernelExample TokenExample MfaProofs OAuthProofs PasskeyProofs Mfa.
Open Scope Z_scope.

#[local] Arguments lit : simpl never.

(** ** The machine *)

Record AuthMachine := mk_auth_machine { am_db : AuthDb; am_clock : Z; am_draws : Z }.
Definition with_db (m : AuthMachine) (d : AuthDb) : AuthMachine := mk_auth_machine d (am_clock m) (am_draws m).
Definition at_clock (n : Z) (m : AuthMachine) : AuthMachine := mk_auth_machine (am_db m) n (am_draws m).
#[export] Instance auth_machine : KernelWorld AuthMachine unit unit := {|
  database := λ m, kernel (am_db m);
  clock_now := λ m, Z.max 0 (Z.min u64_max (am_clock m));
  random_bytes := λ n m,
    (Ok (replicate n (am_draws m)), mk_auth_machine (am_db m) (am_clock m) (am_draws m + 1));
  pg_query := λ sql ps m,
    if draws_unused sql ps (kernel (am_db m)) then
      match kernel_exec sql ps (kernel (am_db m)) with
      | Some (out, k) => (Ok out, with_db m (set_kernel k (am_db m)))
      | None => (Err tt, m)
      end
    else (Err tt, m);
|}.
#[export] Instance auth_machine_laws : KernelWorldLaws AuthMachine unit unit.
Proof.
  split; cbn.
  - by intros n w r w' [= <- <-].
  - intros n w bytes w' [= <- <-]. apply length_replicate.
  - intros sql ps w r w' E. exists (kernel (am_db w)). split; [done|].
    destruct (draws_unused sql ps _) eqn:Ed; [|injection E as <- <-; by right].
    destruct (kernel_exec sql ps _) as [[out k]|] eqn:Ex; injection E as <- <-; [left|by right].
    exists out, k. split_and!; [done|by apply draws_unused_fresh|done|]. by intros out' [= <-].
Qed.
#[export] Instance auth_world : AuthWorld AuthMachine unit unit := {|
  auth_database := am_db;
  au_query := λ sql ps m,
    match auth_exec sql ps (am_db m) with
    | Some (out, d) => (Ok out, with_db m d)
    | None => (Err tt, m)
    end;
|}.
#[export] Instance auth_world_laws : AuthWorldLaws AuthMachine unit unit.
Proof.
  split; cbn.
  - done.
  - intros w. unfold is_u64, u64_max. lia.
  - by intros n w r w' [= <- <-].
  - intros sql ps w r w' E. destruct (draws_unused sql ps _) eqn:Ed; [|by injection E as <- <-].
    destruct (kernel_exec sql ps _) as [[out k]|] eqn:Ex; injection E as <- <-; [|done].
    apply ksteps_asteps. eapply kernel_exec_steps; [exact Ex|by apply draws_unused_fresh].
  - intros sql ps w r w' E. exists (am_db w). split; [done|].
    destruct (auth_exec sql ps (am_db w)) as [[out d]|] eqn:Ex; injection E as <- <-; [left|by right].
    exists out, d. split_and!; [done|done|]. by intros out' [= <-].
Qed.

(** A run, with its result when it succeeds. *)
Definition works {E A} (m : io AuthMachine E A) (w : AuthMachine) : bool :=
  match (m w).1 with Ok _ => true | Err _ => false end.
Definition ran {E A} (m : io AuthMachine E A) (w : AuthMachine) (fallback : A) : A * AuthMachine :=
  (match (m w).1 with Ok a => a | Err _ => fallback end, (m w).2).
Lemma ran_Ok {E A} (m : io AuthMachine E A) w fallback :
  works m w = true → m w = (Ok (ran m w fallback).1, (ran m w fallback).2).
Proof. unfold works, ran. by destruct (m w) as [[a|e] w']. Qed.

(** ** Libraries *)

(** A code is the number of its step; the keyed hash of a code is the code. *)
#[export] Instance example_mfa : MfaCrypto.
Proof.
  refine {| hmac_sha1 := λ _ message, take 20 (drop 4 message ++ replicate 20 0);
            hmac_sha256 := λ _ message, map (λ b, b mod 256) message |}.
  - intros _ message. rewrite length_take, length_app, length_replicate. lia.
  - intros _ message. apply Forall_forall. intros b (x & -> & _)%list_elem_of_fmap. apply Z.mod_pos_bound. lia.
Defined.
#[export] Instance example_oauth_codec : OAuthCodec := {|
  oauth_payload_to_vec := λ p,
    Some (put (op_provider_id p, op_redirect_path p, op_nonce p, op_pkce_verifier p));
  oauth_payload_from_slice := λ b, (λ '(p, r, n, v), mk_oauth_payload p r n v) <$> read_back b;
  profile_to_vec := λ _, Some [];
|}.
(** Credentials are an identifier and a counter; a response names both. *)
#[export] Instance example_webauthn : WebauthnLibrary := {|
  Webauthn := unit; Attachment := unit; RegistrationState := Z; AuthenticationState := Z;
  RegistrationResponse := str; AuthenticationResponse := str * Z; PasskeyCredential := list Z * Z;
  webauthn_new := λ _ _ _ _ _ _, tt;
  passkey_id := fst; passkey_counter := snd; passkey_transports := λ _, [];
  with_counter := λ c n, (c.1, n);
  response_id := fst;
  credential_id_from_b64url := Some;
  registration_response_from_str := Some;
  authentication_response_from_str := λ s, match s with n :: id => Some (id, n) | [] => None end;
  verify_registration := λ _ _ response, Some (response, 0);
  verify_authentication := λ _ _ response credential,
    if bool_decide (response.1 = credential.1) && (credential.2 <? response.2) then Some response.2 else None;
  credential_to_vec := λ c, Some (put c);
  credential_from_slice := read_back;
|}.
#[export] Instance example_passkey_codec : PasskeyCodec := {|
  passkey_flow_to_vec := λ f,
    Some match f with
         | StoredRegistration state user email path => put (0, state, user, email, path)
         | StoredAuthentication state user email path => put (1, state, user, email, path)
         end;
  passkey_flow_from_slice := λ b,
    '(tag, state, user, email, path) ← read_back b;
    Some (if tag =? 0 then StoredRegistration state user email path else StoredAuthentication state user email path);
|}.
#[export] Instance example_passkey_laws : PasskeyLaws.
Proof.
  split; cbn [with_counter passkey_id passkey_counter passkey_flow_to_vec passkey_flow_from_slice credential_to_vec
    credential_from_slice example_webauthn example_passkey_codec PasskeyCredential RegistrationState AuthenticationState]; try done.
  - intros [state user email path|state user email path] bytes <-%(inj Some); by rewrite read_back_put.
  - intros c bytes <-%(inj Some). apply read_back_put.
Qed.
#[export] Instance example_passkey_world : PasskeyWorld AuthMachine := {|
  start_registration_options := λ _ _ _ _ _ m, (Some (lit "{}"), am_draws m, m);
  start_authentication_options := λ _ _ _ m, (Some (lit "{}"), am_draws m, m);
|}.

(** ** The first state *)

Definition vault : AuthDb := mk_auth_db start ∅ ∅ ∅ ∅ ∅ ∅ {[ lit "/" ]}.
Definition desktop : AuthMachine := mk_auth_machine vault 1000 1.
Lemma vault_wf : credentials_wf vault.
Proof. split; cbn; intros *; by rewrite lookup_empty. Qed.
Definition laptop_session : str := uuid_to_string laptop.
Lemma laptop_parses : uuid_parse_str laptop_session = Some laptop.
Proof. apply uuid_parse_to_string. Qed.

(** ** TOTP and recovery codes *)

Definition mfa : MfaService :=
  mk_mfa_service (mk_mfa_keys (lit "v1") (replicate 32 3) (replicate 16 4)) TotpConfig_default (lit "Example").
Definition no_enrollment : TotpEnrollment := mk_enrollment [] [].
Definition enrolling := mfa_start mfa laptop_session (lit "r1").
Definition enrolled : TotpEnrollment * AuthMachine := ran enrolling desktop no_enrollment.
Lemma enrolled_run : enrolling desktop = (Ok enrolled.1, enrolled.2).
Proof. unfold enrolled. apply (ran_Ok enrolling). vm_compute. reflexivity. Qed.
Lemma enrollment_roundtrip_witness :
  ∃ secret account, te_secret_base32 enrolled.1 = encode_base32 secret
    ∧ provisioning_uri (mfa_issuer mfa) account secret (mfa_config mfa) = Ok (te_provisioning_uri enrolled.1).
Proof.
  destruct (enrollment_roundtrip mfa laptop_session (lit "r1") desktop enrolled.2 enrolled.1 enrolled_run)
    as (secret & account & session & s & f & d1 & d2 & _ & Hb & Hu & _).
  exists secret, account. split; [exact Hb|exact Hu].
Defined.

(** The code of the step at 1000 s, which is step 33. *)
Definition confirming := confirm mfa laptop_session (lit "000033") (lit "r2").
Definition confirmed : TotpConfirmation * AuthMachine := ran confirming enrolled.2 (mk_confirmation []).
Lemma confirmed_run : confirming enrolled.2 = (Ok confirmed.1, confirmed.2).
Proof. unfold confirmed. apply (ran_Ok confirming). vm_compute. reflexivity. Qed.
Lemma confirmation_outcomes_witness :
  length (tc_recovery_codes confirmed.1) = RECOVERY_CODE_COUNT.
Proof.
  destruct (confirmation_outcomes mfa laptop_session (lit "000033") (lit "r2") enrolled.2 confirmed.2 confirmed.1
    ltac:(vm_compute; discriminate) confirmed_run)
    as (factor & w1 & secret & step & hashes & session & s & d1 & d2 & now & _ & _ & _ & _ & Hlen & _).
  exact Hlen.
Defined.

(** Runs that follow: the same machine, later. *)
Lemma run_wf {E A} (m : io AuthMachine E A) w r w' :
  asafe m → m w = (r, w') → credentials_wf (am_db w) → credentials_wf (am_db w').
Proof. intros Hs Hm Hwf. exact (proj1 (asteps_keep _ _ (Hs w r w' Hm) Hwf)). Qed.
Lemma confirmed_wf : credentials_wf (am_db confirmed.2).
Proof.
  eapply run_wf; [apply (asafe_confirm mfa)|exact confirmed_run|].
  eapply run_wf; [apply (asafe_mfa_start mfa)|exact enrolled_run|]. exact vault_wf.
Qed.
Definition stepping (code : string) (rid : string) := verify_step_up mfa laptop_session (lit code) (lit rid).
Definition once : AuthMachine := (stepping "000034" "r3" (at_clock 1010 confirmed.2)).2.
Definition twice : AuthMachine := (stepping "000035" "r4" (at_clock 1050 once)).2.
Lemma works_unit {E} (m : io AuthMachine E unit) w : works m w = true → m w = (Ok tt, (m w).2).
Proof. unfold works. by destruct (m w) as [[[]|e] w']. Qed.
Lemma once_run : stepping "000034" "r3" (at_clock 1010 confirmed.2) = (Ok tt, once).
Proof. unfold once. apply (works_unit (stepping "000034" "r3")). vm_compute. reflexivity. Qed.
Lemma twice_run : stepping "000035" "r4" (at_clock 1050 once) = (Ok tt, twice).
Proof. unfold twice. apply (works_unit (stepping "000035" "r4")). vm_compute. reflexivity. Qed.

Lemma step_up_exact_witness :
  ∃ secret step session, uuid_parse_str laptop_session = Some session
    ∧ hits hmac_sha1 secret (str_bytes (lit "000034")) (digits (mfa_config mfa)) step.
Proof.
  assert (1 ≤ period_seconds (mfa_config mfa)) as Hp by (vm_compute; discriminate).
  destruct (step_up_exact mfa laptop_session (lit "000034") (lit "r3") (at_clock 1010 confirmed.2) once Hp once_run)
    as (factor & w1 & secret & step & session & d1 & d2 & s & f & _ & _ & (_ & Hhit & _) & Hs & _).
  exists secret, step, session. split; [exact Hs|exact Hhit].
Defined.

(** A session that is in the table. *)
Definition has_session (session : Uuid) (w : AuthMachine) : bool := bool_decide (is_Some (sessions (database w) !! session)).
Lemma has_session_Some session w : has_session session w = true → ∃ s, sessions (database w) !! session = Some s.
Proof. unfold has_session. intros [s Hs]%bool_decide_eq_true. eauto. Qed.

Lemma at_clock_db n w : auth_database (at_clock n w) = auth_database w.
Proof. reflexivity. Qed.
#[local] Opaque enrolled confirmed once twice.

Lemma totp_steps_increase_witness :
  ∃ secret step1 step2 factor1 factor2 v1 v2,
    load_factor (TE := unit) laptop_session (at_clock 1010 confirmed.2) = (Ok factor1, v1)
    ∧ decrypt (mfa_keys mfa) factor1 = Some secret
    ∧ load_factor (TE := unit) laptop_session (at_clock 1050 once) = (Ok factor2, v2)
    ∧ decrypt (mfa_keys mfa) factor2 = Some secret
    ∧ matched_step secret (lit "000034") (mfa_config mfa) (clock_now v1) step1
    ∧ matched_step secret (lit "000035") (mfa_config mfa) (clock_now v2) step2
    ∧ step1 < step2.
Proof.
  destruct (has_session_Some laptop twice) as [s Hs]; [vm_compute; reflexivity|].
  apply (totp_steps_increase mfa laptop_session laptop_session (lit "000034") (lit "000035") (lit "r3") (lit "r4")
    (at_clock 1010 confirmed.2) once (at_clock 1050 once) twice laptop laptop s s).
  - rewrite at_clock_db. exact confirmed_wf.
  - vm_compute. discriminate.
  - exact once_run.
  - rewrite at_clock_db. reflexivity.
  - exact twice_run.
  - exact laptop_parses.
  - exact laptop_parses.
  - exact Hs.
  - exact Hs.
  - reflexivity.
Defined.

(** The first two recovery codes. *)
Definition code_at (i : nat) : str := nth i (tc_recovery_codes confirmed.1) [].
Definition redeeming (i : nat) (rid : string) := mfa_use_recovery_code mfa laptop_session (code_at i) (lit rid).
Definition redeemed : AuthMachine := (redeeming 0 "r5" confirmed.2).2.
Definition redeemed_again : AuthMachine := (redeeming 1 "r6" redeemed).2.
Lemma redeemed_run : redeeming 0 "r5" confirmed.2 = (Ok tt, redeemed).
Proof. unfold redeemed. apply (works_unit (redeeming 0 "r5")). vm_compute. reflexivity. Qed.
Lemma redeemed_again_run : redeeming 1 "r6" redeemed = (Ok tt, redeemed_again).
Proof. unfold redeemed_again. apply (works_unit (redeeming 1 "r6")). vm_compute. reflexivity. Qed.
#[local] Opaque redeemed redeemed_again.
Lemma recovery_code_single_use_witness :
  normalize_recovery_code (code_at 0) ≠ normalize_recovery_code (code_at 1).
Proof.
  destruct (has_session_Some laptop redeemed_again) as [s Hs]; [vm_compute; reflexivity|].
  apply (recovery_code_single_use mfa laptop_session laptop_session (code_at 0) (code_at 1) (lit "r5") (lit "r6")
    confirmed.2 redeemed redeemed redeemed_again laptop laptop s s).
  - exact confirmed_wf.
  - exact redeemed_run.
  - reflexivity.
  - exact redeemed_again_run.
  - exact laptop_parses.
  - exact laptop_parses.
  - exact Hs.
  - exact Hs.
  - reflexivity.
Defined.

(** A confirmation whose factor was replaced meanwhile elevates the session
    and enables nothing. *)
Definition replaced : AuthDb := am_db enrolled.2.
Definition stale_confirmation : option (bool * AuthDb) :=
  confirm_totp_enrollment laptop [99] 1000000 [[1]; [2]] [77] (lit "r7") 33 replaced.
Theorem stale_confirmation_elevates :
  ((λ '(ok, d), (ok, totp_enabled alice d, (s_assurance <$> sessions (kernel d) !! laptop),
                 length (map_to_list (recovery_codes d)))) <$> stale_confirmation)
  = Some (true, false, Some DbAal2, 0%nat).
Proof. vm_compute. reflexivity. Qed.

(** ** Flows *)

Definition flow_key : FlowSealingKey := mk_flow_key (lit "f1") (replicate 32 8).
Definition no_flow : PendingFlow := mk_pending_flow [] None [] [].
Definition creating := flow_create flow_key OAuthFlow (Some (uuid_to_string alice)) [1; 2; 3] 600.
Definition created : str * AuthMachine := ran creating desktop [].
Lemma created_run : creating desktop = (Ok created.1, created.2).
Proof. unfold created. apply (ran_Ok creating). vm_compute. reflexivity. Qed.
Definition reading := flow_load flow_key OAuthFlow created.1.
Definition read_flow : PendingFlow * AuthMachine := ran reading created.2 no_flow.
Lemma read_run : reading created.2 = (Ok read_flow.1, read_flow.2).
Proof. unfold read_flow. apply (ran_Ok reading). vm_compute. reflexivity. Qed.
#[local] Opaque created read_flow.
Lemma flow_roundtrip_witness : pf_payload read_flow.1 = [1; 2; 3].
Proof.
  refine (proj1 (proj2 (flow_roundtrip flow_key OAuthFlow OAuthFlow (Some (uuid_to_string alice)) [1; 2; 3] 600
    created.1 read_flow.1 desktop created.2 created.2 read_flow.2 _ _ _ _))).
  - exact vault_wf.
  - exact created_run.
  - reflexivity.
  - exact read_run.
Defined.

(** ** OAuth *)

Definition oauth_config : OAuthServiceConfig := mk_oauth_config 600 3600.
Definition starting := oauth_start flow_key oauth_config (lit "google") (lit "/").
Definition returning (state : str) := load_callback flow_key (lit "google") state.
Definition carol (email : string) : VerifiedOAuthIdentity :=
  mk_oauth_identity (lit "google") (lit "subject-1") (Some (lit email)) true (VObject []).
Definition no_start : OAuthStart := mk_oauth_start [] [] [].
Definition no_pending : PendingOAuthFlow := mk_pending_oauth no_flow (mk_oauth_payload [] [] [] []).
Definition no_completion : OAuthCompletion := mk_oauth_completion [] [] [] 0 [].
(** A visit to the provider: the callback state that comes back. *)
Definition visit (w : AuthMachine) : PendingOAuthFlow * AuthMachine :=
  let started := ran starting w no_start in ran (returning (os_state started.1)) started.2 no_pending.
Definition completing (pending : PendingOAuthFlow) (email rid : string) :=
  oauth_complete oauth_config pending (carol email) (lit rid).

Definition first_visit : PendingOAuthFlow * AuthMachine := visit desktop.
Definition first_login : OAuthCompletion * AuthMachine :=
  ran (completing first_visit.1 "carol@example.com" "r8") first_visit.2 no_completion.
Lemma first_login_run :
  completing first_visit.1 "carol@example.com" "r8" first_visit.2 = (Ok first_login.1, first_login.2).
Proof. unfold first_login. apply (ran_Ok (completing first_visit.1 "carol@example.com" "r8")). vm_compute. reflexivity. Qed.
Definition second_visit : PendingOAuthFlow * AuthMachine := visit first_login.2.
Definition second_login : OAuthCompletion * AuthMachine :=
  ran (completing second_visit.1 "other@example.com" "r9") second_visit.2 no_completion.
Lemma second_login_run :
  completing second_visit.1 "other@example.com" "r9" second_visit.2 = (Ok second_login.1, second_login.2).
Proof. unfold second_login. apply (ran_Ok (completing second_visit.1 "other@example.com" "r9")). vm_compute. reflexivity. Qed.
(** The first callback state, sent again. *)
Definition replayed := completing first_visit.1 "carol@example.com" "r10" first_login.2.

Lemma visit_steps w : rtc astep (am_db w) (am_db (visit w).2).
Proof.
  unfold visit, ran. cbv zeta. cbn [fst snd].
  assert (∀ s, asafe (W := AuthMachine) (returning s)) as Hr.
  { intros s. unfold returning, load_callback, flow_load, flow_query. asafe_walk. }
  assert (asafe (W := AuthMachine) starting) as Hs.
  { unfold starting, oauth_start, oauth_query, random_secret, flow_create, flow_fill, flow_query. asafe_walk. }
  etrans; [eapply (Hs w), surjective_pairing|eapply Hr, surjective_pairing].
Qed.
Lemma first_visit_wf : credentials_wf (am_db first_visit.2).
Proof. exact (proj1 (asteps_keep _ _ (visit_steps desktop) vault_wf)). Qed.
#[local] Opaque first_visit first_login second_visit second_login.

Lemma oauth_identity_stable_witness : oc_user_id first_login.1 = oc_user_id second_login.1.
Proof.
  apply (oauth_identity_stable oauth_config first_visit.1 second_visit.1 (carol "carol@example.com")
    (carol "other@example.com") (lit "r8") (lit "r9") first_visit.2 first_login.2 second_visit.2 second_login.2).
  - exact first_visit_wf.
  - exact first_login_run.
  - exact (visit_steps first_login.2).
  - exact second_login_run.
  - reflexivity.
  - reflexivity.
Defined.
Lemma oauth_callback_single_use_witness : oauth_decided replayed.1 = false.
Proof.
  apply (oauth_callback_single_use oauth_config first_visit.1 first_visit.1 (carol "carol@example.com")
    (carol "carol@example.com") (lit "r8") (lit "r10") first_visit.2 first_login.2 first_login.2 replayed.2
    (Ok first_login.1) replayed.1).
  - exact first_visit_wf.
  - exact first_login_run.
  - reflexivity.
  - reflexivity.
  - apply surjective_pairing.
  - reflexivity.
Defined.

(** ** Passkeys *)

Definition passkey_policy : PasskeyServiceConfig := mk_passkey_config tt 600 3600.
Definition no_passkey_start : PasskeyStart := mk_passkey_start [] [] [].
Definition no_passkey : PasskeyCompletion := mk_passkey_completion [] [] [] 0 [].
Definition asking := start_registration flow_key passkey_policy laptop_session (lit "r11") (lit "/").
Definition asked_key : PasskeyStart * AuthMachine := ran asking desktop no_passkey_start.
Definition registering_key :=
  finish_registration flow_key passkey_policy laptop_session (ks_challenge_id asked_key.1) (lit "key") (lit "r12") (lit "Key").
Definition registered_key : PasskeyCompletion * AuthMachine := ran registering_key asked_key.2 no_passkey.
Lemma registered_key_run : registering_key asked_key.2 = (Ok registered_key.1, registered_key.2).
Proof. unfold registered_key. apply (ran_Ok registering_key). vm_compute. reflexivity. Qed.

(** Alice asks for a challenge and answers it with counter 5. *)
Definition challenging := start_authentication flow_key passkey_policy (lit "alice@example.com") (lit "/").
Definition challenged : PasskeyStart * AuthMachine := ran challenging registered_key.2 no_passkey_start.
Definition answering (rid : string) :=
  finish_authentication flow_key passkey_policy (ks_challenge_id challenged.1) (5 :: lit "key") (lit rid).
Definition answered : PasskeyCompletion * AuthMachine := ran (answering "r13") challenged.2 no_passkey.
Lemma answered_run : answering "r13" challenged.2 = (Ok answered.1, answered.2).
Proof. unfold answered. apply (ran_Ok (answering "r13")). vm_compute. reflexivity. Qed.

Lemma asafe_asking : asafe (W := AuthMachine) asking.
Proof.
  unfold asking, start_registration, passkey_session, load_credentials_for_user, passkey_query, flow_create, flow_fill, flow_query.
  apply asafe_fail, asafe_bind; [asafe_walk|intros]. cbv zeta. apply asafe_bind; [asafe_walk|intros].
  apply asafe_bind; [by intros w r w' [= <- <-]|intros [? ?]]. asafe_walk.
Qed.
Lemma asafe_registering_key : asafe (W := AuthMachine) registering_key.
Proof.
  unfold registering_key, finish_registration, passkey_session, passkey_load_flow, passkey_query, passkey_uuid, flow_load,
    flow_query. asafe_walk.
Qed.
Lemma asafe_challenging : asafe (W := AuthMachine) challenging.
Proof.
  unfold challenging, start_authentication, passkey_query, flow_create, flow_fill, flow_query.
  apply asafe_fail, asafe_bind; [asafe_walk|intros]. apply asafe_bind; [asafe_walk|intros].
  apply asafe_bind; [asafe_walk|intros [[? ?] ?]]. apply asafe_fail.
  apply asafe_bind; [by intros w r w' [= <- <-]|intros [? ?]]. asafe_walk.
Qed.
Lemma ran_steps {E A} (m : io AuthMachine E A) w fallback : asafe m → rtc astep (am_db w) (am_db (ran m w fallback).2).
Proof. intros Hm. exact (Hm w (m w).1 (m w).2 (surjective_pairing (m w))). Qed.
Lemma asked_key_wf : credentials_wf (am_db asked_key.2).
Proof. exact (proj1 (asteps_keep _ _ (ran_steps asking desktop _ asafe_asking) vault_wf)). Qed.
Lemma challenged_wf : credentials_wf (am_db challenged.2).
Proof.
  refine (proj1 (asteps_keep _ _ (ran_steps challenging registered_key.2 _ asafe_challenging) _)).
  exact (proj1 (asteps_keep _ _ (ran_steps registering_key asked_key.2 _ asafe_registering_key) asked_key_wf)).
Qed.
#[local] Opaque asked_key registered_key challenged answered.

Lemma passkey_registration_exact_witness :
  ∃ user session, kp_user_id registered_key.1 = uuid_to_string user ∧ kp_session_id registered_key.1 = uuid_to_string session.
Proof.
  assert (credentials_wf (auth_database asked_key.2)) as Hwf by exact asked_key_wf.
  destruct (passkey_registration_exact flow_key passkey_policy laptop_session (ks_challenge_id asked_key.1) (lit "key")
    (lit "r12") (lit "Key") asked_key.2 registered_key.2 registered_key.1 Hwf registered_key_run)
    as (flow & f & state & user & email & path & response & credential & encoded & s & session & d1 & d2 & now & row & H).
  destruct H as (_&_&_&_&_&_&_&_&_&_&_&_&_&_&_&_&_&_&_&_&_&_& Hu & Hs & _).
  exists user, session. split; [exact Hu|exact Hs].
Defined.
Lemma passkey_login_exact_witness :
  ∃ user session, kp_user_id answered.1 = uuid_to_string user ∧ kp_session_id answered.1 = uuid_to_string session.
Proof.
  pose proof answered_run as Hrun. unfold answering in Hrun.
  destruct (passkey_login_exact (TE := unit) flow_key passkey_policy (ks_challenge_id challenged.1) (5 :: lit "key") (lit "r13")
    challenged.2 answered.2 answered.1 Hrun)
    as (flow & f & state & user & email & path & response & credential & counter & p & p1 & u & session & d0 & d1 & d2 & now & H).
  destruct H as (_&_&_&_&_&_&_&_&_&_&_&_&_&_&_&_&_&_&_&_&_& Hu & Hs & _).
  exists user, session. split; [exact Hu|exact Hs].
Defined.
Lemma passkey_challenge_single_use_witness :
  credentials_wf (auth_database challenged.2)
  ∧ ∀ c w', finish_authentication flow_key passkey_policy (ks_challenge_id challenged.1) (6 :: lit "key") (lit "r14") answered.2
    ≠ (Ok c, w').
Proof.
  split; [exact challenged_wf|]. intros c w'. pose proof answered_run as Hrun. unfold answering in Hrun.
  apply (passkey_challenge_single_use flow_key passkey_policy (ks_challenge_id challenged.1) (5 :: lit "key")
    (6 :: lit "key") (lit "r13") (lit "r14") challenged.2 answered.2 answered.2 w' answered.1 c).
  - exact challenged_wf.
  - exact Hrun.
  - reflexivity.
Defined.
