(* ===== verification/AccountExample.v ===== *)
(** * AccountExample: runs of the account services

    The account services on the machine of [KernelExample], with a concrete
    password derivation: a registration and its retry, the verification of its
    mail, a login and its refusals, a password change, a reset, and the
    sessions and rate limits around them. *)

From S2P Require Import KernelExample TokenExample RateLimits Sessions WorkflowProofs.
Open Scope Z_scope.

(** ** Libraries *)

#[export] Instance example_passwords : PasswordCrypto := {|
  argon2_params := λ _ _ _, true;
  argon2id := λ m t p password salt, Some (take 32 (password ++ salt ++ replicate 32 0));
|}.
#[export] Instance example_password_laws : PasswordCryptoLaws.
Proof.
  split.
  - intros m t p password salt out <-%(inj Some). rewrite length_take, !length_app, length_replicate.
    unfold PASSWORD_HASH_BYTES. lia.
  - apply parse_print_letters.
  - intros bytes (b & Hb & _)%list_elem_of_fmap. unfold letter in Hb. destruct (Z.leb_spec 0 b); lia.
Qed.
(** The text of a queued mail is not read back here. *)
#[export] Instance example_mail : MailCodec := {|
  durable_mail_to_vec := λ p, Some (str_bytes (dm_action_url p));
  json_to_vec := λ _, Some [1];
|}.

(** ** Rate limits *)

Definition attempt (now : Z) (d : Db) : bool * Db :=
  match check_rate_limit (lit "login") 2 60000 now d with
  | Some ((ok, _), d) => (ok, d) | None => (false, d)
  end.
Definition tried1 : bool * Db := attempt 100000 start.
Definition tried2 : bool * Db := attempt 110000 tried1.2.
Definition tried3 : bool * Db := attempt 120000 tried2.2.
Definition attempts : list (Z * bool) := [(100000, tried1.1); (110000, tried2.1); (120000, tried3.1)].
(** Three attempts under a limit of two: the third is refused. *)
Lemma rate_limit_bounded_witness :
  map snd attempts = [true; true; false] ∧ allowed_count attempts ≤ 2 * 2.
Proof.
  assert (Hrun : checked (lit "login") 2 60000 attempts start tried3.2).
  { eapply checked_attempt; [vm_compute; reflexivity|]. eapply checked_attempt; [vm_compute; reflexivity|].
    eapply checked_attempt; [vm_compute; reflexivity|]. apply checked_done. }
  assert (Hnone : buckets start !! lit "login" = None) by reflexivity.
  assert (∀ b, buckets start !! lit "login" = Some b → 0 ≤ b_attempts b) as Hcheck
    by (intros b Hb; rewrite Hnone in Hb; discriminate Hb).
  assert (Forall (λ e : Z * bool, 100000 ≤ e.1 < 100000 + 60000) attempts) as Hspan
    by (repeat constructor; cbn; lia).
  destruct (rate_limit_bounded (lit "login") 2 60000 attempts start tried3.2 100000 ltac:(lia)
    Hcheck Hrun Hspan) as [Hcount Hfirst].
  split; [|exact Hcount]. rewrite Hfirst; [reflexivity|]. intros b Hb. rewrite Hnone in Hb. discriminate Hb.
Defined.

(** Ten requests after the first hour, all counted as the first. *)
Definition resent : Db :=
  match count_attempt (lit "resend") 3600000 0 0 start with Some (_, d) => d | None => start end.
Lemma resend_limit_lapses_witness :
  resend_attempts (lit "resend") (map (λ i, 4000000 + Z.of_nat i) (seq 0 10)) resent = Some (replicate 10 1).
Proof.
  refine (resend_limit_lapses (lit "resend") (map (λ i, 4000000 + Z.of_nat i) (seq 0 10)) resent
    (mk_bucket 1 3600000) ltac:(vm_compute; reflexivity) _ _).
  - cbn. repeat constructor; cbn; lia.
  - cbn. repeat constructor; vm_compute; discriminate.
Defined.

(** ** Sessions *)

Definition listing := session_list (uuid_to_string alice).
Strategy expand [listing].
Definition listed : list AccountSessionRecord * Machine := run_of listing before [].
Lemma listed_run : session_list (uuid_to_string alice) before = (Ok listed.1, listed.2).
Proof.
  pose proof (run_of_Ok listing before [] ltac:(vm_compute; reflexivity)) as E.
  unfold listing at 1 in E. exact E.
Qed.
Lemma session_list_exact_witness :
  map as_session_id listed.1 = [uuid_to_string phone; uuid_to_string laptop]
  ∧ ∃ d listed', rtc kstep (database before) d ∧ listed.1 = map listed_record listed'.
Proof.
  split; [vm_compute; reflexivity|].
  destruct (session_list_exact (uuid_to_string alice) alice before listed.2 listed.1
    (uuid_parse_to_string alice) listed_run) as (d & l & Hd & _ & Hl & _).
  exists d, l. exact (conj Hd Hl).
Defined.

Definition revoking := session_revoke (uuid_to_string phone) (uuid_to_string laptop) (lit "r7").
Strategy expand [revoking].
Definition revoked : unit * Machine := run_of revoking before tt.
Lemma revoked_run : session_revoke (uuid_to_string phone) (uuid_to_string laptop) (lit "r7") before = (Ok tt, revoked.2).
Proof.
  pose proof (run_of_Ok revoking before tt ltac:(vm_compute; reflexivity)) as E.
  unfold revoking at 1 in E. exact E.
Qed.
Lemma session_revoke_final_witness :
  load_request_context phone 1000000 [] (database before) ≠ None
  ∧ load_request_context phone 1000000 [] (database revoked.2) = None.
Proof.
  split; [by vm_compute|].
  destruct (session_revoke_final (uuid_to_string phone) (uuid_to_string laptop) (lit "r7") before revoked.2
    revoked_run (database revoked.2) (rtc_refl _ _))
    as (d1 & target & actor & sa & u & st & _ & Ht & _ & _ & _ & _ & _ & _ & Hdead & _).
  assert (target = phone) as -> by (rewrite uuid_parse_to_string in Ht; congruence). apply Hdead.
Defined.

(** ** Accounts *)

Definition mail_key : OutboxSealingKey := mk_outbox_key (lit "v1") (replicate 32 6).
Definition registrations : PasswordRegistrationService := mk_registration_service Argon2Policy_default mail_key None.
Definition logins : PasswordLoginService := mk_login_service Argon2Policy_default DEFAULT_SESSION_TTL_MS.
Definition verifications : EmailVerificationService := mk_verification_service DEFAULT_SESSION_TTL_MS [].
Definition resets : PasswordResetService :=
  mk_reset_service Argon2Policy_default mail_key None DEFAULT_SESSION_TTL_MS.
Definition no_receipt : SessionReceipt := mk_session_receipt [] [] 0 [].
Lemma default_policy_u32 : policy_u32 Argon2Policy_default.
Proof. unfold policy_u32, is_u32, u32_max. cbn. lia. Qed.

Definition secret : str := lit "correct horse battery".
Lemma hash_verify_roundtrip_witness :
  ∃ stored, hash_password secret (replicate 16 9) Argon2Policy_default = Some stored
    ∧ verify_password secret stored Argon2Policy_default = Some true
    ∧ verify_password (lit "wrong horse battery") stored Argon2Policy_default = Some false.
Proof.
  destruct (hash_password secret (replicate 16 9) Argon2Policy_default) as [stored|] eqn:E;
    [|vm_compute in E; discriminate E].
  exists stored. split; [reflexivity|].
  destruct (hash_verify_roundtrip secret (replicate 16 9) Argon2Policy_default Argon2Policy_default stored
    default_policy_u32 E) as [Hself Hother].
  split; [exact Hself|].
  assert (is_Some (argon2_hash Argon2Policy_default (lit "wrong horse battery") (replicate 16 9))) as [out Hout]
    by (vm_compute; eauto).
  rewrite (Hother _ _ Hout). vm_compute. reflexivity.
Defined.

(** Bob registers, and the request is retried. *)
Definition bob_request : PasswordRegistrationRequest :=
  mk_registration_request (lit "idem-1") (lit "ip-1") (lit "r1") (lit " Bob@Example.com ") secret (lit "/welcome").
Definition registering := register registrations bob_request.
Strategy expand [registering].
Definition joined : RegistrationReceipt * Machine := run_of registering before (mk_receipt [] false).
Definition rejoined : RegistrationReceipt * Machine := run_of registering joined.2 (mk_receipt [] false).
Lemma joined_run : register registrations bob_request before = (Ok joined.1, joined.2).
Proof.
  pose proof (run_of_Ok registering before (mk_receipt [] false) ltac:(vm_compute; reflexivity)) as E.
  unfold registering at 1 in E. exact E.
Qed.
Lemma rejoined_run : register registrations bob_request joined.2 = (Ok rejoined.1, rejoined.2).
Proof.
  pose proof (run_of_Ok registering joined.2 (mk_receipt [] false) ltac:(vm_compute; reflexivity)) as E.
  unfold registering at 1 in E. exact E.
Qed.
Lemma registration_idempotent_witness :
  receipt_replayed joined.1 = false ∧ receipt_replayed rejoined.1 = true
  ∧ receipt_user_id rejoined.1 = receipt_user_id joined.1.
Proof.
  split; [vm_compute; reflexivity|].
  destruct (registration_idempotent registrations registrations bob_request bob_request before joined.2 joined.2
    rejoined.2 joined.1 rejoined.1 eq_refl joined_run (rtc_refl _ _) rejoined_run) as (Hr & Hu & _).
  exact (conj Hr Hu).
Defined.

(** He follows the link of the mail, twice. *)
Definition link : str := print_letters (replicate 32 2).
Definition link_request : EmailVerificationRequest := mk_verification_request link (lit "r2") (lit "/").
Definition following := verify_email_token verifications link_request.
Strategy expand [following].
Definition followed : SessionReceipt * Machine := run_of following joined.2 no_receipt.
Lemma followed_run : verify_email_token verifications link_request joined.2 = (Ok followed.1, followed.2).
Proof.
  pose proof (run_of_Ok following joined.2 no_receipt ltac:(vm_compute; reflexivity)) as E.
  unfold following at 1 in E. exact E.
Qed.
Lemma verification_single_use_witness :
  sn_user_id followed.1 = receipt_user_id joined.1
  ∧ ∀ receipt w, following followed.2 ≠ (Ok receipt, w).
Proof.
  split; [vm_compute; reflexivity|].
  destruct (verification_single_use verifications link_request joined.2 followed.2 followed.1 followed_run)
    as [_ Hagain].
  intros receipt w. exact (Hagain verifications link_request followed.2 receipt w eq_refl (rtc_refl _ _)).
Defined.

(** He logs in; a wrong password is refused. *)
Definition bob_login (password : str) : PasswordLoginRequest :=
  mk_login_request (lit "bob@example.com") password (lit "r3") (lit "/home").
Definition logging_in := login logins (bob_login secret).
Strategy expand [logging_in].
Definition logged_in : SessionReceipt * Machine := run_of logging_in followed.2 no_receipt.
Lemma logged_in_run : login logins (bob_login secret) followed.2 = (Ok logged_in.1, logged_in.2).
Proof.
  pose proof (run_of_Ok logging_in followed.2 no_receipt ltac:(vm_compute; reflexivity)) as E.
  unfold logging_in at 1 in E. exact E.
Qed.
Lemma login_was_allowed_witness :
  sn_user_id logged_in.1 = receipt_user_id joined.1
  ∧ ∃ d user hash, rtc kstep (database followed.2) d ∧ pw_hash <$> passwords d !! user = Some hash
      ∧ verify_password secret hash Argon2Policy_default = Some true.
Proof.
  split; [vm_compute; reflexivity|].
  destruct (login_was_allowed logins (bob_login secret) followed.2 logged_in.2 logged_in.1 logged_in_run)
    as (d1 & d2 & d3 & now & user & hash & u & session & Hd & _ & _ & _ & Hh & Hv & _).
  exists d1, user, hash. exact (conj Hd (conj Hh Hv)).
Defined.
Definition looking_up := load_record (normalized (lit "bob@example.com")).
Strategy expand [looking_up].
Definition looked_up : option PasswordLoginRecord * Machine := run_of looking_up followed.2 None.
Lemma looked_up_run : load_record (normalized (lit "bob@example.com")) followed.2 = (Ok looked_up.1, looked_up.2).
Proof.
  pose proof (run_of_Ok looking_up followed.2 None ltac:(vm_compute; reflexivity)) as E.
  unfold looking_up at 1 in E. exact E.
Qed.
Definition wrong_verifies : option bool :=
  r ← looked_up.1; verify_password (lit "not the password") (lg_password_hash r) Argon2Policy_default.
Lemma login_refusals_uniform_witness :
  login logins (bob_login (lit "not the password")) followed.2 = (Err PlInvalidCredentials, looked_up.2).
Proof.
  assert (Hw : wrong_verifies = Some false) by (vm_compute; reflexivity).
  destruct (login_refusals_uniform logins (bob_login (lit "not the password")) followed.2 looked_up.2 looked_up.1
    eq_refl looked_up_run) as (d & _ & _ & Hres).
  unfold wrong_verifies in Hw. destruct looked_up.1 as [r|]; [|discriminate Hw].
  destruct Hres as (user & u & p & _ & _ & _ & _ & _ & Hhash & Hres). cbn [mbind option_bind] in Hw. rewrite Hhash in Hw.
  change (lr_password (bob_login (lit "not the password"))) with (lit "not the password") in Hres.
  change (login_argon2 logins) with Argon2Policy_default in Hres. rewrite Hw in Hres. apply Hres. left. reflexivity.
Defined.

(** He changes his password in the new session. *)
Definition new_secret : str := lit "battery staple correct".
Definition change_request : PasswordChangeRequest :=
  mk_change_request (sn_user_id logged_in.1) (sn_session_id logged_in.1) secret new_secret (lit "r4").
Definition changing := service_change_password logins change_request.
Strategy expand [changing].
Definition repassworded : unit * Machine := run_of changing logged_in.2 tt.
Lemma repassworded_run : service_change_password logins change_request logged_in.2 = (Ok tt, repassworded.2).
Proof.
  pose proof (run_of_Ok changing logged_in.2 tt ltac:(vm_compute; reflexivity)) as E.
  unfold changing at 1 in E. destruct (run_of changing logged_in.2 tt).1. exact E.
Qed.
Lemma change_needs_current_password_witness :
  succeeds (login logins (bob_login new_secret)) repassworded.2 = true
  ∧ succeeds (login logins (bob_login secret)) repassworded.2 = false
  ∧ ∃ d user stored, rtc kstep (database logged_in.2) d ∧ pw_hash <$> passwords d !! user = Some stored
      ∧ verify_password new_secret stored Argon2Policy_default = Some true.
Proof.
  split; [vm_compute; reflexivity|]. split; [vm_compute; reflexivity|].
  destruct (change_needs_current_password logins change_request logged_in.2 repassworded.2 default_policy_u32
    repassworded_run) as (d1 & d2 & d3 & user & session & old & stored & now & Hd1 & Hd2 & Hd3 & _ & _ & _ & _ & _ & _ & _ & Hst & Hv & _).
  exists d3, user, stored. split; [|exact (conj Hst (Hv Argon2Policy_default))].
  transitivity d1; [exact Hd1|]. transitivity d2; [exact Hd2|]. exact (rtc_once _ _ Hd3).
Defined.

(** He forgets it, and resets it with the link of a mail. *)
Definition forgetting := reset_start resets (mk_reset_start (lit "bob@example.com") (lit "/") (lit "r5")).
Definition forgotten : Machine := (forgetting repassworded.2).2.
Definition reset_link : str := print_letters (replicate 32 (mc_draws repassworded.2)).
Definition reset_request : PasswordResetCompleteRequest :=
  mk_reset_complete reset_link secret (lit "r6") (lit "/").
Definition resetting := reset_complete resets reset_request.
Strategy expand [resetting].
Definition reset_account : SessionReceipt * Machine := run_of resetting forgotten no_receipt.
Lemma reset_account_run : reset_complete resets reset_request forgotten = (Ok reset_account.1, reset_account.2).
Proof.
  pose proof (run_of_Ok resetting forgotten no_receipt ltac:(vm_compute; reflexivity)) as E.
  unfold resetting at 1 in E. exact E.
Qed.
