(* ===== verification/Metadata.v ===== *)
(** * Metadata: the trusted authentication context of the HTTP middleware

    Models src/legacy/wasi-http-middleware/crates/metadata/src/lib.rs: the
    validated actor, principal and authentication context, the wire form of a
    context, and the header that carries it.  The JSON text of the wire form
    and Base64 are parameters. *)

From S2P Require Export Headers.
Open Scope Z_scope.

#[local] Arguments lit : simpl never.

Definition REQUEST_ID_HEADER : str := lit "x-request-id".
Definition AUTH_CONTEXT_HEADER : str := lit "x-wasi-auth-context".
Definition AUTH_CONTEXT_VERSION : Z := 1.
Definition MAX_AUTH_CONTEXT_ENCODED_LEN : Z := 8 * 1024.
Definition RESERVED_AUTH_PREFIX : str := lit "x-wasi-auth-".
Definition MAX_IDENTITY_VALUE_LEN : Z := 512.
Definition MAX_CONTEXT_VALUE_LEN : Z := 256.
Definition MAX_SESSION_VALUE_LEN : Z := 512.
Definition MAX_COLLECTION_ITEMS : nat := 64.
Definition MAX_AUDIENCES : nat := 16.
Definition MAX_SCOPE_VALUE_LEN : Z := 2048.

Inductive MetadataError :=
| InvalidText (field : str)
| InvalidCollection (field : str)
| InvalidTimeRange
| DuplicateHeader (name : str)
| MissingHeader (name : str)
| ContextTooLarge
| InvalidEncoding
| InvalidSchema
| UnsupportedVersion (version : Z).
#[export] Instance MetadataError_eq_dec : EqDecision MetadataError.
Proof. solve_decision. Defined.

(** ** Validation *)

Definition text_ok (value : str) (maximum : Z) : bool :=
  negb (is_empty value) && (str_len value <=? maximum) && bool_decide (trim value = value)
  && negb (existsb is_control value).
Definition validate_text (field : string) (value : str) (maximum : Z) : result MetadataError unit :=
  if text_ok value maximum then Ok tt else Err (InvalidText (lit field)).
Definition ascii_text_ok (value : str) : bool :=
  is_ascii value && negb (existsb is_ascii_whitespace (str_bytes value)).
Definition validate_ascii_text (field : string) (value : str) (maximum : Z) : result MetadataError unit :=
  try? validate_text field value maximum ;;
  if ascii_text_ok value then Ok tt else Err (InvalidText (lit field)).
Definition token_byte (b : Z) : bool := is_ascii_alphanumeric b || one_of [45; 95; 46; 58; 47] b.
Definition is_token (value : str) : bool :=
  negb (is_empty value) && (str_len value <=? 128) && forallb token_byte (str_bytes value).
Definition validated_tokens (field : string) (values : list str) : result MetadataError (list str) :=
  fail? bool_decide (MAX_COLLECTION_ITEMS < length values)%nat || existsb (λ v, negb (is_token v)) values
    with InvalidCollection (lit field) ;;
  Ok (sort_dedup values).
Definition validated_deployment (service_id : str) (audiences : list str) :
    result MetadataError (str * list str) :=
  fail? negb (is_token service_id) with InvalidText (lit "service_id") ;;
  fail? bool_decide (audiences = []) || bool_decide (MAX_AUDIENCES < length audiences)%nat
    with InvalidCollection (lit "audiences") ;;
  try? for_each (λ audience, validate_ascii_text "audience" audience MAX_CONTEXT_VALUE_LEN) audiences ;;
  Ok (service_id, sort_dedup audiences).

(** ** Identities *)

Record ActorV1 := mk_actor { act_issuer : str; act_subject : str }.
#[export] Instance ActorV1_eq_dec : EqDecision ActorV1.
Proof. solve_decision. Defined.
Definition ActorV1_new (issuer subject : str) : result MetadataError ActorV1 :=
  try? validate_text "actor.issuer" issuer MAX_IDENTITY_VALUE_LEN ;;
  try? validate_text "actor.subject" subject MAX_IDENTITY_VALUE_LEN ;;
  Ok (mk_actor issuer subject).

Record PrincipalV1 := mk_principal_v1 {
  pv_issuer : str;
  pv_subject : str;
  pv_tenant_id : option str;
  pv_roles : list str;
  pv_scopes : list str;
  pv_acr : option str;
  pv_amr : list str;
  pv_actor : option ActorV1;
  pv_auth_time : option Z;
  pv_expires_at : option Z;
  pv_session_id : option str;
}.
#[export] Instance PrincipalV1_eq_dec : EqDecision PrincipalV1.
Proof. solve_decision. Defined.
Definition PrincipalV1_new (issuer subject : str) : result MetadataError PrincipalV1 :=
  try? validate_text "issuer" issuer MAX_IDENTITY_VALUE_LEN ;;
  try? validate_text "subject" subject MAX_IDENTITY_VALUE_LEN ;;
  Ok (mk_principal_v1 issuer subject None [] [] None [] None None None None).

(** An optional text within its bound. *)
Definition validate_optional (field : string) (value : option str) (maximum : Z) : result MetadataError unit :=
  match value with Some value => validate_text field value maximum | None => Ok tt end.
Definition principal_with_tenant_id (tenant_id : option str) (p : PrincipalV1) : result MetadataError PrincipalV1 :=
  try? validate_optional "tenant_id" tenant_id MAX_IDENTITY_VALUE_LEN ;;
  Ok (mk_principal_v1 (pv_issuer p) (pv_subject p) tenant_id (pv_roles p) (pv_scopes p) (pv_acr p) (pv_amr p)
        (pv_actor p) (pv_auth_time p) (pv_expires_at p) (pv_session_id p)).
Definition principal_with_roles (roles : list str) (p : PrincipalV1) : result MetadataError PrincipalV1 :=
  let? roles := validated_tokens "roles" roles in
  Ok (mk_principal_v1 (pv_issuer p) (pv_subject p) (pv_tenant_id p) roles (pv_scopes p) (pv_acr p) (pv_amr p)
        (pv_actor p) (pv_auth_time p) (pv_expires_at p) (pv_session_id p)).
(** The length of the scopes joined by spaces. *)
Definition scope_length (scopes : list str) : Z :=
  foldr (λ s n, str_len s + n) 0 scopes + Z.of_nat (length scopes - 1).
Definition principal_with_scopes (scopes : list str) (p : PrincipalV1) : result MetadataError PrincipalV1 :=
  let? scopes := validated_tokens "scopes" scopes in
  fail? MAX_SCOPE_VALUE_LEN <? scope_length scopes with InvalidCollection (lit "scopes") ;;
  Ok (mk_principal_v1 (pv_issuer p) (pv_subject p) (pv_tenant_id p) (pv_roles p) scopes (pv_acr p) (pv_amr p)
        (pv_actor p) (pv_auth_time p) (pv_expires_at p) (pv_session_id p)).
Definition principal_with_acr (acr : option str) (p : PrincipalV1) : result MetadataError PrincipalV1 :=
  try? validate_optional "acr" acr MAX_CONTEXT_VALUE_LEN ;;
  Ok (mk_principal_v1 (pv_issuer p) (pv_subject p) (pv_tenant_id p) (pv_roles p) (pv_scopes p) acr (pv_amr p)
        (pv_actor p) (pv_auth_time p) (pv_expires_at p) (pv_session_id p)).
Definition principal_with_amr (amr : list str) (p : PrincipalV1) : result MetadataError PrincipalV1 :=
  let? amr := validated_tokens "amr" amr in
  Ok (mk_principal_v1 (pv_issuer p) (pv_subject p) (pv_tenant_id p) (pv_roles p) (pv_scopes p) (pv_acr p) amr
        (pv_actor p) (pv_auth_time p) (pv_expires_at p) (pv_session_id p)).
Definition principal_with_actor (actor : option ActorV1) (p : PrincipalV1) : PrincipalV1 :=
  mk_principal_v1 (pv_issuer p) (pv_subject p) (pv_tenant_id p) (pv_roles p) (pv_scopes p) (pv_acr p) (pv_amr p)
    actor (pv_auth_time p) (pv_expires_at p) (pv_session_id p).
Definition times_ok (auth_time expires_at : option Z) : bool :=
  match auth_time, expires_at with Some auth, Some expiry => auth <? expiry | _, _ => true end.
Definition principal_with_times (auth_time expires_at : option Z) (p : PrincipalV1) :
    result MetadataError PrincipalV1 :=
  fail? negb (times_ok auth_time expires_at) with InvalidTimeRange ;;
  Ok (mk_principal_v1 (pv_issuer p) (pv_subject p) (pv_tenant_id p) (pv_roles p) (pv_scopes p) (pv_acr p) (pv_amr p)
        (pv_actor p) auth_time expires_at (pv_session_id p)).
Definition principal_with_session_id (session_id : option str) (p : PrincipalV1) : result MetadataError PrincipalV1 :=
  try? validate_optional "session_id" session_id MAX_SESSION_VALUE_LEN ;;
  Ok (mk_principal_v1 (pv_issuer p) (pv_subject p) (pv_tenant_id p) (pv_roles p) (pv_scopes p) (pv_acr p) (pv_amr p)
        (pv_actor p) (pv_auth_time p) (pv_expires_at p) session_id).

(** ** Contexts *)

Inductive AuthStateV1 := Anonymous | Authenticated.
#[export] Instance AuthStateV1_eq_dec : EqDecision AuthStateV1.
Proof. solve_decision. Defined.
Record AuthContextV1 := mk_auth_context_v1 {
  ac_state : AuthStateV1;
  ac_service_id : str;
  ac_audiences : list str;
  ac_principal : option PrincipalV1;
  ac_decision_id : option str;
  ac_policy_revision : option str;
}.
Definition AuthContextV1_anonymous (service_id : str) (audiences : list str) : result MetadataError AuthContextV1 :=
  let? deployment := validated_deployment service_id audiences in
  Ok (mk_auth_context_v1 Anonymous deployment.1 deployment.2 None None None).
Definition AuthContextV1_authenticated (service_id : str) (audiences : list str) (principal : PrincipalV1)
    (decision_id policy_revision : str) : result MetadataError AuthContextV1 :=
  let? deployment := validated_deployment service_id audiences in
  try? validate_text "decision_id" decision_id MAX_CONTEXT_VALUE_LEN ;;
  try? validate_text "policy_revision" policy_revision MAX_CONTEXT_VALUE_LEN ;;
  Ok (mk_auth_context_v1 Authenticated deployment.1 deployment.2 (Some principal) (Some decision_id)
        (Some policy_revision)).

(** ** The wire form *)

(** [WireActorRef] and [WireActorOwned], [WirePrincipalRef] and
    [WirePrincipalOwned], [WireContextRef] and [WireContextOwned]: serde skips
    an absent option and an empty list, and reads them back as such. *)
Record WireActor := mk_wire_actor { wa_issuer : str; wa_subject : str }.
Record WirePrincipal := mk_wire_principal {
  wp_issuer : str;
  wp_subject : str;
  wp_tenant_id : option str;
  wp_roles : list str;
  wp_scopes : list str;
  wp_acr : option str;
  wp_amr : list str;
  wp_actor : option WireActor;
  wp_auth_time : option Z;
  wp_expires_at : option Z;
  wp_session_id : option str;
}.
Record WireContext := mk_wire_context {
  wc_version : Z;
  wc_state : AuthStateV1;
  wc_service_id : str;
  wc_audiences : list str;
  wc_principal : option WirePrincipal;
  wc_decision_id : option str;
  wc_policy_revision : option str;
}.
Definition wire_of_actor (a : ActorV1) : WireActor := mk_wire_actor (act_issuer a) (act_subject a).
Definition wire_of_principal (p : PrincipalV1) : WirePrincipal :=
  mk_wire_principal (pv_issuer p) (pv_subject p) (pv_tenant_id p) (pv_roles p) (pv_scopes p) (pv_acr p) (pv_amr p)
    (wire_of_actor <$> pv_actor p) (pv_auth_time p) (pv_expires_at p) (pv_session_id p).
Definition wire_of_context (c : AuthContextV1) : WireContext :=
  mk_wire_context AUTH_CONTEXT_VERSION (ac_state c) (ac_service_id c) (ac_audiences c)
    (wire_of_principal <$> ac_principal c) (ac_decision_id c) (ac_policy_revision c).

Definition actor_of_wire (w : WireActor) : result MetadataError ActorV1 := ActorV1_new (wa_issuer w) (wa_subject w).
Definition principal_of_wire (w : WirePrincipal) : result MetadataError PrincipalV1 :=
  let? p := PrincipalV1_new (wp_issuer w) (wp_subject w) in
  let? p := principal_with_tenant_id (wp_tenant_id w) p in
  let? p := principal_with_roles (wp_roles w) p in
  let? p := principal_with_scopes (wp_scopes w) p in
  let? p := principal_with_acr (wp_acr w) p in
  let? p := principal_with_amr (wp_amr w) p in
  let? actor := transpose_map actor_of_wire (wp_actor w) in
  let p := principal_with_actor actor p in
  let? p := principal_with_times (wp_auth_time w) (wp_expires_at w) p in
  principal_with_session_id (wp_session_id w) p.
Definition context_of_wire (w : WireContext) : result MetadataError AuthContextV1 :=
  fail? negb (wc_version w =? AUTH_CONTEXT_VERSION) with UnsupportedVersion (wc_version w) ;;
  match wc_state w, wc_principal w, wc_decision_id w, wc_policy_revision w with
  | Anonymous, None, None, None => AuthContextV1_anonymous (wc_service_id w) (wc_audiences w)
  | Authenticated, Some principal, Some decision_id, Some policy_revision =>
      let? principal := principal_of_wire principal in
      AuthContextV1_authenticated (wc_service_id w) (wc_audiences w) principal decision_id policy_revision
  | _, _, _, _ => Err InvalidSchema
  end.

(** ** The header *)

(** [serde_json] on the wire form, and [URL_SAFE_NO_PAD]. *)
Class MetadataCodec := {
  context_to_vec : WireContext → option (list Z);
  context_from_slice : list Z → option WireContext;
  url_safe_encode : list Z → str;
  url_safe_decode : str → option (list Z);
}.
Class MetadataCodecLaws `{MetadataCodec} : Prop := {
  context_round_trip w bytes : context_to_vec w = Some bytes → context_from_slice bytes = Some w;
  url_safe_round_trip bytes : url_safe_decode (url_safe_encode bytes) = Some bytes;
  context_not_empty w : context_to_vec w ≠ Some [];
  url_safe_not_empty bytes : bytes ≠ [] → url_safe_encode bytes ≠ [];
}.

Section headers.
Context `{HttpHeaders} `{MetadataCodec}.

Definition reserved_name (name : str) : bool := starts_with RESERVED_AUTH_PREFIX name.
Definition strip_reserved_auth_headers (headers : HeaderMap) : HeaderMap :=
  foldl header_remove headers (List.filter reserved_name (header_keys headers)).
Definition encode_auth_context (c : AuthContextV1) : result MetadataError HeaderValue :=
  let? json := ok_or (context_to_vec (wire_of_context c)) InvalidSchema in
  let encoded := url_safe_encode json in
  fail? MAX_AUTH_CONTEXT_ENCODED_LEN <? str_len encoded with ContextTooLarge ;;
  ok_or (from_str encoded) InvalidEncoding.
Definition decode_auth_context (value : HeaderValue) : result MetadataError AuthContextV1 :=
  let? encoded := ok_or (to_str value) InvalidEncoding in
  fail? is_empty encoded || (MAX_AUTH_CONTEXT_ENCODED_LEN <? str_len encoded)
    with (if MAX_AUTH_CONTEXT_ENCODED_LEN <? str_len encoded then ContextTooLarge else InvalidEncoding) ;;
  let? decoded := ok_or (url_safe_decode encoded) InvalidEncoding in
  fail? negb (bool_decide (url_safe_encode decoded = encoded)) with InvalidEncoding ;;
  let? wire := ok_or (context_from_slice decoded) InvalidSchema in
  context_of_wire wire.
Definition insert_auth_context (headers : HeaderMap) (c : AuthContextV1) : result MetadataError HeaderMap :=
  let? value := encode_auth_context c in
  Ok (header_insert (strip_reserved_auth_headers headers) AUTH_CONTEXT_HEADER value).
Definition parse_auth_context (headers : HeaderMap) : result MetadataError AuthContextV1 :=
  match get_all headers AUTH_CONTEXT_HEADER with
  | [] => Err (MissingHeader (lit "auth_context"))
  | [value] => decode_auth_context value
  | _ :: _ :: _ => Err (DuplicateHeader (lit "auth_context"))
  end.
End headers.

(** ** Valid contexts *)

Definition optional_ok (value : option str) (maximum : Z) : bool :=
  match value with Some value => text_ok value maximum | None => true end.
Record tokens_valid (l : list str) : Prop := {
  tv_sorted : ssorted l;
  tv_count : (length l ≤ MAX_COLLECTION_ITEMS)%nat;
  tv_token t : t ∈ l → is_token t = true;
}.
Definition actor_valid (a : ActorV1) : Prop :=
  text_ok (act_issuer a) MAX_IDENTITY_VALUE_LEN = true ∧ text_ok (act_subject a) MAX_IDENTITY_VALUE_LEN = true.
Record principal_valid (p : PrincipalV1) : Prop := {
  prv_issuer : text_ok (pv_issuer p) MAX_IDENTITY_VALUE_LEN = true;
  prv_subject : text_ok (pv_subject p) MAX_IDENTITY_VALUE_LEN = true;
  prv_tenant : optional_ok (pv_tenant_id p) MAX_IDENTITY_VALUE_LEN = true;
  prv_roles : tokens_valid (pv_roles p);
  prv_scopes : tokens_valid (pv_scopes p);
  prv_scope_length : scope_length (pv_scopes p) ≤ MAX_SCOPE_VALUE_LEN;
  prv_acr : optional_ok (pv_acr p) MAX_CONTEXT_VALUE_LEN = true;
  prv_amr : tokens_valid (pv_amr p);
  prv_actor a : pv_actor p = Some a → actor_valid a;
  prv_times : times_ok (pv_auth_time p) (pv_expires_at p) = true;
  prv_session : optional_ok (pv_session_id p) MAX_SESSION_VALUE_LEN = true;
}.
Record context_valid (c : AuthContextV1) : Prop := {
  cv_service : is_token (ac_service_id c) = true;
  cv_audiences : ac_audiences c ≠ [] ∧ (length (ac_audiences c) ≤ MAX_AUDIENCES)%nat ∧ ssorted (ac_audiences c);
  cv_audience a : a ∈ ac_audiences c → text_ok a MAX_CONTEXT_VALUE_LEN = true ∧ ascii_text_ok a = true;
  cv_state : match ac_state c with
             | Anonymous => ac_principal c = None ∧ ac_decision_id c = None ∧ ac_policy_revision c = None
             | Authenticated => ∃ p d r, ac_principal c = Some p ∧ ac_decision_id c = Some d
                 ∧ ac_policy_revision c = Some r ∧ principal_valid p
                 ∧ text_ok d MAX_CONTEXT_VALUE_LEN = true ∧ text_ok r MAX_CONTEXT_VALUE_LEN = true
             end;
}.

Lemma validate_text_Ok field v m u : validate_text field v m = Ok u ↔ text_ok v m = true.
Proof. unfold validate_text. destruct u, (text_ok v m); naive_solver. Qed.
Lemma validate_optional_Ok field v m u : validate_optional field v m = Ok u ↔ optional_ok v m = true.
Proof. destruct v; cbn; [apply validate_text_Ok|]. destruct u; naive_solver. Qed.
Lemma validated_tokens_Ok field l l' :
  validated_tokens field l = Ok l' → l' = sort_dedup l ∧ tokens_valid l'.
Proof.
  unfold validated_tokens. intros [[Hn Ht]%orb_false_iff [= <-]]%fail_Ok. bprop. split; [done|].
  rewrite existsb_false_spec in Ht. split; [apply sort_dedup_sorted| |].
  - pose proof (length_sort_dedup l). lia.
  - intros t Hin. rewrite elem_of_sort_dedup in Hin. specialize (Ht t Hin). by bprop.
Qed.
Lemma validated_tokens_valid field l : tokens_valid l → validated_tokens field l = Ok l.
Proof.
  intros [Hs Hc Ht]. unfold validated_tokens. rewrite bool_decide_false by lia. cbn.
  destruct (existsb _ l) eqn:E; [|by rewrite sort_dedup_id].
  apply existsb_spec in E as (t & Hin & E). by rewrite Ht in E.
Qed.
Lemma validated_deployment_Ok service l service' l' :
  validated_deployment service l = Ok (service', l') →
  service' = service ∧ is_token service = true ∧ l' = sort_dedup l
  ∧ (l ≠ [] ∧ (length l ≤ MAX_AUDIENCES)%nat)
  ∧ ∀ a, a ∈ l → text_ok a MAX_CONTEXT_VALUE_LEN = true ∧ ascii_text_ok a = true.
Proof.
  unfold validated_deployment. intros [Hs [[He Hn]%orb_false_iff E]%fail_Ok]%fail_Ok. bprop.
  apply rbind_Ok in E as ([] & Ha & [= <- <-]). rewrite for_each_Ok, Forall_forall in Ha.
  split_and!; [done|done|done|done|lia|]. intros a Hin. specialize (Ha a Hin).
  unfold validate_ascii_text in Ha. apply rbind_Ok in Ha as (u & Ht%validate_text_Ok & E).
  split; [done|]. by destruct ascii_text_ok.
Qed.
Lemma validated_deployment_valid service l :
  is_token service = true → l ≠ [] → (length l ≤ MAX_AUDIENCES)%nat → ssorted l →
  (∀ a, a ∈ l → text_ok a MAX_CONTEXT_VALUE_LEN = true ∧ ascii_text_ok a = true) →
  validated_deployment service l = Ok (service, l).
Proof.
  intros Hs He Hn Hsort Ha. unfold validated_deployment. rewrite Hs. cbn.
  rewrite !bool_decide_false by (done || lia). cbn.
  assert (for_each (λ a, validate_ascii_text "audience" a MAX_CONTEXT_VALUE_LEN) l = Ok tt) as ->.
  { apply for_each_Ok, Forall_forall. intros a [Ht Hc]%Ha. unfold validate_ascii_text.
    rewrite (proj2 (validate_text_Ok _ _ _ tt) Ht). cbn. by rewrite Hc. }
  cbn. by rewrite sort_dedup_id.
Qed.
Lemma sort_dedup_nonempty l : l ≠ [] → sort_dedup l ≠ [].
Proof.
  destruct l as [|x l]; [done|]. intros _ E. assert (x ∈ sort_dedup (x :: l)) as Hx.
  { apply elem_of_sort_dedup. left. }
  rewrite E in Hx. by apply elem_of_nil in Hx.
Qed.

Lemma principal_of_wire_valid w p : principal_of_wire w = Ok p → principal_valid p.
Proof.
  unfold principal_of_wire. intros E. apply rbind_Ok in E as (p1 & E1 & E). apply rbind_Ok in E as (p2 & E2 & E).
  apply rbind_Ok in E as (p3 & E3 & E). apply rbind_Ok in E as (p4 & E4 & E). apply rbind_Ok in E as (p5 & E5 & E).
  apply rbind_Ok in E as (p6 & E6 & E). apply rbind_Ok in E as (actor & Ea & E). cbv zeta in E.
  apply rbind_Ok in E as (p7 & E7 & E8).
  unfold PrincipalV1_new in E1. apply rbind_Ok in E1 as (? & ?%validate_text_Ok & E1).
  apply rbind_Ok in E1 as (? & ?%validate_text_Ok & [= <-]).
  apply rbind_Ok in E2 as (? & ?%validate_optional_Ok & [= <-]).
  apply rbind_Ok in E3 as (? & [_ ?]%validated_tokens_Ok & [= <-]).
  apply rbind_Ok in E4 as (? & [_ ?]%validated_tokens_Ok & [Hl [= <-]]%fail_Ok). bprop.
  apply rbind_Ok in E5 as (? & ?%validate_optional_Ok & [= <-]).
  apply rbind_Ok in E6 as (? & [_ ?]%validated_tokens_Ok & [= <-]).
  apply fail_Ok in E7 as [Ht [= <-]]. apply negb_false_iff in Ht.
  apply rbind_Ok in E8 as (? & ?%validate_optional_Ok & [= <-]).
  split; cbn; try done. intros a ->. destruct (wp_actor w); cbn in Ea; [|done].
  apply rmap_Ok in Ea as (a' & Ea & [= <-]). unfold actor_of_wire, ActorV1_new in Ea.
  apply rbind_Ok in Ea as (? & ?%validate_text_Ok & Ea). by apply rbind_Ok in Ea as (? & ?%validate_text_Ok & [= <-]).
Qed.
Lemma principal_of_wire_of p : principal_valid p → principal_of_wire (wire_of_principal p) = Ok p.
Proof.
  intros []. destruct p as [issuer subject tenant roles scopes acr amr actor at_ ex session]; cbn in *.
  unfold principal_of_wire, PrincipalV1_new, principal_with_tenant_id, principal_with_roles, principal_with_scopes,
    principal_with_acr, principal_with_amr, principal_with_times, principal_with_session_id; cbn.
  rewrite (proj2 (validate_text_Ok "issuer" _ _ tt)), (proj2 (validate_text_Ok "subject" _ _ tt)) by done; cbn.
  rewrite (proj2 (validate_optional_Ok "tenant_id" _ _ tt)) by done; cbn.
  rewrite (validated_tokens_valid "roles"), (validated_tokens_valid "scopes") by done; cbn.
  rewrite (proj2 (Z.ltb_ge _ _)) by done; cbn.
  rewrite (proj2 (validate_optional_Ok "acr" _ _ tt)) by done; cbn.
  rewrite (validated_tokens_valid "amr") by done; cbn.
  assert (transpose_map actor_of_wire (wire_of_actor <$> actor) = Ok actor) as ->.
  { destruct actor as [[i s]|]; [|done]. destruct (prv_actor0 _ eq_refl) as [Hi Hs]. cbn in *.
    unfold actor_of_wire, ActorV1_new; cbn.
    rewrite (proj2 (validate_text_Ok "actor.issuer" _ _ tt)), (proj2 (validate_text_Ok "actor.subject" _ _ tt)) by done.
    done. }
  cbn. rewrite prv_times0. cbn. by rewrite (proj2 (validate_optional_Ok "session_id" _ _ tt)).
Qed.
Lemma context_of_wire_valid w c : context_of_wire w = Ok c → context_valid c.
Proof.
  unfold context_of_wire. intros [_ E]%fail_Ok.
  destruct (wc_state w), (wc_principal w) as [p|], (wc_decision_id w) as [d|], (wc_policy_revision w) as [r|];
    try discriminate E.
  - apply rbind_Ok in E as ([s l] & (-> & Hs & -> & [He Hn] & Ha)%validated_deployment_Ok & [= <-]).
    split; cbn; [done| |intros a Hin; rewrite elem_of_sort_dedup in Hin; by apply Ha|done].
    pose proof (length_sort_dedup (wc_audiences w)). split_and!; [by apply sort_dedup_nonempty|lia|apply sort_dedup_sorted].
  - apply rbind_Ok in E as (p' & Hp%principal_of_wire_valid & E). unfold AuthContextV1_authenticated in E.
    apply rbind_Ok in E as ([s l] & (-> & Hs & -> & [He Hn] & Ha)%validated_deployment_Ok & E).
    apply rbind_Ok in E as (? & ?%validate_text_Ok & E). apply rbind_Ok in E as (? & ?%validate_text_Ok & [= <-]).
    split; cbn; [done| |intros a Hin; rewrite elem_of_sort_dedup in Hin; by apply Ha|by exists p', d, r].
    pose proof (length_sort_dedup (wc_audiences w)). split_and!; [by apply sort_dedup_nonempty|lia|apply sort_dedup_sorted].
Qed.
Lemma context_of_wire_of c : context_valid c → context_of_wire (wire_of_context c) = Ok c.
Proof.
  intros [Hs (He & Hn & Hsort) Ha Hst]. destruct c as [state service audiences principal d r]; cbn in *.
  unfold context_of_wire; cbn. pose proof (validated_deployment_valid service audiences Hs He Hn Hsort Ha) as Hdep.
  destruct state.
  - destruct Hst as (-> & -> & ->). unfold AuthContextV1_anonymous; cbn. by rewrite Hdep.
  - destruct Hst as (p & d' & r' & -> & -> & -> & Hp & Hd & Hr). cbn. rewrite principal_of_wire_of by done. cbn.
    unfold AuthContextV1_authenticated. rewrite Hdep. cbn.
    by rewrite (proj2 (validate_text_Ok "decision_id" _ _ tt)), (proj2 (validate_text_Ok "policy_revision" _ _ tt)).
Qed.

(** ** The header carries exactly one context *)

Section stripping.
Context `{HttpHeaders}.

Lemma get_all_remove_list names (h : HeaderMap) n :
  get_all (foldl header_remove h names) n = if bool_decide (n ∈ names) then [] else get_all h n.
Proof.
  revert h. induction names as [|m names IH]; intros h; cbn; [by rewrite bool_decide_false by set_solver|].
  rewrite IH, get_all_remove. destruct (decide (n = m)) as [->|Hn].
  - rewrite (bool_decide_true (m = m)), (bool_decide_true (m ∈ m :: names)) by set_solver. by case_match.
  - rewrite (bool_decide_false (n = m)) by done. erewrite (bool_decide_ext (n ∈ m :: names)); [done|set_solver].
Qed.
Lemma get_all_stripped (h : HeaderMap) n :
  get_all (strip_reserved_auth_headers h) n = if reserved_name n then [] else get_all h n.
Proof.
  unfold strip_reserved_auth_headers. rewrite get_all_remove_list.
  destruct (bool_decide_reflect (n ∈ List.filter reserved_name (header_keys h))) as [Hin|Hin];
    rewrite elem_of_filterb, header_keys_spec in Hin.
  - by destruct Hin as [_ ->].
  - destruct (reserved_name n) eqn:E; [|done]. destruct (get_all h n) eqn:G; [done|]. destruct Hin. by rewrite ?G.
Qed.

End stripping.

Section header_properties.
Context `{HttpHeaders} `{MetadataCodecLaws}.
#[local] Set Default Proof Using "All".

Lemma decode_encoded c v : context_valid c → encode_auth_context c = Ok v → decode_auth_context v = Ok c.
Proof.
  intros Hc E. unfold encode_auth_context in E. apply rbind_Ok in E as (json & Hj%ok_or_Ok & E). cbv zeta in E.
  apply fail_Ok in E as [Hl Hv%ok_or_Ok]. unfold decode_auth_context. rewrite (to_str_from_str _ _ Hv). cbn.
  rewrite Hl, url_safe_round_trip. cbn. rewrite bool_decide_true by done. cbn.
  destruct (url_safe_encode json) eqn:Ee; [|cbn; by rewrite (context_round_trip _ _ Hj); apply context_of_wire_of].
  destruct (url_safe_not_empty json); [|done]. intros ->. by destruct (context_not_empty (wire_of_context c)).
Qed.

(** The trusted header.  Inserting a valid context leaves exactly one
    context header, which parses back to that context; every other reserved
    header that a client may have sent is gone, and every other header is as
    it was. *)
Theorem trusted_header_roundtrip (headers headers' : HeaderMap) (c : AuthContextV1)
    (Hvalid : context_valid c) (Hinsert : insert_auth_context headers c = Ok headers') :
  parse_auth_context headers' = Ok c
  ∧ length (get_all headers' AUTH_CONTEXT_HEADER) = 1%nat
  ∧ ∀ n, n ≠ AUTH_CONTEXT_HEADER →
      get_all headers' n = if reserved_name n then [] else get_all headers n.
Proof.
  unfold insert_auth_context in Hinsert. apply rbind_Ok in Hinsert as (v & Hv & [= <-]).
  unfold parse_auth_context. rewrite get_all_insert, bool_decide_true by done. split_and!; [|done|].
  - by apply decode_encoded.
  - intros n Hn. by rewrite get_all_insert, bool_decide_false, get_all_stripped by done.
Qed.

Lemma decode_valid v c : decode_auth_context v = Ok c → context_valid c.
Proof using Type.
  unfold decode_auth_context. intros (encoded & _ & E)%rbind_Ok. apply fail_Ok in E as [_ E].
  apply rbind_Ok in E as (bytes & _ & E). apply fail_Ok in E as [_ E]. apply rbind_Ok in E as (wire & _ & E).
  by eapply context_of_wire_valid.
Qed.

(** C36: What a terminal service may rely on.  A context that parses was the
    only one of the request, in canonical Base64 within 8 KiB, and has every
    bound of the contract: a service token, one to sixteen sorted audiences,
    and either nothing else or a valid principal with a decision and a policy
    revision. *)
Theorem parsed_context_valid (headers : HeaderMap) (c : AuthContextV1)
    (Hparse : parse_auth_context headers = Ok c) :
  context_valid c
  ∧ ∃ value encoded, get_all headers AUTH_CONTEXT_HEADER = [value] ∧ to_str value = Some encoded
    ∧ str_len encoded ≤ MAX_AUTH_CONTEXT_ENCODED_LEN
    ∧ ∃ bytes wire, encoded = url_safe_encode bytes ∧ context_from_slice bytes = Some wire
      ∧ wc_version wire = AUTH_CONTEXT_VERSION ∧ context_of_wire wire = Ok c.
Proof.
  unfold parse_auth_context in Hparse. destruct (get_all _ _) as [|value [|? ?]]; try discriminate Hparse.
  unfold decode_auth_context in Hparse. apply rbind_Ok in Hparse as (encoded & He%ok_or_Ok & E).
  apply fail_Ok in E as [[_ Hl]%orb_false_iff E]. apply rbind_Ok in E as (bytes & Hb%ok_or_Ok & E).
  apply fail_Ok in E as [Hcan E]. apply rbind_Ok in E as (wire & Hw%ok_or_Ok & E). bprop.
  split; [by eapply context_of_wire_valid|]. exists value, encoded. split_and!; [done|done|lia|].
  exists bytes, wire. pose proof E as [Hv _]%fail_Ok. bprop. by split_and!.
Qed.
End header_properties.
