(* ===== verification/PathPolicy.v ===== *)
(** * PathPolicy: request paths and headers of the HTTP middleware

    Models the path normalization, request-id canonicalization and
    authorization-header extraction of
    src/legacy/wasi-http-middleware/crates/policy-core/src/lib.rs.  The
    normalized path is what the policy service decides on, so a path that
    means another resource downstream must not survive it. *)

From S2P Require Export Metadata.
Open Scope Z_scope.

Definition MAX_REQUEST_ID_LEN : Z := 128.
Definition MAX_AUTHORIZATION_LEN : Z := 8 * 1024.
Definition MAX_POLICY_PATH_LEN : Z := 8 * 1024.

Inductive PolicyError :=
| InvalidGeneratedRequestId
| InvalidConfiguration (what : str)
| InvalidHeader
| DuplicateAuthorization
| InvalidAuthorization
| InvalidPolicyResponse
| InvalidPath.
#[export] Instance PolicyError_eq_dec : EqDecision PolicyError.
Proof. solve_decision. Defined.

(** ** normalize_policy_path *)

Definition hex_value (byte : Z) : option Z :=
  if in_range 48 57 byte then Some (byte - 48)
  else if in_range 97 102 byte then Some (byte - 97 + 10)
  else if in_range 65 70 byte then Some (byte - 65 + 10)
  else None.

(** An escape may not stand for a percent sign, a separator, a query or
    fragment mark, a backslash or a control character. *)
Definition forbidden_escape (b : Z) : bool :=
  one_of [37; 47; 92; 63; 35] b || is_ascii_control b.
Definition forbidden_literal (b : Z) : bool := one_of [92; 35] b || is_ascii_control b.

(** The decoding loop, over the rest of the input. *)
Fixpoint decode_path (input : list Z) : result PolicyError (list Z) :=
  match input with
  | [] => Ok []
  | byte :: rest =>
      if byte =? 37 then
        match rest with
        | h :: l :: rest =>
            let? high := ok_or (hex_value h) InvalidPath in
            let? low := ok_or (hex_value l) InvalidPath in
            let decoded_byte := Z.lor (Z.land (Z.shiftl high 4) 0xff) low in
            fail? forbidden_escape decoded_byte with InvalidPath ;;
            let? decoded := decode_path rest in
            Ok (decoded_byte :: decoded)
        | _ => Err InvalidPath
        end
      else
        fail? forbidden_literal byte with InvalidPath ;;
        let? decoded := decode_path rest in
        Ok (byte :: decoded)
  end.

Definition dot_segment (segment : str) : bool := bool_decide (segment ∈ [lit "."; lit ".."]).

Definition normalize_policy_path (path_with_query : str) : result PolicyError str :=
  let raw_path := match split_once 63 path_with_query with
                  | Some (path, _) => path
                  | None => path_with_query
                  end in
  if is_empty raw_path then Ok (lit "/")
  else
    fail? negb (starts_with (lit "/") raw_path) || (MAX_POLICY_PATH_LEN <? str_len raw_path)
      with InvalidPath ;;
    let? bytes := decode_path (str_bytes raw_path) in
    let? decoded := ok_or (from_utf8 bytes) InvalidPath in
    fail? (MAX_POLICY_PATH_LEN <? str_len decoded) || contains_str (lit "//") decoded
          || existsb dot_segment (drop 1 (split_char 47 decoded)) with InvalidPath ;;
    Ok decoded.

(** ** Request ids and authorization headers *)

Definition AUTHORIZATION : str := lit "authorization".

Definition request_id_byte (b : Z) : bool :=
  is_ascii_alphanumeric b || one_of [45; 95; 46; 58; 47] b.
Definition is_valid_request_id (value : str) : bool :=
  negb (is_empty value) && (str_len value <=? MAX_REQUEST_ID_LEN)
  && forallb request_id_byte (str_bytes value).

Section request_headers.
Context `{HttpHeaders}.

(** [RequestIdPolicy::canonicalize]; [generated] is what the generator yields. *)
Definition canonicalize (headers : HeaderMap) (generated : str) : result PolicyError str :=
  let replacement :=
    if is_valid_request_id generated then Ok generated else Err InvalidGeneratedRequestId in
  match get_all headers REQUEST_ID_HEADER with
  | [candidate] =>
      match to_str candidate with
      | Some value => if is_valid_request_id value then Ok value else replacement
      | None => replacement
      end
  | _ => replacement
  end.

Definition authorization_value (headers : HeaderMap) : result PolicyError (option str) :=
  match get_all headers AUTHORIZATION with
  | [] => Ok None
  | [value] =>
      let? value := ok_or (to_str value) InvalidAuthorization in
      fail? MAX_AUTHORIZATION_LEN <? str_len value with InvalidAuthorization ;;
      Ok (Some value)
  | _ :: _ :: _ => Err DuplicateAuthorization
  end.

Definition single_text_header (headers : HeaderMap) (name : str) : result PolicyError (option str) :=
  match get_all headers name with
  | [] => Ok None
  | [value] => rmap Some (ok_or (to_str value) InvalidHeader)
  | _ :: _ :: _ => Err InvalidHeader
  end.
End request_headers.

(** ** Lemmas *)

Lemma authorization_value_None `{HttpHeaders} (headers : HeaderMap) :
  authorization_value headers = Ok None ↔ get_all headers AUTHORIZATION = [].
Proof.
  unfold authorization_value. destruct (get_all headers AUTHORIZATION) as [|v [|? ?]]; [done| |done].
  split; [|done]. intros (? & _ & [_ ?]%fail_Ok)%rbind_Ok. done.
Qed.

Lemma elem_of_str_bytes c s : c < 128 → c ∈ str_bytes s ↔ c ∈ s.
Proof.
  intros Hc. induction s as [|d s IH]; [done|].
  change (str_bytes (d :: s)) with (utf8_char d ++ str_bytes s).
  rewrite elem_of_app, elem_of_cons, IH. apply or_iff_compat_r.
  unfold utf8_char. repeat case_match; bprop; rewrite !elem_of_cons, elem_of_nil; [tauto|..].
  all: pose proof (Z.div_pos d 64 ltac:(lia) ltac:(lia));
       pose proof (Z.div_pos d 4096 ltac:(lia) ltac:(lia));
       pose proof (Z.div_pos d 262144 ltac:(lia) ltac:(lia));
       pose proof (Z.mod_pos_bound d 64 ltac:(lia)); pose proof (Z.mod_pos_bound (d / 64) 64 ltac:(lia));
       pose proof (Z.mod_pos_bound (d / 4096) 64 ltac:(lia)); lia.
Qed.

Lemma str_bytes_head c s r : c < 128 → str_bytes s = c :: r → ∃ s', s = c :: s'.
Proof.
  intros Hc Hs. destruct s as [|d s]; [done|].
  change (str_bytes (d :: s)) with (utf8_char d ++ str_bytes s) in Hs.
  exists s. f_equal. unfold utf8_char in Hs. repeat case_match; bprop; cbn in Hs; injection Hs; [done|..];
    intros; pose proof (Z.div_pos d 64 ltac:(lia) ltac:(lia));
       pose proof (Z.div_pos d 4096 ltac:(lia) ltac:(lia));
       pose proof (Z.div_pos d 262144 ltac:(lia) ltac:(lia)); lia.
Qed.

Definition clean_byte (b : Z) : bool := negb (forbidden_literal b) && negb (b =? 37).

(** A decoded path holds no percent sign, backslash, fragment mark or control
    character, and a query mark only if it was written out. *)
Lemma decode_path_clean input bytes :
  decode_path input = Ok bytes →
  Forall (λ b, clean_byte b = true) bytes ∧ (63 ∉ input → 63 ∉ bytes).
Proof.
  remember (length input) as n eqn:Hn. revert input bytes Hn.
  induction n as [n IH] using lt_wf_ind. intros [|byte rest] bytes -> H; cbn [decode_path] in H.
  { injection H as <-. split; [constructor|set_solver]. }
  destruct (Z.eqb_spec byte 37) as [->|Hp].
  - destruct rest as [|h [|l rest]]; try done.
    apply rbind_Ok in H as (high & _ & H). apply rbind_Ok in H as (low & _ & H). cbv zeta in H.
    apply fail_Ok in H as [Hf H]. apply rbind_Ok in H as (decoded & Hd & [= <-]).
    destruct (IH (length rest) ltac:(cbn; lia) rest decoded eq_refl Hd) as [Hc Hq]. split.
    + constructor; [|done]. unfold clean_byte, forbidden_literal, forbidden_escape, one_of in *. bprop.
      set_solver.
    + rewrite !not_elem_of_cons. intros (_ & _ & _ & Hr). split; [|auto]. intros Eq. by rewrite <- Eq in Hf.
  - apply fail_Ok in H as [Hf H]. apply rbind_Ok in H as (decoded & Hd & [= <-]).
    destruct (IH (length rest) ltac:(cbn; lia) rest decoded eq_refl Hd) as [Hc Hq]. split.
    + constructor; [|done]. unfold clean_byte. rewrite Hf. cbn. by apply negb_true_iff, Z.eqb_neq.
    + rewrite !not_elem_of_cons. intros [? ?]. auto.
Qed.

Lemma decode_path_id bytes : Forall (λ b, clean_byte b = true) bytes → decode_path bytes = Ok bytes.
Proof.
  induction 1 as [|b bytes Hb _ IH]; [done|]. cbn. unfold clean_byte in Hb.
  apply andb_true_iff in Hb as [Hl Hb]. apply negb_true_iff in Hl, Hb. by rewrite Hb, Hl, IH.
Qed.

Lemma decode_path_head input bytes :
  decode_path (47 :: input) = Ok bytes → ∃ r, bytes = 47 :: r.
Proof. cbn. intros H. apply rbind_Ok in H as (r & _ & [= <-]). eauto. Qed.

(** What a policy service may rely on of a path. *)
Record safe_path (path : str) : Prop := {
  sp_absolute : ∃ rest, path = 47 :: rest;
  sp_bounded : str_len path ≤ MAX_POLICY_PATH_LEN;
  sp_chars c : c ∈ path → (c ∉ [37; 92; 63; 35]) ∧ is_ascii_control c = false;
  sp_segments : ¬ (∃ a b, path = a ++ lit "//" ++ b);
  sp_dots seg : seg ∈ drop 1 (split_char 47 path) → seg ≠ lit "." ∧ seg ≠ lit "..";
}.

Lemma decoded_chars raw bytes path :
  63 ∉ raw → decode_path (str_bytes raw) = Ok bytes → from_utf8 bytes = Some path →
  ∀ c, c ∈ path → (c ∉ [37; 92; 63; 35]) ∧ is_ascii_control c = false.
Proof.
  intros Hraw Hd Hu c Hc. apply decode_path_clean in Hd as [Hclean Hq].
  apply from_utf8_inv in Hu as [Hu _]. rewrite Forall_forall in Hclean.
  destruct (decide (c < 128)) as [Hlt|Hge].
  - assert (Hb : c ∈ bytes) by (rewrite <- Hu; by apply elem_of_str_bytes).
    assert (c ≠ 63).
    { intros ->. revert Hb. apply Hq. by rewrite elem_of_str_bytes. }
    specialize (Hclean c Hb). unfold clean_byte, forbidden_literal, one_of in Hclean. bprop.
    set_solver.
  - split; [set_solver by lia|]. unfold is_ascii_control, in_range. bprop. lia.
Qed.

(** What is left of the checks once the raw path is decoded. *)
Lemma normalize_Ok path out :
  normalize_policy_path path = Ok out →
  safe_path out ∧ wf_str out = true ∧ Forall (λ b, clean_byte b = true) (str_bytes out).
Proof.
  unfold normalize_policy_path. set (raw := match split_once 63 path with Some _ => _ | None => _ end).
  assert (Hraw : 63 ∉ raw).
  { subst raw. destruct (split_once 63 path) as [[a b]|] eqn:E.
    - by apply split_once_Some in E as [_ ?].
    - by apply split_once_None in E. }
  destruct (is_empty raw).
  { intros [= <-]. split; [|split; [done|repeat constructor]]. constructor.
    - by exists [].
    - by vm_compute.
    - intros c. change (lit "/") with [47]. rewrite list_elem_of_singleton. intros ->.
      split; [set_solver by lia|done].
    - intros (a & b & E). apply (f_equal length) in E. rewrite !length_app in E. cbn in E. lia.
    - intros seg. change (drop 1 (split_char 47 (lit "/"))) with [@nil Z].
      rewrite list_elem_of_singleton. by intros ->. }
  rewrite fail_Ok. intros [Hs H]. apply rbind_Ok in H as (bytes & Hd & H).
  apply rbind_Ok in H as (decoded & Hu & H). destruct (from_utf8 bytes) as [u|] eqn:Eu; [|done].
  injection Hu as ->. apply fail_Ok in H as [Hc [= <-]].
  rewrite !orb_false_iff in Hs. rewrite !orb_false_iff in Hc. destruct Hs as [Hs _], Hc as [[Hlen Hdd] Hdots].
  pose proof (from_utf8_inv _ _ Eu) as [Eb Hwf]. split; [|split; [done|]].
  2: { rewrite Eb. by apply decode_path_clean in Hd as [? _]. }
  apply negb_false_iff, starts_with_spec in Hs as [rest Hrest].
  constructor.
  - rewrite Hrest in Hd. apply decode_path_head in Hd as [r ->]. by apply (str_bytes_head 47 _ r).
  - by apply Z.ltb_ge.
  - by eapply decoded_chars.
  - intros Hx. by rewrite (proj2 (contains_str_spec _ _) Hx) in Hdd.
  - intros seg Hseg. rewrite existsb_false_spec in Hdots. specialize (Hdots seg Hseg).
    unfold dot_segment in Hdots. bprop. set_solver.
Qed.

Lemma normalize_safe path :
  safe_path path → wf_str path = true → Forall (λ b, clean_byte b = true) (str_bytes path) →
  normalize_policy_path path = Ok path.
Proof.
  intros [[rest Hr] Hlen Hch Hdd Hdots] Hwf Hclean. unfold normalize_policy_path.
  rewrite (proj2 (split_once_None 63 path)) by (intros Hin; apply Hch in Hin as [Hin _]; set_solver).
  destruct (is_empty path) eqn:Ee; [by subst path|].
  replace (starts_with (lit "/") path) with true
    by (symmetry; apply starts_with_spec; by exists rest).
  rewrite (proj2 (Z.ltb_ge _ _) Hlen). cbn [negb orb].
  rewrite decode_path_id by done. cbn [rbind]. rewrite from_utf8_str_bytes by done. cbn [ok_or rbind].
  rewrite (proj2 (Z.ltb_ge _ _) Hlen). cbn [orb].
  destruct (contains_str (lit "//") path) eqn:Ed; [by apply contains_str_spec in Ed|]. cbn [orb].
  replace (existsb dot_segment _) with false; [done|]. symmetry. apply existsb_false_spec.
  intros seg Hseg. apply Hdots in Hseg as [H1 H2]. unfold dot_segment. apply bool_decide_eq_false.
  rewrite !elem_of_cons, elem_of_nil. tauto.
Qed.

Section path_properties.
(** Normalization yields one safe spelling.  Whatever path and query a
    client sends, the path handed to the policy service is absolute, bounded,
    free of percent signs, backslashes, query and fragment marks and control
    characters, without empty or dot segments; and it is a fixed point, so
    decoding it again downstream cannot turn it into another path. *)
Theorem normalized_path_safe path out :
  normalize_policy_path path = Ok out →
  safe_path out ∧ normalize_policy_path out = Ok out.
Proof.
  intros (Hs & Hwf & Hc)%normalize_Ok. split; [done|]. by apply normalize_safe.
Qed.

Lemma normalized_path_safe_witness :
  safe_path (lit "/a b/c.d") ∧ normalize_policy_path (lit "/a b/c.d") = Ok (lit "/a b/c.d").
Proof.
  apply (normalized_path_safe (lit "/a%20b/c%2Ed?x=%2F..")). vm_compute. reflexivity.
Defined.

(** Doubly encoded and encoded separators never pass. *)
Example traversal_rejected :
  Forall (λ p, normalize_policy_path (lit p) = Err InvalidPath)
    ["/a/%2e%2e/b"%string; "/a/..%2fb"%string; "/a/%252e/b"%string; "/a//b"%string; "/a/./b"%string;
     "/a/%5c../b"%string; "/a%0"%string; "relative"%string; "/a%ff"%string].
Proof. repeat constructor; vm_compute; reflexivity. Qed.
End path_properties.

Section request_id_properties.
Context `{HttpHeaders}.

(** A canonical request id is always valid, and an incoming one is kept
    exactly when it is the only one and valid. *)
Lemma canonicalize_Ok headers generated v :
  canonicalize headers generated = Ok v →
  is_valid_request_id v = true ∧
  (v = generated ∨ ∃ c, get_all headers REQUEST_ID_HEADER = [c] ∧ to_str c = Some v).
Proof.
  unfold canonicalize. cbv zeta.
  destruct (is_valid_request_id generated) eqn:Eg; repeat case_match; intros [= <-]; eauto.
Qed.
End request_id_properties.

(** ** What an authentication broker may assert

    Models the broker part of
    src/legacy/wasi-http-middleware/crates/policy-core/src/lib.rs: the request
    sent to the broker, the success document it may answer with, its
    validation into claims, and the binding of claims to a deployment.  The
    JSON text of the two documents is a parameter. *)

#[local] Arguments lit : simpl never.

Record AuthnRequestV1 := mk_authn_request {
  arq_version : Z; arq_service_id : str; arq_audiences : list str; arq_request_id : str }.

Record AuthnActorV1 := mk_authn_actor { aa_issuer : str; aa_subject : str }.
Record AuthnSuccessV1 := mk_authn_success {
  as_version : Z;
  as_subject : str;
  as_issuer : str;
  as_tenant_id : option str;
  as_roles : list str;
  as_scopes : list str;
  as_acr : option str;
  as_amr : list str;
  as_actor : option AuthnActorV1;
  as_auth_time : option Z;
  as_expires_at : option Z;
  as_session_id : option str;
  as_decision_id : str;
  as_policy_revision : str;
}.
Record AuthenticatedClaimsV1 := mk_claims {
  cl_principal : PrincipalV1; cl_decision_id : str; cl_policy_revision : str }.
Definition into_context (c : AuthenticatedClaimsV1) (service_id : str) (audiences : list str) :
    result MetadataError AuthContextV1 :=
  AuthContextV1_authenticated service_id audiences (cl_principal c) (cl_decision_id c) (cl_policy_revision c).

Inductive AuthDecision :=
| Allow (claims : AuthenticatedClaimsV1)
| Unauthenticated
| DecisionUnavailable.

(** [serde_json] on the two documents, with unknown fields denied and the
    defaults of the success document. *)
Class BrokerCodec := {
  success_from_slice : list Z → option AuthnSuccessV1;
  request_to_vec : AuthnRequestV1 → option (list Z);
}.

Definition success_principal (s : AuthnSuccessV1) (actor : option ActorV1) : result MetadataError PrincipalV1 :=
  let? p := PrincipalV1_new (as_issuer s) (as_subject s) in
  let? p := principal_with_tenant_id (as_tenant_id s) p in
  let? p := principal_with_roles (as_roles s) p in
  let? p := principal_with_scopes (as_scopes s) p in
  let? p := principal_with_acr (as_acr s) p in
  let? p := principal_with_amr (as_amr s) p in
  let p := principal_with_actor actor p in
  let? p := principal_with_times (as_auth_time s) (as_expires_at s) p in
  principal_with_session_id (as_session_id s) p.
Definition authenticated_claims (s : AuthnSuccessV1) : option AuthenticatedClaimsV1 :=
  if negb (as_version s =? 1) then None
  else
    match transpose_map (λ a, ActorV1_new (aa_issuer a) (aa_subject a)) (as_actor s) with
    | Err _ => None
    | Ok actor =>
        match success_principal s actor with
        | Err _ => None
        | Ok principal =>
            match AuthContextV1_authenticated (lit "validation") [lit "validation"] principal
                    (as_decision_id s) (as_policy_revision s) with
            | Err _ => None
            | Ok _ => Some (mk_claims principal (as_decision_id s) (as_policy_revision s))
            end
        end
    end.

Definition parse_authn_response `{BrokerCodec} (status : Z) (body : list Z) : AuthDecision :=
  if status =? 200 then
    match success_from_slice body ≫= authenticated_claims with
    | Some claims => Allow claims
    | None => DecisionUnavailable
    end
  else if status =? 401 then Unauthenticated
  else DecisionUnavailable.

(** ** Claims are valid, and bind to any valid deployment *)

Record claims_valid (c : AuthenticatedClaimsV1) : Prop := {
  clv_principal : principal_valid (cl_principal c);
  clv_decision : text_ok (cl_decision_id c) MAX_CONTEXT_VALUE_LEN = true;
  clv_revision : text_ok (cl_policy_revision c) MAX_CONTEXT_VALUE_LEN = true;
}.

(** The broker's principal is the one its wire form would decode to. *)
Definition success_wire (s : AuthnSuccessV1) : WirePrincipal :=
  mk_wire_principal (as_issuer s) (as_subject s) (as_tenant_id s) (as_roles s) (as_scopes s) (as_acr s) (as_amr s)
    ((λ a, mk_wire_actor (aa_issuer a) (aa_subject a)) <$> as_actor s)
    (as_auth_time s) (as_expires_at s) (as_session_id s).
Lemma success_principal_wire s actor p :
  transpose_map (λ a, ActorV1_new (aa_issuer a) (aa_subject a)) (as_actor s) = Ok actor →
  success_principal s actor = Ok p → principal_of_wire (success_wire s) = Ok p.
Proof.
  intros Ha. unfold success_principal, principal_of_wire. cbn [success_wire wp_issuer wp_subject wp_tenant_id
    wp_roles wp_scopes wp_acr wp_amr wp_actor wp_auth_time wp_expires_at wp_session_id].
  assert (transpose_map actor_of_wire ((λ a, mk_wire_actor (aa_issuer a) (aa_subject a)) <$> as_actor s) = Ok actor)
    as -> by (by destruct (as_actor s)). cbn [rbind]. done.
Qed.
Lemma authenticated_claims_valid s c :
  authenticated_claims s = Some c →
  claims_valid c ∧ as_version s = 1 ∧ principal_of_wire (success_wire s) = Ok (cl_principal c)
  ∧ cl_decision_id c = as_decision_id s ∧ cl_policy_revision c = as_policy_revision s.
Proof.
  unfold authenticated_claims. destruct (Z.eqb_spec (as_version s) 1) as [Hv|]; cbn [negb]; [|done].
  destruct (transpose_map _ _) as [actor|] eqn:Ha; [|done].
  destruct (success_principal s actor) as [p|] eqn:Hp; [|done].
  destruct (AuthContextV1_authenticated _ _ _ _ _) as [x|] eqn:Hc; [|done]. intros [= <-]. cbn.
  pose proof (success_principal_wire _ _ _ Ha Hp) as Hw.
  unfold AuthContextV1_authenticated in Hc. apply rbind_Ok in Hc as (dep & _ & Hc).
  apply rbind_Ok in Hc as ([] & Hd%validate_text_Ok & Hc). apply rbind_Ok in Hc as ([] & Hr%validate_text_Ok & _).
  split_and!; [|done..]. split; [|done..]. by eapply principal_of_wire_valid.
Qed.
Lemma parse_authn_allow `{BrokerCodec} status body claims :
  parse_authn_response status body = Allow claims →
  status = 200 ∧ ∃ success, success_from_slice body = Some success
    ∧ authenticated_claims success = Some claims.
Proof.
  unfold parse_authn_response. destruct (Z.eqb_spec status 200) as [->|]; [|by case_match].
  destruct (success_from_slice body) as [s|]; cbn; [|done].
  destruct (authenticated_claims s) eqn:E; [|done]. intros [= <-]. eauto.
Qed.

(** What binding adds: the deployment, and nothing else. *)
Lemma into_context_Ok c service audiences ctx :
  claims_valid c → into_context c service audiences = Ok ctx →
  context_valid ctx ∧ ac_state ctx = Authenticated ∧ ac_service_id ctx = service
  ∧ ac_audiences ctx = sort_dedup audiences ∧ ac_principal ctx = Some (cl_principal c)
  ∧ ac_decision_id ctx = Some (cl_decision_id c) ∧ ac_policy_revision ctx = Some (cl_policy_revision c).
Proof.
  intros [Hp Hd Hr] E. unfold into_context, AuthContextV1_authenticated in E.
  apply rbind_Ok in E as ([s l] & (-> & Hs & -> & [He Hn] & Ha)%validated_deployment_Ok & E).
  apply rbind_Ok in E as ([] & _ & E). apply rbind_Ok in E as ([] & _ & [= <-]). cbn.
  split_and!; try done. pose proof (length_sort_dedup audiences).
  split; cbn; [done| |intros a Hin; rewrite elem_of_sort_dedup in Hin; by apply Ha|].
  - split_and!; [by apply sort_dedup_nonempty|lia|apply sort_dedup_sorted].
  - by exists (cl_principal c), (cl_decision_id c), (cl_policy_revision c).
Qed.
Lemma anonymous_Ok service audiences ctx :
  AuthContextV1_anonymous service audiences = Ok ctx →
  context_valid ctx ∧ ac_state ctx = Anonymous ∧ ac_service_id ctx = service ∧ ac_audiences ctx = sort_dedup audiences
  ∧ ac_principal ctx = None.
Proof.
  intros E. unfold AuthContextV1_anonymous in E.
  apply rbind_Ok in E as ([s l] & (-> & Hs & -> & [He Hn] & Ha)%validated_deployment_Ok & [= <-]). cbn.
  split_and!; try done. pose proof (length_sort_dedup audiences).
  split; cbn; [done| |intros a Hin; rewrite elem_of_sort_dedup in Hin; by apply Ha|done].
  split_and!; [by apply sort_dedup_nonempty|lia|apply sort_dedup_sorted].
Qed.
