(* ===== verification/Authn.v ===== *)
(** * Authn: in-process authentication of a terminal service

    Models src/legacy/wasi-http-middleware/crates/authn/src/lib.rs.  A request
    is its header map and the one extension the library installs; the broker
    transport and the clock are operations of a world. *)

From S2P Require Export PathPolicy.
Open Scope Z_scope.

#[local] Arguments lit : simpl never.

Inductive AuthenticationMode := Required | Optional.
#[export] Instance AuthenticationMode_eq_dec : EqDecision AuthenticationMode.
Proof. solve_decision. Defined.
Record AuthenticationConfig := mk_authentication_config {
  cfg_service_id : str; cfg_audiences : list str; cfg_mode : AuthenticationMode }.
Inductive AuthenticationConfigError := InvalidDeploymentIdentity.
Definition AuthenticationConfig_new (service_id : str) (audiences : list str) (mode : AuthenticationMode) :
    result AuthenticationConfigError AuthenticationConfig :=
  let? context := map_err (λ _, InvalidDeploymentIdentity) (AuthContextV1_anonymous service_id audiences) in
  Ok (mk_authentication_config (ac_service_id context) (ac_audiences context) mode).
(** [TrustedIngressConfig] wraps an [AuthenticationConfig] in optional mode. *)
Definition TrustedIngressConfig_new (service_id : str) (audiences : list str) :
    result AuthenticationConfigError AuthenticationConfig :=
  AuthenticationConfig_new service_id audiences Optional.

Inductive BrokerTransportError := TransportUnavailable.
Inductive AuthnRejection :=
| InvalidRequest | InvalidBoundary | MissingCredentials | InvalidCredentials | Unavailable.
#[export] Instance AuthnRejection_eq_dec : EqDecision AuthnRejection.
Proof. solve_decision. Defined.

(** The transport may change the world in any way and answers a decision. *)
Class BrokerTransport (W : Type) := {
  transport_authenticate : AuthnRequestV1 → str → W → result BrokerTransportError AuthDecision * W;
  unix_time : W → Z;
}.

Section authn.
Context `{HttpHeaders} `{MetadataCodec} {W : Type} `{BrokerTransport W}.

Record HttpRequest := mk_http_request { hr_headers : HeaderMap; hr_verified : option AuthContextV1 }.

Definition canonical_request_id (request : HttpRequest) : option str :=
  match get_all (hr_headers request) REQUEST_ID_HEADER with
  | [value] =>
      match to_str value with
      | Some value => if is_valid_request_id value then Some value else None
      | None => None
      end
  | _ => None
  end.
Definition sanitize_headers (request : HttpRequest) : HttpRequest :=
  mk_http_request (strip_reserved_auth_headers (header_remove (hr_headers request) AUTHORIZATION))
    (hr_verified request).
Definition validate_lifetime (context : AuthContextV1) (now : Z) : result AuthnRejection unit :=
  match ac_principal context ≫= pv_expires_at with
  | Some expires_at => fail? expires_at <=? now with InvalidCredentials ;; Ok tt
  | None => Ok tt
  end.
Definition install_verified (request : HttpRequest) (context : AuthContextV1) : HttpRequest :=
  mk_http_request (hr_headers request) (Some context).

(** [Authenticator::authenticate_request]: the result, the request as it is
    left, and the world. *)
Definition authenticate_request (config : AuthenticationConfig) (request : HttpRequest) (w : W) :
    result AuthnRejection AuthContextV1 * HttpRequest * W :=
  let authorization := authorization_value (hr_headers request) in
  let request_id := canonical_request_id request in
  let request := sanitize_headers request in
  match authorization with
  | Err _ => (Err InvalidRequest, request, w)
  | Ok None =>
      if bool_decide (cfg_mode config = Required) then (Err MissingCredentials, request, w)
      else
        match AuthContextV1_anonymous (cfg_service_id config) (cfg_audiences config) with
        | Err _ => (Err Unavailable, request, w)
        | Ok context => (Ok context, install_verified request context, w)
        end
  | Ok (Some authorization) =>
      match request_id with
      | None => (Err InvalidRequest, request, w)
      | Some request_id =>
          let broker_request :=
            mk_authn_request 1 (cfg_service_id config) (cfg_audiences config) request_id in
          let '(decision, w) := transport_authenticate broker_request authorization w in
          match decision with
          | Err _ => (Err Unavailable, request, w)
          | Ok Unauthenticated => (Err InvalidCredentials, request, w)
          | Ok DecisionUnavailable => (Err Unavailable, request, w)
          | Ok (Allow claims) =>
              match into_context claims (cfg_service_id config) (cfg_audiences config) with
              | Err _ => (Err Unavailable, request, w)
              | Ok context =>
                  match validate_lifetime context (unix_time w) with
                  | Err e => (Err e, request, w)
                  | Ok _ => (Ok context, install_verified request context, w)
                  end
              end
          end
      end
  end.

Definition accept_trusted_ingress (config : AuthenticationConfig) (request : HttpRequest) (w : W) :
    result AuthnRejection AuthContextV1 * HttpRequest :=
  let had_authorization := negb (bool_decide (get_all (hr_headers request) AUTHORIZATION = [])) in
  let parsed := parse_auth_context (hr_headers request) in
  let request := sanitize_headers request in
  if had_authorization then (Err InvalidBoundary, request)
  else
    match parsed with
    | Err _ => (Err InvalidBoundary, request)
    | Ok context =>
        if negb (bool_decide (ac_service_id context = cfg_service_id config))
           || negb (existsb (λ expected, existsb (λ actual, bool_decide (actual = expected)) (ac_audiences context))
                      (cfg_audiences config))
        then (Err InvalidBoundary, request)
        else
          match validate_lifetime context (unix_time w) with
          | Err _ => (Err InvalidBoundary, request)
          | Ok _ => (Ok context, install_verified request context)
          end
    end.
End authn.

(** ** Properties *)

Section properties.
Context `{HttpHeaders} `{MetadataCodec} {W : Type} `{BrokerTransport W}.

(** A header a terminal service must never see. *)
Definition forbidden_header (n : str) : bool := bool_decide (n = AUTHORIZATION) || reserved_name n.

Lemma sanitized_headers (request : HttpRequest) n :
  get_all (hr_headers (sanitize_headers request)) n =
    if forbidden_header n then [] else get_all (hr_headers request) n.
Proof.
  unfold sanitize_headers, forbidden_header. cbn [hr_headers].
  rewrite get_all_stripped, get_all_remove.
  by destruct (bool_decide (n = AUTHORIZATION)), (reserved_name n).
Qed.

(** What every path of the two entry points leaves of the request. *)
Definition left_sanitized (request request' : HttpRequest) (res : result AuthnRejection AuthContextV1) : Prop :=
  request' = match res with
             | Ok context => install_verified (sanitize_headers request) context
             | Err _ => sanitize_headers request
             end.
Lemma authenticate_request_left config request w res request' w' :
  authenticate_request config request w = (res, request', w') → left_sanitized request request' res.
Proof.
  unfold authenticate_request, left_sanitized. intros E.
  repeat case_match; simplify_eq; done.
Qed.
Lemma accept_trusted_ingress_left config request w res request' :
  accept_trusted_ingress config request w = (res, request') → left_sanitized request request' res.
Proof.
  unfold accept_trusted_ingress, left_sanitized. intros E.
  repeat case_match; simplify_eq; done.
Qed.

(** No credential and no client-supplied trusted metadata survives
    authentication.  On every path of both entry points, errors included, the
    request keeps exactly the headers that are neither the authorization header
    nor reserved, and a context is installed exactly when it is returned. *)
Theorem credentials_never_survive (config : AuthenticationConfig) (request request' : HttpRequest) (w w' : W)
    (res : result AuthnRejection AuthContextV1)
    (Hrun : authenticate_request config request w = (res, request', w')
            ∨ accept_trusted_ingress config request w = (res, request')) :
  (∀ n, get_all (hr_headers request') n = if forbidden_header n then [] else get_all (hr_headers request) n)
  ∧ hr_verified request' = match res with Ok context => Some context | Err _ => hr_verified request end.
Proof.
  assert (left_sanitized request request' res) as Hl.
  { destruct Hrun as [E|E]; [by eapply authenticate_request_left|by eapply accept_trusted_ingress_left]. }
  unfold left_sanitized in Hl. rewrite Hl. destruct res; (split; [intros n; apply sanitized_headers|done]).
Qed.

Definition unexpired (context : AuthContextV1) (now : Z) : Prop :=
  ∀ p t, ac_principal context = Some p → pv_expires_at p = Some t → now < t.
Lemma validate_lifetime_Ok context now u : validate_lifetime context now = Ok u ↔ unexpired context now.
Proof.
  unfold validate_lifetime, unexpired. destruct (ac_principal context) as [p|]; cbn; [|destruct u; naive_solver].
  destruct (pv_expires_at p) as [t|] eqn:Et; [|destruct u; naive_solver].
  rewrite fail_Ok. bprop. destruct u. split; [intros [? _] ? ? [= <-]; rewrite Et; by intros [= <-]|].
  intros Hx. split; [by apply (Hx p t)|done].
Qed.

(** The configurations that [AuthenticationConfig::new] makes. *)
Definition config_made (config : AuthenticationConfig) : Prop :=
  ∃ service audiences, AuthenticationConfig_new service audiences (cfg_mode config) = Ok config.
Lemma config_made_sorted config : config_made config → ssorted (cfg_audiences config).
Proof.
  intros (s & l & E). unfold AuthenticationConfig_new in E.
  apply rbind_Ok in E as (c & (_ & _ & _ & Ha & _)%map_err_Ok%anonymous_Ok & E).
  assert (cfg_audiences config = ac_audiences c) as -> by (by injection E as <-).
  rewrite Ha. apply sort_dedup_sorted.
Qed.

(** A verified context is earned.  Authentication succeeds only with a
    valid, unexpired context bound to the configured service and audiences,
    and only in two ways: an anonymous context in optional mode, for a request
    with no authorization header and without asking the broker; or the claims
    that the broker allowed for the single authorization value and canonical
    request identifier of this request. *)
Theorem authentication_earned (config : AuthenticationConfig) (request request' : HttpRequest) (w w' : W)
    (context : AuthContextV1) (Hconfig : config_made config)
    (Hclaims : ∀ req auth w claims w', transport_authenticate req auth w = (Ok (Allow claims), w') → claims_valid claims)
    (Hrun : authenticate_request config request w = (Ok context, request', w')) :
  context_valid context
  ∧ ac_service_id context = cfg_service_id config ∧ ac_audiences context = cfg_audiences config
  ∧ unexpired context (unix_time w')
  ∧ (ac_state context = Anonymous ∧ cfg_mode config = Optional
       ∧ get_all (hr_headers request) AUTHORIZATION = [] ∧ w' = w
     ∨ ∃ authorization request_id claims,
         ac_state context = Authenticated
         ∧ authorization_value (hr_headers request) = Ok (Some authorization)
         ∧ canonical_request_id request = Some request_id
         ∧ transport_authenticate
             (mk_authn_request 1 (cfg_service_id config) (cfg_audiences config) request_id) authorization w
           = (Ok (Allow claims), w')
         ∧ into_context claims (cfg_service_id config) (cfg_audiences config) = Ok context).
Proof.
  apply config_made_sorted in Hconfig. unfold authenticate_request in Hrun. cbv zeta in Hrun.
  destruct (authorization_value (hr_headers request)) as [[authorization|]|] eqn:Ea; [| |discriminate Hrun].
  - destruct (canonical_request_id request) as [rid|] eqn:Er; [|discriminate Hrun].
    destruct (transport_authenticate _ authorization w) as [[[claims| |]|] w1] eqn:Et; try discriminate Hrun.
    destruct (into_context claims _ _) as [c|] eqn:Ei; [|discriminate Hrun].
    destruct (validate_lifetime c (unix_time w1)) eqn:El; [|discriminate Hrun].
    injection Hrun as -> _ ->. apply validate_lifetime_Ok in El.
    destruct (into_context_Ok _ _ _ _ (Hclaims _ _ _ _ _ Et) Ei) as (Hv & Hst & Hs & Haud & _).
    rewrite sort_dedup_id in Haud by done. split_and!; try done. right. by exists authorization, rid, claims.
  - destruct (bool_decide_reflect (cfg_mode config = Required)) as [|Hm]; [discriminate Hrun|].
    destruct (AuthContextV1_anonymous _ _) as [c|] eqn:Ec; [|discriminate Hrun]. injection Hrun as -> _ ->.
    apply anonymous_Ok in Ec as (Hv & Hst & Hs & Haud & Hp). rewrite sort_dedup_id in Haud by done.
    split_and!; try done; [intros p t; by rewrite Hp|]. left. split_and!; [done|by destruct (cfg_mode config)| |done].
    by apply authorization_value_None.
Qed.

(** The private boundary, exactly.  A request is accepted from the trusted
    ingress precisely when it carries no authorization header and its single
    context header parses to an unexpired context of this service that shares
    an audience with the configuration; anything else is an invalid boundary. *)
Theorem ingress_boundary_exact (config : AuthenticationConfig) (request : HttpRequest) (w : W)
    (context : AuthContextV1) :
  ((accept_trusted_ingress config request w).1 = Ok context ↔
     get_all (hr_headers request) AUTHORIZATION = []
     ∧ parse_auth_context (hr_headers request) = Ok context
     ∧ ac_service_id context = cfg_service_id config
     ∧ (∃ a, a ∈ ac_audiences context ∧ a ∈ cfg_audiences config)
     ∧ unexpired context (unix_time w))
  ∧ ∀ e, (accept_trusted_ingress config request w).1 = Err e → e = InvalidBoundary.
Proof.
  unfold accept_trusted_ingress. cbv zeta. split.
  2: { intros e. repeat case_match; naive_solver. }
  destruct (bool_decide_reflect (get_all (hr_headers request) AUTHORIZATION = [])) as [Ha|Ha]; cbn; [|naive_solver].
  destruct (parse_auth_context (hr_headers request)) as [c|] eqn:Ep; [|naive_solver].
  destruct (bool_decide_reflect (ac_service_id c = cfg_service_id config)) as [Hs|Hs]; cbn; [|naive_solver].
  destruct (existsb _ (cfg_audiences config)) eqn:Ex; cbn.
  - apply existsb_spec in Ex as (a & Ha1 & (a' & Ha2 & Heq)%existsb_spec). bprop. subst a'.
    destruct (validate_lifetime c (unix_time w)) as [[]|] eqn:El; cbn.
    + apply validate_lifetime_Ok in El. split; [intros [= <-]; eauto 10|]. by intros (_ & [= ->] & _).
    + split; [done|]. intros (_ & [= ->] & _ & _ & Hu). by rewrite (proj2 (validate_lifetime_Ok _ _ tt) Hu) in El.
  - split; [done|]. intros (_ & [= ->] & _ & (a & Hin & Hin2) & _). rewrite existsb_false_spec in Ex.
    specialize (Ex a Hin2). rewrite existsb_false_spec in Ex. specialize (Ex a Hin). by bprop.
Qed.
End properties.
