(* ===== verification/WasiFields.v ===== *)
(** * WasiFields: the header helpers of the WASI HTTP middleware

    Models src/legacy/wasi-http-middleware/crates/component-support/src/lib.rs:
    header lists compared without regard to ASCII case, the two ways in which a
    component rewrites the headers of a message (a difference against a desired
    list, and a list of edits), the request identifiers it generates, and the
    rebuilding of requests and responses around an untouched body.  The host's
    [wasi:http/types] resources are a class with the documented behaviour of
    [fields]; the [http] crate's additions to the header map are another. *)

From S2P Require Export PathPolicy.
Open Scope Z_scope.

#[local] Arguments lit : simpl never.

(** ** Header lists *)

Definition Header : Type := str * list Z.

Definition named (name : str) (h : Header) : bool := eq_ignore_ascii_case h.1 name.
Definition header_values (headers : list Header) (name : str) : list (list Z) :=
  map snd (List.filter (named name) headers).
Definition single_header_value (headers : list Header) (name : str) : option (list Z) :=
  match header_values headers name with [value] => Some value | _ => None end.
Definition remove_header (headers : list Header) (name : str) : list Header :=
  List.filter (λ h, negb (named name h)) headers.
Definition prefix_named (prefix candidate : str) : bool :=
  match get_to (str_len prefix) candidate with
  | Some start => eq_ignore_ascii_case start prefix
  | None => false
  end.
Definition remove_headers_with_prefix (headers : list Header) (prefix : str) : list Header :=
  List.filter (λ h, negb (prefix_named prefix h.1)) headers.
Definition set_header (headers : list Header) (name : str) (value : list Z) : list Header :=
  remove_header headers name ++ [(to_ascii_lowercase name, value)].
Definition contains_header_name (headers : list Header) (name : str) : bool :=
  existsb (named name) headers.
Definition header_values_equal (original desired : list Header) (name : str) : bool :=
  bool_decide (header_values original name = header_values desired name).

(** The three copies of the same loop over names: the first spelling stays. *)
Definition unique_names (names : list str) : list str :=
  foldl (λ unique name,
           if existsb (λ existing, eq_ignore_ascii_case existing name) unique then unique
           else unique ++ [name]) [] names.
Definition unique_replacement_names (replacements : list Header) : list str :=
  unique_names (map fst replacements).
Definition unique_header_names (headers : list Header) : list str := unique_names (map fst headers).

(** ** Generated request identifiers *)

Definition REQUEST_ID_PREFIX_BYTES : nat := 16.
(** [REQUEST_ID_PREFIX] and [REQUEST_ID_SEQUENCE] of one component instance. *)
Record RequestIds := { ids_prefix : option (list Z); ids_sequence : Z }.
Definition random_request_id_prefix (random : list Z) : list Z :=
  take REQUEST_ID_PREFIX_BYTES random ++ drop (length random) (replicate REQUEST_ID_PREFIX_BYTES 0).
Definition HEX : str := lit "0123456789abcdef".
Definition hex_at (n : Z) : Z := default 0 (HEX !! Z.to_nat n).
Definition encode_request_id (prefix : list Z) (sequence : Z) : str :=
  (prefix ++ to_be_bytes sequence) ≫= λ byte,
    [hex_at (Z.shiftr byte 4); hex_at (Z.land byte 0x0f)].
(** [random] is what the host's random source answers on first use. *)
Definition generated_request_id (random : list Z) (ids : RequestIds) : str * RequestIds :=
  let prefix := match ids_prefix ids with
                | Some prefix => prefix
                | None => random_request_id_prefix random
                end in
  (encode_request_id prefix (ids_sequence ids),
   {| ids_prefix := Some prefix; ids_sequence := (ids_sequence ids + 1) mod 2 ^ 64 |}).

(** ** Between header lists and header maps *)

(** What the helpers use of the [http] crate beyond [HttpHeaders]. *)
Class HeaderBytes `{HttpHeaders} := {
  header_append : HeaderMap → str → HeaderValue → HeaderMap;
  value_from_bytes : list Z → option HeaderValue;
  as_bytes : HeaderValue → list Z;
  set_sensitive : HeaderValue → HeaderValue;
  (** [HeaderName::from_bytes], on the text of the bytes. *)
  header_name : str → option str;
}.
Class HeaderBytesLaws `{HeaderBytes} : Prop := {
  get_all_append h n v m :
    get_all (header_append h n v) m = if bool_decide (m = n) then get_all h m ++ [v] else get_all h m;
  as_bytes_from_bytes b v : value_from_bytes b = Some v → as_bytes v = b;
  as_bytes_sensitive v : as_bytes (set_sensitive v) = as_bytes v;
  as_bytes_text v s : to_str v = Some s → as_bytes v = str_bytes s;
  to_str_bytes v v' : as_bytes v = as_bytes v' → to_str v = to_str v';
  to_str_visible v s : as_bytes v = s → forallb visible_ascii s = true → to_str v = Some s;
  header_name_lower s n : header_name s = Some n → n = to_ascii_lowercase s;
}.

Inductive HeaderConversionError := Mk_HeaderConversionError.

Section conversion.
Context `{HeaderBytes}.

Definition is_sensitive_header (name : str) : bool :=
  bool_decide (name ∈ [lit "authorization"; lit "proxy-authorization"; lit "cookie"; lit "set-cookie"])
  || starts_with (lit "x-wasi-auth-") name.
Definition convert_header (output : HeaderMap) (h : Header) : result HeaderConversionError HeaderMap :=
  let? name := ok_or (header_name h.1) Mk_HeaderConversionError in
  let? value := ok_or (value_from_bytes h.2) Mk_HeaderConversionError in
  Ok (header_append output name (if is_sensitive_header name then set_sensitive value else value)).
Definition to_header_map (headers : list Header) : result HeaderConversionError HeaderMap :=
  try_fold convert_header empty_headers headers.
Definition from_header_map (headers : HeaderMap) : list Header :=
  header_keys headers ≫= λ name, map (λ value, (name, as_bytes value)) (get_all headers name).
Definition merge_header_map (target : list Header) (source : HeaderMap) : list Header :=
  foldl (λ target name,
           remove_header target name ++ map (λ value, (name, as_bytes value)) (get_all source name))
        target (header_keys source).
End conversion.

(** ** The host's HTTP resources *)

Inductive WasiMethod :=
| MGet | MHead | MPost | MPut | MDelete | MConnect | MOptions | MTrace | MPatch | MOther (name : str).
Inductive WasiScheme := SHttp | SHttps | SOther (name : str).
#[export] Instance WasiMethod_eq_dec : EqDecision WasiMethod.
Proof. solve_decision. Defined.
#[export] Instance WasiScheme_eq_dec : EqDecision WasiScheme.
Proof. solve_decision. Defined.

(** The errors the components raise or tell apart, and any other of the host. *)
Inductive ErrorCode :=
| HttpRequestHeaderSectionSize
| HttpResponseHeaderSectionSize
| InternalError
| DnsTimeout
| ConnectionTimeout
| ConnectionReadTimeout
| ConnectionWriteTimeout
| HttpResponseTimeout
| HostError (code : str).
#[export] Instance ErrorCode_eq_dec : EqDecision ErrorCode.
Proof. solve_decision. Defined.

(** [wasi:http/types]: [fields] with its fallible edits, the streams of a
    message, and what the setters of a request or response accept. *)
Class WasiHttp := {
  Fields : Type;
  Body : Type;
  Options : Type;
  no_body : Body;
  copy_all : Fields → list Header;
  fields_delete : Fields → str → option Fields;
  fields_set : Fields → str → list (list Z) → option Fields;
  fields_append : Fields → str → list Z → option Fields;
  fields_from_list : list Header → option Fields;
  accepts_method : WasiMethod → bool;
  accepts_scheme : option WasiScheme → bool;
  accepts_path : option str → bool;
  accepts_authority : option str → bool;
  accepts_status : Z → bool;
}.
(** The documented behaviour of [fields]: names are compared without regard to
    case, [delete] and [set] affect every value of a name, [append] adds one
    after the others. *)
Class WasiHttpLaws `{WasiHttp} : Prop := {
  values_delete f n f' m :
    fields_delete f n = Some f' →
    header_values (copy_all f') m =
      if eq_ignore_ascii_case n m then [] else header_values (copy_all f) m;
  values_set f n vs f' m :
    fields_set f n vs = Some f' →
    header_values (copy_all f') m =
      if eq_ignore_ascii_case n m then vs else header_values (copy_all f) m;
  values_append f n v f' m :
    fields_append f n v = Some f' →
    header_values (copy_all f') m =
      header_values (copy_all f) m ++ if eq_ignore_ascii_case n m then [v] else [];
  values_from_list l f m :
    fields_from_list l = Some f → header_values (copy_all f) m = header_values l m;
}.

Section messages.
Context `{WasiHttp}.

Record Request := mk_request {
  rq_headers : Fields; rq_method : WasiMethod; rq_scheme : option WasiScheme;
  rq_path : option str; rq_authority : option str; rq_options : option Options; rq_body : Body }.
Record Response := mk_response { rs_status : Z; rs_headers : Fields; rs_body : Body }.

Definition request_headers (request : Request) : list Header := copy_all (rq_headers request).
Definition response_headers (response : Response) : list Header := copy_all (rs_headers response).

Definition apply_header_diff (fields : Fields) (original desired : list Header) : result unit Fields :=
  let? fields := try_fold (λ fields name,
      if negb (contains_header_name desired name) then ok_or (fields_delete fields name) tt else Ok fields)
    fields (unique_header_names original) in
  try_fold (λ fields name,
      if negb (header_values_equal original desired name)
      then ok_or (fields_set fields name (header_values desired name)) tt
      else Ok fields)
    fields (unique_header_names desired).

Definition apply_header_edits (fields : Fields) (delete_names : list str) (replacements : list Header) :
    result unit Fields :=
  let? fields := try_fold (λ fields name, ok_or (fields_delete fields name) tt) fields (unique_names delete_names) in
  let? fields := try_fold (λ fields name, ok_or (fields_delete fields name) tt) fields
                   (unique_replacement_names replacements) in
  try_fold (λ fields h, ok_or (fields_append fields h.1 h.2) tt) fields replacements.

(** [Request::new] with the body and options of the original, and its
    metadata set again. *)
Definition restore_request_metadata (forwarded : Request) (method : WasiMethod)
    (scheme : option WasiScheme) (path authority : option str) : result ErrorCode Request :=
  fail? negb (accepts_method method) with InternalError ;;
  fail? negb (accepts_scheme scheme) with InternalError ;;
  fail? negb (accepts_path path) with InternalError ;;
  fail? negb (accepts_authority authority) with InternalError ;;
  Ok (mk_request (rq_headers forwarded) method scheme path authority (rq_options forwarded) (rq_body forwarded)).
Definition new_request (headers : Fields) (body : Body) (options : option Options) : Request :=
  mk_request headers MGet None None None options body.
Definition forward_request (request : Request) (headers : Fields) : result ErrorCode Request :=
  restore_request_metadata (new_request headers (rq_body request) (rq_options request))
    (rq_method request) (rq_scheme request) (rq_path request) (rq_authority request).
Definition forward_response (response : Response) (headers : Fields) : result ErrorCode Response :=
  fail? negb (accepts_status (rs_status response)) with InternalError ;;
  Ok (mk_response (rs_status response) headers (rs_body response)).

Definition replace_request_headers_from_original (request : Request) (original headers : list Header) :
    result ErrorCode Request :=
  let? fields := map_err (λ _, HttpRequestHeaderSectionSize)
                   (apply_header_diff (rq_headers request) original headers) in
  forward_request request fields.
Definition replace_request_headers (request : Request) (headers : list Header) : result ErrorCode Request :=
  replace_request_headers_from_original request (request_headers request) headers.
Definition edit_request_headers (request : Request) (delete_names : list str) (replacements : list Header) :
    result ErrorCode Request :=
  let? fields := map_err (λ _, HttpRequestHeaderSectionSize)
                   (apply_header_edits (rq_headers request) delete_names replacements) in
  forward_request request fields.
Definition replace_response_headers_from_original (response : Response) (original headers : list Header) :
    result ErrorCode Response :=
  let? fields := map_err (λ _, HttpResponseHeaderSectionSize)
                   (apply_header_diff (rs_headers response) original headers) in
  forward_response response fields.
Definition replace_response_headers (response : Response) (headers : list Header) : result ErrorCode Response :=
  replace_response_headers_from_original response (response_headers response) headers.
Definition edit_response_headers_from_original (response : Response) (original_headers : Fields)
    (delete_names : list str) (replacements : list Header) : result ErrorCode Response :=
  let? fields := map_err (λ _, HttpResponseHeaderSectionSize)
                   (apply_header_edits original_headers delete_names replacements) in
  forward_response response fields.
Definition edit_response_headers (response : Response) (delete_names : list str) (replacements : list Header) :
    result ErrorCode Response :=
  edit_response_headers_from_original response (rs_headers response) delete_names replacements.

Definition empty_response (status : Z) (headers : list Header) : result ErrorCode Response :=
  let headers := if negb (contains_header_name headers (lit "content-length"))
                 then headers ++ [(lit "content-length", lit "0")] else headers in
  let? headers := ok_or (fields_from_list headers) HttpResponseHeaderSectionSize in
  fail? negb (accepts_status status) with InternalError ;;
  Ok (mk_response status headers no_body).
End messages.

(** ** Names up to ASCII case *)

Lemma ci_spec n m : eq_ignore_ascii_case n m = true ↔ to_ascii_lowercase n = to_ascii_lowercase m.
Proof. apply bool_decide_eq_true. Qed.
Lemma ci_refl n : eq_ignore_ascii_case n n = true.
Proof. by apply ci_spec. Qed.
Lemma ci_sym n m : eq_ignore_ascii_case n m = eq_ignore_ascii_case m n.
Proof. unfold eq_ignore_ascii_case. by apply bool_decide_ext. Qed.
Lemma ci_congr n n' m : eq_ignore_ascii_case n n' = true → eq_ignore_ascii_case m n = eq_ignore_ascii_case m n'.
Proof. intros E%ci_spec. unfold eq_ignore_ascii_case. by rewrite E. Qed.
Lemma ascii_lower_idemp c : ascii_lower (ascii_lower c) = ascii_lower c.
Proof.
  unfold ascii_lower, is_ascii_uppercase, in_range.
  destruct ((65 <=? c) && (c <=? 90)) eqn:E; [|by rewrite E]. bprop.
  destruct ((65 <=? c + 32) && (c + 32 <=? 90)) eqn:E'; [bprop; lia|done].
Qed.
Lemma lower_idemp s : to_ascii_lowercase (to_ascii_lowercase s) = to_ascii_lowercase s.
Proof. unfold to_ascii_lowercase. rewrite map_map. apply map_ext, ascii_lower_idemp. Qed.

(** Two spellings of a name have the same values. *)
Lemma header_values_ci l n m : eq_ignore_ascii_case n m = true → header_values l n = header_values l m.
Proof.
  intros E. unfold header_values. f_equal. apply filter_ext. intros h. by apply ci_congr.
Qed.
Lemma header_values_app l l' n : header_values (l ++ l') n = header_values l n ++ header_values l' n.
Proof. unfold header_values. by rewrite List.filter_app, map_app. Qed.
Lemma header_values_cons k v l n :
  header_values ((k, v) :: l) n = if eq_ignore_ascii_case k n then v :: header_values l n else header_values l n.
Proof. unfold header_values, named at 1. cbn. by destruct eq_ignore_ascii_case. Qed.
Lemma header_values_nil_iff l n : header_values l n = [] ↔ contains_header_name l n = false.
Proof.
  unfold contains_header_name. induction l as [|[k v] l IH]; [done|].
  rewrite header_values_cons. cbn. unfold named at 1. cbn. destruct (eq_ignore_ascii_case k n); [done|apply IH].
Qed.
Lemma header_values_remove l n m :
  header_values (remove_header l n) m = if eq_ignore_ascii_case n m then [] else header_values l m.
Proof.
  unfold remove_header. induction l as [|[k v] l IH]; [cbn; by case_match|].
  cbn [List.filter]. unfold named at 1. cbn [fst]. rewrite (header_values_cons k v l).
  destruct (eq_ignore_ascii_case k n) eqn:Ek; cbn [negb]; [|rewrite header_values_cons]; rewrite IH.
  - destruct (eq_ignore_ascii_case n m) eqn:En; [done|].
    by rewrite (ci_sym k m), (ci_congr _ _ m Ek), (ci_sym m n), En.
  - destruct (eq_ignore_ascii_case n m) eqn:En; [|done].
    by rewrite <- (ci_congr _ _ k En), Ek.
Qed.
Lemma header_values_set l n v m :
  header_values (set_header l n v) m = if eq_ignore_ascii_case n m then [v] else header_values l m.
Proof.
  unfold set_header. rewrite header_values_app, header_values_remove, header_values_cons.
  replace (eq_ignore_ascii_case (to_ascii_lowercase n) m) with (eq_ignore_ascii_case n m).
  - destruct eq_ignore_ascii_case; [done|by rewrite app_nil_r].
  - unfold eq_ignore_ascii_case. by rewrite lower_idemp.
Qed.

(** For an ASCII prefix, [get] and the comparison test the characters. *)
Lemma prefix_named_spec prefix s :
  is_ascii prefix = true →
  prefix_named prefix s = starts_with (to_ascii_lowercase prefix) (to_ascii_lowercase s).
Proof.
  unfold prefix_named, eq_ignore_ascii_case. revert s.
  induction prefix as [|p prefix IH]; intros s Ha.
  { destruct s; cbn; by rewrite ?bool_decide_true by done. }
  cbn in Ha. apply andb_true_iff in Ha as [Hp Ha]. apply Z.ltb_lt in Hp.
  assert (str_len (p :: prefix) = 1 + str_len prefix) as Hlen.
  { change (p :: prefix) with ([p] ++ prefix). rewrite str_len_app. f_equal.
    unfold str_len, str_bytes. cbn. unfold utf8_char. destruct (Z.ltb_spec p 128); [done|lia]. }
  pose proof (str_len_nonneg prefix). rewrite Hlen. destruct s as [|c s]; cbn [get_to].
  { rewrite (proj2 (Z.leb_gt _ _)) by lia. done. }
  rewrite (proj2 (Z.leb_gt _ _)) by lia. cbv zeta. pose proof (length_utf8_char c).
  assert (starts_with (to_ascii_lowercase (p :: prefix)) (to_ascii_lowercase (c :: s))
          = bool_decide (ascii_lower p = ascii_lower c)
            && starts_with (to_ascii_lowercase prefix) (to_ascii_lowercase s)) as ->.
  { unfold starts_with. cbn [to_ascii_lowercase map strip_prefix].
    fold (to_ascii_lowercase prefix) (to_ascii_lowercase s).
    destruct (bool_decide_reflect (ascii_lower p = ascii_lower c)) as [->|Hn]; cbn.
    - by rewrite ?decide_True, ?Z.eqb_refl by done.
    - rewrite ?decide_False, ?(proj2 (Z.eqb_neq _ _)) by done. by rewrite bool_decide_false by (by intros [? ?]). }
  destruct (Z.ltb_spec c 128) as [Hc|Hc].
  - assert (length (utf8_char c) = 1%nat) as ->.
    { unfold utf8_char. destruct (Z.ltb_spec c 128); [done|lia]. }
    rewrite (proj2 (Z.ltb_ge _ _)) by lia. replace (1 + str_len prefix - Z.of_nat 1) with (str_len prefix) by lia.
    rewrite <- (IH s Ha). destruct (get_to (str_len prefix) s) as [r|]; cbn; [|by rewrite andb_false_r].
    rewrite <- bool_decide_and. apply bool_decide_ext.
    cbn. split; [intros [= ? ?]|intros [? ?]; f_equal]; done.
  - assert (ascii_lower p ≠ ascii_lower c) as Hne.
    { unfold ascii_lower, is_ascii_uppercase, in_range. intros E.
      repeat (case_match; bprop); lia. }
    rewrite (bool_decide_false _ Hne). cbn. destruct (_ <? _); [done|].
    destruct (get_to _ s); cbn; [|done]. apply bool_decide_false. cbn. by intros [= ? ?].
Qed.

Lemma unique_names_loop names acc n :
  existsb (λ u, eq_ignore_ascii_case u n)
    (foldl (λ unique name,
       if existsb (λ existing, eq_ignore_ascii_case existing name) unique then unique
       else unique ++ [name]) acc names)
  = existsb (λ u, eq_ignore_ascii_case u n) acc || existsb (λ u, eq_ignore_ascii_case u n) names.
Proof.
  revert acc. induction names as [|x names IH]; intros acc; cbn; [by rewrite orb_false_r|].
  rewrite IH. destruct (existsb (λ existing, eq_ignore_ascii_case existing x) acc) eqn:E.
  - destruct (eq_ignore_ascii_case x n) eqn:En; [|by destruct (existsb _ acc)].
    assert (existsb (λ u, eq_ignore_ascii_case u n) acc = true) as ->; [|done].
    apply existsb_spec in E as (u & Hu & E). apply existsb_spec. exists u. split; [done|].
    by rewrite <- (ci_congr _ _ u En).
  - rewrite existsb_app. cbn [existsb]. by rewrite orb_false_r, orb_assoc.
Qed.
(** The unique names are the names, up to case. *)
Lemma unique_names_spec names n :
  existsb (λ u, eq_ignore_ascii_case u n) (unique_names names)
  = existsb (λ u, eq_ignore_ascii_case u n) names.
Proof. apply unique_names_loop. Qed.
Lemma unique_header_names_spec l n :
  existsb (λ u, eq_ignore_ascii_case u n) (unique_header_names l) = contains_header_name l n.
Proof.
  unfold unique_header_names. rewrite unique_names_spec. unfold contains_header_name.
  induction l as [|h l IH]; cbn; [done|]. by rewrite IH.
Qed.
Lemma contains_ci l n m :
  eq_ignore_ascii_case n m = true → contains_header_name l n = contains_header_name l m.
Proof.
  intros E. unfold contains_header_name. induction l as [|h l IH]; [done|]. cbn. rewrite IH. f_equal.
  by apply ci_congr.
Qed.

(** ** The two ways of rewriting headers *)

Section rewriting.
Context `{WasiHttpLaws}.
#[local] Set Default Proof Using "All".

(** A loop whose steps either leave a name alone or give it its final values. *)
Lemma fold_override (step : Fields → str → result unit Fields) (hit : str → bool) (X : str → list (list Z))
    (Hstep : ∀ f n f', step f n = Ok f' → ∀ m,
       header_values (copy_all f') m =
         if hit n && eq_ignore_ascii_case n m then X m else header_values (copy_all f) m)
    names f f' :
  try_fold step f names = Ok f' → ∀ m,
  header_values (copy_all f') m =
    if existsb (λ n, hit n && eq_ignore_ascii_case n m) names then X m else header_values (copy_all f) m.
Proof.
  revert f. induction names as [|n names IH]; intros f; cbn [try_fold existsb]; [by intros [= <-]|].
  intros (g & Hg & E)%rbind_Ok m. rewrite (IH g E m), (Hstep _ _ _ Hg m).
  by destruct (hit n && _), (existsb _ names).
Qed.

Lemma values_delete_all names f f' m :
  try_fold (λ fields name, ok_or (fields_delete fields name) tt) f names = Ok f' →
  header_values (copy_all f') m =
    if existsb (λ n, eq_ignore_ascii_case n m) names then [] else header_values (copy_all f) m.
Proof.
  intros E. refine (fold_override _ (λ _, true) (λ _, []) _ _ _ _ E m).
  intros g n g' Hg%ok_or_Ok k. by apply values_delete.
Qed.
Lemma values_append_all l f f' m :
  try_fold (λ fields h, ok_or (fields_append fields h.1 h.2) tt) f l = Ok f' →
  header_values (copy_all f') m = header_values (copy_all f) m ++ header_values l m.
Proof.
  revert f. induction l as [|[n v] l IH]; intros f; cbn [try_fold].
  { intros [= <-]. by rewrite app_nil_r. }
  intros (g & Hg%ok_or_Ok & E)%rbind_Ok. rewrite (IH g E), (values_append _ _ _ _ m Hg), header_values_cons.
  rewrite <- app_assoc. f_equal. cbn. by destruct eq_ignore_ascii_case.
Qed.

Lemma diff_delete_values desired names f f' m :
  try_fold (λ fields name,
    if negb (contains_header_name desired name) then ok_or (fields_delete fields name) tt else Ok fields)
    f names = Ok f' →
  header_values (copy_all f') m =
    if existsb (λ n, negb (contains_header_name desired n) && eq_ignore_ascii_case n m) names then []
    else header_values (copy_all f) m.
Proof.
  intros E. refine (fold_override _ (λ n, negb (contains_header_name desired n)) (λ _, []) _ _ _ _ E m).
  intros g n g' Hg k. cbn beta in Hg. destruct (negb _); cbn; [|by injection Hg as ->].
  apply ok_or_Ok in Hg. by apply values_delete.
Qed.
Lemma diff_set_values original desired names f f' m :
  try_fold (λ fields name,
    if negb (header_values_equal original desired name)
    then ok_or (fields_set fields name (header_values desired name)) tt else Ok fields)
    f names = Ok f' →
  header_values (copy_all f') m =
    if existsb (λ n, negb (header_values_equal original desired n) && eq_ignore_ascii_case n m) names
    then header_values desired m else header_values (copy_all f) m.
Proof.
  intros E.
  refine (fold_override _ (λ n, negb (header_values_equal original desired n)) (header_values desired) _ _ _ _ E m).
  intros g n g' Hg k. cbn beta in Hg. destruct (negb _); cbn; [|by injection Hg as ->].
  apply ok_or_Ok in Hg. rewrite (values_set _ _ _ _ k Hg).
  destruct (eq_ignore_ascii_case n k) eqn:En; [by apply header_values_ci|done].
Qed.

(** The difference against a desired list makes the headers those of the list. *)
Lemma header_diff_values fields desired fields' m :
  apply_header_diff fields (copy_all fields) desired = Ok fields' →
  header_values (copy_all fields') m = header_values desired m.
Proof.
  intros (g & Hdel & Hset)%rbind_Ok.
  pose proof (diff_delete_values _ _ _ _ m Hdel) as H1. pose proof (diff_set_values _ _ _ _ _ m Hset) as H2.
  rewrite H2. destruct (existsb _ (unique_header_names desired)) eqn:E2; [done|]. rewrite H1. clear H1 H2.
  destruct (existsb _ (unique_header_names (copy_all fields))) eqn:E1.
  - apply existsb_spec in E1 as (n & _ & [Hc En]%andb_true_iff). apply negb_true_iff in Hc.
    symmetry. apply header_values_nil_iff. by rewrite <- (contains_ci _ _ _ En).
  - rewrite existsb_false_spec in E1. rewrite existsb_false_spec in E2.
    destruct (contains_header_name desired m) eqn:Hd.
    + rewrite <- unique_header_names_spec in Hd. apply existsb_spec in Hd as (n & Hn & En).
      specialize (E2 n Hn). rewrite En, andb_true_r in E2. apply negb_false_iff in E2.
      unfold header_values_equal in E2. bprop. by rewrite <- !(header_values_ci _ _ _ En).
    + apply header_values_nil_iff in Hd as Hd'. rewrite Hd'.
      apply header_values_nil_iff. destruct (contains_header_name (copy_all fields) m) eqn:Ho; [|done].
      rewrite <- unique_header_names_spec in Ho. apply existsb_spec in Ho as (n & Hn & En).
      specialize (E1 n Hn). by rewrite En, (contains_ci _ _ _ En), Hd in E1.
Qed.

(** A list of edits gives the replaced names their new values, empties the
    deleted ones and leaves the rest. *)
Lemma header_edits_values fields names replacements fields' m :
  apply_header_edits fields names replacements = Ok fields' →
  header_values (copy_all fields') m =
    if contains_header_name replacements m then header_values replacements m
    else if existsb (λ n, eq_ignore_ascii_case n m) names then []
    else header_values (copy_all fields) m.
Proof.
  intros (f1 & H1 & (f2 & H2 & H3)%rbind_Ok)%rbind_Ok.
  rewrite (values_append_all _ _ _ m H3), (values_delete_all _ _ _ m H2), (values_delete_all _ _ _ m H1).
  unfold unique_replacement_names. fold (unique_header_names replacements).
  rewrite unique_header_names_spec, unique_names_spec.
  destruct (contains_header_name replacements m) eqn:E; [done|].
  apply header_values_nil_iff in E. rewrite E. by rewrite app_nil_r.
Qed.
End rewriting.

(** ** Generated identifiers *)

Lemma hex_at_valid n : 0 ≤ n < 16 → request_id_byte (hex_at n) = true.
Proof.
  intros Hn. assert (n ∈ seqZ 0 16) as Hin by (apply elem_of_seqZ; lia).
  clear Hn. revert n Hin. apply Forall_forall. vm_compute. by repeat constructor.
Qed.
Lemma hex_at_inj n m : 0 ≤ n < 16 → 0 ≤ m < 16 → hex_at n = hex_at m → n = m.
Proof.
  intros Hn Hm. unfold hex_at. assert (NoDup HEX) as Hd by (by apply (bool_decide_unpack _); vm_compute).
  destruct (HEX !! Z.to_nat n) as [a|] eqn:Ea; [|apply lookup_ge_None_1 in Ea; change (length HEX) with 16%nat in Ea; lia].
  destruct (HEX !! Z.to_nat m) as [b|] eqn:Eb; [|apply lookup_ge_None_1 in Eb; change (length HEX) with 16%nat in Eb; lia].
  cbn. intros ->. apply (NoDup_lookup _ _ _ _ Hd Ea) in Eb. lia.
Qed.

Definition byte_list (l : list Z) : Prop := Forall (λ b, 0 ≤ b < 256) l.
Definition hex_pair (byte : Z) : list Z := [hex_at (Z.shiftr byte 4); hex_at (Z.land byte 0x0f)].
Lemma nibbles b : 0 ≤ b < 256 → Z.shiftr b 4 = b / 16 ∧ Z.land b 15 = b mod 16.
Proof.
  intros _. split; [by rewrite Z.shiftr_div_pow2|]. change 15 with (Z.ones 4). by rewrite Z.land_ones.
Qed.
Lemma hex_pair_inj a b : 0 ≤ a < 256 → 0 ≤ b < 256 → hex_pair a = hex_pair b → a = b.
Proof.
  intros Ha Hb. unfold hex_pair. destruct (nibbles a Ha) as [-> ->], (nibbles b Hb) as [-> ->]. intros [= H1 H2].
  apply hex_at_inj in H1; [|split; [apply Z.div_pos|apply Z.div_lt_upper_bound]; lia..].
  apply hex_at_inj in H2; [|apply Z.mod_pos_bound; lia..].
  rewrite (Z.div_mod a 16), (Z.div_mod b 16) by lia. congruence.
Qed.
Lemma hex_pairs_inj l l' : byte_list l → byte_list l' → l ≫= hex_pair = l' ≫= hex_pair → l = l'.
Proof.
  intros Hl. revert l'. induction Hl as [|a l Ha Hl IH]; intros [|b l'] Hl'; cbn; [done|done|done|].
  intros [= H1 H2 H3]. inversion_clear Hl'. f_equal; [apply hex_pair_inj; [done|done|by unfold hex_pair; f_equal; [|f_equal]]|].
  by apply IH.
Qed.
Lemma hex_pairs_valid l : byte_list l → forallb request_id_byte (l ≫= hex_pair) = true.
Proof.
  induction 1 as [|b l Hb _ IH]; [done|]. cbn. destruct (nibbles b Hb) as [-> ->].
  rewrite !hex_at_valid; [done|apply Z.mod_pos_bound; lia|split; [apply Z.div_pos|apply Z.div_lt_upper_bound]; lia].
Qed.
Lemma length_hex_pairs l : length (l ≫= hex_pair) = (2 * length l)%nat.
Proof. induction l as [|b l IH]; [done|]. cbn in *. lia. Qed.

Lemma to_be_bytes_bytes n : byte_list (to_be_bytes n).
Proof.
  unfold byte_list, to_be_bytes. apply Forall_forall. intros b (i & -> & _)%list_elem_of_fmap.
  change 255 with (Z.ones 8). rewrite Z.land_ones by lia. apply Z.mod_pos_bound. lia.
Qed.

Lemma land_bytes n i : 0 ≤ n → Z.land (Z.shiftr n (8 * Z.of_nat i)) 255 = (n / 256 ^ Z.of_nat i) mod 256.
Proof.
  intros Hn. change 255 with (Z.ones 8). rewrite Z.land_ones, Z.shiftr_div_pow2, Z.pow_mul_r by lia. done.
Qed.
Lemma byte_digits n k : 0 ≤ n → n mod 256 ^ Z.of_nat (S k) = n mod 256 ^ Z.of_nat k + 256 ^ Z.of_nat k * ((n / 256 ^ Z.of_nat k) mod 256).
Proof.
  intros Hn. rewrite Nat2Z.inj_succ, Z.pow_succ_r, Z.mul_comm by lia.
  rewrite Z.rem_mul_r by (try apply Z.pow_nonzero; lia). done.
Qed.
Lemma to_be_bytes_inj n m : 0 ≤ n < 2 ^ 64 → 0 ≤ m < 2 ^ 64 → to_be_bytes n = to_be_bytes m → n = m.
Proof.
  intros Hn Hm. unfold to_be_bytes. cbn [map]. rewrite !land_bytes by lia. intros [= H7 H6 H5 H4 H3 H2 H1 H0].
  assert (∀ k, (k ≤ 8)%nat → n mod 256 ^ Z.of_nat k = m mod 256 ^ Z.of_nat k) as Hk.
  { intros k. induction k as [|k IH]; intros Hk; [by rewrite !Z.mod_1_r|].
    rewrite !byte_digits, IH by lia. do 2 f_equal.
    do 8 (destruct k as [|k]; [done|]). lia. }
  specialize (Hk 8%nat ltac:(lia)). by rewrite !Z.mod_small in Hk by (cbn in *; lia).
Qed.

(** The identifiers of successive calls, with what the random source would
    answer to each. *)
Fixpoint generated_run (randoms : list (list Z)) (ids : RequestIds) : list str :=
  match randoms with
  | [] => []
  | random :: randoms =>
      let '(id, ids) := generated_request_id random ids in id :: generated_run randoms ids
  end.
Definition prefix_ok (p : list Z) : Prop := length p = REQUEST_ID_PREFIX_BYTES ∧ byte_list p.
Record ids_ok (ids : RequestIds) : Prop := {
  io_sequence : 0 ≤ ids_sequence ids < 2 ^ 64;
  io_prefix p : ids_prefix ids = Some p → prefix_ok p;
}.

Lemma random_prefix_ok random : byte_list random → prefix_ok (random_request_id_prefix random).
Proof.
  intros Hr. unfold prefix_ok, random_request_id_prefix, byte_list. split.
  - rewrite length_app, length_take, length_drop, length_replicate. lia.
  - apply Forall_app. split; [by apply Forall_take|]. apply Forall_drop, Forall_replicate. lia.
Qed.
Lemma request_id_byte_lt b : request_id_byte b = true → b < 128.
Proof.
  unfold request_id_byte, one_of. intros [?%is_ascii_alphanumeric_lt|Hb]%orb_true_iff; [done|].
  bprop. set_solver by lia.
Qed.
Lemma encode_request_id_valid p s : prefix_ok p → is_valid_request_id (encode_request_id p s) = true.
Proof.
  intros [Hl Hb]. unfold encode_request_id. change (λ byte, [hex_at _; _]) with hex_pair.
  assert (byte_list (p ++ to_be_bytes s)) as Hall by (apply Forall_app; split; [done|apply to_be_bytes_bytes]).
  pose proof (hex_pairs_valid _ Hall) as Hv. pose proof (length_hex_pairs (p ++ to_be_bytes s)) as Hn.
  rewrite length_app, Hl in Hn. change (2 * (REQUEST_ID_PREFIX_BYTES + length (to_be_bytes s)))%nat with 48%nat in Hn.
  set (id := (p ++ to_be_bytes s) ≫= hex_pair) in *.
  unfold is_valid_request_id, str_len. rewrite forallb_bytes by apply request_id_byte_lt. rewrite Hv.
  rewrite (forallb_ascii_len request_id_byte) by (apply request_id_byte_lt || by rewrite forallb_bytes by apply request_id_byte_lt).
  rewrite Hn. by destruct id.
Qed.
Lemma encode_request_id_inj p s s' :
  prefix_ok p → 0 ≤ s < 2 ^ 64 → 0 ≤ s' < 2 ^ 64 → encode_request_id p s = encode_request_id p s' → s = s'.
Proof.
  intros [_ Hb] Hs Hs' E. apply hex_pairs_inj in E; [|apply Forall_app; split; [done|apply to_be_bytes_bytes]..].
  apply app_inv_head in E. by apply to_be_bytes_inj.
Qed.

(** Once the prefix is drawn, the identifiers count. *)
Lemma generated_run_fixed p randoms s :
  0 ≤ s < 2 ^ 64 →
  generated_run randoms {| ids_prefix := Some p; ids_sequence := s |}
  = map (λ i, encode_request_id p ((s + Z.of_nat i) mod 2 ^ 64)) (seq 0 (length randoms)).
Proof.
  revert s. induction randoms as [|r randoms IH]; intros s Hs; [done|]. cbn [generated_run generated_request_id].
  cbn [ids_prefix ids_sequence length seq map]. f_equal.
  - by rewrite Z.add_0_r, Z.mod_small.
  - rewrite IH by (apply Z.mod_pos_bound; lia). rewrite <- (fmap_S_seq 0), map_map. apply map_ext. intros i.
    f_equal. rewrite Zplus_mod_idemp_l. f_equal. lia.
Qed.

(** Request identifiers of one component instance.  Whatever the random
    source answers, as many as 2^64 successive generated identifiers are
    pairwise distinct, and each is a canonical request identifier that the
    policy core accepts. *)
Theorem generated_ids_unique (randoms : list (list Z)) (ids : RequestIds)
    (Hids : ids_ok ids) (Hrandom : Forall byte_list randoms) (Hcount : Z.of_nat (length randoms) ≤ 2 ^ 64) :
  NoDup (generated_run randoms ids)
  ∧ ∀ id, id ∈ generated_run randoms ids → is_valid_request_id id = true.
Proof.
  destruct ids as [prefix s], Hids as [Hs Hp]; cbn in Hs, Hp.
  destruct randoms as [|r randoms]; [split; [constructor|set_solver]|].
  set (p := match prefix with Some p => p | None => random_request_id_prefix r end).
  assert (prefix_ok p) as Hok.
  { subst p. destruct prefix; [by apply Hp|]. apply random_prefix_ok. by inversion Hrandom. }
  assert (generated_run (r :: randoms) {| ids_prefix := prefix; ids_sequence := s |}
          = generated_run (r :: randoms) {| ids_prefix := Some p; ids_sequence := s |}) as ->
    by (by destruct prefix).
  rewrite generated_run_fixed by done. split.
  - apply NoDup_fmap_2_strong; [|apply NoDup_seq]. intros i j Hi Hj E. rewrite elem_of_seq in Hi, Hj.
    apply encode_request_id_inj in E; [|done|apply Z.mod_pos_bound; lia..].
    destruct (decide (i = j)) as [|Hij]; [done|exfalso].
    assert ((Z.of_nat i - Z.of_nat j) mod 2 ^ 64 = 0) as Hd.
    { replace (Z.of_nat i - Z.of_nat j) with ((s + Z.of_nat i) - (s + Z.of_nat j)) by lia.
      by rewrite Zminus_mod, E, Z.sub_diag. }
    apply Z.mod_divide in Hd as [q Hq]; [|lia]. assert (q = 0) as -> by nia. lia.
  - intros id (i & -> & _)%list_elem_of_fmap. by apply encode_request_id_valid.
Qed.

Example generated_ids_unique_witness :
  Z.of_nat 3 ≤ 2 ^ 64
  ∧ NoDup (generated_run (replicate 3 (replicate 16 0xab)) {| ids_prefix := None; ids_sequence := 2 ^ 64 - 1 |}).
Proof.
  split; [lia|].
  refine (proj1 (generated_ids_unique (replicate 3 (replicate 16 0xab))
                   {| ids_prefix := None; ids_sequence := 2 ^ 64 - 1 |} _ _ _)).
  - split; cbn; [lia|done].
  - repeat constructor; lia.
  - cbn. lia.
Defined.
