(* ===== verification/AuthnRuntime.v ===== *)
(** * AuthnRuntime: the broker runtime of the middleware components

    Models src/legacy/wasi-http-middleware/crates/authn-runtime/src/lib.rs: the
    configuration read from the environment, the bounded admission of broker
    calls, the exchange with its deadlines and size limit, and the outcome with
    its diagnostic stage.  The network and the monotonic clock are operations
    of a world; the admission guard is also a step relation of concurrent tasks. *)

From stdpp Require Export relations.
From S2P Require Export PathPolicy WasiFields Headers.
Open Scope Z_scope.

#[local] Arguments lit : simpl never.

Definition AUTHN_BROKER_URL : str := lit "WASI_MIDDLEWARE_AUTHN_BROKER_URL".
Definition AUTHN_TIMEOUT_MS : str := lit "WASI_MIDDLEWARE_AUTHN_TIMEOUT_MS".
Definition AUTHN_MODE : str := lit "WASI_MIDDLEWARE_AUTHN_MODE".
Definition SERVICE_ID : str := lit "WASI_MIDDLEWARE_SERVICE_ID".
Definition AUTHN_AUDIENCES : str := lit "WASI_MIDDLEWARE_AUTHN_AUDIENCES".
Definition AUTHN_MAX_IN_FLIGHT : str := lit "WASI_MIDDLEWARE_AUTHN_MAX_IN_FLIGHT".
Definition AUTHN_ALLOW_INSECURE_LOOPBACK : str := lit "WASI_MIDDLEWARE_AUTHN_ALLOW_INSECURE_LOOPBACK".
Definition DEFAULT_TIMEOUT_MS : Z := 2000.
Definition MAX_TIMEOUT_MS : Z := 60000.
Definition DEFAULT_MAX_IN_FLIGHT : Z := 64.
Definition MAX_MAX_IN_FLIGHT : Z := 1024.
Definition MAX_BROKER_URL_LEN : Z := 2048.
Definition MAX_BROKER_RESPONSE_SIZE : Z := 64 * 1024.

Inductive AuthnMode := ModeRequired | ModeOptional.
#[export] Instance AuthnMode_eq_dec : EqDecision AuthnMode.
Proof. solve_decision. Defined.
Inductive AuthnConfigError :=
| MissingBrokerUrl | InvalidBrokerUrl | InvalidTimeout | InvalidMode | MissingServiceId
| MissingAudiences | InvalidDeploymentIdentity | InvalidMaxInFlight | InvalidBoolean | DuplicateEnvironment.
#[export] Instance AuthnConfigError_eq_dec : EqDecision AuthnConfigError.
Proof. solve_decision. Defined.

Definition environment : Type := list (str * str).

Definition parse_bool (value : option str) (default : bool) : result AuthnConfigError bool :=
  match value with
  | None => Ok default
  | Some value =>
      if bool_decide (value = lit "true") then Ok true
      else if bool_decide (value = lit "false") then Ok false
      else Err InvalidBoolean
  end.
Definition environment_value (env : environment) (key : str) : result AuthnConfigError (option str) :=
  match map snd (List.filter (λ entry, bool_decide (entry.1 = key)) env) with
  | [] => Ok None
  | [value] => Ok (Some value)
  | _ :: _ :: _ => Err DuplicateEnvironment
  end.
(** [str::strip_suffix]. *)
Definition strip_suffix (suffix s : str) : option str := reverse <$> strip_prefix (reverse suffix) (reverse s).

Section configuration.
Context `{UriParser} `{HttpHeaders} `{MetadataCodec}.

Record AuthnConfig := mk_authn_config {
  au_scheme : WasiScheme;
  au_authority : str;
  au_path_with_query : str;
  au_timeout_ns : Z;
  au_mode : AuthnMode;
  au_service_id : str;
  au_audiences : list str;
  au_anonymous_context : HeaderValue;
  au_max_in_flight : Z;
}.

Definition is_spin_internal_host (uri : Uri) : bool :=
  match uri_host uri with
  | None => false
  | Some host =>
      match strip_suffix (lit ".spin.internal") host with
      | Some service => negb (is_empty service) && negb (contains_char 46 service)
      | None => false
      end
  end.
Definition is_loopback_host (uri : Uri) : bool :=
  match uri_host uri with
  | None => false
  | Some host =>
      eq_ignore_ascii_case host (lit "localhost")
      || match parse_ip (trim_brackets host) with Some address => is_loopback address | None => false end
  end.
Definition broker_scheme (uri : Uri) (allow_insecure_loopback : bool) : result AuthnConfigError WasiScheme :=
  match scheme_str uri with
  | Some scheme =>
      if bool_decide (scheme = lit "https") then Ok SHttps
      else if bool_decide (scheme = lit "http")
              && (is_spin_internal_host uri || (allow_insecure_loopback && is_loopback_host uri)) then Ok SHttp
      else Err InvalidBrokerUrl
  | None => Err InvalidBrokerUrl
  end.
Definition parse_broker_url (value : str) (allow_insecure_loopback : bool) :
    result AuthnConfigError (WasiScheme * str * str) :=
  fail? is_empty value || (MAX_BROKER_URL_LEN <? str_len value) with InvalidBrokerUrl ;;
  let? uri := ok_or (uri_parse value) InvalidBrokerUrl in
  let? authority := ok_or (uri_authority uri) InvalidBrokerUrl in
  fail? contains_char 64 authority with InvalidBrokerUrl ;;
  let? scheme := broker_scheme uri allow_insecure_loopback in
  let path_with_query := match path_and_query uri with Some p => p | None => lit "/" end in
  Ok (scheme, authority, path_with_query).

Definition parse_mode (value : str) : result AuthnConfigError AuthnMode :=
  if bool_decide (value = lit "required") then Ok ModeRequired
  else if bool_decide (value = lit "optional") then Ok ModeOptional
  else Err InvalidMode.
(** [value.map(str::parse).transpose()...unwrap_or(default)] with its bounds. *)
Definition bounded_number (value : option str) (default maximum : Z) (e : AuthnConfigError) : result AuthnConfigError Z :=
  let? number := match value with
                 | Some value => ok_or (parse_usize value) e
                 | None => Ok default
                 end in
  fail? (number =? 0) || (maximum <? number) with e ;;
  Ok number.

Definition from_environment (env : environment) : result AuthnConfigError AuthnConfig :=
  let? allow := environment_value env AUTHN_ALLOW_INSECURE_LOOPBACK in
  let? allow_insecure_loopback := parse_bool allow false in
  let? broker_url := environment_value env AUTHN_BROKER_URL in
  let? broker_url := ok_or broker_url MissingBrokerUrl in
  let? broker := parse_broker_url broker_url allow_insecure_loopback in
  let '(scheme, authority, path_with_query) := broker in
  let? timeout_ms := environment_value env AUTHN_TIMEOUT_MS in
  let? timeout_ms := bounded_number timeout_ms DEFAULT_TIMEOUT_MS MAX_TIMEOUT_MS InvalidTimeout in
  let? mode := environment_value env AUTHN_MODE in
  let? mode := parse_mode (default (lit "required") mode) in
  let? max_in_flight := environment_value env AUTHN_MAX_IN_FLIGHT in
  let? max_in_flight := bounded_number max_in_flight DEFAULT_MAX_IN_FLIGHT MAX_MAX_IN_FLIGHT InvalidMaxInFlight in
  let? service_id := environment_value env SERVICE_ID in
  let? service_id := ok_or service_id MissingServiceId in
  let? audience_value := environment_value env AUTHN_AUDIENCES in
  let? audience_value := ok_or audience_value MissingAudiences in
  let audiences := map trim (split_char 44 audience_value) in
  let? deployment := map_err (λ _, InvalidDeploymentIdentity) (AuthContextV1_anonymous service_id audiences) in
  let? anonymous_context := map_err (λ _, InvalidDeploymentIdentity) (encode_auth_context deployment) in
  Ok (mk_authn_config scheme authority path_with_query (u64_saturating_mul timeout_ms 1000000) mode
        (ac_service_id deployment) (ac_audiences deployment) anonymous_context max_in_flight).
End configuration.

(** ** Rejections *)

Inductive AuthnRejection := RejInvalidRequest | RejMissingCredentials | RejInvalidCredentials | RejUnavailable.
#[export] Instance AuthnRejection_eq_dec : EqDecision AuthnRejection.
Proof. solve_decision. Defined.
Inductive AuthnDiagnosticStage :=
| StInvalidRequest | StMissingCredentials | StAdmission | StBrokerTransport | StBrokerDeadline
| StBrokerProtocol | StContextEncoding.
Inductive BrokerCallError := Serialization | Transport | InvalidStatus | ResponseBody | Deadline.

Definition rejection_status (r : AuthnRejection) : Z :=
  match r with
  | RejInvalidRequest => 400
  | RejMissingCredentials | RejInvalidCredentials => 401
  | RejUnavailable => 503
  end.
(** The double quote, written as its code point. *)
Definition quote : str := [34].
Definition bearer_challenge (r : AuthnRejection) (realm : str) : option str :=
  let bearer := lit "Bearer realm=" ++ quote ++ realm ++ quote in
  match r with
  | RejMissingCredentials => Some bearer
  | RejInvalidCredentials => Some (bearer ++ lit ", error=" ++ quote ++ lit "invalid_token" ++ quote)
  | RejInvalidRequest => Some (bearer ++ lit ", error=" ++ quote ++ lit "invalid_request" ++ quote)
  | RejUnavailable => None
  end.
Definition stage_as_str (s : AuthnDiagnosticStage) : str :=
  match s with
  | StInvalidRequest => lit "authn_invalid_request"
  | StMissingCredentials => lit "authn_missing_credentials"
  | StAdmission => lit "authn_admission"
  | StBrokerTransport => lit "authn_transport"
  | StBrokerDeadline => lit "authn_deadline"
  | StBrokerProtocol => lit "authn_protocol"
  | StContextEncoding => lit "authn_context_encoding"
  end.
Definition call_error_stage (e : BrokerCallError) : AuthnDiagnosticStage :=
  match e with
  | Transport => StBrokerTransport
  | Deadline => StBrokerDeadline
  | Serialization | InvalidStatus | ResponseBody => StBrokerProtocol
  end.

(** ** The broker call *)

(** One read of the response body: the clock when it was started, whether it
    finished before its timer, and what it delivered.  The stream ends when
    the peer drops it; the end may fail to be acknowledged. *)
Inductive StreamResult := Complete | Dropped (acknowledged : bool) | Cancelled.
Record BodyRead := mk_read { br_now : Z; br_timely : bool; br_status : StreamResult; br_chunk : list Z }.

Definition remaining_time (started timeout_ns now : Z) : result BrokerCallError Z :=
  let elapsed := u64_saturating_sub now started in
  let? remaining := ok_or (u64_checked_sub timeout_ns elapsed) Deadline in
  fail? remaining <=? 0 with Deadline ;;
  Ok remaining.
Definition with_deadline {T} (started timeout_ns now : Z) (value : option T) : result BrokerCallError T :=
  let? remaining := remaining_time started timeout_ns now in
  ok_or value Deadline.

(** [collect_broker_response] over the reads; a stream that stays silent is
    ended by the deadline of the whole call. *)
Fixpoint collect_broker_response (started timeout_ns : Z) (output : list Z) (reads : list BodyRead) :
    result BrokerCallError (list Z) :=
  match reads with
  | [] => Err Deadline
  | read :: reads =>
      let? got := with_deadline started timeout_ns (br_now read)
                    (if br_timely read then Some (br_status read, br_chunk read) else None) in
      let '(status, chunk) := got in
      fail? MAX_BROKER_RESPONSE_SIZE
            <? u64_saturating_add (Z.of_nat (length output)) (Z.of_nat (length chunk)) with ResponseBody ;;
      let output := output ++ chunk in
      match status with
      | Complete => collect_broker_response started timeout_ns output reads
      | Dropped acknowledged => if acknowledged then Ok output else Err ResponseBody
      | Cancelled => Err ResponseBody
      end
  end.

(** [send_request] stands for the host's exchange: the joined writing,
    transmission and reception, [None] when the timer of the call fires first.
    The counter is the static [IN_FLIGHT], shared with every other task. *)
Class BrokerWorld (W : Type) `{HttpHeaders} := {
  in_flight : W → Z;
  set_in_flight : Z → W → W;
  monotonic_now : W → Z;
  send_request : AuthnConfig → list Header → list Z → W → option (result BrokerCallError (Z * list BodyRead)) * W;
}.

Section runtime.
Context `{UriParser} `{HttpHeaders} `{MetadataCodec} `{BrokerCodec} `{WasiHttp} {W : Type} `{!BrokerWorld W}.

Definition broker_fields (body : list Z) (authorization request_id : str) : list Header :=
  [(lit "accept", lit "application/json");
   (lit "content-type", lit "application/json");
   (lit "content-length", decimal_digits 20 (Z.of_nat (length body)));
   (REQUEST_ID_HEADER, str_bytes request_id);
   (lit "authorization", str_bytes authorization)].
Definition broker_request_for (request_id : str) (config : AuthnConfig) : AuthnRequestV1 :=
  mk_authn_request 1 (au_service_id config) (au_audiences config) request_id.

Definition exchange_with_broker (config : AuthnConfig) (body : list Z) (authorization request_id : str)
    (started : Z) (w : W) : option (result BrokerCallError (Z * list Z)) * W :=
  let fields := broker_fields body authorization request_id in
  match fields_from_list fields with
  | None => (Some (Err Transport), w)
  | Some _ =>
      let '(answer, w) := send_request config fields body w in
      (match answer with
       | None => None
       | Some (Err e) => Some (Err e)
       | Some (Ok (code, reads)) =>
           if in_range 100 999 code
           then Some (let? body := collect_broker_response started (au_timeout_ns config) [] reads in Ok (code, body))
           else Some (Err InvalidStatus)
       end, w)
  end.

Definition call_broker (config : AuthnConfig) (broker_request : AuthnRequestV1) (authorization : str) (w : W) :
    result BrokerCallError AuthDecision * W :=
  let started := monotonic_now w in
  match request_to_vec broker_request with
  | None => (Err Serialization, w)
  | Some body =>
      match remaining_time started (au_timeout_ns config) (monotonic_now w) with
      | Err e => (Err e, w)
      | Ok _ =>
          let '(answer, w) :=
            exchange_with_broker config body authorization (arq_request_id broker_request) started w in
          (let? exchanged := ok_or answer Deadline in
           let? response := exchanged in
           Ok (parse_authn_response response.1 response.2), w)
      end
  end.

(** [InFlightGuard::acquire] when nothing interferes with the loop, and the
    guard's drop. *)
Definition acquire (maximum : Z) (w : W) : option W :=
  if maximum <=? in_flight w then None else Some (set_in_flight (in_flight w + 1) w).
Definition release (w : W) : W := set_in_flight ((in_flight w - 1) mod 2 ^ 32) w.

Inductive AuthnOutcome := Pass (context : HeaderValue) | Reject (rejection : AuthnRejection).

Definition authenticate_with_diagnostics (headers : HeaderMap) (request_id : str) (config : AuthnConfig) (w : W) :
    AuthnOutcome * option AuthnDiagnosticStage * W :=
  match authorization_value headers with
  | Err _ => (Reject RejInvalidRequest, Some StInvalidRequest, w)
  | Ok None =>
      if bool_decide (au_mode config = ModeOptional) then (Pass (au_anonymous_context config), None, w)
      else (Reject RejMissingCredentials, Some StMissingCredentials, w)
  | Ok (Some authorization) =>
      match acquire (au_max_in_flight config) w with
      | None => (Reject RejUnavailable, Some StAdmission, w)
      | Some w =>
          let broker_request := broker_request_for request_id config in
          let '(decision, w) := call_broker config broker_request authorization w in
          let '(outcome, stage) :=
            match decision with
            | Err error => (Reject RejUnavailable, Some (call_error_stage error))
            | Ok (Allow claims) =>
                match (let? context := into_context claims (au_service_id config) (au_audiences config) in
                       encode_auth_context context) with
                | Ok context => (Pass context, None)
                | Err _ => (Reject RejUnavailable, Some StContextEncoding)
                end
            | Ok Unauthenticated => (Reject RejInvalidCredentials, None)
            | Ok DecisionUnavailable => (Reject RejUnavailable, Some StBrokerProtocol)
            end in
          (outcome, stage, release w)
      end
  end.
Definition authenticate (headers : HeaderMap) (request_id : str) (config : AuthnConfig) (w : W) : AuthnOutcome :=
  (authenticate_with_diagnostics headers request_id config w).1.1.
End runtime.

(** ** Configuration *)

Section configured.
Context `{UriParser} `{HttpHeaders} `{MetadataCodec}.

Record runtime_config_ok (env : environment) (c : AuthnConfig) : Prop := {
  rco_timeout : 1000000 ≤ au_timeout_ns c ≤ MAX_TIMEOUT_MS * 1000000;
  rco_in_flight : 1 ≤ au_max_in_flight c ≤ MAX_MAX_IN_FLIGHT;
  rco_authority : 64 ∉ au_authority c;
  rco_scheme : au_scheme c = SHttps ∨ au_scheme c = SHttp;
  rco_plain : au_scheme c = SHttp → ∃ url uri, (AUTHN_BROKER_URL, url) ∈ env ∧ uri_parse url = Some uri
    ∧ (is_spin_internal_host uri = true
       ∨ (AUTHN_ALLOW_INSECURE_LOOPBACK, lit "true") ∈ env ∧ is_loopback_host uri = true);
  rco_anonymous : ∃ context, encode_auth_context context = Ok (au_anonymous_context c)
    ∧ context_valid context ∧ ac_state context = Anonymous
    ∧ ac_service_id context = au_service_id c ∧ ac_audiences context = au_audiences c;
  rco_audiences : ssorted (au_audiences c);
}.

Lemma environment_value_Some env k v : environment_value env k = Ok (Some v) → (k, v) ∈ env.
Proof.
  unfold environment_value. destruct (map snd _) as [|x [|? ?]] eqn:E; intros [= ->].
  assert (v ∈ map snd (List.filter (λ entry, bool_decide (entry.1 = k)) env)) as ([k' v'] & -> & Hin)%list_elem_of_fmap
    by (rewrite E; left).
  apply elem_of_filterb in Hin as [Hin Hk]. cbn in *. bprop. by subst.
Qed.
Lemma parse_usize_nonneg s n : parse_usize s = Some n → 0 ≤ n.
Proof.
  unfold parse_usize. set (digits := match s with | [] => _ | _ => _ end). intros E.
  destruct (is_empty digits || negb (forallb is_ascii_digit digits)) eqn:Ed; [done|]. cbv zeta in E.
  apply orb_false_iff in Ed as [_ Ed%negb_false_iff]. rewrite forallb_spec in Ed.
  assert (∀ l acc, 0 ≤ acc → (∀ d, d ∈ l → is_ascii_digit d = true) →
            0 ≤ foldl (λ acc d, acc * 10 + (d - 48)) acc l) as Hf.
  { induction l as [|d l IH]; intros acc Ha Hl; cbn; [done|]. apply IH; [|intros; apply Hl; by right].
    specialize (Hl d ltac:(left)). unfold is_ascii_digit, in_range in Hl. bprop. lia. }
  specialize (Hf digits 0 ltac:(lia) Ed). case_match; by simplify_eq.
Qed.
Lemma bounded_number_Ok v d m e n : 1 ≤ d → bounded_number v d m e = Ok n → 1 ≤ n ≤ m.
Proof.
  unfold bounded_number. intros Hd (k & Hk & [[Hz Hm]%orb_false_iff [= <-]]%fail_Ok)%rbind_Ok. bprop.
  split; [|lia]. destruct v; [|injection Hk as <-; lia].
  apply ok_or_Ok, parse_usize_nonneg in Hk. lia.
Qed.
Lemma parse_broker_url_Ok url allow scheme authority path :
  parse_broker_url url allow = Ok (scheme, authority, path) →
  (64 ∉ authority) ∧ ∃ uri, uri_parse url = Some uri
  ∧ (scheme = SHttps ∨ scheme = SHttp ∧ (is_spin_internal_host uri = true ∨ allow = true ∧ is_loopback_host uri = true)).
Proof.
  unfold parse_broker_url. intros [_ (uri & Hu%ok_or_Ok & (au & _ & [Hat (sch & Hs & [= <- <- _])%rbind_Ok]%fail_Ok)%rbind_Ok)%rbind_Ok]%fail_Ok.
  split; [intros Hin%contains_char_spec; congruence|]. exists uri. split; [done|].
  unfold broker_scheme in Hs. destruct (scheme_str uri) as [s|]; [|done].
  case_match; [injection Hs as <-; by left|]. destruct (_ && _) eqn:E; [|done]. injection Hs as <-. right. split; [done|].
  apply andb_true_iff in E as [_ [?|[? ?]%andb_true_iff]%orb_true_iff]; eauto.
Qed.
End configured.

Lemma from_environment_ok `{UriParser} `{HttpHeaders} `{MetadataCodec} env c :
  from_environment env = Ok c → runtime_config_ok env c.
Proof.
  unfold from_environment.
  intros (allow & Hallow & (ail & Hail & (url0 & Hurl & (url & ->%ok_or_Ok & ([[scheme au] path] & Hb & E)%rbind_Ok)%rbind_Ok)%rbind_Ok)%rbind_Ok)%rbind_Ok.
  apply rbind_Ok in E as (t0 & _ & E). apply rbind_Ok in E as (t & Ht%bounded_number_Ok & E); [|done].
  apply rbind_Ok in E as (m0 & _ & E). apply rbind_Ok in E as (mode & _ & E).
  apply rbind_Ok in E as (n0 & _ & E). apply rbind_Ok in E as (n & Hn%bounded_number_Ok & E); [|done].
  apply rbind_Ok in E as (s0 & _ & E). apply rbind_Ok in E as (s & _ & E).
  apply rbind_Ok in E as (a0 & _ & E). apply rbind_Ok in E as (a & _ & E).
  apply rbind_Ok in E as (d & Hd%map_err_Ok%anonymous_Ok & E). apply rbind_Ok in E as (an & Han%map_err_Ok & [= <-]).
  apply parse_broker_url_Ok in Hb as (Hat & uri & Hu & Hs). destruct Hd as (Hv & Hst & _ & Haud & _).
  split; cbn; [|done|done|tauto| |by exists d|rewrite Haud; apply sort_dedup_sorted].
  - unfold u64_saturating_mul, MAX_TIMEOUT_MS in *. rewrite Z.min_r by (unfold u64_max; lia). lia.
  - intros ->. destruct Hs as [?|[_ Hs]]; [done|]. exists url, uri.
    split; [by apply environment_value_Some|]. split; [done|]. destruct Hs as [?|[-> ?]]; [by left|right; split; [|done]].
    unfold parse_bool in Hail. destruct allow as [v|]; [|done]. apply environment_value_Some in Hallow.
    case_match; bprop; [by subst|]. by case_match.
Qed.

(** ** The outcome of a broker call *)

Lemma collect_bounded started timeout output reads body :
  Z.of_nat (length output) ≤ MAX_BROKER_RESPONSE_SIZE →
  collect_broker_response started timeout output reads = Ok body →
  Z.of_nat (length body) ≤ MAX_BROKER_RESPONSE_SIZE.
Proof.
  revert output. induction reads as [|r reads IH]; intros output Ho E; [done|]. cbn in E.
  apply rbind_Ok in E as ([st chunk] & _ & E). apply fail_Ok in E as [Hs E]. bprop.
  assert (Z.of_nat (length (output ++ chunk)) ≤ MAX_BROKER_RESPONSE_SIZE) as Hl.
  { rewrite length_app. unfold u64_saturating_add, u64_max, MAX_BROKER_RESPONSE_SIZE in *. lia. }
  destruct st as [|[]|]; [by eapply IH|by injection E as <-|done|done].
Qed.
(** Every read of a collected body started before the deadline. *)
Lemma remaining_time_Ok started timeout now r :
  remaining_time started timeout now = Ok r → now - started < timeout.
Proof.
  unfold remaining_time, u64_saturating_sub, u64_checked_sub. intros (x & Hx%ok_or_Ok & [Hr [= <-]]%fail_Ok)%rbind_Ok.
  case_match; [|done]. injection Hx as <-. bprop. lia.
Qed.

Section outcomes.
Context `{UriParser} `{HttpHeaders} `{MetadataCodecLaws} `{BrokerCodec} `{WasiHttp} {W : Type} `{!BrokerWorld W}.
#[local] Set Default Proof Using "All".

(** The broker allowed the call: a status of 200 over a bounded body that holds
    a valid success document. *)
Definition broker_allowed (config : AuthnConfig) (request_id authorization : str) (w w' : W)
    (claims : AuthenticatedClaimsV1) : Prop :=
  ∃ body answer success,
    request_to_vec (broker_request_for request_id config) = Some body
    ∧ exchange_with_broker config body authorization request_id (monotonic_now w) w = (Some (Ok (200, answer)), w')
    ∧ Z.of_nat (length answer) ≤ MAX_BROKER_RESPONSE_SIZE
    ∧ success_from_slice answer = Some success ∧ authenticated_claims success = Some claims.

Lemma exchange_bounded config body authorization rid started w code answer w' :
  exchange_with_broker config body authorization rid started w = (Some (Ok (code, answer)), w') →
  Z.of_nat (length answer) ≤ MAX_BROKER_RESPONSE_SIZE.
Proof.
  unfold exchange_with_broker. cbv zeta. destruct (fields_from_list _); [|done].
  destruct (send_request _ _ _ _) as [[[[c reads]|]|] w1]; [|done|done].
  destruct (in_range 100 999 c); [|done]. intros E. injection E as E _.
  apply rbind_Ok in E as (b & Hb & [= _ <-]). by eapply collect_bounded in Hb.
Qed.
Lemma call_broker_allow config rid authorization w claims w' :
  call_broker config (broker_request_for rid config) authorization w = (Ok (Allow claims), w') →
  broker_allowed config rid authorization w w' claims.
Proof.
  unfold call_broker. cbv zeta. destruct (request_to_vec _) as [body|] eqn:Eb; [|done].
  destruct (remaining_time _ _ _); [|done].
  destruct (exchange_with_broker _ _ _ _ _ _) as [[[[code answer]|]|] w1] eqn:Ex; cbn; intros E; try discriminate E.
  injection E as E <-. apply parse_authn_allow in E as (-> & success & Hs & Hc).
  exists body, answer, success. split_and!; [done|done|by eapply exchange_bounded|done|done].
Qed.

(** Only earned contexts pass: the anonymous one in optional mode for a request
    without credentials, without a call to the broker; or one with the
    principal, decision and revision of a success document that the broker
    answered with status 200, within the size limit, to a call that was
    admitted below the in-flight limit. *)
Lemma broker_outcome_earned (env : environment) (config : AuthnConfig) (headers : HeaderMap) (request_id : str)
    (w w' : W) (value : HeaderValue) (stage : option AuthnDiagnosticStage)
    (Hconfig : from_environment env = Ok config)
    (Hrun : authenticate_with_diagnostics headers request_id config w = (Pass value, stage, w')) :
  ∃ context, decode_auth_context value = Ok context ∧ context_valid context
    ∧ ac_service_id context = au_service_id config ∧ ac_audiences context = au_audiences config
    ∧ stage = None
    ∧ (ac_state context = Anonymous ∧ au_mode config = ModeOptional
         ∧ get_all headers AUTHORIZATION = [] ∧ w' = w
       ∨ ∃ authorization claims w1 w2,
           ac_state context = Authenticated
           ∧ authorization_value headers = Ok (Some authorization)
           ∧ in_flight w < au_max_in_flight config
           ∧ w1 = set_in_flight (in_flight w + 1) w
           ∧ broker_allowed config request_id authorization w1 w2 claims
           ∧ w' = release w2
           ∧ ac_principal context = Some (cl_principal claims)
           ∧ ac_decision_id context = Some (cl_decision_id claims)
           ∧ ac_policy_revision context = Some (cl_policy_revision claims)).
Proof.
  apply from_environment_ok in Hconfig as [_ _ _ _ _ (anon & Henc & Hav & Hast & Hasv & Haud) Hsorted].
  unfold authenticate_with_diagnostics in Hrun.
  destruct (authorization_value headers) as [[authorization|]|] eqn:Ea; [| |discriminate Hrun].
  - destruct (acquire _ w) as [w1|] eqn:Eacq; [|discriminate Hrun]. cbv zeta in Hrun.
    destruct (call_broker _ _ _ _) as [decision w2] eqn:Ec.
    destruct decision as [[claims| |]|]; try discriminate Hrun.
    destruct (rbind _ _) as [v|] eqn:Ev; [|discriminate Hrun]. injection Hrun as -> <- <-.
    apply rbind_Ok in Ev as (context & Ei & Ev). apply call_broker_allow in Ec as Hallowed.
    destruct Hallowed as (body & answer & success & Hb & Hx & Hl & Hs & Hcl).
    pose proof (authenticated_claims_valid _ _ Hcl) as (Hcv & _).
    destruct (into_context_Ok _ _ _ _ Hcv Ei) as (Hv & Hst & Hsv & Hau & Hp & Hd & Hr).
    rewrite sort_dedup_id in Hau by done.
    exists context. split_and!; [by apply decode_encoded|done..|]. right.
    exists authorization, claims, w1, w2. unfold acquire in Eacq. destruct (Z.leb_spec (au_max_in_flight config) (in_flight w)); [done|]. injection Eacq as <-.
    split_and!; try done. by exists body, answer, success.
  - destruct (bool_decide_reflect (au_mode config = ModeOptional)) as [Hm|Hm]; [|discriminate Hrun].
    injection Hrun as <- <- <-. exists anon. split_and!; [by apply decode_encoded|done..|]. left.
    split_and!; [done|done| |done].
    by apply authorization_value_None.
Qed.
End outcomes.

(** ** The admission guard among concurrent tasks

    Models [InFlightGuard] of
    src/legacy/wasi-http-middleware/crates/authn-runtime/src/lib.rs as a step
    relation: any number of tasks run the compare-and-exchange loop of
    [acquire] against the one atomic counter and drop their guard later.  A
    weak exchange may fail although the counter is the expected one. *)

(** Where a task is: outside, in the loop with the value it last saw, holding a
    guard, or refused by its last call. *)
Inductive task := Outside | Looping (current : Z) | Holding | Refused.
#[export] Instance task_eq_dec : EqDecision task.
Proof. solve_decision. Defined.

Record guard_state := mk_guard { counter : Z; tasks : list task }.

Section guard.
Variable maximum : Z.

(** [AtomicUsize] of a 32-bit target. *)
Definition wrap32 (n : Z) : Z := n mod 2 ^ 32.

Inductive guard_step (s : guard_state) : guard_state → Prop :=
| step_load i t :
    tasks s !! i = Some t → t = Outside ∨ t = Refused →
    guard_step s (mk_guard (counter s) (<[i := Looping (counter s)]> (tasks s)))
| step_refuse i current :
    tasks s !! i = Some (Looping current) → maximum ≤ current →
    guard_step s (mk_guard (counter s) (<[i := Refused]> (tasks s)))
| step_exchange i current :
    tasks s !! i = Some (Looping current) → current < maximum → counter s = current →
    guard_step s (mk_guard (wrap32 (current + 1)) (<[i := Holding]> (tasks s)))
| step_retry i current :
    tasks s !! i = Some (Looping current) → current < maximum →
    guard_step s (mk_guard (counter s) (<[i := Looping (counter s)]> (tasks s)))
| step_drop i :
    tasks s !! i = Some Holding →
    guard_step s (mk_guard (wrap32 (counter s - 1)) (<[i := Outside]> (tasks s))).

Definition guard_initial (n : nat) : guard_state := mk_guard 0 (replicate n Outside).
Definition guard_reachable (n : nat) (s : guard_state) : Prop := rtc guard_step (guard_initial n) s.

Definition holders (l : list task) : Z := Z.of_nat (length (filter (λ t, t = Holding) l)).

Record guard_ok (n : nat) (s : guard_state) : Prop := {
  gk_counter : counter s = holders (tasks s);
  gk_bound : holders (tasks s) ≤ maximum;
  gk_tasks : length (tasks s) = n;
}.

Definition held (t : task) : Z := match t with Holding => 1 | _ => 0 end.
Lemma holders_cons t l : holders (t :: l) = held t + holders l.
Proof using Type. unfold holders. rewrite filter_cons. destruct t; case_decide; try done; cbn [length held]; lia. Qed.
Lemma holders_insert l i t t' : l !! i = Some t → holders (<[i := t']> l) = holders l - held t + held t'.
Proof using Type.
  revert i. induction l as [|x l IH]; intros [|i] Hl; [done|done| |].
  - injection Hl as ->. change (<[0%nat := t']> (t :: l)) with (t' :: l). rewrite !holders_cons. lia.
  - change (<[S i := t']> (x :: l)) with (x :: <[i := t']> l). rewrite !holders_cons, (IH i Hl). lia.
Qed.
Lemma holders_replicate n : holders (replicate n Outside) = 0.
Proof using Type. induction n as [|n IH]; [done|]. cbn [replicate]. rewrite holders_cons, IH. done. Qed.
Lemma holders_nonneg l : 0 ≤ holders l.
Proof using Type. unfold holders. lia. Qed.

Lemma holders_pos l i : l !! i = Some Holding → 1 ≤ holders l.
Proof using Type.
  intros Hi. pose proof (holders_nonneg (<[i := Outside]> l)) as Hp.
  rewrite (holders_insert _ _ _ _ Hi) in Hp. cbn [held] in Hp. lia.
Qed.

Hypothesis Hmax : 0 ≤ maximum < 2 ^ 32.

Lemma guard_step_ok n s s' : guard_ok n s → guard_step s s' → guard_ok n s'.
Proof using Hmax.
  intros [Hc Hb Hn] Hstep. pose proof (holders_nonneg (tasks s)).
  destruct Hstep as [i t Hi [->| ->]|i c Hi Hr|i c Hi Hr He|i c Hi Hr|i Hi]; split;
    cbn [counter tasks]; rewrite ?length_insert, ?(holders_insert _ _ _ _ Hi); cbn [held]; try lia.
  - unfold wrap32. rewrite Z.mod_small by lia. lia.
  - pose proof (holders_pos _ _ Hi). unfold wrap32. rewrite Z.mod_small by lia. lia.
Qed.
Lemma guard_reachable_ok n s : guard_reachable n s → guard_ok n s.
Proof using Hmax.
  unfold guard_reachable. intros Hr. remember (guard_initial n) as s0 eqn:E0.
  assert (guard_ok n s0) as H0.
  { subst s0. pose proof (holders_replicate n) as Hz. split; cbn [counter tasks guard_initial]; rewrite ?length_replicate; lia. }
  clear E0. induction Hr as [|x y z Hxy _ IH]; [done|]. by eapply IH, guard_step_ok.
Qed.
End guard.

(** Admission is bounded.  However many tasks run the loop and however
    their steps interleave, spurious failures included, the counter is the
    number of guards held and never exceeds the limit, so a drop never wraps. *)
Theorem in_flight_bounded (maximum : Z) (n : nat) (s : guard_state)
    (Hmax : 0 ≤ maximum < 2 ^ 32) (Hreach : guard_reachable maximum n s) :
  counter s = holders (tasks s) ∧ holders (tasks s) ≤ maximum
  ∧ ∀ i, tasks s !! i = Some Holding → 0 ≤ counter s - 1.
Proof.
  destruct (guard_reachable_ok maximum Hmax n s Hreach) as [Hc Hb _]. split_and!; [done|done|].
  intros i Hi. pose proof (holders_pos _ _ Hi). lia.
Qed.

(** A task in the loop can finish without a step of another. *)
Lemma looping_finishes (maximum : Z) (n : nat) (s : guard_state) (i : nat) (current : Z) :
  0 ≤ maximum < 2 ^ 32 → guard_ok maximum n s → tasks s !! i = Some (Looping current) →
  (counter s < maximum → current = counter s →
     guard_step maximum s (mk_guard (counter s + 1) (<[i := Holding]> (tasks s))))
  ∧ (maximum ≤ current → guard_step maximum s (mk_guard (counter s) (<[i := Refused]> (tasks s))))
  ∧ (current < maximum → guard_step maximum s (mk_guard (counter s) (<[i := Looping (counter s)]> (tasks s)))).
Proof.
  intros Hmax [Hc Hb _] Hi. pose proof (holders_nonneg (tasks s)). split_and!; intros; [|by eapply step_refuse|by eapply step_retry].
  subst current. replace (counter s + 1) with (wrap32 (counter s + 1)) by (unfold wrap32; apply Z.mod_small; lia).
  by apply (step_exchange _ s i (counter s)).
Qed.

(** C39: Admission makes progress.  In every reachable state a task that is in
    no call can finish one without a step of another, with the answer of the
    sequential [acquire] on the same counter: while the limit is not reached
    it holds a guard and the counter is one more, and once it is reached it is
    refused and the counter is the same, every other task being where it was.
    So can a task that is in the loop already, whatever value it last saw.
    And a full guard opens again with the drop of any holder. *)
Theorem in_flight_live {W : Type} `{BrokerWorld W} (maximum : Z) (n : nat) (s : guard_state) (i : nat) (w : W)
    (Hset : ∀ k v, in_flight (set_in_flight k v) = k) (Hw : in_flight w = counter s)
    (Hmax : 0 ≤ maximum < 2 ^ 32) (Hreach : guard_reachable maximum n s) :
  (tasks s !! i = Some Outside ∨ tasks s !! i = Some Refused →
     match acquire maximum w with
     | Some w1 => counter s < maximum ∧ in_flight w1 = counter s + 1
         ∧ rtc (guard_step maximum) s (mk_guard (counter s + 1) (<[i := Holding]> (tasks s)))
     | None => maximum ≤ counter s
         ∧ rtc (guard_step maximum) s (mk_guard (counter s) (<[i := Refused]> (tasks s)))
     end)
  ∧ (∀ current, tasks s !! i = Some (Looping current) →
       rtc (guard_step maximum) s (mk_guard (counter s + 1) (<[i := Holding]> (tasks s))) ∧ counter s < maximum
       ∨ rtc (guard_step maximum) s (mk_guard (counter s) (<[i := Refused]> (tasks s))))
  ∧ ∀ j, tasks s !! j = Some Holding →
      guard_step maximum s (mk_guard (counter s - 1) (<[j := Outside]> (tasks s))) ∧ 0 ≤ counter s - 1 < maximum.
Proof.
  apply guard_reachable_ok in Hreach as Hok; [|done]. pose proof Hok as [Hc Hb _]. pose proof (holders_nonneg (tasks s)) as Hnn.
  set (s1 := mk_guard (counter s) (<[i := Looping (counter s)]> (tasks s))).
  assert ((i < length (tasks s))%nat → guard_step maximum s s1 →
    (counter s < maximum → rtc (guard_step maximum) s (mk_guard (counter s + 1) (<[i := Holding]> (tasks s))))
    ∧ (maximum ≤ counter s → rtc (guard_step maximum) s (mk_guard (counter s) (<[i := Refused]> (tasks s))))) as Hfrom.
  { intros Hlen H1. pose proof (guard_step_ok _ Hmax _ _ _ Hok H1) as Hok1.
    assert (tasks s1 !! i = Some (Looping (counter s))) as Hi1 by (by apply list_lookup_insert_eq).
    destruct (looping_finishes maximum n s1 i (counter s) Hmax Hok1 Hi1) as (Hhold & Href & _).
    cbn [counter tasks s1] in Hhold, Href. rewrite list_insert_insert_eq in Hhold, Href.
    split; intros; (eapply rtc_l; [exact H1|]; apply rtc_once; auto). }
  split_and!.
  - intros Hi. assert (∃ t, tasks s !! i = Some t ∧ (t = Outside ∨ t = Refused)) as (t & Ht & Hidle) by naive_solver.
    destruct Hfrom as [Hhold Href]; [by eapply lookup_lt_Some|by eapply step_load|].
    unfold acquire. rewrite Hw. destruct (Z.leb_spec maximum (counter s)); [auto|]. rewrite Hset. auto.
  - intros current Hi. destruct (looping_finishes maximum n s i current Hmax Hok Hi) as (_ & Href & Hretry).
    destruct (Z.le_gt_cases maximum current); [right; by apply rtc_once, Href|].
    destruct Hfrom as [Hhold Hfull]; [by eapply lookup_lt_Some|by apply Hretry|].
    destruct (Z.lt_ge_cases (counter s) maximum); [left|right]; auto.
  - intros j Hj. pose proof (holders_pos _ _ Hj). split; [|lia].
    replace (counter s - 1) with (wrap32 (counter s - 1)) by (unfold wrap32; apply Z.mod_small; lia). by apply step_drop.
Qed.

(** One slot and two tasks: the first holds it, the second is outside. *)
Definition full_guard : guard_state := mk_guard 1 [Holding; Outside].
Lemma full_guard_reachable : guard_reachable 1 2 full_guard.
Proof.
  eapply rtc_l; [apply (step_load 1 _ 0 Outside); [done|by left]|]. eapply rtc_l; [by eapply (step_exchange 1 _ 0 0)|]. apply rtc_refl.
Qed.
Example in_flight_bounded_witness : (0 ≤ 1 < 2 ^ 32) ∧ counter full_guard = 1 ∧ holders (tasks full_guard) ≤ 1.
Proof.
  split; [lia|]. split; [done|].
  refine (proj1 (proj2 (in_flight_bounded 1 2 full_guard _ _))); [lia|apply full_guard_reachable].
Defined.
