(* ===== verification/Cors.v ===== *)
(** * Cors: cross-origin policy of the HTTP middleware

    Models the CORS part of
    src/legacy/wasi-http-middleware/crates/policy-core/src/lib.rs: the validated
    configuration and the decision for one request.  [http::Method] is its
    text; which texts are methods and how a [BTreeSet] orders them are
    parameters. *)

From S2P Require Export WasiFields Headers.
Open Scope Z_scope.

#[local] Arguments lit : simpl never.

Definition ORIGIN : str := lit "origin".
Definition VARY : str := lit "vary".
Definition REFERRER_POLICY : str := lit "referrer-policy".
Definition ACCESS_CONTROL_ALLOW_ORIGIN : str := lit "access-control-allow-origin".
Definition ACCESS_CONTROL_ALLOW_CREDENTIALS : str := lit "access-control-allow-credentials".
Definition ACCESS_CONTROL_ALLOW_METHODS : str := lit "access-control-allow-methods".
Definition ACCESS_CONTROL_ALLOW_HEADERS : str := lit "access-control-allow-headers".
Definition ACCESS_CONTROL_REQUEST_METHOD : str := lit "access-control-request-method".
Definition ACCESS_CONTROL_REQUEST_HEADERS : str := lit "access-control-request-headers".

(** [http::Method]. *)
Class HttpMethods := {
  method_from_bytes : str → option str;
  (** The elements in ascending order, once each. *)
  method_set : list str → list str;
  method_from_bytes_text s m : method_from_bytes s = Some m → m = s;
  elem_of_method_set l m : m ∈ method_set l ↔ m ∈ l;
}.

(** [split_csv]. *)
Definition split_csv (value : str) : list str :=
  List.filter (λ v, negb (is_empty v)) (map trim (split_char 44 value)).

(** [slice::join(", ")]. *)
Fixpoint join_comma (l : list str) : str :=
  match l with
  | [] => []
  | [x] => x
  | x :: l => x ++ lit ", " ++ join_comma l
  end.

Section cors.
Context `{UriParser} `{HeaderBytes} `{HttpMethods}.

Definition apply_security_headers (headers : HeaderMap) : HeaderMap :=
  header_insert (header_insert headers (lit "x-content-type-options") (from_static (lit "nosniff")))
    REFERRER_POLICY (from_static (lit "strict-origin-when-cross-origin")).

Definition is_valid_cors_origin (origin : str) : bool :=
  if bool_decide (origin ∈ [lit "*"; lit "null"]) then true
  else if negb (is_ascii origin) || existsb is_ascii_control (str_bytes origin) then false
  else
    match uri_parse origin with
    | None => false
    | Some uri =>
        match scheme_str uri with
        | Some scheme =>
            if bool_decide (scheme ∈ [lit "http"; lit "https"]) then
              match uri_authority uri with
              | Some authority =>
                  negb (contains_char 64 authority)
                  && bool_decide (origin = scheme ++ lit "://" ++ authority)
              | None => false
              end
            else false
        | None => false
        end
    end.

Record CorsConfig := mk_cors_config {
  co_origins : list str; co_methods : list str; co_headers : list str; co_allow_credentials : bool }.

Definition CorsConfig_new (origins methods headers : list str) (allow_credentials : bool) :
    result PolicyError CorsConfig :=
  let origins := sort_dedup (List.filter (λ o, negb (is_empty o)) (map trim origins)) in
  fail? bool_decide (origins = []) with InvalidConfiguration (lit "at least one CORS origin is required") ;;
  fail? allow_credentials && bool_decide (lit "*" ∈ origins)
    with InvalidConfiguration (lit "wildcard CORS origin cannot allow credentials") ;;
  fail? existsb (λ o, negb (is_valid_cors_origin o)) origins with InvalidConfiguration (lit "invalid CORS origin") ;;
  let? methods := collect_map (λ m, ok_or (method_from_bytes (trim m))
                                      (InvalidConfiguration (lit "invalid CORS method"))) methods in
  let methods := method_set methods in
  fail? bool_decide (methods = []) with InvalidConfiguration (lit "at least one CORS method is required") ;;
  let? headers := collect_map (λ h,
      let normalized := to_ascii_lowercase (trim h) in
      rmap (λ _, normalized) (ok_or (header_name normalized) (InvalidConfiguration (lit "invalid CORS header"))))
    headers in
  Ok (mk_cors_config origins methods (sort_dedup headers) allow_credentials).

Definition from_values (origins : str) (methods headers allow_credentials : option str) :
    result PolicyError CorsConfig :=
  let methods := default (lit "GET,HEAD,POST") methods in
  let headers := default (lit "content-type,authorization") headers in
  let allow := default (lit "false") allow_credentials in
  let? allow_credentials :=
    if bool_decide (allow = lit "true") then Ok true
    else if bool_decide (allow = lit "false") then Ok false
    else Err (InvalidConfiguration (lit "CORS credentials must be true or false")) in
  CorsConfig_new (split_csv origins) (split_csv methods) (split_csv headers) allow_credentials.

Record CorsDecision := mk_cors_decision { cd_response_headers : HeaderMap; cd_status : option Z }.
Definition pass_through : CorsDecision := mk_cors_decision empty_headers None.
Definition rejected_for_origin (status : Z) : CorsDecision :=
  mk_cors_decision (header_insert empty_headers VARY (from_static (lit "Origin"))) (Some status).

Definition contains_key (headers : HeaderMap) (name : str) : bool :=
  negb (bool_decide (get_all headers name = [])).

(** The headers every allowed origin gets. *)
Definition origin_headers (config : CorsConfig) (origin : str) : result PolicyError HeaderMap :=
  let? value := ok_or (from_str (if bool_decide (lit "*" ∈ co_origins config) then lit "*" else origin))
                  InvalidHeader in
  let headers := header_insert empty_headers ACCESS_CONTROL_ALLOW_ORIGIN value in
  let headers := header_insert headers VARY (from_static (lit "Origin")) in
  Ok (if co_allow_credentials config
      then header_insert headers ACCESS_CONTROL_ALLOW_CREDENTIALS (from_static (lit "true")) else headers).

Definition evaluate (config : CorsConfig) (method : str) (headers : HeaderMap) : result PolicyError CorsDecision :=
  let? origin := single_text_header headers ORIGIN in
  match origin with
  | None => Ok pass_through
  | Some origin =>
      if negb (bool_decide (lit "*" ∈ co_origins config)) && negb (bool_decide (origin ∈ co_origins config))
      then Ok (rejected_for_origin 403)
      else
        let? response_headers := origin_headers config origin in
        let is_preflight := bool_decide (method = lit "OPTIONS")
                            && contains_key headers ACCESS_CONTROL_REQUEST_METHOD in
        if negb is_preflight then Ok (mk_cors_decision response_headers None)
        else
          let? requested := single_text_header headers ACCESS_CONTROL_REQUEST_METHOD in
          let? requested := ok_or requested InvalidHeader in
          let? requested_method := ok_or (method_from_bytes requested) InvalidHeader in
          if negb (bool_decide (requested_method ∈ co_methods config)) then Ok (rejected_for_origin 403)
          else
            let? requested := single_text_header headers ACCESS_CONTROL_REQUEST_HEADERS in
            let? requested_headers :=
              collect_map (λ h, ok_or (header_name h) InvalidHeader)
                (match requested with Some value => split_csv value | None => [] end) in
            if existsb (λ h, negb (bool_decide (h ∈ co_headers config))) requested_headers
            then Ok (rejected_for_origin 403)
            else
              let? value := ok_or (from_str (join_comma (co_methods config))) InvalidHeader in
              let response_headers := header_insert response_headers ACCESS_CONTROL_ALLOW_METHODS value in
              let? response_headers :=
                if negb (bool_decide (co_headers config = [])) then
                  let? value := ok_or (from_str (join_comma (co_headers config))) InvalidHeader in
                  Ok (header_insert response_headers ACCESS_CONTROL_ALLOW_HEADERS value)
                else Ok response_headers in
              Ok (mk_cors_decision response_headers (Some 204))
  end.
End cors.

(** ** What a decision may grant *)

Section grants.
Context `{UriParser} `{HeaderBytes} `{HttpMethods}.

Lemma get_all_insert_eq (h : HeaderMap) n v : get_all (header_insert h n v) n = [v].
Proof. by rewrite get_all_insert, bool_decide_true. Qed.
Lemma get_all_insert_ne (h : HeaderMap) n v m : m ≠ n → get_all (header_insert h n v) m = get_all h m.
Proof. intros. by rewrite get_all_insert, bool_decide_false. Qed.

Definition config_valid (config : CorsConfig) : Prop :=
  ∃ origins methods headers allow, CorsConfig_new origins methods headers allow = Ok config.
Lemma config_valid_wildcard config :
  config_valid config → co_allow_credentials config = true → lit "*" ∉ co_origins config.
Proof.
  intros (o & m & h & a & E). unfold CorsConfig_new in E. cbv zeta in E.
  apply fail_Ok in E as [_ E]. apply fail_Ok in E as [Hw E]. apply fail_Ok in E as [_ E].
  apply rbind_Ok in E as (ms & _ & E). apply fail_Ok in E as [_ E]. apply rbind_Ok in E as (hs & _ & [= <-]).
  cbn. intros ->. by bprop; destruct Hw.
Qed.

(** The origin of a request that the configuration allows. *)
Definition allowed_origin (config : CorsConfig) (headers : HeaderMap) (origin : str) : Prop :=
  single_text_header headers ORIGIN = Ok (Some origin)
  ∧ (lit "*" ∈ co_origins config ∨ origin ∈ co_origins config).
(** What [origin_headers] grants. *)
Record origin_granted (config : CorsConfig) (headers response : HeaderMap) : Prop := {
  og_origin : ∃ origin value, allowed_origin config headers origin
    ∧ get_all response ACCESS_CONTROL_ALLOW_ORIGIN = [value]
    ∧ to_str value = Some (if bool_decide (lit "*" ∈ co_origins config) then lit "*" else origin);
  og_credentials : get_all response ACCESS_CONTROL_ALLOW_CREDENTIALS ≠ [] → co_allow_credentials config = true;
}.

Lemma origin_headers_granted config headers origin response :
  allowed_origin config headers origin → origin_headers config origin = Ok response →
  origin_granted config headers response.
Proof.
  intros Ha E. unfold origin_headers in E. apply rbind_Ok in E as (v & Hv%ok_or_Ok & [= <-]).
  apply to_str_from_str in Hv. split.
  - exists origin, v. split_and!; [done| |done].
    destruct (co_allow_credentials config); [rewrite get_all_insert_ne by done|];
      (rewrite get_all_insert_ne by done; by apply get_all_insert_eq).
  - destruct (co_allow_credentials config); [done|]. rewrite !get_all_insert_ne by done. by rewrite get_all_empty.
Qed.
Lemma origin_granted_insert config headers response n v :
  n ≠ ACCESS_CONTROL_ALLOW_ORIGIN → n ≠ ACCESS_CONTROL_ALLOW_CREDENTIALS →
  origin_granted config headers response → origin_granted config headers (header_insert response n v).
Proof.
  intros H1' H2' [Ho Hc]. split; [setoid_rewrite get_all_insert_ne; [done|by apply not_eq_sym]|].
  by rewrite get_all_insert_ne by (by apply not_eq_sym).
Qed.

(** A preflight that the configuration allows. *)
Definition preflight_allowed (config : CorsConfig) (method : str) (headers : HeaderMap) : Prop :=
  method = lit "OPTIONS"
  ∧ (∃ requested, single_text_header headers ACCESS_CONTROL_REQUEST_METHOD = Ok (Some requested)
       ∧ requested ∈ co_methods config)
  ∧ ∃ requested, single_text_header headers ACCESS_CONTROL_REQUEST_HEADERS = Ok requested
      ∧ ∀ h, h ∈ (match requested with Some value => split_csv value | None => [] end) →
          ∃ n, header_name h = Some n ∧ n ∈ co_headers config.

(** The three kinds of decision. *)
Lemma evaluate_cases config method headers d :
  evaluate config method headers = Ok d →
  (cd_status d = None
     ∧ (single_text_header headers ORIGIN = Ok None ∧ d = pass_through
        ∨ origin_granted config headers (cd_response_headers d)))
  ∨ (d = rejected_for_origin 403)
  ∨ (cd_status d = Some 204 ∧ origin_granted config headers (cd_response_headers d)
     ∧ preflight_allowed config method headers).
Proof.
  intros E. unfold evaluate in E. apply rbind_Ok in E as ([origin|] & Ho & E).
  2: { injection E as <-. left. split; [done|by left]. }
  destruct (_ && _) eqn:Hrej in E; [injection E as <-; by right; left|].
  assert (allowed_origin config headers origin) as Ha.
  { split; [done|]. apply andb_false_iff in Hrej as [?|?]; bprop; tauto. }
  apply rbind_Ok in E as (rh & Hrh & E). apply (origin_headers_granted _ _ _ _ Ha) in Hrh. cbv zeta in E.
  destruct (bool_decide_reflect (method = lit "OPTIONS")) as [Hm|Hm]; cbn [andb negb] in E.
  2: { injection E as <-. left. by split; [|right]. }
  destruct (contains_key _ _); cbn [negb] in E; [|injection E as <-; left; by split; [|right]].
  apply rbind_Ok in E as (rm0 & Hrm & E). apply rbind_Ok in E as (rm & ->%ok_or_Ok & E).
  apply rbind_Ok in E as (meth & Hmeth%ok_or_Ok & E). apply method_from_bytes_text in Hmeth as ->.
  destruct (bool_decide_reflect (rm ∈ co_methods config)) as [Hin|]; cbn [negb] in E; [|injection E as <-; by right; left].
  apply rbind_Ok in E as (rq & Hrq & E). apply rbind_Ok in E as (names & Hnames%collect_map_Ok & E).
  destruct (existsb _ names) eqn:Hex; [injection E as <-; by right; left|].
  apply rbind_Ok in E as (v & _ & E). apply rbind_Ok in E as (rh' & Hrh' & [= <-]). right; right.
  split_and!; [done| |split_and!; [done|by exists rm|]].
  - cbn. destruct (negb _) in Hrh'; [apply rbind_Ok in Hrh' as (v' & _ & [= <-])|injection Hrh' as <-];
      repeat apply origin_granted_insert; done.
  - exists rq. split; [done|]. intros h Hh. rewrite existsb_false_spec in Hex.
    apply list_elem_of_lookup in Hh as (i & Hi). destruct (Forall2_lookup_l _ _ _ _ _ Hnames Hi) as (n & Hn & E%ok_or_Ok).
    exists n. split; [done|]. apply list_elem_of_lookup_2 in Hn. specialize (Hex n Hn). by bprop.
Qed.

(** C38: What CORS grants.  Under a validated configuration, a decision names an
    allowed origin only for a request with exactly one origin that the
    configuration lists, or as the wildcard; credentials are allowed only when
    configured, and never together with the wildcard; a preflight is answered
    204 only if its method and every header it names are configured, and every
    other answer it stops with is 403 without an allowed origin. *)
Theorem cors_grants_exact (config : CorsConfig) (method : str) (headers : HeaderMap) (d : CorsDecision)
    (Hconfig : config_valid config) (Heval : evaluate config method headers = Ok d) :
  (∀ value, value ∈ get_all (cd_response_headers d) ACCESS_CONTROL_ALLOW_ORIGIN →
     ∃ origin, allowed_origin config headers origin
       ∧ to_str value = Some (if bool_decide (lit "*" ∈ co_origins config) then lit "*" else origin))
  ∧ (get_all (cd_response_headers d) ACCESS_CONTROL_ALLOW_CREDENTIALS ≠ [] →
     co_allow_credentials config = true ∧ lit "*" ∉ co_origins config)
  ∧ (∀ status, cd_status d = Some status →
     status = 204 ∧ preflight_allowed config method headers
     ∨ status = 403 ∧ get_all (cd_response_headers d) ACCESS_CONTROL_ALLOW_ORIGIN = []).
Proof.
  assert (∀ response, origin_granted config headers response →
    (∀ value, value ∈ get_all response ACCESS_CONTROL_ALLOW_ORIGIN →
       ∃ origin, allowed_origin config headers origin
         ∧ to_str value = Some (if bool_decide (lit "*" ∈ co_origins config) then lit "*" else origin))
    ∧ (get_all response ACCESS_CONTROL_ALLOW_CREDENTIALS ≠ [] →
       co_allow_credentials config = true ∧ lit "*" ∉ co_origins config)) as Hgr.
  { intros response [(origin & v & Ha & Hg & Hv) Hc]. split.
    - rewrite Hg. intros value ->%list_elem_of_singleton. by exists origin.
    - intros Hne. apply Hc in Hne as Hcred. split; [done|by apply config_valid_wildcard]. }
  destruct (evaluate_cases _ _ _ _ Heval) as [[Hs [[_ ->]|Hg]]|[->|(Hs & Hg & Hp)]].
  - cbn. rewrite !get_all_empty. split_and!; [set_solver|done|done].
  - destruct (Hgr _ Hg) as [? ?]. split_and!; [done|done|]. rewrite Hs. done.
  - cbn. rewrite !get_all_insert_ne, !get_all_empty by done. split_and!; [set_solver|done|].
    intros status [= <-]. by right.
  - destruct (Hgr _ Hg) as [? ?]. split_and!; [done|done|]. rewrite Hs. intros status [= <-]. by left.
Qed.
End grants.
