(* ===== verification/Middleware.v ===== *)
(** * Middleware: the WASI HTTP middleware components

    Models the handlers of
    src/legacy/wasi-http-middleware/components/{request-id,security-headers,
    cors,authn-policy,secure-defaults}/src/lib.rs.  A handler takes the one it
    is composed with, a request and the world, and returns a response or an
    error and the world; a chain of components is a composition of handlers.
    The environment is constant, so a configuration kept in a [OnceLock] is
    what the environment yields. *)

From S2P Require Export AuthnRuntime Cors.
Open Scope Z_scope.

#[local] Arguments lit : simpl never.

Definition X_CONTENT_TYPE_OPTIONS : str := lit "x-content-type-options".
Definition CORS_ORIGINS : str := lit "WASI_MIDDLEWARE_CORS_ORIGINS".
Definition CORS_METHODS : str := lit "WASI_MIDDLEWARE_CORS_METHODS".
Definition CORS_HEADERS : str := lit "WASI_MIDDLEWARE_CORS_HEADERS".
Definition CORS_ALLOW_CREDENTIALS : str := lit "WASI_MIDDLEWARE_CORS_ALLOW_CREDENTIALS".
Definition WWW_AUTHENTICATE : str := lit "www-authenticate".
Definition RETRY_AFTER : str := lit "retry-after".

Inductive CorsConfigError := MissingOrigins | CorsDuplicateEnvironment | InvalidPolicy.

(** The identifier state of a component instance inside the world, and the
    random source it draws its prefix from. *)
Record IdSource (W : Type) := mk_id_source {
  ids_of : W → RequestIds; set_ids : RequestIds → W → W; random_bytes : W → list Z }.
Arguments ids_of {W} i w.
Arguments set_ids {W} i ids w.
Arguments random_bytes {W} i w.

Definition to_http_method_text (method : WasiMethod) : str :=
  match method with
  | MGet => lit "GET" | MHead => lit "HEAD" | MPost => lit "POST" | MPut => lit "PUT"
  | MDelete => lit "DELETE" | MConnect => lit "CONNECT" | MOptions => lit "OPTIONS"
  | MTrace => lit "TRACE" | MPatch => lit "PATCH" | MOther value => value
  end.

(** The tokens of the values of [Vary], [None] for a wildcard. *)
Fixpoint vary_tokens (tokens values : list str) : option (list str) :=
  match values with
  | [] => Some tokens
  | token :: values =>
      if bool_decide (token = lit "*") then None
      else vary_tokens (if existsb (λ existing, eq_ignore_ascii_case existing token) tokens
                        then tokens else tokens ++ [token]) values
  end.
Fixpoint vary_values (tokens : list str) (values : list (list Z)) : option (list str) :=
  match values with
  | [] => Some tokens
  | value :: values =>
      match from_utf8 value with
      | None => Some []
      | Some value =>
          match vary_tokens tokens (split_csv value) with
          | None => None
          | Some tokens => vary_values tokens values
          end
      end
  end.
Definition merged_vary_origin (headers : list Header) : list Z :=
  match vary_values [] (header_values headers VARY) with
  | None => lit "*"
  | Some tokens =>
      let tokens := if existsb (λ t, eq_ignore_ascii_case t (lit "origin")) tokens then tokens
                    else tokens ++ [lit "Origin"] in
      str_bytes (join_comma tokens)
  end.
Definition merge_vary_origin (headers : list Header) : list Header :=
  set_header headers VARY (merged_vary_origin headers).

Section handlers.
Context `{UriParser} `{HeaderBytes} `{HttpMethods} `{MetadataCodec} `{BrokerCodec} `{WasiHttp} {W : Type} `{!BrokerWorld W}.

Definition Handler : Type := Request → W → result ErrorCode Response * W.

Definition to_http_method (method : WasiMethod) : option str := method_from_bytes (to_http_method_text method).

(** *** request-id *)

(** The incoming identifier if it is the only one and canonical. *)
Definition incoming_id (headers : list Header) : option str :=
  match single_header_value headers REQUEST_ID_HEADER with
  | Some value =>
      match from_utf8 value with
      | Some value => if is_valid_request_id value then Some value else None
      | None => None
      end
  | None => None
  end.
Definition generate_id (ids : IdSource W) (w : W) : str * W :=
  let '(id, ids') := generated_request_id (random_bytes ids w) (ids_of ids w) in (id, set_ids ids ids' w).
Definition request_id_canonical (ids : IdSource W) (headers : list Header) (w : W) : str * W :=
  match incoming_id headers with Some value => (value, w) | None => generate_id ids w end.
Definition request_id_handle (ids : IdSource W) (downstream : Handler) : Handler := λ request w,
  let headers := request_headers request in
  let '(request_id, w) := request_id_canonical ids headers w in
  let headers := set_header headers REQUEST_ID_HEADER (str_bytes request_id) in
  match replace_request_headers request headers with
  | Err e => (Err e, w)
  | Ok request =>
      let '(response, w) := downstream request w in
      (let? response := response in
       let headers := response_headers response in
       let headers := set_header headers REQUEST_ID_HEADER (str_bytes request_id) in
       replace_response_headers response headers, w)
  end.

(** *** security-headers *)

Definition security_headers_handle (downstream : Handler) : Handler := λ request w,
  let '(response, w) := downstream request w in
  (let? response := response in
   let headers := response_headers response in
   let headers := set_header headers X_CONTENT_TYPE_OPTIONS (lit "nosniff") in
   let headers := set_header headers REFERRER_POLICY (lit "strict-origin-when-cross-origin") in
   replace_response_headers response headers, w).

(** *** cors *)

Definition cors_environment_value (env : environment) (key : str) : result CorsConfigError (option str) :=
  match map snd (List.filter (λ entry, bool_decide (entry.1 = key)) env) with
  | [] => Ok None
  | [value] => Ok (Some value)
  | _ :: _ :: _ => Err CorsDuplicateEnvironment
  end.
Definition load_cors_config (env : environment) : result CorsConfigError CorsConfig :=
  let? origins := cors_environment_value env CORS_ORIGINS in
  let? origins := ok_or origins MissingOrigins in
  let? methods := cors_environment_value env CORS_METHODS in
  let? headers := cors_environment_value env CORS_HEADERS in
  let? allow_credentials := cors_environment_value env CORS_ALLOW_CREDENTIALS in
  map_err (λ _, InvalidPolicy) (from_values origins methods headers allow_credentials).

Definition merge_cors_headers (target : list Header) (source : HeaderMap) : list Header :=
  let target := foldl (λ target name,
      if bool_decide (name = VARY) then target
      else remove_header target name ++ map (λ value, (name, as_bytes value)) (get_all source name))
    target (header_keys source) in
  if contains_key source VARY then merge_vary_origin target else target.

Definition retry_after : list Header := [(RETRY_AFTER, lit "1")].
Definition cors_handle (env : environment) (downstream : Handler) : Handler := λ request w,
  match load_cors_config env with
  | Err _ => (empty_response 503 retry_after, w)
  | Ok config =>
      match to_header_map (request_headers request) with
      | Err _ => (empty_response 400 [], w)
      | Ok header_map =>
          match to_http_method (rq_method request) with
          | None => (empty_response 400 [], w)
          | Some method =>
              match evaluate config method header_map with
              | Err _ => (empty_response 400 [], w)
              | Ok decision =>
                  match cd_status decision with
                  | Some status => (empty_response status (from_header_map (cd_response_headers decision)), w)
                  | None =>
                      let '(response, w) := downstream request w in
                      (let? response := response in
                       if bool_decide (header_keys (cd_response_headers decision) = []) then Ok response
                       else
                         replace_response_headers response
                           (merge_cors_headers (response_headers response) (cd_response_headers decision)), w)
                  end
              end
          end
      end
  end.

(** *** authn-policy *)

Definition authn_rejection_headers (rejection : AuthnRejection) (realm : str) : list Header :=
  (match bearer_challenge rejection realm with
   | Some challenge => [(WWW_AUTHENTICATE, str_bytes challenge)]
   | None => []
   end)
  ++ (if bool_decide (rejection = RejUnavailable) then retry_after else []).
Definition authn_rejection_response (rejection : AuthnRejection) (realm request_id : str) : result ErrorCode Response :=
  empty_response (rejection_status rejection)
    ((REQUEST_ID_HEADER, str_bytes request_id) :: authn_rejection_headers rejection realm).
Definition strip_response_auth_headers (response : Response) : result ErrorCode Response :=
  replace_response_headers response (remove_headers_with_prefix (response_headers response) RESERVED_AUTH_PREFIX).
Definition configuration_failure_response (request_id : str) : result ErrorCode Response :=
  empty_response 503 ((REQUEST_ID_HEADER, str_bytes request_id) :: retry_after).
(** [RequestIdPolicy::canonicalize] with the generator of the component, which
    is called exactly when one that yields invalid values would fail. *)
Definition authn_request_id (ids : IdSource W) (headers : HeaderMap) (w : W) : result ErrorCode str * W :=
  match canonicalize headers [] with
  | Ok value => (Ok value, w)
  | Err _ =>
      let '(generated, w) := generate_id ids w in
      (map_err (λ _, InternalError) (canonicalize headers generated), w)
  end.

Definition forwarded_fields (fields : list Header) (context request_id : list Z) : list Header :=
  let fields := remove_header fields AUTHORIZATION in
  let fields := remove_headers_with_prefix fields RESERVED_AUTH_PREFIX in
  let fields := set_header fields AUTH_CONTEXT_HEADER context in
  set_header fields REQUEST_ID_HEADER request_id.
Definition authn_policy_handle (ids : IdSource W) (env : environment) (downstream : Handler) : Handler :=
  λ request w,
  let fields := request_headers request in
  match to_header_map fields with
  | Err _ => (empty_response 400 [], w)
  | Ok headers =>
      match authn_request_id ids headers w with
      | (Err e, w) => (Err e, w)
      | (Ok request_id, w) =>
          match from_environment env with
          | Err _ => (configuration_failure_response request_id, w)
          | Ok config =>
              let '(outcome, _, w) := authenticate_with_diagnostics headers request_id config w in
              match outcome with
              | Pass context =>
                  match replace_request_headers request
                          (forwarded_fields fields (as_bytes context) (str_bytes request_id)) with
                  | Err e => (Err e, w)
                  | Ok request =>
                      let '(response, w) := downstream request w in
                      (let? response := response in strip_response_auth_headers response, w)
                  end
              | Reject rejection => (authn_rejection_response rejection (au_service_id config) request_id, w)
              end
          end
      end
  end.

(** *** secure-defaults *)

Definition secure_request_id (ids : IdSource W) (headers : list Header) (w : W) : result ErrorCode str * W :=
  match incoming_id headers with
  | Some value => (Ok value, w)
  | None =>
      let '(generated, w) := generate_id ids w in
      (if is_valid_request_id generated then Ok generated else Err InternalError, w)
  end.
Definition policy_names : list str :=
  [AUTHORIZATION; ORIGIN; ACCESS_CONTROL_REQUEST_METHOD; ACCESS_CONTROL_REQUEST_HEADERS].
Definition policy_name (name : str) : option str :=
  List.find (λ selected, eq_ignore_ascii_case name selected) policy_names.
Definition policy_header (headers : HeaderMap) (h : Header) : result unit HeaderMap :=
  match policy_name h.1 with
  | None => Ok headers
  | Some selected =>
      let? value := ok_or (value_from_bytes h.2) tt in
      Ok (header_append headers selected
            (if bool_decide (selected = AUTHORIZATION) then set_sensitive value else value))
  end.
Definition policy_headers (fields : list Header) : result unit HeaderMap :=
  try_fold policy_header empty_headers fields.

Definition cors_replacements (original : list Header) (source : HeaderMap) : list Header :=
  (header_keys source ≫= λ name,
     if bool_decide (name = VARY) then []
     else map (λ value, (name, as_bytes value)) (get_all source name))
  ++ (if contains_key source VARY then [(VARY, merged_vary_origin original)] else []).
Definition reserved_names (fields : list Header) : list str :=
  List.filter (prefix_named RESERVED_AUTH_PREFIX) (map fst fields).
Definition final_replacements (original : list Header) (cors_headers : HeaderMap) (request_id : option str) :
    list Header :=
  [(X_CONTENT_TYPE_OPTIONS, lit "nosniff"); (REFERRER_POLICY, lit "strict-origin-when-cross-origin")]
  ++ (match request_id with Some request_id => [(REQUEST_ID_HEADER, str_bytes request_id)] | None => [] end)
  ++ cors_replacements original cors_headers.
Definition finalize_response (response : Response) (cors_headers : HeaderMap) (request_id : option str) :
    result ErrorCode Response :=
  let original_fields := copy_all (rs_headers response) in
  edit_response_headers_from_original response (rs_headers response) (reserved_names original_fields)
    (final_replacements original_fields cors_headers request_id).
Definition controlled_response (status : Z) (headers : list Header) (cors_headers : HeaderMap)
    (request_id : option str) : result ErrorCode Response :=
  let? response := empty_response status headers in
  finalize_response response cors_headers request_id.
Definition secure_rejection_response (rejection : AuthnRejection) (realm : str) (cors_headers : HeaderMap)
    (request_id : str) : result ErrorCode Response :=
  controlled_response (rejection_status rejection) (authn_rejection_headers rejection realm) cors_headers
    (Some request_id).

Definition secure_delete_names (fields : list Header) : list str :=
  (if existsb (λ h, eq_ignore_ascii_case h.1 AUTHORIZATION) fields then [AUTHORIZATION] else [])
  ++ reserved_names fields.
Definition secure_forward (request : Request) (context request_id : list Z) : result ErrorCode Request :=
  edit_request_headers request (secure_delete_names (request_headers request))
    [(AUTH_CONTEXT_HEADER, context); (REQUEST_ID_HEADER, request_id)].

(** After the CORS decision let the request through. *)
Definition secure_authenticate (env : environment) (downstream : Handler) (headers cors_headers : HeaderMap)
    (request_id : str) : Handler := λ request w,
  match from_environment env with
  | Err _ => (controlled_response 503 retry_after cors_headers (Some request_id), w)
  | Ok authn =>
      let '(outcome, _, w) := authenticate_with_diagnostics headers request_id authn w in
      match outcome with
      | Pass context =>
          match secure_forward request (as_bytes context) (str_bytes request_id) with
          | Err e => (Err e, w)
          | Ok request =>
              let '(response, w) := downstream request w in
              (let? response := response in finalize_response response cors_headers (Some request_id), w)
          end
      | Reject rejection =>
          (secure_rejection_response rejection (au_service_id authn) cors_headers request_id, w)
      end
  end.
Definition secure_defaults_handle (ids : IdSource W) (env : environment) (downstream : Handler) : Handler :=
  λ request w,
  let fields := request_headers request in
  match policy_headers fields with
  | Err _ => (controlled_response 400 [] empty_headers None, w)
  | Ok headers =>
      match secure_request_id ids fields w with
      | (Err e, w) => (Err e, w)
      | (Ok request_id, w) =>
          match load_cors_config env with
          | Err _ => (controlled_response 503 retry_after empty_headers (Some request_id), w)
          | Ok cors =>
              match to_http_method (rq_method request) with
              | None => (controlled_response 400 [] empty_headers (Some request_id), w)
              | Some method =>
                  match evaluate cors method headers with
                  | Err _ => (controlled_response 400 [] empty_headers (Some request_id), w)
                  | Ok decision =>
                      match cd_status decision with
                      | Some status =>
                          (controlled_response status [] (cd_response_headers decision) (Some request_id), w)
                      | None =>
                          secure_authenticate env downstream headers (cd_response_headers decision) request_id
                            request w
                      end
                  end
              end
          end
      end
  end.

(** The chain that [secure-defaults] stands for. *)
Definition middleware_chain (ids_request ids_authn : IdSource W) (env : environment) (application : Handler) : Handler :=
  request_id_handle ids_request
    (security_headers_handle (cors_handle env (authn_policy_handle ids_authn env application))).
End handlers.
