(* ===== verification/MiddlewareProofs.v ===== *)
(** * MiddlewareProofs: what the middleware forwards and answers

    Every request that [secure-defaults] forwards carries exactly one earned
    context, every response it makes carries the baseline headers and no
    reserved one, and the fused component agrees with the chain of components
    it replaces, up to the order in which different headers are listed. *)

From S2P Require Export Middleware.
Open Scope Z_scope.

#[local] Arguments lit : simpl never.

(** ** Header maps of a header list *)

Section maps.
Context `{HeaderBytesLaws}.
#[local] Set Default Proof Using "All".

Lemma ci_lower k n : to_ascii_lowercase n = n → eq_ignore_ascii_case k n = bool_decide (n = to_ascii_lowercase k).
Proof.
  intros Hn. unfold eq_ignore_ascii_case. rewrite Hn. apply bool_decide_ext. split; congruence.
Qed.
Lemma convert_headers_values fields h h' n :
  to_ascii_lowercase n = n → try_fold convert_header h fields = Ok h' →
  map as_bytes (get_all h' n) = map as_bytes (get_all h n) ++ header_values fields n.
Proof.
  intros Hn. revert h. induction fields as [|[k v] fields IH]; intros h; cbn [try_fold].
  { intros [= <-]. by rewrite app_nil_r. }
  intros (g & Hg & E)%rbind_Ok. rewrite (IH g E), header_values_cons. unfold convert_header in Hg.
  apply rbind_Ok in Hg as (name & Hname%ok_or_Ok%header_name_lower & Hg).
  apply rbind_Ok in Hg as (value & Hv%ok_or_Ok%as_bytes_from_bytes & [= <-]). cbn [fst snd] in *. subst name.
  rewrite get_all_append, (ci_lower _ _ Hn). destruct (bool_decide_reflect (n = to_ascii_lowercase k)) as [->|]; [|done].
  rewrite map_app, <- app_assoc. cbn. do 3 f_equal. case_match; by rewrite ?as_bytes_sensitive.
Qed.
Lemma to_header_map_values fields h n :
  to_ascii_lowercase n = n → to_header_map fields = Ok h → map as_bytes (get_all h n) = header_values fields n.
Proof. intros Hn E. rewrite (convert_headers_values _ _ _ _ Hn E), get_all_empty. done. Qed.

Lemma policy_header_step h k v h' n :
  n ∈ policy_names → policy_header h (k, v) = Ok h' →
  map as_bytes (get_all h' n) = map as_bytes (get_all h n) ++ header_values [(k, v)] n.
Proof.
  intros Hn. unfold policy_header, policy_name. cbn [fst snd]. rewrite header_values_cons.
  destruct (List.find _ policy_names) as [sel|] eqn:Ef.
  - intros (value & Hv%ok_or_Ok%as_bytes_from_bytes & [= <-])%rbind_Ok.
    apply List.find_some in Ef as [Hin Hci]. apply list_elem_of_In in Hin. rewrite get_all_append.
    assert (eq_ignore_ascii_case k n = bool_decide (n = sel)) as ->.
    { assert (∀ x, x ∈ policy_names → to_ascii_lowercase x = x) as Hlow
        by (apply Forall_forall; repeat constructor).
      rewrite ci_lower by auto. rewrite ci_lower in Hci by auto. bprop. subst sel. done. }
    destruct (bool_decide_reflect (n = sel)) as [->|]; [|by rewrite app_nil_r].
    rewrite map_app. cbn. do 2 f_equal. case_match; by rewrite ?as_bytes_sensitive.
  - intros [= <-]. apply list_elem_of_In in Hn. pose proof (List.find_none _ _ Ef n Hn) as Hc. cbn beta in Hc.
    by rewrite Hc, app_nil_r.
Qed.
Lemma policy_headers_values fields h n :
  n ∈ policy_names → policy_headers fields = Ok h → map as_bytes (get_all h n) = header_values fields n.
Proof.
  intros Hn. unfold policy_headers.
  assert (∀ h0, try_fold policy_header h0 fields = Ok h →
            map as_bytes (get_all h n) = map as_bytes (get_all h0 n) ++ header_values fields n) as Hg.
  { induction fields as [|[k v] fields IH]; intros h0; cbn [try_fold].
    { intros [= <-]. by rewrite app_nil_r. }
    intros (g & Hg & E)%rbind_Ok. rewrite (IH _ E), (policy_header_step _ _ _ _ _ Hn Hg), <- app_assoc.
    f_equal. change ((k, v) :: fields) with ([(k, v)] ++ fields). by rewrite header_values_app. }
  intros E. rewrite (Hg _ E), get_all_empty. done.
Qed.

(** Two maps that show the policies the same bytes under a name. *)
Definition same_bytes (h h' : HeaderMap) (n : str) : Prop :=
  map as_bytes (get_all h n) = map as_bytes (get_all h' n).
Lemma same_bytes_texts h h' n : same_bytes h h' n → map to_str (get_all h n) = map to_str (get_all h' n).
Proof.
  unfold same_bytes. generalize (get_all h n) (get_all h' n). induction l as [|v l IH]; intros [|v' l'] E; try done.
  injection E as Hv Hl. cbn. by rewrite (to_str_bytes _ _ Hv), (IH _ Hl).
Qed.
Lemma single_text_header_ext h h' n : same_bytes h h' n → single_text_header h n = single_text_header h' n.
Proof.
  intros E%same_bytes_texts. unfold single_text_header.
  destruct (get_all h n) as [|v [|? ?]], (get_all h' n) as [|v' [|? ?]]; try discriminate E; try done.
  cbn in E. injection E as ->. done.
Qed.
Lemma authorization_value_ext h h' : same_bytes h h' AUTHORIZATION → authorization_value h = authorization_value h'.
Proof.
  intros E%same_bytes_texts. unfold authorization_value.
  destruct (get_all h AUTHORIZATION) as [|v [|? ?]], (get_all h' AUTHORIZATION) as [|v' [|? ?]];
    try discriminate E; try done.
  cbn in E. injection E as ->. done.
Qed.
Lemma contains_key_ext h h' n : same_bytes h h' n → contains_key h n = contains_key h' n.
Proof.
  unfold contains_key, same_bytes. intros E. f_equal. apply bool_decide_ext.
  destruct (get_all h n), (get_all h' n); done.
Qed.
End maps.

(** ** Names in lower case *)

Definition lower_name (n : str) : Prop := to_ascii_lowercase n = n.
Definition cors_names : list str :=
  [ACCESS_CONTROL_ALLOW_ORIGIN; VARY; ACCESS_CONTROL_ALLOW_CREDENTIALS; ACCESS_CONTROL_ALLOW_METHODS;
   ACCESS_CONTROL_ALLOW_HEADERS].
Lemma cors_names_lower n : n ∈ cors_names → lower_name n.
Proof. revert n. apply Forall_forall. repeat constructor. Qed.
Lemma ci_name k m : lower_name k → eq_ignore_ascii_case k m = bool_decide (to_ascii_lowercase m = k).
Proof.
  intros Hk. unfold eq_ignore_ascii_case. rewrite Hk. apply bool_decide_ext. split; congruence.
Qed.
(** The names the middleware treats specially are all different. *)
Lemma special_names_differ :
  NoDup (X_CONTENT_TYPE_OPTIONS :: REFERRER_POLICY :: REQUEST_ID_HEADER :: AUTH_CONTEXT_HEADER :: AUTHORIZATION
         :: cors_names).
Proof. apply (bool_decide_unpack _). by vm_compute. Qed.
Lemma reserved_prefix_ascii : is_ascii RESERVED_AUTH_PREFIX = true ∧ lower_name RESERVED_AUTH_PREFIX.
Proof. by vm_compute. Qed.
Lemma prefix_reserved m : prefix_named RESERVED_AUTH_PREFIX m = reserved_name (to_ascii_lowercase m).
Proof.
  destruct reserved_prefix_ascii as [Ha Hl]. rewrite prefix_named_spec by done. unfold lower_name in Hl. by rewrite Hl.
Qed.
Lemma reserved_ci n m : eq_ignore_ascii_case n m = true →
  prefix_named RESERVED_AUTH_PREFIX n = prefix_named RESERVED_AUTH_PREFIX m.
Proof. intros E%ci_spec. by rewrite !prefix_reserved, E. Qed.

Lemma header_values_unprefixed l m :
  header_values (remove_headers_with_prefix l RESERVED_AUTH_PREFIX) m =
    if prefix_named RESERVED_AUTH_PREFIX m then [] else header_values l m.
Proof.
  unfold remove_headers_with_prefix. induction l as [|[k v] l IH]; [by case_match|].
  cbn [List.filter fst]. rewrite (header_values_cons k v l).
  destruct (eq_ignore_ascii_case k m) eqn:Ek.
  - rewrite (reserved_ci _ _ Ek). destruct (prefix_named RESERVED_AUTH_PREFIX m) eqn:Em; cbn [negb]; [done|].
    rewrite header_values_cons, Ek, IH. done.
  - destruct (prefix_named RESERVED_AUTH_PREFIX k); cbn [negb]; [|rewrite header_values_cons, Ek]; apply IH.
Qed.
(** Deleting the reserved names that occur leaves no reserved header. *)
Lemma reserved_names_spec l m :
  (if existsb (λ n, eq_ignore_ascii_case n m) (reserved_names l) then [] else header_values l m)
  = if prefix_named RESERVED_AUTH_PREFIX m then [] else header_values l m.
Proof.
  destruct (existsb _ (reserved_names l)) eqn:E.
  - apply existsb_spec in E as (n & Hn & E). unfold reserved_names in Hn. apply elem_of_filterb in Hn as [_ Hp].
    by rewrite <- (reserved_ci _ _ E), Hp.
  - destruct (prefix_named RESERVED_AUTH_PREFIX m) eqn:Em; [|done]. apply header_values_nil_iff.
    unfold contains_header_name. apply existsb_false_spec. intros [k v] Hin. unfold named. cbn.
    rewrite existsb_false_spec in E. destruct (eq_ignore_ascii_case k m) eqn:Ek; [|done].
    rewrite <- Ek. apply E. unfold reserved_names. apply elem_of_filterb. split.
    + apply list_elem_of_fmap. by exists (k, v).
    + by rewrite (reserved_ci _ _ Ek).
Qed.

(** ** What the decision adds to a response *)

Section cors_values.
Context `{UriParser} `{HeaderBytesLaws} `{HttpMethods}.
#[local] Set Default Proof Using "All".

Lemma evaluate_ext config m h h' :
  (∀ n, n ∈ [ORIGIN; ACCESS_CONTROL_REQUEST_METHOD; ACCESS_CONTROL_REQUEST_HEADERS] → same_bytes h h' n) →
  evaluate config m h = evaluate config m h'.
Proof.
  intros E. unfold evaluate.
  rewrite (single_text_header_ext h h' ORIGIN) by (apply E; set_solver).
  rewrite (contains_key_ext h h' ACCESS_CONTROL_REQUEST_METHOD) by (apply E; set_solver).
  rewrite (single_text_header_ext h h' ACCESS_CONTROL_REQUEST_METHOD) by (apply E; set_solver).
  by rewrite (single_text_header_ext h h' ACCESS_CONTROL_REQUEST_HEADERS) by (apply E; set_solver).
Qed.

Definition only_cors (h : HeaderMap) : Prop := ∀ n, get_all h n ≠ [] → n ∈ cors_names.
Lemma only_cors_empty : only_cors empty_headers.
Proof. intros n. by rewrite get_all_empty. Qed.
Lemma only_cors_insert h n v : n ∈ cors_names → only_cors h → only_cors (header_insert h n v).
Proof. intros Hn Hh m. rewrite get_all_insert. destruct (bool_decide_reflect (m = n)) as [->|]; [done|apply Hh]. Qed.
Lemma evaluate_only_cors config m h d : evaluate config m h = Ok d → only_cors (cd_response_headers d).
Proof.
  assert (only_cors (cd_response_headers (rejected_for_origin 403))) as Hrej
    by (apply only_cors_insert; [set_solver|apply only_cors_empty]).
  intros E. unfold evaluate in E. apply rbind_Ok in E as ([origin|] & _ & E).
  2: { injection E as <-. apply only_cors_empty. }
  destruct (_ && _) in E; [by injection E as <-|]. apply rbind_Ok in E as (rh & Hrh & E).
  assert (only_cors rh) as Hoc.
  { unfold origin_headers in Hrh. apply rbind_Ok in Hrh as (v & _ & [= <-]).
    destruct (co_allow_credentials config); repeat (apply only_cors_insert; [set_solver|]); apply only_cors_empty. }
  cbv zeta in E. destruct (negb _) in E; [by injection E as <-|].
  apply rbind_Ok in E as (rm0 & _ & E). apply rbind_Ok in E as (rm & _ & E). apply rbind_Ok in E as (me & _ & E).
  destruct (negb _) in E; [by injection E as <-|]. apply rbind_Ok in E as (rq & _ & E).
  apply rbind_Ok in E as (names & _ & E). destruct (existsb _ names); [by injection E as <-|].
  apply rbind_Ok in E as (v & _ & E). apply rbind_Ok in E as (rh' & Hrh' & [= <-]). cbn.
  destruct (negb _) in Hrh'; [apply rbind_Ok in Hrh' as (v' & _ & [= <-])|injection Hrh' as <-];
    repeat (apply only_cors_insert; [set_solver|]); done.
Qed.

(** What a source map gives a name, [Vary] being merged to [vary]. *)
Definition cors_values (vary : list Z) (source : HeaderMap) (m : str) : list (list Z) :=
  if bool_decide (to_ascii_lowercase m = VARY) then (if contains_key source VARY then [vary] else [])
  else map as_bytes (get_all source (to_ascii_lowercase m)).

Lemma named_values n vs m : lower_name n →
  header_values (map (λ value, (n, as_bytes value)) vs) m = if bool_decide (to_ascii_lowercase m = n) then map as_bytes vs else [].
Proof.
  intros Hn. induction vs as [|v vs IH]; cbn [map]; [by case_match|]. rewrite header_values_cons, IH, (ci_name _ _ Hn).
  by case_match.
Qed.
Lemma keys_values keys source m :
  NoDup keys → (∀ n, n ∈ keys → lower_name n) →
  header_values (keys ≫= λ name, if bool_decide (name = VARY) then []
                                 else map (λ value, (name, as_bytes value)) (get_all source name)) m
  = if bool_decide (to_ascii_lowercase m ∈ keys) && negb (bool_decide (to_ascii_lowercase m = VARY))
    then map as_bytes (get_all source (to_ascii_lowercase m)) else [].
Proof.
  induction keys as [|k keys IH]; intros Hnd Hlow; [done|]. apply NoDup_cons in Hnd as [Hk Hnd].
  cbn [mbind list_bind]. rewrite header_values_app, IH by (set_solver). clear IH.
  remember (to_ascii_lowercase m) as lm eqn:Hlm. destruct (decide (lm = k)) as [->|Hne].
  - rewrite (bool_decide_false (k ∈ keys)), (bool_decide_true (k ∈ k :: keys)) by set_solver. cbn [andb].
    rewrite app_nil_r. destruct (bool_decide (k = VARY)); cbn [negb]; [done|].
    rewrite named_values by (apply Hlow; set_solver). rewrite <- Hlm. by rewrite bool_decide_true.
  - replace (header_values _ m) with (@nil (list Z)).
    + rewrite app_nil_l, (bool_decide_ext (lm ∈ k :: keys) (lm ∈ keys)) by set_solver. done.
    + case_match; [done|]. rewrite named_values by (apply Hlow; set_solver). rewrite <- Hlm. by rewrite bool_decide_false.
Qed.
Lemma get_all_absent (h : HeaderMap) n : n ∉ header_keys h → get_all h n = [].
Proof. rewrite header_keys_spec. destruct (get_all h n); [done|]. intros Hn. by destruct Hn. Qed.
Lemma only_cors_keys source n : only_cors source → n ∈ header_keys source → lower_name n.
Proof. intros Ho Hin. apply cors_names_lower, Ho. by apply header_keys_spec. Qed.
Lemma cors_replacements_values original source m :
  only_cors source → header_values (cors_replacements original source) m = cors_values (merged_vary_origin original) source m.
Proof.
  intros Ho. unfold cors_replacements. rewrite header_values_app.
  rewrite keys_values by (apply header_keys_once || by intros; eapply only_cors_keys).
  unfold cors_values. assert (∀ v, header_values [(VARY, v)] m = if bool_decide (to_ascii_lowercase m = VARY) then [v] else [])
    as Hvary by (intros v; rewrite header_values_cons, ci_name by done; by case_match).
  set (lm := to_ascii_lowercase m) in *.
  destruct (contains_key source VARY); [rewrite Hvary|change (header_values [] m) with (@nil (list Z))];
    destruct (bool_decide (lm = VARY)); cbn [negb]; rewrite ?andb_false_r, ?andb_true_r, ?app_nil_r; try done.
  all: destruct (bool_decide_reflect (lm ∈ header_keys source)) as [|Hk]; [done|];
    by rewrite (get_all_absent _ _ Hk).
Qed.

(** The merged [Vary] only depends on the values of that name. *)
Lemma merged_vary_ext l l' : header_values l VARY = header_values l' VARY → merged_vary_origin l = merged_vary_origin l'.
Proof. unfold merged_vary_origin. by intros ->. Qed.

Lemma merge_keys_values source keys target m :
  NoDup keys → (∀ n, n ∈ keys → lower_name n) →
  header_values (foldl (λ target name,
      if bool_decide (name = VARY) then target
      else remove_header target name ++ map (λ value, (name, as_bytes value)) (get_all source name)) target keys) m
  = if bool_decide (to_ascii_lowercase m ∈ keys) && negb (bool_decide (to_ascii_lowercase m = VARY))
    then map as_bytes (get_all source (to_ascii_lowercase m)) else header_values target m.
Proof.
  revert target. induction keys as [|k keys IH]; intros target Hnd Hlow; [done|]. apply NoDup_cons in Hnd as [Hk Hnd].
  cbn [foldl]. rewrite IH by set_solver. clear IH. remember (to_ascii_lowercase m) as lm eqn:Hlm.
  destruct (decide (lm = k)) as [->|Hne].
  - rewrite (bool_decide_false (k ∈ keys)), (bool_decide_true (k ∈ k :: keys)) by set_solver. cbn [andb].
    destruct (bool_decide (k = VARY)); cbn [negb]; [done|].
    rewrite header_values_app, header_values_remove, named_values, ci_name by (apply Hlow; set_solver).
    rewrite <- ?Hlm. by rewrite bool_decide_true.
  - rewrite (bool_decide_ext (lm ∈ k :: keys) (lm ∈ keys)) by set_solver. case_match; [done|].
    case_match; [done|]. rewrite header_values_app, header_values_remove, named_values, ci_name by (apply Hlow; set_solver).
    rewrite <- ?Hlm. rewrite bool_decide_false by done. by rewrite app_nil_r.
Qed.
Lemma merge_cors_values target source m :
  only_cors source →
  header_values (merge_cors_headers target source) m =
    match cors_values (merged_vary_origin target) source m with [] => header_values target m | vs => vs end.
Proof.
  intros Ho. unfold merge_cors_headers. cbv zeta.
  set (folded := foldl _ target (header_keys source)).
  assert (∀ k, header_values folded k =
    if bool_decide (to_ascii_lowercase k ∈ header_keys source) && negb (bool_decide (to_ascii_lowercase k = VARY))
    then map as_bytes (get_all source (to_ascii_lowercase k)) else header_values target k) as Hf.
  { intros k. apply merge_keys_values; [apply header_keys_once|]. intros n. by apply only_cors_keys. }
  assert (merged_vary_origin folded = merged_vary_origin target) as Hv.
  { apply merged_vary_ext. rewrite Hf. by rewrite andb_false_r. }
  unfold cors_values. set (lm := to_ascii_lowercase m) in *.
  assert (header_values folded m = if bool_decide (lm = VARY) then header_values target m
          else match map as_bytes (get_all source lm) with [] => header_values target m | vs => vs end) as Hm.
  { rewrite Hf. fold lm. destruct (bool_decide (lm = VARY)); cbn [negb]; rewrite ?andb_false_r, ?andb_true_r; [done|].
    destruct (bool_decide_reflect (lm ∈ header_keys source)) as [Hk|Hk]; [|by rewrite (get_all_absent _ _ Hk)].
    apply header_keys_spec in Hk. by destruct (get_all source lm). }
  destruct (contains_key source VARY).
  - unfold merge_vary_origin. rewrite header_values_set, ci_name, Hv, Hm by done. fold lm. by case_match.
  - rewrite Hm. by case_match.
Qed.
Lemma lower_header_map_values cors m :
  (∀ n, n ∈ header_keys cors → lower_name n) →
  header_values (from_header_map cors) m = map as_bytes (get_all cors (to_ascii_lowercase m)).
Proof.
  intros Hlow. unfold from_header_map. pose proof (header_keys_once cors) as Hnd.
  assert (to_ascii_lowercase m ∉ header_keys cors → get_all cors (to_ascii_lowercase m) = []) as Habs by apply get_all_absent.
  set (lm := to_ascii_lowercase m) in *. revert Hnd Hlow Habs. generalize (header_keys cors) as keys.
  assert (∀ keys, NoDup keys → (∀ n, n ∈ keys → lower_name n) →
    header_values (keys ≫= λ name, map (λ value, (name, as_bytes value)) (get_all cors name)) m
    = if bool_decide (lm ∈ keys) then map as_bytes (get_all cors lm) else []) as Hk.
  { induction keys as [|k keys IH]; intros Hnd Hlow; [done|]. apply NoDup_cons in Hnd as [Hk Hnd].
    cbn [mbind list_bind]. rewrite header_values_app, IH, named_values by set_solver. fold lm.
    destruct (bool_decide_reflect (lm = k)) as [E|Hne].
    - rewrite E, (bool_decide_false (k ∈ keys)), (bool_decide_true (k ∈ k :: keys)) by set_solver. by rewrite app_nil_r.
    - by rewrite app_nil_l, (bool_decide_ext (lm ∈ k :: keys) (lm ∈ keys)) by set_solver. }
  intros keys Hnd Hlow Habs. rewrite Hk by done. destruct (bool_decide_reflect (lm ∈ keys)) as [|Hn]; [done|].
  by rewrite Habs.
Qed.
Lemma as_bytes_static s : forallb visible_ascii s = true → as_bytes (from_static s) = str_bytes s.
Proof. intros Hs. by apply as_bytes_text, to_str_from_static. Qed.
End cors_values.

(** ** Messages up to the order of their headers *)

Section messages_equiv.
Context `{WasiHttp}.

Definition same_values (l l' : list Header) : Prop := ∀ m, header_values l m = header_values l' m.
(** Everything of a request but its headers. *)
Definition same_rest (q q' : Request) : Prop :=
  rq_method q = rq_method q' ∧ rq_scheme q = rq_scheme q' ∧ rq_path q = rq_path q'
  ∧ rq_authority q = rq_authority q' ∧ rq_options q = rq_options q' ∧ rq_body q = rq_body q'.
Definition same_request (q q' : Request) : Prop :=
  same_rest q q' ∧ same_values (request_headers q) (request_headers q').
Definition same_response (r r' : Response) : Prop :=
  rs_status r = rs_status r' ∧ rs_body r = rs_body r' ∧ same_values (response_headers r) (response_headers r').
Definition same_outcome {W} (o o' : result ErrorCode Response * W) : Prop :=
  o.2 = o'.2 ∧ match o.1, o'.1 with
               | Ok r, Ok r' => same_response r r'
               | Err e, Err e' => e = e'
               | _, _ => False
               end.
#[export] Instance same_values_equiv : Equivalence same_values.
Proof.
  split; [by intros l m|by intros l l' E m|]. intros l1 l2 l3 E1 E2 m. by rewrite (E1 m).
Qed.
#[export] Instance same_response_equiv : Equivalence same_response.
Proof.
  split.
  - intros r. by split_and!.
  - intros r r' (? & ? & ?). by split_and!.
  - intros r1 r2 r3 (? & ? & E1) (? & ? & E2). split_and!; [congruence|congruence|by rewrite E1].
Qed.

Lemma forward_request_rest q f q' :
  forward_request q f = Ok q' → same_rest q q' ∧ rq_headers q' = f.
Proof.
  unfold forward_request, restore_request_metadata. intros E.
  do 4 (apply fail_Ok in E as [_ E]). injection E as <-. by split_and!.
Qed.
Lemma forward_response_rest r f r' :
  forward_response r f = Ok r' → rs_status r' = rs_status r ∧ rs_body r' = rs_body r ∧ rs_headers r' = f.
Proof. unfold forward_response. by intros [_ [= <-]]%fail_Ok. Qed.
End messages_equiv.

(** ** What is forwarded and what is answered *)

Section forwarding.
Context `{WasiHttpLaws}.
#[local] Set Default Proof Using "All".

Lemma replace_request_values q l q' :
  replace_request_headers q l = Ok q' → same_rest q q' ∧ same_values (request_headers q') l.
Proof.
  unfold replace_request_headers, replace_request_headers_from_original.
  intros (f & Hf%map_err_Ok & [Hr Hh]%forward_request_rest)%rbind_Ok. split; [done|].
  intros m. unfold request_headers at 1. rewrite Hh. by eapply header_diff_values.
Qed.
Lemma replace_response_values r l r' :
  replace_response_headers r l = Ok r' →
  rs_status r' = rs_status r ∧ rs_body r' = rs_body r ∧ same_values (response_headers r') l.
Proof.
  unfold replace_response_headers, replace_response_headers_from_original.
  intros (f & Hf%map_err_Ok & (Hs & Hb & Hh)%forward_response_rest)%rbind_Ok. split_and!; [done|done|].
  intros m. unfold response_headers at 1. rewrite Hh. by eapply header_diff_values.
Qed.

(** The headers the application sees. *)
Definition forwarded_values (l : list Header) (context request_id : list Z) (m : str) : list (list Z) :=
  let lm := to_ascii_lowercase m in
  if bool_decide (lm = REQUEST_ID_HEADER) then [request_id]
  else if bool_decide (lm = AUTH_CONTEXT_HEADER) then [context]
  else if bool_decide (lm = AUTHORIZATION) || reserved_name lm then []
  else header_values l m.
Lemma forwarded_fields_values l context rid m :
  header_values (forwarded_fields l context rid) m = forwarded_values l context rid m.
Proof.
  unfold forwarded_fields, forwarded_values. cbv zeta.
  rewrite !header_values_set, header_values_unprefixed, header_values_remove, prefix_reserved, !ci_name by done.
  set (lm := to_ascii_lowercase m). destruct (bool_decide (lm = REQUEST_ID_HEADER)), (bool_decide (lm = AUTH_CONTEXT_HEADER)),
    (bool_decide (lm = AUTHORIZATION)), (reserved_name lm); done.
Qed.
Lemma secure_delete_values l m :
  (if existsb (λ n, eq_ignore_ascii_case n m) (secure_delete_names l) then [] else header_values l m)
  = if bool_decide (to_ascii_lowercase m = AUTHORIZATION) || reserved_name (to_ascii_lowercase m) then []
    else header_values l m.
Proof.
  unfold secure_delete_names. rewrite existsb_app. pose proof (reserved_names_spec l m) as Hr.
  rewrite prefix_reserved in Hr. fold (contains_header_name l AUTHORIZATION).
  destruct (bool_decide_reflect (to_ascii_lowercase m = AUTHORIZATION)) as [Hm|Hm]; cbn [orb].
  - assert (eq_ignore_ascii_case AUTHORIZATION m = true) as Hci by (by rewrite ci_name, bool_decide_true).
    destruct (existsb (λ h : str * list Z, eq_ignore_ascii_case h.1 AUTHORIZATION) l) eqn:E; cbn [existsb]; [by rewrite Hci|].
    destruct (existsb _ (reserved_names l)); [done|]. cbn. apply header_values_nil_iff.
    by rewrite <- (contains_ci _ _ _ Hci).
  - rewrite <- Hr. destruct (existsb (λ h : str * list Z, eq_ignore_ascii_case h.1 AUTHORIZATION) l); cbn [existsb]; [|done].
    by rewrite ci_name, bool_decide_false.
Qed.
Lemma secure_forward_values q context rid q' :
  secure_forward q context rid = Ok q' →
  same_rest q q' ∧ ∀ m, header_values (request_headers q') m = forwarded_values (request_headers q) context rid m.
Proof.
  unfold secure_forward, edit_request_headers. intros (f & Hf%map_err_Ok & [Hr Hh]%forward_request_rest)%rbind_Ok.
  split; [done|]. intros m. unfold request_headers at 1. rewrite Hh, (header_edits_values _ _ _ _ m Hf).
  change (copy_all (rq_headers q)) with (request_headers q). rewrite secure_delete_values.
  unfold forwarded_values. cbv zeta. rewrite !header_values_cons. unfold contains_header_name, named. cbn [existsb fst].
  rewrite !ci_name by done. set (lm := to_ascii_lowercase m).
  destruct (bool_decide_reflect (lm = REQUEST_ID_HEADER)) as [Hm|]; [by rewrite Hm|].
  by destruct (bool_decide (lm = AUTH_CONTEXT_HEADER)).
Qed.
End forwarding.

Section answering.
Context `{UriParser} `{HeaderBytesLaws} `{HttpMethods} `{WasiHttpLaws}.
#[local] Set Default Proof Using "All".

Definition STRICT_ORIGIN : list Z := lit "strict-origin-when-cross-origin".
(** The headers of an answer made from the headers [orig], a CORS decision and
    the request identifier. *)
Definition final_values (orig : list Header) (cors : HeaderMap) (rid : option str) (m : str) : list (list Z) :=
  let lm := to_ascii_lowercase m in
  if bool_decide (lm = X_CONTENT_TYPE_OPTIONS) then [lit "nosniff"]
  else if bool_decide (lm = REFERRER_POLICY) then [STRICT_ORIGIN]
  else
    match (if bool_decide (lm = REQUEST_ID_HEADER) then rid else None) with
    | Some rid => [str_bytes rid]
    | None =>
        match cors_values (merged_vary_origin orig) cors m with
        | [] => if reserved_name lm then [] else header_values orig m
        | vs => vs
        end
    end.
Record answered (r : Response) (status : Z) (body : Body) (orig : list Header) (cors : HeaderMap)
    (rid : option str) : Prop := {
  an_status : rs_status r = status;
  an_body : rs_body r = body;
  an_values m : header_values (response_headers r) m = final_values orig cors rid m;
}.

Lemma cors_values_other vary source m :
  only_cors source → to_ascii_lowercase m ∉ cors_names → cors_values vary source m = [].
Proof.
  intros Ho Hm. unfold cors_values. rewrite bool_decide_false by (intros E; rewrite E in Hm; set_solver).
  destruct (get_all source (to_ascii_lowercase m)) eqn:E; [done|]. destruct Hm. apply Ho. by rewrite E.
Qed.
Lemma special_not_cors n :
  n ∈ [X_CONTENT_TYPE_OPTIONS; REFERRER_POLICY; REQUEST_ID_HEADER; AUTH_CONTEXT_HEADER; AUTHORIZATION] → n ∉ cors_names.
Proof.
  intros Hn Hc. pose proof special_names_differ as Hd.
  change (X_CONTENT_TYPE_OPTIONS :: _) with
    ([X_CONTENT_TYPE_OPTIONS; REFERRER_POLICY; REQUEST_ID_HEADER; AUTH_CONTEXT_HEADER; AUTHORIZATION] ++ cors_names) in Hd.
  apply NoDup_app in Hd as (_ & Hd & _). by apply (Hd n).
Qed.

Lemma final_replacements_values orig cors rid m :
  only_cors cors →
  match header_values (final_replacements orig cors rid) m with
  | [] => if reserved_name (to_ascii_lowercase m) then [] else header_values orig m
  | vs => vs
  end = final_values orig cors rid m.
Proof.
  intros Ho. unfold final_replacements, final_values. cbv zeta.
  cbn [app]. rewrite !header_values_cons, header_values_app, cors_replacements_values, !ci_name by done.
  remember (to_ascii_lowercase m) as lm eqn:Hlm.
  assert (∀ n, n ∈ [X_CONTENT_TYPE_OPTIONS; REFERRER_POLICY; REQUEST_ID_HEADER; AUTH_CONTEXT_HEADER; AUTHORIZATION] →
            lm = n → cors_values (merged_vary_origin orig) cors m = []) as Hc.
  { intros n Hn E. apply cors_values_other; [done|]. rewrite <- Hlm, E. by apply special_not_cors. }
  destruct rid as [id|]; [rewrite header_values_cons, ci_name by done; rewrite <- Hlm|];
    change (header_values [] m) with (@nil (list Z));
    (destruct (bool_decide_reflect (lm = X_CONTENT_TYPE_OPTIONS)) as [E|_];
       [by rewrite (Hc X_CONTENT_TYPE_OPTIONS ltac:(set_solver) E), ?E|]);
    (destruct (bool_decide_reflect (lm = REFERRER_POLICY)) as [E|_];
       [by rewrite (Hc REFERRER_POLICY ltac:(set_solver) E), ?E|]);
    (destruct (bool_decide_reflect (lm = REQUEST_ID_HEADER)) as [E|_];
       [by rewrite (Hc REQUEST_ID_HEADER ltac:(set_solver) E)|done]).
Qed.

Lemma finalize_answered r cors rid r' :
  only_cors cors → finalize_response r cors rid = Ok r' →
  answered r' (rs_status r) (rs_body r) (response_headers r) cors rid.
Proof.
  intros Ho. unfold finalize_response, edit_response_headers_from_original. cbv zeta.
  intros (f & Hf%map_err_Ok & (Hs & Hb & Hh)%forward_response_rest)%rbind_Ok. split; [done|done|].
  intros m. unfold response_headers at 1. rewrite Hh, (header_edits_values _ _ _ _ m Hf), reserved_names_spec, prefix_reserved.
  change (copy_all (rs_headers r)) with (response_headers r). rewrite <- (final_replacements_values _ _ rid _ Ho).
  destruct (header_values (final_replacements _ _ _) m) eqn:E.
  - by rewrite (proj1 (header_values_nil_iff _ _) E).
  - destruct (contains_header_name (final_replacements _ _ _) m) eqn:Ec; [done|].
    apply header_values_nil_iff in Ec. congruence.
Qed.

(** Whatever the answer is made from, its baseline headers are these. *)
Lemma answered_baseline r status body orig cors rid :
  answered r status body orig cors rid →
  header_values (response_headers r) X_CONTENT_TYPE_OPTIONS = [lit "nosniff"]
  ∧ header_values (response_headers r) REFERRER_POLICY = [STRICT_ORIGIN]
  ∧ (∀ id, rid = Some id → header_values (response_headers r) REQUEST_ID_HEADER = [str_bytes id])
  ∧ (only_cors cors → ∀ m, prefix_named RESERVED_AUTH_PREFIX m = true → header_values (response_headers r) m = []).
Proof.
  intros [_ _ Hv]. split_and!; [by rewrite Hv|by rewrite Hv|intros id ->; by rewrite Hv|].
  intros Ho m Hm. rewrite Hv. rewrite prefix_reserved in Hm. unfold final_values. cbv zeta.
  assert (∀ n, reserved_name n = false → to_ascii_lowercase m ≠ n) as Hne by (intros n Hn E; congruence).
  rewrite !bool_decide_false by (by apply Hne). rewrite cors_values_other; [by rewrite Hm|done|].
  intros Hin. assert (∀ n, n ∈ cors_names → reserved_name n = false) as Hr
    by (apply Forall_forall; by repeat constructor).
  by rewrite (Hr _ Hin) in Hm.
Qed.
End answering.

(** ** The fused component *)

Section secure_defaults.
Context `{UriParser} `{HeaderBytesLaws} `{HttpMethods} `{MetadataCodecLaws} `{BrokerCodec} `{WasiHttpLaws}
  {W : Type} `{!BrokerWorld W}.
#[local] Set Default Proof Using "All".

Lemma controlled_answered status headers cors rid r :
  only_cors cors → controlled_response status headers cors rid = Ok r →
  ∃ r0, empty_response status headers = Ok r0 ∧ answered r (rs_status r0) (rs_body r0) (response_headers r0) cors rid.
Proof.
  intros Ho (r0 & H0' & Hf)%rbind_Ok. exists r0. split; [done|]. by apply finalize_answered.
Qed.

(** The identifier is canonical whenever the component goes on. *)
Lemma secure_request_id_valid (ids : IdSource W) fields (w : W) rid w' :
  secure_request_id ids fields w = (Ok rid, w') → is_valid_request_id rid = true.
Proof.
  unfold secure_request_id, incoming_id. destruct (single_header_value fields REQUEST_ID_HEADER) as [v|];
    [destruct (from_utf8 v) as [s|]; [destruct (is_valid_request_id s) eqn:Es; [by intros [= <- _]|]|]|].
  all: destruct (generate_id ids w) as [g w1]; destruct (is_valid_request_id g) eqn:Eg; [by intros [= <- _]|done].
Qed.

(** How one request is handled: an answer of the component itself, which the
    application has no part in, or one forwarded request. *)
Inductive secure_run (ids : IdSource W) (env : environment) (request : Request) (w : W) :
    (Handler (W:=W) → result ErrorCode Response * W) → Prop :=
| run_stopped out (Hbase : ∀ r w', out = (Ok r, w') →
      ∃ status body orig cors rid, answered r status body orig cors rid ∧ only_cors cors
        ∧ match rid with Some id => is_valid_request_id id = true | None => status = 400 end) :
    secure_run ids env request w (λ _, out)
| run_forwarded rid w0 headers cors config value stage w1 forwarded
    (Hid : secure_request_id ids (request_headers request) w = (Ok rid, w0))
    (Hheaders : policy_headers (request_headers request) = Ok headers)
    (Hcors : only_cors cors)
    (Hconfig : from_environment env = Ok config)
    (Hpass : authenticate_with_diagnostics headers rid config w0 = (Pass value, stage, w1))
    (Hforward : secure_forward request (as_bytes value) (str_bytes rid) = Ok forwarded) :
    secure_run ids env request w (λ downstream,
      let '(response, w2) := downstream forwarded w1 in
      (let? response := response in finalize_response response cors (Some rid), w2)).

Lemma stopped_controlled ids env request w status headers cors rid w0 :
  only_cors cors → is_valid_request_id rid = true →
  secure_run ids env request w (λ _, (controlled_response status headers cors (Some rid), w0)).
Proof.
  intros Ho Hv. apply run_stopped. intros r w' E. injection E as E _.
  destruct (controlled_answered _ _ _ _ _ Ho E) as (r0 & _ & Ha).
  by exists (rs_status r0), (rs_body r0), (response_headers r0), cors, (Some rid).
Qed.
Lemma empty_response_status status l r : empty_response status l = Ok r → rs_status r = status.
Proof. unfold empty_response. cbv zeta. intros (f & _ & [_ [= <-]]%fail_Ok)%rbind_Ok. done. Qed.

Lemma secure_defaults_runs ids env request w :
  ∃ run, secure_run ids env request w run
    ∧ ∀ downstream, secure_defaults_handle ids env downstream request w = run downstream.
Proof.
  unfold secure_defaults_handle. cbv zeta.
  destruct (policy_headers (request_headers request)) as [headers|] eqn:Hh.
  2: { eexists. split; [|done]. apply run_stopped. intros r w' E. injection E as E _.
       destruct (controlled_answered _ _ _ _ _ only_cors_empty E) as (r0 & He & Ha).
       exists (rs_status r0), (rs_body r0), (response_headers r0), empty_headers, None.
       split_and!; [done|apply only_cors_empty|by eapply empty_response_status]. }
  destruct (secure_request_id ids (request_headers request) w) as [[rid|e] w0] eqn:Hid.
  2: { exists (λ _, (Err e, w0)). split; [by apply run_stopped|done]. }
  pose proof (secure_request_id_valid _ _ _ _ _ Hid) as Hv.
  destruct (load_cors_config env) as [cors|]; [|eexists; split; [|done]; by apply stopped_controlled; [apply only_cors_empty|]].
  destruct (to_http_method (rq_method request)) as [method|]; [|eexists; split; [|done]; by apply stopped_controlled; [apply only_cors_empty|]].
  destruct (evaluate cors method headers) as [d|] eqn:Hd; [|eexists; split; [|done]; by apply stopped_controlled; [apply only_cors_empty|]].
  apply evaluate_only_cors in Hd.
  destruct (cd_status d) as [status|]; [eexists; split; [|done]; by apply stopped_controlled|].
  unfold secure_authenticate. destruct (from_environment env) as [config|] eqn:Hc; [|eexists; split; [|done]; by apply stopped_controlled].
  destruct (authenticate_with_diagnostics headers rid config w0) as [[[value|rej] stage] w1] eqn:Hauth.
  - destruct (secure_forward request (as_bytes value) (str_bytes rid)) as [q|e] eqn:Hf.
    + eexists. split; [by eapply run_forwarded|done].
    + exists (λ _, (Err e, w1)). split; [by apply run_stopped|done].
  - eexists. split; [|done]. by apply stopped_controlled.
Qed.

Lemma authorization_none_values fields headers :
  policy_headers fields = Ok headers → get_all headers AUTHORIZATION = [] → header_values fields AUTHORIZATION = [].
Proof. intros E Hn. rewrite <- (policy_headers_values _ _ AUTHORIZATION ltac:(set_solver) E). by rewrite Hn. Qed.

(** The alphabet and the length of a request identifier. *)
Definition canonical_id (rid : str) : Prop :=
  rid ≠ [] ∧ str_len rid ≤ 128
  ∧ ∀ b, b ∈ str_bytes rid → is_ascii_alphanumeric b = true ∨ b ∈ [45; 95; 46; 58; 47].
Lemma valid_id_canonical rid : is_valid_request_id rid = true → canonical_id rid.
Proof.
  unfold is_valid_request_id, canonical_id. rewrite !andb_true_iff, forallb_forall, Z.leb_le.
  intros [[Hne Hlen] Hall]. split_and!; [by destruct rid|done|].
  intros b Hb%list_elem_of_In%Hall. unfold request_id_byte in Hb. apply orb_true_iff in Hb as [Hb|Hb]; [by left|right].
  unfold one_of in Hb. bprop. done.
Qed.

(** What is known of a context that [secure-defaults] installs, from the world
    [w0] in which the call begins to the world [w1] in which it ends. *)
Definition context_earned (request : Request) (config : AuthnConfig) (context : AuthContextV1) (rid : str) (w0 w1 : W) : Prop :=
  ac_state context = Anonymous ∧ au_mode config = ModeOptional
    ∧ header_values (request_headers request) AUTHORIZATION = []
  ∨ ac_state context = Authenticated ∧ ∃ authorization claims wa wb,
      header_values (request_headers request) AUTHORIZATION = [str_bytes authorization]
      ∧ in_flight w0 < au_max_in_flight config ∧ wa = set_in_flight (in_flight w0 + 1) w0
      ∧ broker_allowed config rid authorization wa wb claims ∧ w1 = release wb
      ∧ ac_principal context = Some (cl_principal claims).
Lemma pass_earned env request rid headers config value stage w0 w1 :
  policy_headers (request_headers request) = Ok headers → from_environment env = Ok config →
  authenticate_with_diagnostics headers rid config w0 = (Pass value, stage, w1) →
  ∃ context, decode_auth_context value = Ok context ∧ context_valid context
    ∧ ac_service_id context = au_service_id config ∧ ac_audiences context = au_audiences config
    ∧ context_earned request config context rid w0 w1.
Proof.
  intros Hh Hc Hp. destruct (broker_outcome_earned _ _ _ _ _ _ _ _ Hc Hp) as (context & Hdec & Hcv & Hs & Ha & _ & Hway).
  exists context. split_and!; try done.
  destruct Hway as [(Hst & Hm & Hn & _)|(au & claims & wa & wb & Hst & Hau & Hmax & Hacq & Hal & -> & Hpr & _)].
  - left. split_and!; [done|done|]. by eapply authorization_none_values.
  - right. split; [done|]. exists au, claims, wa, wb. split_and!; try done.
    rewrite <- (policy_headers_values _ _ AUTHORIZATION ltac:(set_solver) Hh).
    unfold authorization_value in Hau. destruct (get_all headers AUTHORIZATION) as [|v [|? ?]]; try discriminate Hau.
    apply rbind_Ok in Hau as (t & Ht%ok_or_Ok & Hau). apply fail_Ok in Hau as [_ [= ->]].
    cbn. by rewrite (as_bytes_text _ _ Ht).
Qed.

(** C12: What the application may rely on behind [secure-defaults].  Either the
    component answers by itself, and the application has no part in it, or the
    application is called exactly once, with the client's request changed only
    in its headers: no authorization and no reserved header but one context,
    one canonical request identifier, every other header as the client sent
    it.  The context decodes to a valid one of the configured service and
    audiences, which is the anonymous one for a request without credentials in
    optional mode, or was allowed by the broker for this request's only
    credential, in a call that began with fewer calls in flight than the limit
    of the configuration, was counted while it ran and was uncounted after. *)
Theorem secure_forwards_earned (ids : IdSource W) (env : environment) (request : Request) (w : W) :
  (∃ out, ∀ application, secure_defaults_handle ids env application request w = out)
  ∨ ∃ forwarded w1 finish rid value context config w0,
      (∀ application, secure_defaults_handle ids env application request w =
         let '(response, w2) := application forwarded w1 in (let? r := response in finish r, w2))
      ∧ same_rest request forwarded
      ∧ (∀ m, header_values (request_headers forwarded) m =
              forwarded_values (request_headers request) (as_bytes value) (str_bytes rid) m)
      ∧ secure_request_id ids (request_headers request) w = (Ok rid, w0) ∧ canonical_id rid
      ∧ from_environment env = Ok config
      ∧ decode_auth_context value = Ok context ∧ context_valid context
      ∧ ac_service_id context = au_service_id config ∧ ac_audiences context = au_audiences config
      ∧ (ac_state context = Anonymous ∧ au_mode config = ModeOptional
           ∧ header_values (request_headers request) AUTHORIZATION = []
         ∨ ac_state context = Authenticated ∧ ∃ authorization claims wa wb,
             header_values (request_headers request) AUTHORIZATION = [str_bytes authorization]
             ∧ in_flight w0 < au_max_in_flight config ∧ wa = set_in_flight (in_flight w0 + 1) w0
             ∧ broker_allowed config rid authorization wa wb claims
             ∧ w1 = set_in_flight ((in_flight wb - 1) mod 2 ^ 32) wb
             ∧ ac_principal context = Some (cl_principal claims)).
Proof.
  destruct (secure_defaults_runs ids env request w) as (run & Hrun & Heq).
  destruct Hrun as [out _|rid w0 headers cors config value stage w1 forwarded Hid Hh Hcors Hc Hp Hf].
  { left. by exists out. }
  right. apply secure_forward_values in Hf as [Hrest Hvals].
  pose proof (valid_id_canonical _ (secure_request_id_valid _ _ _ _ _ Hid)) as Hcid.
  destruct (pass_earned _ _ _ _ _ _ _ _ _ Hh Hc Hp) as (context & Hdec & Hcv & Hs & Ha & Hway).
  exists forwarded, w1, (λ r, finalize_response r cors (Some rid)), rid, value, context, config, w0.
  by split_and!.
Qed.

(** Every answer carries the baseline.  Whatever the application answers
    and on every path of the component, the response has exactly one
    [x-content-type-options] and one [referrer-policy], no reserved header, and
    one canonical request identifier, unless the request's own policy headers
    are malformed, which is answered 400. *)
Theorem secure_answers_baseline (ids : IdSource W) (env : environment) (application : Handler) (request : Request)
    (w w' : W) (r : Response) (Hrun : secure_defaults_handle ids env application request w = (Ok r, w')) :
  header_values (response_headers r) X_CONTENT_TYPE_OPTIONS = [lit "nosniff"]
  ∧ header_values (response_headers r) REFERRER_POLICY = [STRICT_ORIGIN]
  ∧ (∀ m, prefix_named RESERVED_AUTH_PREFIX m = true → header_values (response_headers r) m = [])
  ∧ (rs_status r = 400
     ∨ ∃ id, is_valid_request_id id = true ∧ header_values (response_headers r) REQUEST_ID_HEADER = [str_bytes id]).
Proof.
  destruct (secure_defaults_runs ids env request w) as (run & Hr & Heq). rewrite Heq in Hrun.
  assert (∃ status body orig cors rid, answered r status body orig cors rid ∧ only_cors cors
        ∧ match rid with Some id => is_valid_request_id id = true | None => status = 400 end)
    as (status & body & orig & cors & rid & Ha & Ho & Hid).
  { destruct Hr as [out Hb|rid w0 headers cors config value stage w1 forwarded Hid _ Hcors _ _ _]; [by eapply Hb|].
    destruct (application forwarded w1) as [res w2]. injection Hrun as Hrun _.
    apply rbind_Ok in Hrun as (r0 & _ & Hfin). apply finalize_answered in Hfin; [|done].
    exists (rs_status r0), (rs_body r0), (response_headers r0), cors, (Some rid).
    split_and!; [done|done|]. by eapply secure_request_id_valid. }
  pose proof (an_status _ _ _ _ _ _ Ha) as Hs.
  apply answered_baseline in Ha as (H1' & H2' & H3' & H4'). split_and!; [done|done|by apply H4'|].
  destruct rid as [id|]; [right; exists id; auto|left; congruence].
Qed.
End secure_defaults.
