(* ===== verification/MiddlewareChain.v ===== *)
(** * MiddlewareChain: the fused component is the chain it replaces

    src/legacy/wasi-http-middleware/components/secure-defaults/src/lib.rs says
    that it is semantically equivalent to the chain [request-id ->
    security-headers -> cors -> authn-policy -> application].  This file shows
    it for hosts whose header lists the [http] crate can represent: whenever
    both answer, they leave the same world and answer with the same status,
    body and header values. *)

From S2P Require Export MiddlewareProofs.
Open Scope Z_scope.

#[local] Arguments lit : simpl never.

Definition CONTENT_LENGTH_ZERO : Header := (lit "content-length", lit "0").

Section chain.
Context `{UriParser} `{HeaderBytesLaws} `{HttpMethods} `{MetadataCodecLaws} `{BrokerCodec} `{WasiHttpLaws}
  {W : Type} `{!BrokerWorld W}.
#[local] Set Default Proof Using "All".

(** ** Answers that differ only where they are overwritten *)

Definition agree_below (o o' : list Header) : Prop :=
  ∀ m, to_ascii_lowercase m ≠ REQUEST_ID_HEADER → reserved_name (to_ascii_lowercase m) = false →
    header_values o m = header_values o' m.
Lemma final_values_below o o' cors rid m :
  agree_below o o' → final_values o cors (Some rid) m = final_values o' cors (Some rid) m.
Proof.
  intros Ha. unfold final_values. cbv zeta. rewrite (merged_vary_ext o o') by (by apply Ha).
  destruct (bool_decide (to_ascii_lowercase m = X_CONTENT_TYPE_OPTIONS)); [done|].
  destruct (bool_decide (to_ascii_lowercase m = REFERRER_POLICY)); [done|].
  destruct (bool_decide_reflect (to_ascii_lowercase m = REQUEST_ID_HEADER)) as [|Hne]; [done|].
  destruct (reserved_name (to_ascii_lowercase m)) eqn:E; [done|]. by rewrite Ha.
Qed.
Lemma answered_same r r' status body o o' cors rid :
  answered r status body o cors (Some rid) → answered r' status body o' cors (Some rid) →
  agree_below o o' → same_response r r'.
Proof.
  intros [Hs Hb Hv] [Hs' Hb' Hv'] Ha. split_and!; [congruence|congruence|].
  intros m. rewrite Hv, Hv'. by apply final_values_below.
Qed.

(** The two outer components of the chain. *)
Definition tail_values (l : list Header) (rid : str) (m : str) : list (list Z) :=
  let lm := to_ascii_lowercase m in
  if bool_decide (lm = REQUEST_ID_HEADER) then [str_bytes rid]
  else if bool_decide (lm = REFERRER_POLICY) then [STRICT_ORIGIN]
  else if bool_decide (lm = X_CONTENT_TYPE_OPTIONS) then [lit "nosniff"]
  else header_values l m.
Record tailed (inner r : Response) (rid : str) : Prop := {
  tl_status : rs_status r = rs_status inner;
  tl_body : rs_body r = rs_body inner;
  tl_values m : header_values (response_headers r) m = tail_values (response_headers inner) rid m;
}.
(** An inner response made from [o] and the decision. *)
Definition merged_from (inner : Response) (o : list Header) (cors : HeaderMap) : Prop :=
  ∀ m, header_values (response_headers inner) m =
    match cors_values (merged_vary_origin o) cors m with [] => header_values o m | vs => vs end.
Definition unreserved (o : list Header) : Prop :=
  ∀ m, reserved_name (to_ascii_lowercase m) = true → header_values o m = [].
Lemma tailed_answered inner r rid o cors :
  tailed inner r rid → merged_from inner o cors → unreserved o →
  answered r (rs_status inner) (rs_body inner) o cors (Some rid).
Proof.
  intros [Hs Hb Hv] Hm Hu. split; [done|done|]. intros m. rewrite Hv. unfold tail_values, final_values. cbv zeta.
  destruct (bool_decide_reflect (to_ascii_lowercase m = REQUEST_ID_HEADER)) as [E|]; [by rewrite E|].
  destruct (bool_decide_reflect (to_ascii_lowercase m = REFERRER_POLICY)) as [E|]; [by rewrite E|].
  destruct (bool_decide (to_ascii_lowercase m = X_CONTENT_TYPE_OPTIONS)); [done|].
  rewrite Hm. destruct (cors_values _ _ _); [|done].
  destruct (reserved_name (to_ascii_lowercase m)) eqn:E; [by apply Hu|done].
Qed.

Lemma chain_front (ids ids' : IdSource W) env application request (w : W) r w1 :
  middleware_chain ids ids' env application request w = (Ok r, w1) →
  ∃ rid w0 q1 inner, request_id_canonical ids (request_headers request) w = (rid, w0)
    ∧ same_rest request q1
    ∧ (∀ m, header_values (request_headers q1) m =
            if bool_decide (to_ascii_lowercase m = REQUEST_ID_HEADER) then [str_bytes rid]
            else header_values (request_headers request) m)
    ∧ cors_handle env (authn_policy_handle ids' env application) q1 w0 = (Ok inner, w1)
    ∧ tailed inner r rid.
Proof.
  unfold middleware_chain, request_id_handle. cbv zeta.
  destruct (request_id_canonical ids (request_headers request) w) as [rid w0]; cbn beta iota.
  destruct (replace_request_headers _ _) as [q1|] eqn:Eq; [|done].
  apply replace_request_values in Eq as [Hrest Hvals]. unfold security_headers_handle.
  destruct (cors_handle _ _ q1 w0) as [res w2] eqn:Ec; cbn beta iota. intros E. injection E as E <-.
  apply rbind_Ok in E as (r1 & E1 & E). apply rbind_Ok in E1 as (inner & -> & E1). cbv zeta in E, E1.
  apply replace_response_values in E1 as (Hs1 & Hb1 & Hv1). apply replace_response_values in E as (Hs & Hb & Hv).
  exists rid, w0, q1, inner. split_and!; [done|done| |done|].
  - intros m. by rewrite (Hvals m), header_values_set, ci_name.
  - split; [congruence|congruence|]. intros m. rewrite (Hv m), header_values_set, (Hv1 m), !header_values_set, !ci_name by done.
    done.
Qed.

(** ** Empty responses *)

Lemma empty_response_values status l r :
  empty_response status l = Ok r → contains_header_name l (lit "content-length") = false →
  rs_status r = status ∧ rs_body r = no_body ∧ same_values (response_headers r) (l ++ [CONTENT_LENGTH_ZERO]).
Proof.
  unfold empty_response. cbv zeta. intros E Hc. rewrite Hc in E. cbn [negb] in E.
  apply rbind_Ok in E as (f & Hf%ok_or_Ok & E). apply fail_Ok in E as [_ [= <-]]. split_and!; [done|done|].
  intros m. by apply values_from_list.
Qed.
Lemma merged_from_empty inner o : same_values (response_headers inner) o → merged_from inner o empty_headers.
Proof.
  intros Hv m. rewrite Hv. unfold cors_values, contains_key. rewrite !get_all_empty. by destruct (bool_decide (to_ascii_lowercase m = VARY)).
Qed.
(** A short list of unreserved names. *)
Lemma unreserved_list l :
  Forall (λ h : Header, lower_name h.1 ∧ reserved_name h.1 = false) l → unreserved l.
Proof.
  intros Hl m Hm. apply header_values_nil_iff. unfold contains_header_name. apply existsb_false_spec. intros [k v] Hin.
  rewrite Forall_forall in Hl. destruct (Hl _ Hin) as [Hk Hr]. cbn in Hk, Hr. unfold named. cbn.
  rewrite (ci_name _ _ Hk). apply bool_decide_eq_false. congruence.
Qed.

(** ** CORS in the chain *)

Lemma from_header_map_values cors m :
  only_cors cors → header_values (from_header_map cors) m = map as_bytes (get_all cors (to_ascii_lowercase m)).
Proof. intros Ho. apply lower_header_map_values. intros n. by apply only_cors_keys. Qed.
Lemma evaluate_vary config method headers d :
  evaluate config method headers = Ok d →
  map as_bytes (get_all (cd_response_headers d) VARY) = if contains_key (cd_response_headers d) VARY then [lit "Origin"] else [].
Proof.
  assert (∀ h, get_all h VARY = [] ∨ get_all h VARY = [from_static (lit "Origin")] →
            map as_bytes (get_all h VARY) = if contains_key h VARY then [lit "Origin"] else []) as Hh.
  { unfold contains_key. intros h [->| ->]; [done|]. cbn. by rewrite as_bytes_static by done. }
  assert (∀ h n v, n ≠ VARY → get_all (header_insert h n v) VARY = get_all h VARY) as Hins
    by (intros; by apply get_all_insert_ne, not_eq_sym).
  assert (∀ h, get_all (header_insert h VARY (from_static (lit "Origin"))) VARY = [from_static (lit "Origin")]) as Hvary
    by (intros; apply get_all_insert_eq).
  intros E. apply Hh. clear Hh. unfold evaluate in E. apply rbind_Ok in E as ([origin|] & _ & E).
  2: { injection E as <-. left. apply get_all_empty. }
  destruct (_ && _) in E; [injection E as <-; right; apply Hvary|]. apply rbind_Ok in E as (rh & Hrh & E).
  assert (get_all rh VARY = [from_static (lit "Origin")]) as Hrv.
  { unfold origin_headers in Hrh. apply rbind_Ok in Hrh as (v & _ & [= <-]).
    destruct (co_allow_credentials config); [rewrite Hins by done|]; apply Hvary. }
  cbv zeta in E. destruct (negb _) in E; [injection E as <-; by right|].
  apply rbind_Ok in E as (rm0 & _ & E). apply rbind_Ok in E as (rm & _ & E). apply rbind_Ok in E as (me & _ & E).
  destruct (negb _) in E; [injection E as <-; right; apply Hvary|]. apply rbind_Ok in E as (rq & _ & E).
  apply rbind_Ok in E as (names & _ & E). destruct (existsb _ names); [injection E as <-; right; apply Hvary|].
  apply rbind_Ok in E as (v & _ & E). apply rbind_Ok in E as (rh' & Hrh' & [= <-]). cbn. right.
  destruct (negb _) in Hrh'; [apply rbind_Ok in Hrh' as (v' & _ & [= <-])|injection Hrh' as <-];
    by rewrite ?Hins by done.
Qed.

(** A request that CORS stops. *)
Lemma cors_stopped_merged config method headers d status inner :
  evaluate config method headers = Ok d →
  empty_response status (from_header_map (cd_response_headers d)) = Ok inner →
  rs_status inner = status ∧ rs_body inner = no_body
  ∧ merged_from inner [CONTENT_LENGTH_ZERO] (cd_response_headers d).
Proof.
  intros Hd He. pose proof (evaluate_only_cors _ _ _ _ Hd) as Ho. apply evaluate_vary in Hd as Hv.
  assert (contains_header_name (from_header_map (cd_response_headers d)) (lit "content-length") = false) as Hc.
  { apply header_values_nil_iff. rewrite from_header_map_values by done.
    destruct (get_all (cd_response_headers d) (to_ascii_lowercase (lit "content-length"))) eqn:E; [done|exfalso].
    assert (to_ascii_lowercase (lit "content-length") ∈ cors_names) as Hin by (apply Ho; by rewrite E).
    revert Hin. change (to_ascii_lowercase (lit "content-length") ∉ cors_names). by apply (bool_decide_unpack _); vm_compute. }
  destruct (empty_response_values _ _ _ He Hc) as (Hs & Hb & Hvals). split_and!; [done|done|].
  intros m. rewrite (Hvals m), header_values_app, from_header_map_values by done. unfold cors_values, CONTENT_LENGTH_ZERO.
  rewrite header_values_cons, ci_name by done. set (lm := to_ascii_lowercase m) in *.
  change (header_values [] m) with (@nil (list Z)).
  destruct (bool_decide_reflect (lm = lit "content-length")) as [E|_].
  - assert (get_all (cd_response_headers d) lm = []) as ->.
    { rewrite E. apply header_values_nil_iff in Hc. rewrite from_header_map_values in Hc by done.
      change (to_ascii_lowercase (lit "content-length")) with (lit "content-length") in Hc.
      by apply map_eq_nil in Hc. }
    rewrite (bool_decide_false (lm = VARY)) by (by rewrite E). done.
  - rewrite app_nil_r. destruct (bool_decide_reflect (lm = VARY)) as [E|_].
    + rewrite E, Hv. by destruct (contains_key _ VARY).
    + by destruct (get_all (cd_response_headers d) lm).
Qed.

(** A response that CORS lets through. *)
Lemma cors_passed_merged cors resp inner :
  only_cors cors →
  (if bool_decide (header_keys cors = []) then Ok resp
   else replace_response_headers resp (merge_cors_headers (response_headers resp) cors)) = Ok inner →
  rs_status inner = rs_status resp ∧ rs_body inner = rs_body resp ∧ merged_from inner (response_headers resp) cors.
Proof.
  intros Ho. destruct (bool_decide_reflect (header_keys cors = [])) as [E|_].
  - intros [= <-]. split_and!; [done|done|]. intros m. unfold cors_values, contains_key.
    rewrite !(get_all_absent cors) by (rewrite E; set_solver). by destruct (bool_decide (to_ascii_lowercase m = VARY)).
  - intros (Hs & Hb & Hv)%replace_response_values. split_and!; [done|done|]. intros m. rewrite (Hv m).
    by apply merge_cors_values.
Qed.

(** ** Both see the same request *)

Lemma policy_headers_total fields h : to_header_map fields = Ok h → ∃ h', policy_headers fields = Ok h'.
Proof.
  unfold to_header_map, policy_headers.
  enough (∀ a b, try_fold convert_header a fields = Ok h → ∃ h', try_fold policy_header b fields = Ok h') as Hg by apply Hg.
  induction fields as [|[k v] fields IH]; intros a b E; cbn [try_fold] in *; [by eexists|].
  apply rbind_Ok in E as (g & Hg & E). unfold convert_header in Hg. apply rbind_Ok in Hg as (n & _ & Hg).
  apply rbind_Ok in Hg as (value & Hv%ok_or_Ok & _). cbn in Hv. unfold policy_header at 1. cbn [fst snd].
  destruct (policy_name k); [rewrite Hv; cbn [ok_or rbind]|cbn [rbind]]; by eapply IH.
Qed.
Lemma secure_canonical (ids : IdSource W) fields (w : W) rid w0 id w0' :
  secure_request_id ids fields w = (Ok rid, w0) → request_id_canonical ids fields w = (id, w0') → id = rid ∧ w0' = w0.
Proof.
  unfold secure_request_id, request_id_canonical. destruct (incoming_id fields); [intros [= -> ->] [= -> ->]; done|].
  destruct (generate_id ids w) as [g w1]. destruct (is_valid_request_id g); [|done]. by intros [= -> ->] [= -> ->].
Qed.
Lemma canonicalize_known headers rid :
  map as_bytes (get_all headers REQUEST_ID_HEADER) = [str_bytes rid] → is_valid_request_id rid = true →
  ∀ g, canonicalize headers g = Ok rid.
Proof.
  intros Hg Hv g. unfold canonicalize. destruct (get_all headers REQUEST_ID_HEADER) as [|v [|? ?]]; try discriminate Hg.
  injection Hg as Hb. pose proof Hv as Hv'. unfold is_valid_request_id in Hv'. apply andb_true_iff in Hv' as [_ Hbytes].
  pose proof (forallb_ascii_len _ _ request_id_byte_lt Hbytes) as Hs. rewrite forallb_bytes in Hbytes by apply request_id_byte_lt.
  rewrite (to_str_visible v rid); [by rewrite Hv|congruence|].
  rewrite forallb_spec in Hbytes. apply forallb_spec. intros c Hc. apply Hbytes in Hc.
  unfold request_id_byte, is_ascii_alphanumeric, is_ascii_digit, is_ascii_uppercase, is_ascii_lowercase, visible_ascii, in_range, one_of in *.
  apply orb_true_iff in Hc as [Hc|Hc]; bprop; [lia|]. set_solver by lia.
Qed.

(** The request after [request-id]. *)
Definition identified (request q1 : Request) (rid : str) : Prop :=
  same_rest request q1
  ∧ ∀ m, header_values (request_headers q1) m =
         if bool_decide (to_ascii_lowercase m = REQUEST_ID_HEADER) then [str_bytes rid]
         else header_values (request_headers request) m.
Lemma identified_same_bytes request q1 rid hm headers n :
  identified request q1 rid → to_header_map (request_headers q1) = Ok hm →
  policy_headers (request_headers request) = Ok headers → n ∈ policy_names → same_bytes hm headers n.
Proof.
  intros [_ Hv] Hm Hp Hn. assert (lower_name n ∧ n ≠ REQUEST_ID_HEADER) as [Hl Hne].
  { revert n Hn. apply Forall_forall. by repeat constructor. }
  unfold same_bytes. rewrite (to_header_map_values _ _ _ Hl Hm), (policy_headers_values _ _ _ Hn Hp), Hv.
  unfold lower_name in Hl. by rewrite Hl, bool_decide_false.
Qed.
Lemma forwarded_identified request q1 rid context m :
  identified request q1 rid →
  forwarded_values (request_headers q1) context (str_bytes rid) m = forwarded_values (request_headers request) context (str_bytes rid) m.
Proof.
  intros [_ Hv]. unfold forwarded_values. cbv zeta. rewrite Hv.
  by destruct (bool_decide (to_ascii_lowercase m = REQUEST_ID_HEADER)).
Qed.

(** ** Authentication in the chain *)

Lemma rejection_headers_lower rejection realm :
  Forall (λ h : Header, lower_name h.1 ∧ reserved_name h.1 = false) (authn_rejection_headers rejection realm)
  ∧ contains_header_name (authn_rejection_headers rejection realm) (lit "content-length") = false.
Proof. destruct rejection; (split; [repeat constructor|done]). Qed.
Lemma agree_empty inner r0 status l :
  empty_response status ((REQUEST_ID_HEADER, inner) :: l) = Ok r0 →
  Forall (λ h : Header, lower_name h.1 ∧ reserved_name h.1 = false) l →
  contains_header_name l (lit "content-length") = false →
  rs_status r0 = status ∧ rs_body r0 = no_body ∧ unreserved (response_headers r0)
  ∧ agree_below (response_headers r0) (l ++ [CONTENT_LENGTH_ZERO]).
Proof.
  intros He Hl Hc. destruct (empty_response_values _ _ _ He) as (Hs & Hb & Hv); [done|]. split_and!; [done|done| |].
  - intros m Hm. rewrite (Hv m). apply unreserved_list; [|done]. constructor; [done|]. apply Forall_app. split; [done|].
    by repeat constructor.
  - intros m Hm _. rewrite (Hv m). cbn [app]. rewrite header_values_cons, ci_name by done. by rewrite bool_decide_false.
Qed.

Lemma controlled_empty status l cors rid r :
  only_cors cors → contains_header_name l (lit "content-length") = false →
  controlled_response status l cors (Some rid) = Ok r →
  answered r status no_body (l ++ [CONTENT_LENGTH_ZERO]) cors (Some rid).
Proof.
  intros Ho Hc E. destruct (controlled_answered _ _ _ _ _ Ho E) as (r0 & He & [Hs Hb Hv]).
  destruct (empty_response_values _ _ _ He Hc) as (Hs0 & Hb0 & Hv0). split; [congruence|congruence|].
  intros m. rewrite Hv. apply final_values_below. intros k _ _. apply Hv0.
Qed.

(** What [authn-policy] answers and what the fused component makes of it. *)
Definition stage_agrees (resp r' : Response) (cors : HeaderMap) (rid : str) : Prop :=
  unreserved (response_headers resp)
  ∧ ∃ o', answered r' (rs_status resp) (rs_body resp) o' cors (Some rid) ∧ agree_below (response_headers resp) o'.

Lemma stage_empty status l cors rid resp r' :
  only_cors cors → Forall (λ h : Header, lower_name h.1 ∧ reserved_name h.1 = false) l →
  contains_header_name l (lit "content-length") = false →
  empty_response status ((REQUEST_ID_HEADER, str_bytes rid) :: l) = Ok resp →
  controlled_response status l cors (Some rid) = Ok r' → stage_agrees resp r' cors rid.
Proof.
  intros Ho Hl Hc He Hr. destruct (agree_empty _ _ _ _ He Hl Hc) as (Hs & Hb & Hu & Ha). split; [done|].
  exists (l ++ [CONTENT_LENGTH_ZERO]). split; [|done]. rewrite Hs, Hb. by apply controlled_empty.
Qed.
Lemma stage_forwarded resp0 resp0' cors rid resp r' :
  only_cors cors → same_response resp0 resp0' →
  strip_response_auth_headers resp0 = Ok resp → finalize_response resp0' cors (Some rid) = Ok r' →
  stage_agrees resp r' cors rid.
Proof.
  intros Ho (Hs & Hb & Hv) (Hs1 & Hb1 & Hv1)%replace_response_values Hf. apply finalize_answered in Hf; [|done].
  split.
  - intros m Hm. by rewrite (Hv1 m), header_values_unprefixed, prefix_reserved, Hm.
  - exists (response_headers resp0'). rewrite Hs1, Hb1, Hs, Hb. split; [done|].
    intros m _ Hm. by rewrite (Hv1 m), header_values_unprefixed, prefix_reserved, Hm, (Hv m).
Qed.

Lemma authn_stage (ids' : IdSource W) env (application : Handler) request q1 rid hm headers cors (w0 w1 w1' : W) resp r' :
  Proper (same_request ==> eq ==> same_outcome) application →
  identified request q1 rid → is_valid_request_id rid = true →
  to_header_map (request_headers q1) = Ok hm → policy_headers (request_headers request) = Ok headers →
  only_cors cors →
  authn_policy_handle ids' env application q1 w0 = (Ok resp, w1) →
  secure_authenticate env application headers cors rid request w0 = (Ok r', w1') →
  w1 = w1' ∧ stage_agrees resp r' cors rid.
Proof.
  intros Happ Hq Hrid Hm Hp Ho Hchain Hfused. unfold authn_policy_handle in Hchain. cbv zeta in Hchain. rewrite Hm in Hchain.
  assert (map as_bytes (get_all hm REQUEST_ID_HEADER) = [str_bytes rid]) as Hid.
  { rewrite (to_header_map_values _ _ REQUEST_ID_HEADER eq_refl Hm). by rewrite (proj2 Hq). }
  unfold authn_request_id in Hchain. rewrite (canonicalize_known _ _ Hid Hrid) in Hchain.
  unfold secure_authenticate in Hfused. destruct (from_environment env) as [config|].
  2: { injection Hchain as Hc <-. injection Hfused as Hf <-. split; [done|].
       apply (stage_empty 503 retry_after); [done|by repeat constructor|done|exact Hc|exact Hf]. }
  assert (authenticate_with_diagnostics hm rid config w0 = authenticate_with_diagnostics headers rid config w0) as Hauth.
  { unfold authenticate_with_diagnostics. rewrite (authorization_value_ext hm headers); [done|].
    eapply identified_same_bytes; [done..|set_solver]. }
  rewrite Hauth in Hchain.
  destruct (authenticate_with_diagnostics headers rid config w0) as [[[value|rejection] stage] w2].
  2: { injection Hchain as Hc <-. injection Hfused as Hf <-. split; [done|].
       destruct (rejection_headers_lower rejection (au_service_id config)) as [Hl Hcl].
       by eapply (stage_empty _ _ _ _ _ _ Ho Hl Hcl). }
  destruct (replace_request_headers q1 _) as [q2|] eqn:Eq; [|done].
  destruct (secure_forward request _ _) as [q2'|] eqn:Eq'; [|done].
  apply replace_request_values in Eq as [Hrest Hv]. apply secure_forward_values in Eq' as [Hrest' Hv'].
  assert (same_request q2 q2') as Hsame.
  { destruct Hq as [Hr0 Hq]. split.
    - destruct Hr0 as (?&?&?&?&?&?), Hrest as (?&?&?&?&?&?), Hrest' as (?&?&?&?&?&?). split_and!; congruence.
    - intros m. rewrite (Hv m), (Hv' m), forwarded_fields_values. by apply forwarded_identified. }
  pose proof (Happ _ _ Hsame w2 w2 eq_refl) as [Hw Hout].
  destruct (application q2 w2) as [res wa], (application q2' w2) as [res' wb]. cbn in Hw, Hout.
  injection Hchain as Hc <-. injection Hfused as Hf <-. split; [done|].
  apply rbind_Ok in Hc as (x & -> & Hc). apply rbind_Ok in Hf as (x' & -> & Hf). by eapply stage_forwarded.
Qed.

(** A request that both stop with a fixed answer. *)
Lemma stopped_same status l inner r r' rid (w0 w1 w1' : W) :
  tailed inner r rid → contains_header_name l (lit "content-length") = false →
  Forall (λ h : Header, lower_name h.1 ∧ reserved_name h.1 = false) l →
  (empty_response status l, w0) = (Ok inner, w1) →
  (controlled_response status l empty_headers (Some rid), w0) = (Ok r', w1') →
  w1 = w1' ∧ same_response r r'.
Proof.
  intros Htail Hc Hl E E'. injection E as E <-. injection E' as E' <-. split; [done|].
  destruct (empty_response_values _ _ _ E Hc) as (Hs & Hb & Hv). apply controlled_empty in E'; [|apply only_cors_empty|done].
  eapply answered_same; [|exact E'|done].
  rewrite <- Hs, <- Hb. apply tailed_answered; [done|by apply merged_from_empty|].
  apply unreserved_list, Forall_app. split; [done|by repeat constructor].
Qed.

(** C13: The fused component is the chain.  For an application that does not
    depend on the order of different headers, on a host whose header lists the
    [http] crate represents, whenever both the fused component and the chain
    of components it replaces answer a request, they leave the same world
    (the same broker calls, the same request identifiers drawn, the same
    application call) and answer with the same status, body and values of
    every header. *)
Theorem fused_agrees_with_chain (ids ids' : IdSource W) (env : environment) (application : Handler) (request : Request)
    (w w1 w1' : W) (r r' : Response)
    (Happ : Proper (same_request ==> eq ==> same_outcome) application)
    (Hrep : ∀ f, is_ok (to_header_map (copy_all f)) = true)
    (Hchain : middleware_chain ids ids' env application request w = (Ok r, w1))
    (Hfused : secure_defaults_handle ids env application request w = (Ok r', w1')) :
  w1 = w1' ∧ same_response r r'.
Proof.
  apply chain_front in Hchain as (id & w0 & q1 & inner & Hid & Hrest & Hvals & Hcors & Htail).
  unfold secure_defaults_handle in Hfused. cbv zeta in Hfused.
  pose proof (Hrep (rq_headers q1)) as Hm. destruct (to_header_map (copy_all (rq_headers q1))) as [hm|] eqn:Em; [clear Hm|done].
  pose proof (Hrep (rq_headers request)) as Hp. destruct (to_header_map (copy_all (rq_headers request))) as [hm0|] eqn:Em0; [clear Hp|done].
  destruct (policy_headers_total _ _ Em0) as [headers Hp]. unfold request_headers at 1 in Hfused. rewrite Hp in Hfused.
  destruct (secure_request_id ids (request_headers request) w) as [[rid|] w0'] eqn:Hsec; [|done].
  pose proof (secure_request_id_valid _ _ _ _ _ Hsec) as Hrid.
  destruct (secure_canonical _ _ _ _ _ _ _ Hsec Hid) as [-> ->].
  assert (identified request q1 rid) as Hq by done.
  unfold cors_handle in Hcors. unfold request_headers at 1 in Hcors. rewrite Em in Hcors.
  destruct (load_cors_config env) as [config|]; [|by eapply (stopped_same 503 retry_after); [exact Htail|done|by repeat constructor|exact Hcors|exact Hfused]].
  rewrite <- (proj1 Hrest) in Hcors.
  destruct (to_http_method (rq_method request)) as [method|]; [|by eapply (stopped_same 400 []); [exact Htail|done|done|exact Hcors|exact Hfused]].
  rewrite (evaluate_ext config method hm headers) in Hcors
    by (intros n Hn; eapply identified_same_bytes; [exact Hq|exact Em|exact Hp|set_solver]).
  destruct (evaluate config method headers) as [d|] eqn:Hd; [|by eapply (stopped_same 400 []); [exact Htail|done|done|exact Hcors|exact Hfused]].
  pose proof (evaluate_only_cors _ _ _ _ Hd) as Ho.
  destruct (cd_status d) as [status|].
  - injection Hcors as Hc <-. injection Hfused as Hf <-. split; [done|].
    destruct (cors_stopped_merged _ _ _ _ _ _ Hd Hc) as (Hs & Hb & Hmerged). apply controlled_empty in Hf; [|done|done].
    eapply answered_same; [|exact Hf|done]. rewrite <- Hs, <- Hb. apply tailed_answered; [done|done|].
    apply unreserved_list. by repeat constructor.
  - destruct (authn_policy_handle ids' env application q1 w0') as [res w2] eqn:Hauth. injection Hcors as Hc <-.
    apply rbind_Ok in Hc as (resp & -> & Hc). apply cors_passed_merged in Hc as (Hs & Hb & Hmerged); [|done].
    destruct (authn_stage _ _ _ _ _ _ _ _ _ _ _ _ _ _ Happ Hq Hrid Em Hp Ho Hauth Hfused) as (-> & Hu & o' & Ha & Hag).
    split; [done|]. eapply answered_same; [|exact Ha|exact Hag]. rewrite <- Hs, <- Hb. by apply tailed_answered.
Qed.
End chain.
