(* ===== verification/MiddlewareExample.v ===== *)
(** * MiddlewareExample: the middleware on a concrete host

    Instances of the interfaces of the legacy middleware (a list of headers, a
    host, a URI splitter, a table of encoded contexts, a broker that allows)
    and the theorems of the middleware on concrete requests. *)

From S2P Require Import MiddlewareChain Authn.
Open Scope Z_scope.

(** ** Header lists as header maps and as host fields *)

Definition alist_append (h : list (str * list Z)) (n : str) (v : list Z) : list (str * list Z) := h ++ [(n, v)].
#[local] Instance alist_bytes : HeaderBytes := {|
  header_append := alist_append;
  value_from_bytes b := Some b;
  as_bytes v := v;
  set_sensitive v := v;
  header_name s := Some (to_ascii_lowercase s);
|}.
Lemma alist_get_all_append (h : list (str * list Z)) n v m :
  alist_get_all (alist_append h n v) m = if bool_decide (m = n) then alist_get_all h m ++ [v] else alist_get_all h m.
Proof.
  unfold alist_append, alist_get_all. rewrite omap_app. cbn.
  destruct (bool_decide_reflect (m = n)) as [->|Hne]; [by rewrite bool_decide_true|].
  by rewrite bool_decide_false, app_nil_r by (by apply not_eq_sym).
Qed.
Lemma visible_ascii_lt c : visible_ascii c = true → c < 128.
Proof. unfold visible_ascii, in_range. lia. Qed.
#[local] Instance alist_bytes_laws : HeaderBytesLaws.
Proof.
  split.
  - intros h n v m. apply alist_get_all_append.
  - by intros b v [= <-].
  - done.
  - intros v s E. cbn in *. unfold alist_text in E. destruct (forallb visible_ascii v) eqn:Ev; [|done].
    injection E as <-. symmetry. apply str_bytes_ascii, Forall_forall. intros c Hc. apply visible_ascii_lt.
    by apply (proj1 (forallb_spec _ _) Ev).
  - intros v v' E. cbn in E. by rewrite E.
  - intros v s E Hs. cbn in E. subst v. by apply alist_text_visible.
  - by intros s n [= <-].
Qed.

#[local] Instance list_host : WasiHttp := {|
  Fields := list Header;
  Body := str;
  Options := unit;
  no_body := [];
  copy_all f := f;
  fields_delete f n := Some (remove_header f n);
  fields_set f n vs := Some (remove_header f n ++ map (λ v, (n, v)) vs);
  fields_append f n v := Some (f ++ [(n, v)]);
  fields_from_list l := Some l;
  accepts_method _ := true;
  accepts_scheme _ := true;
  accepts_path _ := true;
  accepts_authority _ := true;
  accepts_status s := in_range 100 999 s;
|}.
#[local] Instance list_host_laws : WasiHttpLaws.
Proof.
  split.
  - intros f n f' m [= <-]. apply header_values_remove.
  - intros f n vs f' m [= <-]. cbn [copy_all list_host]. rewrite header_values_app, header_values_remove.
    assert (header_values (map (λ v, (n, v)) vs) m = if eq_ignore_ascii_case n m then vs else []) as ->.
    { induction vs as [|v vs IH]; cbn [map]; [by case_match|]. rewrite header_values_cons, IH. by case_match. }
    destruct (eq_ignore_ascii_case n m); [done|by rewrite app_nil_r].
  - intros f n v f' m [= <-]. cbn [copy_all list_host]. by rewrite header_values_app, header_values_cons.
  - by intros l f m [= <-].
Qed.

(** ** URIs, methods and documents *)

Definition split_authority (s : str) : str * str :=
  match split_once 47 s with Some (a, p) => (a, 47 :: p) | None => (s, []) end.
Definition toy_uri (s : str) : option (str * (str * str)) :=
  match strip_prefix (lit "https://") s with
  | Some rest => Some (lit "https", split_authority rest)
  | None =>
      match strip_prefix (lit "http://") s with
      | Some rest => Some (lit "http", split_authority rest)
      | None => None
      end
  end.
#[local] Instance toy_uri_parser : UriParser := {|
  Uri := (str * (str * str))%type;
  uri_parse := toy_uri;
  scheme_str u := Some u.1;
  uri_authority u := Some u.2.1;
  uri_host u := Some (match split_once 58 u.2.1 with Some (h, _) => h | None => u.2.1 end);
  path_and_query u := if is_empty u.2.2 then None else Some u.2.2;
  uri_path u := match split_once 63 u.2.2 with Some (p, _) => p | None => u.2.2 end;
  uri_query u := snd <$> split_once 63 u.2.2;
|}.
#[local] Instance toy_methods : HttpMethods := {|
  method_from_bytes s := if negb (is_empty s) && forallb is_ascii_uppercase s then Some s else None;
  method_set := sort_dedup;
  method_from_bytes_text s m :=
    ltac:(cbn; intros E; destruct (negb (is_empty s) && forallb is_ascii_uppercase s); congruence);
  elem_of_method_set l m := elem_of_sort_dedup m l;
|}.

Definition principal0 : PrincipalV1 :=
  mk_principal_v1 (lit "https://issuer") (lit "user-1") None [lit "admin"] [lit "read"; lit "write"] None []
    None (Some 10) (Some 1000) None.
Definition success0 : AuthnSuccessV1 :=
  mk_authn_success 1 (lit "user-1") (lit "https://issuer") None [lit "admin"] [lit "write"; lit "read"] None []
    None (Some 10) (Some 1000) None (lit "decision-1") (lit "revision-1").
Definition anonymous0 : AuthContextV1 := mk_auth_context_v1 Anonymous (lit "orders") [lit "api://orders"] None None None.
Definition context0 : AuthContextV1 :=
  mk_auth_context_v1 Authenticated (lit "orders") [lit "api://orders"] (Some principal0) (Some (lit "decision-1"))
    (Some (lit "revision-1")).

(** A table of two wire contexts stands for their JSON text. *)
#[local] Instance WireActor_eq_dec : EqDecision WireActor.
Proof. solve_decision. Defined.
#[local] Instance WirePrincipal_eq_dec : EqDecision WirePrincipal.
Proof. solve_decision. Defined.
#[local] Instance WireContext_eq_dec : EqDecision WireContext.
Proof. solve_decision. Defined.
#[local] Instance toy_metadata : MetadataCodec := {|
  context_to_vec w :=
    if bool_decide (w = wire_of_context anonymous0) then Some [65]
    else if bool_decide (w = wire_of_context context0) then Some [66] else None;
  context_from_slice b :=
    match b with
    | [65] => Some (wire_of_context anonymous0)
    | [66] => Some (wire_of_context context0)
    | _ => None
    end;
  url_safe_encode b := b;
  url_safe_decode s := Some s;
|}.
#[local] Instance toy_metadata_laws : MetadataCodecLaws.
Proof.
  split.
  - intros w bytes. cbn [context_to_vec toy_metadata].
    destruct (bool_decide_reflect (w = wire_of_context anonymous0)) as [->|]; [by intros [= <-]|].
    destruct (bool_decide_reflect (w = wire_of_context context0)) as [->|]; [by intros [= <-]|done].
  - done.
  - intros w. cbn [context_to_vec toy_metadata]. by repeat case_match.
  - done.
Qed.
#[local] Instance toy_broker : BrokerCodec := {|
  success_from_slice b := if bool_decide (b = [1]) then Some success0 else None;
  request_to_vec _ := Some [2];
|}.

(** ** A world with one broker that allows *)

Record toy_world := mk_toy { tw_in_flight : Z; tw_ids : RequestIds; tw_calls : list (list Header) }.
#[local] Instance toy_broker_world : BrokerWorld toy_world := {|
  in_flight := tw_in_flight;
  set_in_flight n w := mk_toy n (tw_ids w) (tw_calls w);
  monotonic_now _ := 5;
  send_request _ fields _ w :=
    (Some (Ok (200, [mk_read 6 true Complete []; mk_read 7 true (Dropped true) [1]])),
     mk_toy (tw_in_flight w) (tw_ids w) (fields :: tw_calls w));
|}.
Definition toy_ids : IdSource toy_world :=
  mk_id_source toy_world tw_ids (λ ids w, mk_toy (tw_in_flight w) ids (tw_calls w)) (λ _, replicate 16 7).
Definition toy_start : toy_world := mk_toy 0 {| ids_prefix := None; ids_sequence := 0 |} [].

Definition toy_env : environment :=
  [(AUTHN_BROKER_URL, lit "https://broker.example/authenticate"); (SERVICE_ID, lit "orders");
   (AUTHN_AUDIENCES, lit "api://orders"); (AUTHN_MODE, lit "optional"); (CORS_ORIGINS, lit "https://shop.example")].
Definition toy_request : Request :=
  mk_request [(lit "Authorization", lit "Bearer token"); (lit "X-Wasi-Auth-Context", lit "forged");
              (lit "origin", lit "https://shop.example"); (lit "accept", lit "text/html")]
    MGet (Some SHttps) (Some (lit "/orders")) (Some (lit "orders.example")) None (lit "body").
Definition toy_application : Handler (W:=toy_world) := λ request w,
  (Ok (mk_response 200 [(lit "content-type", lit "text/plain"); (lit "Vary", lit "Accept");
                        (lit "x-wasi-auth-debug", lit "leak")] (rq_body request)), w).

(** The run of the fused component. *)
Definition response_of (o : result ErrorCode Response * toy_world) : Response :=
  match o.1 with Ok r => r | Err _ => mk_response 0 [] [] end.
Definition fused_out := secure_defaults_handle toy_ids toy_env toy_application toy_request toy_start.
Definition chain_out := middleware_chain toy_ids toy_ids toy_env toy_application toy_request toy_start.
Lemma fused_out_ok : fused_out = (Ok (response_of fused_out), fused_out.2).
Proof. vm_compute. reflexivity. Qed.
Lemma chain_out_ok : chain_out = (Ok (response_of chain_out), chain_out.2).
Proof. vm_compute. reflexivity. Qed.
Example fused_answer :
  rs_status (response_of fused_out) = 200
  ∧ header_values (response_headers (response_of fused_out)) (lit "vary") = [lit "Accept, Origin"]
  ∧ header_values (response_headers (response_of fused_out)) (lit "x-request-id")
    = [lit "070707070707070707070707070707070000000000000000"].
Proof. vm_compute. done. Qed.

(** The second of two tasks is refused while the first holds the one place,
    and is admitted after it. *)
Example in_flight_live_witness :
  acquire (W := toy_world) 1 (mk_toy 1 (tw_ids toy_start) []) = None
  ∧ rtc (guard_step 1) full_guard (mk_guard 1 [Holding; Refused])
  ∧ guard_step 1 full_guard (mk_guard 0 [Outside; Outside]).
Proof.
  split; [done|].
  destruct (in_flight_live 1 2 full_guard 1 (mk_toy 1 (tw_ids toy_start) [])) as (Hcall & _ & Hdrop);
    [done|done|lia|apply full_guard_reachable|].
  exact (conj (proj2 (Hcall (or_introl eq_refl))) (proj1 (Hdrop 0%nat eq_refl))).
Defined.

Lemma toy_application_respects : Proper (same_request ==> eq ==> same_outcome) toy_application.
Proof.
  intros q q' [(_ & _ & _ & _ & _ & Hb) _] w w' <-. split; [done|]. cbn. by rewrite Hb.
Qed.
Lemma list_host_represents (f : list Header) : is_ok (to_header_map (copy_all f)) = true.
Proof.
  unfold to_header_map. cbn [copy_all list_host]. generalize empty_headers as h.
  induction f as [|[k v] f IH]; intros h; [done|]. cbn [try_fold]. apply IH.
Qed.

Example fused_agrees_with_chain_witness :
  fused_out = (Ok (response_of fused_out), fused_out.2)
  ∧ chain_out.2 = fused_out.2 ∧ same_response (response_of chain_out) (response_of fused_out).
Proof.
  split; [apply fused_out_ok|].
  refine (fused_agrees_with_chain toy_ids toy_ids toy_env toy_application toy_request toy_start _ _ _ _ _ _ _ _).
  - apply toy_application_respects.
  - apply list_host_represents.
  - apply chain_out_ok.
  - apply fused_out_ok.
Defined.
Example secure_answers_baseline_witness :
  rs_status (response_of fused_out) = 200
  ∧ header_values (response_headers (response_of fused_out)) X_CONTENT_TYPE_OPTIONS = [lit "nosniff"].
Proof.
  split; [by vm_compute|].
  refine (proj1 (secure_answers_baseline toy_ids toy_env toy_application toy_request toy_start _ _ _)).
  apply fused_out_ok.
Defined.
Example secure_forwards_earned_witness :
  tw_calls fused_out.2 ≠ []
  ∧ ((∃ out, ∀ application, secure_defaults_handle toy_ids toy_env application toy_request toy_start = out)
     ∨ ∃ forwarded, same_rest toy_request forwarded
         ∧ header_values (request_headers forwarded) AUTHORIZATION = []).
Proof.
  split; [by vm_compute|].
  destruct (secure_forwards_earned toy_ids toy_env toy_request toy_start)
    as [Hs|(fwd & w1 & fin & rid & v & c & cfg & w0 & _ & Hr & Hv & _)]; [by left|right].
  exists fwd. split; [exact Hr|]. by rewrite Hv.
Defined.

(** ** Contexts in headers *)

Lemma context0_valid : context_valid context0.
Proof.
  apply (context_of_wire_valid (wire_of_context context0)). vm_compute. reflexivity.
Qed.
Definition forged_headers : list (str * list Z) :=
  [(lit "x-wasi-auth-context", lit "A"); (lit "x-wasi-auth-role", lit "root"); (lit "accept", lit "*/*")].
Example trusted_header_roundtrip_witness :
  context_valid context0
  ∧ parse_auth_context (header_insert (strip_reserved_auth_headers (forged_headers : HeaderMap)) AUTH_CONTEXT_HEADER (lit "B"))
    = Ok context0.
Proof.
  split; [apply context0_valid|].
  refine (proj1 (trusted_header_roundtrip (forged_headers : HeaderMap) _ context0 _ _)).
  - apply context0_valid.
  - vm_compute. reflexivity.
Defined.
Example parsed_context_valid_witness :
  ac_service_id context0 = lit "orders" ∧ context_valid context0.
Proof.
  split; [reflexivity|].
  refine (proj1 (parsed_context_valid ([(AUTH_CONTEXT_HEADER, lit "B")] : HeaderMap) context0 _)).
  vm_compute. reflexivity.
Defined.

(** ** In-process authentication *)

Definition claims0 : AuthenticatedClaimsV1 := mk_claims principal0 (lit "decision-1") (lit "revision-1").
Lemma claims0_valid : claims_valid claims0.
Proof. apply (authenticated_claims_valid success0). vm_compute. reflexivity. Qed.
#[local] Instance toy_transport : BrokerTransport toy_world := {|
  transport_authenticate _ authorization w :=
    (if bool_decide (authorization = lit "Bearer token") then Ok (Allow claims0) else Ok Unauthenticated, w);
  unix_time _ := 20;
|}.
Definition orders_config : AuthenticationConfig := mk_authentication_config (lit "orders") [lit "api://orders"] Required.
Definition bearer_request : HttpRequest :=
  mk_http_request ([(AUTHORIZATION, lit "Bearer token"); (lit "x-wasi-auth-role", lit "root");
                    (REQUEST_ID_HEADER, lit "request-1")] : HeaderMap) None.
Definition authenticated_request : HttpRequest :=
  mk_http_request ([(REQUEST_ID_HEADER, lit "request-1")] : HeaderMap) (Some context0).
Lemma authenticated_run :
  authenticate_request orders_config bearer_request toy_start = (Ok context0, authenticated_request, toy_start).
Proof. vm_compute. reflexivity. Qed.
Example credentials_never_survive_witness :
  hr_verified bearer_request = None ∧ get_all (hr_headers authenticated_request) AUTHORIZATION = [].
Proof.
  split; [reflexivity|].
  refine (proj1 (credentials_never_survive orders_config bearer_request authenticated_request toy_start toy_start (Ok context0) _)
            AUTHORIZATION).
  left. apply authenticated_run.
Defined.
Example authentication_earned_witness :
  cfg_mode orders_config = Required ∧ ac_service_id context0 = lit "orders".
Proof.
  split; [reflexivity|].
  refine (proj1 (proj2 (authentication_earned orders_config bearer_request authenticated_request toy_start toy_start
            context0 _ _ _))).
  - exists (lit "orders"), [lit "api://orders"]. vm_compute. reflexivity.
  - intros req auth w claims w'. cbn [transport_authenticate toy_transport].
    destruct (bool_decide _); [|done]. intros [= <- _]. apply claims0_valid.
  - apply authenticated_run.
Defined.

(** ** A preflight *)

Definition shop_cors : CorsConfig :=
  mk_cors_config [lit "https://shop.example"] [lit "GET"; lit "PUT"] [lit "content-type"] true.
Definition preflight_headers : list (str * list Z) :=
  [(ORIGIN, lit "https://shop.example"); (ACCESS_CONTROL_REQUEST_METHOD, lit "PUT");
   (ACCESS_CONTROL_REQUEST_HEADERS, lit "Content-Type")].
Definition preflight_decision : CorsDecision :=
  match evaluate shop_cors (lit "OPTIONS") (preflight_headers : HeaderMap) with Ok d => d | Err _ => pass_through end.
Example cors_grants_exact_witness :
  cd_status preflight_decision = Some 204
  ∧ (get_all (cd_response_headers preflight_decision) ACCESS_CONTROL_ALLOW_CREDENTIALS ≠ [] →
     co_allow_credentials shop_cors = true ∧ lit "*" ∉ co_origins shop_cors).
Proof.
  split; [by vm_compute|].
  refine (proj1 (proj2 (cors_grants_exact shop_cors (lit "OPTIONS") (preflight_headers : HeaderMap) preflight_decision _ _))).
  - exists [lit " https://shop.example"], [lit "PUT"; lit "GET"], [lit "Content-Type"], true. vm_compute. reflexivity.
  - vm_compute. reflexivity.
Defined.
