(* ===== verification/AuthzClient.v ===== *)
(** * AuthzClient: the bounded AuthZEN client

    Models src/crates/wasi-authz-client/src/lib.rs: the bearer credential of an
    enforcement point, the decorator that installs it, the validated endpoint,
    and the client that sends an evaluation and accepts an explicit decision;
    and the WASIp3 transport of src/crates/wasi-authz-client/src/wasip3.rs.
    The interfaces of the crate, [HttpTransport] and [DecisionProvider], are
    classes; their futures are functions that pass a world. *)

From S2P Require Export Contract Headers WasiFields.
Open Scope Z_scope.

#[local] Arguments lit : simpl never.

Definition ACCESS_EVALUATION_PATH : str := lit "/access/v1/evaluation".
Definition CONTENT_TYPE : str := lit "content-type".
Definition ACCEPT : str := lit "accept".
Definition CONTENT_LENGTH : str := lit "content-length".
Definition APPLICATION_JSON : str := lit "application/json".

Inductive TransportError := UnsupportedTarget | Protocol | Unavailable | ResponseTooLarge | Timeout | Canceled.
#[export] Instance TransportError_eq_dec : EqDecision TransportError.
Proof. solve_decision. Defined.
Inductive TransportConfigError := InvalidTimeout.
Inductive BearerAuthConfigError := InvalidToken.
Inductive EndpointError := EndpointInvalid.
Inductive ClientError :=
| ClContract (error : ContractError)
| ClTransport (error : TransportError)
| PepAuthentication
| RejectedRequest
| ProviderUnavailable
| InvalidResponse.

Inductive ProviderCapability :=
| BoundedAuthzenV1 | AnonymousSubjects | TypedAttributes | AttributeProvenance | RelationshipHierarchy
| MinimizeLatencyConsistency | AtLeastAsFreshConsistency | FullyConsistentConsistency.

Abbreviation AccessEvaluation := AccessRequestV1.
Definition is_authenticated (s : SubjectV1) : bool :=
  match s with Contract.Authenticated _ => true | Contract.Anonymous => false end.

(** ** Interfaces *)

Section interfaces.
Context `{UriParser} `{HttpHeaders}.

(** [http::Request] and [http::Response] with a complete body. *)
Record HttpRequest := mk_http_request {
  hq_method : str; hq_uri : Uri; hq_headers : HeaderMap; hq_body : list Z }.
Record HttpResponse := mk_http_response { hs_status : Z; hs_headers : HeaderMap; hs_body : list Z }.
End interfaces.

Class HttpTransport (T W : Type) `{UriParser} `{HttpHeaders} := {
  send : T → HttpRequest → W → result TransportError HttpResponse * W;
}.
Class DecisionProvider (P E W : Type) := {
  capabilities : P → list ProviderCapability;
  provider_evaluate : P → AccessEvaluation → W → result E DecisionResponseV1 * W;
}.

(** The JSON text of an evaluation and of a decision. *)
Class AuthzenCodec := {
  evaluation_to_vec : RequestWire → option (list Z);
  decision_from_slice : list Z → option DecisionWire;
}.

(** ** The bearer credential *)

(** [split_at] the first [=]. *)
Fixpoint split_padding (token : list Z) : list Z * list Z :=
  match token with
  | [] => ([], [])
  | b :: rest => if b =? 61 then ([], token) else let '(value, padding) := split_padding rest in (b :: value, padding)
  end.
Definition b64token_byte (b : Z) : bool := is_ascii_alphanumeric b || one_of [45; 46; 95; 126; 43; 47] b.
Definition is_b64token (token : list Z) : bool :=
  let '(value, padding) := split_padding token in
  negb (is_empty value) && forallb b64token_byte value && forallb (λ b, b =? 61) padding.

Section bearer.
Context `{UriParser} `{HeaderBytes}.

Record BearerToken := mk_bearer { bt_token : list Z; bt_authorization : HeaderValue }.
Definition BearerToken_new (token : str) : result BearerAuthConfigError BearerToken :=
  fail? negb (in_range 16 4096 (str_len token)) || negb (is_b64token (str_bytes token)) with InvalidToken ;;
  let? authorization := ok_or (from_str (lit "Bearer " ++ token)) InvalidToken in
  Ok (mk_bearer (str_bytes token) (set_sensitive authorization)).

Record BearerAuthTransport (T : Type) := mk_bearer_transport { ba_inner : T; ba_token : BearerToken }.
#[global] Arguments mk_bearer_transport {T}.
#[global] Arguments ba_inner {T}.
#[global] Arguments ba_token {T}.
Definition BearerAuthTransport_new {T} (inner : T) (token : str) :
    result BearerAuthConfigError (BearerAuthTransport T) :=
  let? token := BearerToken_new token in
  Ok (mk_bearer_transport inner token).

Definition with_header (request : HttpRequest) (name : str) (value : HeaderValue) : HttpRequest :=
  mk_http_request (hq_method request) (hq_uri request) (header_insert (hq_headers request) name value)
    (hq_body request).
Definition bearer_send {T W} `{!HttpTransport T W} (transport : BearerAuthTransport T) (request : HttpRequest) (w : W) :
    result TransportError HttpResponse * W :=
  match get_all (hq_headers request) AUTHORIZATION with
  | _ :: _ => (Err Protocol, w)
  | [] => send (ba_inner transport) (with_header request AUTHORIZATION (bt_authorization (ba_token transport))) w
  end.
#[export] Instance bearer_transport {T W} `{!HttpTransport T W} : HttpTransport (BearerAuthTransport T) W :=
  {| send := bearer_send |}.
End bearer.

(** ** Endpoints *)

Section endpoint.
Context `{UriParser}.

Abbreviation AuthzenEndpoint := Uri.

Definition spin_internal (uri : Uri) : bool :=
  match uri_host uri with Some host => ends_with (lit ".spin.internal") host | None => false end.
Definition valid_authority (uri : Uri) : bool :=
  match uri_authority uri with Some authority => negb (contains_char 64 authority) | None => false end.
Definition valid_path (uri : Uri) : bool :=
  bool_decide (uri_path uri = ACCESS_EVALUATION_PATH) && bool_decide (uri_query uri = None).
Definition AuthzenEndpoint_new (value : str) : result EndpointError AuthzenEndpoint :=
  let? uri := ok_or (uri_parse value) EndpointInvalid in
  let secure_transport :=
    bool_decide (scheme_str uri = Some (lit "https"))
    || (bool_decide (scheme_str uri = Some (lit "http")) && spin_internal uri) in
  fail? negb secure_transport || negb (valid_authority uri) || negb (valid_path uri) with EndpointInvalid ;;
  Ok uri.
Definition loopback_host (uri : Uri) : bool :=
  match uri_host uri with
  | Some host => bool_decide (host ∈ [lit "localhost"; lit "127.0.0.1"; lit "::1"; lit "[::1]"])
  | None => false
  end.
Definition new_loopback_for_dev (value : str) : result EndpointError AuthzenEndpoint :=
  let? uri := ok_or (uri_parse value) EndpointInvalid in
  fail? negb (bool_decide (scheme_str uri = Some (lit "http")) && loopback_host uri && valid_authority uri
              && valid_path uri) with EndpointInvalid ;;
  Ok uri.
End endpoint.

(** ** The client *)

Definition is_json_content_type (value : str) : bool :=
  match split_char 59 value with
  | media_type :: _ => eq_ignore_ascii_case (trim media_type) APPLICATION_JSON
  | [] => false
  end.

Section client.
Context `{UriParser} `{HeaderBytes} `{AuthzenCodec}.

Definition decode_response (response : HttpResponse) : result ClientError DecisionResponseV1 :=
  let status := hs_status response in
  fail? bool_decide (status ∈ [401; 403]) with PepAuthentication ;;
  fail? in_range 400 499 status with RejectedRequest ;;
  fail? in_range 500 599 status with ProviderUnavailable ;;
  fail? negb (status =? 200) with InvalidResponse ;;
  fail? MAX_DOCUMENT_BYTES <? Z.of_nat (length (hs_body response)) with ClTransport ResponseTooLarge ;;
  let? content_type := ok_or (header_text (hs_headers response) CONTENT_TYPE) InvalidResponse in
  fail? negb (is_json_content_type content_type) with InvalidResponse ;;
  map_err ClContract (DecisionResponseV1_from_json_slice decision_from_slice (hs_body response)).

Record AuthzenClient (T : Type) := mk_client { cl_endpoint : Uri; cl_transport : T }.
#[global] Arguments mk_client {T}.
#[global] Arguments cl_endpoint {T}.
#[global] Arguments cl_transport {T}.

(** The builder appends valid header values to an empty map, so it never
    reports an error. *)
Definition evaluation_headers (body : list Z) : HeaderMap :=
  header_append
    (header_append (header_append empty_headers CONTENT_TYPE (from_static APPLICATION_JSON))
       ACCEPT (from_static APPLICATION_JSON))
    CONTENT_LENGTH (from_static (decimal_digits 20 (Z.of_nat (length body)))).
Definition client_evaluate {T W} `{!HttpTransport T W} (client : AuthzenClient T) (evaluation : AccessEvaluation) (w : W) :
    result ClientError DecisionResponseV1 * W :=
  match AccessRequestV1_to_json_vec evaluation_to_vec evaluation with
  | Err e => (Err (ClContract e), w)
  | Ok body =>
      let request := mk_http_request (lit "POST") (cl_endpoint client) (evaluation_headers body) body in
      let '(answer, w) := send (cl_transport client) request w in
      (let? response := map_err ClTransport answer in decode_response response, w)
  end.
#[export] Instance client_provider {T W} `{!HttpTransport T W} : DecisionProvider (AuthzenClient T) ClientError W := {|
  capabilities _ := [BoundedAuthzenV1];
  provider_evaluate := client_evaluate;
|}.
End client.

Lemma decimal_digits_visible fuel n : 0 ≤ n → forallb visible_ascii (decimal_digits fuel n) = true.
Proof.
  revert n. induction fuel as [|fuel IH]; intros n Hn; cbn [decimal_digits]; [done|].
  assert (∀ d, 0 ≤ d < 10 → visible_ascii (48 + d) = true) as Hd.
  { intros d Hd. unfold visible_ascii, in_range. bprop. left. lia. }
  destruct (Z.ltb_spec n 10); [cbn; by rewrite Hd|]. rewrite forallb_app, IH by (apply Z.div_pos; lia). cbn.
  rewrite Hd; [done|]. apply Z.mod_pos_bound. lia.
Qed.

Lemma bearer_new_Ok `{HeaderBytesLaws} token b :
  BearerToken_new token = Ok b →
  16 ≤ str_len token ≤ 4096 ∧ is_b64token (str_bytes token) = true ∧ bt_token b = str_bytes token
  ∧ as_bytes (bt_authorization b) = str_bytes (lit "Bearer " ++ token).
Proof.
  unfold BearerToken_new. intros [[Hl Hb]%orb_false_iff (v & Hv%ok_or_Ok & [= <-])%rbind_Ok]%fail_Ok.
  rewrite negb_false_iff in Hl, Hb. unfold in_range in Hl. bprop. split_and!; [lia|lia|done|done|]. cbn.
  rewrite as_bytes_sensitive. apply as_bytes_text. by apply to_str_from_str.
Qed.

(** ** The WASIp3 transport

    Models src/crates/wasi-authz-client/src/wasip3.rs and the timeout policy of
    lib.rs: the outgoing request built from an [http] request, the exchange
    under one absolute deadline, and the bounded collection of the response.
    The host ([wasi:http/client], streams and timers) is a class. *)

(** A [Duration] is its number of nanoseconds. *)
Definition DEFAULT_TIMEOUT_NANOS : Z := 2000000000.
Definition MIN_TIMEOUT : Z := 1000000.
Definition MAX_TIMEOUT : Z := 60 * 1000000000.
Definition timeout_nanos (timeout : Z) : result TransportConfigError Z :=
  fail? negb (in_range MIN_TIMEOUT MAX_TIMEOUT timeout) with InvalidTimeout ;;
  fail? u64_max <? timeout with InvalidTimeout ;;
  Ok timeout.

Record Wasip3Transport := mk_wasip3 { w3_timeout_nanos : Z }.
Definition Wasip3Transport_new : Wasip3Transport := mk_wasip3 DEFAULT_TIMEOUT_NANOS.
Definition with_timeout (transport : Wasip3Transport) (timeout : Z) : result TransportConfigError Wasip3Transport :=
  let? nanos := timeout_nanos timeout in
  Ok (mk_wasip3 nanos).

(** ** Declared and collected lengths *)

Definition declare_length (declared : option Z) (h : Header) : result TransportError (option Z) :=
  if negb (eq_ignore_ascii_case h.1 CONTENT_LENGTH) then Ok declared
  else
    fail? bool_decide (declared ≠ None) with Protocol ;;
    let? value := ok_or (from_utf8 h.2) Protocol in
    let value := trim value in
    fail? is_empty value || negb (forallb is_ascii_digit value) with Protocol ;;
    let? value := ok_or (parse_usize value) ResponseTooLarge in
    fail? MAX_DOCUMENT_BYTES <? value with ResponseTooLarge ;;
    Ok (Some value).
Definition declared_content_length (headers : list Header) : result TransportError (option Z) :=
  try_fold declare_length None headers.
Definition validate_content_length (declared : option Z) (collected : Z) : result TransportError unit :=
  fail? match declared with Some length => negb (length =? collected) | None => false end with Protocol ;;
  Ok tt.

Definition map_error_code (error : ErrorCode) : TransportError :=
  match error with
  | DnsTimeout | ConnectionTimeout | ConnectionReadTimeout | ConnectionWriteTimeout | HttpResponseTimeout => Timeout
  | _ => Unavailable
  end.

(** One read of the response body: a chunk with more to come, the chunk at
    which the peer drops the stream, with the outcome of its trailers and
    whether the end could be acknowledged, or the chunk of a cancelled read. *)
Inductive BodyEvent :=
| ChunkComplete (chunk : list Z)
| ChunkDropped (chunk : list Z) (trailers : result ErrorCode unit) (acknowledged : bool)
| ChunkCancelled (chunk : list Z).
Definition event_chunk (event : BodyEvent) : list Z :=
  match event with ChunkComplete chunk | ChunkDropped chunk _ _ | ChunkCancelled chunk => chunk end.

(** The loop over the reads; [None] while the stream stays open and silent. *)
Fixpoint collect_body (declared : option Z) (collected : list Z) (events : list BodyEvent) :
    option (result TransportError (list Z)) :=
  match events with
  | [] => None
  | event :: events =>
      let chunk := event_chunk event in
      if MAX_DOCUMENT_BYTES <? u64_saturating_add (Z.of_nat (length collected)) (Z.of_nat (length chunk))
      then Some (Err ResponseTooLarge)
      else
        let collected := collected ++ chunk in
        match event with
        | ChunkComplete _ => collect_body declared collected events
        | ChunkDropped _ trailers acknowledged =>
            Some (let? _ := map_err map_error_code trailers in
                  fail? negb acknowledged with Canceled ;;
                  let? _ := validate_content_length declared (Z.of_nat (length collected)) in
                  Ok collected)
        | ChunkCancelled _ => Some (Err Canceled)
        end
  end.

(** What the joined futures of an exchange came to when the timer is not first:
    the earliest failure of the upload, the transmission or the answer, or the
    response with the reads of its body. *)
Inductive Exchange `{WasiHttp} :=
| DeadlineFirst
| UploadDropped
| TransmissionFailed (error : ErrorCode)
| SendFailed (error : ErrorCode)
| Received (status : Z) (headers : Fields) (events : list BodyEvent).

(** The host: the options with the three timeouts, the stream that carries an
    outgoing body, and the exchange under a timer. *)
Class Wasip3Host (W : Type) `{WasiHttp} := {
  timeout_options : Z → option Options;
  outgoing_body : list Z → Body;
  client_exchange : Z → Request → list Z → W → Exchange * W;
}.

Section transport.
Context `{UriParser} `{HeaderBytes} `{WasiHttp} {W : Type} `{!Wasip3Host W}.

Definition request_method (method : str) : WasiMethod :=
  if bool_decide (method = lit "GET") then MGet
  else if bool_decide (method = lit "HEAD") then MHead
  else if bool_decide (method = lit "POST") then MPost
  else if bool_decide (method = lit "PUT") then MPut
  else if bool_decide (method = lit "DELETE") then MDelete
  else if bool_decide (method = lit "CONNECT") then MConnect
  else if bool_decide (method = lit "OPTIONS") then MOptions
  else if bool_decide (method = lit "TRACE") then MTrace
  else if bool_decide (method = lit "PATCH") then MPatch
  else MOther method.
Definition request_scheme (uri : Uri) : result TransportError WasiScheme :=
  match scheme_str uri with
  | Some scheme =>
      if bool_decide (scheme = lit "http") then Ok SHttp
      else if bool_decide (scheme = lit "https") then Ok SHttps
      else Err Protocol
  | None => Err Protocol
  end.
Definition wasip3_headers (headers : HeaderMap) : result TransportError Fields :=
  ok_or (fields_from_list (from_header_map headers)) Protocol.
Definition wasip3_request (request : HttpRequest) (timeout_nanos : Z) : result TransportError Request :=
  let? headers := wasip3_headers (hq_headers request) in
  let? options := ok_or (timeout_options timeout_nanos) Protocol in
  let method := request_method (hq_method request) in
  let? scheme := request_scheme (hq_uri request) in
  let? authority := ok_or (uri_authority (hq_uri request)) Protocol in
  let? path_with_query := ok_or (path_and_query (hq_uri request)) Protocol in
  fail? negb (accepts_method method && accepts_scheme (Some scheme) && accepts_authority (Some authority)
              && accepts_path (Some path_with_query)) with Protocol ;;
  Ok (WasiFields.mk_request headers method (Some scheme) (Some path_with_query) (Some authority) (Some options)
        (outgoing_body (hq_body request))).

Definition collect_response (status : Z) (fields : Fields) (events : list BodyEvent) :
    option (result TransportError HttpResponse) :=
  if negb (in_range 100 999 status) then Some (Err Protocol)
  else
    match declared_content_length (copy_all fields) with
    | Err e => Some (Err e)
    | Ok content_length =>
        match to_header_map (copy_all fields) with
        | Err _ => Some (Err Protocol)
        | Ok headers =>
            collected ← collect_body content_length [] events;
            Some (let? body := collected in Ok (mk_http_response status headers body))
        end
    end.

Definition wasip3_send (transport : Wasip3Transport) (request : HttpRequest) (w : W) :
    result TransportError HttpResponse * W :=
  match wasip3_request request (w3_timeout_nanos transport) with
  | Err e => (Err e, w)
  | Ok outgoing =>
      let '(exchange, w) := client_exchange (w3_timeout_nanos transport) outgoing (hq_body request) w in
      (match exchange with
       | DeadlineFirst => Err Timeout
       | UploadDropped => Err Canceled
       | TransmissionFailed e | SendFailed e => Err (map_error_code e)
       | Received status fields events =>
           match collect_response status fields events with Some answer => answer | None => Err Timeout end
       end, w)
  end.
#[export] Instance wasip3_transport : HttpTransport Wasip3Transport W := {| send := wasip3_send |}.
End transport.

(** ** What the transport delivers *)

Lemma collect_body_Ok declared events : ∀ collected body,
  collect_body declared collected events = Some (Ok body) →
  Z.of_nat (length body) ≤ MAX_DOCUMENT_BYTES
  ∧ match declared with Some n => Z.of_nat (length body) = n | None => True end
  ∧ ∃ pre chunk post, events = map ChunkComplete pre ++ ChunkDropped chunk (Ok tt) true :: post
      ∧ body = collected ++ concat pre ++ chunk.
Proof.
  induction events as [|event events IH]; intros collected body E; [done|]. cbn [collect_body] in E. cbv zeta in E.
  destruct (_ <? _) eqn:Hlen in E; [done|].
  assert (Z.of_nat (length (collected ++ event_chunk event)) ≤ MAX_DOCUMENT_BYTES) as Hl.
  { apply Z.ltb_ge in Hlen. unfold u64_saturating_add, MAX_DOCUMENT_BYTES in *. rewrite length_app.
    assert (u64_max = 18446744073709551615) by done. lia. }
  clear Hlen. destruct event as [chunk|chunk trailers acknowledged|chunk]; cbn [event_chunk] in *; [|injection E as E|done].
  - apply IH in E as (? & ? & pre & last & post & -> & ->). split_and!; [done|done|].
    exists (chunk :: pre), last, post. split; [done|]. cbn. by rewrite <- !app_assoc.
  - apply rbind_Ok in E as ([] & Ht%map_err_Ok & E). apply fail_Ok in E as [Ha E].
    apply rbind_Ok in E as ([] & [Hv _]%fail_Ok & [= <-]). apply negb_false_iff in Ha as ->. subst trailers. split_and!.
    + done.
    + destruct declared; [|done]. apply negb_false_iff, Z.eqb_eq in Hv. done.
    + exists [], chunk, events. by split.
Qed.

(** ** What a transport is asked to do *)

Section sent.
Context `{UriParser} `{HeaderBytes} `{WasiHttp} {W : Type} `{!Wasip3Host W}.

Record sent_as (timeout : Z) (request : HttpRequest) (outgoing : Request) : Prop := {
  sa_headers : fields_from_list (from_header_map (hq_headers request)) = Some (rq_headers outgoing);
  sa_method : rq_method outgoing = request_method (hq_method request);
  sa_scheme : rq_scheme outgoing = Some SHttp ∧ scheme_str (hq_uri request) = Some (lit "http")
              ∨ rq_scheme outgoing = Some SHttps ∧ scheme_str (hq_uri request) = Some (lit "https");
  sa_authority : is_Some (rq_authority outgoing) ∧ rq_authority outgoing = uri_authority (hq_uri request);
  sa_path : is_Some (rq_path outgoing) ∧ rq_path outgoing = path_and_query (hq_uri request);
  sa_options : is_Some (rq_options outgoing) ∧ rq_options outgoing = timeout_options timeout;
  sa_body : rq_body outgoing = outgoing_body (hq_body request);
}.

Lemma wasip3_request_Ok request timeout outgoing :
  wasip3_request request timeout = Ok outgoing → sent_as timeout request outgoing.
Proof.
  unfold wasip3_request, wasip3_headers, request_scheme. cbv zeta.
  intros (fields & Hf%ok_or_Ok & (options & Ho%ok_or_Ok & (scheme & Hs & (authority & Ha%ok_or_Ok
    & (path & Hp%ok_or_Ok & [_ [= <-]]%fail_Ok)%rbind_Ok)%rbind_Ok)%rbind_Ok)%rbind_Ok)%rbind_Ok.
  assert (scheme = SHttp ∧ scheme_str (hq_uri request) = Some (lit "http")
          ∨ scheme = SHttps ∧ scheme_str (hq_uri request) = Some (lit "https")) as Hscheme.
  { destruct (scheme_str (hq_uri request)) as [s|]; [|done].
    destruct (bool_decide_reflect (s = lit "http")) as [E|]; [injection Hs as <-; left; by rewrite E|].
    destruct (bool_decide_reflect (s = lit "https")) as [E|]; [injection Hs as <-; right; by rewrite E|done]. }
  split; cbn; rewrite ?Ho, ?Ha, ?Hp; eauto.
  destruct Hscheme as [[-> ?]|[-> ?]]; eauto.
Qed.

(** The transport is exact: a response it returns answered one request with
    the method, target, headers and body it was given under its timeout, and
    is complete, within the document limit and as long as it declared. *)
Lemma wasip3_send_Ok transport request w response w' :
  wasip3_send transport request w = (Ok response, w') →
  ∃ outgoing fields pre chunk post,
    sent_as (w3_timeout_nanos transport) request outgoing
    ∧ client_exchange (w3_timeout_nanos transport) outgoing (hq_body request) w
      = (Received (hs_status response) fields (map ChunkComplete pre ++ ChunkDropped chunk (Ok tt) true :: post), w')
    ∧ to_header_map (copy_all fields) = Ok (hs_headers response)
    ∧ hs_body response = concat pre ++ chunk
    ∧ Z.of_nat (length (hs_body response)) ≤ MAX_DOCUMENT_BYTES
    ∧ ∃ declared, declared_content_length (copy_all fields) = Ok declared
      ∧ match declared with Some n => Z.of_nat (length (hs_body response)) = n | None => True end.
Proof.
  unfold wasip3_send. destruct (wasip3_request request _) as [outgoing|] eqn:Hq; [|done].
  destruct (client_exchange _ outgoing _ w) as [x w1] eqn:Hx. intros E. injection E as E <-.
  destruct x as [| | | |status fields events]; try discriminate E.
  destruct (collect_response status fields events) as [r|] eqn:Hr; [subst r|done].
  unfold collect_response in Hr. destruct (negb _) in Hr; [done|].
  destruct (declared_content_length (copy_all fields)) as [declared|] eqn:Hd; [|done].
  destruct (to_header_map (copy_all fields)) as [headers|] eqn:Hh; [|done].
  destruct (collect_body declared [] events) as [c|] eqn:Hc; [|done]. cbn in Hr. injection Hr as Hr.
  apply rbind_Ok in Hr as (body & -> & [= <-]). apply collect_body_Ok in Hc as (Hl & Hm & pre & chunk & post & -> & ->).
  exists outgoing, fields, pre, chunk, post. split_and!; [by apply wasip3_request_Ok|done|done|done|done|].
  by exists declared.
Qed.
End sent.
