(* ===== verification/HttpPep.v ===== *)
(** * HttpPep: the coarse HTTP enforcement point

    Models src/crates/wasi-authz-http/src/lib.rs (the evaluation of a request
    under a trusted authentication context, route requirements and the
    enforcer) and the component src/components/http-pep/src/lib.rs: its
    configuration and the handler that asks the policy decision point before
    it forwards.  Diagnostic output is left out. *)

From S2P Require Export AuthzClient Middleware.
Open Scope Z_scope.

#[local] Arguments lit : simpl never.

(** ** From an authentication context to an evaluation *)

Inductive BoundaryError := ServiceMismatch | InvalidIdentity | InvalidRequestMetadata.
#[export] Instance BoundaryError_eq_dec : EqDecision BoundaryError.
Proof. solve_decision. Defined.

Definition identity {A} (r : result ContractError A) : result BoundaryError A := map_err (λ _, InvalidIdentity) r.
Definition metadata {A} (r : result ContractError A) : result BoundaryError A :=
  map_err (λ _, InvalidRequestMetadata) r.

Definition string_attribute (name value : str) (provenance : AttributeProvenanceV1) : result BoundaryError AttributeV1 :=
  let? name := identity (AttributeNameV1_new name) in
  let? value := identity (AttributeStringV1_new value) in
  identity (AttributeV1_new name (AString value) provenance).
Definition string_list_attribute (name : str) (values : list str) (provenance : AttributeProvenanceV1) :
    result BoundaryError AttributeV1 :=
  let? values := collect_map (λ value, identity (AttributeStringV1_new value)) values in
  let? name := identity (AttributeNameV1_new name) in
  let? values := identity (AttributeStringListV1_new values) in
  identity (AttributeV1_new name (AStringList values) provenance).
Definition integer_attribute (name : str) (value : Z) : result BoundaryError AttributeV1 :=
  let? name := identity (AttributeNameV1_new name) in
  fail? i64_max <? value with InvalidIdentity ;;
  identity (AttributeV1_new name (AInteger value) IdentityProvider).

(** What an optional part of the principal pushes. *)
Definition push_some {A} (f : A → result BoundaryError AttributeV1) (o : option A) : result BoundaryError AttributesV1 :=
  match o with Some x => rmap (λ a, [a]) (f x) | None => Ok [] end.
Definition push_list (name : str) (values : list str) : result BoundaryError AttributesV1 :=
  if bool_decide (values = []) then Ok []
  else rmap (λ a, [a]) (string_list_attribute name values IdentityProvider).

Definition subject_attributes_of (principal : PrincipalV1) : result BoundaryError AttributesV1 :=
  let? roles := push_list (lit "roles") (pv_roles principal) in
  let? acr := push_some (λ acr, string_attribute (lit "acr") acr IdentityProvider) (pv_acr principal) in
  let? amr := push_list (lit "amr") (pv_amr principal) in
  let? actor := match pv_actor principal with
                | Some actor =>
                    let? issuer := string_attribute (lit "actor_issuer") (act_issuer actor) IdentityProvider in
                    let? subject := string_attribute (lit "actor_subject") (act_subject actor) IdentityProvider in
                    Ok [issuer; subject]
                | None => Ok []
                end in
  let? auth_time := push_some (integer_attribute (lit "auth_time")) (pv_auth_time principal) in
  let? expires_at := push_some (integer_attribute (lit "expires_at")) (pv_expires_at principal) in
  Ok (roles ++ acr ++ amr ++ actor ++ auth_time ++ expires_at).

Definition authenticated_subject (principal : PrincipalV1) : result BoundaryError AuthenticatedSubjectV1 :=
  let? ty := identity (EntityTypeV1_new (lit "principal")) in
  let? id := identity (EntityIdV1_new (pv_subject principal)) in
  let? issuer := identity (IssuerV1_new (pv_issuer principal)) in
  let subject := AuthenticatedSubjectV1_new ty id issuer in
  let? subject := match pv_tenant_id principal with
                  | Some tenant_id =>
                      let? tenant_id := identity (TenantIdV1_new tenant_id) in Ok (with_tenant_id subject tenant_id)
                  | None => Ok subject
                  end in
  let? scopes := collect_map (λ scope, identity (ScopeV1_new scope)) (pv_scopes principal) in
  let? subject := identity (with_scopes subject scopes) in
  let? attributes := subject_attributes_of principal in
  let? attributes := identity (try_from_vec attributes) in
  Ok (with_attributes subject attributes).

Definition subject_from_auth_context (auth_context : AuthContextV1) (expected_service_id : str) :
    result BoundaryError SubjectV1 :=
  fail? negb (bool_decide (ac_service_id auth_context = expected_service_id)) with ServiceMismatch ;;
  match ac_state auth_context, ac_principal auth_context with
  | Metadata.Anonymous, None => Ok Contract.Anonymous
  | Metadata.Authenticated, Some principal => rmap Contract.Authenticated (authenticated_subject principal)
  | _, _ => Err InvalidIdentity
  end.

Definition coarse_http_evaluation `{HttpMethods} (auth_context : AuthContextV1) (expected_service_id method path_with_query : str)
    (request_id : option str) : result BoundaryError AccessEvaluation :=
  let? subject := subject_from_auth_context auth_context expected_service_id in
  let? method := ok_or (method_from_bytes method) InvalidRequestMetadata in
  let method := to_ascii_uppercase method in
  fail? 32 <? str_len method with InvalidRequestMetadata ;;
  let? path := map_err (λ _, InvalidRequestMetadata) (normalize_policy_path path_with_query) in
  let? http_method := string_attribute (lit "http_method") method Gateway in
  let? http_path := string_attribute (lit "http_path") path Gateway in
  let? attributes := metadata (try_from_vec [http_method; http_path]) in
  let? request_id := match request_id with
                     | Some request_id => metadata (rmap Some (RequestIdV1_new request_id))
                     | None => Ok None
                     end in
  let context := mk_context_v1 attributes None request_id in
  let? action := metadata (ActionV1_new (lit "http.request")) in
  let? resource := metadata (ResourceV1_new (lit "service") expected_service_id) in
  Ok (Contract.with_context (AccessRequestV1_new subject action resource) context).

(** ** Route requirements and the enforcer *)

Record RouteAuthorization := mk_route {
  ra_action : ActionV1; ra_resource : ResourceV1; ra_context : option ContextV1 }.
Definition RouteAuthorization_from_parts (action : ActionV1) (resource : ResourceV1) : RouteAuthorization :=
  mk_route action resource None.
Definition RouteAuthorization_new (action resource_type resource_id : str) : result ContractError RouteAuthorization :=
  let? action := ActionV1_new action in
  let? resource := ResourceV1_new resource_type resource_id in
  Ok (RouteAuthorization_from_parts action resource).
Definition route_with_context (route : RouteAuthorization) (context : ContextV1) : RouteAuthorization :=
  mk_route (ra_action route) (ra_resource route) (Some context).
Definition route_evaluation (route : RouteAuthorization) (subject : SubjectV1) : AccessEvaluation :=
  let evaluation := AccessRequestV1_new subject (ra_action route) (ra_resource route) in
  match ra_context route with Some context => Contract.with_context evaluation context | None => evaluation end.

Inductive HttpRejection := AuthenticationRequired | Forbidden | PdpUnavailable.
#[export] Instance HttpRejection_eq_dec : EqDecision HttpRejection.
Proof. solve_decision. Defined.
Inductive PepOutcome := PepAllow (decision : DecisionResponseV1) | PepReject (rejection : HttpRejection).
Definition outcome_is_allowed (outcome : PepOutcome) : bool :=
  match outcome with PepAllow _ => true | PepReject _ => false end.
Definition HttpRejection_status (rejection : HttpRejection) : Z :=
  match rejection with AuthenticationRequired => 401 | Forbidden => 403 | PdpUnavailable => 503 end.
Definition CACHE_CONTROL : str := lit "cache-control".
Definition into_response `{HttpHeaders} (rejection : HttpRejection) : HttpResponse :=
  let headers := header_insert empty_headers CACHE_CONTROL (from_static (lit "no-store")) in
  let headers := header_insert headers CONTENT_LENGTH (from_static (lit "0")) in
  let headers := if bool_decide (rejection = AuthenticationRequired)
                 then header_insert headers WWW_AUTHENTICATE (from_static (lit "Bearer")) else headers in
  mk_http_response (HttpRejection_status rejection) headers [].

Definition enforce {P E W} `{!DecisionProvider P E W} (provider : P) (subject : SubjectV1)
    (authorization : RouteAuthorization) (w : W) : PepOutcome * W :=
  let authenticated := is_authenticated subject in
  let evaluation := route_evaluation authorization subject in
  let '(answer, w) := provider_evaluate provider evaluation w in
  (match answer with
   | Ok decision =>
       if is_allowed decision then PepAllow decision
       else if authenticated then PepReject Forbidden else PepReject AuthenticationRequired
   | Err _ => PepReject PdpUnavailable
   end, w).

(** ** The component *)

Definition SERVICE_ID_ENV : str := lit "WASI_AUTHZ_SERVICE_ID".
Definition ENDPOINT_ENV : str := lit "WASI_AUTHZ_ENDPOINT".
Definition TIMEOUT_MS_ENV : str := lit "WASI_AUTHZ_TIMEOUT_MS".
Definition ALLOW_LOOPBACK_ENV : str := lit "WASI_AUTHZ_ALLOW_LOOPBACK_DEV".
Definition PDP_BEARER_ENV : str := lit "WASI_AUTHZ_PDP_BEARER_TOKEN".
Definition ALLOW_UNAUTHENTICATED_PDP_ENV : str := lit "WASI_AUTHZ_ALLOW_UNAUTHENTICATED_PDP_DEV".
Definition pep_names : list str :=
  [SERVICE_ID_ENV; ENDPOINT_ENV; TIMEOUT_MS_ENV; ALLOW_LOOPBACK_ENV; PDP_BEARER_ENV; ALLOW_UNAUTHENTICATED_PDP_ENV].

Inductive ConfigError := Missing | Duplicate | Invalid.

Definition known_value (values : bmap str) (entry : str * str) : result ConfigError (bmap str) :=
  if bool_decide (entry.1 ∈ pep_names) then
    fail? bmap_contains entry.1 values with Duplicate ;;
    Ok (bmap_insert entry.1 entry.2 values)
  else Ok values.
Definition flag (value : option str) : result ConfigError bool :=
  match value with
  | None => Ok false
  | Some value =>
      if bool_decide (value = lit "false") then Ok false
      else if bool_decide (value = lit "true") then Ok true
      else Err Invalid
  end.
Definition service_id_ok (service_id : str) : bool :=
  negb (is_empty service_id) && (str_len service_id <=? 128) && forallb token_byte (str_bytes service_id).

Section component.
Context `{UriParser} `{HeaderBytes} `{HttpMethods} `{MetadataCodec} `{AuthzenCodec} `{WasiHttp} {W : Type} `{!Wasip3Host W}.

Inductive ComponentClient :=
| ClientAuthenticated (client : AuthzenClient (BearerAuthTransport Wasip3Transport))
| UnauthenticatedDevelopment (client : AuthzenClient Wasip3Transport).
Definition component_evaluate (client : ComponentClient) (evaluation : AccessEvaluation) (w : W) :
    result ClientError DecisionResponseV1 * W :=
  match client with
  | ClientAuthenticated client => client_evaluate client evaluation w
  | UnauthenticatedDevelopment client => client_evaluate client evaluation w
  end.
#[export] Instance component_provider : DecisionProvider ComponentClient ClientError W := {|
  capabilities _ := [BoundedAuthzenV1];
  provider_evaluate := component_evaluate;
|}.

Record ComponentConfig := mk_component_config { cc_service_id : str; cc_client : ComponentClient }.

Definition pep_from_environment (environment : environment) : result ConfigError ComponentConfig :=
  let? values := try_fold known_value [] environment in
  let? service_id := ok_or (bmap_get SERVICE_ID_ENV values) Missing in
  fail? negb (service_id_ok service_id) with Invalid ;;
  let? endpoint_value := ok_or (bmap_get ENDPOINT_ENV values) Missing in
  let? allow_loopback := flag (bmap_get ALLOW_LOOPBACK_ENV values) in
  let? endpoint := map_err (λ _, Invalid)
    (if allow_loopback then new_loopback_for_dev endpoint_value else AuthzenEndpoint_new endpoint_value) in
  let? timeout_ms := match bmap_get TIMEOUT_MS_ENV values with
                     | Some value => ok_or (parse_usize value) Invalid
                     | None => Ok 2000
                     end in
  let? transport := map_err (λ _, Invalid) (with_timeout Wasip3Transport_new (timeout_ms * 1000000)) in
  let? allow_unauthenticated := flag (bmap_get ALLOW_UNAUTHENTICATED_PDP_ENV values) in
  let? client := match bmap_get PDP_BEARER_ENV values, allow_unauthenticated with
                 | Some token, false =>
                     let? transport := map_err (λ _, Invalid) (BearerAuthTransport_new transport token) in
                     Ok (ClientAuthenticated (mk_client endpoint transport))
                 | None, true =>
                     if allow_loopback then Ok (UnauthenticatedDevelopment (mk_client endpoint transport))
                     else Err Invalid
                 | _, _ => Err Invalid
                 end in
  Ok (mk_component_config service_id client).

Definition trusted_auth_context (headers : HeaderMap) : result unit AuthContextV1 :=
  match get_all headers AUTHORIZATION with
  | _ :: _ => Err tt
  | [] => map_err (λ _, tt) (parse_auth_context headers)
  end.
Definition optional_request_id (headers : HeaderMap) : result unit (option str) :=
  match get_all headers REQUEST_ID_HEADER with
  | [] => Ok None
  | [value] =>
      let? value := ok_or (to_str value) tt in
      fail? negb (is_valid_request_id value) with tt ;;
      Ok (Some value)
  | _ :: _ :: _ => Err tt
  end.
Definition method_name (method : WasiMethod) : str :=
  match method with
  | MGet => lit "GET"
  | MHead => lit "HEAD"
  | MPost => lit "POST"
  | MPut => lit "PUT"
  | MDelete => lit "DELETE"
  | MConnect => lit "CONNECT"
  | MOptions => lit "OPTIONS"
  | MTrace => lit "TRACE"
  | MPatch => lit "PATCH"
  | MOther value => to_ascii_uppercase value
  end.
Definition rejection_response (status : Z) : result ErrorCode Response :=
  empty_response status
    ([(CACHE_CONTROL, lit "no-store")]
     ++ (if status =? 503 then [(RETRY_AFTER, lit "1")] else [])
     ++ (if status =? 401 then [(WWW_AUTHENTICATE, lit "Bearer")] else [])).

Inductive GateOutcome (T : Type) := Forwarded (value : T) | Rejected (status : Z).
#[global] Arguments Forwarded {T}.
#[global] Arguments Rejected {T}.
Definition authorize_then {P E T} `{!DecisionProvider P E W} (provider : P) (evaluation : AccessEvaluation)
    (downstream : W → T * W) (w : W) : GateOutcome T * W :=
  let '(answer, w) := provider_evaluate provider evaluation w in
  match answer with
  | Ok decision =>
      if is_allowed decision then let '(value, w) := downstream w in (Forwarded value, w)
      else if is_authenticated (req_subject evaluation) then (Rejected 403, w) else (Rejected 401, w)
  | Err _ => (Rejected 503, w)
  end.

(** Everything before the decision: the evaluation, or a reason to stop. *)
Definition pep_evaluation (config : ComponentConfig) (request : Request) : option AccessEvaluation :=
  match to_header_map (request_headers request) with
  | Err _ => None
  | Ok headers =>
      match trusted_auth_context headers with
      | Err _ => None
      | Ok auth_context =>
          match optional_request_id headers with
          | Err _ => None
          | Ok request_id =>
              match rq_path request with
              | None => None
              | Some path_with_query =>
                  match coarse_http_evaluation auth_context (cc_service_id config)
                          (method_name (rq_method request)) path_with_query request_id with
                  | Err _ => None
                  | Ok evaluation => Some evaluation
                  end
              end
          end
      end
  end.
Definition http_pep_handle (env : environment) (downstream : Handler) : Handler := λ request w,
  match pep_from_environment env with
  | Err _ => (rejection_response 503, w)
  | Ok config =>
      match pep_evaluation config request with
      | None => (rejection_response 503, w)
      | Some evaluation =>
          let '(outcome, w) := authorize_then (cc_client config) evaluation (downstream request) w in
          (match outcome with
           | Forwarded response => response
           | Rejected status => rejection_response status
           end, w)
      end
  end.
End component.
