(* ===== verification/HttpPepProofs.v ===== *)
(** * HttpPepProofs: what the enforcement point asks and forwards

    The subject of an evaluation is the principal of the trusted context, the
    resource is the configured service, and a request is forwarded, unchanged,
    only under an explicit allow decision on that evaluation.  Behind
    [secure-defaults] the context the enforcement point reads is the one the
    broker allowed.  The last part follows an evaluation over the wire. *)

From S2P Require Export HttpPep MiddlewareProofs.
Open Scope Z_scope.

#[local] Arguments lit : simpl never.

(** ** The subject of an evaluation *)

Definition name_allowed (name : str) : bool :=
  identifier_valid name MAX_ATTRIBUTE_NAME_LEN && negb (is_sensitive_attribute_name name).
Lemma attribute_name_new name : name_allowed name = true → AttributeNameV1_new name = Ok name.
Proof.
  unfold name_allowed, AttributeNameV1_new, Contract.validate_identifier. intros [-> Hs]%andb_true_iff. cbn.
  by rewrite (proj1 (negb_true_iff _) Hs).
Qed.
Lemma attribute_new name value provenance :
  name_allowed name = true → AttributeV1_new name value provenance = Ok (mk_attribute name value provenance).
Proof.
  unfold name_allowed, AttributeV1_new. intros [_ Hs]%andb_true_iff. by rewrite (proj1 (negb_true_iff _) Hs).
Qed.
Lemma attribute_string_new v :
  AttributeStringV1_new v = Ok v ∧ text_valid v MAX_ATTRIBUTE_VALUE_LEN = true
  ∨ is_ok (AttributeStringV1_new v) = false ∧ text_valid v MAX_ATTRIBUTE_VALUE_LEN = false.
Proof.
  unfold AttributeStringV1_new, bounded_text, Contract.validate_text.
  destruct (text_valid v MAX_ATTRIBUTE_VALUE_LEN); [by left|by right].
Qed.

Lemma string_attribute_eq name v provenance :
  name_allowed name = true →
  string_attribute name v provenance =
    if text_valid v MAX_ATTRIBUTE_VALUE_LEN then Ok (mk_attribute name (AString v) provenance) else Err InvalidIdentity.
Proof.
  intros Hn. unfold string_attribute. rewrite (attribute_name_new _ Hn). cbn.
  destruct (attribute_string_new v) as [[-> ->]|[He ->]].
  - cbn. by rewrite (attribute_new _ _ _ Hn).
  - by destruct (AttributeStringV1_new v).
Qed.
Lemma integer_attribute_eq name v :
  name_allowed name = true →
  integer_attribute name v =
    if v <=? i64_max then Ok (mk_attribute name (AInteger v) IdentityProvider) else Err InvalidIdentity.
Proof.
  intros Hn. unfold integer_attribute. rewrite (attribute_name_new _ Hn). cbn. rewrite Z.ltb_antisym.
  destruct (v <=? i64_max); cbn; [|done]. by rewrite (attribute_new _ _ _ Hn).
Qed.
Lemma text_valid_weaken v m n : m ≤ n → text_valid v m = true → text_valid v n = true.
Proof. rewrite !text_valid_spec. intros Hmn (? & ? & ? & ?). split_and!; [done|lia|done|done]. Qed.

(** A token of the metadata is a valid attribute string and a valid scope. *)
Lemma identifier_not_space c : identifier_byte c = true → is_whitespace c = false ∧ is_control c = false.
Proof.
  intros Hc. assert (45 ≤ c ≤ 122) as Hr.
  { unfold identifier_byte, is_ascii_alphanumeric, is_ascii_lowercase, is_ascii_uppercase, is_ascii_digit, one_of, in_range in Hc.
    bprop. destruct Hc as [Hc|Hc]; [lia|]. set_unfold in Hc. lia. }
  unfold is_whitespace, is_control, in_range. split; bprop; [|lia].
  split; [lia|]. intros Hin. set_unfold in Hin. lia.
Qed.
Lemma token_text t : is_token t = true → text_valid t 128 = true.
Proof.
  intros Ht. apply (identifier_valid_spec t 128) in Ht as (Hne & Hl & Hf). apply text_valid_spec.
  rewrite identifier_len by done. rewrite forallb_spec in Hf. split_and!; [done|lia| |].
  - unfold trim. unfold trim_start. rewrite drop_while_id, trim_end_id; [done| |].
    + intros s' c ->. apply identifier_not_space, Hf. set_solver.
    + intros c r ->. apply identifier_not_space, Hf. set_solver.
  - intros c Hc. by apply identifier_not_space, Hf.
Qed.
Lemma tokens_strings l : (∀ t, t ∈ l → is_token t = true) →
  collect_map (λ value, identity (AttributeStringV1_new value)) l = Ok l.
Proof.
  intros Hl. apply collect_map_Ok. induction l as [|t l IH]; constructor; [|apply IH; set_solver].
  destruct (attribute_string_new t) as [[-> _]|[_ He]]; [done|].
  rewrite (text_valid_weaken t 128) in He; [done|unfold MAX_ATTRIBUTE_VALUE_LEN; lia|]. apply token_text, Hl. set_solver.
Qed.
Lemma tokens_scopes l : (∀ t, t ∈ l → is_token t = true) →
  collect_map (λ scope, identity (ScopeV1_new scope)) l = Ok l.
Proof.
  intros Hl. apply collect_map_Ok. induction l as [|t l IH]; constructor; [|apply IH; set_solver].
  unfold ScopeV1_new, bounded_identifier, Contract.validate_identifier. assert (is_token t = true) as Ht by (apply Hl; set_solver).
  change (is_token t) with (identifier_valid t MAX_ATTRIBUTE_NAME_LEN) in Ht. by rewrite Ht.
Qed.

Definition fits_list (l : list str) : bool := bool_decide (length l ≤ MAX_ATTRIBUTE_LIST_VALUES)%nat.
Lemma push_list_eq name l :
  name_allowed name = true → (∀ t, t ∈ l → is_token t = true) →
  push_list name l =
    if fits_list l then Ok (if bool_decide (l = []) then [] else [mk_attribute name (AStringList l) IdentityProvider])
    else Err InvalidIdentity.
Proof.
  intros Hn Hl. unfold push_list, fits_list. case_bool_decide as He; [by subst|].
  unfold string_list_attribute. rewrite (tokens_strings l Hl). cbn. rewrite (attribute_name_new _ Hn). cbn.
  unfold AttributeStringListV1_new. rewrite (bool_decide_ext _ (¬ (length l ≤ MAX_ATTRIBUTE_LIST_VALUES)%nat)) by lia.
  rewrite bool_decide_not. case_bool_decide; cbn; [|done]. by rewrite (attribute_new _ _ _ Hn).
Qed.
Lemma push_string_eq name maximum o :
  name_allowed name = true → maximum ≤ MAX_ATTRIBUTE_VALUE_LEN → optional_ok o maximum = true →
  push_some (λ v, string_attribute name v IdentityProvider) o =
    Ok (match o with Some v => [mk_attribute name (AString v) IdentityProvider] | None => [] end).
Proof.
  intros Hn Hm Ho. destruct o as [v|]; cbn; [|done]. rewrite string_attribute_eq by done.
  by rewrite (text_valid_weaken v maximum).
Qed.
Definition fits_i64 (o : option Z) : bool := match o with Some n => n <=? i64_max | None => true end.
Lemma push_integer_eq name o :
  name_allowed name = true →
  push_some (integer_attribute name) o =
    if fits_i64 o then Ok (match o with Some n => [mk_attribute name (AInteger n) IdentityProvider] | None => [] end)
    else Err InvalidIdentity.
Proof. intros Hn. destruct o as [n|]; cbn; [|done]. rewrite integer_attribute_eq by done. by destruct (_ <=? _). Qed.

(** The subject a principal stands for, and when it fits the profile. *)
Definition identity_attributes (p : PrincipalV1) : AttributesV1 :=
  (if bool_decide (pv_roles p = []) then [] else [mk_attribute (lit "roles") (AStringList (pv_roles p)) IdentityProvider])
  ++ match pv_acr p with Some v => [mk_attribute (lit "acr") (AString v) IdentityProvider] | None => [] end
  ++ (if bool_decide (pv_amr p = []) then [] else [mk_attribute (lit "amr") (AStringList (pv_amr p)) IdentityProvider])
  ++ match pv_actor p with
     | Some a => [mk_attribute (lit "actor_issuer") (AString (act_issuer a)) IdentityProvider;
                  mk_attribute (lit "actor_subject") (AString (act_subject a)) IdentityProvider]
     | None => []
     end
  ++ match pv_auth_time p with Some n => [mk_attribute (lit "auth_time") (AInteger n) IdentityProvider] | None => [] end
  ++ match pv_expires_at p with Some n => [mk_attribute (lit "expires_at") (AInteger n) IdentityProvider] | None => [] end.
Definition identity_subject (p : PrincipalV1) : AuthenticatedSubjectV1 :=
  mk_subject (lit "principal") (pv_subject p) (pv_issuer p) (pv_tenant_id p) (pv_scopes p) (identity_attributes p).
Definition fits_profile (p : PrincipalV1) : bool :=
  fits_list (pv_scopes p) && fits_list (pv_roles p) && fits_list (pv_amr p)
  && fits_i64 (pv_auth_time p) && fits_i64 (pv_expires_at p).

Lemma subject_attributes_eq p :
  principal_valid p →
  subject_attributes_of p =
    if fits_list (pv_roles p) && fits_list (pv_amr p) && fits_i64 (pv_auth_time p) && fits_i64 (pv_expires_at p)
    then Ok (identity_attributes p) else Err InvalidIdentity.
Proof.
  intros Hp. unfold subject_attributes_of.
  rewrite !push_list_eq by (done || apply Hp).
  rewrite (push_string_eq _ MAX_CONTEXT_VALUE_LEN) by (done || apply Hp).
  rewrite !push_integer_eq by done.
  assert (match pv_actor p with
          | Some actor =>
              let? issuer := string_attribute (lit "actor_issuer") (act_issuer actor) IdentityProvider in
              let? subject := string_attribute (lit "actor_subject") (act_subject actor) IdentityProvider in
              Ok [issuer; subject]
          | None => Ok []
          end = Ok (match pv_actor p with
     | Some a => [mk_attribute (lit "actor_issuer") (AString (act_issuer a)) IdentityProvider;
                  mk_attribute (lit "actor_subject") (AString (act_subject a)) IdentityProvider]
     | None => []
     end)) as Hactor.
  { destruct (pv_actor p) as [a|] eqn:Ea; [|done]. destruct (prv_actor p Hp a Ea) as [H1' H2'].
    rewrite !string_attribute_eq by done.
    rewrite (text_valid_weaken (act_issuer a) MAX_IDENTITY_VALUE_LEN), (text_valid_weaken (act_subject a) MAX_IDENTITY_VALUE_LEN)
      by done. done. }
  rewrite Hactor. unfold identity_attributes.
  destruct (fits_list (pv_roles p)), (fits_list (pv_amr p)), (fits_i64 (pv_auth_time p)), (fits_i64 (pv_expires_at p)); done.
Qed.

Lemma identity_attributes_set p : attribute_set (identity_attributes p).
Proof.
  unfold identity_attributes. apply validate_attributes_Ok.
  destruct (bool_decide (pv_roles p = [])), (pv_acr p), (bool_decide (pv_amr p = [])), (pv_actor p), (pv_auth_time p), (pv_expires_at p);
    vm_compute; reflexivity.
Qed.

Lemma authenticated_subject_eq p :
  principal_valid p →
  authenticated_subject p = if fits_profile p then Ok (identity_subject p) else Err InvalidIdentity.
Proof.
  intros Hp. unfold authenticated_subject, EntityTypeV1_new, EntityIdV1_new, IssuerV1_new, TenantIdV1_new, bounded_text, bounded_identifier,
    Contract.validate_text, Contract.validate_identifier.
  change (identifier_valid (lit "principal") MAX_ENTITY_TYPE_LEN) with true. cbn [rbind identity map_err].
  pose proof (prv_subject p Hp) as Hs. pose proof (prv_issuer p Hp) as Hi. pose proof (prv_tenant p Hp) as Ht.
  change (text_ok (pv_subject p) MAX_IDENTITY_VALUE_LEN) with (text_valid (pv_subject p) MAX_ENTITY_ID_LEN) in Hs.
  change (text_ok (pv_issuer p) MAX_IDENTITY_VALUE_LEN) with (text_valid (pv_issuer p) MAX_ENTITY_ID_LEN) in Hi.
  rewrite Hs, Hi. cbn [rbind identity map_err]. cbv zeta.
  assert (∀ subject, match pv_tenant_id p with
          | Some tenant_id =>
              let? tenant_id := identity (try? (if text_valid tenant_id MAX_ENTITY_ID_LEN then Ok tt
                                                else Err (Contract.InvalidText (lit "tenant identifier") MAX_ENTITY_ID_LEN)) ;;
                                          Ok tenant_id) in Ok (with_tenant_id subject tenant_id)
          | None => Ok subject
          end = Ok (match pv_tenant_id p with Some t => with_tenant_id subject t | None => subject end)) as Htenant.
  { intros subject. destruct (pv_tenant_id p) as [t|]; [|done]. cbn in Ht.
    change (text_ok t MAX_IDENTITY_VALUE_LEN) with (text_valid t MAX_ENTITY_ID_LEN) in Ht. by rewrite Ht. }
  rewrite Htenant. cbn [rbind]. rewrite tokens_scopes by apply Hp. cbn [rbind].
  unfold with_scopes, normalize_scopes. change (dedup (sort_unstable (pv_scopes p))) with (sort_dedup (pv_scopes p)).
  rewrite (sort_dedup_id (pv_scopes p)) by apply Hp.
  rewrite (subject_attributes_eq p Hp). unfold fits_profile.
  change (fits_list (pv_scopes p)) with (bool_decide (length (pv_scopes p) ≤ MAX_ATTRIBUTE_LIST_VALUES)%nat).
  rewrite (bool_decide_ext (MAX_ATTRIBUTE_LIST_VALUES < length (pv_scopes p))%nat
             (¬ (length (pv_scopes p) ≤ MAX_ATTRIBUTE_LIST_VALUES)%nat)) by lia.
  rewrite bool_decide_not. destruct (bool_decide (length (pv_scopes p) ≤ MAX_ATTRIBUTE_LIST_VALUES)%nat); [|done].
  cbn [negb rbind identity map_err andb]. destruct (_ && _); [|done]. cbn [rbind].
  rewrite (proj2 (try_from_vec_Ok _ _) (conj eq_refl (identity_attributes_set p))). cbn.
  unfold identity_subject, with_attributes. by destruct (pv_tenant_id p).
Qed.

(** The subject of a context: nobody for an anonymous one, the principal for
    an authenticated one, if it fits. *)
Definition context_subject (c : AuthContextV1) : SubjectV1 :=
  match ac_principal c with
  | Some p => Contract.Authenticated (identity_subject p)
  | None => Contract.Anonymous
  end.
Definition context_fits (c : AuthContextV1) : bool :=
  match ac_principal c with Some p => fits_profile p | None => true end.
Lemma subject_of_context_eq c service :
  context_valid c →
  subject_from_auth_context c service =
    if bool_decide (ac_service_id c = service)
    then if context_fits c then Ok (context_subject c) else Err InvalidIdentity
    else Err ServiceMismatch.
Proof.
  intros Hc. unfold subject_from_auth_context, context_fits, context_subject. destruct (bool_decide _); [|done]. cbn.
  pose proof (cv_state c Hc) as Hs. destruct (ac_state c).
  - by destruct Hs as (-> & _).
  - destruct Hs as (p & d & r & -> & _ & _ & Hp & _). rewrite (authenticated_subject_eq p Hp). by destruct (fits_profile p).
Qed.

Section evaluation.
Context `{HttpMethods}.

Definition http_evaluation (c : AuthContextV1) (method path : str) (request_id : option str) : AccessEvaluation :=
  Contract.mk_request (context_subject c) (mk_action (lit "http.request") [])
    (mk_resource (lit "service") (ac_service_id c) [])
    (Some (mk_context_v1
      [mk_attribute (lit "http_method") (AString method) Gateway; mk_attribute (lit "http_path") (AString path) Gateway]
      None request_id)).

Lemma http_attributes_set m path :
  try_from_vec [mk_attribute (lit "http_method") (AString m) Gateway; mk_attribute (lit "http_path") (AString path) Gateway]
  = Ok [mk_attribute (lit "http_method") (AString m) Gateway; mk_attribute (lit "http_path") (AString path) Gateway].
Proof. vm_compute. reflexivity. Qed.
Lemma service_resource c :
  context_valid c → ResourceV1_new (lit "service") (ac_service_id c) = Ok (mk_resource (lit "service") (ac_service_id c) []).
Proof.
  intros Hc. unfold ResourceV1_new, EntityTypeV1_new, EntityIdV1_new, bounded_identifier, bounded_text, Contract.validate_identifier,
    Contract.validate_text.
  change (identifier_valid (lit "service") MAX_ENTITY_TYPE_LEN) with true. cbn [rbind].
  rewrite (text_valid_weaken _ 128); [done|unfold MAX_ENTITY_ID_LEN; lia|]. apply token_text, Hc.
Qed.
Lemma request_id_new (request_id : option str) x :
  match request_id with Some r => metadata (rmap Some (RequestIdV1_new r)) | None => Ok None end = Ok x
  ↔ x = request_id ∧ match request_id with Some r => text_valid r MAX_CORRELATION_ID_LEN = true | None => True end.
Proof.
  destruct request_id as [r|]; [|naive_solver]. unfold metadata. rewrite map_err_Ok, rmap_Ok. unfold RequestIdV1_new.
  setoid_rewrite bounded_text_Ok. naive_solver.
Qed.

(** The coarse evaluation, exactly.  For a valid authentication context the
    evaluation of a request exists if and only if the context was minted for
    the configured service, the principal fits the authorization profile (at
    most 32 roles, scopes and methods, times within 63 bits), the method is at
    most 32 characters, the path is safe, normalized and at most 2 KiB, and
    the request identifier is valid; and then it is the principal, nothing of
    its session, that asks for [http.request] on the service, with exactly the
    method in capitals and the normalized path. *)
Theorem coarse_evaluation_exact (c : AuthContextV1) (service method path_with_query : str) (request_id : option str)
    (e : AccessEvaluation) (Hc : context_valid c) :
  coarse_http_evaluation c service method path_with_query request_id = Ok e
  ↔ ∃ m path, service = ac_service_id c ∧ context_fits c = true
      ∧ method_from_bytes method = Some m ∧ str_len (to_ascii_uppercase m) ≤ 32
      ∧ text_valid (to_ascii_uppercase m) MAX_ATTRIBUTE_VALUE_LEN = true
      ∧ normalize_policy_path path_with_query = Ok path ∧ text_valid path MAX_ATTRIBUTE_VALUE_LEN = true
      ∧ match request_id with Some r => text_valid r MAX_CORRELATION_ID_LEN = true | None => True end
      ∧ e = http_evaluation c (to_ascii_uppercase m) path request_id.
Proof.
  unfold coarse_http_evaluation. rewrite (subject_of_context_eq c service Hc). split.
  - intros E. case_bool_decide as Hs; [subst service|done]. destruct (context_fits c); [|done]. cbn [rbind] in E.
    apply rbind_Ok in E as (m & Hm%ok_or_Ok & E). cbv zeta in E. apply fail_Ok in E as [Hlen E].
    apply rbind_Ok in E as (path & Hp%map_err_Ok & E). rewrite !string_attribute_eq in E by done.
    destruct (text_valid (to_ascii_uppercase m) _) eqn:Htm; [|done].
    destruct (text_valid path _) eqn:Htp; [|done]. cbn [rbind] in E. rewrite http_attributes_set in E. cbn [metadata map_err rbind] in E.
    apply rbind_Ok in E as (rid & [-> Hrid]%request_id_new & E). rewrite (service_resource c Hc) in E.
    change (ActionV1_new (lit "http.request")) with (Ok (E := ContractError) (mk_action (lit "http.request") [])) in E.
    injection E as <-. exists m, path. split_and!; try done. bprop. done.
  - intros (m & path & -> & Hfits & Hm & Hlen & Htm & Hpath & Htp & Hrid & ->).
    rewrite bool_decide_true, Hfits, Hm by done. cbn [rbind ok_or]. rewrite (proj2 (Z.ltb_ge _ _) Hlen). rewrite Hpath. cbn [rbind map_err].
    rewrite !string_attribute_eq, Htm, Htp by done. cbn [rbind]. rewrite http_attributes_set. cbn [metadata map_err rbind].
    rewrite (proj2 (request_id_new request_id request_id) (conj eq_refl Hrid)). rewrite (service_resource c Hc). done.
Qed.
End evaluation.

(** ** What the client was told *)

Section decided.
Context `{UriParser} `{HeaderBytes} `{AuthzenCodec}.

Lemma decode_response_Ok response d :
  decode_response response = Ok d →
  hs_status response = 200 ∧ Z.of_nat (length (hs_body response)) ≤ MAX_DOCUMENT_BYTES
  ∧ (∃ t, header_text (hs_headers response) CONTENT_TYPE = Some t ∧ is_json_content_type t = true)
  ∧ DecisionResponseV1_from_json_slice decision_from_slice (hs_body response) = Ok d.
Proof.
  unfold decode_response. cbv zeta.
  intros [_ [_ [_ [Hs [Hl (t & Ht%ok_or_Ok & [Hj E%map_err_Ok]%fail_Ok)%rbind_Ok]%fail_Ok]%fail_Ok]%fail_Ok]%fail_Ok]%fail_Ok.
  bprop. split_and!; [done|lia| |done]. by exists t.
Qed.

(** An answer that the client accepts: one request to the endpoint with the
    encoded evaluation, answered 200 with a JSON decision within the limit. *)
Definition decided {T W} `{!HttpTransport T W} (client : AuthzenClient T) (e : AccessEvaluation) (w w' : W) (d : DecisionResponseV1) : Prop :=
  ∃ body response,
    AccessRequestV1_to_json_vec evaluation_to_vec e = Ok body
    ∧ send (cl_transport client) (mk_http_request (lit "POST") (cl_endpoint client) (evaluation_headers body) body) w
      = (Ok response, w')
    ∧ hs_status response = 200 ∧ Z.of_nat (length (hs_body response)) ≤ MAX_DOCUMENT_BYTES
    ∧ DecisionResponseV1_from_json_slice decision_from_slice (hs_body response) = Ok d.
Lemma client_evaluate_Ok {T W} `{!HttpTransport T W} (client : AuthzenClient T) e (w w' : W) d :
  client_evaluate client e w = (Ok d, w') → decided client e w w' d.
Proof.
  unfold client_evaluate. destruct (AccessRequestV1_to_json_vec _ e) as [body|] eqn:Hb; [|done]. cbv zeta.
  destruct (send _ _ w) as [answer w1] eqn:Hs. intros E. injection E as E <-.
  apply rbind_Ok in E as (response & ->%map_err_Ok & (? & ? & _ & ?)%decode_response_Ok).
  by exists body, response.
Qed.
End decided.

(** ** Forwarding *)

Section forwarding.
Context `{UriParser} `{HeaderBytesLaws} `{HttpMethods} `{MetadataCodec} `{AuthzenCodec} `{WasiHttp} {W : Type} `{!Wasip3Host W}.
#[local] Set Default Proof Using "All".

(** The client of the component was told [d] about [e]. *)
Definition pdp_decided (client : ComponentClient) (e : AccessEvaluation) (w w' : W) (d : DecisionResponseV1) : Prop :=
  match client with
  | ClientAuthenticated client => decided client e w w' d
  | UnauthenticatedDevelopment client => decided client e w w' d
  end.
Lemma component_evaluate_Ok client e (w w' : W) d :
  component_evaluate client e w = (Ok d, w') → pdp_decided client e w w' d.
Proof using Type. destruct client; apply client_evaluate_Ok. Qed.

Lemma trusted_context_Ok fields headers context :
  to_header_map fields = Ok headers → trusted_auth_context headers = Ok context →
  header_values fields AUTHORIZATION = [] ∧ context_valid context
  ∧ ∃ value, header_values fields AUTH_CONTEXT_HEADER = [as_bytes value] ∧ decode_auth_context value = Ok context.
Proof.
  intros Hh. unfold trusted_auth_context. destruct (get_all headers AUTHORIZATION) eqn:Ha; [|done].
  intros E%map_err_Ok. rewrite <- (to_header_map_values _ _ AUTHORIZATION eq_refl Hh), Ha.
  rewrite <- (to_header_map_values _ _ AUTH_CONTEXT_HEADER eq_refl Hh).
  unfold parse_auth_context in E. destruct (get_all headers AUTH_CONTEXT_HEADER) as [|value [|? ?]]; try discriminate E.
  split_and!; [done|by eapply decode_valid|]. by exists value.
Qed.

Lemma optional_request_id_Ok fields headers rid :
  to_header_map fields = Ok headers → optional_request_id headers = Ok rid →
  header_values fields REQUEST_ID_HEADER = option_list (str_bytes <$> rid)
  ∧ match rid with Some r => is_valid_request_id r = true | None => True end.
Proof.
  intros Hh. rewrite <- (to_header_map_values _ _ REQUEST_ID_HEADER eq_refl Hh). unfold optional_request_id.
  destruct (get_all headers REQUEST_ID_HEADER) as [|v [|? ?]]; [by intros [= <-]| |done].
  intros (r & Hr%ok_or_Ok & [Hv [= <-]]%fail_Ok)%rbind_Ok. apply negb_false_iff in Hv. cbn.
  by rewrite (as_bytes_text _ _ Hr).
Qed.

(** What an evaluation of the component stands for. *)
Definition evaluation_of (config : ComponentConfig) (request : Request) (context : AuthContextV1) (e : AccessEvaluation) : Prop :=
  header_values (request_headers request) AUTHORIZATION = []
  ∧ context_valid context ∧ ac_service_id context = cc_service_id config ∧ context_fits context = true
  ∧ (∃ value, header_values (request_headers request) AUTH_CONTEXT_HEADER = [as_bytes value]
       ∧ decode_auth_context value = Ok context)
  ∧ ∃ path_with_query path method rid, rq_path request = Some path_with_query
      ∧ normalize_policy_path path_with_query = Ok path
      ∧ method_from_bytes (method_name (rq_method request)) = Some method
      ∧ header_values (request_headers request) REQUEST_ID_HEADER = option_list (str_bytes <$> rid)
      ∧ match rid with Some r => is_valid_request_id r = true | None => True end
      ∧ e = http_evaluation context (to_ascii_uppercase method) path rid.
Lemma pep_evaluation_of config request e :
  pep_evaluation config request = Some e → ∃ context, evaluation_of config request context e.
Proof.
  unfold pep_evaluation. destruct (to_header_map _) as [headers|] eqn:Hh; [|done].
  destruct (trusted_auth_context headers) as [context|] eqn:Hc; [|done].
  destruct (optional_request_id headers) as [rid|] eqn:Hr; [|done]. destruct (rq_path request) as [target|] eqn:Hp; [|done].
  destruct (coarse_http_evaluation _ _ _ _ _) as [e'|] eqn:He; [|done]. intros [= <-].
  destruct (trusted_context_Ok _ _ _ Hh Hc) as (Ha & Hv & Hd).
  apply coarse_evaluation_exact in He as (m & path & Hs & Hf & Hm & _ & _ & Hn & _ & _ & ->); [|done].
  destruct (optional_request_id_Ok _ _ _ Hh Hr) as [Hrid Hrv].
  exists context. split_and!; try done. exists target, path, m, rid. by split_and!.
Qed.

Lemma authorize_then_cases {P E T} `{!DecisionProvider P E W} (provider : P) (e : AccessEvaluation) (w : W) :
  (∃ d w', provider_evaluate provider e w = (Ok d, w') ∧ is_allowed d = true
     ∧ ∀ downstream : W → T * W, authorize_then provider e downstream w = let '(v, w'') := downstream w' in (Forwarded v, w''))
  ∨ ∃ status w', (∀ downstream : W → T * W, authorize_then provider e downstream w = (Rejected status, w'))
      ∧ (status = 503 ∨ ∃ d, provider_evaluate provider e w = (Ok d, w') ∧ is_allowed d = false
           ∧ status = if is_authenticated (req_subject e) then 403 else 401).
Proof using Type.
  unfold authorize_then. destruct (provider_evaluate provider e w) as [[d|] w1].
  - destruct (is_allowed d) eqn:Hd; [left; by exists d, w1|right].
    destruct (is_authenticated _) eqn:Ha; [exists 403, w1|exists 401, w1]; (split; [done|right]; exists d; done).
  - right. exists 503, w1. split; [done|by left].
Qed.

(** The two ways in which the handler runs. *)
Inductive pep_run (env : environment) (request : Request) (w : W) : (Handler → result ErrorCode Response * W) → Prop :=
| pep_stops status w'
    (Hreason : status = 503
       ∨ ∃ config context e d, pep_from_environment env = Ok config
           ∧ evaluation_of config request context e
           ∧ pdp_decided (cc_client config) e w w' d ∧ is_allowed d = false
           ∧ status = match ac_principal context with Some _ => 403 | None => 401 end) :
    pep_run env request w (λ _, (rejection_response status, w'))
| pep_forwards config context e d w'
    (Hconfig : pep_from_environment env = Ok config)
    (Hof : evaluation_of config request context e)
    (Hdecided : pdp_decided (cc_client config) e w w' d) (Hallowed : is_allowed d = true) :
    pep_run env request w (λ downstream, downstream request w').
Lemma pep_runs env request w :
  ∃ run, pep_run env request w run ∧ ∀ downstream, http_pep_handle env downstream request w = run downstream.
Proof.
  unfold http_pep_handle. destruct (pep_from_environment env) as [config|] eqn:Hc; [|eexists; split; [apply pep_stops; by left|done]].
  destruct (pep_evaluation config request) as [e|] eqn:He; [|eexists; split; [apply pep_stops; by left|done]].
  apply pep_evaluation_of in He as (context & Hof).
  destruct (authorize_then_cases (T := result ErrorCode Response) (cc_client config) e w)
    as [(d & w' & Hd & Ha & Heq)|(status & w' & Heq & Hst)].
  - eexists. split; [eapply (pep_forwards _ _ _ config context e d w'); [done|done|by apply component_evaluate_Ok|done]|].
    intros downstream. rewrite Heq. by destruct (downstream request w').
  - eexists. split; [apply (pep_stops _ _ _ status w')|intros downstream; by rewrite Heq].
    destruct Hst as [->|(d & Hd & Ha & ->)]; [by left|right]. exists config, context, e, d.
    split_and!; [done|done|by apply component_evaluate_Ok|done|].
    destruct Hof as (_ & _ & _ & _ & _ & ? & ? & ? & ? & _ & _ & _ & _ & _ & ->). cbn. unfold context_subject.
    by destruct (ac_principal context).
Qed.

(** Enforcement.  The component either answers by itself, and the service
    behind it has no part in the answer: 403 if the decision point denied the
    authenticated principal of the trusted context, 401 if it denied an
    anonymous one, 503 in every other case, be it an invalid configuration, a
    missing, duplicated or foreign context, or any failure of the decision
    point.  Or it forwards the request, unchanged, and then the decision
    point answered an explicit allow to the evaluation of this request: its
    trusted context, the configured service, its method and its normalized
    path; and no credential came with it. *)
Theorem pep_forwards_allowed (env : environment) (request : Request) (w : W) :
  (∃ config context e d w', pep_from_environment env = Ok config
     ∧ evaluation_of config request context e
     ∧ pdp_decided (cc_client config) e w w' d ∧ is_allowed d = true
     ∧ ∀ downstream, http_pep_handle env downstream request w = downstream request w')
  ∨ ∃ status w', (∀ downstream, http_pep_handle env downstream request w = (rejection_response status, w'))
      ∧ (status = 503
         ∨ ∃ config context e d, pep_from_environment env = Ok config
             ∧ evaluation_of config request context e
             ∧ pdp_decided (cc_client config) e w w' d ∧ is_allowed d = false
             ∧ status = match ac_principal context with Some _ => 403 | None => 401 end).
Proof.
  destruct (pep_runs env request w) as (run & Hrun & Heq). destruct Hrun as [status w' Hreason|config context e d w' ? ? ? ?].
  - right. by exists status, w'.
  - left. by exists config, context, e, d, w'.
Qed.
End forwarding.

(** ** Behind the middleware *)

Section guarded.
Context `{UriParser} `{HeaderBytesLaws} `{HttpMethods} `{MetadataCodecLaws} `{BrokerCodec} `{AuthzenCodec} `{WasiHttpLaws}
  {W : Type} `{!BrokerWorld W} `{!Wasip3Host W}.
#[local] Set Default Proof Using "All".

Lemma decode_same_bytes v v' : as_bytes v = as_bytes v' → decode_auth_context v = decode_auth_context v'.
Proof. intros Hb. unfold decode_auth_context. by rewrite (to_str_bytes v v' Hb). Qed.
Lemma valid_request_id_bytes r : is_valid_request_id r = true → str_bytes r = r.
Proof.
  unfold is_valid_request_id. intros [_ Hf]%andb_true_iff. apply str_bytes_ascii, Forall_forall.
  change request_id_byte with identifier_byte in Hf. rewrite forallb_bytes, forallb_spec in Hf by apply identifier_byte_lt.
  intros c Hc. by apply identifier_byte_lt, Hf.
Qed.
Lemma option_list_bytes (o : option str) r :
  match o with Some r => is_valid_request_id r = true | None => True end → is_valid_request_id r = true →
  option_list (str_bytes <$> o) = [str_bytes r] → o = Some r.
Proof.
  destruct o as [r'|]; [|done]. cbn. intros Hv Hr. rewrite !valid_request_id_bytes by done. by intros [= ->].
Qed.

(** C14: The guarded service.  Behind [secure-defaults] and the enforcement point
    a service is called at most once for a request of a client, with the
    request changed in its headers only, and only after two decisions on it:
    the broker allowed the only credential of the request (or there was none,
    and anonymous requests are configured), and the decision point explicitly
    allowed exactly the principal the broker named, on the service that both
    components are configured for, with the method and the normalized path of
    this request and the request identifier that is forwarded. *)
Theorem guarded_service (ids : IdSource W) (env pep_env : environment) (request : Request) (w : W) :
  (∃ out, ∀ service, secure_defaults_handle ids env (http_pep_handle pep_env service) request w = out)
  ∨ ∃ forwarded finish rid value context authn pep target path method d w0 w1 w2,
      (∀ service, secure_defaults_handle ids env (http_pep_handle pep_env service) request w =
         let '(response, w3) := service forwarded w2 in (let? r := response in finish r, w3))
      ∧ same_rest request forwarded
      ∧ (∀ m, header_values (request_headers forwarded) m =
              forwarded_values (request_headers request) (as_bytes value) (str_bytes rid) m)
      ∧ secure_request_id ids (request_headers request) w = (Ok rid, w0)
      ∧ from_environment env = Ok authn ∧ pep_from_environment pep_env = Ok pep
      ∧ decode_auth_context value = Ok context ∧ context_valid context
      ∧ ac_service_id context = au_service_id authn ∧ ac_service_id context = cc_service_id pep
      ∧ context_earned request authn context rid w0 w1
      ∧ rq_path request = Some target ∧ normalize_policy_path target = Ok path
      ∧ method_from_bytes (method_name (rq_method request)) = Some method
      ∧ pdp_decided (cc_client pep) (http_evaluation context (to_ascii_uppercase method) path (Some rid)) w1 w2 d
      ∧ is_allowed d = true.
Proof.
  destruct (secure_defaults_runs ids env request w) as (run & Hrun & Heq).
  destruct Hrun as [out _|rid w0 headers cors authn value stage w1 forwarded Hid Hh Hcors Hc Hp Hf].
  { left. exists out. intros service. apply Heq. }
  apply secure_forward_values in Hf as [Hrest Hvals]. apply secure_request_id_valid in Hid as Hvalid.
  destruct (pass_earned _ _ _ _ _ _ _ _ _ Hh Hc Hp) as (context & Hdec & Hcv & Hs & _ & Hway).
  destruct (pep_runs pep_env forwarded w1) as (inner & Hinner & Hpep).
  destruct Hinner as [status w2 _|pep context' e d w2 Hpc Hof Hd Hal].
  { left. eexists. intros service. rewrite Heq, Hpep. reflexivity. }
  right. destruct Hof as (_ & Hcv' & Hs' & _ & (value' & Hval & Hdec') & target & path & method & rid' & Ht & Hn & Hm & Hrv & Hri & ->).
  rewrite Hvals in Hval, Hrv. injection Hval as Hval. rewrite (decode_same_bytes _ _ Hval), Hdec' in Hdec.
  injection Hdec as ->. rewrite (option_list_bytes rid' rid) in Hd by done.
  destruct Hrest as (Hrm & Hrs & Hrp & Hrest). rewrite <- Hrm in Hm. rewrite <- Hrp in Ht.
  exists forwarded, (λ r, finalize_response r cors (Some rid)), rid, value, context, authn, pep, target, path, method, d, w0, w1, w2.
  split_and!; try done; [|by rewrite (decode_same_bytes _ _ Hval)].
  intros service. rewrite Heq, Hpep. done.
Qed.
End guarded.

(** ** What goes over the wire to the decision point

    The enforcement point of [HttpPep] over the WASIp3 transport: which
    deployments its configuration accepts, and the exact request and response
    behind a decision. *)

Section exchange.
Context `{UriParser} `{HeaderBytesLaws} `{HttpMethods} `{AuthzenCodec} `{WasiHttpLaws} {W : Type} `{!Wasip3Host W}.
#[local] Set Default Proof Using "All".

(** ** Configuration *)

Record endpoint_valid (uri : Uri) : Prop := {
  ev_authority : ∃ a, uri_authority uri = Some a ∧ contains_char 64 a = false;
  ev_path : uri_path uri = ACCESS_EVALUATION_PATH;
  ev_query : uri_query uri = None;
}.
(** Encrypted, or inside the runtime. *)
Definition endpoint_secure (uri : Uri) : Prop :=
  scheme_str uri = Some (lit "https")
  ∨ scheme_str uri = Some (lit "http") ∧ ∃ host, uri_host uri = Some host ∧ ends_with (lit ".spin.internal") host = true.
Definition endpoint_loopback (uri : Uri) : Prop :=
  scheme_str uri = Some (lit "http")
  ∧ ∃ host, uri_host uri = Some host ∧ host ∈ [lit "localhost"; lit "127.0.0.1"; lit "::1"; lit "[::1]"].

Lemma valid_parts uri : valid_authority uri = true → valid_path uri = true → endpoint_valid uri.
Proof.
  unfold valid_authority, valid_path. intros Ha Hp. bprop. split; [|tauto|tauto].
  destruct (uri_authority uri) as [a|]; [|done]. exists a. by apply negb_true_iff in Ha.
Qed.
Lemma endpoint_new_Ok value uri : AuthzenEndpoint_new value = Ok uri → endpoint_valid uri ∧ endpoint_secure uri.
Proof.
  unfold AuthzenEndpoint_new. intros (u & _ & [Hf [= <-]]%fail_Ok)%rbind_Ok.
  apply orb_false_iff in Hf as [[Hs Ha]%orb_false_iff Hp]. rewrite negb_false_iff in Hs, Ha, Hp.
  split; [by apply valid_parts|]. apply orb_true_iff in Hs as [Hs|[Hs Hi]%andb_true_iff]; bprop; [by left|right].
  split; [done|]. unfold spin_internal in Hi. destruct (uri_host u) as [h|]; [|done]. by exists h.
Qed.
Lemma loopback_new_Ok value uri : new_loopback_for_dev value = Ok uri → endpoint_valid uri ∧ endpoint_loopback uri.
Proof.
  unfold new_loopback_for_dev. intros (u & _ & [Hf [= <-]]%fail_Ok)%rbind_Ok. apply negb_false_iff in Hf.
  apply andb_true_iff in Hf as [[[Hs Hl]%andb_true_iff Ha]%andb_true_iff Hp]. bprop. split; [by apply valid_parts|].
  split; [done|]. unfold loopback_host in Hl. destruct (uri_host u) as [h|]; [|done]. exists h. by bprop.
Qed.
Lemma with_timeout_Ok ns t : with_timeout Wasip3Transport_new ns = Ok t → MIN_TIMEOUT ≤ w3_timeout_nanos t ≤ MAX_TIMEOUT.
Proof.
  unfold with_timeout, timeout_nanos. intros (n & [Hr [_ [= <-]]%fail_Ok]%fail_Ok & [= <-])%rbind_Ok.
  apply negb_false_iff in Hr. unfold in_range in Hr. bprop. done.
Qed.

Lemma flag_Ok value b : flag value = Ok b → b = bool_decide (value = Some (lit "true")).
Proof.
  unfold flag. destruct value as [v|]; [|intros [= <-]; by rewrite bool_decide_false].
  destruct (bool_decide_reflect (v = lit "false")) as [E|]; [intros [= <-]; by rewrite E, bool_decide_false|].
  destruct (bool_decide_reflect (v = lit "true")) as [E|]; [|done]. intros [= <-]. by rewrite E, bool_decide_true.
Qed.

(** The deployments that the component accepts.  A configuration that loads
    names a valid service and a decision point without user information or
    query, waits between a millisecond and a minute for it, and authenticates
    to it with a bearer token of 16 to 4096 characters over HTTPS or inside
    the runtime; only where the environment allows the loopback host it is
    plain HTTP to that host, and only then, and only where the environment
    says so too, is it not authenticated. *)
Theorem pep_configuration_safe (env : environment) (config : ComponentConfig) (Hload : pep_from_environment env = Ok config) :
  is_token (cc_service_id config) = true
  ∧ ∃ values, try_fold known_value [] env = Ok values
    ∧ let loopback := bool_decide (bmap_get ALLOW_LOOPBACK_ENV values = Some (lit "true")) in
      match cc_client config with
      | ClientAuthenticated client =>
          endpoint_valid (cl_endpoint client)
          ∧ (if loopback then endpoint_loopback (cl_endpoint client) else endpoint_secure (cl_endpoint client))
          ∧ MIN_TIMEOUT ≤ w3_timeout_nanos (ba_inner (cl_transport client)) ≤ MAX_TIMEOUT
          ∧ ∃ token, bmap_get PDP_BEARER_ENV values = Some token
            ∧ 16 ≤ str_len token ≤ 4096 ∧ is_b64token (str_bytes token) = true
            ∧ as_bytes (bt_authorization (ba_token (cl_transport client))) = str_bytes (lit "Bearer " ++ token)
      | UnauthenticatedDevelopment client =>
          endpoint_valid (cl_endpoint client) ∧ endpoint_loopback (cl_endpoint client)
          ∧ MIN_TIMEOUT ≤ w3_timeout_nanos (cl_transport client) ≤ MAX_TIMEOUT
          ∧ bmap_get PDP_BEARER_ENV values = None ∧ loopback = true
          ∧ bmap_get ALLOW_UNAUTHENTICATED_PDP_ENV values = Some (lit "true")
      end.
Proof.
  unfold pep_from_environment in Hload. apply rbind_Ok in Hload as (values & Hv & E).
  apply rbind_Ok in E as (service & Hs%ok_or_Ok & E). apply fail_Ok in E as [Hok E]. apply negb_false_iff in Hok.
  apply rbind_Ok in E as (target & _ & E). apply rbind_Ok in E as (loopback & Hlo & E).
  apply rbind_Ok in E as (endpoint & He%map_err_Ok & E). apply rbind_Ok in E as (ms & _ & E).
  apply rbind_Ok in E as (transport & Ht%map_err_Ok%with_timeout_Ok & E). apply rbind_Ok in E as (unauth & Hun & E).
  apply rbind_Ok in E as (client & Hc & [= <-]). cbn [cc_service_id cc_client]. split; [done|]. exists values. split; [done|]. cbv zeta.
  apply flag_Ok in Hlo. rewrite <- Hlo. apply flag_Ok in Hun.
  assert (endpoint_valid endpoint ∧ if loopback then endpoint_loopback endpoint else endpoint_secure endpoint) as [Hev Hel].
  { clear Hlo Hc. destruct loopback; [by eapply loopback_new_Ok|by eapply endpoint_new_Ok]. }
  destruct (bmap_get PDP_BEARER_ENV values) as [token|] eqn:Htok; destruct unauth; try discriminate Hc.
  - apply rbind_Ok in Hc as (b & Hb%map_err_Ok & [= <-]). cbn. unfold BearerAuthTransport_new in Hb.
    apply rbind_Ok in Hb as (bt & (? & ? & _ & ?)%bearer_new_Ok & [= <-]). split_and!; try done; [apply Ht|apply Ht|].
    by exists token.
  - clear Hlo. destruct loopback; [|done]. injection Hc as <-. cbn. symmetry in Hun. bprop. split_and!; try done; apply Ht.
Qed.

(** ** The exchange *)

Definition request_values (body authorization : list Z) (m : str) : list (list Z) :=
  let lm := to_ascii_lowercase m in
  if bool_decide (lm = CONTENT_TYPE) || bool_decide (lm = ACCEPT) then [str_bytes APPLICATION_JSON]
  else if bool_decide (lm = CONTENT_LENGTH) then [str_bytes (decimal_digits 20 (Z.of_nat (length body)))]
  else if bool_decide (lm = AUTHORIZATION) then [authorization]
  else [].

Lemma evaluation_headers_get body authorization n :
  map as_bytes (get_all (header_insert (evaluation_headers body) AUTHORIZATION authorization) n) =
    if bool_decide (n = CONTENT_TYPE) || bool_decide (n = ACCEPT) then [str_bytes APPLICATION_JSON]
    else if bool_decide (n = CONTENT_LENGTH) then [str_bytes (decimal_digits 20 (Z.of_nat (length body)))]
    else if bool_decide (n = AUTHORIZATION) then [as_bytes authorization] else [].
Proof.
  rewrite get_all_insert. unfold evaluation_headers. rewrite !get_all_append, get_all_empty.
  assert (as_bytes (from_static (decimal_digits 20 (Z.of_nat (length body))))
          = str_bytes (decimal_digits 20 (Z.of_nat (length body)))) as Hlen
    by (apply as_bytes_static, decimal_digits_visible; lia).
  repeat case_bool_decide; subst; try discriminate; cbn [map app orb];
    by rewrite ?Hlen, ?(as_bytes_static APPLICATION_JSON).
Qed.

(** C30: A decision is an exchange.  Whenever the authenticated client of the
    component returns a decision, it sent exactly one request: a POST to the
    authority and path of its endpoint, with the encoded evaluation as body,
    with its bearer credential and the three headers that describe the body,
    and nothing else of the client's request; and the answer was 200, ended
    regularly within 64 KiB, and is a document that decodes to the decision. *)
Theorem pdp_exchange_exact (client : AuthzenClient (BearerAuthTransport Wasip3Transport)) (e : AccessEvaluation) (w w' : W)
    (d : DecisionResponseV1) (Hd : component_evaluate (ClientAuthenticated client) e w = (Ok d, w')) :
  ∃ body outgoing fields pre chunk post,
    AccessRequestV1_to_json_vec evaluation_to_vec e = Ok body
    ∧ client_exchange (w3_timeout_nanos (ba_inner (cl_transport client))) outgoing body w
      = (Received 200 fields (map ChunkComplete pre ++ ChunkDropped chunk (Ok tt) true :: post), w')
    ∧ rq_method outgoing = MPost
    ∧ rq_authority outgoing = uri_authority (cl_endpoint client) ∧ rq_path outgoing = path_and_query (cl_endpoint client)
    ∧ rq_body outgoing = outgoing_body body
    ∧ (∀ m, header_values (request_headers outgoing) m =
            request_values body (as_bytes (bt_authorization (ba_token (cl_transport client)))) m)
    ∧ Z.of_nat (length (concat pre ++ chunk)) ≤ MAX_DOCUMENT_BYTES
    ∧ DecisionResponseV1_from_json_slice decision_from_slice (concat pre ++ chunk) = Ok d.
Proof.
  apply component_evaluate_Ok in Hd. destruct Hd as (body & response & Hb & Hs & Hst & _ & Hdec).
  cbn [send bearer_transport] in Hs. unfold bearer_send in Hs. cbn [hq_headers] in Hs.
  destruct (get_all (evaluation_headers body) AUTHORIZATION); [|done].
  apply wasip3_send_Ok in Hs as (outgoing & fields & pre & chunk & post & Hsent & Hx & _ & Hbody & Hl & _).
  rewrite Hst in Hx. rewrite Hbody in Hl, Hdec. destruct Hsent as [Hf Hm _ [_ Ha] [_ Hp] _ Ho].
  exists body, outgoing, fields, pre, chunk, post. split_and!; try done.
  intros m. unfold request_headers. rewrite (values_from_list _ _ m Hf), lower_header_map_values.
  - apply evaluation_headers_get.
  - intros n Hn. apply header_keys_spec in Hn. cbn in Hn.
    pose proof (evaluation_headers_get body (bt_authorization (ba_token (cl_transport client))) n) as Hg.
    unfold lower_name. repeat case_bool_decide; subst; try done. by apply map_eq_nil in Hg.
Qed.
End exchange.
