(* ===== verification/CedarEngine.v ===== *)
(** * CedarEngine: the interface of the [cedar-policy] crate

    What the two Cedar providers use of the engine, as a class, with the part
    of its documentation that the theorems rely on; and the entity document
    that both providers write. *)

From S2P Require Export Collections.
Open Scope Z_scope.

Class CedarEngine := {
  PolicySet : Type;
  Schema : Type;
  Entities : Type;
  EntityTypeName : Type;
  EntityUid : Type;
  CedarContext : Type;
  CedarRequest : Type;
  policies_from_str : str → option PolicySet;
  schema_from_json_str : str → option Schema;
  (** [Validator::validate] in strict mode passed. *)
  validation_passed : Schema → PolicySet → bool;
  entities_from_json_str : str → option Schema → option Entities;
  entities_from_json_value : Value → option Schema → option Entities;
  upsert_entities : Entities → Entities → option Schema → option Entities;
  type_name_from_str : str → option EntityTypeName;
  type_name_text : EntityTypeName → str;
  (** [EntityId::from_str] accepts every string. *)
  from_type_name_and_id : EntityTypeName → str → EntityUid;
  uid_type_name : EntityUid → EntityTypeName;
  uid_id : EntityUid → str;
  entity_ancestors : Entities → EntityUid → option (list EntityUid);
  context_from_json_value : Value → option (Schema * EntityUid) → option CedarContext;
  cedar_request_new : EntityUid → EntityUid → EntityUid → CedarContext → option Schema → option CedarRequest;
  (** [Authorizer::is_authorized]: whether the decision is [Allow], and the
      number of policies whose evaluation failed. *)
  is_authorized : CedarRequest → PolicySet → Entities → bool * nat;
  (** URL-safe Base64 without padding. *)
  url_safe_no_pad : list Z → str;
}.
Class CedarLaws `{CedarEngine} : Prop := {
  uid_parts t i : uid_type_name (from_type_name_and_id t i) = t ∧ uid_id (from_type_name_and_id t i) = i;
  url_safe_no_pad_inj b b' : url_safe_no_pad b = url_safe_no_pad b' → b = b';
}.

Section documents.
Context `{CedarEngine}.

Definition ancestors (entities : Entities) (uid : EntityUid) : list EntityUid :=
  default [] (entity_ancestors entities uid).
Definition reference_json (uid : EntityUid) : Value :=
  VObject [(lit "id", VString (uid_id uid)); (lit "type", VString (type_name_text (uid_type_name uid)))].
Definition entity_json (uid : EntityUid) (attributes : bmap Value) (parents : list EntityUid) : Value :=
  VObject [(lit "attrs", VObject attributes);
           (lit "parents", VArray (map (λ parent, VObject [(lit "__entity", reference_json parent)]) parents));
           (lit "uid", reference_json uid)].
End documents.

(** An engine that allows every question: the laws can hold. *)
Definition allow_all : CedarEngine := {|
  PolicySet := str;
  Schema := unit;
  Entities := list Value;
  EntityTypeName := str;
  EntityUid := (str * str)%type;
  CedarContext := Value;
  CedarRequest := ((str * str) * (str * str) * (str * str) * Value)%type;
  policies_from_str s := Some s;
  schema_from_json_str _ := Some tt;
  validation_passed _ _ := true;
  entities_from_json_str _ _ := Some [];
  entities_from_json_value v _ := Some [v];
  upsert_entities a b _ := Some (a ++ b);
  type_name_from_str s := Some s;
  type_name_text s := s;
  from_type_name_and_id t i := (t, i);
  uid_type_name := fst;
  uid_id := snd;
  entity_ancestors _ _ := None;
  context_from_json_value v _ := Some v;
  cedar_request_new p a r c _ := Some (p, a, r, c);
  is_authorized _ _ _ := (true, 0%nat);
  url_safe_no_pad b := b;
|}.
Lemma allow_all_laws : @CedarLaws allow_all.
Proof. split; [done|]. by intros b b' E. Qed.
