(* ===== verification/CedarPdp.v ===== *)
(** * CedarPdp: the embedded Cedar provider and its AuthZEN service

    Models src/crates/wasi-authz-cedar/src/lib.rs (the provider),
    src/services/cedar-pdp/src/lib.rs (the AuthZEN service core) and
    src/components/cedar-pdp/src/lib.rs (the component that authenticates its
    callers).  The engine is [CedarEngine]; diagnostic output is left out. *)

From S2P Require Export CedarEngine HttpPep.
Open Scope Z_scope.

#[local] Arguments lit : simpl never.

Inductive CedarError :=
| InvalidPolicy | InvalidSchema | PolicyValidation | InvalidMetadata | InvalidIdentifier | InvalidEntity
| InvalidCedarRequest | Indeterminate | UnsupportedConsistency.
#[export] Instance CedarError_eq_dec : EqDecision CedarError.
Proof. solve_decision. Defined.

Definition CAPABILITIES : list ProviderCapability :=
  [BoundedAuthzenV1; AnonymousSubjects; TypedAttributes; AttributeProvenance; RelationshipHierarchy;
   MinimizeLatencyConsistency; FullyConsistentConsistency].

(** ** Attributes *)

Definition is_cedar_identifier (value : str) : bool :=
  match str_bytes value with
  | [] => false
  | b :: bytes =>
      (is_ascii_lowercase b || is_ascii_uppercase b || (b =? 95))
      && forallb (λ b, is_ascii_alphanumeric b || (b =? 95)) bytes
  end.
Definition provenance (value : AttributeProvenanceV1) : str :=
  match value with
  | IdentityProvider => lit "identity_provider"
  | ResourceStore => lit "resource_store"
  | Application => lit "application"
  | Gateway => lit "gateway"
  | PolicyInformationPoint => lit "policy_information_point"
  end.
(** The text of an [i64]. *)
Definition integer_text (n : Z) : str := if n <? 0 then 45 :: decimal_digits 20 (- n) else decimal_digits 20 n.
Definition attribute_value (value : AttributeValueV1) : Value :=
  match value with
  | AString value => VString value
  | AInteger value => VNumber (integer_text value)
  | ABoolean value => VBool value
  | AStringList values => VArray (map VString values)
  end.
Definition attribute_json (a : AttributeV1) : Value :=
  VObject [(lit "provenance", VString (provenance (attr_provenance a))); (lit "value", attribute_value (attr_value a))].
Definition insert_attribute (result : bmap Value) (a : AttributeV1) : Prelude.result CedarError (bmap Value) :=
  fail? negb (is_cedar_identifier (attr_name a)) || starts_with (lit "wasi_") (attr_name a) with InvalidIdentifier ;;
  Ok (bmap_insert (attr_name a) (attribute_json a) result).
Definition attributes_to_json (attributes : AttributesV1) : result CedarError (bmap Value) :=
  try_fold insert_attribute [] attributes.

(** ** The provider *)

Section provider.
Context `{CedarEngine}.

Record CedarProvider := mk_cedar {
  ce_policies : PolicySet;
  ce_schema : option Schema;
  ce_trusted_entities : Entities;
  ce_policy_revision : str;
  ce_model_version : str;
}.
Definition bounded_metadata {A} (r : result ContractError A) : result CedarError A := map_err (λ _, InvalidMetadata) r.
Definition new_unvalidated_for_test (policy_source trusted_entities_json policy_revision model_version : str) :
    result CedarError CedarProvider :=
  let? policies := ok_or (policies_from_str policy_source) InvalidPolicy in
  let? trusted_entities := ok_or (entities_from_json_str trusted_entities_json None) InvalidEntity in
  let? policy_revision := bounded_metadata (PolicyRevisionV1_new policy_revision) in
  let? model_version := bounded_metadata (ModelVersionV1_new model_version) in
  Ok (mk_cedar policies None trusted_entities policy_revision model_version).
Definition new_validated (policy_source schema_source trusted_entities_json policy_revision model_version : str) :
    result CedarError CedarProvider :=
  let? policies := ok_or (policies_from_str policy_source) InvalidPolicy in
  let? schema := ok_or (schema_from_json_str schema_source) InvalidSchema in
  fail? negb (validation_passed schema policies) with PolicyValidation ;;
  let? trusted_entities := ok_or (entities_from_json_str trusted_entities_json (Some schema)) InvalidEntity in
  let? policy_revision := bounded_metadata (PolicyRevisionV1_new policy_revision) in
  let? model_version := bounded_metadata (ModelVersionV1_new model_version) in
  Ok (mk_cedar policies (Some schema) trusted_entities policy_revision model_version).

Definition cedar_decision (provider : CedarProvider) (allowed : bool) : result CedarError DecisionResponseV1 :=
  let? model := bounded_metadata (ModelNameV1_new (lit "cedar")) in
  let? reason := bounded_metadata (ReasonCodeV1_new (if allowed then lit "cedar.allow" else lit "cedar.deny")) in
  let metadata := mk_metadata None (Some (ce_policy_revision provider)) (Some model) (Some (ce_model_version provider))
                    (Some reason) None in
  Ok (if allowed then DecisionResponseV1_allow metadata else DecisionResponseV1_deny metadata).

Definition canonical_principal_id (subject : AuthenticatedSubjectV1) : str :=
  lit "v1_" ++ url_safe_no_pad (str_bytes (issuer subject) ++ [0] ++ str_bytes (subject_id subject)).
Definition uid (entity_type id : str) : result CedarError EntityUid :=
  let? entity_type := ok_or (type_name_from_str entity_type) InvalidIdentifier in
  Ok (from_type_name_and_id entity_type id).
Definition principal_uid (subject : SubjectV1) : result CedarError EntityUid :=
  match subject with
  | Contract.Anonymous => uid (lit "Anonymous") (lit "anonymous")
  | Contract.Authenticated subject => uid (subject_type subject) (canonical_principal_id subject)
  end.

Definition principal_attributes (subject : SubjectV1) : result CedarError (bmap Value) :=
  match subject with
  | Contract.Anonymous => Ok []
  | Contract.Authenticated subject =>
      let? attributes := attributes_to_json (subject_attributes subject) in
      let attributes := bmap_insert (lit "wasi_issuer") (VString (issuer subject)) attributes in
      let attributes := bmap_insert (lit "wasi_scopes") (VArray (map VString (scopes subject))) attributes in
      Ok (match subject_tenant_id subject with
          | Some tenant_id => bmap_insert (lit "wasi_tenant_id") (VString tenant_id) attributes
          | None => attributes
          end)
  end.
Definition entities (evaluation : AccessEvaluation) (principal resource : EntityUid) (schema : option Schema)
    (trusted_entities : Entities) : result CedarError Entities :=
  fail? negb (bool_decide (action_attributes (req_action evaluation) = [])) with InvalidEntity ;;
  let? principal_attributes := principal_attributes (req_subject evaluation) in
  let principal_parents := ancestors trusted_entities principal in
  let resource_parents := ancestors trusted_entities resource in
  let? resource_attributes := attributes_to_json (resource_attributes (req_resource evaluation)) in
  let dynamic := VArray [entity_json principal principal_attributes principal_parents;
                         entity_json resource resource_attributes resource_parents] in
  let? dynamic := ok_or (entities_from_json_value dynamic schema) InvalidEntity in
  ok_or (upsert_entities trusted_entities dynamic schema) InvalidEntity.
Definition request_context (evaluation : AccessEvaluation) (action : EntityUid) (schema : option Schema) :
    result CedarError CedarContext :=
  let? attributes := match req_context evaluation with
                     | Some context => attributes_to_json (context_attributes context)
                     | None => Ok []
                     end in
  ok_or (context_from_json_value (VObject attributes) ((λ schema, (schema, action)) <$> schema)) InvalidEntity.

Definition at_least_as_fresh (evaluation : AccessEvaluation) : bool :=
  match req_context evaluation ≫= consistency with Some (AtLeastAsFresh _) => true | _ => false end.
(** The question put to the engine. *)
Definition cedar_question (provider : CedarProvider) (evaluation : AccessEvaluation) :
    result CedarError (CedarRequest * Entities) :=
  fail? at_least_as_fresh evaluation with UnsupportedConsistency ;;
  let? principal := principal_uid (req_subject evaluation) in
  let? action := uid (lit "Action") (action_name (req_action evaluation)) in
  let? resource := uid (resource_type (req_resource evaluation)) (resource_id (req_resource evaluation)) in
  let? entities := entities evaluation principal resource (ce_schema provider) (ce_trusted_entities provider) in
  let? context := request_context evaluation action (ce_schema provider) in
  let? request := ok_or (cedar_request_new principal action resource context (ce_schema provider)) InvalidCedarRequest in
  Ok (request, entities).
Definition evaluate_sync (provider : CedarProvider) (evaluation : AccessEvaluation) : result CedarError DecisionResponseV1 :=
  let? question := cedar_question provider evaluation in
  let '(allowed, errors) := is_authorized question.1 (ce_policies provider) question.2 in
  fail? negb (errors =? 0)%nat with Indeterminate ;;
  cedar_decision provider allowed.
#[export] Instance cedar_provider {W} : DecisionProvider CedarProvider CedarError W := {|
  capabilities _ := CAPABILITIES;
  provider_evaluate provider evaluation w := (evaluate_sync provider evaluation, w);
|}.
End provider.

(** ** The service core *)

Definition ALLOW : str := lit "allow".

(** The JSON text of the documents the service reads and writes. *)
Class PdpCodec := {
  evaluation_from_slice : list Z → option RequestWire;
  decision_to_vec : DecisionWire → option (list Z);
}.

Section service.
Context `{UriParser} `{HeaderBytes} `{CedarEngine} `{PdpCodec}.

Definition insert_common_headers (headers : HeaderMap) (length : Z) : HeaderMap :=
  let headers := header_insert headers CACHE_CONTROL (from_static (lit "no-store")) in
  match from_str (decimal_digits 20 length) with
  | Some value => header_insert headers CONTENT_LENGTH value
  | None => headers
  end.
Definition json_response (status : Z) (body : list Z) : HttpResponse :=
  let headers := header_insert empty_headers CONTENT_TYPE (from_static APPLICATION_JSON) in
  mk_http_response status (insert_common_headers headers (Z.of_nat (length body))) body.
Definition pdp_empty_response (status : Z) (additional : list (str * HeaderValue)) : HttpResponse :=
  let headers := foldl (λ headers h, header_insert headers h.1 h.2) empty_headers additional in
  mk_http_response status (insert_common_headers headers 0) [].

Definition has_single_json_content_type (headers : HeaderMap) : bool :=
  match get_all headers CONTENT_TYPE with
  | [value] => match to_str value with Some value => is_json_content_type value | None => false end
  | _ => false
  end.
Definition has_valid_content_length (headers : HeaderMap) (actual : Z) : bool :=
  match get_all headers CONTENT_LENGTH with
  | [value] => bool_decide (to_str value ≫= parse_usize = Some actual)
  | _ => false
  end.

Definition pdp_handle (provider : CedarProvider) (request : HttpRequest) : HttpResponse :=
  if negb (bool_decide (hq_method request = lit "POST")) then
    pdp_empty_response 405 [(ALLOW, from_static (lit "POST"))]
  else if negb (bool_decide (uri_path (hq_uri request) = ACCESS_EVALUATION_PATH))
          || negb (bool_decide (uri_query (hq_uri request) = None)) then pdp_empty_response 404 []
  else if negb (has_single_json_content_type (hq_headers request)) then pdp_empty_response 415 []
  else if MAX_DOCUMENT_BYTES <? Z.of_nat (length (hq_body request)) then pdp_empty_response 413 []
  else if negb (has_valid_content_length (hq_headers request) (Z.of_nat (length (hq_body request)))) then
    pdp_empty_response 400 []
  else
    match AccessRequestV1_from_json_slice evaluation_from_slice (hq_body request) with
    | Err _ => pdp_empty_response 400 []
    | Ok evaluation =>
        let request_id := req_context evaluation ≫= request_id in
        match evaluate_sync provider evaluation with
        | Err _ => pdp_empty_response 503 []
        | Ok decision =>
            match DecisionResponseV1_to_json_vec decision_to_vec decision with
            | Err _ => pdp_empty_response 503 []
            | Ok body =>
                let response := json_response 200 body in
                match request_id ≫= from_str with
                | Some value =>
                    mk_http_response (hs_status response)
                      (header_insert (hs_headers response) REQUEST_ID_HEADER value) (hs_body response)
                | None => response
                end
            end
        end
    end.

(** ** The component *)

Definition PDP_DEVELOPMENT_ENV : str := lit "WASI_AUTHZ_PDP_ALLOW_UNAUTHENTICATED_INTERNAL_DEV".

Inductive PepAuthentication := Bearer (token : BearerToken) | UnauthenticatedInternalDevelopment.

Definition note_variable (values : option str * option str) (entry : str * str) :
    result unit (option str * option str) :=
  if bool_decide (entry.1 = PDP_BEARER_ENV) then
    fail? bool_decide (values.1 ≠ None) with tt ;; Ok (Some entry.2, values.2)
  else if bool_decide (entry.1 = PDP_DEVELOPMENT_ENV) then
    fail? bool_decide (values.2 ≠ None) with tt ;; Ok (values.1, Some entry.2)
  else Ok values.
Definition pep_authentication (env : environment) : result unit PepAuthentication :=
  let? values := try_fold note_variable (None, None) env in
  match values.1 with
  | Some token => let? token := map_err (λ _, tt) (BearerToken_new token) in Ok (Bearer token)
  | None =>
      if bool_decide (values.2 = Some (lit "true")) then Ok UnauthenticatedInternalDevelopment else Err tt
  end.

(** The loop over the longer length; a missing byte counts as zero. *)
Definition byte_at (bytes : list Z) (index : nat) : Z := default 0 (bytes !! index).
Definition constant_time_eq (actual expected : list Z) : bool :=
  let difference := Z.lxor (Z.of_nat (length actual)) (Z.of_nat (length expected)) in
  foldl (λ difference index, Z.lor difference (Z.lxor (byte_at actual index) (byte_at expected index)))
        difference (seq 0 (Nat.max (length actual) (length expected))) =? 0.
Definition authorizes (authentication : PepAuthentication) (headers : HeaderMap) : bool :=
  match authentication with
  | UnauthenticatedInternalDevelopment => true
  | Bearer expected =>
      match get_all headers AUTHORIZATION with
      | [value] =>
          match strip_prefix (lit "Bearer ") (as_bytes value) with
          | Some actual => constant_time_eq actual (bt_token expected)
          | None => false
          end
      | _ => false
      end
  end.

Definition content_length_exceeds_limit (headers : HeaderMap) : bool :=
  match get_all headers CONTENT_LENGTH with
  | [] => false
  | [value] =>
      match to_str value ≫= parse_usize with
      | Some length => MAX_DOCUMENT_BYTES <? length
      | None => true
      end
  | _ :: _ :: _ => true
  end.

(** A frame of the incoming body: data, anything else, or a failure. *)
Inductive Frame := Data (data : list Z) | NoData | FrameError (error : ErrorCode).
Fixpoint collect_frames (collected : list Z) (frames : list Frame) : result ErrorCode (Z + list Z) :=
  match frames with
  | [] => Ok (inr collected)
  | FrameError error :: _ => Err error
  | NoData :: _ => Ok (inl 400)
  | Data data :: frames =>
      if MAX_DOCUMENT_BYTES <? u64_saturating_add (Z.of_nat (length collected)) (Z.of_nat (length data))
      then Ok (inl 413)
      else collect_frames (collected ++ data) frames
  end.

Definition component_empty_response (status : Z) : HttpResponse :=
  mk_http_response status
    (header_insert (header_insert empty_headers CACHE_CONTROL (from_static (lit "no-store")))
       CONTENT_LENGTH (from_static (lit "0"))) [].
Definition unauthorized_response : HttpResponse :=
  let response := component_empty_response 401 in
  mk_http_response 401 (header_insert (hs_headers response) WWW_AUTHENTICATE (from_static (lit "Bearer"))) [].

(** [ComponentConfig::initialize]; the three documents are the fixtures that
    the component is built with. *)
Definition initialize (policy schema trusted : str) (env : environment) :
    result unit (CedarProvider * PepAuthentication) :=
  let? authentication := pep_authentication env in
  let? pdp := map_err (λ _, tt) (new_validated policy schema trusted (lit "http-policy-1") (lit "cedar-4.11.2")) in
  Ok (pdp, authentication).
(** [handle] on the head of the request, as the runtime converts it, and the
    frames of its body. *)
Definition component_handle (policy schema trusted : str) (env : environment) (head : HttpRequest) (frames : list Frame) :
    result ErrorCode HttpResponse :=
  match initialize policy schema trusted env with
  | Err _ => Ok (component_empty_response 503)
  | Ok (pdp, authentication) =>
      if negb (authorizes authentication (hq_headers head)) then Ok unauthorized_response
      else
        let headers := header_remove (hq_headers head) AUTHORIZATION in
        if content_length_exceeds_limit headers then Ok (component_empty_response 413)
        else
          let? collected := collect_frames [] frames in
          match collected with
          | inl status => Ok (component_empty_response status)
          | inr body => Ok (pdp_handle pdp (mk_http_request (hq_method head) (hq_uri head) headers body))
          end
  end.
End service.
