(* ===== verification/CedarProofs.v ===== *)
(** * CedarProofs: what a Cedar decision rests on

    Who the principal of a question is and what the policies may believe of
    it; whom the service answers; and that asking the service is asking the
    embedded provider. *)

From S2P Require Export CedarPdp.
Open Scope Z_scope.

#[local] Arguments lit : simpl never.

(** ** Comparing tokens *)

Lemma fold_lor_zero {A} (f : A → Z) l d : foldl (λ d x, Z.lor d (f x)) d l = 0 ↔ d = 0 ∧ ∀ x, x ∈ l → f x = 0.
Proof.
  revert d. induction l as [|x l IH]; intros d; cbn; [set_solver|].
  rewrite IH, Z.lor_eq_0_iff. set_solver.
Qed.
Lemma constant_time_eq_spec a b : constant_time_eq a b = true ↔ a = b.
Proof.
  unfold constant_time_eq. rewrite Z.eqb_eq, fold_lor_zero, Z.lxor_eq_0_iff. split.
  - intros [Hl Hx]. apply list_eq. intros i. apply Nat2Z.inj in Hl.
    destruct (decide (i < length a)%nat) as [Hi|Hi].
    + assert (byte_at a i = byte_at b i) as E.
      { apply Z.lxor_eq_0_iff, Hx. apply list_elem_of_In, in_seq. lia. }
      unfold byte_at in E. destruct (lookup_lt_is_Some_2 a i Hi) as [x Hax].
      destruct (lookup_lt_is_Some_2 b i) as [y Hby]; [lia|]. rewrite Hax, Hby in *. cbn in E. congruence.
    + rewrite !lookup_ge_None_2 by lia. done.
  - intros ->. split; [done|]. intros x _. apply Z.lxor_nilpotent.
Qed.

(** ** Attributes *)

Definition attribute_named (attributes : AttributesV1) (k : str) : option AttributeV1 :=
  last (filter (λ a, attr_name a = k) attributes).
Lemma insert_attributes_Ok attributes : ∀ m0 m,
  msorted m0 → try_fold insert_attribute m0 attributes = Ok m →
  msorted m ∧ (∀ a, a ∈ attributes → starts_with (lit "wasi_") (attr_name a) = false)
  ∧ ∀ k, bmap_get k m = match attribute_named attributes k with Some a => Some (attribute_json a) | None => bmap_get k m0 end.
Proof.
  unfold attribute_named. induction attributes as [|a attributes IH]; intros m0 m Hs; cbn [try_fold].
  { intros [= <-]. split_and!; [done|set_solver|done]. }
  intros (m1 & [[_ Hw]%orb_false_iff [= <-]]%fail_Ok & E)%rbind_Ok.
  apply IH in E as (Hs1 & Hn & Hg); [|by apply bmap_insert_sorted]. split_and!; [done|set_solver|].
  intros k. rewrite Hg, filter_cons, bmap_get_insert by done.
  destruct (decide (attr_name a = k)) as [E|E].
  - rewrite bool_decide_true by done. rewrite last_cons. by destruct (last _).
  - by rewrite bool_decide_false by (intros E'; by apply E).
Qed.
Lemma attributes_to_json_Ok attributes m :
  attributes_to_json attributes = Ok m →
  msorted m ∧ (∀ k, bmap_get k m = attribute_json <$> attribute_named attributes k)
  ∧ ∀ k, starts_with (lit "wasi_") k = true → bmap_get k m = None.
Proof.
  intros E. apply insert_attributes_Ok in E as (Hs & Hn & Hg); [|constructor].
  assert (∀ k, bmap_get k m = attribute_json <$> attribute_named attributes k) as Hget
    by (intros k; rewrite Hg; by destruct (attribute_named attributes k)).
  split_and!; [done|done|]. intros k Hk. rewrite Hget. unfold attribute_named.
  destruct (last _) as [a|] eqn:El; [|done].
  apply last_Some_elem_of, list_elem_of_filter in El as [<- Ha]. rewrite (Hn a Ha) in Hk. done.
Qed.

(** ** The question *)

Section question.
Context `{CedarLaws}.
#[local] Set Default Proof Using "All".

(** The reserved facts of a principal.  Whatever attributes came with an
    evaluation, the policies see as issuer, scopes and tenant of the principal
    exactly those of the authenticated subject, and no tenant where it has
    none; every other attribute is one of the subject, with its value and its
    provenance. *)
Theorem cedar_principal_facts (subject : AuthenticatedSubjectV1) (m : bmap Value)
    (Hm : principal_attributes (Contract.Authenticated subject) = Ok m) :
  bmap_get (lit "wasi_issuer") m = Some (VString (issuer subject))
  ∧ bmap_get (lit "wasi_scopes") m = Some (VArray (map VString (scopes subject)))
  ∧ bmap_get (lit "wasi_tenant_id") m = VString <$> subject_tenant_id subject
  ∧ ∀ k, k ∉ [lit "wasi_issuer"; lit "wasi_scopes"; lit "wasi_tenant_id"] →
      bmap_get k m = attribute_json <$> attribute_named (subject_attributes subject) k.
Proof.
  unfold principal_attributes in Hm. apply rbind_Ok in Hm as (m0 & (Hs & Hg & Hw)%attributes_to_json_Ok & E). injection E as <-.
  set (m1 := bmap_insert (lit "wasi_issuer") _ m0). set (m2 := bmap_insert (lit "wasi_scopes") _ m1).
  assert (msorted m1) as Hs1 by (by apply bmap_insert_sorted). assert (msorted m2) as Hs2 by (by apply bmap_insert_sorted).
  assert (∀ k, bmap_get k m2 = if bool_decide (k = lit "wasi_scopes") then Some (VArray (map VString (scopes subject)))
     else if bool_decide (k = lit "wasi_issuer") then Some (VString (issuer subject)) else bmap_get k m0) as Hg2
    by (intros k; unfold m2; rewrite bmap_get_insert by done; unfold m1; by rewrite bmap_get_insert).
  assert (∀ k, bmap_get k (match subject_tenant_id subject with Some t => bmap_insert (lit "wasi_tenant_id") (VString t) m2 | None => m2 end)
     = if bool_decide (k = lit "wasi_tenant_id") then VString <$> subject_tenant_id subject else bmap_get k m2) as Hg3.
  { intros k. destruct (subject_tenant_id subject) as [t|]; [by rewrite bmap_get_insert|].
    case_bool_decide as E; [|done]. rewrite Hg2, E. cbn. by apply Hw. }
  split_and!; [by rewrite Hg3, Hg2|by rewrite Hg3, Hg2|by rewrite Hg3|].
  intros k Hk. rewrite Hg3, Hg2, !bool_decide_false by set_solver. apply Hg.
Qed.

(** Principals are not confused.  Two subjects that Cedar sees as the same
    entity are both anonymous, or have the same type, issuer and identifier:
    an identifier of one identity provider never stands for one of another,
    and no authenticated subject is the anonymous entity. *)
Theorem cedar_principals_distinct (s s' : SubjectV1) (u : EntityUid)
    (Hs : wire_subject s) (Hs' : wire_subject s')
    (Htext : ∀ a, s = Contract.Authenticated a ∨ s' = Contract.Authenticated a →
       wf_str (issuer a) = true ∧ wf_str (subject_id a) = true)
    (Hu : principal_uid s = Ok u) (Hu' : principal_uid s' = Ok u) :
  match s, s' with
  | Contract.Anonymous, Contract.Anonymous => True
  | Contract.Authenticated a, Contract.Authenticated a' =>
      issuer a = issuer a' ∧ subject_id a = subject_id a'
      ∧ type_name_from_str (subject_type a) = type_name_from_str (subject_type a')
  | _, _ => False
  end.
Proof.
  assert (∀ ty id v, uid ty id = Ok v → type_name_from_str ty = Some (uid_type_name v) ∧ uid_id v = id) as Huid.
  { intros ty id v (t & Ht%ok_or_Ok & [= <-])%rbind_Ok. destruct (uid_parts t id) as [-> ->]. done. }
  destruct s as [|a], s' as [|a']; cbn [principal_uid] in Hu, Hu'; [done| | |].
  - apply Huid in Hu as [_ Hu], Hu' as [_ Hu']. rewrite Hu in Hu'. discriminate Hu'.
  - apply Huid in Hu as [_ Hu], Hu' as [_ Hu']. rewrite Hu' in Hu. discriminate Hu.
  - apply Huid in Hu as [Ht Hu], Hu' as [Ht' Hu']. rewrite Hu in Hu'. unfold canonical_principal_id in Hu'.
    apply app_inv_head, url_safe_no_pad_inj in Hu'.
    destruct Hs as [[_ _ Hi _ _ _ _ _] _], Hs' as [[_ _ Hi' _ _ _ _ _] _].
    apply text_valid_spec in Hi as (_ & _ & _ & Hi), Hi' as (_ & _ & _ & Hi').
    destruct (Htext a (or_introl eq_refl)), (Htext a' (or_intror eq_refl)).
    apply nul_joined_inj in Hu' as [? ?]; [|done..]. split_and!; [done|done|congruence].
Qed.

(** Only an answer of the engine decides: [evaluate_sync] allows exactly when
    the engine allowed the question without a failed policy. *)
Lemma evaluate_sync_Ok provider e d :
  evaluate_sync provider e = Ok d →
  ∃ request entities, cedar_question provider e = Ok (request, entities)
    ∧ is_authorized request (ce_policies provider) entities = (is_allowed d, 0%nat)
    ∧ cedar_decision provider (is_allowed d) = Ok d.
Proof.
  unfold evaluate_sync. intros ([request entities] & Hq & E)%rbind_Ok. cbn [fst snd] in E.
  destruct (is_authorized request (ce_policies provider) entities) as [allowed errors] eqn:Ha.
  apply fail_Ok in E as [Hn E]. apply negb_false_iff, Nat.eqb_eq in Hn as ->.
  assert (is_allowed d = allowed) as Hd.
  { unfold cedar_decision in E. bind_inv E. injection E as <-. by destruct allowed. }
  exists request, entities. rewrite Hd. by split_and!.
Qed.
Definition provider_made (provider : CedarProvider) : Prop :=
  (∃ p s t r m, new_validated p s t r m = Ok provider) ∨ ∃ p t r m, new_unvalidated_for_test p t r m = Ok provider.
Lemma provider_made_bounded provider :
  provider_made provider →
  text_valid (ce_policy_revision provider) MAX_REVISION_LEN = true ∧ text_valid (ce_model_version provider) MAX_REVISION_LEN = true.
Proof.
  intros [(p & s & t & r & m & E)|(p & t & r & m & E)].
  - unfold new_validated in E. bind_inv E. injection E as <-.
    repeat match goal with H : bounded_metadata _ = Ok _ |- _ => apply map_err_Ok, bounded_text_Ok in H as [-> ?] end. done.
  - unfold new_unvalidated_for_test in E. bind_inv E. injection E as <-.
    repeat match goal with H : bounded_metadata _ = Ok _ |- _ => apply map_err_Ok, bounded_text_Ok in H as [-> ?] end. done.
Qed.
Lemma decision_wf provider allowed d :
  provider_made provider → cedar_decision provider allowed = Ok d → wf_metadata (Contract.metadata d).
Proof.
  intros [Hr Hm]%provider_made_bounded E. unfold cedar_decision in E. bind_inv E. injection E as <-.
  repeat match goal with H : bounded_metadata _ = Ok _ |- _ => apply map_err_Ok, bounded_identifier_Ok in H as [-> ?] end.
  destruct allowed; constructor; cbn; intros x' [= <-]; done.
Qed.
End question.

(** ** Asking the service *)

Lemma encoded_bounded {A} (to_vec : A → option (list Z)) w b : encode_bounded to_vec w = Ok b → Z.of_nat (length b) ≤ MAX_DOCUMENT_BYTES.
Proof. unfold encode_bounded. intros (x & _ & [Hl [= <-]]%fail_Ok)%rbind_Ok. bprop. lia. Qed.

Section documents.
Context `{HeaderBytesLaws} `{AuthzenCodec}.
#[local] Set Default Proof Using "All".

Lemma evaluation_headers_accepted body :
  Z.of_nat (length body) ≤ MAX_DOCUMENT_BYTES →
  has_single_json_content_type (evaluation_headers body) = true
  ∧ has_valid_content_length (evaluation_headers body) (Z.of_nat (length body)) = true.
Proof.
  intros Hl. unfold has_single_json_content_type, has_valid_content_length, evaluation_headers.
  rewrite !get_all_append, !get_all_empty.
  rewrite !(bool_decide_false (CONTENT_TYPE = _)), (bool_decide_true (CONTENT_TYPE = CONTENT_TYPE)),
    !(bool_decide_false (CONTENT_LENGTH = CONTENT_TYPE)), !(bool_decide_false (CONTENT_LENGTH = ACCEPT)), (bool_decide_true (CONTENT_LENGTH = CONTENT_LENGTH)) by done.
  cbn [app]. rewrite (to_str_from_static APPLICATION_JSON) by done.
  rewrite to_str_from_static by (apply decimal_digits_visible; lia). cbn [mbind option_bind].
  rewrite parse_usize_decimal by (unfold MAX_DOCUMENT_BYTES, u64_max in *; lia). split; [done|by rewrite bool_decide_true].
Qed.
Lemma decode_unavailable response : hs_status response = 503 → decode_response response = Err ProviderUnavailable.
Proof. unfold decode_response. by intros ->. Qed.
Lemma decode_answered response body d :
  hs_status response = 200 → hs_body response = body → Z.of_nat (length body) ≤ MAX_DOCUMENT_BYTES →
  get_all (hs_headers response) CONTENT_TYPE = [from_static APPLICATION_JSON] →
  DecisionResponseV1_from_json_slice decision_from_slice body = Ok d → decode_response response = Ok d.
Proof.
  intros Hs Hb Hl Ht Hd. unfold decode_response. rewrite Hs, Hb. cbn -[MAX_DOCUMENT_BYTES].
  rewrite (proj2 (Z.ltb_ge _ _) Hl). unfold header_text, header_get. rewrite Ht. cbn [head mbind option_bind].
  rewrite (to_str_from_static APPLICATION_JSON) by done. cbn [ok_or rbind].
  change (is_json_content_type APPLICATION_JSON) with true. cbn [negb]. by rewrite Hd.
Qed.
End documents.

Section remote.
Context `{UriParser} `{HeaderBytesLaws} `{CedarLaws} `{PdpCodec} `{AuthzenCodec}.
#[local] Set Default Proof Using "All".

(** A transport that hands the request to the service core. *)
Record ServiceTransport := mk_service { st_provider : CedarProvider }.
#[local] Instance service_transport {W} : HttpTransport ServiceTransport W :=
  {| send service request w := (Ok (pdp_handle (st_provider service) request), w) |}.

Lemma json_response_type status body : get_all (hs_headers (json_response status body)) CONTENT_TYPE = [from_static APPLICATION_JSON].
Proof.
  unfold json_response, insert_common_headers. cbn [hs_headers]. cbv zeta.
  destruct (from_str _); rewrite ?get_all_insert, ?(bool_decide_false (CONTENT_TYPE = CONTENT_LENGTH)),
    ?(bool_decide_false (CONTENT_TYPE = CACHE_CONTROL)), ?(bool_decide_true (CONTENT_TYPE = CONTENT_TYPE)) by done; done.
Qed.

(** C27: The service is the provider.  For an endpoint of the right path, JSON
    codecs that read back what they wrote, and an evaluation in profile, the
    AuthZEN client that talks to the Cedar service returns exactly the
    decision of the embedded provider on the very same evaluation; where the
    provider has none, or one too large to encode, the client reports an
    unavailable provider and never a decision. *)
Theorem remote_cedar_agrees {W} (provider : CedarProvider) (endpoint : Uri) (e : AccessEvaluation) (w : W)
    (Hrequests : ∀ wire b, evaluation_to_vec wire = Some b → evaluation_from_slice b = Some wire)
    (Hdecisions : ∀ wire b, decision_to_vec wire = Some b → decision_from_slice b = Some wire)
    (Hprovider : provider_made provider) (Hendpoint : valid_path endpoint = true) (He : wire_request e) :
  client_evaluate (mk_client endpoint (mk_service provider)) e w =
    (match AccessRequestV1_to_json_vec evaluation_to_vec e with
     | Err error => Err (ClContract error)
     | Ok _ =>
         match evaluate_sync provider e with
         | Ok d =>
             if is_ok (DecisionResponseV1_to_json_vec decision_to_vec d) then Ok d else Err ProviderUnavailable
         | Err _ => Err ProviderUnavailable
         end
     end, w).
Proof.
  unfold client_evaluate. destruct (AccessRequestV1_to_json_vec evaluation_to_vec e) as [body|] eqn:Hb; [|done].
  cbv zeta. cbn [send service_transport cl_transport st_provider map_err rbind]. f_equal.
  pose proof (encoded_bounded _ _ _ Hb) as Hl. destruct (evaluation_headers_accepted body Hl) as [Hct Hcl].
  unfold valid_path in Hendpoint. apply andb_true_iff in Hendpoint as [Hp Hq].
  unfold pdp_handle. cbn [hq_method hq_uri hq_headers hq_body cl_endpoint].
  rewrite bool_decide_true, Hp, Hq, Hct, Hcl, (proj2 (Z.ltb_ge _ _) Hl) by done. cbn [negb orb].
  rewrite (request_roundtrip _ evaluation_from_slice e body Hrequests He Hb).
  destruct (evaluate_sync provider e) as [d|] eqn:Hev; [|by apply decode_unavailable].
  destruct (DecisionResponseV1_to_json_vec decision_to_vec d) as [answer|] eqn:Hd; [|by apply decode_unavailable]. cbn [is_ok].
  apply evaluate_sync_Ok in Hev as (_ & _ & _ & _ & Hmade).
  assert (wf_metadata (Contract.metadata d)) as Hwf by (by eapply decision_wf).
  pose proof (decision_roundtrip decision_to_vec decision_from_slice d answer Hdecisions Hwf Hd) as Hback.
  assert (∀ h, get_all h CONTENT_TYPE = [from_static APPLICATION_JSON] → decode_response (mk_http_response 200 h answer) = Ok d) as Hdec.
  { intros h Hh. eapply decode_answered; [done|done|by eapply encoded_bounded|done|done]. }
  destruct (_ ≫= from_str) as [v|].
  - apply Hdec. rewrite get_all_insert, bool_decide_false by done. apply (json_response_type 200 answer).
  - apply Hdec. apply (json_response_type 200 answer).
Qed.

(** ** Who may ask *)

Lemma collect_frames_Ok frames : ∀ collected body,
  collect_frames collected frames = Ok (inr body) →
  ∃ chunks, frames = map Data chunks ∧ body = collected ++ concat chunks.
Proof.
  induction frames as [|[data| |] frames IH]; intros collected body E; cbn in E; [|  |done|done].
  - injection E as <-. exists []. by rewrite app_nil_r.
  - destruct (_ <? _) in E; [done|]. apply IH in E as (chunks & -> & ->).
    exists (data :: chunks). split; [done|]. cbn. by rewrite <- app_assoc.
Qed.
Lemma answered_by_provider provider request :
  hs_status (pdp_handle provider request) = 200 →
  hq_method request = lit "POST"
  ∧ ∃ e d, AccessRequestV1_from_json_slice evaluation_from_slice (hq_body request) = Ok e ∧ evaluate_sync provider e = Ok d
    ∧ DecisionResponseV1_to_json_vec decision_to_vec d = Ok (hs_body (pdp_handle provider request)).
Proof.
  unfold pdp_handle. intros Hs.
  repeat match type of Hs with hs_status (if ?b then _ else _) = _ => destruct b eqn:?; [done|] end.
  destruct (AccessRequestV1_from_json_slice _ _) as [e|] eqn:He; [|done]. cbv zeta in *.
  destruct (evaluate_sync provider e) as [d|] eqn:Hd; [|done].
  destruct (DecisionResponseV1_to_json_vec _ d) as [b|] eqn:Hb; [|done]. split; [by bprop|].
  exists e, d. split_and!; [done|done|]. by destruct (_ ≫= from_str).
Qed.

(** Whom the component answers.  A decision leaves the component only for a
    request whose one authorization header is the configured bearer token, in
    every byte, or in a deployment that explicitly allows internal callers
    without one; and it is the decision of the strictly validated policies on
    the evaluation that the caller sent. *)
Theorem cedar_component_guarded (policy schema trusted : str) (env : environment) (head : HttpRequest) (frames : list Frame)
    (response : HttpResponse) (Hrun : component_handle policy schema trusted env head frames = Ok response)
    (Hanswered : hs_status response = 200) :
  ∃ provider authentication chunks e d,
    initialize policy schema trusted env = Ok (provider, authentication)
    ∧ new_validated policy schema trusted (lit "http-policy-1") (lit "cedar-4.11.2") = Ok provider
    ∧ (authentication = UnauthenticatedInternalDevelopment
       ∨ ∃ token value, authentication = Bearer token ∧ get_all (hq_headers head) AUTHORIZATION = [value]
           ∧ as_bytes value = lit "Bearer " ++ bt_token token)
    ∧ frames = map Data chunks
    ∧ AccessRequestV1_from_json_slice evaluation_from_slice (concat chunks) = Ok e
    ∧ evaluate_sync provider e = Ok d
    ∧ DecisionResponseV1_to_json_vec decision_to_vec d = Ok (hs_body response).
Proof.
  unfold component_handle in Hrun. destruct (initialize policy schema trusted env) as [[provider authentication]|] eqn:Hi; [|by injection Hrun as <-].
  assert (new_validated policy schema trusted (lit "http-policy-1") (lit "cedar-4.11.2") = Ok provider) as Hnew.
  { unfold initialize in Hi. apply rbind_Ok in Hi as (a & _ & (p & Hp%map_err_Ok & [= <- _])%rbind_Ok). done. }
  destruct (authorizes authentication (hq_headers head)) eqn:Ha; [|by injection Hrun as <-]. cbn [negb] in Hrun. cbv zeta in Hrun.
  destruct (content_length_exceeds_limit _); [by injection Hrun as <-|].
  apply rbind_Ok in Hrun as ([status|body] & Hc & E); injection E as <-.
  { exfalso. clear -Hc Hanswered. revert Hc. cbn in Hanswered. subst status. generalize (@nil Z) as c.
    induction frames as [|[data| |] frames IH]; intros c E; cbn in E; try done.
    destruct (_ <? _) in E; [done|]. by eapply IH. }
  apply collect_frames_Ok in Hc as (chunks & -> & ->). apply answered_by_provider in Hanswered as (_ & e & d & He & Hd & Hb).
  exists provider, authentication, chunks, e, d. split_and!; try done.
  destruct authentication as [token|]; [right|by left]. cbn in Ha.
  destruct (get_all (hq_headers head) AUTHORIZATION) as [|value [|? ?]]; try discriminate Ha.
  destruct (strip_prefix (lit "Bearer ") (as_bytes value)) as [actual|] eqn:Hs; [|done].
  apply constant_time_eq_spec in Ha as ->. exists token, value. split_and!; [done|done|]. by apply strip_prefix_Some in Hs.
Qed.
End remote.
