(* ===== verification/Cedar.v ===== *)
(** * Cedar: the embedded authorization provider

    Models src/crates/wasi-auth/src/cedar.rs: activation of a policy bundle,
    the facts of a verified request that the policies see, and the check, as
    an instance of the provider port of [Authorization].  The engine is
    [CedarEngine]. *)

From S2P Require Export CedarEngine Authorization.
Open Scope Z_scope.

#[local] Arguments lit : simpl never.

Inductive CedarError :=
| InvalidPolicy | InvalidSchema | PolicyValidation | InvalidEntity | InvalidIdentifier | InvalidRequest
| Indeterminate | UnsupportedConsistency | InvalidMetadata.
#[export] Instance CedarError_eq_dec : EqDecision CedarError.
Proof. solve_decision. Defined.
Definition DEFAULT_APPLICATION_POLICY_REVISION : str := lit "embedded-v1".

Section provider.
Context `{CedarEngine}.

Record CedarProvider := mk_cedar {
  ce_policies : PolicySet;
  ce_schema : option Schema;
  ce_trusted_entities : Entities;
  ce_policy_revision : str;
}.
Definition new_prevalidated (policy_source trusted_entities_json policy_revision : str) :
    result CedarError CedarProvider :=
  let? policies := ok_or (policies_from_str policy_source) InvalidPolicy in
  let? trusted_entities := ok_or (entities_from_json_str trusted_entities_json None) InvalidEntity in
  let? policy_revision := map_err (λ _, InvalidMetadata) (identifier_new policy_revision) in
  Ok (mk_cedar policies None trusted_entities policy_revision).
Definition new_unvalidated_for_test (policy_source trusted_entities_json policy_revision : str) :
    result CedarError CedarProvider :=
  new_prevalidated policy_source trusted_entities_json policy_revision.
Definition new_validated (policy_source schema_source trusted_entities_json policy_revision : str) :
    result CedarError CedarProvider :=
  let? policies := ok_or (policies_from_str policy_source) InvalidPolicy in
  let? schema := ok_or (schema_from_json_str schema_source) InvalidSchema in
  fail? negb (validation_passed schema policies) with PolicyValidation ;;
  let? trusted_entities := ok_or (entities_from_json_str trusted_entities_json (Some schema)) InvalidEntity in
  let? policy_revision := map_err (λ _, InvalidMetadata) (identifier_new policy_revision) in
  Ok (mk_cedar policies (Some schema) trusted_entities policy_revision).

Definition uid (entity_type id : str) : result CedarError EntityUid :=
  let? entity_type := ok_or (type_name_from_str entity_type) InvalidIdentifier in
  Ok (from_type_name_and_id entity_type id).

Definition assurance_text (assurance : AuthenticationAssurance) : str :=
  match assurance with Aal1 => lit "aal1" | Aal2 => lit "aal2" end.
Definition principal_attributes (request : AccessRequest) : bmap Value :=
  let attributes := bmap_insert (lit "wasi_issuer") (VString (p_issuer (principal (context request)))) [] in
  let attributes := bmap_insert (lit "wasi_assurance") (VString (assurance_text (assurance (context request)))) attributes in
  let attributes := bmap_insert (lit "wasi_system_administrator")
                      (VBool (system_administrator (principal (context request)))) attributes in
  let attributes := bmap_insert (lit "wasi_permissions")
                      (VArray (match authorization request with
                               | Some snapshot => map VString (snap_permissions snapshot)
                               | None => []
                               end)) attributes in
  match ctx_organization_id (context request) with
  | Some organization_id => bmap_insert ORGANIZATION_ATTRIBUTE (VString organization_id) attributes
  | None => attributes
  end.
Definition resource_attributes (request : AccessRequest) : bmap Value :=
  match resource_organization_id (resource request) with
  | Some organization_id => [(ORGANIZATION_ATTRIBUTE, VString organization_id)]
  | None => []
  end.
Definition provider_entities (provider : CedarProvider) (request : AccessRequest) (principal resource : EntityUid) :
    result CedarError Entities :=
  let principal_parents := ancestors (ce_trusted_entities provider) principal in
  let resource_parents := ancestors (ce_trusted_entities provider) resource in
  let dynamic := VArray [entity_json principal (principal_attributes request) principal_parents;
                         entity_json resource (resource_attributes request) resource_parents] in
  let? dynamic := ok_or (entities_from_json_value dynamic (ce_schema provider)) InvalidEntity in
  ok_or (upsert_entities (ce_trusted_entities provider) dynamic (ce_schema provider)) InvalidEntity.
Definition request_context_json (request : AccessRequest) : Value :=
  VObject (map (λ kv, (kv.1, VString kv.2)) (request_context request)).

Definition at_least_as_fresh (request : AccessRequest) : bool :=
  match consistency request with AtLeastAsFresh _ => true | _ => false end.
(** The question put to the engine. *)
Definition cedar_question (provider : CedarProvider) (request : AccessRequest) :
    result CedarError (CedarRequest * Entities) :=
  fail? at_least_as_fresh request with UnsupportedConsistency ;;
  let? principal := uid (lit "User") (canonical_principal_id url_safe_no_pad request) in
  let? action := uid (lit "Action") (action request) in
  let? resource_uid := uid (resource_type (resource request)) (resource_id (resource request)) in
  let? entities := provider_entities provider request principal resource_uid in
  let? context := ok_or (context_from_json_value (request_context_json request)
                           ((λ schema, (schema, action)) <$> ce_schema provider)) InvalidEntity in
  let? cedar_request := ok_or (cedar_request_new principal action resource_uid context (ce_schema provider)) InvalidRequest in
  Ok (cedar_request, entities).
Definition check_sync (provider : CedarProvider) (request : AccessRequest) : result CedarError Decision :=
  let? question := cedar_question provider request in
  let '(allowed, errors) := is_authorized question.1 (ce_policies provider) question.2 in
  fail? negb (errors =? 0)%nat with Indeterminate ;;
  Ok (if allowed then Decision_allow (ce_policy_revision provider) (lit "cedar.allow")
      else Decision_deny (ce_policy_revision provider) (lit "cedar.deny")).
Lemma cedar_batch_length provider requests decisions :
  collect_map (check_sync provider) requests = Ok decisions → length decisions = length requests.
Proof. intros E%collect_map_Ok%Forall2_length. done. Qed.
#[export] Instance cedar_provider : DecisionProvider CedarProvider CedarError := {|
  dp_capabilities _ := mk_capabilities true false false;
  dp_check := check_sync;
  dp_batch_check provider requests := collect_map (check_sync provider) requests;
  dp_batch_length := cedar_batch_length;
|}.
End provider.

Section facts.
Context `{CedarEngine}.

(** What the policies may believe of the principal, of the resource. *)
Definition verified_fact (q : AccessRequest) (k : str) : option Value :=
  if bool_decide (k = lit "wasi_issuer") then Some (VString (p_issuer (principal (context q))))
  else if bool_decide (k = lit "wasi_assurance")
  then Some (VString (match assurance (context q) with Aal1 => lit "aal1" | Aal2 => lit "aal2" end))
  else if bool_decide (k = lit "wasi_system_administrator") then Some (VBool (system_administrator (principal (context q))))
  else if bool_decide (k = lit "wasi_permissions")
  then Some (VArray (match authorization q with Some s => map VString (snap_permissions s) | None => [] end))
  else if bool_decide (k = lit "wasi_organization_id") then VString <$> ctx_organization_id (context q)
  else None.
Definition resource_fact (q : AccessRequest) (k : str) : option Value :=
  if bool_decide (k = lit "wasi_organization_id") then VString <$> resource_organization_id (resource q) else None.
(** The document of an entity, with the parents it has among the trusted ones. *)
Definition entity_document (trusted : Entities) (uid : EntityUid) (attrs : bmap Value) : Value :=
  let reference u := VObject [(lit "id", VString (uid_id u)); (lit "type", VString (type_name_text (uid_type_name u)))] in
  VObject [(lit "attrs", VObject attrs);
           (lit "parents", VArray (map (λ parent, VObject [(lit "__entity", reference parent)])
                                     (default [] (entity_ancestors trusted uid))));
           (lit "uid", reference uid)].
Lemma principal_attributes_get q k : bmap_get k (principal_attributes q) = verified_fact q k.
Proof.
  unfold principal_attributes. cbv zeta.
  set (m1 := bmap_insert (lit "wasi_issuer") _ []). set (m2 := bmap_insert (lit "wasi_assurance") _ m1).
  set (m3 := bmap_insert (lit "wasi_system_administrator") _ m2). set (m4 := bmap_insert (lit "wasi_permissions") _ m3).
  assert (msorted m1) by (apply bmap_insert_sorted; constructor).
  assert (msorted m2) by (by apply bmap_insert_sorted). assert (msorted m3) by (by apply bmap_insert_sorted).
  assert (msorted m4) by (by apply bmap_insert_sorted).
  assert (∀ k, k ≠ ORGANIZATION_ATTRIBUTE → bmap_get k m4 = verified_fact q k) as Hk.
  { intros k' Hk'. unfold verified_fact. rewrite (bool_decide_false (k' = lit "wasi_organization_id")) by done.
    unfold m4, m3, m2, m1 in *. rewrite !bmap_get_insert by (done || constructor). cbn [bmap_get].
    repeat case_bool_decide; subst; try done. }
  destruct (decide (k = ORGANIZATION_ATTRIBUTE)) as [->|Hne].
  - destruct (ctx_organization_id (context q)) as [org|] eqn:Ho; cbn.
    + rewrite bmap_get_insert, bool_decide_true by done. unfold verified_fact. by rewrite Ho.
    + unfold verified_fact. rewrite Ho. unfold m4, m3, m2, m1. vm_compute. done.
  - rewrite <- Hk by done. destruct (ctx_organization_id (context q)); [|done].
    by rewrite bmap_get_insert, bool_decide_false by done.
Qed.

Lemma resource_attributes_get q k : bmap_get k (resource_attributes q) = resource_fact q k.
Proof.
  unfold resource_attributes, resource_fact, ORGANIZATION_ATTRIBUTE.
  destruct (resource_organization_id (resource q)); cbn; repeat case_bool_decide; congruence.
Qed.
Lemma uid_Ok t i u : uid t i = Ok u → ∃ n, type_name_from_str t = Some n ∧ u = from_type_name_and_id n i.
Proof. unfold uid. destruct (type_name_from_str t) as [n|]; [|done]. intros [= <-]. eauto. Qed.

(** C29: The embedded check.  A decision needs a consistency the snapshot can
    give and an engine that answers one question without a failed policy, and
    carries its verdict and the activated revision.  The question is asked of
    the activated policies, for the user named by issuer and identifier of the
    principal, the action and the resource of the request; whatever
    attributes the application added, the entities it is asked over are the
    trusted ones with exactly the verified issuer, assurance, administration,
    permissions and organization of the principal and the organization of the
    resource, and its context is the application's attributes with the
    verified organization. *)
Theorem embedded_check_exact (provider : CedarProvider) (q : AccessRequest) (d : Decision)
    (Hbuilt : request_built q) (Hcheck : check_sync provider q = Ok d) :
  (∀ token, consistency q ≠ AtLeastAsFresh token)
  ∧ policy_revision d = ce_policy_revision provider
  ∧ ∃ users actions resources facts resource_facts told_facts dynamic entities engine_context request,
      let who := principal (context q) in
      let user := from_type_name_and_id users
        (lit "v1_" ++ url_safe_no_pad (str_bytes (p_issuer who) ++ [0] ++ str_bytes (p_user_id who))) in
      let act := from_type_name_and_id actions (action q) in
      let target := from_type_name_and_id resources (resource_id (resource q)) in
      type_name_from_str (lit "User") = Some users ∧ type_name_from_str (lit "Action") = Some actions
      ∧ type_name_from_str (resource_type (resource q)) = Some resources
      ∧ (∀ k, bmap_get k facts = verified_fact q k) ∧ (∀ k, bmap_get k resource_facts = resource_fact q k)
      ∧ told q told_facts
      ∧ entities_from_json_value
          (VArray [entity_document (ce_trusted_entities provider) user facts;
                   entity_document (ce_trusted_entities provider) target resource_facts]) (ce_schema provider) = Some dynamic
      ∧ upsert_entities (ce_trusted_entities provider) dynamic (ce_schema provider) = Some entities
      ∧ context_from_json_value (VObject (map (λ kv, (kv.1, VString kv.2)) told_facts))
          ((λ schema, (schema, act)) <$> ce_schema provider) = Some engine_context
      ∧ cedar_request_new user act target engine_context (ce_schema provider) = Some request
      ∧ is_authorized request (ce_policies provider) entities = (allowed d, 0%nat).
Proof.
  unfold check_sync in Hcheck. apply rbind_Ok in Hcheck as ([request entities] & Hq & E). cbn [fst snd] in E.
  destruct (is_authorized request (ce_policies provider) entities) as [verdict errors] eqn:Ha.
  apply fail_Ok in E as [Hn E]. apply negb_false_iff, Nat.eqb_eq in Hn as ->. injection E as <-.
  unfold cedar_question in Hq. apply fail_Ok in Hq as [Hc Hq].
  split; [intros token Ht; unfold at_least_as_fresh in Hc; by rewrite Ht in Hc|]. split; [by destruct verdict|].
  apply rbind_Ok in Hq as (user & (users & Hu & ->)%uid_Ok & Hq).
  apply rbind_Ok in Hq as (act & (actions & Hact & ->)%uid_Ok & Hq).
  apply rbind_Ok in Hq as (target & (resources & Hr & ->)%uid_Ok & Hq).
  apply rbind_Ok in Hq as (es & He & Hq). apply rbind_Ok in Hq as (engine_context & Hx%ok_or_Ok & Hq).
  apply rbind_Ok in Hq as (req & Hreq%ok_or_Ok & [= -> ->]).
  apply rbind_Ok in He as (dynamic & Hd%ok_or_Ok & He%ok_or_Ok).
  exists users, actions, resources, (principal_attributes q), (resource_attributes q), (request_context q), dynamic,
    entities, engine_context, request. cbv zeta.
  split_and!; try done; [apply principal_attributes_get|apply resource_attributes_get|by apply request_context_told|].
  by destruct verdict.
Qed.
End facts.

Module CedarExample.
#[local] Existing Instance allow_all.
Definition provider0 : CedarProvider := mk_cedar (lit "permit(principal, action, resource);") (Some tt) [] (lit "embedded-v1").
Lemma embedded_check_exact_witness :
  check_sync provider0 alice_request = Ok (Decision_allow (lit "embedded-v1") (lit "cedar.allow"))
  ∧ ∀ token, consistency alice_request ≠ AtLeastAsFresh token.
Proof.
  split; [vm_compute; reflexivity|].
  refine (proj1 (embedded_check_exact provider0 alice_request (Decision_allow (lit "embedded-v1") (lit "cedar.allow")) _ _)).
  - apply alice_built.
  - vm_compute. reflexivity.
Defined.
End CedarExample.
