(* ===== verification/SpicePdp.v ===== *)
(** * SpicePdp: the SpiceDB provider of AuthZEN evaluations and its component

    Models src/crates/wasi-authz-spicedb/src/lib.rs (the provider, which asks
    SpiceDB one permission check per evaluation) and
    src/components/spicedb-pdp/src/lib.rs (the component that answers AuthZEN
    requests with it).  The attribute texts, the media type test and the
    comparison of credentials are the same code as in the Cedar crates, modelled
    in [CedarPdp]; the wildcard arms on non-exhaustive enumerations are
    unreachable.  Diagnostic output is left out. *)

From S2P Require Export CedarProofs.
Open Scope Z_scope.

#[local] Arguments lit : simpl never.

Definition CHECK_PERMISSION_PATH : str := lit "/v1/permissions/check".
Definition CAPABILITIES : list ProviderCapability :=
  [BoundedAuthzenV1; AnonymousSubjects; TypedAttributes; AttributeProvenance; RelationshipHierarchy;
   MinimizeLatencyConsistency; AtLeastAsFreshConsistency; FullyConsistentConsistency].

Inductive SpiceDbError :=
| InvalidEndpoint | InvalidPermissionMap | UnmappedAction | InvalidReference | Transport (error : TransportError)
| ProviderAuthentication | ProviderUnavailable | InvalidResponse | ConditionalPermission | InvalidMetadata.
#[export] Instance SpiceDbError_eq_dec : EqDecision SpiceDbError.
Proof. solve_decision. Defined.

(** ** Names *)

(** [bytes().last()] *)
Definition is_spicedb_name (value : str) : bool :=
  in_range 3 64 (str_len value)
  && match str_bytes value with b :: _ => is_ascii_lowercase b | [] => false end
  && match last (str_bytes value) with Some b => is_ascii_lowercase b || is_ascii_digit b | None => false end
  && forallb (λ b, is_ascii_lowercase b || is_ascii_digit b || (b =? 95)) (str_bytes value).
(** [/], [_], [|], [-], [=], [+] *)
Definition is_spicedb_id (value : str) : bool :=
  negb (is_empty value) && (str_len value <=? 1024)
  && forallb (λ b, is_ascii_alphanumeric b || one_of [47; 95; 124; 45; 61; 43] b) (str_bytes value).

(** ** Endpoints *)

Section endpoint.
Context `{UriParser}.

Definition parse_endpoint (value : str) : result SpiceDbError Uri :=
  let? uri := ok_or (uri_parse value) InvalidEndpoint in
  let valid := valid_authority uri && bool_decide (uri_path uri = CHECK_PERMISSION_PATH)
               && bool_decide (uri_query uri = None) in
  fail? negb valid with InvalidEndpoint ;;
  Ok uri.
Definition SpiceDbEndpoint_new (value : str) : result SpiceDbError Uri :=
  let? uri := parse_endpoint value in
  let allowed := bool_decide (scheme_str uri = Some (lit "https"))
                 || (bool_decide (scheme_str uri = Some (lit "http")) && spin_internal uri) in
  fail? negb allowed with InvalidEndpoint ;;
  Ok uri.
Definition SpiceDbEndpoint_new_loopback_for_dev (value : str) : result SpiceDbError Uri :=
  let? uri := parse_endpoint value in
  fail? negb (bool_decide (scheme_str uri = Some (lit "http"))) || negb (loopback_host uri) with InvalidEndpoint ;;
  Ok uri.
End endpoint.

(** ** The permission map *)

Definition insert_mapping (result : bmap str) (mapping : str * str) : Prelude.result SpiceDbError (bmap str) :=
  let? _ := map_err (λ _, InvalidPermissionMap) (ActionNameV1_new mapping.1) in
  fail? negb (is_spicedb_name mapping.2) || bmap_contains mapping.1 result with InvalidPermissionMap ;;
  Ok (bmap_insert mapping.1 mapping.2 result).
Definition PermissionMap_new (mappings : list (str * str)) : result SpiceDbError (bmap str) :=
  let? result := try_fold insert_mapping [] mappings in
  fail? (length result =? 0)%nat with InvalidPermissionMap ;;
  Ok result.
Definition permission_for (permissions : bmap str) (action : str) : result SpiceDbError str :=
  ok_or (bmap_get action permissions) UnmappedAction.

(** ** The wire *)

Record ObjectReference := mk_object { object_type : str; object_id : str }.
Record CheckPermissionRequest := mk_check_request {
  cp_consistency : Value;
  cp_resource : ObjectReference;
  cp_permission : str;
  cp_subject : ObjectReference;
  cp_context : option Value;
}.
Record CheckPermissionResponse := mk_check_response {
  checked_at : option str;
  permissionship : str;
  partial_caveat_info : option Value;
  debug_trace : option Value;
  optional_expires_at : option Value;
}.
(** [serde_json] on the two documents, and URL-safe Base64 without padding. *)
Class SpiceCodec := {
  check_to_vec : CheckPermissionRequest → option (list Z);
  check_from_slice : list Z → option CheckPermissionResponse;
  spice_base64 : list Z → str;
}.

Definition consistency (evaluation : AccessEvaluation) : Value :=
  match req_context evaluation ≫= Contract.consistency with
  | Some (AtLeastAsFresh token) => VObject [(lit "atLeastAsFresh", VObject [(lit "token", VString token)])]
  | Some FullyConsistent => VObject [(lit "fullyConsistent", VBool true)]
  | Some MinimizeLatency | None => VObject [(lit "minimizeLatency", VBool true)]
  end.
Definition attributes_to_json (attributes : AttributesV1) : bmap Value :=
  foldl (λ result a, bmap_insert (attr_name a) (attribute_json a) result) [] attributes.
Definition subject_json (subject : AuthenticatedSubjectV1) : Value :=
  VObject [(lit "attributes", VObject (attributes_to_json (subject_attributes subject)));
           (lit "issuer", VString (issuer subject));
           (lit "scopes", VArray (map VString (scopes subject)));
           (lit "tenant_id", match subject_tenant_id subject with Some t => VString t | None => VNull end)].
Definition caveat_context (evaluation : AccessEvaluation) : option Value :=
  let context := match req_context evaluation with
                 | Some request_context => attributes_to_json (context_attributes request_context)
                 | None => []
                 end in
  let context := match req_subject evaluation with
                 | Contract.Authenticated subject => bmap_insert (lit "wasi_subject") (subject_json subject) context
                 | Contract.Anonymous => context
                 end in
  let context := bmap_insert (lit "wasi_action_attributes")
                   (VObject (attributes_to_json (action_attributes (req_action evaluation)))) context in
  let context := bmap_insert (lit "wasi_resource_attributes")
                   (VObject (attributes_to_json (resource_attributes (req_resource evaluation)))) context in
  if (length context =? 0)%nat then None else Some (VObject context).

(** ** The provider *)

Section provider.
Context `{UriParser} `{HeaderBytes} `{SpiceCodec}.

Record SpiceDbProvider (T : Type) := mk_spicedb {
  sp_endpoint : Uri;
  sp_transport : T;
  sp_permissions : bmap str;
  sp_schema_revision : str;
  sp_model_version : str;
}.
#[global] Arguments mk_spicedb {T}.
#[global] Arguments sp_endpoint {T}.
#[global] Arguments sp_transport {T}.
#[global] Arguments sp_permissions {T}.
#[global] Arguments sp_schema_revision {T}.
#[global] Arguments sp_model_version {T}.

Definition bounded_metadata {A} (r : result ContractError A) : result SpiceDbError A := map_err (λ _, InvalidMetadata) r.
Definition SpiceDbProvider_new {T} (endpoint : Uri) (transport : T) (permissions : bmap str)
    (schema_revision model_version : str) : result SpiceDbError (SpiceDbProvider T) :=
  let? schema_revision := bounded_metadata (PolicyRevisionV1_new schema_revision) in
  let? model_version := bounded_metadata (ModelVersionV1_new model_version) in
  Ok (mk_spicedb endpoint transport permissions schema_revision model_version).
Definition spice_decision {T} (provider : SpiceDbProvider T) (allowed : bool) (token : option str) :
    result SpiceDbError DecisionResponseV1 :=
  let? model := bounded_metadata (ModelNameV1_new (lit "spicedb")) in
  let? reason := bounded_metadata (ReasonCodeV1_new (if allowed then lit "spicedb.allow" else lit "spicedb.deny")) in
  let metadata := mk_metadata None (Some (sp_schema_revision provider)) (Some model) (Some (sp_model_version provider))
                    (Some reason) token in
  Ok (if allowed then DecisionResponseV1_allow metadata else DecisionResponseV1_deny metadata).

Definition canonical_subject_id (subject : AuthenticatedSubjectV1) : str :=
  lit "v1_" ++ spice_base64 (str_bytes (issuer subject) ++ [0] ++ str_bytes (subject_id subject)).

(** The part of [evaluate_inner] before the request is sent. *)
Definition check_body {T} (provider : SpiceDbProvider T) (subject : AuthenticatedSubjectV1) (evaluation : AccessEvaluation) :
    result SpiceDbError (list Z) :=
  let resource_type := resource_type (req_resource evaluation) in
  let resource_id := resource_id (req_resource evaluation) in
  let subject_type := subject_type subject in
  fail? negb (is_spicedb_name resource_type) || negb (is_spicedb_name subject_type) || negb (is_spicedb_id resource_id)
    with InvalidReference ;;
  let subject_id := canonical_subject_id subject in
  fail? negb (is_spicedb_id subject_id) with InvalidReference ;;
  let? permission := permission_for (sp_permissions provider) (action_name (req_action evaluation)) in
  let wire := mk_check_request (consistency evaluation) (mk_object resource_type resource_id) permission
                (mk_object subject_type subject_id) (caveat_context evaluation) in
  let? body := ok_or (check_to_vec wire) InvalidReference in
  fail? MAX_DOCUMENT_BYTES <? Z.of_nat (length body) with InvalidReference ;;
  Ok body.
(** The part of [evaluate_inner] after the response arrived. *)
Definition read_response {T} (provider : SpiceDbProvider T) (response : HttpResponse) :
    result SpiceDbError DecisionResponseV1 :=
  if hs_status response =? 200 then
    let content_type := (λ value, trim (default [] (head (split_char 59 value))))
                          <$> (header_text (hs_headers response) CONTENT_TYPE) in
    fail? negb (bool_decide (content_type = Some APPLICATION_JSON))
          || (MAX_DOCUMENT_BYTES <? Z.of_nat (length (hs_body response))) with InvalidResponse ;;
    let? response := ok_or (check_from_slice (hs_body response)) InvalidResponse in
    fail? bool_decide (is_Some (partial_caveat_info response)) with ConditionalPermission ;;
    let? token := ok_or (checked_at response) InvalidResponse in
    let? token := map_err (λ _, InvalidResponse) (ConsistencyTokenV1_new token) in
    if bool_decide (permissionship response = lit "PERMISSIONSHIP_HAS_PERMISSION") then
      spice_decision provider true (Some token)
    else if bool_decide (permissionship response = lit "PERMISSIONSHIP_NO_PERMISSION") then
      spice_decision provider false (Some token)
    else if bool_decide (permissionship response = lit "PERMISSIONSHIP_CONDITIONAL_PERMISSION") then
      Err ConditionalPermission
    else Err InvalidResponse
  else if (hs_status response =? 401) || (hs_status response =? 403) then Err ProviderAuthentication
  else Err ProviderUnavailable.

Definition evaluate_inner {T W} `{!HttpTransport T W} (provider : SpiceDbProvider T) (evaluation : AccessEvaluation) (w : W) :
    result SpiceDbError DecisionResponseV1 * W :=
  match req_subject evaluation with
  | Contract.Anonymous => (spice_decision provider false None, w)
  | Contract.Authenticated subject =>
      match check_body provider subject evaluation with
      | Err e => (Err e, w)
      | Ok body =>
          let request := mk_http_request (lit "POST") (sp_endpoint provider) (evaluation_headers body) body in
          let '(answer, w) := send (sp_transport provider) request w in
          (let? response := map_err Transport answer in read_response provider response, w)
      end
  end.
#[export] Instance spicedb_decision_provider {T W} `{!HttpTransport T W} :
    DecisionProvider (SpiceDbProvider T) SpiceDbError W := {|
  capabilities _ := CAPABILITIES;
  provider_evaluate := evaluate_inner;
|}.
End provider.

(** ** The configuration of the component *)

Definition PEP_BEARER_ENV : str := lit "WASI_AUTHZ_PDP_BEARER_TOKEN".
Definition ALLOW_UNAUTHENTICATED_LOOPBACK_ENV : str := lit "WASI_AUTHZ_PDP_ALLOW_UNAUTHENTICATED_LOOPBACK_DEV".
Definition SPICEDB_ENDPOINT_ENV : str := lit "WASI_AUTHZ_SPICEDB_ENDPOINT".
Definition SPICEDB_BEARER_ENV : str := lit "WASI_AUTHZ_SPICEDB_BEARER_TOKEN".
Definition ALLOW_SPICEDB_LOOPBACK_ENV : str := lit "WASI_AUTHZ_SPICEDB_ALLOW_LOOPBACK_DEV".
Definition PERMISSION_MAP_ENV : str := lit "WASI_AUTHZ_SPICEDB_ACTION_PERMISSION_MAP".
Definition POLICY_REVISION_ENV : str := lit "WASI_AUTHZ_SPICEDB_POLICY_REVISION".
Definition MODEL_VERSION_ENV : str := lit "WASI_AUTHZ_SPICEDB_MODEL_VERSION".
(** Two seconds. *)
Definition SPICEDB_DEADLINE : Z := 2000000000.
Definition MAX_PERMISSION_MAPPINGS : nat := 64.
Definition MAX_PERMISSION_MAP_BYTES : Z := 8 * 1024.

Inductive ConfigError := Missing | Duplicate | Invalid | CredentialReuse.

Definition selected_names : list str :=
  [PEP_BEARER_ENV; ALLOW_UNAUTHENTICATED_LOOPBACK_ENV; SPICEDB_ENDPOINT_ENV; SPICEDB_BEARER_ENV;
   ALLOW_SPICEDB_LOOPBACK_ENV; PERMISSION_MAP_ENV; POLICY_REVISION_ENV; MODEL_VERSION_ENV].
Definition select_variable (values : bmap str) (entry : str * str) : result ConfigError (bmap str) :=
  if bool_decide (entry.1 ∈ selected_names) then
    fail? bmap_contains entry.1 values with Duplicate ;;
    Ok (bmap_insert entry.1 entry.2 values)
  else Ok values.
Definition selected_environment (env : environment) : result ConfigError (bmap str) := try_fold select_variable [] env.
Definition required (values : bmap str) (name : str) : result ConfigError str :=
  match bmap_get name values with
  | Some value => fail? is_empty value with Missing ;; Ok value
  | None => Err Missing
  end.
Definition boolean (values : bmap str) (name : str) : result ConfigError bool :=
  match bmap_get name values with
  | None => Ok false
  | Some value =>
      if bool_decide (value = lit "false") then Ok false
      else if bool_decide (value = lit "true") then Ok true
      else Err Invalid
  end.
Definition push_mapping (mappings : list (str * str)) (entry : str) : result ConfigError (list (str * str)) :=
  fail? (length mappings =? MAX_PERMISSION_MAPPINGS)%nat with Invalid ;;
  let? mapping := ok_or (split_once 61 entry) Invalid in
  fail? is_empty mapping.1 || is_empty mapping.2 || contains_char 61 mapping.1 || contains_char 61 mapping.2 with Invalid ;;
  Ok (mappings ++ [mapping]).
Definition parse_permission_map (value : str) : result ConfigError (bmap str) :=
  fail? is_empty value || (MAX_PERMISSION_MAP_BYTES <? str_len value) with Invalid ;;
  let? mappings := try_fold push_mapping [] (split_char 44 value) in
  map_err (λ _, Invalid) (PermissionMap_new mappings).

Section component.
Context `{UriParser} `{HeaderBytes} `{SpiceCodec} `{PdpCodec} `{WasiHttp} {W : Type} `{!Wasip3Host W}.

Inductive PepAuthentication := Bearer (token : BearerToken) | UnauthenticatedLoopbackDevelopment.
Abbreviation ComponentProvider := (SpiceDbProvider (BearerAuthTransport Wasip3Transport)).
Record ComponentConfig := mk_config { inbound_authentication : PepAuthentication; provider : ComponentProvider }.

Definition inbound (values : bmap str) (spicedb_token : str) : result ConfigError PepAuthentication :=
  let? allowed := boolean values ALLOW_UNAUTHENTICATED_LOOPBACK_ENV in
  match bmap_get PEP_BEARER_ENV values, allowed with
  | Some token, false =>
      let? inbound := map_err (λ _, Invalid) (BearerToken_new token) in
      fail? constant_time_eq (bt_token inbound) (str_bytes spicedb_token) with CredentialReuse ;;
      Ok (Bearer inbound)
  | None, true => Ok UnauthenticatedLoopbackDevelopment
  | _, _ => Err Invalid
  end.
Definition spice_from_environment (env : environment) : result ConfigError ComponentConfig :=
  let? values := selected_environment env in
  let? spicedb_endpoint_value := required values SPICEDB_ENDPOINT_ENV in
  let? allow_spicedb_loopback := boolean values ALLOW_SPICEDB_LOOPBACK_ENV in
  let? spicedb_endpoint := map_err (λ _, Invalid)
    (if allow_spicedb_loopback then SpiceDbEndpoint_new_loopback_for_dev spicedb_endpoint_value
     else SpiceDbEndpoint_new spicedb_endpoint_value) in
  let? spicedb_token := required values SPICEDB_BEARER_ENV in
  let? inbound_authentication := inbound values spicedb_token in
  let? map_value := required values PERMISSION_MAP_ENV in
  let? permissions := parse_permission_map map_value in
  let? transport := map_err (λ _, Invalid) (with_timeout Wasip3Transport_new SPICEDB_DEADLINE) in
  let? transport := map_err (λ _, Invalid) (BearerAuthTransport_new transport spicedb_token) in
  let? policy_revision := required values POLICY_REVISION_ENV in
  let? model_version := required values MODEL_VERSION_ENV in
  let? provider := map_err (λ _, Invalid)
    (SpiceDbProvider_new spicedb_endpoint transport permissions policy_revision model_version) in
  Ok (mk_config inbound_authentication provider).

(** ** Answers *)

Definition single_bearer (headers : HeaderMap) : option (list Z) :=
  match get_all headers AUTHORIZATION with
  | [value] => strip_prefix (lit "Bearer ") (as_bytes value)
  | _ => None
  end.
Definition is_http_loopback_uri (uri : Uri) : bool :=
  bool_decide (scheme_str uri = Some (lit "http")) && loopback_host uri.
Definition authorizes (authentication : PepAuthentication) (head : HttpRequest) : bool :=
  match authentication with
  | Bearer expected =>
      match single_bearer (hq_headers head) with
      | Some actual => constant_time_eq actual (bt_token expected)
      | None => false
      end
  | UnauthenticatedLoopbackDevelopment =>
      bool_decide (length (get_all (hq_headers head) AUTHORIZATION) = 0%nat) && is_http_loopback_uri (hq_uri head)
  end.

Definition response (status : Z) (body : list Z) (additional : list (str * HeaderValue)) : HttpResponse :=
  let headers := header_insert empty_headers CACHE_CONTROL (from_static (lit "no-store")) in
  let headers := foldl (λ headers h, header_insert headers h.1 h.2) headers additional in
  let headers := match from_str (decimal_digits 20 (Z.of_nat (length body))) with
                 | Some value => header_insert headers CONTENT_LENGTH value
                 | None => headers
                 end in
  mk_http_response status headers body.
Definition error_response (status : Z) : HttpResponse :=
  let response := response status [] [] in
  let headers := hs_headers response in
  let headers := if status =? 401 then header_insert headers WWW_AUTHENTICATE (from_static (lit "Bearer")) else headers in
  let headers := if status =? 503 then header_insert headers RETRY_AFTER (from_static (lit "1")) else headers in
  mk_http_response status headers (hs_body response).
Definition decision_response (decision : DecisionResponseV1) : HttpResponse :=
  match DecisionResponseV1_to_json_vec decision_to_vec decision with
  | Ok body =>
      if Z.of_nat (length body) <=? MAX_DOCUMENT_BYTES then response 200 body [(CONTENT_TYPE, from_static APPLICATION_JSON)]
      else error_response 503
  | Err _ => error_response 503
  end.

(** The tests that [handle] makes on the head and [handle_authzen_request]
    repeats. *)
Definition refused_head (request : HttpRequest) : option HttpResponse :=
  if negb (bool_decide (hq_method request = lit "POST")) then Some (response 405 [] [(ALLOW, from_static (lit "POST"))])
  else if negb (bool_decide (uri_path (hq_uri request) = ACCESS_EVALUATION_PATH))
          || negb (bool_decide (uri_query (hq_uri request) = None)) then Some (error_response 404)
  else if negb (has_single_json_content_type (hq_headers request)) then Some (error_response 415)
  else None.
Definition handle_authzen_request {P E V} `{!DecisionProvider P E V} (provider : P) (request : HttpRequest) (w : V) :
    HttpResponse * V :=
  match refused_head request with
  | Some response => (response, w)
  | None =>
      match AccessRequestV1_from_json_slice evaluation_from_slice (hq_body request) with
      | Err _ => (error_response 400, w)
      | Ok evaluation =>
          let '(answer, w) := provider_evaluate provider evaluation w in
          (match answer with
           | Ok decision => decision_response decision
           | Err _ => error_response 503
           end, w)
      end
  end.

Definition declared_content_length (headers : HeaderMap) : result Z Z :=
  match get_all headers CONTENT_LENGTH with
  | [value] =>
      let? length := ok_or (to_str value ≫= parse_usize) 400 in
      fail? MAX_DOCUMENT_BYTES <? length with 413 ;; Ok length
  | _ => Err 400
  end.
(** A frame of the incoming body: data, trailers, neither, or a failure. *)
Inductive BodyFrame := FrameData (data : list Z) | FrameTrailers | FrameUnknown | FrameFailed (error : ErrorCode).
Fixpoint collect_data (collected : list Z) (frames : list BodyFrame) : result Z (list Z) :=
  match frames with
  | [] => Ok collected
  | FrameFailed _ :: _ => Err 503
  | FrameData data :: frames =>
      fail? MAX_DOCUMENT_BYTES <? u64_saturating_add (Z.of_nat (length collected)) (Z.of_nat (length data)) with 413 ;;
      collect_data (collected ++ data) frames
  | FrameTrailers :: frames => collect_data collected frames
  | FrameUnknown :: _ => Err 400
  end.
Definition collect_bounded_body (frames : list BodyFrame) (declared_length : Z) : result Z (list Z) :=
  let? collected := collect_data [] frames in
  fail? negb (Z.of_nat (length collected) =? declared_length) with 400 ;;
  Ok collected.

(** [handle] on the head of the request and the frames of its body, as the
    runtime converts them, or on a request that it cannot convert. *)
Definition spice_handle (env : environment) (converted : option (HttpRequest * list BodyFrame)) (w : W) : HttpResponse * W :=
  match spice_from_environment env with
  | Err _ => (error_response 503, w)
  | Ok config =>
      match converted with
      | None => (error_response 503, w)
      | Some (head, frames) =>
          if negb (authorizes (inbound_authentication config) head) then (error_response 401, w)
          else
            let headers := header_remove (hq_headers head) AUTHORIZATION in
            let request body := mk_http_request (hq_method head) (hq_uri head) headers body in
            match refused_head (request []) with
            | Some response => (response, w)
            | None =>
                match declared_content_length headers with
                | Err status => (error_response status, w)
                | Ok declared_length =>
                    match collect_bounded_body frames declared_length with
                    | Err status => (error_response status, w)
                    | Ok body => handle_authzen_request (provider config) (request body) w
                    end
                end
            end
      end
  end.
End component.
