(* ===== verification/SpiceProofs.v ===== *)
(** * SpiceProofs: what a SpiceDB decision rests on

    Which check a decision stands for, whom the component answers, and that
    asking the component is asking the provider. *)

From S2P Require Export SpicePdp.
Open Scope Z_scope.

#[local] Arguments lit : simpl never.

(** ** The caveat context *)

Lemma attributes_to_json_sorted attributes : msorted (attributes_to_json attributes).
Proof.
  unfold attributes_to_json. cut (∀ m : bmap Value, msorted m →
    msorted (foldl (λ result a, bmap_insert (attr_name a) (attribute_json a) result) m attributes)); [intros Hm; apply Hm; constructor|].
  induction attributes as [|a attributes IH]; intros m Hm; cbn; [done|]. by apply IH, bmap_insert_sorted.
Qed.
(** The reserved entries describe the evaluation, whatever attributes came in
    its context. *)
Record reserved_entries (evaluation : AccessEvaluation) (subject : AuthenticatedSubjectV1) (m : bmap Value) : Prop := {
  re_subject : bmap_get (lit "wasi_subject") m = Some (subject_json subject);
  re_action : bmap_get (lit "wasi_action_attributes") m
              = Some (VObject (attributes_to_json (action_attributes (req_action evaluation))));
  re_resource : bmap_get (lit "wasi_resource_attributes") m
                = Some (VObject (attributes_to_json (resource_attributes (req_resource evaluation))));
}.
Lemma caveat_context_reserved evaluation subject :
  req_subject evaluation = Contract.Authenticated subject →
  ∃ m, caveat_context evaluation = Some (VObject m) ∧ reserved_entries evaluation subject m.
Proof.
  intros Hs. unfold caveat_context. rewrite Hs. cbv zeta.
  set (m0 := match req_context evaluation with Some _ => _ | None => [] end).
  assert (msorted m0) as Hm0 by (unfold m0; destruct (req_context evaluation); [apply attributes_to_json_sorted|constructor]).
  set (m1 := bmap_insert (lit "wasi_subject") _ m0). set (m2 := bmap_insert (lit "wasi_action_attributes") _ m1).
  set (m3 := bmap_insert (lit "wasi_resource_attributes") _ m2).
  assert (msorted m1) by (by apply bmap_insert_sorted). assert (msorted m2) by (by apply bmap_insert_sorted).
  assert (reserved_entries evaluation subject m3) as Hr.
  { split; unfold m3, m2, m1; rewrite !bmap_get_insert by done; done. }
  destruct m3 as [|e m3]; [by destruct Hr|]. by exists (e :: m3).
Qed.

(** ** Decisions *)

Section decisions.
Context `{UriParser} `{HeaderBytesLaws} `{SpiceCodec} {T W : Type} `{!HttpTransport T W}.
#[local] Set Default Proof Using "All".
Implicit Types (provider : SpiceDbProvider T) (e : AccessEvaluation) (d : DecisionResponseV1) (w : W).

Lemma spice_decision_Ok provider allowed token d :
  spice_decision provider allowed token = Ok d →
  is_allowed d = allowed ∧ consistency_token (Contract.metadata d) = token
  ∧ policy_revision (Contract.metadata d) = Some (sp_schema_revision provider)
  ∧ model_version (Contract.metadata d) = Some (sp_model_version provider).
Proof. unfold spice_decision. intros E. bind_inv E. injection E as <-. by destruct allowed. Qed.

(** The one check that stands for an evaluation. *)
Definition check_of (subject : AuthenticatedSubjectV1) e (permission : str) : CheckPermissionRequest :=
  mk_check_request (consistency e)
    (mk_object (resource_type (req_resource e)) (resource_id (req_resource e))) permission
    (mk_object (subject_type subject) (canonical_subject_id subject)) (caveat_context e).
Lemma check_body_Ok provider subject e body :
  check_body provider subject e = Ok body →
  ∃ permission, bmap_get (action_name (req_action e)) (sp_permissions provider) = Some permission
    ∧ check_to_vec (check_of subject e permission) = Some body
    ∧ Z.of_nat (length body) ≤ MAX_DOCUMENT_BYTES
    ∧ is_spicedb_name (resource_type (req_resource e)) = true ∧ is_spicedb_id (resource_id (req_resource e)) = true
    ∧ is_spicedb_name (subject_type subject) = true ∧ is_spicedb_id (canonical_subject_id subject) = true.
Proof.
  unfold check_body. intros [[[Hr Hs]%orb_false_iff Hi]%orb_false_iff E]%fail_Ok.
  apply fail_Ok in E as [Hc (permission & Hp%ok_or_Ok & E)%rbind_Ok].
  apply rbind_Ok in E as (b & Hb%ok_or_Ok & [Hl [= <-]]%fail_Ok). rewrite negb_false_iff in *. bprop.
  exists permission. by split_and!.
Qed.

(** An answer that carries a verdict. *)
Record verdict_read provider (response : HttpResponse) (wire : CheckPermissionResponse) (token : str) d : Prop := {
  vr_status : hs_status response = 200;
  vr_bounded : Z.of_nat (length (hs_body response)) ≤ MAX_DOCUMENT_BYTES;
  vr_wire : check_from_slice (hs_body response) = Some wire;
  vr_unconditional : partial_caveat_info wire = None;
  vr_token : checked_at wire = Some token;
  vr_consistency : consistency_token (Contract.metadata d) = Some token;
  vr_revision : policy_revision (Contract.metadata d) = Some (sp_schema_revision provider);
  vr_verdict : permissionship wire
    = if is_allowed d then lit "PERMISSIONSHIP_HAS_PERMISSION" else lit "PERMISSIONSHIP_NO_PERMISSION";
}.
Lemma read_response_Ok provider response d :
  read_response provider response = Ok d →
  ∃ wire token, verdict_read provider response wire token d ∧ spice_decision provider (is_allowed d) (Some token) = Ok d
    ∧ ConsistencyTokenV1_new token = Ok token.
Proof.
  unfold read_response. destruct (hs_status response =? 200) eqn:Hst; [|by destruct (_ || _)].
  cbv zeta. intros [[_ Hl]%orb_false_iff (wire & Hw%ok_or_Ok & E)%rbind_Ok]%fail_Ok.
  apply fail_Ok in E as [Hc (t & Ht%ok_or_Ok & E)%rbind_Ok].
  apply rbind_Ok in E as (token & Hn%map_err_Ok & E). pose proof Hn as [-> _]%bounded_text_Ok.
  bprop. apply eq_None_not_Some in Hc. exists wire, t.
  destruct (bool_decide_reflect (permissionship wire = lit "PERMISSIONSHIP_HAS_PERMISSION")) as [Hv|_].
  { pose proof E as (Ha & Hk & Hr & _)%spice_decision_Ok. rewrite Ha. split; [|done]. split; try done. by rewrite Ha. }
  destruct (bool_decide_reflect (permissionship wire = lit "PERMISSIONSHIP_NO_PERMISSION")) as [Hv|_]; [|by destruct (bool_decide _)].
  pose proof E as (Ha & Hk & Hr & _)%spice_decision_Ok. rewrite Ha. split; [|done]. split; try done. by rewrite Ha.
Qed.

(** What a decision stands for.  An anonymous subject is denied without a
    call.  For an authenticated one a decision exists only where its type and
    the resource are representable in SpiceDB and the action has a configured
    permission; then exactly one request was sent, the check of that
    permission for the issuer-scoped subject on the resource, at the requested
    consistency and with a context whose reserved entries are those of the
    evaluation; the answer was a bounded document of status 200 without
    missing caveat facts, and the decision allows where it says that the
    permission is held, denies where it says that it is not, and carries its
    token.  Everything else is an error. *)
Theorem spice_decision_exact provider e w w' d (Hd : evaluate_inner provider e w = (Ok d, w')) :
  (req_subject e = Contract.Anonymous ∧ is_allowed d = false ∧ w' = w)
  ∨ ∃ subject permission body response wire token m,
      req_subject e = Contract.Authenticated subject
      ∧ is_spicedb_name (resource_type (req_resource e)) = true ∧ is_spicedb_id (resource_id (req_resource e)) = true
      ∧ is_spicedb_name (subject_type subject) = true
      ∧ bmap_get (action_name (req_action e)) (sp_permissions provider) = Some permission
      ∧ check_to_vec (check_of subject e permission) = Some body
      ∧ caveat_context e = Some (VObject m) ∧ reserved_entries e subject m
      ∧ send (sp_transport provider)
          (mk_http_request (lit "POST") (sp_endpoint provider) (evaluation_headers body) body) w = (Ok response, w')
      ∧ verdict_read provider response wire token d.
Proof.
  unfold evaluate_inner in Hd. destruct (req_subject e) as [|subject] eqn:Hs.
  { left. apply pair_equal_spec in Hd as [E <-]. by apply spice_decision_Ok in E as [? _]. }
  right. destruct (check_body provider subject e) as [body|] eqn:Hb; [|done].
  apply check_body_Ok in Hb as (permission & ? & ? & _ & ? & ? & ? & _). cbv zeta in Hd.
  destruct (send _ _ w) as [answer w1] eqn:Hsend. injection Hd as E <-.
  apply rbind_Ok in E as (response & ->%map_err_Ok & (wire & token & Hv & _)%read_response_Ok).
  destruct (caveat_context_reserved e subject Hs) as (m & ? & ?).
  exists subject, permission, body, response, wire, token, m. by split_and!.
Qed.
End decisions.

(** ** Identities *)

(** A reference to a subject names its issuer and its identifier. *)
Lemma canonical_subject_id_inj `{SpiceCodec} (a a' : AuthenticatedSubjectV1)
    (Hbase64 : ∀ b b', spice_base64 b = spice_base64 b' → b = b')
    (Ha : wire_subject (Contract.Authenticated a)) (Ha' : wire_subject (Contract.Authenticated a'))
    (Htext : wf_str (issuer a) = true ∧ wf_str (subject_id a) = true)
    (Htext' : wf_str (issuer a') = true ∧ wf_str (subject_id a') = true) :
  canonical_subject_id a = canonical_subject_id a' → issuer a = issuer a' ∧ subject_id a = subject_id a'.
Proof.
  unfold canonical_subject_id. intros E%app_inv_head%Hbase64.
  destruct Ha as [[_ _ Hi _ _ _ _ _] _], Ha' as [[_ _ Hi' _ _ _ _ _] _], Htext, Htext'.
  apply text_valid_spec in Hi as (_ & _ & _ & Hi), Hi' as (_ & _ & _ & Hi'). by apply nul_joined_inj in E.
Qed.

(** ** The permission map *)

(** The entries of a configured map are well formed, and each action is there
    once. *)
Lemma insert_mappings_Ok mappings : ∀ m0 m,
  msorted m0 → try_fold insert_mapping m0 mappings = Ok m →
  msorted m ∧ (∀ k, bmap_get k m = match list_find (λ x, x.1 = k) mappings with Some (_, x) => Some x.2 | None => bmap_get k m0 end)
  ∧ NoDup mappings.*1 ∧ (∀ x, x ∈ mappings → is_spicedb_name x.2 = true ∧ bmap_get x.1 m0 = None).
Proof.
  induction mappings as [|[action permission] mappings IH]; intros m0 m Hs; cbn [try_fold].
  { intros [= <-]. split_and!; [done|done|constructor|set_solver]. }
  intros (m1 & (name & _ & [[Hn Hc]%orb_false_iff [= <-]]%fail_Ok)%rbind_Ok & E)%rbind_Ok. cbn [fst snd] in *.
  apply negb_false_iff in Hn. unfold bmap_contains in Hc.
  assert (bmap_get action m0 = None) as Hnone by (destruct (bmap_get action m0); [done|done]).
  apply IH in E as (Hm & Hg & Hd & Hx); [|by apply bmap_insert_sorted]. cbn [fmap list_fmap].
  assert (∀ x, x ∈ mappings → x.1 ≠ action ∧ is_spicedb_name x.2 = true ∧ bmap_get x.1 m0 = None) as Hrest.
  { intros x Hin. destruct (Hx x Hin) as [? Hget]. rewrite bmap_get_insert in Hget by done. by case_bool_decide. }
  split_and!; [done| | |].
  - intros k. rewrite Hg, bmap_get_insert by done. cbn [list_find fst]. destruct (decide (action = k)) as [E|E].
    + destruct (list_find _ mappings) as [[i x]|] eqn:Ef; cbn; [|by rewrite bool_decide_true].
      apply list_find_Some in Ef as (Hl & <- & _). apply list_elem_of_lookup_2 in Hl. by destruct (Hrest x Hl).
    + destruct (list_find _ mappings) as [[i x]|] eqn:Ef; cbn; [done|]. by rewrite bool_decide_false by congruence.
  - constructor; [|done]. intros (x & Hx1 & Hin)%list_elem_of_fmap. by destruct (Hrest x Hin).
  - intros x [->|Hin]%elem_of_cons; [done|]. by destruct (Hrest x Hin).
Qed.

Definition mapping_text (x : str * str) : str := x.1 ++ 61 :: x.2.
Lemma push_mappings_Ok entries : ∀ acc out,
  (length acc ≤ MAX_PERMISSION_MAPPINGS)%nat → try_fold push_mapping acc entries = Ok out →
  (length out ≤ MAX_PERMISSION_MAPPINGS)%nat
  ∧ ∃ fresh, out = acc ++ fresh ∧ entries = map mapping_text fresh.
Proof.
  induction entries as [|entry entries IH]; intros acc out Hl; cbn [try_fold].
  { intros [= <-]. split; [done|]. exists []. by rewrite app_nil_r. }
  intros (acc' & [Hn (x & Hx%ok_or_Ok & [_ [= <-]]%fail_Ok)%rbind_Ok]%fail_Ok & E)%rbind_Ok.
  apply Nat.eqb_neq in Hn. apply IH in E as (Ho & fresh & -> & ->); [|rewrite length_app; cbn; lia]. split; [done|].
  exists (x :: fresh). rewrite <- app_assoc. split; [done|]. cbn. f_equal.
  destruct x as [a p]. by apply split_once_Some in Hx as [-> _].
Qed.
(** The configured permission map.  A value that loads is a list of 1 to 64
    entries [action=permission] between commas, whose actions are distinct and
    whose permissions are SpiceDB names, and the map holds exactly those
    entries. *)
Theorem permission_map_exact (value : str) (m : bmap str) (Hm : parse_permission_map value = Ok m) :
  ∃ mappings, split_char 44 value = map mapping_text mappings
    ∧ (1 ≤ length mappings ≤ MAX_PERMISSION_MAPPINGS)%nat
    ∧ NoDup mappings.*1
    ∧ (∀ x, x ∈ mappings → is_spicedb_name x.2 = true)
    ∧ ∀ action permission, permission_for m action = Ok permission ↔ (action, permission) ∈ mappings.
Proof.
  unfold parse_permission_map in Hm. apply fail_Ok in Hm as [_ (mappings & Hp & E%map_err_Ok)%rbind_Ok].
  apply push_mappings_Ok in Hp as (Hl & fresh & Hf & He); [|cbn; unfold MAX_PERMISSION_MAPPINGS; lia]. cbn in Hf. subst fresh.
  unfold PermissionMap_new in E. apply rbind_Ok in E as (m' & Hi & [_ [= ->]]%fail_Ok).
  apply insert_mappings_Ok in Hi as (_ & Hg & Hd & Hx); [|constructor].
  exists mappings. split_and!; [done| |done|done|by intros x [? _]%Hx|].
  { destruct mappings; [|cbn; lia]. by apply split_by_nil in He. }
  intros action permission. unfold permission_for. rewrite Hg. cbn [bmap_get].
  destruct (list_find _ mappings) as [[i [a p]]|] eqn:Ef; cbn.
  - apply list_find_Some in Ef as (Hi & <- & _). cbn. split; [intros [= <-]; by eapply list_elem_of_lookup_2|].
    intros (j & Hj)%list_elem_of_lookup. f_equal.
    assert (i = j) as -> by (eapply (NoDup_lookup _ _ _ a Hd); by rewrite list_lookup_fmap, ?Hi, ?Hj). congruence.
  - split; [done|]. intros Hin. apply list_find_None in Ef. rewrite Forall_forall in Ef. by destruct (Ef _ Hin).
Qed.

(** ** Who may ask *)

(** The bytes of the data frames. *)
Definition frame_data (frames : list BodyFrame) : list Z :=
  concat (map (λ frame, match frame with FrameData data => data | _ => [] end) frames).
Lemma collect_data_Ok frames : ∀ collected body,
  collect_data collected frames = Ok body → body = collected ++ frame_data frames.
Proof.
  induction frames as [|[data| | |] frames IH]; intros collected body E; cbn in E; try done.
  - injection E as <-. cbn. by rewrite app_nil_r.
  - apply fail_Ok in E as [_ E]. apply IH in E as ->. cbn. by rewrite <- app_assoc.
  - by apply IH in E as ->.
Qed.

Section component.
Context `{UriParser} `{HeaderBytesLaws} `{SpiceCodec} `{PdpCodec} `{WasiHttp} {W : Type} `{!Wasip3Host W}.
#[local] Set Default Proof Using "All".

Lemma error_status status : hs_status (error_response status) = status.
Proof. done. Qed.
Lemma refused_head_status request response : refused_head request = Some response → hs_status response ≠ 200.
Proof. unfold refused_head. repeat (destruct (_ : bool); [by intros [= <-]|]). done. Qed.
Lemma collect_data_status frames : ∀ collected status, collect_data collected frames = Err status → status ≠ 200.
Proof.
  induction frames as [|[data| | |] frames IH]; intros collected status E; cbn in E; try done; [| |by injection E as <-..].
  - destruct (_ <? _) in E; [by injection E as <-|]. by eapply IH.
  - by eapply IH.
Qed.
Lemma collect_bounded_status frames n status : collect_bounded_body frames n = Err status → status ≠ 200.
Proof.
  unfold collect_bounded_body. destruct (collect_data [] frames) as [b|] eqn:E; cbn; [|intros [= <-]; by eapply collect_data_status].
  destruct (negb _); [by intros [= <-]|done].
Qed.
Lemma declared_status headers status : declared_content_length headers = Err status → status ≠ 200.
Proof.
  unfold declared_content_length. destruct (get_all headers CONTENT_LENGTH) as [|v [|? ?]]; [by intros [= <-]| |by intros [= <-]].
  destruct (to_str v ≫= parse_usize) as [n|]; cbn -[MAX_DOCUMENT_BYTES]; [|by intros [= <-]].
  destruct (_ <? _); [by intros [= <-]|done].
Qed.
Lemma declared_Ok headers n :
  declared_content_length headers = Ok n →
  ∃ value, get_all headers CONTENT_LENGTH = [value] ∧ (to_str value ≫= parse_usize) = Some n ∧ n ≤ MAX_DOCUMENT_BYTES.
Proof.
  unfold declared_content_length. destruct (get_all headers CONTENT_LENGTH) as [|v [|? ?]]; try done.
  intros (m & Hp%ok_or_Ok & [Hm [= <-]]%fail_Ok)%rbind_Ok. bprop. by exists v.
Qed.
(** Status 200 is a decision of the provider. *)
Lemma answered_with_decision {P E V} `{!DecisionProvider P E V} (provider : P) request (w w' : V) response :
  handle_authzen_request provider request w = (response, w') → hs_status response = 200 →
  ∃ e d, AccessRequestV1_from_json_slice evaluation_from_slice (hq_body request) = Ok e
    ∧ provider_evaluate provider e w = (Ok d, w')
    ∧ DecisionResponseV1_to_json_vec decision_to_vec d = Ok (hs_body response).
Proof.
  unfold handle_authzen_request. destruct (refused_head request) as [r|] eqn:Hr; [intros [= <- <-]; by apply refused_head_status in Hr|].
  destruct (AccessRequestV1_from_json_slice _ _) as [e|] eqn:He; [|by intros [= <- <-]].
  destruct (provider_evaluate provider e w) as [[d|] w1] eqn:Hd; [|by intros [= <- <-]].
  intros [= <- <-] Hs. exists e, d. split_and!; [done|done|]. unfold decision_response in *.
  destruct (DecisionResponseV1_to_json_vec decision_to_vec d) as [body|]; [|done]. by destruct (_ <=? _).
Qed.

(** What a loaded configuration says of the two credentials. *)
Record credentials_apart (config : ComponentConfig) : Prop := {
  ca_apart : match inbound_authentication config with
             | Bearer token => lit "Bearer " ++ bt_token token
                               ≠ as_bytes (bt_authorization (ba_token (sp_transport (provider config))))
             | UnauthenticatedLoopbackDevelopment => True
             end;
  ca_endpoint : uri_path (sp_endpoint (provider config)) = CHECK_PERMISSION_PATH
                ∧ valid_authority (sp_endpoint (provider config)) = true;
}.
Lemma endpoint_path (loopback : bool) value uri :
  (if loopback then SpiceDbEndpoint_new_loopback_for_dev value else SpiceDbEndpoint_new value) = Ok uri →
  uri_path uri = CHECK_PERMISSION_PATH ∧ valid_authority uri = true.
Proof.
  intros E. assert (parse_endpoint value = Ok uri) as Hp.
  { destruct loopback; unfold SpiceDbEndpoint_new_loopback_for_dev, SpiceDbEndpoint_new in E;
      apply rbind_Ok in E as (u & Hu & [_ [= <-]]%fail_Ok); done. }
  unfold parse_endpoint in Hp. apply rbind_Ok in Hp as (u & _ & [Hv [= <-]]%fail_Ok).
  apply negb_false_iff in Hv. apply andb_true_iff in Hv as [[? Hv]%andb_true_iff _]. by apply bool_decide_eq_true in Hv.
Qed.
Lemma loaded_credentials env config : spice_from_environment env = Ok config → credentials_apart config.
Proof.
  unfold spice_from_environment. intros (values & _ & E)%rbind_Ok.
  apply rbind_Ok in E as (endpoint_value & _ & (loopback & _ & (endpoint & Hep%map_err_Ok & E)%rbind_Ok)%rbind_Ok).
  apply rbind_Ok in E as (token & _ & (authentication & Hin & (map_value & _ & (permissions & _ & E)%rbind_Ok)%rbind_Ok)%rbind_Ok).
  apply rbind_Ok in E as (t0 & _ & (transport & Ht%map_err_Ok & (revision & _ & (version & _ & E)%rbind_Ok)%rbind_Ok)%rbind_Ok).
  apply rbind_Ok in E as (provider & Hp%map_err_Ok & [= <-]).
  unfold SpiceDbProvider_new in Hp. bind_inv Hp. injection Hp as <-.
  unfold BearerAuthTransport_new in Ht. apply rbind_Ok in Ht as (bearer & (_ & _ & _ & Hb)%bearer_new_Ok & [= <-]).
  split; cbn; [|by eapply endpoint_path]. rewrite Hb, str_bytes_app, (str_bytes_ascii (lit "Bearer ")) by (vm_compute; by repeat constructor).
  unfold inbound in Hin. apply rbind_Ok in Hin as (allowed & _ & Hin).
  destruct (bmap_get PEP_BEARER_ENV values) as [pep|], allowed; try done; [|by injection Hin as <-].
  apply rbind_Ok in Hin as (b & _ & [Hc [= <-]]%fail_Ok). intros E%app_inv_head.
  apply constant_time_eq_spec in E. congruence.
Qed.

(** The variables that the component reads are those of the deployment. *)
Lemma select_variable_Ok acc env values :
  msorted acc → try_fold select_variable acc env = Ok values →
  ∀ name v, name ∈ selected_names →
    (bmap_get name values = Some v ↔ bmap_get name acc = Some v ∨ (name, v) ∈ env)
    ∧ (is_Some (bmap_get name acc) → ∀ v', (name, v') ∉ env).
Proof.
  revert acc. induction env as [|[n x] env IH]; cbn [try_fold]; intros acc Hs E name v Hn.
  { injection E as <-. split; [|by intros _ v' ?%elem_of_nil]. split; [by left|]. intros [?|?%elem_of_nil]; done. }
  apply rbind_Ok in E as (acc' & Hacc & E). unfold select_variable in Hacc. cbn [fst snd] in Hacc.
  setoid_rewrite elem_of_cons. case_bool_decide as Hsel.
  - apply fail_Ok in Hacc as [Hnew [= <-]].
    assert (bmap_get n acc = None) as Hnone by (unfold bmap_contains in Hnew; by destruct (bmap_get n acc)).
    apply (bmap_insert_sorted n x) in Hs as Hs'. destruct (IH _ Hs' E name v Hn) as [Hiff Hfree].
    rewrite bmap_get_insert in Hiff, Hfree by done. case_bool_decide as Hd; subst.
    + split; [|by rewrite Hnone; intros []]. rewrite Hiff, Hnone.
      split; [intros [[= ->]|?]; auto|]. intros [?|[[= ->]|?]]; [done|by left|by right].
    + split; [rewrite Hiff; split; intros [?|?]; auto; naive_solver|]. intros Hi v' [[= -> _]|?]; [done|by eapply Hfree].
  - injection Hacc as <-. destruct (IH _ Hs E name v Hn) as [Hiff Hfree]. split; [rewrite Hiff; naive_solver|].
    intros Hi v' [[= <- _]|?]; [done|by eapply Hfree].
Qed.
Lemma selected_get env values name v :
  selected_environment env = Ok values → name ∈ selected_names → bmap_get name values = Some v ↔ (name, v) ∈ env.
Proof.
  intros E Hn. destruct (select_variable_Ok [] env values ltac:(constructor) E name v Hn) as [-> _]. cbn. naive_solver.
Qed.

(** The callers a deployment admits: one who presents its bearer token, which
    is not the token for SpiceDB; and one without a credential on a loopback
    address, where the deployment has no bearer token and says explicitly
    that it is for development. *)
Definition admitted (env : environment) (head : HttpRequest) : Prop :=
  (∃ token value, (lit "WASI_AUTHZ_PDP_BEARER_TOKEN", token) ∈ env
     ∧ ¬ (lit "WASI_AUTHZ_PDP_ALLOW_UNAUTHENTICATED_LOOPBACK_DEV", lit "true") ∈ env
     ∧ ¬ (lit "WASI_AUTHZ_SPICEDB_BEARER_TOKEN", token) ∈ env
     ∧ get_all (hq_headers head) AUTHORIZATION = [value] ∧ as_bytes value = lit "Bearer " ++ str_bytes token)
  ∨ ((lit "WASI_AUTHZ_PDP_ALLOW_UNAUTHENTICATED_LOOPBACK_DEV", lit "true") ∈ env
     ∧ (∀ token, (lit "WASI_AUTHZ_PDP_BEARER_TOKEN", token) ∉ env)
     ∧ get_all (hq_headers head) AUTHORIZATION = [] ∧ scheme_str (hq_uri head) = Some (lit "http")
     ∧ ∃ host, uri_host (hq_uri head) = Some host
         ∧ host ∈ [lit "localhost"; lit "127.0.0.1"; lit "::1"; lit "[::1]"]).
Lemma boolean_Ok values name b :
  boolean values name = Ok b → b = true ↔ bmap_get name values = Some (lit "true").
Proof.
  unfold boolean. destruct (bmap_get name values) as [v|]; [|by intros [= <-]].
  case_bool_decide as Hf; [intros [= <-]; by subst|]. case_bool_decide as Ht; [intros [= <-]; by subst|done].
Qed.
Lemma loaded_admits env config head :
  spice_from_environment env = Ok config → authorizes (inbound_authentication config) head = true → admitted env head.
Proof.
  unfold spice_from_environment. intros (values & Hv & E)%rbind_Ok Ha.
  apply rbind_Ok in E as (endpoint_value & _ & (loopback & _ & (endpoint & _ & E)%rbind_Ok)%rbind_Ok).
  apply rbind_Ok in E as (token & Htok & (authentication & Hin & E)%rbind_Ok).
  bind_inv E. injection E as <-. cbn [inbound_authentication] in Ha.
  assert (bmap_get SPICEDB_BEARER_ENV values = Some token) as Hspice.
  { unfold required in Htok. destruct (bmap_get SPICEDB_BEARER_ENV values); [|done]. by apply fail_Ok in Htok as [_ [= <-]]. }
  unfold inbound in Hin. apply rbind_Ok in Hin as (allowed & Hall%boolean_Ok & Hin).
  assert (∀ name v, name ∈ selected_names → bmap_get name values = Some v ↔ (name, v) ∈ env) as Hget by (intros; by apply selected_get).
  destruct (bmap_get PEP_BEARER_ENV values) as [pep|] eqn:Hpep, allowed; try done; [left|right].
  - apply rbind_Ok in Hin as (b & (_ & _ & Hb & _)%map_err_Ok%bearer_new_Ok & [Hc [= <-]]%fail_Ok). cbn in Ha.
    unfold single_bearer in Ha. destruct (get_all (hq_headers head) AUTHORIZATION) as [|value [|? ?]] eqn:Hg; try discriminate Ha.
    destruct (strip_prefix (lit "Bearer ") (as_bytes value)) as [actual|] eqn:Hs; [|done].
    apply constant_time_eq_spec in Ha as ->. apply strip_prefix_Some in Hs. exists pep, value. rewrite <- Hb. split_and!; try done.
    + apply Hget; [by vm_compute; left|done].
    + intros Ht%Hget; [|vm_compute; set_solver]. by apply Hall in Ht.
    + intros Ht%Hget; [|vm_compute; set_solver]. change (bmap_get SPICEDB_BEARER_ENV values = Some pep) in Ht.
      rewrite Hspice in Ht. injection Ht as ->. apply not_true_iff_false in Hc. apply Hc. by apply constant_time_eq_spec.
  - injection Hin as <-. cbn in Ha. apply andb_true_iff in Ha as [Hn [Hh Hl]%andb_true_iff]. bprop. split_and!; try done.
    + apply Hget; [vm_compute; set_solver|]. by apply Hall.
    + intros t Ht%Hget; [|vm_compute; set_solver]. change (bmap_get PEP_BEARER_ENV values = Some t) in Ht. congruence.
    + by apply length_zero_iff_nil in Hn.
    + unfold loopback_host in Hl. destruct (uri_host (hq_uri head)) as [host|]; [|done]. exists host. by bprop.
Qed.

(** C28: Whom the component answers.  A decision leaves the component only for
    a request whose one authorization header is, in every byte, the bearer
    token that the deployment configured; or, where the deployment explicitly
    sets the development flag and configures no token, for a loopback request
    without a credential.  The credential that the component sends to SpiceDB
    is another one.  The decision is that of the provider on the document
    made of the data of the request body, which has its declared length of at
    most 64 KiB. *)
Theorem spice_component_guarded (env : environment) (converted : option (HttpRequest * list BodyFrame)) (w w' : W)
    (response : HttpResponse) (Hrun : spice_handle env converted w = (response, w')) (Hanswered : hs_status response = 200) :
  ∃ config head frames length_header e d,
    spice_from_environment env = Ok config ∧ converted = Some (head, frames) ∧ credentials_apart config
    ∧ admitted env head
    ∧ get_all (hq_headers head) CONTENT_LENGTH = [length_header]
    ∧ (to_str length_header ≫= parse_usize) = Some (Z.of_nat (length (frame_data frames)))
    ∧ Z.of_nat (length (frame_data frames)) ≤ 65536
    ∧ AccessRequestV1_from_json_slice evaluation_from_slice (frame_data frames) = Ok e
    ∧ evaluate_inner (provider config) e w = (Ok d, w')
    ∧ DecisionResponseV1_to_json_vec decision_to_vec d = Ok (hs_body response).
Proof.
  unfold spice_handle in Hrun. destruct (spice_from_environment env) as [config|] eqn:Hc; [|by injection Hrun as <- <-].
  destruct converted as [[head frames]|]; [|by injection Hrun as <- <-].
  destruct (authorizes (inbound_authentication config) head) eqn:Ha; [|by injection Hrun as <- <-]. cbn [negb] in Hrun. cbv zeta in Hrun.
  destruct (refused_head _) as [r|] eqn:Hr; [injection Hrun as <- <-; by apply refused_head_status in Hr|].
  destruct (declared_content_length _) as [declared|st] eqn:Hd; [|injection Hrun as <- <-; by apply declared_status in Hd].
  destruct (collect_bounded_body frames declared) as [body|st] eqn:Hb; [|injection Hrun as <- <-; by apply collect_bounded_status in Hb].
  apply answered_with_decision in Hrun as (e & d & He & Hev & Hj); [|done].
  unfold collect_bounded_body in Hb. apply rbind_Ok in Hb as (b & ->%collect_data_Ok & [Hl [= <-]]%fail_Ok).
  apply negb_false_iff, Z.eqb_eq in Hl. subst declared. apply declared_Ok in Hd as (length_header & Hg & Hp & Hm).
  rewrite get_all_remove, bool_decide_false in Hg by done.
  exists config, head, frames, length_header, e, d.
  split_and!; try done; [by apply loaded_credentials in Hc|by eapply loaded_admits].
Qed.
End component.

(** ** Asking the component *)

Section remote.
Context `{UriParser} `{HeaderBytesLaws} `{PdpCodec} `{AuthzenCodec}.
#[local] Set Default Proof Using "All".

(** A transport that hands the request to the service of a provider. *)
Record DecisionService (P : Type) := mk_decision_service { ds_provider : P }.
#[global] Arguments mk_decision_service {P}.
#[global] Arguments ds_provider {P}.
#[local] Instance decision_service {P E V} `{!DecisionProvider P E V} : HttpTransport (DecisionService P) V :=
  {| send service request w := let '(response, w) := handle_authzen_request (ds_provider service) request w in (Ok response, w) |}.

Lemma decision_response_type body :
  get_all (hs_headers (response 200 body [(CONTENT_TYPE, from_static APPLICATION_JSON)])) CONTENT_TYPE = [from_static APPLICATION_JSON].
Proof.
  unfold response. cbn [hs_headers foldl fst snd]. cbv zeta.
  destruct (from_str _); rewrite ?get_all_insert, ?(bool_decide_false (CONTENT_TYPE = CONTENT_LENGTH)),
    ?(bool_decide_true (CONTENT_TYPE = CONTENT_TYPE)) by done; done.
Qed.

(** Any provider may be asked through its service. *)
Lemma remote_agrees {P E V} `{!DecisionProvider P E V} (provider : P) (endpoint : Uri) (e : AccessEvaluation) (w : V)
    (Hrequests : ∀ wire b, evaluation_to_vec wire = Some b → evaluation_from_slice b = Some wire)
    (Hdecisions : ∀ wire b, decision_to_vec wire = Some b → decision_from_slice b = Some wire)
    (Hprovider : ∀ d w', provider_evaluate provider e w = (Ok d, w') → wf_metadata (Contract.metadata d))
    (Hendpoint : valid_path endpoint = true) (He : wire_request e) :
  client_evaluate (mk_client endpoint (mk_decision_service provider)) e w =
    match AccessRequestV1_to_json_vec evaluation_to_vec e with
    | Err error => (Err (ClContract error), w)
    | Ok _ =>
        let '(answer, w') := provider_evaluate provider e w in
        (match answer with
         | Ok d => if is_ok (DecisionResponseV1_to_json_vec decision_to_vec d) then Ok d else Err AuthzClient.ProviderUnavailable
         | Err _ => Err AuthzClient.ProviderUnavailable
         end, w')
    end.
Proof.
  unfold client_evaluate. destruct (AccessRequestV1_to_json_vec evaluation_to_vec e) as [body|] eqn:Hb; [|done].
  cbv zeta. cbn [send decision_service cl_transport ds_provider].
  pose proof (encoded_bounded _ _ _ Hb) as Hl. destruct (evaluation_headers_accepted body Hl) as [Hct _].
  unfold valid_path in Hendpoint. apply andb_true_iff in Hendpoint as [Hp Hq].
  unfold handle_authzen_request, refused_head. cbn [hq_method hq_uri hq_headers hq_body cl_endpoint].
  rewrite bool_decide_true, Hp, Hq, Hct by done. cbn [negb orb].
  rewrite (request_roundtrip _ evaluation_from_slice e body Hrequests He Hb).
  destruct (provider_evaluate provider e w) as [[d|] w'] eqn:Hev; cbn [map_err rbind]; [|by rewrite decode_unavailable].
  f_equal. unfold decision_response.
  destruct (DecisionResponseV1_to_json_vec decision_to_vec d) as [answer|] eqn:Hd; [|by apply decode_unavailable]. cbn [is_ok].
  pose proof (encoded_bounded _ _ _ Hd) as Ha. rewrite (proj2 (Z.leb_le _ _) Ha).
  apply (decode_answered _ answer); [done|done|done|apply decision_response_type|].
  eapply decision_roundtrip; [done|by eapply Hprovider|done].
Qed.

Context `{SpiceCodec} {T W : Type} `{!HttpTransport T W}.

Lemma spice_decision_wf (provider : SpiceDbProvider T) allowed token d :
  (∃ u t m r v, SpiceDbProvider_new u t m r v = Ok provider) →
  (∀ x, token = Some x → text_valid x MAX_REVISION_LEN = true) →
  spice_decision provider allowed token = Ok d → wf_metadata (Contract.metadata d).
Proof.
  intros (u & t & m & r & v & Hn) Ht E. unfold SpiceDbProvider_new in Hn. bind_inv Hn. injection Hn as <-.
  unfold spice_decision in E. bind_inv E. injection E as <-.
  repeat match goal with
    H : bounded_metadata _ = Ok _ |- _ => apply map_err_Ok in H; first [apply bounded_text_Ok in H as [-> ?]|apply bounded_identifier_Ok in H as [-> ?]]
  end.
  destruct allowed; constructor; cbn; try (intros y [= <-]; done); done.
Qed.
(** The component is the provider.  For an endpoint of the right path, JSON
    codecs that read back what they wrote, and an evaluation in profile, the
    AuthZEN client that talks to the service of the SpiceDB provider returns
    exactly its decision on the very same evaluation, with the same effect;
    where the provider fails, or its decision is too large to encode, the
    client reports an unavailable provider and never a decision. *)
Theorem remote_spice_agrees (provider : SpiceDbProvider T) (endpoint : Uri) (e : AccessEvaluation) (w : W)
    (Hrequests : ∀ wire b, evaluation_to_vec wire = Some b → evaluation_from_slice b = Some wire)
    (Hdecisions : ∀ wire b, decision_to_vec wire = Some b → decision_from_slice b = Some wire)
    (Hprovider : ∃ u t m r v, SpiceDbProvider_new u t m r v = Ok provider)
    (Hendpoint : valid_path endpoint = true) (He : wire_request e) :
  client_evaluate (mk_client endpoint (mk_decision_service provider)) e w =
    match AccessRequestV1_to_json_vec evaluation_to_vec e with
    | Err error => (Err (ClContract error), w)
    | Ok _ =>
        let '(answer, w') := evaluate_inner provider e w in
        (match answer with
         | Ok d => if is_ok (DecisionResponseV1_to_json_vec decision_to_vec d) then Ok d else Err AuthzClient.ProviderUnavailable
         | Err _ => Err AuthzClient.ProviderUnavailable
         end, w')
    end.
Proof.
  rewrite (remote_agrees provider endpoint e w Hrequests Hdecisions); [done| |done|done].
  intros d w' Hd. cbn [provider_evaluate spicedb_decision_provider] in Hd. unfold evaluate_inner in Hd.
  destruct (req_subject e) as [|subject].
  { apply pair_equal_spec in Hd as [E _]. by apply (spice_decision_wf provider false None). }
  destruct (check_body provider subject e) as [body|]; [|done]. destruct (send _ _ w) as [answer w1].
  apply pair_equal_spec in Hd as [E _]. apply rbind_Ok in E as (r & _ & (wire & token & _ & E & Ht)%read_response_Ok).
  eapply spice_decision_wf; [done| |done]. intros x [= <-]. by apply bounded_text_Ok in Ht as [_ ?].
Qed.
End remote.
