(* ===== verification/Administration.v ===== *)
(** * Administration: policy bundles and signing keys

    Models src/crates/wasi-auth/src/postgres/{policy,signing}.rs with their SQL
    files: publication, listing and loading of Cedar policy bundles, and the
    synchronization, listing and rotation of signing keys.  The two tables are
    here; sessions, users, administrators and the audit log are those of
    [KernelState], and [view] is what the statements of [Kernel] read of the
    tables.  Rows are written one data-modifying expression at a time, because
    the partial unique indexes (one active key, one active bundle) are checked
    at each; where the text of a statement does not order two of them, the
    order is an argument. *)

From S2P Require Export Tokens OrganizationHistory.
From S2P Require Import Cedar.
Open Scope Z_scope.

#[local] Arguments lit : simpl never.

(** ** Tables *)

Inductive BundleStatus := BStaged | BActive | BRetired.
#[export] Instance BundleStatus_eq_dec : EqDecision BundleStatus.
Proof. solve_decision. Defined.
Definition bundle_status_text (s : BundleStatus) : str :=
  lit match s with BStaged => "staged" | BActive => "active" | BRetired => "retired" end.
Definition signing_status_text (s : SigningKeyStatus) : str :=
  lit match s with KeyNext => "next" | KeyActive => "active" | KeyRetired => "retired" | KeyRevoked => "revoked" end.
Definition signing_status_of (s : str) : option SigningKeyStatus :=
  find (λ st, bool_decide (signing_status_text st = s)) [KeyNext; KeyActive; KeyRetired; KeyRevoked].

(** [auth_policy_bundles], by [policy_revision] *)
Record BundleRow := mk_bundle {
  bu_schema : str;
  bu_policy : str;
  bu_entities : Value;
  bu_checksum : list Z;
  bu_status : BundleStatus;
  bu_created_by : Uuid;
  bu_created_at_ms : Z;
  bu_activated_at_ms : option Z;
}.
(** [auth_signing_keys], by [key_id] *)
Record KeyRow := mk_key {
  ky_algorithm : str;
  ky_status : SigningKeyStatus;
  ky_public_jwk : Value;
  ky_key_version : str;
  ky_secret_reference : option str;
  ky_created_at_ms : Z;
  ky_activated_at_ms : option Z;
  ky_retired_at_ms : option Z;
  ky_revoked_at_ms : option Z;
}.
Record AdminDb := mk_admin {
  ad_db : Db;
  ad_bundles : gmap str BundleRow;
  ad_keys : gmap str KeyRow;
}.
Definition bundle_active (b : BundleRow) : bool := bool_decide (bu_status b = BActive).
Definition key_active (k : KeyRow) : bool := bool_decide (ky_status k = KeyActive).

(** What the kernel reads: the status of every key and the active revision. *)
Definition active_revision (bundles : gmap str BundleRow) : option str :=
  fst <$> find (λ kb, bundle_active kb.2) (map_to_list bundles).
Definition view (d : AdminDb) : Db :=
  set_directory (λ r, mk_directory (organizations r) (org_roles r) (memberships r) (granted_permissions r)
    (invitations r) (administrators r) (ky_status <$> ad_keys d) (active_revision (ad_bundles d))) (ad_db d).

(** A partial unique index on the active rows: a row becomes active only if no
    other is. *)
Definition write_unique {V} (active : V → bool) (id : str) (v : V) (m : gmap str V) : option (gmap str V) :=
  if active v && existsb (λ kv, negb (bool_decide (kv.1 = id)) && active kv.2) (map_to_list m)
  then None else Some (<[id := v]> m).
(** [auth_one_active_policy_idx] and [auth_one_active_signing_key_idx] *)
Definition write_bundle := write_unique bundle_active.
Definition write_key := write_unique key_active.

(** ** Policy bundles *)

Section statements.
Context `{UuidText}.

Definition with_bundle_status (st : BundleStatus) (at_ms : option Z) (b : BundleRow) : BundleRow :=
  mk_bundle (bu_schema b) (bu_policy b) (bu_entities b) (bu_checksum b) st (bu_created_by b) (bu_created_at_ms b) at_ms.
Record PublishArgs := mk_publish {
  pb_session : Uuid; pb_revision : str; pb_schema : str; pb_policy : str; pb_entities : Value; pb_checksum : list Z;
  pb_now : Z; pb_audit_id : Uuid; pb_request_id : str }.
(** [retired] *)
Definition retire_bundles (checksum : list Z) (bundles : gmap str BundleRow) : gmap str BundleRow :=
  update_rows (λ _ b, bundle_active b && negb (bool_decide (bu_checksum b = checksum)))
    (λ b, with_bundle_status BRetired (bu_activated_at_ms b) b) bundles.
(** [published]: [ON CONFLICT (checksum) DO UPDATE]; the primary key is the
    other way in which the insert can conflict. *)
Definition upsert_bundle (a : PublishArgs) (actor : Uuid) (bundles : gmap str BundleRow) :
    option ((str * BundleRow) * gmap str BundleRow) :=
  match find (λ kb, bool_decide (bu_checksum kb.2 = pb_checksum a)) (map_to_list bundles) with
  | Some (revision, b) =>
      let b := with_bundle_status BActive (Some (pb_now a)) b in
      bundles ← write_bundle revision b bundles; Some ((revision, b), bundles)
  | None =>
      let b := mk_bundle (pb_schema a) (pb_policy a) (pb_entities a) (pb_checksum a) BActive actor (pb_now a) (Some (pb_now a)) in
      match bundles !! pb_revision a with
      | Some _ => None
      | None => bundles ← write_bundle (pb_revision a) b bundles; Some ((pb_revision a, b), bundles)
      end
  end.
(** publish_policy_bundle.sql; [published] does not refer to [retired], so the
    server may execute either first. *)
Definition publish_policy_bundle (retired_first : bool) (a : PublishArgs) (d : AdminDb) :
    option (option (str * BundleRow) * AdminDb) :=
  match administrator_actor (pb_session a) (pb_now a) (ad_db d) with
  | None => Some (None, d)
  | Some s =>
      '(out, bundles) ← (if retired_first then upsert_bundle a (s_user s) (retire_bundles (pb_checksum a) (ad_bundles d))
                         else '(out, bundles) ← upsert_bundle a (s_user s) (ad_bundles d);
                              Some (out, retire_bundles (pb_checksum a) bundles));
      db ← insert_audit (mk_audit (pb_audit_id a) (Some (s_user s)) (Some (pb_session a)) (lit "auth.policy.publish")
             (lit "policy_bundle", out.1) true (pb_request_id a) (pb_now a)) (ad_db d);
      Some (Some out, mk_admin db bundles (ad_keys d))
  end.
(** list_policy_bundles.sql: [ORDER BY created_at_ms DESC, policy_revision DESC] *)
Definition bundle_order (a b : str * BundleRow) : Prop :=
  bu_created_at_ms b.2 < bu_created_at_ms a.2
  ∨ (bu_created_at_ms a.2 = bu_created_at_ms b.2 ∧ str_le b.1 a.1).
#[export] Instance bundle_order_dec : RelDecision bundle_order.
Proof. intros a b. unfold bundle_order. apply _. Defined.
Definition list_policy_bundles (limit : Z) (d : AdminDb) : list (str * BundleRow) :=
  take (Z.to_nat limit) (merge_sort bundle_order (map_to_list (ad_bundles d))).
(** load_active_policy_bundle.sql: the index leaves at most one row to order. *)
Definition load_active_policy_bundle (d : AdminDb) : option (str * BundleRow) :=
  find (λ kb, bundle_active kb.2) (map_to_list (ad_bundles d)).

(** ** Signing keys *)

Record Configured := mk_configured {
  cf_key_id : option str;
  cf_algorithm : option str;
  cf_status : option str;
  cf_public_jwk : option Value;
  cf_has_private_material : bool;
}.
(** [configured]: the members of an element of the document. *)
Definition configured (v : Value) : Configured :=
  mk_configured (value_get (lit "kid") v ≫= as_str) (value_get (lit "algorithm") v ≫= as_str)
    (value_get (lit "status") v ≫= as_str) (value_get (lit "public_jwk") v)
    match value_get (lit "has_private_material") v with Some (VBool b) => b | _ => false end.
(** The rows that [synced] inserts. *)
Definition accepted_row (version : str) (now : Z) (c : Configured) : option (str * KeyRow) :=
  key_id ← cf_key_id c; algorithm ← cf_algorithm c; status ← cf_status c ≫= signing_status_of; jwk ← cf_public_jwk c;
  if bool_decide (algorithm ∈ [lit "ES256"; lit "HS256"]) && cf_has_private_material c then
    Some (key_id, mk_key algorithm status jwk version (Some (lit "runtime-key-ring:" ++ key_id)) now
      (if bool_decide (status = KeyActive) then Some now else None)
      (if bool_decide (status = KeyRetired) then Some now else None)
      (if bool_decide (status = KeyRevoked) then Some now else None))
  else None.
Definition retire_key (now : Z) (k : KeyRow) : KeyRow :=
  mk_key (ky_algorithm k) KeyRetired (ky_public_jwk k) (ky_key_version k) (ky_secret_reference k) (ky_created_at_ms k)
    None (Some now) (ky_revoked_at_ms k).
(** [retired_missing] *)
Definition retire_missing (ids : list str) (now : Z) (keys : gmap str KeyRow) : gmap str KeyRow :=
  update_rows (λ id k, bool_decide (ky_status k ∈ [KeyActive; KeyNext]) && negb (bool_decide (id ∈ ids))) (retire_key now) keys.
(** [ON CONFLICT (key_id) DO UPDATE] keeps the status of a known key. *)
Definition upsert_key (keys : gmap str KeyRow) (row : str * KeyRow) : option (gmap str KeyRow) :=
  match keys !! row.1 with
  | Some k =>
      write_key row.1 (mk_key (ky_algorithm row.2) (ky_status k) (ky_public_jwk row.2) (ky_key_version row.2)
        (ky_secret_reference row.2) (ky_created_at_ms k) (ky_activated_at_ms k) (ky_retired_at_ms k) (ky_revoked_at_ms k)) keys
  | None => write_key row.1 row.2 keys
  end.
Fixpoint upsert_keys (rows : list (str * KeyRow)) (keys : gmap str KeyRow) : option (gmap str KeyRow) :=
  match rows with
  | [] => Some keys
  | row :: rows => keys ← upsert_key keys row; upsert_keys rows keys
  end.
(** sync_signing_keys.sql; [retirement_guard] makes the retirement come first,
    and a command cannot update a row that it wrote before. *)
Definition sync_signing_keys (document : list Value) (version : str) (now : Z) (d : AdminDb) : option (nat * AdminDb) :=
  let ids := omap (λ v, cf_key_id (configured v)) document in
  let rows := omap (λ v, accepted_row version now (configured v)) document in
  if bool_decide (NoDup rows.*1) then
    keys ← upsert_keys rows (retire_missing ids now (ad_keys d));
    Some (length rows, mk_admin (ad_db d) (ad_bundles d) keys)
  else None.
(** list_signing_key_metadata.sql: [ORDER BY created_at_ms, key_id] *)
Definition key_order (a b : str * KeyRow) : Prop :=
  ky_created_at_ms a.2 < ky_created_at_ms b.2 ∨ (ky_created_at_ms a.2 = ky_created_at_ms b.2 ∧ str_le a.1 b.1).
#[export] Instance key_order_dec : RelDecision key_order.
Proof. intros a b. unfold key_order. apply _. Defined.
Definition list_signing_keys (d : AdminDb) : list (str * KeyRow) := merge_sort key_order (map_to_list (ad_keys d)).

Definition replace_active (retire : bool) (now : Z) (k : KeyRow) : KeyRow :=
  mk_key (ky_algorithm k) (if retire then KeyRetired else KeyNext) (ky_public_jwk k) (ky_key_version k)
    (ky_secret_reference k) (ky_created_at_ms k) None (if retire then Some now else None) (ky_revoked_at_ms k).
Definition activate_key (now : Z) (k : KeyRow) : KeyRow :=
  mk_key (ky_algorithm k) KeyActive (ky_public_jwk k) (ky_key_version k) (ky_secret_reference k) (ky_created_at_ms k)
    (Some now) None None.
(** rotate_signing_key.sql; [change_guard] makes the change of the previous key
    come first. *)
Definition rotate_signing_key (session : Uuid) (id : str) (retire_previous : bool) (audit_id : Uuid) (now : Z)
    (request_id : str) (d : AdminDb) : option (option (str * KeyRow * option str) * AdminDb) :=
  match (s ← administrator_actor session now (ad_db d); k ← ad_keys d !! id;
         if negb (bool_decide (ky_status k = KeyRevoked)) && bool_decide (is_Some (ky_secret_reference k))
         then Some (s, k) else None) with
  | None => Some (None, d)
  | Some (s, k) =>
      let previous := fst <$> find (λ kk, key_active kk.2) (map_to_list (ad_keys d)) in
      let keys := update_rows (λ id' k', key_active k' && negb (bool_decide (id' = id))) (replace_active retire_previous now)
                    (ad_keys d) in
      keys ← write_key id (activate_key now k) keys;
      db ← insert_audit (mk_audit audit_id (Some (s_user s)) (Some session) (lit "auth.signing-key.activate")
             (lit "signing_key", id) true request_id now) (ad_db d);
      Some (Some (id, activate_key now k, previous), mk_admin db (ad_bundles d) keys)
  end.
End statements.

(** ** The statements on their parameters *)

Inductive AdminSql :=
| LIST_POLICY_BUNDLES_SQL | LOAD_ACTIVE_POLICY_BUNDLE_SQL | PUBLISH_POLICY_BUNDLE_SQL
| SYNC_SIGNING_KEYS_SQL | LIST_SIGNING_KEYS_SQL | ROTATE_SIGNING_KEY_SQL.

Definition hex_digit (n : Z) : char := if n <? 10 then 48 + n else 87 + n.
(** [format!("{byte:02x}")], and [encode(.., 'hex')] *)
Definition hex (value : list Z) : str :=
  flat_map (λ byte, [hex_digit (Z.shiftr byte 4); hex_digit (Z.land byte 15)]) value.

Section wire.
Context `{UuidText}.

Definition bundle_columns (kb : str * BundleRow) : list (str * PgValue) :=
  [(lit "policy_revision", PgText kb.1); (lit "checksum_hex", PgText (hex (bu_checksum kb.2)));
   (lit "status", PgText (bundle_status_text (bu_status kb.2))); (lit "created_by", PgText (uuid_to_string (bu_created_by kb.2)));
   (lit "created_at_ms", PgI64 (bu_created_at_ms kb.2)); (lit "activated_at_ms", pg_i64 (bu_activated_at_ms kb.2))].
Definition active_columns (kb : str * BundleRow) : list (str * PgValue) :=
  [(lit "policy_revision", PgText kb.1); (lit "cedar_schema", PgText (bu_schema kb.2));
   (lit "cedar_policy", PgText (bu_policy kb.2)); (lit "entities", PgJson (bu_entities kb.2))].
Definition key_columns (kk : str * KeyRow) : list (str * PgValue) :=
  [(lit "key_id", PgText kk.1); (lit "algorithm", PgText (ky_algorithm kk.2));
   (lit "status", PgText (signing_status_text (ky_status kk.2))); (lit "public_jwk", PgJson (ky_public_jwk kk.2));
   (lit "key_version", PgText (ky_key_version kk.2)); (lit "secret_reference", pg_text (ky_secret_reference kk.2));
   (lit "created_at_ms", PgI64 (ky_created_at_ms kk.2)); (lit "activated_at_ms", pg_i64 (ky_activated_at_ms kk.2));
   (lit "retired_at_ms", pg_i64 (ky_retired_at_ms kk.2)); (lit "revoked_at_ms", pg_i64 (ky_revoked_at_ms kk.2))].
Definition rotation_columns (r : str * KeyRow * option str) : list (str * PgValue) :=
  [(lit "key_id", PgText r.1.1); (lit "algorithm", PgText (ky_algorithm r.1.2));
   (lit "status", PgText (signing_status_text (ky_status r.1.2))); (lit "created_at_ms", PgI64 (ky_created_at_ms r.1.2));
   (lit "activated_at_ms", pg_i64 (ky_activated_at_ms r.1.2)); (lit "previous_key_id", pg_text r.2)].

(** [retired_first] is the order that the server chose. *)
Definition admin_exec (sql : AdminSql) (ps : list PgValue) (retired_first : bool) (d : AdminDb) :
    option (list PgRow * AdminDb) :=
  match sql, ps with
  | LIST_POLICY_BUNDLES_SQL, [PgI64 limit] => Some (map (λ kb, PgRow_new (bundle_columns kb)) (list_policy_bundles limit d), d)
  | LOAD_ACTIVE_POLICY_BUNDLE_SQL, [] =>
      Some (option_list ((λ kb, PgRow_new (active_columns kb)) <$> load_active_policy_bundle d), d)
  | PUBLISH_POLICY_BUNDLE_SQL,
      [PgText session; PgText revision; PgText schema; PgText policy; PgJson entities; PgBytes checksum; PgI64 now; PgText aid;
       PgText rid] =>
      session ← uuid_parse_str session; aid ← uuid_parse_str aid;
      '(out, d) ← publish_policy_bundle retired_first (mk_publish session revision schema policy entities checksum now aid rid) d;
      Some (option_list ((λ kb, PgRow_new (bundle_columns kb)) <$> out), d)
  | SYNC_SIGNING_KEYS_SQL, [PgJson (VArray document); PgText version; PgI64 now] =>
      '(count, d) ← sync_signing_keys document version now d;
      Some ([PgRow_new [(lit "synced_count", PgI64 (Z.of_nat count))]], d)
  | LIST_SIGNING_KEYS_SQL, [] => Some (map (λ kk, PgRow_new (key_columns kk)) (list_signing_keys d), d)
  | ROTATE_SIGNING_KEY_SQL, [PgText session; PgText id; PgBool retire; PgText aid; PgI64 now; PgText rid] =>
      session ← uuid_parse_str session; aid ← uuid_parse_str aid;
      '(out, d) ← rotate_signing_key session id retire aid now rid d;
      Some (option_list ((λ r, PgRow_new (rotation_columns r)) <$> out), d)
  | _, _ => None
  end.
End wire.

(** ** Services *)

Definition MAX_POLICY_BYTES : Z := 1024 * 1024.
Definition MAX_ENTITY_BYTES : Z := 4 * 1024 * 1024.

Inductive PolicyBundleServiceError (E : Type) :=
| PbInvalidInput | PbInvalidAdminSession | PbRandomnessUnavailable | PbTransport (e : E) | PbRow (e : RowDecodeError) | PbInvalidRow.
Arguments PbInvalidInput {E}.
Arguments PbInvalidAdminSession {E}.
Arguments PbRandomnessUnavailable {E}.
Arguments PbTransport {E}.
Arguments PbRow {E}.
Arguments PbInvalidRow {E}.
Inductive PolicyBundleLoadError (E : Type) := PlTransport (e : E) | PlRow (e : RowDecodeError) | PlInvalidRow.
Arguments PlTransport {E}.
Arguments PlRow {E}.
Arguments PlInvalidRow {E}.
Inductive SigningKeyServiceError (E : Type) :=
| SkInvalidInput | SkInvalidAdminOrKey | SkInvalidLifecycle | SkRandomnessUnavailable | SkTransport (e : E)
| SkRow (e : RowDecodeError) | SkInvalidRow.
Arguments SkInvalidInput {E}.
Arguments SkInvalidAdminOrKey {E}.
Arguments SkInvalidLifecycle {E}.
Arguments SkRandomnessUnavailable {E}.
Arguments SkTransport {E}.
Arguments SkRow {E}.
Arguments SkInvalidRow {E}.

Record PolicyBundleRecord := mk_bundle_record {
  br_policy_revision : str; br_checksum_hex : str; br_status : str; br_created_by : str; br_created_at_ms : Z;
  br_activated_at_ms : option Z }.
Record ActivePolicyBundle := mk_active_bundle {
  ab_policy_revision : str; ab_cedar_schema : str; ab_cedar_policy : str; ab_entities : Value }.
Record SigningKeyRecord := mk_key_record {
  kr_key_id : str; kr_algorithm : str; kr_status : str; kr_public_jwk : Value; kr_key_version : str;
  kr_secret_reference : str; kr_created_at_ms : Z; kr_activated_at_ms : option Z; kr_retired_at_ms : option Z;
  kr_revoked_at_ms : option Z }.
Record SigningKeyRotation := mk_rotation { ro_key : SigningKeyRecord; ro_previous_key_id : option str }.

(** [row.i64(column)?.map(u64::try_from).transpose()] *)
Definition optional_unsigned {E} (row_error : RowDecodeError → E) (invalid : E) (row : PgRow) (column : str) : result E (option Z) :=
  let? value := map_err row_error (row_i64 row column) in
  transpose_map (λ value, ok_or (u64_try_from value) invalid) value.
Definition unsigned {E} (row_error : RowDecodeError → E) (invalid : E) (row : PgRow) (column : str) : result E Z :=
  let? value := map_err row_error (required_i64 row column) in
  ok_or (u64_try_from value) invalid.

Definition policy_from_row {E} (row : PgRow) : result (PolicyBundleServiceError E) PolicyBundleRecord :=
  let? policy_revision := map_err PbRow (required_text row (lit "policy_revision")) in
  let? checksum_hex := map_err PbRow (required_text row (lit "checksum_hex")) in
  let? status := map_err PbRow (required_text row (lit "status")) in
  let? created_by := map_err PbRow (required_text row (lit "created_by")) in
  let? created_at_ms := unsigned PbRow PbInvalidRow row (lit "created_at_ms") in
  let? activated_at_ms := optional_unsigned PbRow PbInvalidRow row (lit "activated_at_ms") in
  Ok (mk_bundle_record policy_revision checksum_hex status created_by created_at_ms activated_at_ms).
Definition signing_key_from_row {E} (row : PgRow) : result (SigningKeyServiceError E) SigningKeyRecord :=
  let? key_id := map_err SkRow (required_text row (lit "key_id")) in
  let? algorithm := map_err SkRow (required_text row (lit "algorithm")) in
  let? status := map_err SkRow (required_text row (lit "status")) in
  let? public_jwk := map_err SkRow (row_json row (lit "public_jwk")) in
  let? public_jwk := ok_or public_jwk SkInvalidRow in
  let? key_version := map_err SkRow (required_text row (lit "key_version")) in
  let? secret_reference := map_err SkRow (required_text row (lit "secret_reference")) in
  let? created_at_ms := unsigned SkRow SkInvalidRow row (lit "created_at_ms") in
  let? activated_at_ms := optional_unsigned SkRow SkInvalidRow row (lit "activated_at_ms") in
  let? retired_at_ms := optional_unsigned SkRow SkInvalidRow row (lit "retired_at_ms") in
  let? revoked_at_ms := optional_unsigned SkRow SkInvalidRow row (lit "revoked_at_ms") in
  Ok (mk_key_record key_id algorithm status public_jwk key_version secret_reference created_at_ms activated_at_ms
        retired_at_ms revoked_at_ms).
Definition valid_key_id (value : str) : bool :=
  negb (is_empty value) && (str_len value <=? 128)
  && forallb (λ b, is_ascii_alphanumeric b || one_of [45; 95; 46] b) (str_bytes value).
(** [serde_json::to_value(&descriptors)] *)
Definition descriptor_value (d : JwtKeyDescriptor) : Value :=
  VObject [(lit "algorithm", VString (de_algorithm d)); (lit "has_private_material", VBool (de_has_private_material d));
           (lit "kid", VString (de_kid d)); (lit "public_jwk", de_public_jwk d); (lit "status", VString (de_status d))].

(** ** The world of the services

    Between a call and its return any other statement may run; those of the
    rest of the library do not write the two tables. *)

Inductive admin_step `{UuidText} : AdminDb → AdminDb → Prop :=
| ad_publish first a out d d' : publish_policy_bundle first a d = Some (out, d') → admin_step d d'
| ad_sync document version now n d d' : sync_signing_keys document version now d = Some (n, d') → admin_step d d'
| ad_rotate session id retire aid now rid out d d' :
    rotate_signing_key session id retire aid now rid d = Some (out, d') → admin_step d d'
| ad_other d db : admin_step d (mk_admin db (ad_bundles d) (ad_keys d)).

Class AdminWorld (W TE RE : Type) := {
  admin_db : W → AdminDb;
  admin_now : W → Z;
  admin_random : nat → io W RE (list Z);
  admin_query : AdminSql → list PgValue → io W TE (list PgRow);
}.
Class AdminWorldLaws (W TE RE : Type) `{UuidText} `{!AdminWorld W TE RE} : Prop := {
  admin_random_steps n w r w' : admin_random n w = (r, w') → rtc admin_step (admin_db w) (admin_db w');
  admin_query_executes sql ps w r w' :
    admin_query sql ps w = (r, w') →
    ∃ d1, rtc admin_step (admin_db w) d1
    ∧ ((∃ first out d2, admin_exec sql ps first d1 = Some (out, d2)
          ∧ rtc admin_step d2 (admin_db w') ∧ ∀ out', r = Ok out' → out' = out)
       ∨ (rtc admin_step d1 (admin_db w') ∧ ∀ out', r ≠ Ok out'));
}.
(** [serde_json] on an entity document, and SHA-256. *)
Class PolicyCodec := {
  entity_to_vec : Value → option (list Z);
  entity_to_string : Value → option str;
  policy_sha256 : list Z → list Z;
}.

Section services.
Context {W TE RE : Type} `{UuidText} `{!AdminWorld W TE RE}.

Definition policy_query (sql : AdminSql) (ps : list PgValue) : io W (PolicyBundleServiceError TE) (list PgRow) :=
  io_call PbTransport (admin_query sql ps).
Definition key_query (sql : AdminSql) (ps : list PgValue) : io W (SigningKeyServiceError TE) (list PgRow) :=
  io_call SkTransport (admin_query sql ps).
(** [self.clock.now_unix_seconds().saturating_mul(1_000)] *)
Definition admin_now_ms {E} : io W E Z := λ w, (Ok (u64_saturating_mul (admin_now w) 1000), w).
Definition admin_uuid {E} (unavailable : E) (now_ms : Z) : io W E Uuid :=
  do! random := io_call (λ _, unavailable) (admin_random UUID_RANDOM_BYTES) in
  io_lift (Ok (uuid_v7_bytes now_ms random)).

(** *** Policies *)

Section policies.
Context `{PolicyCodec} `{CedarEngine}.

(** [serde_json::to_vec(&entities).map_or(true, |value| value.len() > ..)] *)
Definition entities_too_large (entities : Value) : bool :=
  match entity_to_vec entities with Some value => MAX_ENTITY_BYTES <? Z.of_nat (length value) | None => true end.
Definition bundle_bounded (cedar_schema cedar_policy : str) : bool :=
  negb (is_empty cedar_schema) && (str_len cedar_schema <=? MAX_POLICY_BYTES)
  && negb (is_empty cedar_policy) && (str_len cedar_policy <=? MAX_POLICY_BYTES).
Definition is_array (v : Value) : bool := match v with VArray _ => true | _ => false end.
Definition active_policy_from_row (row : PgRow) : result (PolicyBundleLoadError TE) ActivePolicyBundle :=
  let? policy_revision := map_err PlRow (required_text row (lit "policy_revision")) in
  let? cedar_schema := map_err PlRow (required_text row (lit "cedar_schema")) in
  let? cedar_policy := map_err PlRow (required_text row (lit "cedar_policy")) in
  let? entities := map_err PlRow (row_json row (lit "entities")) in
  let? entities := ok_or entities PlInvalidRow in
  fail? negb (bundle_bounded cedar_schema cedar_policy) || entities_too_large entities || negb (is_array entities)
    with PlInvalidRow ;;
  Ok (mk_active_bundle policy_revision cedar_schema cedar_policy entities).
(** [PostgresAuthStore::load_active_policy_bundle] *)
Definition load_active : io W (PolicyBundleLoadError TE) (option ActivePolicyBundle) :=
  do! rows := io_call PlTransport (admin_query LOAD_ACTIVE_POLICY_BUNDLE_SQL []) in
  io_lift (transpose_map active_policy_from_row (head rows)).

Definition policy_list (limit : Z) : io W (PolicyBundleServiceError TE) (list PolicyBundleRecord) :=
  fail! negb (in_range 1 100 limit) with PbInvalidInput ;;
  do! rows := policy_query LIST_POLICY_BUNDLES_SQL [PgI64 limit] in
  io_lift (collect_map policy_from_row rows).
Definition bundle_checksum (cedar_schema cedar_policy : str) (entity_bytes : list Z) : list Z :=
  policy_sha256 (str_bytes cedar_schema ++ [0] ++ str_bytes cedar_policy ++ [0] ++ entity_bytes).
Definition publish (session_id : str) (cedar_schema cedar_policy : str) (entities : Value) (request_id : str) :
    io W (PolicyBundleServiceError TE) PolicyBundleRecord :=
  do! entity_bytes := io_lift (ok_or (entity_to_vec entities) PbInvalidInput) in
  fail! negb (bundle_bounded cedar_schema cedar_policy) || (MAX_ENTITY_BYTES <? Z.of_nat (length entity_bytes))
        || negb (is_array entities) with PbInvalidInput ;;
  do! entity_source := io_lift (ok_or (entity_to_string entities) PbInvalidInput) in
  do! _ := io_lift (map_err (λ _, PbInvalidInput)
             (new_validated cedar_policy cedar_schema entity_source (lit "publication-candidate"))) in
  let checksum := bundle_checksum cedar_schema cedar_policy entity_bytes in
  let policy_revision := lit "sha256:" ++ hex checksum in
  do! now_ms := admin_now_ms in
  do! audit_id := admin_uuid PbRandomnessUnavailable now_ms in
  do! rows := policy_query PUBLISH_POLICY_BUNDLE_SQL
    [PgText session_id; PgText policy_revision; PgText cedar_schema; PgText cedar_policy; PgJson entities; PgBytes checksum;
     PgI64 (u64_to_i64 now_ms); PgText (uuid_to_string audit_id); PgText request_id] in
  io_lift (let? row := ok_or (head rows) PbInvalidAdminSession in policy_from_row row).
End policies.

(** *** Signing keys *)

Definition key_list : io W (SigningKeyServiceError TE) (list SigningKeyRecord) :=
  do! rows := key_query LIST_SIGNING_KEYS_SQL [] in
  io_lift (collect_map signing_key_from_row rows).
Section keys.
Context `{JwtLibrary} `{TokenCrypto}.

Definition synchronize (key_ring : JwtKeyRing) (key_version : str) : io W (SigningKeyServiceError TE) (list SigningKeyRecord) :=
  fail! is_empty key_version || (128 <? str_len key_version) || existsb is_control key_version with SkInvalidInput ;;
  let descriptors := descriptors key_ring in
  do! now_ms := admin_now_ms in
  do! rows := key_query SYNC_SIGNING_KEYS_SQL
    [PgJson (VArray (map descriptor_value descriptors)); PgText key_version; PgI64 (u64_to_i64 now_ms)] in
  do! synchronized := io_lift (let? row := ok_or (head rows) SkInvalidRow in
                               map_err SkRow (required_i64 row (lit "synced_count"))) in
  fail! negb (synchronized =? Z.of_nat (length descriptors)) with SkInvalidInput ;;
  key_list.
(** The ring is changed in place, also when the result is refused. *)
Definition apply_authoritative_statuses (key_ring : JwtKeyRing) (w : W) :
    result (SigningKeyServiceError TE) unit * JwtKeyRing * W :=
  match key_list w with
  | (Err e, w) => (Err e, key_ring, w)
  | (Ok records, w) =>
      let '(r, ring) := apply_statuses (map (λ record, (kr_key_id record, kr_status record)) records) key_ring in
      (map_err (λ _, SkInvalidLifecycle) r, ring, w)
  end.
End keys.
Definition rotate (session_id key_id : str) (retire_previous : bool) (request_id : str) :
    io W (SigningKeyServiceError TE) SigningKeyRotation :=
  fail! negb (valid_key_id key_id) with SkInvalidInput ;;
  do! now_ms := admin_now_ms in
  do! audit_id := admin_uuid SkRandomnessUnavailable now_ms in
  do! rows := key_query ROTATE_SIGNING_KEY_SQL
    [PgText session_id; PgText key_id; PgBool retire_previous; PgText (uuid_to_string audit_id); PgI64 (u64_to_i64 now_ms);
     PgText request_id] in
  do! row := io_lift (ok_or (head rows) SkInvalidAdminOrKey) in
  do! previous_key_id := io_lift (map_err SkRow (row_text row (lit "previous_key_id"))) in
  do! records := key_list in
  do! key := io_lift (ok_or (find (λ record, bool_decide (kr_key_id record = key_id)
                                             && bool_decide (kr_status record = lit "active")) records) SkInvalidLifecycle) in
  io_lift (Ok (mk_rotation key previous_key_id)).
End services.

(** ** One active row *)

Definition one_active {V} (active : V → bool) (m : gmap str V) : Prop :=
  ∀ i j v w, m !! i = Some v → m !! j = Some w → active v = true → active w = true → i = j.

Section unique.
Context {V : Type} (active : V → bool).
Implicit Types m : gmap str V.

Lemma write_unique_Some i v m m' :
  write_unique active i v m = Some m' →
  m' = <[i := v]> m ∧ (active v = true → ∀ j w, m !! j = Some w → active w = true → j = i).
Proof.
  unfold write_unique. destruct (active v) eqn:Ha; cbn; [|by intros [= <-]].
  destruct (existsb _ _) eqn:He; [done|]. intros [= <-]. split; [done|]. intros _ j w Hj Hw.
  destruct (decide (j = i)) as [|Hn]; [done|]. exfalso. apply not_true_iff_false in He. apply He.
  apply existsb_exists. exists (j, w). cbn. rewrite Hw, bool_decide_false by done. split; [|done].
  by apply list_elem_of_In, elem_of_map_to_list.
Qed.
Lemma write_unique_one i v m m' : one_active active m → write_unique active i v m = Some m' → one_active active m'.
Proof.
  intros Hm [-> Hu]%write_unique_Some j k x y. rewrite !lookup_insert_Some.
  intros [[<- <-]|[Hj Hx]] [[<- <-]|[Hk Hy]] Hax Hay; [done| | |by eapply Hm].
  - symmetry. by eapply Hu.
  - by eapply Hu.
Qed.
Lemma update_rows_one p f m : (∀ v, active (f v) = false) → one_active active m → one_active active (update_rows p f m).
Proof.
  intros Hf Hm i j x y. rewrite !lookup_update_rows. intros (v & Hv & ->)%fmap_Some (w & Hw & ->)%fmap_Some.
  destruct (p i v); [by rewrite Hf|]. destruct (p j w); [by rewrite Hf|]. by eapply Hm.
Qed.
Lemma find_active_Some m i v : one_active active m → m !! i = Some v → active v = true →
  find (λ kv, active kv.2) (map_to_list m) = Some (i, v).
Proof.
  intros Hm Hi Ha. destruct (find _ _) as [[j w]|] eqn:Hf.
  - apply find_some in Hf as [Hin%list_elem_of_In%elem_of_map_to_list Hw]. cbn in Hw.
    assert (j = i) as -> by (by eapply Hm). by simplify_eq.
  - exfalso. eapply find_none in Hf; [|by apply list_elem_of_In, (elem_of_map_to_list m i v)]. cbn in Hf. congruence.
Qed.
End unique.

(** What every statement keeps: one active row in each table, and what is
    revoked stays so. *)
Record tables_ok (d : AdminDb) : Prop := {
  to_bundles : one_active bundle_active (ad_bundles d);
  to_keys : one_active key_active (ad_keys d);
}.
Definition key_revoked (keys : gmap str KeyRow) (id : str) : Prop := ky_status <$> keys !! id = Some KeyRevoked.

Section steps.
Context `{UuidText}.

Lemma retire_bundles_one checksum m : one_active bundle_active m → one_active bundle_active (retire_bundles checksum m).
Proof. by apply update_rows_one. Qed.
Lemma upsert_bundle_one a actor m out m' :
  one_active bundle_active m → upsert_bundle a actor m = Some (out, m') → one_active bundle_active m'.
Proof.
  intros Hm. unfold upsert_bundle. destruct (find _ _) as [[r b]|]; [|destruct (m !! _); [done|]];
    intros (m1 & Hw & [= <- <-])%bind_Some; by eapply write_unique_one.
Qed.
Lemma upsert_key_inv keys row keys' :
  upsert_key keys row = Some keys' →
  (one_active key_active keys → one_active key_active keys') ∧ ∀ id, key_revoked keys id → key_revoked keys' id.
Proof.
  unfold upsert_key. destruct (keys !! row.1) as [k|] eqn:Hk; intros Hw; (split; [intros Hm; by eapply write_unique_one|]);
    apply write_unique_Some in Hw as [-> _]; intros id Hr; unfold key_revoked in *;
    (destruct (decide (row.1 = id)) as [<-|]; [|by rewrite lookup_insert_ne]).
  - rewrite Hk in Hr. cbn in Hr. injection Hr as Hr. by rewrite lookup_insert_eq, <- Hr.
  - by rewrite Hk in Hr.
Qed.
Lemma upsert_keys_inv rows : ∀ keys keys',
  upsert_keys rows keys = Some keys' →
  (one_active key_active keys → one_active key_active keys') ∧ ∀ id, key_revoked keys id → key_revoked keys' id.
Proof.
  induction rows as [|row rows IH]; intros keys keys'; cbn; [by intros [= <-]|].
  intros (keys1 & [Ho Hr]%upsert_key_inv & [Ho' Hr']%IH)%bind_Some.
  split; [intros Hm; by apply Ho', Ho|intros id Hid; by apply Hr', Hr].
Qed.
Lemma update_revoked p f keys id :
  (∀ id k, p id k = true → ky_status k ≠ KeyRevoked) → key_revoked keys id → key_revoked (update_rows p f keys) id.
Proof.
  unfold key_revoked. intros Hp. rewrite lookup_update_rows. destruct (keys !! id) as [k|] eqn:Hk; cbn; [|done].
  intros [= Hs]. destruct (p id k) eqn:E; [by apply Hp in E|]. by rewrite Hs.
Qed.

Lemma rotate_Some session id retire aid now rid d r d' :
  rotate_signing_key session id retire aid now rid d = Some (Some r, d') →
  ∃ s k, administrator_actor session now (ad_db d) = Some s ∧ ad_keys d !! id = Some k
    ∧ ky_status k ≠ KeyRevoked ∧ is_Some (ky_secret_reference k)
    ∧ write_key id (activate_key now k)
        (update_rows (λ id' k', key_active k' && negb (bool_decide (id' = id))) (replace_active retire now) (ad_keys d))
      = Some (ad_keys d')
    ∧ ad_bundles d' = ad_bundles d ∧ r.1.1 = id
    ∧ r.2 = fst <$> find (λ kk, key_active kk.2) (map_to_list (ad_keys d)).
Proof.
  unfold rotate_signing_key.
  destruct (administrator_actor session now (ad_db d)) as [s|] eqn:Hs; cbn; [|done].
  destruct (ad_keys d !! id) as [k|] eqn:Hk; cbn; [|done].
  destruct (_ && _) eqn:Hc; [|done]. apply andb_true_iff in Hc as [Hr Hm]. bprop.
  intros (keys & Hw & (db & _ & [= <- <-])%bind_Some)%bind_Some. exists s, k. by split_and!.
Qed.
Lemma rotate_None session id retire aid now rid d d' :
  rotate_signing_key session id retire aid now rid d = Some (None, d') → d' = d.
Proof.
  unfold rotate_signing_key. destruct (_ ≫= _) as [[s k]|]; [|by intros [= <-]].
  intros (keys & _ & (db & _ & [=])%bind_Some)%bind_Some.
Qed.
Lemma publish_Some first a d out d' :
  publish_policy_bundle first a d = Some (Some out, d') →
  ∃ s bundles, administrator_actor (pb_session a) (pb_now a) (ad_db d) = Some s
    ∧ upsert_bundle a (s_user s) (if first then retire_bundles (pb_checksum a) (ad_bundles d) else ad_bundles d) = Some (out, bundles)
    ∧ ad_bundles d' = (if first then bundles else retire_bundles (pb_checksum a) bundles) ∧ ad_keys d' = ad_keys d.
Proof.
  unfold publish_policy_bundle. destruct (administrator_actor _ _ _) as [s|]; [|done]. destruct first.
  - intros ([o bundles] & Hu & (db & _ & [= <- <-])%bind_Some)%bind_Some. by exists s, bundles.
  - intros ([o bundles'] & ([o' bundles] & Hu & [= <- <-])%bind_Some & (db & _ & [= <- <-])%bind_Some)%bind_Some.
    by exists s, bundles.
Qed.
Lemma publish_None first a d d' : publish_policy_bundle first a d = Some (None, d') → d' = d.
Proof.
  unfold publish_policy_bundle. destruct (administrator_actor _ _ _) as [s|]; [|by intros [= <-]].
  intros ([o bundles] & _ & (db & _ & [=])%bind_Some)%bind_Some.
Qed.

Lemma admin_step_ok d d' :
  admin_step d d' → (tables_ok d → tables_ok d') ∧ ∀ id, key_revoked (ad_keys d) id → key_revoked (ad_keys d') id.
Proof.
  intros [first a [out|] d0 d1 E|document version now n d0 d1 E|session id retire aid now rid [out|] d0 d1 E|d0 db].
  - apply publish_Some in E as (s & bundles & _ & Hu & Hb & Hk). rewrite Hk. split; [|done]. intros [Ho Hok]. split; [|by rewrite Hk].
    rewrite Hb. destruct first; [|apply retire_bundles_one]; (eapply upsert_bundle_one; [|done]); [by apply retire_bundles_one|done].
  - apply publish_None in E as ->. done.
  - unfold sync_signing_keys in E. case_bool_decide; [|done]. apply bind_Some in E as (keys & E & [= <- <-]).
    apply upsert_keys_inv in E as [Ho Hr]. cbn. split.
    + intros [Hb Hk]. split; [done|]. by apply Ho, update_rows_one.
    + intros id Hid. apply Hr, update_revoked; [|done]. intros i k [E _]%andb_true_iff Hs. rewrite Hs in E. by vm_compute in E.
  - apply rotate_Some in E as (s & k & _ & Hk & Hn & _ & Hw & Hb & _). split.
    + intros [Hob Hok]. split; [by rewrite Hb|]. eapply write_unique_one; [|done]. apply update_rows_one; [|done].
      intros v. unfold key_active. cbn. by destruct retire.
    + intros i Hi. apply write_unique_Some in Hw as [-> _]. destruct (decide (id = i)) as [<-|].
      { unfold key_revoked in Hi. rewrite Hk in Hi. by injection Hi as Hi. }
      unfold key_revoked. rewrite lookup_insert_ne by done. apply update_revoked; [|done].
      intros j x E. unfold key_active in E. bprop. destruct E as [-> _]. done.
  - by apply rotate_None in E as ->.
  - cbn. split; [|done]. by intros [Hb Hk].
Qed.
Lemma admin_steps_ok d d' :
  rtc admin_step d d' → (tables_ok d → tables_ok d') ∧ ∀ id, key_revoked (ad_keys d) id → key_revoked (ad_keys d') id.
Proof. induction 1 as [|x y z Hxy _ [IH1 IH2]]; [done|]. apply admin_step_ok in Hxy as [H1 H2].
  split; [intros Hx; by apply IH1, H1|intros id Hid; by apply IH2, H2].
Qed.
Lemma upsert_bundle_Some a actor m out m' :
  upsert_bundle a actor m = Some (out, m') →
  m' !! out.1 = Some out.2 ∧ bu_checksum out.2 = pb_checksum a ∧ bundle_active out.2 = true.
Proof.
  unfold upsert_bundle. destruct (find _ _) as [[r b]|] eqn:Hf.
  - apply find_some in Hf as [_ Hc]. intros (m1 & [-> _]%write_unique_Some & [= <- <-])%bind_Some. cbn.
    rewrite lookup_insert_eq. by bprop.
  - destruct (m !! _); [done|]. intros (m1 & [-> _]%write_unique_Some & [= <- <-])%bind_Some. cbn. by rewrite lookup_insert_eq.
Qed.
(** The row that is written: a new one of the arguments, or the one that
    already had the checksum, activated. *)
Definition stored_bundle (a : PublishArgs) (actor : Uuid) (bundles : gmap str BundleRow) (revision : str) (b : BundleRow) : Prop :=
  (∀ r x, bundles !! r = Some x → bu_checksum x ≠ pb_checksum a)
    ∧ revision = pb_revision a
    ∧ b = mk_bundle (pb_schema a) (pb_policy a) (pb_entities a) (pb_checksum a) BActive actor (pb_now a) (Some (pb_now a))
  ∨ ∃ b0, bundles !! revision = Some b0 ∧ bu_checksum b0 = pb_checksum a
      ∧ b = mk_bundle (bu_schema b0) (bu_policy b0) (bu_entities b0) (pb_checksum a) BActive (bu_created_by b0)
              (bu_created_at_ms b0) (Some (pb_now a)).
Lemma upsert_bundle_stored a actor m revision b m' :
  upsert_bundle a actor m = Some ((revision, b), m') → stored_bundle a actor m revision b.
Proof.
  unfold upsert_bundle. destruct (find _ _) as [[r b0]|] eqn:Hf.
  - apply find_some in Hf as [Hin%list_elem_of_In%elem_of_map_to_list Hc%bool_decide_eq_true]. cbn in Hc.
    intros (m1 & _ & [= <- <- _])%bind_Some. right. exists b0. unfold with_bundle_status. by rewrite Hc.
  - intros E. left. split.
    { intros r x Hx%elem_of_map_to_list%list_elem_of_In Hc. apply (find_none _ _ Hf) in Hx. cbn in Hx.
      by rewrite bool_decide_true in Hx. }
    destruct (m !! pb_revision a); [done|]. by apply bind_Some in E as (m1 & _ & [= <- <- _]).
Qed.
Lemma retire_stored a actor m revision b :
  stored_bundle a actor (retire_bundles (pb_checksum a) m) revision b → stored_bundle a actor m revision b.
Proof.
  assert (∀ r, retire_bundles (pb_checksum a) m !! r =
    (λ x, if bundle_active x && negb (bool_decide (bu_checksum x = pb_checksum a))
          then with_bundle_status BRetired (bu_activated_at_ms x) x else x) <$> m !! r) as Hl
    by (intros r; apply lookup_update_rows).
  intros [(Hn & Hrest)|(b0 & Hb & Hc & ->)]; [left|right].
  - split; [|done]. intros r x Hx Hc. specialize (Hl r). rewrite Hx in Hl. cbn in Hl.
    rewrite (bool_decide_true _ Hc), andb_false_r in Hl. by eapply Hn in Hl.
  - rewrite Hl in Hb. apply fmap_Some in Hb as (x & Hx & ->). exists x. split; [done|].
    destruct (_ && _) eqn:E; [|done]. cbn in Hc. by rewrite bool_decide_true, andb_false_r in E.
Qed.
Lemma published_active first a d out d' :
  tables_ok d → publish_policy_bundle first a d = Some (Some out, d') →
  load_active_policy_bundle d' = Some out ∧ bu_checksum out.2 = pb_checksum a ∧ bundle_active out.2 = true.
Proof using H.
  intros Hok Hp. assert (tables_ok d') as [Hone _] by (by eapply admin_step_ok; [eapply ad_publish|]).
  apply publish_Some in Hp as (s & bundles & _ & (Hl & Hc & Ha)%upsert_bundle_Some & Hb & _).
  split; [|done]. destruct out as [r b]. apply find_active_Some; [done| |done]. rewrite Hb. destruct first; [done|].
  unfold retire_bundles. cbn in Hl, Hc |- *. rewrite lookup_update_rows, Hl. cbn.
  by rewrite Hc, bool_decide_true, andb_false_r.
Qed.
Lemma published_stored first a d revision b d' :
  publish_policy_bundle first a d = Some (Some (revision, b), d') →
  ∃ s, administrator_actor (pb_session a) (pb_now a) (ad_db d) = Some s
    ∧ stored_bundle a (s_user s) (ad_bundles d) revision b.
Proof.
  intros (s & bundles & Hs & Hu%upsert_bundle_stored & _)%publish_Some. exists s. split; [done|].
  destruct first; [by apply retire_stored|done].
Qed.
Lemma load_active_lookup d revision b :
  load_active_policy_bundle d = Some (revision, b) → ad_bundles d !! revision = Some b ∧ bundle_active b = true.
Proof. intros [Hin%list_elem_of_In%elem_of_map_to_list Ha]%find_some. done. Qed.
Lemma only_active d revision b r x :
  one_active bundle_active (ad_bundles d) → load_active_policy_bundle d = Some (revision, b) →
  ad_bundles d !! r = Some x → bu_status x = BActive ↔ r = revision.
Proof.
  intros Hone [Hb Ha]%load_active_lookup Hx. split.
  - intros Hst. eapply Hone; [done|done| |done]. by apply bool_decide_eq_true.
  - intros ->. simplify_eq. by apply bool_decide_eq_true in Ha.
Qed.

(** For the kernel the statements are steps that leave its tables alone, as
    [foreign] assumes. *)
Lemma view_foreign d d' :
  ad_db d' = ad_db d ∨ (∃ f, ad_db d' = set_audit f (ad_db d)) → foreign (view d) (view d').
Proof.
  intros E. assert (users (ad_db d') = users (ad_db d) ∧ sessions (ad_db d') = sessions (ad_db d)
    ∧ refresh_tokens (ad_db d') = refresh_tokens (ad_db d) ∧ one_time_tokens (ad_db d') = one_time_tokens (ad_db d)
    ∧ idempotency (ad_db d') = idempotency (ad_db d) ∧ mail_outbox (ad_db d') = mail_outbox (ad_db d)
    ∧ granted_permissions (directory (ad_db d')) = granted_permissions (directory (ad_db d)))
    as (Hu & Hs & Hr & Ht & Hi & Hm & Hg) by (destruct E as [->|[f ->]]; done).
  split; cbn; [|done|by rewrite Ht]. destruct (evolves_refl (view d)) as [A1 A2 A3 A4 A5 A6].
  split; cbn in *; rewrite ?Hs, ?Hu, ?Hr, ?Ht, ?Hi; try done.
  intros org rev Hrev. destruct (A6 org rev Hrev) as (rev' & ? & ? & ?). exists rev'. cbn in *. rewrite Hm.
  split_and!; [done|done|]. intros _ role. unfold roles_of. cbn. by rewrite Hg.
Qed.
Lemma admin_statement_kstep sql ps first d out d' : admin_exec sql ps first d = Some (out, d') → kstep (view d) (view d').
Proof.
  intros E. apply k_foreign, view_foreign. unfold admin_exec in E.
  repeat match type of E with match ?x with _ => _ end = Some _ => destruct x; try discriminate E end;
  repeat match type of E with
  | (_ ≫= _) = Some _ => apply bind_Some in E as (? & ? & E)
  | (let '(_, _) := ?x in _) = Some _ => destruct x
  end; injection E as <- <-; try (by left).
  - match goal with E : publish_policy_bundle _ _ _ = _ |- _ => revert E end. unfold publish_policy_bundle.
    destruct (administrator_actor _ _ _); [|intros [= <- <-]; by left].
    intros ([? ?] & _ & (db & Ha & [= <- <-])%bind_Some)%bind_Some. right. unfold insert_audit in Ha.
    destruct (existsb _ _); [done|]. injection Ha as <-. by eexists.
  - match goal with E : sync_signing_keys _ _ _ _ = _ |- _ => revert E end. unfold sync_signing_keys.
    case_bool_decide; [|done]. intros (? & _ & [= <- <-])%bind_Some. by left.
  - match goal with E : rotate_signing_key _ _ _ _ _ _ _ = _ |- _ => revert E end. unfold rotate_signing_key.
    destruct (_ ≫= _) as [[? ?]|]; [|intros [= <- <-]; by left].
    intros (? & _ & (db & Ha & [= <- <-])%bind_Some)%bind_Some. right. unfold insert_audit in Ha.
    destruct (existsb _ _); [done|]. injection Ha as <-. by eexists.
Qed.
End steps.

(** ** Properties *)

Section properties.
Context `{UuidText}.

(** C22: The lifecycle of keys and bundles.  Whatever statements run, by any number
    of administrators, in either order of their expressions, at most one
    signing key and at most one policy bundle are active; and once a key is
    revoked no session is ever again loaded for a token that it signed. *)
Theorem revoked_keys_stay_out (d d' : AdminDb) (Hok : tables_ok d) (Hrun : rtc admin_step d d') :
  tables_ok d'
  ∧ ∀ id, key_revoked (ad_keys d) id →
      key_revoked (ad_keys d') id
      ∧ ∀ session now, load_request_fingerprint session now id (view d') = None
                       ∧ (id ≠ [] → load_request_context session now id (view d') = None).
Proof.
  apply admin_steps_ok in Hrun as [Ht Hr]. split; [by apply Ht|]. intros id Hid%Hr. split; [done|]. intros session now.
  assert (signing_key_accepted id (view d') = false) as Ha.
  { unfold signing_key_accepted, view. cbn. by rewrite lookup_fmap, Hid. }
  assert (∀ ok, ok = false → context_row session now ok (view d') = None) as Hrow.
  { intros ok ->. unfold context_row. destruct (sessions _ !! _) as [s|]; [|done]. cbn.
    destruct (users _ !! _) as [u|]; [|done]. cbn. by rewrite andb_false_r. }
  split; [by apply Hrow|]. intros Hn. apply Hrow. rewrite Ha. by destruct id.
Qed.

(** A rotation.  The key that a rotation names is active afterwards and the
    only one; the key that was active before is in the answer; tokens that it
    signed are still accepted if it was retired, and refused at once if it was
    put back in line; no other key changed. *)
Theorem rotation_effect (session : Uuid) (id : str) (retire : bool) (aid : Uuid) (now : Z) (rid : str) (d d' : AdminDb)
    (r : str * KeyRow * option str) (Hok : tables_ok d)
    (Hrun : rotate_signing_key session id retire aid now rid d = Some (Some r, d')) :
  (∃ s, administrator_actor session now (ad_db d) = Some s)
  ∧ ¬ key_revoked (ad_keys d) id
  ∧ signing_key_accepted id (view d') = true
  ∧ (∀ i, (∃ k, ad_keys d' !! i = Some k ∧ key_active k = true) ↔ i = id)
  ∧ (∀ i, r.2 = Some i ↔ ∃ k, ad_keys d !! i = Some k ∧ key_active k = true)
  ∧ (∀ i, r.2 = Some i → i ≠ id → signing_key_accepted i (view d') = retire)
  ∧ ∀ i, r.2 ≠ Some i → i ≠ id → ad_keys d' !! i = ad_keys d !! i.
Proof.
  apply rotate_Some in Hrun as (s & k & Hs & Hk & Hn & _ & Hw & _ & _ & Hp). destruct Hok as [_ Hone].
  apply write_unique_Some in Hw as [Hw _].
  assert (∀ i, i ≠ id → ad_keys d' !! i
    = (λ k', if key_active k' then replace_active retire now k' else k') <$> ad_keys d !! i) as Hother.
  { intros i Hi. rewrite Hw, lookup_insert_ne, lookup_update_rows by done. destruct (ad_keys d !! i) as [k'|]; [|done]. cbn.
    rewrite bool_decide_false by done. by destruct (key_active k'). }
  assert (ad_keys d' !! id = Some (activate_key now k)) as Hid by (by rewrite Hw, lookup_insert_eq).
  assert (∀ i, r.2 = Some i ↔ ∃ k, ad_keys d !! i = Some k ∧ key_active k = true) as Hprev.
  { intros i. rewrite Hp. split.
    - destruct (find _ _) as [[j x]|] eqn:Hf; [|done]. cbn. intros [= ->].
      apply find_some in Hf as [Hin%list_elem_of_In%elem_of_map_to_list Ha]. by exists x.
    - intros (x & Hx & Ha). by rewrite (find_active_Some _ _ i x Hone Hx Ha). }
  split_and!; [by exists s| | | |done| |].
  - unfold key_revoked. rewrite Hk. cbn. congruence.
  - unfold signing_key_accepted, view. cbn. by rewrite lookup_fmap, Hid.
  - intros i. split; [|intros ->; by exists (activate_key now k)]. intros (x & Hx & Ha).
    destruct (decide (i = id)) as [|Hi]; [done|]. rewrite Hother in Hx by done. apply fmap_Some in Hx as (k' & _ & ->).
    destruct (key_active k') eqn:E; [|congruence]. unfold key_active in Ha. cbn in Ha. by destruct retire.
  - intros i (x & Hx & Ha)%Hprev Hi. unfold signing_key_accepted, view. cbn. rewrite lookup_fmap, Hother, Hx by done. cbn.
    rewrite Ha. by destruct retire.
  - intros i Hr Hi. rewrite Hother by done. destruct (ad_keys d !! i) as [x|] eqn:Hx; [|done]. cbn.
    destruct (key_active x) eqn:Ha; [|done]. exfalso. apply Hr, Hprev. by exists x.
Qed.

(** Replacing a policy.  While a bundle of another content is active, the
    order in which the server executes the two expressions of the statement
    decides: if the insertion comes first the statement fails on the index of
    active bundles, for every administrator; if the retirement comes first it
    publishes, unless the primary key or the audit record is taken. *)
Theorem replacement_needs_order (a : PublishArgs) (d : AdminDb) (s : SessionRow) (old : str) (b : BundleRow)
    (Hadmin : administrator_actor (pb_session a) (pb_now a) (ad_db d) = Some s)
    (Hold : ad_bundles d !! old = Some b) (Hactive : bundle_active b = true) (Hother : bu_checksum b ≠ pb_checksum a)
    (Hok : tables_ok d) (Hfresh : ∀ r x, ad_bundles d !! r = Some x → bu_checksum x ≠ pb_checksum a)
    (Hkey : ad_bundles d !! pb_revision a = None)
    (Haudit : existsb (λ r, bool_decide (a_id r = pb_audit_id a)) (audit (ad_db d)) = false) :
  publish_policy_bundle false a d = None
  ∧ ∃ out d', publish_policy_bundle true a d = Some (Some out, d')
      ∧ load_active_policy_bundle d' = Some out ∧ out.1 = pb_revision a ∧ bu_policy out.2 = pb_policy a.
Proof.
  assert (∀ m : gmap str BundleRow, (∀ r x, m !! r = Some x → bu_checksum x ≠ pb_checksum a) →
    find (λ kb, bool_decide (bu_checksum kb.2 = pb_checksum a)) (map_to_list m) = None) as Hnone.
  { intros m Hm. destruct (find _ _) as [[r x]|] eqn:Hf; [|done].
    apply find_some in Hf as [Hin%list_elem_of_In%elem_of_map_to_list Hc]. apply bool_decide_eq_true in Hc. by apply Hm in Hin. }
  assert (old ≠ pb_revision a) as Hne by congruence.
  unfold publish_policy_bundle. rewrite Hadmin. unfold upsert_bundle. split.
  - rewrite Hnone, Hkey by done. unfold write_bundle, write_unique. cbn.
    replace (existsb _ _) with true; [done|]. symmetry. apply existsb_exists. exists (old, b). cbn.
    rewrite Hactive, bool_decide_false by done. split; [|done]. by apply list_elem_of_In, elem_of_map_to_list.
  - set (m := retire_bundles (pb_checksum a) (ad_bundles d)).
    assert (∀ r x, m !! r = Some x → bu_checksum x ≠ pb_checksum a ∧ bundle_active x = false) as Hm.
    { intros r x. unfold m, retire_bundles. rewrite lookup_update_rows. intros (y & Hy & ->)%fmap_Some.
      pose proof (Hfresh r y Hy) as Hc. rewrite (bool_decide_false (bu_checksum y = _)) by done. cbn. rewrite andb_true_r.
      destruct (bundle_active y) eqn:E; split; done. }
    rewrite Hnone by (intros r x Hx; by apply Hm in Hx as [? _]).
    assert (m !! pb_revision a = None) as -> by (unfold m, retire_bundles; by rewrite lookup_update_rows, Hkey).
    set (row := mk_bundle _ _ _ _ _ _ _ _).
    assert (write_bundle (pb_revision a) row m = Some (<[pb_revision a := row]> m)) as Hw.
    { unfold write_bundle, write_unique. cbn. replace (existsb _ _) with false; [done|]. symmetry.
      apply not_true_iff_false. intros ([r x] & Hin & Hx)%existsb_exists. cbn in Hx.
      apply list_elem_of_In, elem_of_map_to_list in Hin. apply Hm in Hin as [_ Hin]. by rewrite Hin, andb_false_r in Hx. }
    cbn [mbind option_bind]. rewrite Hw. cbn [mbind option_bind fst]. unfold insert_audit at 1. cbn [a_id mk_audit]. rewrite Haudit. cbn [mbind option_bind].
    eexists _, _. split; [reflexivity|]. split; [|done].
    apply (find_active_Some bundle_active (<[pb_revision a := row]> m)); [|by rewrite lookup_insert_eq|done].
    eapply write_unique_one; [|exact Hw]. by apply retire_bundles_one; destruct Hok.
Qed.
End properties.

Section runs.
Context {W TE RE : Type} `{U : UuidText} `{!AdminWorld W TE RE} `{!AdminWorldLaws W TE RE}.
#[local] Set Default Proof Using "Type*".

Lemma admin_query_Ok sql ps (w : W) out w' :
  admin_query sql ps w = (Ok out, w') →
  ∃ first d1 d2, rtc admin_step (admin_db w) d1 ∧ admin_exec sql ps first d1 = Some (out, d2) ∧ rtc admin_step d2 (admin_db w').
Proof.
  intros Q. destruct (admin_query_executes _ _ _ _ _ Q) as (d1 & Hd1 & [(first & out' & d2 & Hex & Hd2 & Ho)|[_ Hn]]).
  - rewrite (Ho out eq_refl). eauto 10.
  - by destruct (Hn out).
Qed.
Lemma admin_uuid_Ok {E} (e : E) now (w : W) u w' : admin_uuid e now w = (Ok u, w') → rtc admin_step (admin_db w) (admin_db w').
Proof.
  unfold admin_uuid. intros (bytes & w1 & Hr%io_call_Ok & [_ ->]%io_lift_Ok)%io_bind_Ok. by eapply admin_random_steps.
Qed.
Lemma admin_now_Ok {E} (w : W) n w' : admin_now_ms (E := E) w = (Ok n, w') → n = u64_saturating_mul (admin_now w) 1000 ∧ w' = w.
Proof. by intros [= <- <-]. Qed.

Lemma policy_from_columns kb r :
  policy_from_row (E := TE) (PgRow_new (bundle_columns kb)) = Ok r →
  br_policy_revision r = kb.1 ∧ br_checksum_hex r = hex (bu_checksum kb.2) ∧ br_status r = bundle_status_text (bu_status kb.2)
  ∧ br_created_at_ms r = bu_created_at_ms kb.2 ∧ br_activated_at_ms r = bu_activated_at_ms kb.2.
Proof.
  unfold policy_from_row, unsigned, optional_unsigned. set (row := PgRow_new _).
  change (required_text row (lit "policy_revision")) with (Ok (E := RowDecodeError) kb.1).
  change (required_text row (lit "checksum_hex")) with (Ok (E := RowDecodeError) (hex (bu_checksum kb.2))).
  change (required_text row (lit "status")) with (Ok (E := RowDecodeError) (bundle_status_text (bu_status kb.2))).
  change (required_text row (lit "created_by")) with (Ok (E := RowDecodeError) (uuid_to_string (bu_created_by kb.2))).
  change (required_i64 row (lit "created_at_ms")) with (Ok (E := RowDecodeError) (bu_created_at_ms kb.2)).
  replace (row_i64 row (lit "activated_at_ms")) with (Ok (E := RowDecodeError) (bu_activated_at_ms kb.2))
    by (change (row_i64 row (lit "activated_at_ms")) with (row_i64 [(lit "activated_at_ms", pg_i64 (bu_activated_at_ms kb.2))] (lit "activated_at_ms"));
        by destruct (bu_activated_at_ms kb.2)).
  cbn [map_err rbind]. intros (created & [-> _]%ok_or_Ok%u64_try_from_Some & (activated & Ha & [= <-])%rbind_Ok)%rbind_Ok. cbn.
  split_and!; try done. destruct (bu_activated_at_ms kb.2) as [at_ms|]; cbn in Ha; [|by injection Ha as <-].
  by apply rmap_Ok in Ha as (x & [-> _]%ok_or_Ok%u64_try_from_Some & ->).
Qed.

Context `{PolicyCodec} `{CedarEngine}.

Lemma validated_parts policy schema_source entities revision provider :
  new_validated policy schema_source entities revision = Ok provider →
  ∃ policies schema, policies_from_str policy = Some policies ∧ schema_from_json_str schema_source = Some schema
    ∧ validation_passed schema policies = true ∧ is_Some (entities_from_json_str entities (Some schema)).
Proof.
  unfold new_validated. intros (policies & Hp%ok_or_Ok & (schema & Hs%ok_or_Ok & E)%rbind_Ok)%rbind_Ok.
  apply fail_Ok in E as [Hv%negb_false_iff (trusted & Ht%ok_or_Ok & _)%rbind_Ok]. eauto 10.
Qed.
Lemma bundle_bounded_spec schema policy :
  bundle_bounded schema policy = true →
  (schema ≠ [] ∧ str_len schema ≤ MAX_POLICY_BYTES) ∧ (policy ≠ [] ∧ str_len policy ≤ MAX_POLICY_BYTES).
Proof.
  unfold bundle_bounded. rewrite !andb_true_iff, !Z.leb_le. intros [[[? ?] ?] ?]. by destruct schema, policy.
Qed.

(** C23: Publication.  A call that reports a published bundle parsed its schema,
    its policy and its entities and validated the policy strictly against the
    schema, all within the size limits; at one moment of the call the session
    was live, with a second factor, of a system administrator; and from that
    moment the active bundle, the only one, is the one under the revision that
    is reported.  Its row is new, with exactly this schema, policy and entities
    and their checksum, created by that administrator at the clock of the call
    under the revision of the checksum; or, when a bundle of the same checksum
    was there, that row with its content unchanged and activated now. *)
Theorem publication_exact (session_id cedar_schema cedar_policy : str) (entities : Value) (request_id : str) (w w' : W)
    (record : PolicyBundleRecord) (Hok : tables_ok (admin_db w))
    (Hpublish : publish session_id cedar_schema cedar_policy entities request_id w = (Ok record, w')) :
  ∃ entity_bytes entity_source policies schema session s d1 d2 b,
    let now := u64_to_i64 (u64_saturating_mul (admin_now w) 1000) in
    let checksum := policy_sha256 (str_bytes cedar_schema ++ [0] ++ str_bytes cedar_policy ++ [0] ++ entity_bytes) in
    entity_to_vec entities = Some entity_bytes ∧ entity_to_string entities = Some entity_source
    ∧ (cedar_schema ≠ [] ∧ str_len cedar_schema ≤ MAX_POLICY_BYTES)
    ∧ (cedar_policy ≠ [] ∧ str_len cedar_policy ≤ MAX_POLICY_BYTES)
    ∧ (Z.of_nat (length entity_bytes) ≤ MAX_ENTITY_BYTES ∧ ∃ l, entities = VArray l)
    ∧ policies_from_str cedar_policy = Some policies ∧ schema_from_json_str cedar_schema = Some schema
    ∧ validation_passed schema policies = true ∧ is_Some (entities_from_json_str entity_source (Some schema))
    ∧ rtc admin_step (admin_db w) d1 ∧ admin_step d1 d2 ∧ rtc admin_step d2 (admin_db w')
    ∧ uuid_parse_str session_id = Some session
    ∧ acts session now (ad_db d1) s ∧ s_assurance s ≠ DbAal1
    ∧ administrators (directory (ad_db d1)) !! s_user s = Some true
    ∧ ad_bundles d2 !! br_policy_revision record = Some b
    ∧ (∀ r x, ad_bundles d2 !! r = Some x → bu_status x = BActive ↔ r = br_policy_revision record)
    ∧ active_policy (directory (view d2)) = Some (br_policy_revision record)
    ∧ ((∀ r x, ad_bundles d1 !! r = Some x → bu_checksum x ≠ checksum)
         ∧ br_policy_revision record = lit "sha256:" ++ hex checksum
         ∧ b = mk_bundle cedar_schema cedar_policy entities checksum BActive (s_user s) now (Some now)
       ∨ ∃ b0, ad_bundles d1 !! br_policy_revision record = Some b0 ∧ bu_checksum b0 = checksum
           ∧ b = mk_bundle (bu_schema b0) (bu_policy b0) (bu_entities b0) checksum BActive (bu_created_by b0)
                   (bu_created_at_ms b0) (Some now))
    ∧ br_checksum_hex record = hex checksum ∧ br_status record = lit "active".
Proof.
  unfold publish in Hpublish.
  apply io_bind_Ok in Hpublish as (bytes & w0 & [Hb%ok_or_Ok ->]%io_lift_Ok & Hp).
  apply io_fail_Ok in Hp as [[[Hbound Hlen]%orb_false_iff Harr]%orb_false_iff Hp].
  apply io_bind_Ok in Hp as (source & w1 & [Hs%ok_or_Ok ->]%io_lift_Ok & Hp).
  apply io_bind_Ok in Hp as (provider & w2 & [Hv%map_err_Ok ->]%io_lift_Ok & Hp). cbv zeta in Hp.
  apply io_bind_Ok in Hp as (now & w3 & [-> ->]%admin_now_Ok & Hp).
  apply io_bind_Ok in Hp as (aid & w4 & Hu%admin_uuid_Ok & Hp).
  apply io_bind_Ok in Hp as (rows & w5 & Hq%io_call_Ok & [Hr ->]%io_lift_Ok).
  apply admin_query_Ok in Hq as (first & d1 & d2 & Hd1 & Hex & Hd2). cbn [admin_exec] in Hex.
  apply bind_Some in Hex as (session & Hsession & Hex). apply bind_Some in Hex as (audit_id & _ & Hex).
  apply bind_Some in Hex as ([[out|] d3] & Hpub & [= <- <-]); [|done].
  cbn in Hr. apply policy_from_columns in Hr as (Hrev & Hhex & Hst & _).
  assert (rtc admin_step (admin_db w) d1) as Hsteps by (by etrans).
  assert (tables_ok d1) as Hok1 by (by eapply admin_steps_ok).
  destruct (published_active _ _ _ _ _ Hok1 Hpub) as (Hload & Hsum & Hact).
  destruct out as [revision b]. cbn [fst snd] in *. destruct (published_stored _ _ _ _ _ _ Hpub) as (s & Hactor & Hstored).
  destruct (administrator_row _ _ _ _ Hactor) as (Hacts & Hup & Hadm).
  destruct (validated_parts _ _ _ _ _ Hv) as (policies & schema & Hpol & Hsch & Hpass & Hent).
  rewrite negb_false_iff in Hbound, Harr. apply bundle_bounded_spec in Hbound as [[Hbs Hls] [Hbp Hlp]]. rewrite Z.ltb_ge in Hlen.
  assert (tables_ok d3) as [Hone _] by (eapply admin_step_ok; [by eapply ad_publish|done]).
  exists bytes, source, policies, schema, session, s, d1, d3, b. rewrite Hrev. cbv zeta. split_and!; try done.
  - by destruct entities; eauto.
  - by eapply ad_publish.
  - by apply load_active_lookup.
  - intros r x Hx. eapply only_active; [done|exact Hload|done].
  - unfold view, active_revision. cbn. unfold load_active_policy_bundle in Hload. by rewrite Hload.
  - by rewrite Hhex, Hsum.
  - rewrite Hst. unfold bundle_active in Hact. apply bool_decide_eq_true in Hact. by rewrite Hact.
Qed.
End runs.

Lemma omap_length_all {A B} (f : A → option B) l : length (omap f l) = length l → ∀ x, x ∈ l → is_Some (f x).
Proof.
  assert (∀ l : list A, (length (omap f l) ≤ length l)%nat) as Hle.
  { intros l'. induction l' as [|y l' IH]; cbn; [done|]. destruct (f y); cbn; lia. }
  induction l as [|y l IH]; intros E x; [set_solver|]. pose proof (Hle l). cbn in E. destruct (f y) as [b|] eqn:Hy; cbn in E; [|lia].
  intros [->|Hin]%elem_of_cons; [by rewrite Hy|]. apply IH; [lia|done].
Qed.
Lemma accepted_private version now d :
  is_Some (accepted_row version now (configured (descriptor_value d))) → de_has_private_material d = true.
Proof.
  change (configured (descriptor_value d)) with
    (mk_configured (Some (de_kid d)) (Some (de_algorithm d)) (Some (de_status d)) (Some (de_public_jwk d)) (de_has_private_material d)).
  unfold accepted_row. cbn -[signing_status_of]. intros [row (status & _ & Hrow)%bind_Some].
  destruct (bool_decide _ && _) eqn:E; [|done]. by apply andb_true_iff in E as [_ ?].
Qed.

Section synchronization.
Context {W TE RE : Type} `{U : UuidText} `{!AdminWorld W TE RE} `{!AdminWorldLaws W TE RE} `{JwtLibrary} `{TokenCrypto}.
#[local] Set Default Proof Using "Type*".

(** Synchronization.  It reports success only for a ring whose every key
    carries its private material, also the keys that only verify: a ring that
    keeps the public part of a retired key is refused, although the statement
    was executed and committed. *)
Theorem synchronization_needs_private_keys (ring : JwtKeyRing) (version : str) (records : list SigningKeyRecord) (w w' : W)
    (Hsync : synchronize ring version w = (Ok records, w')) :
  ∀ k, k ∈ ring_keys ring → has_encoding (key_encoding k) = true.
Proof.
  unfold synchronize in Hsync. apply io_fail_Ok in Hsync as [_ Hs]. cbv zeta in Hs.
  apply io_bind_Ok in Hs as (now & w1 & [_ ->]%admin_now_Ok & Hs).
  apply io_bind_Ok in Hs as (rows & w2 & Hq%io_call_Ok & Hs).
  apply io_bind_Ok in Hs as (n & w3 & [Hn ->]%io_lift_Ok & Hs). apply io_fail_Ok in Hs as [Hc _].
  apply negb_false_iff, Z.eqb_eq in Hc. apply admin_query_Ok in Hq as (first & d1 & d2 & _ & Hex & _). cbn [admin_exec] in Hex.
  apply bind_Some in Hex as ([count d3] & Hsync & [= <- <-]). cbn in Hn. injection Hn as <-. apply Nat2Z.inj in Hc.
  unfold sync_signing_keys in Hsync. case_bool_decide; [|done]. apply bind_Some in Hsync as (keys & _ & [= <- <-]).
  intros k Hk. assert (descriptor k ∈ descriptors ring) as Hin.
  { unfold descriptors. rewrite merge_sort_Permutation. by apply list_elem_of_fmap_2. }
  change (has_encoding (key_encoding k)) with (de_has_private_material (descriptor k)).
  eapply accepted_private, (omap_length_all (λ v, accepted_row version (u64_to_i64 now) (configured v))
    (map descriptor_value (descriptors ring))); [by rewrite Hc, length_map|]. by apply list_elem_of_fmap_2.
Qed.
End synchronization.
