(* ===== verification/DecisionExample.v ===== *)
(** * DecisionExample: enforcement, decisions and policies on concrete hosts

    The theorems of [HttpPepProofs] on a request to a service behind the host
    of [MiddlewareExample] with a decision point that allows, those of
    [CedarProofs] with an engine that allows every question, and those of
    [SpiceProofs] with a SpiceDB that knows one permission; the header lists
    are those of [MiddlewareExample], the documents are tables.  The last module
    runs the statements and services of [Administration] on a small database. *)

From S2P Require Import KernelExample TokenExample Administration.
From S2P Require Import SpiceProofs HttpPepProofs CedarProofs MiddlewareExample.
Open Scope Z_scope.

Module Pep.
#[local] Existing Instances alist_bytes alist_bytes_laws list_host list_host_laws toy_uri_parser toy_methods toy_metadata
  toy_metadata_laws toy_broker toy_broker_world.

Definition allow0 : DecisionResponseV1 := DecisionResponseV1_allow DecisionMetadataV1_new.
#[local] Instance toy_authzen : AuthzenCodec := {|
  evaluation_to_vec _ := Some [123; 125];
  decision_from_slice b := if bool_decide (b = [1; 2]) then Some (DecisionResponseV1_serialize allow0) else None;
|}.
#[local] Instance toy_pdp : Wasip3Host toy_world := {|
  timeout_options _ := Some tt;
  outgoing_body b := b;
  client_exchange _ request _ w :=
    (Received 200 ([(lit "Content-Type", lit "application/json; charset=utf-8"); (lit "content-length", lit "2")] : Fields)
       [ChunkComplete [1]; ChunkDropped [2] (Ok tt) true],
     mk_toy (tw_in_flight w) (tw_ids w) (request_headers request :: tw_calls w));
|}.

Definition pep_env : environment :=
  [(SERVICE_ID_ENV, lit "orders"); (ENDPOINT_ENV, lit "https://pdp.example/access/v1/evaluation");
   (PDP_BEARER_ENV, lit "0123456789abcdef"); (lit "PATH", lit "/bin")].
Definition pep_client : AuthzenClient (BearerAuthTransport Wasip3Transport) :=
  mk_client ((lit "https", (lit "pdp.example", lit "/access/v1/evaluation")) : Uri)
    (mk_bearer_transport (mk_wasip3 2000000000)
       (mk_bearer (lit "0123456789abcdef") (lit "Bearer 0123456789abcdef" : HeaderValue))).
Definition pep_config : ComponentConfig := mk_component_config (lit "orders") (ClientAuthenticated pep_client).
Lemma pep_config_loads : pep_from_environment pep_env = Ok pep_config.
Proof. vm_compute. reflexivity. Qed.

Definition not_found : Handler (W := toy_world) := λ request w, (Ok (mk_response 404 [] []), w).
Definition guarded (service : Handler) := secure_defaults_handle toy_ids toy_env (http_pep_handle pep_env service) toy_request toy_start.
(** The broker and then the decision point are asked. *)
Example guarded_run :
  rs_status (response_of (guarded toy_application)) = 200 ∧ rs_status (response_of (guarded not_found)) = 404
  ∧ length (tw_calls (guarded toy_application).2) = 2%nat.
Proof. vm_compute. done. Qed.

Example guarded_service_witness :
  rs_status (response_of (guarded toy_application)) = 200
  ∧ ∃ pep context d, pep_from_environment pep_env = Ok pep ∧ ac_service_id context = cc_service_id pep ∧ is_allowed d = true.
Proof.
  split; [by vm_compute|].
  destruct (guarded_service toy_ids toy_env pep_env toy_request toy_start)
    as [[out Hout]|(fwd & fin & rid & v & c & authn & pep & t & p & m & d & w0 & w1 & w2 & _ & _ & _ & _ & _ & Hpep & _ & _ & _ & Hs & _ & _ & _ & _ & _ & Hd)].
  - exfalso. assert (rs_status (response_of (guarded toy_application)) = rs_status (response_of (guarded not_found))) as E
      by (unfold guarded; by rewrite (Hout toy_application), (Hout not_found)).
    vm_compute in E. discriminate E.
  - exists pep, c, d. by split_and!.
Defined.

Definition forwarded_request : Request :=
  mk_request [(lit "x-wasi-auth-context", lit "B"); (lit "x-request-id", lit "request-1")]
    MGet (Some SHttps) (Some (lit "/orders?page=2")) (Some (lit "orders.example")) None (lit "body").
Example pep_forwards_allowed_witness :
  rs_status (response_of (http_pep_handle pep_env not_found forwarded_request toy_start)) = 404
  ∧ ∃ context e d w', evaluation_of pep_config forwarded_request context e
      ∧ pdp_decided (cc_client pep_config) e toy_start w' d ∧ is_allowed d = true.
Proof.
  split; [by vm_compute|].
  destruct (pep_forwards_allowed pep_env forwarded_request toy_start)
    as [(config & context & e & d & w' & Hc & Hof & Hd & Ha & _)|(status & w' & Heq & _)].
  - rewrite pep_config_loads in Hc. injection Hc as <-. by exists context, e, d, w'.
  - exfalso. assert (response_of (http_pep_handle pep_env toy_application forwarded_request toy_start)
                     = response_of (http_pep_handle pep_env not_found forwarded_request toy_start)) as E
      by (by rewrite (Heq toy_application), (Heq not_found)).
    vm_compute in E. discriminate E.
Defined.

Example pep_configuration_safe_witness :
  cc_client pep_config = ClientAuthenticated pep_client ∧ is_token (cc_service_id pep_config) = true.
Proof. split; [reflexivity|]. exact (proj1 (pep_configuration_safe pep_env pep_config pep_config_loads)). Defined.

Definition evaluation0 : AccessEvaluation := http_evaluation context0 (lit "GET") (lit "/orders") None.
Example pdp_exchange_exact_witness :
  component_evaluate (ClientAuthenticated pep_client) evaluation0 toy_start
    = (Ok allow0, (component_evaluate (ClientAuthenticated pep_client) evaluation0 toy_start).2)
  ∧ ∃ body outgoing, AccessRequestV1_to_json_vec evaluation_to_vec evaluation0 = Ok body
      ∧ header_values (request_headers outgoing) AUTHORIZATION = [lit "Bearer 0123456789abcdef"].
Proof.
  split; [vm_compute; reflexivity|].
  destruct (pdp_exchange_exact pep_client evaluation0 toy_start
              (component_evaluate (ClientAuthenticated pep_client) evaluation0 toy_start).2 allow0)
    as (body & outgoing & fields & pre & chunk & post & Hb & _ & _ & _ & _ & _ & Hv & _).
  - vm_compute. reflexivity.
  - exists body, outgoing. split; [done|]. by rewrite Hv.
Defined.

Example coarse_evaluation_exact_witness :
  context_valid context0 ∧ coarse_http_evaluation context0 (lit "orders") (lit "GET") (lit "/orders?page=2") None = Ok evaluation0.
Proof.
  split; [apply context0_valid|].
  refine (proj2 (coarse_evaluation_exact context0 (lit "orders") (lit "GET") (lit "/orders?page=2") None evaluation0 _) _).
  - apply context0_valid.
  - exists (lit "GET"), (lit "/orders"). vm_compute. by split_and!.
Defined.
End Pep.

Module CedarService.
#[local] Existing Instances alist_bytes alist_bytes_laws toy_uri_parser allow_all allow_all_laws.

Definition alice_subject : AuthenticatedSubjectV1 :=
  mk_subject (lit "principal") (lit "alice") (lit "https://idp.example") (Some (lit "acme")) [lit "read"]
    [mk_attribute (lit "level") (AInteger 3) IdentityProvider].
Definition cedar_evaluation : AccessEvaluation :=
  Contract.mk_request (Contract.Authenticated alice_subject) (mk_action (lit "http.request") [])
    (Contract.mk_resource (lit "service") (lit "orders") []) None.
Definition cedar0 : CedarProvider := mk_cedar (lit "permit;") (Some tt) [] (lit "http-policy-1") (lit "cedar-4.11.2").
Definition decision0 : DecisionResponseV1 :=
  match evaluate_sync cedar0 cedar_evaluation with Ok d => d | Err _ => DecisionResponseV1_deny DecisionMetadataV1_new end.

Example cedar_principal_facts_witness :
  is_ok (principal_attributes (Contract.Authenticated alice_subject)) = true
  ∧ ∃ m, bmap_get (lit "wasi_issuer") m = Some (VString (lit "https://idp.example")).
Proof.
  split; [by vm_compute|].
  destruct (principal_attributes (Contract.Authenticated alice_subject)) as [m|] eqn:E; [|by vm_compute in E].
  exists m. exact (proj1 (cedar_principal_facts alice_subject m E)).
Defined.

Definition bob_subject : AuthenticatedSubjectV1 :=
  mk_subject (lit "principal") (lit "alice") (lit "https://idp.example") None [] [].
Lemma alice_wire : wire_subject (Contract.Authenticated alice_subject).
Proof.
  assert (wire_request cedar_evaluation) as [Hs _ _ _ _ _ _]; [|exact Hs].
  eapply (deserialize_request_wf (AccessRequestV1_serialize cedar_evaluation)). vm_compute. reflexivity.
Qed.
Lemma bob_wire : wire_subject (Contract.Authenticated bob_subject).
Proof.
  apply (deserialize_subject_wf (SubjectV1_serialize (Contract.Authenticated bob_subject))). vm_compute. reflexivity.
Qed.
Example cedar_principals_distinct_witness :
  principal_uid (Contract.Authenticated alice_subject) = principal_uid (Contract.Authenticated bob_subject)
  ∧ issuer alice_subject = issuer bob_subject.
Proof.
  split; [by vm_compute|].
  refine (proj1 (cedar_principals_distinct (Contract.Authenticated alice_subject) (Contract.Authenticated bob_subject)
    (lit "principal", canonical_principal_id alice_subject) alice_wire bob_wire _ _ _)).
  - intros a [E|E]; injection E as <-; vm_compute; done.
  - vm_compute. reflexivity.
  - vm_compute. reflexivity.
Defined.

(** ** Documents as tables *)

#[local] Existing Instance ContractExample.request_wire_eq_dec.
Definition decision_table (w : DecisionWire) : option (list Z) :=
  match w with
  | mk_decision_wire true (Some [(k, VObject [(k1, VString v1); (k2, VString v2); (k3, VString v3); (k4, VString v4)])]) =>
      if decide ([k; k1; v1; k2; v2; k3; v3; k4; v4] =
        [lit "wasi_authz"; lit "model"; lit "cedar"; lit "model_version"; lit "cedar-4.11.2";
         lit "policy_revision"; lit "http-policy-1"; lit "reason_code"; lit "cedar.allow"]) then Some [2] else None
  | _ => None
  end.
#[local] Instance table_client : AuthzenCodec := {|
  evaluation_to_vec w := if decide (w = AccessRequestV1_serialize cedar_evaluation) then Some [1] else None;
  decision_from_slice b := if decide (b = [2]) then Some (DecisionResponseV1_serialize decision0) else None;
|}.
#[local] Instance table_service : PdpCodec := {|
  evaluation_from_slice b := if decide (b = [1]) then Some (AccessRequestV1_serialize cedar_evaluation) else None;
  decision_to_vec := decision_table;
|}.
Lemma table_requests wire b : evaluation_to_vec wire = Some b → evaluation_from_slice b = Some wire.
Proof. cbn. case_decide; [subst|done]. by intros [= <-]. Qed.
Lemma table_decisions wire b : decision_to_vec wire = Some b → decision_from_slice b = Some wire.
Proof.
  cbn. unfold decision_table. intros H. repeat case_match; simplify_eq.
  match goal with E : _ = [lit "wasi_authz"; _; _; _; _; _; _; _; _] |- _ => injection E as -> -> -> -> -> -> -> -> -> end.
  vm_compute. reflexivity.
Qed.

Definition pdp_endpoint : Uri := (lit "https", (lit "pdp.example", lit "/access/v1/evaluation")).
Lemma cedar0_made : provider_made cedar0.
Proof. left. exists (lit "permit;"), [], [], (lit "http-policy-1"), (lit "cedar-4.11.2"). vm_compute. reflexivity. Qed.
Lemma evaluation_wire : wire_request cedar_evaluation.
Proof. apply (deserialize_request_wf (AccessRequestV1_serialize cedar_evaluation)). vm_compute. reflexivity. Qed.
#[local] Existing Instance service_transport.
Example remote_cedar_agrees_witness :
  is_allowed decision0 = true
  ∧ client_evaluate (mk_client pdp_endpoint (mk_service cedar0)) cedar_evaluation tt = (Ok decision0, tt).
Proof.
  split; [by vm_compute|].
  etransitivity; [refine (remote_cedar_agrees cedar0 pdp_endpoint cedar_evaluation tt table_requests table_decisions cedar0_made _ evaluation_wire)|].
  - vm_compute. reflexivity.
  - vm_compute. reflexivity.
Defined.

(** ** The component *)

Definition pdp_env : environment := [(PDP_BEARER_ENV, lit "0123456789abcdef")].
Definition pdp_head (token : str) : HttpRequest :=
  mk_http_request (lit "POST") pdp_endpoint
    ([(AUTHORIZATION, lit "Bearer " ++ token); (CONTENT_TYPE, lit "application/json"); (CONTENT_LENGTH, lit "1")] : HeaderMap) [].
Definition component_answer (token : str) : HttpResponse :=
  match component_handle (lit "permit;") [] [] pdp_env (pdp_head token) [Data []; Data [1]] with
  | Ok r => r
  | Err _ => component_empty_response 500
  end.
Example component_refuses : hs_status (component_answer (lit "0123456789abcdeg")) = 401.
Proof. vm_compute. reflexivity. Qed.
Example cedar_component_guarded_witness :
  hs_status (component_answer (lit "0123456789abcdef")) = 200
  ∧ ∃ provider d, new_validated (lit "permit;") [] [] (lit "http-policy-1") (lit "cedar-4.11.2") = Ok provider
      ∧ DecisionResponseV1_to_json_vec decision_to_vec d = Ok (hs_body (component_answer (lit "0123456789abcdef"))).
Proof.
  split; [by vm_compute|].
  destruct (cedar_component_guarded (lit "permit;") [] [] pdp_env (pdp_head (lit "0123456789abcdef")) [Data []; Data [1]]
              (component_answer (lit "0123456789abcdef"))) as (provider & au & chunks & e & d & _ & Hp & _ & _ & _ & _ & Hd).
  - vm_compute. reflexivity.
  - vm_compute. reflexivity.
  - by exists provider, d.
Defined.
End CedarService.

Module SpiceService.
Import SpicePdp SpiceProofs.
#[local] Existing Instances alist_bytes alist_bytes_laws list_host toy_uri_parser.

Definition evaluation0 : AccessEvaluation := CedarService.cedar_evaluation.
(** SpiceDB behind a host that counts the exchanges. *)
#[local] Instance toy_spicedb : Wasip3Host nat := {|
  timeout_options _ := Some tt;
  outgoing_body b := b;
  client_exchange _ _ _ w :=
    (Received 200 ([(lit "content-type", lit "application/json"); (lit "content-length", lit "1")] : Fields)
       [ChunkDropped [9] (Ok tt) true], S w);
|}.
#[local] Instance toy_spice_codec : SpiceCodec := {|
  check_to_vec check := if bool_decide (cp_permission check = lit "view") then Some [8] else None;
  check_from_slice b :=
    if bool_decide (b = [9]) then Some (mk_check_response (Some (lit "zed-1")) (lit "PERMISSIONSHIP_HAS_PERMISSION") None None None)
    else None;
  spice_base64 _ := lit "alice";
|}.
Definition spice_env : environment :=
  [(SPICEDB_ENDPOINT_ENV, lit "https://spicedb.example/v1/permissions/check"); (SPICEDB_BEARER_ENV, lit "fedcba9876543210");
   (PEP_BEARER_ENV, lit "0123456789abcdef"); (PERMISSION_MAP_ENV, lit "http.request=view,orders.write=edit");
   (POLICY_REVISION_ENV, lit "schema-1"); (MODEL_VERSION_ENV, lit "v1")].
Definition spice0 : SpiceDbProvider (BearerAuthTransport Wasip3Transport) :=
  match spice_from_environment spice_env with
  | Ok config => provider config
  | Err _ => mk_spicedb CedarService.pdp_endpoint (mk_bearer_transport (mk_wasip3 0) (mk_bearer [] [])) [] [] []
  end.
Definition allowed0 : DecisionResponseV1 :=
  DecisionResponseV1_allow (mk_metadata None (Some (lit "schema-1")) (Some (lit "spicedb")) (Some (lit "v1"))
    (Some (lit "spicedb.allow")) (Some (lit "zed-1"))).

Example spice_decision_exact_witness :
  evaluate_inner spice0 evaluation0 0%nat = (Ok allowed0, 1%nat)
  ∧ ∃ permission wire, bmap_get (lit "http.request") (sp_permissions spice0) = Some permission
      ∧ permissionship wire = lit "PERMISSIONSHIP_HAS_PERMISSION".
Proof.
  split; [vm_compute; reflexivity|].
  destruct (spice_decision_exact spice0 evaluation0 0%nat 1%nat allowed0)
    as [(E & _)|(subject & permission & body & response & wire & token & m & _ & _ & _ & _ & Hp & _ & _ & _ & _ & Hv)].
  - vm_compute. reflexivity.
  - discriminate E.
  - exists permission, wire. split; [exact Hp|]. exact (vr_verdict _ _ _ _ _ Hv).
Defined.

Example permission_map_exact_witness :
  parse_permission_map (lit "http.request=view,orders.write=edit")
    = Ok [(lit "http.request", lit "view"); (lit "orders.write", lit "edit")]
  ∧ ∃ mappings : list (str * str), NoDup mappings.*1 ∧ (lit "orders.write", lit "edit") ∈ mappings.
Proof.
  split; [vm_compute; reflexivity|].
  destruct (permission_map_exact (lit "http.request=view,orders.write=edit")
    [(lit "http.request", lit "view"); (lit "orders.write", lit "edit")]) as (mappings & _ & _ & Hd & _ & Hm).
  - vm_compute. reflexivity.
  - exists mappings. split; [exact Hd|]. apply Hm. vm_compute. reflexivity.
Defined.

(** ** The service *)

#[local] Existing Instance ContractExample.request_wire_eq_dec.
Definition decision_table (w : DecisionWire) : option (list Z) :=
  match w with
  | mk_decision_wire true (Some [(k, VObject [(k1, VString v1); (k2, VString v2); (k3, VString v3); (k4, VString v4);
                                              (k5, VString v5)])]) =>
      if decide ([k; k1; v1; k2; v2; k3; v3; k4; v4; k5; v5] =
        [lit "wasi_authz"; lit "consistency_token"; lit "zed-1"; lit "model"; lit "spicedb"; lit "model_version"; lit "v1";
         lit "policy_revision"; lit "schema-1"; lit "reason_code"; lit "spicedb.allow"]) then Some [2] else None
  | _ => None
  end.
#[local] Instance table_client : AuthzenCodec := {|
  evaluation_to_vec w := if decide (w = AccessRequestV1_serialize evaluation0) then Some [1] else None;
  decision_from_slice b := if decide (b = [2]) then Some (DecisionResponseV1_serialize allowed0) else None;
|}.
#[local] Instance table_service : PdpCodec := {|
  evaluation_from_slice b := if decide (b = [1]) then Some (AccessRequestV1_serialize evaluation0) else None;
  decision_to_vec := decision_table;
|}.
Lemma spice_table_requests wire b : evaluation_to_vec wire = Some b → evaluation_from_slice b = Some wire.
Proof. cbn. case_decide; [subst|done]. by intros [= <-]. Qed.
Lemma spice_table_decisions wire b : decision_to_vec wire = Some b → decision_from_slice b = Some wire.
Proof.
  cbn. unfold decision_table. intros H. repeat case_match; simplify_eq.
  match goal with E : _ = [lit "wasi_authz"; _; _; _; _; _; _; _; _; _; _] |- _ => injection E as -> -> -> -> -> -> -> -> -> -> -> end.
  vm_compute. reflexivity.
Qed.
#[local] Existing Instance decision_service.
Example remote_spice_agrees_witness :
  is_allowed allowed0 = true
  ∧ client_evaluate (mk_client CedarService.pdp_endpoint (mk_decision_service spice0)) evaluation0 0%nat = (Ok allowed0, 1%nat).
Proof.
  split; [by vm_compute|].
  etransitivity; [refine (remote_spice_agrees spice0 CedarService.pdp_endpoint evaluation0 0%nat spice_table_requests
                            spice_table_decisions _ _ CedarService.evaluation_wire)|].
  - exists (sp_endpoint spice0), (sp_transport spice0), (sp_permissions spice0), (sp_schema_revision spice0), (sp_model_version spice0).
    vm_compute. reflexivity.
  - vm_compute. reflexivity.
  - vm_compute. reflexivity.
Defined.

Definition spice_answer (token : str) : HttpResponse * nat :=
  spice_handle spice_env (Some (CedarService.pdp_head token, [FrameData [1]; FrameTrailers])) 0%nat.
(** A wrong credential is refused before SpiceDB is asked. *)
Example spice_refuses :
  hs_status (spice_answer (lit "fedcba9876543210")).1 = 401 ∧ (spice_answer (lit "fedcba9876543210")).2 = 0%nat.
Proof. vm_compute. done. Qed.
Example spice_component_guarded_witness :
  hs_status (spice_answer (lit "0123456789abcdef")).1 = 200
  ∧ ∃ config e d, spice_from_environment spice_env = Ok config ∧ credentials_apart config
      ∧ evaluate_inner (provider config) e 0%nat = (Ok d, (spice_answer (lit "0123456789abcdef")).2).
Proof.
  split; [by vm_compute|].
  destruct (spice_component_guarded spice_env (Some (CedarService.pdp_head (lit "0123456789abcdef"), [FrameData [1]; FrameTrailers]))
              0%nat (spice_answer (lit "0123456789abcdef")).2 (spice_answer (lit "0123456789abcdef")).1)
    as (config & head & frames & header & e & d & Hc & _ & Ha & _ & _ & _ & _ & _ & Hd & _).
  - vm_compute. reflexivity.
  - vm_compute. reflexivity.
  - exists config, e, d. exact (conj Hc (conj Ha Hd)).
Defined.
End SpiceService.

Module Policies.
Import KernelExample TokenExample Administration.
#[local] Existing Instance allow_all.

(** Alice administers the system from her desk. *)
Definition desk : Uuid := [17].
Definition admin_base : Db :=
  mk_db {[ alice := mk_user (lit "alice@example.com") (lit "Alice@example.com") UActive 1 0 ]} ∅
    {[ desk := mk_session alice None DbAal2 1 1 9000000 None 0 ]} ∅ ∅ ∅ ∅
    (mk_directory ∅ ∅ ∅ ∅ ∅ {[ alice := true ]} ∅ None) [] (mk_outbox ∅ []).
Definition key0 (status : SigningKeyStatus) : KeyRow :=
  mk_key (lit "ES256") status VNull (lit "v1") (Some (lit "runtime-key-ring:k")) 0 None None None.
Definition bundle0 : BundleRow := mk_bundle (lit "schema") (lit "permit;") (VArray []) [1] BActive alice 0 (Some 0).
Definition admin_start : AdminDb :=
  mk_admin admin_base {[ lit "sha256:01" := bundle0 ]}
    {[ lit "old" := key0 KeyActive; lit "new" := key0 KeyNext; lit "lost" := key0 KeyRevoked ]}.
Lemma one_active_bool {V} (active : V → bool) (m : gmap str V) :
  (length (List.filter (λ kv, active kv.2) (map_to_list m)) ≤ 1)%nat → one_active active m.
Proof.
  intros Hl i j v w Hi Hj Hv Hw. set (l := List.filter _ _) in Hl.
  assert ((i, v) ∈ l ∧ (j, w) ∈ l) as [Hin Hjn]
    by (unfold l; rewrite !list_elem_of_In, !filter_In, <- !list_elem_of_In, !elem_of_map_to_list; done).
  destruct l as [|x [|y l]]; [set_solver| |cbn in Hl; lia]. set_solver.
Qed.
Lemma admin_start_ok : tables_ok admin_start.
Proof. split; apply one_active_bool; vm_compute; lia. Qed.

Definition rotated (retire : bool) := rotate_signing_key desk (lit "new") retire [99] 1000 (lit "r1") admin_start.
Definition rotated_db (retire : bool) : AdminDb := match rotated retire with Some (_, d) => d | None => admin_start end.
Definition rotated_row (retire : bool) := (lit "new", activate_key 1000 (key0 KeyNext), Some (lit "old")).
Lemma rotated_run retire : rotated retire = Some (Some (rotated_row retire), rotated_db retire).
Proof. by destruct retire; vm_compute. Qed.
Example rotation_effect_witness :
  signing_key_accepted (lit "old") (view (rotated_db true)) = true
  ∧ signing_key_accepted (lit "old") (view (rotated_db false)) = false.
Proof.
  split.
  - refine (proj1 (proj2 (proj2 (proj2 (proj2 (proj2 (rotation_effect desk (lit "new") true [99] 1000 (lit "r1") admin_start
      (rotated_db true) (rotated_row true) admin_start_ok (rotated_run true))))))) (lit "old") eq_refl _). done.
  - refine (proj1 (proj2 (proj2 (proj2 (proj2 (proj2 (rotation_effect desk (lit "new") false [99] 1000 (lit "r1") admin_start
      (rotated_db false) (rotated_row false) admin_start_ok (rotated_run false))))))) (lit "old") eq_refl _). done.
Defined.
Example revoked_keys_stay_out_witness :
  key_revoked (ad_keys admin_start) (lit "lost")
  ∧ load_request_context desk 2000 (lit "lost") (view (rotated_db true)) = None.
Proof.
  split; [vm_compute; reflexivity|].
  destruct (revoked_keys_stay_out admin_start (rotated_db true) admin_start_ok) as [_ Hr].
  - apply rtc_once. exact (ad_rotate _ _ _ _ _ _ _ _ _ (rotated_run true)).
  - refine (proj2 (proj2 (Hr (lit "lost") _) desk 2000) _); [vm_compute; reflexivity|done].
Defined.

Definition publish0 : PublishArgs :=
  mk_publish desk (lit "sha256:02") (lit "schema") (lit "forbid;") (VArray []) [2] 1000 [98] (lit "r2").
Example replacement_needs_order_witness :
  publish_policy_bundle false publish0 admin_start = None
  ∧ is_Some (publish_policy_bundle true publish0 admin_start).
Proof.
  destruct (replacement_needs_order publish0 admin_start (mk_session alice None DbAal2 1 1 9000000 None 0) (lit "sha256:01") bundle0)
    as [Hn (out & d & Hy & _)].
  - vm_compute. reflexivity.
  - vm_compute. reflexivity.
  - vm_compute. reflexivity.
  - discriminate.
  - exact admin_start_ok.
  - intros r x Hx. cbn in Hx. apply lookup_singleton_Some in Hx as [_ <-]. discriminate.
  - vm_compute. reflexivity.
  - vm_compute. reflexivity.
  - split; [exact Hn|]. rewrite Hy. by eexists.
Defined.

(** ** The services *)

Record AdminMachine := mk_admin_machine { am_db : AdminDb; am_draws : Z }.
#[local] Instance admin_machine : AdminWorld AdminMachine unit unit := {|
  admin_db := am_db;
  admin_now _ := 1;
  admin_random n m := (Ok (replicate n (am_draws m)), mk_admin_machine (am_db m) (am_draws m + 1));
  admin_query sql ps m :=
    match admin_exec sql ps true (am_db m) with
    | Some (out, d) => (Ok out, mk_admin_machine d (am_draws m))
    | None => (Err tt, m)
    end;
|}.
#[local] Instance admin_machine_laws : AdminWorldLaws AdminMachine unit unit.
Proof.
  split.
  - by intros n w r w' [= <- <-].
  - cbn. intros sql ps w r w' E. exists (am_db w). split; [done|].
    destruct (admin_exec sql ps true (am_db w)) as [[out d]|] eqn:Ex; injection E as <- <-; [left|by right].
    exists true, out, d. split_and!; [done|done|]. by intros out' [= <-].
Qed.
#[local] Instance toy_policy_codec : PolicyCodec := {|
  entity_to_vec _ := Some [91; 93];
  entity_to_string _ := Some (lit "[]");
  policy_sha256 b := take 2 b;
|}.
Definition published := publish (print_letters desk) (lit "schema") (lit "forbid;") (VArray []) (lit "r3") (mk_admin_machine admin_start 5).
Definition published_record : PolicyBundleRecord :=
  match published.1 with Ok r => r | Err _ => mk_bundle_record [] [] [] [] 0 None end.
Lemma published_run : published = (Ok published_record, published.2).
Proof. vm_compute. reflexivity. Qed.
Example publication_exact_witness :
  br_status published_record = lit "active"
  ∧ ∃ d, rtc admin_step admin_start d ∧ active_policy (directory (view d)) = Some (lit "sha256:7363").
Proof.
  split; [vm_compute; reflexivity|].
  destruct (publication_exact (print_letters desk) (lit "schema") (lit "forbid;") (VArray []) (lit "r3")
    (mk_admin_machine admin_start 5) published.2 published_record)
    as (bytes & source & policies & schema & session & s & d1 & d2 & b & _ & _ & _ & _ & _ & _ & _ & _ & _ & Hd1 & Hd2 & _ & _ & _ & _ & _ & _ & _ & Ha & _);
    [exact admin_start_ok|exact published_run|].
  exists d2. split; [exact (rtc_r _ _ _ Hd1 Hd2)|]. rewrite Ha. vm_compute. reflexivity.
Defined.

Definition synchronized := synchronize ring (lit "v1") (mk_admin_machine (mk_admin admin_base ∅ ∅) 5).
Definition synchronized_records : list SigningKeyRecord := match synchronized.1 with Ok r => r | Err _ => [] end.
Example synchronization_needs_private_keys_witness :
  synchronized = (Ok synchronized_records, synchronized.2)
  ∧ ∀ k, k ∈ ring_keys ring → has_encoding (key_encoding k) = true.
Proof.
  assert (synchronized = (Ok synchronized_records, synchronized.2)) as Hrun by (vm_compute; reflexivity).
  split; [exact Hrun|].
  exact (synchronization_needs_private_keys ring (lit "v1") synchronized_records (mk_admin_machine (mk_admin admin_base ∅ ∅) 5)
    synchronized.2 Hrun).
Defined.
End Policies.
